(* ===== verification/_CoqProject ===== *)
-Q . S2P
Prelude.v
RustStr.v
Digest.v
Worklist.v
GraphTypes.v
TypeExpr.v
Evidence.v
Activation.v
ActivationGraph.v
ActivationStep.v
ActivationInv.v
Fixtures.v
ActivationDigest.v
ActivationProps.v
ActivationFinal.v
ActivationReplay.v
GraphTemplate.v
TemplateOrder.v
TemplateProps.v
ChildWorkflow.v
GraphStatus.v
GraphReduce.v
ReduceProps.v
ReduceInv.v
ReduceFold.v
StrLaws.v
EvidenceText.v
Loom.v
LoomRoundTrip.v
FromLoom.v
LoomProps.v
ByteBuf.v
RpcCodec.v
BinaryArtifact.v
RpcBase64.v
RpcDecoder.v
RpcStream.v
RpcEncode.v
RpcProps.v
RpcNegotiate.v
FileSystem.v
Cas.v
CasInv.v
CasClaims.v
BinaryUpload.v
EffectTypes.v
Policy.v
Json.v
Broker.v
BrokerInv.v
BrokerProps.v
Envelope.v
EnvelopeProps.v
Events.v
Journal.v
JournalProps.v
Recovery.v
RecoveryProps.v
RecoveryPass.v
RecoveryAdvice.v
RecoveryClaims.v
Redact.v
RedactProps.v
RedactMask.v
RedactText.v
RedactSample.v
OutputRedactor.v
RedactClaims.v
UpdateFs.v
UpdateMarker.v
Release.v
Update.v
Staging.v
UpdateLogic.v
UpdateSteps.v
UpdateCommit.v
UpdateRestart.v
UpdateClaims.v
UpdateSample.v
StagingProps.v
