(* ===== verification/Prelude.v ===== *)
(** * Verification of the haider-agent core

    haider-agent runs coding sessions.  A session is a journal of events: the
    daemon appends to it, and every view of the session is rebuilt from it.
    This development models six layers of the program:

    - workflows (crate haider-protocol).  An author writes a pipe, a small text
      language; the compiler turns it into a workflow record (a graph template
      and per-node metadata); the record is materialized into an activation
      AST; the activation engine runs an instance of it by folding journal
      facts into a projection.  Beside it lives an older engine, the
      convergence graph, whose sessions pin a template of the release catalogue
      and reduce gate, evidence and run-set facts;
    - the wire (haider-rpc): frames between clients and the daemon;
    - artifacts (haider-store, haider-daemon): the content-addressed store and
      the uploads of a connection into it;
    - effects (haider-tools): the permission policy, the broker that journals
      each effect from intent to outcome, and the redaction of what effects
      print;
    - recovery (haider-core): what a new daemon does with the effects an old
      one left without an outcome;
    - self-update (haider-cli): the discovery and staging of a release, the
      transaction that replaces the installed executables, its recovery, and
      the restart of the daemon.

    ** Files: shared

    - Prelude.v: results, a state-and-error monad, machine integers, list
      operations of the source, and the tactics [res_invert], [st_invert] and
      [guards] that open a successful run into the guards it passed.
    - RustStr.v: Rust strings as UTF-8 bytes, with the operations the source
      uses (trim, lines, split, strip_prefix, parse, sort, dedup).
    - StrLaws.v: how trimming, word and line splitting and searching act on
      concatenations.
    - Digest.v: length-prefixed framing, big- and little-endian.  BLAKE3 is the
      parameter [Blake3]; its documented output shape is the class [Blake3Hex].
    - Worklist.v: the breadth-first loops of the source, over any successor
      function, with totality and reachability theorems.
    - Json.v: JSON trees, and the key order the broker digests them in.

    ** Files: workflows

    - GraphTypes.v: names, gates, node and template records, bounds.
    - TypeExpr.v: the artifact type expressions of loom.rs and the copies of
      their operations in graph.rs, shown equal.
    - Evidence.v: [InstructEvidenceRef] of pipe.rs.
    - Activation.v: [WorkflowActivationAst], [validate_workflow_activation_ast],
      [WorkflowGraphState] with from_started, apply, apply_activation,
      apply_completion, apply_rejection, validate_projection, and
      reduce_workflow_graphs.  A method on [&mut self] is a computation of the
      monad [ST]: it returns its result and the state it leaves, also when it
      fails, so that atomicity is a theorem and not an artefact of the model.
    - ActivationGraph.v (what validation establishes), ActivationStep.v (the
      engine as a transition relation, with the refinement in both directions),
      ActivationInv.v (the invariant), ActivationProps.v, ActivationFinal.v,
      ActivationDigest.v and ActivationReplay.v (the theorems), Fixtures.v (one
      concrete run the witnesses evaluate).
    - GraphTemplate.v: validate_graph_template, the release catalogue and its
      lookups; TemplateOrder.v and TemplateProps.v prove the validator correct
      against a declarative contract.
    - ChildWorkflow.v: selectors and decide_child_workflow.
    - GraphStatus.v and GraphReduce.v: the data of the convergence graph and
      one definition per arm of [GraphReductions::apply_payload], the run-set
      reconciliation and the folds; ReduceProps.v, ReduceInv.v and ReduceFold.v
      hold the theorems.  EvidenceText.v: bounded testimony text and the
      identities of todo run sets.
    - Loom.v: parse_pipe, rebuild_source, compile_pipe; LoomRoundTrip.v: the
      canonical source of a pipe is parsed back to the same AST; FromLoom.v:
      workflow_activation_ast_from_loom; LoomProps.v: the theorems on them.

    ** Files: wire and artifacts

    - ByteBuf.v: byte buffers with the panics of indexing and slicing.
    - RpcCodec.v (codec.rs, uds_codec.rs, ws_codec.rs: writers, value encoders
      and decoders), BinaryArtifact.v (binary_artifact.rs), RpcBase64.v (the
      in-place base64 decoder), RpcDecoder.v (the stream decoder with its
      poison state), RpcEncode.v (the segmented artifact encoder), RpcStream.v
      (the byte stream a decoder reads, as a specification, and the daemon's
      connection loop: reads and the other branches of its select!), RpcProps.v
      (the theorems), RpcNegotiate.v (negotiation.rs).
    - FileSystem.v: the POSIX calls the store uses, over what processes see,
      what reached the device and what is stable, with faults, other writers,
      processes outside the store and crashes as steps.
    - Cas.v (cas.rs: puts, batches and streams, files, uploads, readers,
      removal), CasInv.v (the invariant and what each operation does to it),
      CasClaims.v (theorems).
    - BinaryUpload.v: the frame handler of haider-daemon binary_upload.rs, over
      the store, and its theorems.

    ** Files: effects, journals and recovery

    - EffectTypes.v (intents, rules, verdicts), Policy.v ([PermissionPolicy]
      and session grants), Broker.v ([EffectBroker] and [BrokerJournal] of
      broker.rs, with the tasks of its set as steps), BrokerInv.v, BrokerProps.v.
    - Envelope.v and EnvelopeProps.v: the raw payload of haider-protocol
      envelope.rs; Events.v: the event payloads recovery and the broker use.
    - Journal.v and JournalProps.v: session envelopes, the page reader of
      [StoreHandle], the in-memory store, and the page readers of the SQLite
      store (event_store.rs); the class [StoreHandle] with its laws is what
      recovery relies on, the in-memory store satisfies it, and the SQLite
      readers keep its law on pages.
    - Recovery.v (haider-core recovery.rs, the whole pass), RecoveryProps.v,
      RecoveryPass.v, RecoveryAdvice.v, RecoveryClaims.v.
    - Redact.v (redact.rs, every function), RedactProps.v, RedactMask.v and
      RedactText.v (theorems); RedactSample.v (one engine for the patterns of
      the source, used by witnesses); OutputRedactor.v (output_redactor.rs, the
      escape-sequence filter, the progress line of a task); RedactClaims.v.

    ** Files: self-update

    - UpdateFs.v: an install directory of entries that name inodes, what
      processes see beside every directory the disk may hold, system calls that
      work, fail or never return, and power losses.
    - UpdateMarker.v (members.rs, and the durable marker of transaction.rs with
      its JSON), Update.v (transaction.rs: layout checks, admission, commit,
      rollback, recovery, finalization), UpdateRestart.v (restart.rs, and the
      whole updates of mod.rs).
    - UpdateLogic.v (a program logic for these computations, and what each phase
      of a transaction says of all disks), UpdateSteps.v (its steps, the marker's
      codec, rollback and recovery), UpdateCommit.v (one specification per
      operation), UpdateClaims.v (histories and the theorems), UpdateSample.v (a
      host on which the theorems are applied).
    - Release.v (discovery.rs: versions and their order, trusted URLs, the paged
      listing, the choice of a release, and the theorems), Staging.v
      (staging.rs: the checksum file, the strict archive reader, signing, trying
      and freezing), StagingProps.v (the grammar of archives and the theorems).

    ** What the theorems show

    - Activation engine: every reachable projection passes the check stores run
      on it; [apply] succeeds exactly on the steps of the transition relation,
      and a refused fact changes nothing; joins never fire early, evidence is
      never dangling, a back edge restarts exactly what lies behind its target,
      the number of activations has a static bound, and completed, abandoned
      and superseded graphs are final.  Projections are valid, independent per
      graph, and incremental.
    - Templates: the validator accepts exactly the bounded, closed, acyclic,
      rooted graphs with coherent gates; the catalogue passes it.
    - Reducer: per-graph isolation, an invariant of every projection and run
      set, the exact effect of a targeted retry, neutrality of observations,
      and where the incremental and batch folds agree and where they do not.
    - Loom: a compiled pipe is a valid template in declaration order, obeys the
      typed-edge law, keeps every parse error, and materializes into exactly
      the template's graph; its canonical source reads back as the same AST;
      one accepted pipe that does not materialize, and one whose canonical
      source outgrows the parser.
    - Digests: two values with one digest are equal, or the hash collides.
    - Wire: the daemon's connection loop, with the other events it selects
      between reads, refines a reader of the byte stream; what is sent arrives
      however it is cut, the in-place upload decoder is exact, and a decoder
      never panics, loops or exceeds its limit.
    - Artifacts: whatever fails or stops, and whatever other writers of the
      store do, an object file holds the bytes of its digest unless a process
      outside the store left something else under that name, which readers
      detect; a finished upload survives a crash, is acknowledged only for what
      was sent, and completes on a working store; one retried put that is
      acknowledged and not durable.
    - Effects: the journal holds a legal history of every effect under any
      calls and task interleavings; a permitted effect is justified by policy
      or answer; closing settles everything and loses no unobserved error,
      however its tasks end or fail; a lockdown cannot be lifted.
    - Recovery: composed with the broker, a crash at any point leaves journals
      that one pass settles and later passes leave alone; reading the SQLite
      store by filtered pages is exact, or fails with the reader's error; the
      advice to retry is borne out by the journaled facts of the effect's call.
    - Payloads: the reply of every known shape is found and taken out, and
      promotion and restoring lose nothing, but for one kind of malformed slot.
    - Redaction: no recognized secret is shown, lines are kept, the bounded
      preview is the prefix of the full one, slices stay on character bounds,
      and chunking of the output does not matter; two lines on which part of a
      credential is shown.
    - Self-update: whatever fails, dies or is lost with the power, an admitted
      directory is one complete bundle; a reported success is on every disk, a
      reported health failure restored the old bundle; the old daemon is told to
      stop at most once, over a verified bundle, and only children the updater
      started are killed; a success means that the new daemon took over; a marker reads back as written, and nothing unsafe is read; one
      reinstallation that a crash turns into a directory no update admits.
    - Releases: versions parse and print back exactly and their precedence is a
      total order; discovery offers only a strictly newer release, the newest of
      the whole listing, from the trusted repository; the archive reader accepts
      exactly the archives of a grammar and writes nothing but bounded binaries
      of the bundle on any input; and a staged bundle was checked in full, which
      is what the transaction theorems ask of it.

    ** Parameters

    Code outside the repository is an argument with its documented behaviour
    as class laws or named hypotheses: BLAKE3 ([Blake3], [Blake3Hex]), serde's
    encoding of frames and events ([EventJson] with [EventJsonLaws], the JSON
    text and Debug text of values), the operating system (file-system results,
    process probes, clocks and deadlines), memory sizes ([MemoryLayout]), the
    Loom registry, and for redaction the regular-expression engine, base64 and
    the entropy function.  The engine's laws are asked per line (a match lies
    inside the line, on character bounds, in order), never for all inputs, and
    RedactSample.v gives an engine that meets them on the witnesses.  For
    self-update: SHA-256 ([Sha256], [Sha256Hex]), serde_json on markers
    ([MarkerJson], [MarkerJsonLaws]), the signature check and the version a
    binary prints ([HostChecks], [HostErrors]), and the observations of a restart
    (connections, exit statuses, the profile lock), each loop reading a finite
    list that ends at its deadline.  For releases: the release service
    ([Releases]), and the downloads, decoder, signing tools and runs of staged
    binaries ([Host]); a run of a staged binary is assumed not to change the
    staged files.  For journals: which calls into SQLite fail ([SqliteEngine])
    and what its rows decode to.

    ** Bounds and fuel

    Loops that are not structural take fuel and return [None] (the archive reader
    an error of its own, shown not to occur) when it runs out;
    each definition passes a static bound (nodes and edges of a graph, bytes
    buffered by a decoder, envelopes of a journal and one more for its page
    loop), and the theorems show that the bound is enough wherever the code
    reaches the loop.  Machine integers are [N] with checked or saturating
    addition at their width, as the source writes them; [usize] is taken as 64
    bits, and hosts as POSIX.

    ** Not modelled

    The editable JSON authoring format of loom.rs, graph telemetry and the
    provider brief of graph.rs, the reply arena of reply.rs (replies are plain
    text here), image bounding of the content store, the process
    registry and workspace receipts of the broker, the curl client of the
    updater, its Windows paths, the SQLite event store (but for its page readers),
    the actor and provider turn, and the interface, account and provider crates,
    which are mostly I/O.

    Next, in this order: the remaining redaction paths (process output) and the
    paged file preview; context elision; the editable authoring documents and
    their lowering to pipe source; telemetry intervals and roll-ups. *)

From stdpp Require Export base tactics option list gmap strings pretty.
From Stdlib Require Export Bool Ascii.

Set Default Proof Using "Type".

(** ** Results

    [Result<T, E>] of the source. *)

Inductive result (A E : Type) : Type :=
| Ok (a : A)
| Err (e : E).
Arguments Ok {A E} a.
Arguments Err {A E} e.

Definition is_ok {A E} (r : result A E) : bool :=
  match r with Ok _ => true | Err _ => false end.

Definition result_bind {A B E} (r : result A E) (k : A -> result B E) : result B E :=
  match r with Ok a => k a | Err e => Err e end.

(** [if b { return Err(e) }]. *)
Definition reject_if {E} (b : bool) (e : E) : result unit E :=
  if b then Err e else Ok tt.

Definition ok_or {A E} (o : option A) (e : E) : result A E :=
  match o with Some a => Ok a | None => Err e end.

Definition map_err {A E F} (f : E -> F) (r : result A E) : result A F :=
  match r with Ok a => Ok a | Err e => Err (f e) end.

(** [for x in l { body(x)?; }] over a loop body that may fail. *)
Fixpoint for_each {A E} (f : A -> result unit E) (l : list A) : result unit E :=
  match l with
  | [] => Ok tt
  | x :: l => result_bind (f x) (fun _ => for_each f l)
  end.

Declare Scope res_scope.
Delimit Scope res_scope with res.
Notation "'let?' x ':=' m 'in' k" := (result_bind m (fun x => k))
  (at level 10, x name, m at level 100, k at level 200,
   format "'[' 'let?'  x  ':='  m  'in'  ']' '/' k") : res_scope.
Notation "m '?;' k" := (result_bind m (fun _ => k))
  (at level 199, right associativity, format "'[' m '?;' ']' '/' k") : res_scope.

Section ResultFacts.
Context {A B E : Type}.

Lemma result_bind_ok (r : result A E) (k : A -> result B E) b :
  result_bind r k = Ok b <-> exists a, r = Ok a /\ k a = Ok b.
Proof. destruct r; simpl; naive_solver. Qed.

Lemma result_bind_err (r : result A E) (k : A -> result B E) e :
  result_bind r k = Err e <-> r = Err e \/ exists a, r = Ok a /\ k a = Err e.
Proof. destruct r; simpl; naive_solver. Qed.

Lemma reject_if_ok (b : bool) (e : E) u : reject_if b e = Ok u <-> b = false.
Proof. destruct b, u; simpl; naive_solver. Qed.

Lemma reject_if_err (b : bool) (e e' : E) : reject_if b e = Err e' <-> b = true /\ e = e'.
Proof. destruct b; simpl; naive_solver. Qed.

Lemma ok_or_ok (o : option A) (e : E) a : ok_or o e = Ok a <-> o = Some a.
Proof. destruct o; simpl; naive_solver. Qed.

Lemma map_err_ok {F} (f : E -> F) (r : result A E) a : map_err f r = Ok a <-> r = Ok a.
Proof. destruct r; simpl; naive_solver. Qed.
End ResultFacts.

Lemma for_each_ok {A E} (f : A -> result unit E) l u :
  for_each f l = Ok u <-> Forall (fun x => f x = Ok tt) l.
Proof.
  destruct u. induction l as [|x l IH]; simpl; [by split|].
  rewrite result_bind_ok, Forall_cons, <- IH.
  split; [intros ([] & ? & ?)|intros [??]]; naive_solver.
Qed.

(** ** State and error

    A method [fn f(&mut self, ..) -> Result<A, E>] is [ST S E A]: a failing
    call returns its error together with the state as it stood when [return
    Err(..)] was reached, so a mutation made before the failure is visible. *)

Definition ST (S E A : Type) : Type := S -> result A E * S.

Section StateMonad.
Context {S E : Type}.

Definition st_ret {A} (a : A) : ST S E A := fun s => (Ok a, s).
Definition st_bind {A B} (m : ST S E A) (k : A -> ST S E B) : ST S E B :=
  fun s => match m s with
           | (Ok a, s') => k a s'
           | (Err e, s') => (Err e, s')
           end.
(** Reads of [self], and updates of it. *)
Definition st_get : ST S E S := fun s => (Ok s, s).
Definition st_modify (f : S -> S) : ST S E unit := fun s => (Ok tt, f s).
(** [r?] for a result computed without touching [self]. *)
Definition st_lift {A} (r : result A E) : ST S E A := fun s => (r, s).
Definition st_reject_if (b : bool) (e : E) : ST S E unit := st_lift (reject_if b e).

Lemma st_bind_ok {A B} (m : ST S E A) (k : A -> ST S E B) s b s2 :
  st_bind m k s = (Ok b, s2) <-> exists a s1, m s = (Ok a, s1) /\ k a s1 = (Ok b, s2).
Proof. unfold st_bind. destruct (m s) as [[]]; naive_solver. Qed.

Lemma st_bind_err {A B} (m : ST S E A) (k : A -> ST S E B) s e s2 :
  st_bind m k s = (Err e, s2) <->
  m s = (Err e, s2) \/ exists a s1, m s = (Ok a, s1) /\ k a s1 = (Err e, s2).
Proof. unfold st_bind. destruct (m s) as [[]]; naive_solver. Qed.

Lemma st_reject_if_ok b e s u s' :
  st_reject_if b e s = (Ok u, s') <-> b = false /\ s' = s.
Proof. destruct b, u; unfold st_reject_if, st_lift; simpl; naive_solver. Qed.

Lemma st_lift_ok {A} (r : result A E) s a s' :
  st_lift r s = (Ok a, s') <-> r = Ok a /\ s' = s.
Proof. unfold st_lift. naive_solver. Qed.

Lemma st_lift_err {A} (r : result A E) s e s' :
  st_lift r s = (Err e, s') <-> r = Err e /\ s' = s.
Proof. unfold st_lift. naive_solver. Qed.

Lemma st_get_ok s a s' : st_get s = (Ok a, s') <-> a = s /\ s' = s.
Proof. unfold st_get. naive_solver. Qed.

Lemma st_modify_ok f s u s' : st_modify f s = (Ok u, s') <-> s' = f s.
Proof. unfold st_modify. destruct u. naive_solver. Qed.

(** Running a body forwards. *)
Lemma st_run_get {B} (k : S -> ST S E B) s : st_bind st_get k s = k s s.
Proof. done. Qed.

Lemma st_run_modify {B} f (k : unit -> ST S E B) s : st_bind (st_modify f) k s = k tt (f s).
Proof. done. Qed.

Lemma st_run_lift {A B} (r : result A E) a (k : A -> ST S E B) s :
  r = Ok a -> st_bind (st_lift r) k s = k a s.
Proof. by intros ->. Qed.

Lemma st_run_reject {B} b e (k : unit -> ST S E B) s :
  b = false -> st_bind (st_reject_if b e) k s = k tt s.
Proof. by intros ->. Qed.

Lemma st_run_bind {A B} (m : ST S E A) (k : A -> ST S E B) s a s' :
  m s = (Ok a, s') -> st_bind m k s = k a s'.
Proof. unfold st_bind. by intros ->. Qed.
End StateMonad.

(** A method is atomic at [s] when a failing call leaves [s] unchanged. *)
Definition st_atomic {S E A} (m : ST S E A) (s : S) : Prop :=
  forall e s', m s = (Err e, s') -> s' = s.

Section Atomic.
Context {S E : Type}.

Lemma st_atomic_ok {A} (m : ST S E A) s a s' : m s = (Ok a, s') -> st_atomic m s.
Proof. intros Hm e s'' He. congruence. Qed.

Lemma st_atomic_get {A} (k : S -> ST S E A) s :
  st_atomic (k s) s -> st_atomic (st_bind st_get k) s.
Proof. done. Qed.

Lemma st_atomic_lift {A B} (r : result A E) (k : A -> ST S E B) s :
  (forall a, r = Ok a -> st_atomic (k a) s) -> st_atomic (st_bind (st_lift r) k) s.
Proof. intros Hk e s'. unfold st_bind, st_lift. destruct r; [by apply Hk|congruence]. Qed.

Lemma st_atomic_reject {B} b e (k : unit -> ST S E B) s :
  (b = false -> st_atomic (k tt) s) -> st_atomic (st_bind (st_reject_if b e) k) s.
Proof. intros Hk. apply st_atomic_lift. by intros [] ?%reject_if_ok; apply Hk. Qed.

Lemma st_atomic_lifted {A} (r : result A E) (s : S) : st_atomic (st_lift r) s.
Proof. intros e s' He. by apply st_lift_err in He as [_ ->]. Qed.

(** A body whose failures are all in its first part. *)
Lemma st_atomic_then {A B} (m : ST S E A) (k : A -> ST S E B) s :
  st_atomic m s -> (forall a s1, m s = (Ok a, s1) -> exists b s2, k a s1 = (Ok b, s2)) ->
  st_atomic (st_bind m k) s.
Proof.
  intros Hm Hk e s' [He|(a & s1 & Ha & He)]%st_bind_err; [by eapply Hm|].
  destruct (Hk _ _ Ha) as (b & s2 & ?). congruence.
Qed.
End Atomic.

Create HintDb atomic.
#[export] Hint Resolve st_atomic_lifted : atomic.

(** Walks the guards of a body up to its first update. *)
Ltac st_atomic_guards :=
  repeat first
    [ apply st_atomic_get
    | apply st_atomic_reject; intros
    | apply st_atomic_lift; intros ].

Declare Scope st_scope.
Delimit Scope st_scope with st.
Notation "x <- m ;; k" := (st_bind m (fun x => k))
  (at level 100, m at next level, right associativity,
   format "'[' x  <-  m ;;  ']' '/' k") : st_scope.
Notation "m ;;; k" := (st_bind m (fun _ => k))
  (at level 100, right associativity, format "'[' m ;;;  ']' '/' k") : st_scope.

(** Splits a successful run of a monadic body into the guards it passed. *)
Ltac st_invert :=
  repeat match goal with
  | H : st_bind _ _ _ = (Ok _, _) |- _ =>
      let a := fresh "v" in let s := fresh "s" in
      let Hm := fresh "Hstep" in let Hk := fresh "Hrest" in
      apply st_bind_ok in H; destruct H as (a & s & Hm & Hk)
  | H : st_reject_if _ _ _ = (Ok _, _) |- _ =>
      let Hg := fresh "Hguard" in apply st_reject_if_ok in H; destruct H as [Hg ->]
  | H : st_lift _ _ = (Ok _, _) |- _ =>
      let Hg := fresh "Hres" in apply st_lift_ok in H; destruct H as [Hg ->]
  | H : st_get _ = (Ok _, _) |- _ => apply st_get_ok in H; destruct H as [-> ->]
  | H : st_modify _ _ = (Ok _, _) |- _ => apply st_modify_ok in H; subst
  | H : st_ret _ _ = (Ok _, _) |- _ => unfold st_ret in H; simplify_eq
  end.

(** The same for plain results. *)
Ltac res_invert :=
  repeat match goal with
  | H : result_bind _ _ = Ok _ |- _ =>
      let a := fresh "v" in let Hm := fresh "Hstep" in let Hk := fresh "Hrest" in
      apply result_bind_ok in H; destruct H as (a & Hm & Hk)
  | H : reject_if _ _ = Ok _ |- _ => apply reject_if_ok in H
  | H : ok_or _ _ = Ok _ |- _ => apply ok_or_ok in H
  | H : map_err _ _ = Ok _ |- _ => apply map_err_ok in H
  | H : for_each _ _ = Ok _ |- _ => apply for_each_ok in H
  end.

(** Turns boolean guards of the code into propositions. *)
Create Rewrite HintDb guards.
#[export] Hint Rewrite orb_false_iff orb_true_iff andb_true_iff andb_false_iff
  negb_true_iff negb_false_iff bool_decide_eq_true bool_decide_eq_false
  N.eqb_eq N.eqb_neq N.ltb_lt N.ltb_ge N.leb_le N.leb_gt : guards.

Ltac guards := autorewrite with guards in *; destruct_and?.

(** ** Machine integers

    [u32], [u64] and [usize] values are naturals with their bounds written
    out where the code checks or saturates. *)

Definition u32_max : N := 4294967295.
Definition u64_max : N := 18446744073709551615.

Definition checked_add_u32 (a b : N) : option N :=
  if (a + b <=? u32_max)%N then Some (a + b)%N else None.
Definition checked_add_u64 (a b : N) : option N :=
  if (a + b <=? u64_max)%N then Some (a + b)%N else None.
Definition saturating_add_u32 (a b : N) : N := N.min (a + b) u32_max.
(** [u32::try_from(n).unwrap_or(u32::MAX)] of a [usize]. *)
Definition u32_of_usize (n : nat) : N := N.min (N.of_nat n) u32_max.
(** [u64::try_from(n).unwrap_or(u64::MAX)] of a [usize]. *)
Definition u64_of_usize (n : nat) : N := N.min (N.of_nat n) u64_max.

Lemma checked_add_u32_some a b c :
  checked_add_u32 a b = Some c <-> c = (a + b)%N /\ (a + b <= u32_max)%N.
Proof. unfold checked_add_u32. destruct (N.leb_spec (a + b) u32_max); naive_solver lia. Qed.

Lemma checked_add_u64_some a b c :
  checked_add_u64 a b = Some c <-> c = (a + b)%N /\ (a + b <= u64_max)%N.
Proof. unfold checked_add_u64. destruct (N.leb_spec (a + b) u64_max); naive_solver lia. Qed.

(** ** Lists

    [iter().find], [iter().position], [iter().any], [iter().all] are [find],
    [position], [existsb] and [forallb]; [alter_first] is the mutation of the
    element [iter_mut().find] returns. *)

Fixpoint position {A} (p : A -> bool) (l : list A) : option nat :=
  match l with
  | [] => None
  | x :: l => if p x then Some 0 else S <$> position p l
  end.

Fixpoint alter_first {A} (p : A -> bool) (f : A -> A) (l : list A) : list A :=
  match l with
  | [] => []
  | x :: l => if p x then f x :: l else x :: alter_first p f l
  end.

Fixpoint find_map {A B} (f : A -> option B) (l : list A) : option B :=
  match l with
  | [] => None
  | x :: l => match f x with Some b => Some b | None => find_map f l end
  end.

(** [iter().filter_map(f).collect()]. *)
Fixpoint filter_map {A B} (f : A -> option B) (l : list A) : list B :=
  match l with
  | [] => []
  | x :: l => match f x with Some b => b :: filter_map f l | None => filter_map f l end
  end.

(** [iter().filter(p).collect()] for a boolean [p]. *)
Abbreviation filterb := List.filter.

(** A [HashSet] collected from a list has as many elements as the list. *)
Definition all_distinct `{Countable A} (l : list A) : bool :=
  bool_decide (size (list_to_set l : gset A) = length l).

Definition opt_eqb `{EqDecision A} (a b : option A) : bool := bool_decide (a = b).

Section ListFacts.
Context {A : Type}.
Implicit Types (p : A -> bool) (l : list A).

Lemma find_some_iff p l x :
  find p l = Some x -> x ∈ l /\ p x = true.
Proof. rewrite list_elem_of_In. apply find_some. Qed.

Lemma find_none_iff p l : find p l = None <-> forall x, x ∈ l -> p x = false.
Proof.
  split.
  - intros H x Hx. rewrite list_elem_of_In in Hx. by eapply find_none.
  - induction l as [|y l IH]; simpl; [done|]. intros H.
    rewrite (H y) by set_solver. apply IH. set_solver.
Qed.

Lemma find_ext p q l : (forall x, p x = q x) -> find p l = find q l.
Proof. intros Hpq. induction l as [|x l IH]; simpl; [done|]. by rewrite Hpq, IH. Qed.

Lemma find_is_some p l x : x ∈ l -> p x = true -> exists y, find p l = Some y.
Proof.
  intros Hx Hp. destruct (find p l) as [y|] eqn:E; [eauto|].
  rewrite find_none_iff in E. by rewrite E in Hp.
Qed.

Lemma existsb_elem p l : existsb p l = true <-> exists x, x ∈ l /\ p x = true.
Proof. rewrite existsb_exists. by setoid_rewrite list_elem_of_In. Qed.

Lemma existsb_false p l : existsb p l = false <-> forall x, x ∈ l -> p x = false.
Proof.
  rewrite <- not_true_iff_false, existsb_elem. split.
  - intros H x Hx. apply not_true_iff_false. naive_solver.
  - intros H (x & Hx & E). rewrite H in E; done.
Qed.

Lemma forallb_elem p l : forallb p l = true <-> forall x, x ∈ l -> p x = true.
Proof. rewrite forallb_forall. by setoid_rewrite list_elem_of_In. Qed.

Lemma filterb_elem p l x : x ∈ filterb p l <-> x ∈ l /\ p x = true.
Proof. rewrite !list_elem_of_In. apply filter_In. Qed.

Lemma filterb_NoDup p l : NoDup l -> NoDup (filterb p l).
Proof. rewrite !NoDup_ListNoDup. apply List.NoDup_filter. Qed.

Lemma position_some p l i :
  position p l = Some i -> exists x, l !! i = Some x /\ p x = true /\
    forall j y, j < i -> l !! j = Some y -> p y = false.
Proof.
  revert i. induction l as [|x l IH]; intros i; simpl; [done|].
  destruct (p x) eqn:Hp.
  - intros [= <-]. exists x. split_and!; [done..|lia].
  - rewrite fmap_Some. intros (j & Hj & ->).
    destruct (IH _ Hj) as (y & ? & ? & Hlt). exists y. split_and!; [done..|].
    intros [|k] z ? Hz; simplify_eq/=; [done|]. eapply Hlt; [|done]. lia.
Qed.

Lemma position_none p l : position p l = None <-> forall x, x ∈ l -> p x = false.
Proof.
  induction l as [|x l IH]; simpl; [set_solver|].
  destruct (p x) eqn:Hp.
  - split; [done|]. intros H. rewrite H in Hp; [done|set_solver].
  - rewrite fmap_None, IH. set_solver.
Qed.

Lemma alter_first_length p f l : length (alter_first p f l) = length l.
Proof. induction l as [|x l IH]; simpl; [done|]. destruct (p x); simpl; lia. Qed.

Lemma alter_first_none p f l : find p l = None -> alter_first p f l = l.
Proof.
  induction l as [|x l IH]; simpl; [done|]. destruct (p x); [done|].
  intros. f_equal. auto.
Qed.

Lemma find_map_some {B} (f : A -> option B) l b :
  find_map f l = Some b -> exists x, x ∈ l /\ f x = Some b.
Proof.
  induction l as [|x l IH]; simpl; [done|]. destruct (f x) eqn:E.
  - intros [= ->]. exists x. set_solver.
  - intros (y & ? & ?)%IH. exists y. set_solver.
Qed.

Lemma find_map_none {B} (f : A -> option B) l :
  find_map f l = None <-> forall x, x ∈ l -> f x = None.
Proof.
  induction l as [|x l IH]; simpl; [set_solver|]. destruct (f x) eqn:E.
  - split; [done|]. intros H. rewrite H in E; [done|set_solver].
  - rewrite IH. set_solver.
Qed.

Lemma filter_map_elem {B} (f : A -> option B) l b :
  b ∈ filter_map f l <-> exists x, x ∈ l /\ f x = Some b.
Proof.
  induction l as [|x l IH]; simpl; [set_solver|].
  destruct (f x) eqn:E; [rewrite elem_of_cons|]; rewrite IH; set_solver.
Qed.
End ListFacts.

Lemma size_list_to_set_le `{Countable A} (l : list A) :
  size (list_to_set l : gset A) <= length l.
Proof.
  induction l as [|y l IH]; simpl; [done|]. rewrite size_union_alt, size_singleton.
  assert (list_to_set l ∖ {[y]} ⊆@{gset A} list_to_set l) as Hs by set_solver.
  apply subseteq_size in Hs. lia.
Qed.

Lemma all_distinct_NoDup `{Countable A} (l : list A) : all_distinct l = true <-> NoDup l.
Proof.
  unfold all_distinct. rewrite bool_decide_eq_true.
  induction l as [|x l IH]; simpl.
  - split; [constructor|done].
  - rewrite NoDup_cons, <- IH. destruct (decide (x ∈ l)) as [Hx|Hx].
    + assert ({[x]} ∪ list_to_set l =@{gset A} list_to_set l) as -> by set_solver.
      pose proof (size_list_to_set_le l). naive_solver lia.
    + rewrite size_union, size_singleton by set_solver. naive_solver lia.
Qed.

(** The result of a run, with the state left as it is. *)
Lemma run_pair {S A} (m : S -> A * S) s a : (m s).1 = a -> m s = (a, (m s).2).
Proof. destruct (m s). by intros <-. Qed.

Lemma filter_map_app {A B} (f : A -> option B) l k : filter_map f (l ++ k) = filter_map f l ++ filter_map f k.
Proof. induction l as [|x l IH]; simpl; [done|]. rewrite IH. by destruct (f x). Qed.
