(* ===== verification/RustStr.v ===== *)
(** * Rust strings

    A Rust [str] is its UTF-8 byte sequence, a Stdlib [string] here (one
    [ascii] per byte).  Operations the source applies to ASCII patterns work
    on bytes; the two that depend on Unicode white space ([trim] and
    [split_whitespace]) go through [chars], which groups each lead byte with
    its continuation bytes. *)

From S2P Require Import Prelude.

Local Open Scope string_scope.

#[global] Arguments String.append !_ _ /.

(** ** Bytes *)

Definition byte_val (c : ascii) : N := N_of_ascii c.

Definition is_ascii_digit (c : ascii) : bool :=
  ((48 <=? byte_val c) && (byte_val c <=? 57))%N.
Definition is_ascii_uppercase (c : ascii) : bool :=
  ((65 <=? byte_val c) && (byte_val c <=? 90))%N.
Definition is_ascii_lowercase (c : ascii) : bool :=
  ((97 <=? byte_val c) && (byte_val c <=? 122))%N.
Definition is_ascii_alphanumeric (c : ascii) : bool :=
  is_ascii_digit c || is_ascii_uppercase c || is_ascii_lowercase c.
(** [matches!(byte, b'_' | b'-')]. *)
Definition is_underscore_or_dash (c : ascii) : bool :=
  bool_decide (c = "_"%char) || bool_decide (c = "-"%char).

(** [value.bytes().all(p)]. *)
Fixpoint all_bytes (p : ascii -> bool) (s : string) : bool :=
  match s with
  | EmptyString => true
  | String c s => p c && all_bytes p s
  end.

(** [value.len()], in bytes. *)
Definition len (s : string) : N := N.of_nat (String.length s).

Definition is_empty (s : string) : bool :=
  match s with EmptyString => true | _ => false end.

Definition to_ascii_uppercase_byte (c : ascii) : ascii :=
  if is_ascii_lowercase c then ascii_of_N (byte_val c - 32) else c.

Fixpoint map_bytes (f : ascii -> ascii) (s : string) : string :=
  match s with
  | EmptyString => EmptyString
  | String c s => String (f c) (map_bytes f s)
  end.

Definition to_ascii_uppercase : string -> string := map_bytes to_ascii_uppercase_byte.

(** ** Code points *)

(** Bytes [0x80..=0xBF]. *)
Definition is_continuation (c : ascii) : bool :=
  ((128 <=? byte_val c) && (byte_val c <=? 191))%N.

Definition starts_continuation (s : string) : bool :=
  match s with String c _ => is_continuation c | EmptyString => false end.

(** The code points of a string, each as its own byte sequence. *)
Fixpoint chars (s : string) : list string :=
  match s with
  | EmptyString => []
  | String c s =>
      match chars s with
      | g :: gs => if starts_continuation g then String c g :: gs else String c "" :: g :: gs
      | [] => [String c ""]
      end
  end.

Definition bytes_of (l : list N) : string :=
  foldr (fun n s => String (ascii_of_N n) s) "" l.

(** The code points with the Unicode [White_Space] property. *)
Definition white_space : list string :=
  map bytes_of
    ([[9]; [10]; [11]; [12]; [13]; [32]; [194; 133]; [194; 160]; [225; 154; 128];
      [226; 128; 128]; [226; 128; 129]; [226; 128; 130]; [226; 128; 131];
      [226; 128; 132]; [226; 128; 133]; [226; 128; 134]; [226; 128; 135];
      [226; 128; 136]; [226; 128; 137]; [226; 128; 138]; [226; 128; 168];
      [226; 128; 169]; [226; 128; 175]; [226; 129; 159]; [227; 128; 128]]%N).

Definition is_whitespace (g : string) : bool := existsb (String.eqb g) white_space.

Definition concat_str (l : list string) : string := foldr String.append "" l.

Fixpoint drop_ws (l : list string) : list string :=
  match l with
  | [] => []
  | g :: l' => if is_whitespace g then drop_ws l' else l
  end.

(** [str::trim]. *)
Definition trim (s : string) : string :=
  concat_str (rev (drop_ws (rev (drop_ws (chars s))))).

(** Maximal runs of non-white-space code points. *)
Fixpoint words (l : list string) : list string :=
  match l with
  | [] => []
  | g :: l' =>
      if is_whitespace g then words l'
      else match l' with
           | h :: _ => if is_whitespace h then g :: words l'
                       else match words l' with
                            | w :: ws => (g ++ w) :: ws
                            | [] => [g]
                            end
           | [] => [g]
           end
  end.

(** [str::split_whitespace]. *)
Definition split_whitespace (s : string) : list string := words (chars s).

(** ** Searching and splitting *)

Fixpoint strip_prefix (p s : string) : option string :=
  match p, s with
  | EmptyString, _ => Some s
  | String a p, String b s => if bool_decide (a = b) then strip_prefix p s else None
  | String _ _, EmptyString => None
  end.

Definition starts_with (p s : string) : bool := bool_decide (is_Some (strip_prefix p s)).

Fixpoint rev_str (s acc : string) : string :=
  match s with EmptyString => acc | String c s => rev_str s (String c acc) end.

Definition strip_suffix (p s : string) : option string :=
  (fun r => rev_str r "") <$> strip_prefix (rev_str p "") (rev_str s "").

(** [str::split_once] at the first occurrence of a non-empty pattern. *)
Fixpoint split_once (p s : string) : option (string * string) :=
  match strip_prefix p s with
  | Some rest => Some ("", rest)
  | None =>
      match s with
      | EmptyString => None
      | String c s => (fun ab => (String c ab.1, ab.2)) <$> split_once p s
      end
  end.

Definition contains (p s : string) : bool := bool_decide (is_Some (split_once p s)).

(** [str::split(c)]: always at least one piece. *)
Fixpoint split_char (c : ascii) (s : string) : list string :=
  match s with
  | EmptyString => [""]
  | String d s =>
      if bool_decide (c = d) then "" :: split_char c s
      else match split_char c s with
           | w :: ws => String d w :: ws
           | [] => [String d ""]
           end
  end.

Definition LF : ascii := ascii_of_nat 10.
Definition CR : ascii := ascii_of_nat 13.
Definition DQUOTE : ascii := ascii_of_nat 34.

Definition strip_cr (s : string) : string :=
  default s (strip_suffix (String CR "") s).

(** [str::lines]: the pieces between line feeds without a trailing carriage
    return; a final empty piece is not a line, and only a piece that ended in a
    line feed loses its carriage return. *)
Fixpoint lines_of (pieces : list string) : list string :=
  match pieces with
  | [] => []
  | [last] => if is_empty last then [] else [last]
  | p :: ps => strip_cr p :: lines_of ps
  end.

Definition lines (s : string) : list string := lines_of (split_char LF s).

Fixpoint join (sep : string) (l : list string) : string :=
  match l with
  | [] => ""
  | [x] => x
  | x :: l => x ++ sep ++ join sep l
  end.

(** ** Numbers *)

Definition digit_val (c : ascii) : N := byte_val c - 48.

Fixpoint parse_digits (acc : N) (s : string) : option N :=
  match s with
  | EmptyString => Some acc
  | String c s => if is_ascii_digit c then parse_digits (10 * acc + digit_val c) s else None
  end.

(** [digits.parse::<u32>()] on a string of ASCII digits. *)
Definition parse_u32 (s : string) : option N :=
  if is_empty s then None
  else n ← parse_digits 0 s; if (n <=? u32_max)%N then Some n else None.

(** ** Ordering: byte-wise lexicographic order, [sort_unstable] and [dedup] *)

Fixpoint insert_sorted (x : string) (l : list string) : list string :=
  match l with
  | [] => [x]
  | y :: l' => if String.leb x y then x :: l else y :: insert_sorted x l'
  end.

Definition sort_strings (l : list string) : list string := foldr insert_sorted [] l.

Fixpoint dedup (l : list string) : list string :=
  match l with
  | [] => []
  | x :: l' =>
      match dedup l' with
      | y :: r => if String.eqb x y then y :: r else x :: y :: r
      | [] => [x]
      end
  end.

(** ** Laws *)

Lemma concat_chars s : concat_str (chars s) = s.
Proof.
  induction s as [|c s IH]; simpl; [done|].
  destruct (chars s) as [|g gs] eqn:E; simpl in *; [by subst|].
  destruct (starts_continuation g); simpl; by rewrite <- IH.
Qed.

Lemma all_bytes_app p s t : all_bytes p (s ++ t) = all_bytes p s && all_bytes p t.
Proof. induction s as [|c s IH]; simpl; [done|]. by rewrite IH, andb_assoc. Qed.

Lemma strip_prefix_app p s : strip_prefix p (p ++ s) = Some s.
Proof. induction p as [|a p IH]; simpl; [done|]. by rewrite bool_decide_true. Qed.

Lemma strip_prefix_some p s r : strip_prefix p s = Some r <-> s = p ++ r.
Proof.
  split; [|intros ->; apply strip_prefix_app].
  revert s. induction p as [|a p IH]; intros [|b s]; simpl; try naive_solver.
  case_bool_decide as Hab; [|done]. intros Hs%IH. by subst.
Qed.

Lemma join_split_char c s : join (String c "") (split_char c s) = s.
Proof.
  induction s as [|d s IH]; simpl; [done|].
  case_bool_decide as Hd.
  - subst d. destruct (split_char c s) as [|w ws] eqn:E; simpl in *; [|by rewrite IH].
    destruct s; simpl in E; [done|]. case_bool_decide; [done|]. by destruct (split_char c s).
  - destruct (split_char c s) as [|w ws] eqn:E; simpl in *; [by rewrite <- IH|].
    rewrite <- IH. by destruct ws.
Qed.

Lemma rev_str_app s t acc : rev_str (s ++ t) acc = rev_str t (rev_str s acc).
Proof. revert acc. induction s as [|c s IH]; intros acc; simpl; [done|]. apply IH. Qed.

Lemma rev_str_acc s acc : rev_str s acc = rev_str s "" ++ acc.
Proof.
  revert acc. induction s as [|c s IH]; intros acc; simpl; [done|].
  rewrite (IH (String c acc)), (IH (String c "")). clear.
  generalize (rev_str s ""). intros t. induction t as [|d t IH]; simpl; [done|]. by rewrite IH.
Qed.

Lemma rev_str_involutive s : rev_str (rev_str s "") "" = s.
Proof.
  induction s as [|c s IH]; simpl; [done|].
  rewrite (rev_str_acc s), rev_str_app. simpl. by rewrite IH.
Qed.

Lemma strip_suffix_some p s r : strip_suffix p s = Some r <-> s = r ++ p.
Proof.
  unfold strip_suffix. rewrite fmap_Some. setoid_rewrite strip_prefix_some. split.
  - intros (x & Hx & ->). rewrite <- (rev_str_involutive s), Hx, rev_str_app.
    by rewrite rev_str_involutive, (rev_str_acc x).
  - intros ->. exists (rev_str r ""). split; [|by rewrite rev_str_involutive].
    by rewrite rev_str_app, (rev_str_acc p).
Qed.
