(* ===== verification/Digest.v ===== *)
(** * Domain-separated digests

    The content addresses of the source hash a domain tag followed by
    length-prefixed parts ([hash_graph_part], [hash_ledger_part]).  BLAKE3 is
    a third-party crate: it is the parameter [blake3_hex], from the bytes fed
    to the hasher to the hexadecimal digest.  The laws below show that the
    framing is unambiguous, so that two different structures are never fed to
    the hash function as the same bytes. *)

From S2P Require Import Prelude RustStr.

Local Open Scope string_scope.

(** [hasher.finalize().to_hex()] after the given bytes. *)
Class Blake3 := blake3_hex : string -> string.

(** What [blake3::Hash::to_hex] documents: 64 lower-case hexadecimal digits. *)
Definition is_lower_hex (c : ascii) : bool :=
  is_ascii_digit c || ((97 <=? byte_val c) && (byte_val c <=? 102))%N.

Class Blake3Hex (h : Blake3) : Prop := {
  blake3_hex_len : forall bytes, len (blake3_hex bytes) = 64%N;
  blake3_hex_digits : forall bytes, all_bytes is_lower_hex (blake3_hex bytes) = true
}.

(** ** Fixed-width integers *)

(** [n.to_be_bytes()] of a [k]-byte integer. *)
Fixpoint be_bytes (k : nat) (n : N) : string :=
  match k with
  | 0 => ""
  | S k => String (ascii_of_N ((n / 256 ^ N.of_nat k) mod 256)) (be_bytes k n)
  end.

Definition u64_be : N -> string := be_bytes 8.
Definition u32_be : N -> string := be_bytes 4.

(** ** Framing *)

(** One length-prefixed part. *)
Definition frame (bytes : string) : string :=
  u64_be (u64_of_usize (String.length bytes)) ++ bytes.

Definition frames (parts : list string) : string := concat_str (map frame parts).

(** [format!("blake3:{}", hasher.finalize().to_hex())]. *)
Definition blake3_digest `{Blake3} (domain : string) (parts : list string) : string :=
  "blake3:" ++ blake3_hex (domain ++ frames parts).

#[global] Arguments frame : simpl never.
#[global] Arguments u64_be : simpl never.
#[global] Arguments u32_be : simpl never.

(** ** Laws *)

Lemma str_append_inj_l (s t u : string) : s ++ t = s ++ u -> t = u.
Proof. induction s; simpl; naive_solver. Qed.

Lemma str_app_assoc (s t u : string) : (s ++ t) ++ u = s ++ (t ++ u).
Proof. induction s; simpl; [done|]. by f_equal. Qed.

Lemma str_length_app (s t : string) :
  String.length (s ++ t) = String.length s + String.length t.
Proof. induction s; simpl; lia. Qed.

Lemma str_app_inj_length (a b x y : string) :
  String.length a = String.length b -> a ++ x = b ++ y -> a = b /\ x = y.
Proof.
  revert b. induction a as [|c a IH]; intros [|d b]; simpl; try done.
  intros [= Hl] [= -> Hr]. destruct (IH _ Hl Hr) as [-> ->]. done.
Qed.

Lemma be_bytes_length k n : String.length (be_bytes k n) = k.
Proof. induction k; simpl; auto. Qed.

Lemma be_bytes_inj_mod k n m :
  be_bytes k n = be_bytes k m -> (n mod 256 ^ N.of_nat k = m mod 256 ^ N.of_nat k)%N.
Proof.
  induction k as [|k IH]; simpl be_bytes; [intros _; by rewrite !N.mod_1_r|].
  intros [= Hb Hr]%(f_equal id).
  apply (f_equal N_of_ascii) in Hb.
  rewrite !N_ascii_embedding in Hb by (apply N.mod_lt; lia).
  replace (N.of_nat (S k)) with (N.of_nat k + 1)%N by lia.
  rewrite N.pow_add_r, N.pow_1_r.
  rewrite !N.Div0.mod_mul_r, (IH Hr), Hb. done.
Qed.

Lemma be_bytes_inj k n m :
  (n < 256 ^ N.of_nat k)%N -> (m < 256 ^ N.of_nat k)%N -> be_bytes k n = be_bytes k m -> n = m.
Proof. intros Hn Hm E%be_bytes_inj_mod. by rewrite !N.mod_small in E. Qed.

Lemma u64_be_inj n m : (n <= u64_max)%N -> (m <= u64_max)%N -> u64_be n = u64_be m -> n = m.
Proof.
  unfold u64_max. intros Hn Hm. apply be_bytes_inj;
    change (256 ^ N.of_nat 8)%N with 18446744073709551616%N; lia.
Qed.

Lemma u32_be_inj n m : (n <= u32_max)%N -> (m <= u32_max)%N -> u32_be n = u32_be m -> n = m.
Proof.
  unfold u32_max. intros Hn Hm. apply be_bytes_inj;
    change (256 ^ N.of_nat 4)%N with 4294967296%N; lia.
Qed.

(** A value that fits the address space of a 64-bit host. *)
Definition fits (s : string) : Prop := (len s <= u64_max)%N.

Lemma u64_of_usize_inj a b :
  (N.of_nat a <= u64_max)%N -> (N.of_nat b <= u64_max)%N ->
  u64_be (u64_of_usize a) = u64_be (u64_of_usize b) -> a = b.
Proof.
  unfold u64_of_usize. intros Ha Hb E%u64_be_inj; [|lia..].
  rewrite !N.min_l in E by done. lia.
Qed.

Lemma frame_app_inj a b x y :
  fits a -> fits b -> frame a ++ x = frame b ++ y -> a = b /\ x = y.
Proof.
  unfold frame, fits, len. intros Ha Hb. rewrite !str_app_assoc.
  intros [E Hr]%str_app_inj_length; [|by unfold u64_be; rewrite !be_bytes_length].
  apply u64_of_usize_inj in E; [|done..].
  by apply str_app_inj_length in Hr.
Qed.

Lemma frame_nonempty a x : frame a ++ x <> "".
Proof. done. Qed.

(** The parts can be read back from the bytes that are hashed. *)
Lemma frames_inj l k :
  Forall fits l -> Forall fits k -> frames l = frames k -> l = k.
Proof.
  intros Hl. revert k. induction Hl as [|a l Ha Hl IH]; intros [|b k] Hk;
    unfold frames in *; simpl; [done|done|done|].
  apply Forall_cons in Hk as [Hb Hk].
  intros [-> E]%frame_app_inj; [|done..]. f_equal. by apply IH.
Qed.

(** Decoding of a counted group: [n] parts follow the count. *)
Lemma app_inj_counted {A} (l1 l2 k1 k2 : list A) :
  length l1 = length l2 -> (l1 ++ k1)%list = (l2 ++ k2)%list -> l1 = l2 /\ k1 = k2.
Proof. intros. by apply app_inj_1. Qed.

Lemma map_u32_be_inj l k :
  Forall (fun n => n <= u32_max)%N l -> Forall (fun n => n <= u32_max)%N k ->
  map u32_be l = map u32_be k -> l = k.
Proof.
  intros Hl. revert k. induction Hl as [|a l Ha Hl IH]; intros [|b k]; simpl; try done.
  intros [Hb Hk]%Forall_cons [E Er]%cons_eq_inj. f_equal; [by apply u32_be_inj|auto].
Qed.

Lemma blake3_digest_inj `{Blake3} domain l k :
  Forall fits l -> Forall fits k ->
  domain ++ frames l = domain ++ frames k -> l = k.
Proof. intros ?? E%str_append_inj_l. by apply frames_inj. Qed.

(** Two lists of parts with one digest are equal, or BLAKE3 collides. *)
Lemma blake3_digest_collision `{Blake3} domain l k :
  Forall fits l -> Forall fits k -> blake3_digest domain l = blake3_digest domain k ->
  l = k \/ exists x y, x <> y /\ blake3_hex x = blake3_hex y.
Proof.
  unfold blake3_digest. intros Hl Hk E%str_append_inj_l.
  destruct (decide (l = k)) as [|Hne]; [by left|right].
  exists (domain ++ frames l), (domain ++ frames k). split; [|done].
  intros Heq%blake3_digest_inj; done.
Qed.

Lemma fits_all l : forallb (fun s => len s <=? u64_max)%N l = true -> Forall fits l.
Proof.
  rewrite forallb_elem, Forall_forall. intros Hl s Hs. apply N.leb_le. by apply Hl.
Qed.

(** ** Little-endian framing (loom.rs) *)

(** [to_le_bytes]: the big-endian bytes reversed. *)
Definition u64_le (n : N) : string := rev_str (u64_be n) "".
Definition u32_le (n : N) : string := rev_str (u32_be n) "".

(** [part]: the length as eight little-endian bytes, then the bytes. *)
Definition frame_le (bytes : string) : string :=
  u64_le (u64_of_usize (String.length bytes)) ++ bytes.

Definition frames_le (parts : list string) : string := concat_str (map frame_le parts).

#[global] Arguments frame_le : simpl never.
#[global] Arguments u64_le : simpl never.
#[global] Arguments u32_le : simpl never.

Lemma rev_str_inj s t : rev_str s "" = rev_str t "" -> s = t.
Proof. intros E. by rewrite <- (rev_str_involutive s), E, rev_str_involutive. Qed.

Lemma rev_str_length s acc : String.length (rev_str s acc) = String.length s + String.length acc.
Proof. revert acc. induction s as [|c s IH]; intros acc; simpl; [done|]. rewrite IH. simpl. lia. Qed.

Lemma u64_le_length n : String.length (u64_le n) = 8.
Proof. unfold u64_le. by rewrite rev_str_length. Qed.

Lemma frame_le_app_inj a b x y :
  fits a -> fits b -> frame_le a ++ x = frame_le b ++ y -> a = b /\ x = y.
Proof.
  unfold frame_le, fits, len. intros Ha Hb. rewrite !str_app_assoc.
  intros [E Hr]%str_app_inj_length; [|by rewrite !u64_le_length].
  apply rev_str_inj, u64_of_usize_inj in E; [|done..].
  by apply str_app_inj_length in Hr.
Qed.

Lemma frame_le_nonempty a x : frame_le a ++ x <> "".
Proof.
  unfold frame_le. rewrite str_app_assoc. intros E. apply (f_equal String.length) in E.
  rewrite str_length_app, u64_le_length in E. simpl in E. lia.
Qed.

Lemma frames_le_inj l k :
  Forall fits l -> Forall fits k -> frames_le l = frames_le k -> l = k.
Proof.
  intros Hl. revert k. induction Hl as [|a l Ha Hl IH]; intros [|b k] Hk;
    unfold frames_le in *; simpl; [done|..].
  - intros E. by destruct (frame_le_nonempty b (concat_str (map frame_le k))).
  - intros E. by destruct (frame_le_nonempty a (concat_str (map frame_le l))).
  - apply Forall_cons in Hk as [Hb Hk].
    intros [-> E]%frame_le_app_inj; [|done..]. f_equal. by apply IH.
Qed.
