(* ===== verification/Worklist.v ===== *)
(** * Graph traversals

    The worklist loops of the source, over an arbitrary successor function.
    Each is a fuelled function returning [None] when the fuel runs out; the
    [_total] lemmas give a bound on the work left under which it never does,
    and the [_spec] lemmas characterise the result as reachability. *)

From S2P Require Import Prelude.

Section Worklist.
Context `{Countable K}.
Variable succ : K -> list K.

Definition edge (x y : K) : Prop := y ∈ succ x.
Definition reach : K -> K -> Prop := rtc edge.

(** ** Breadth-first traversal, marking on push

    [while let Some(x) = queue.pop_front() { for y in succ(x) {
       if seen.insert(y) { queue.push_back(y) } } }] *)

Fixpoint push_new (ys queue : list K) (seen : gset K) : list K * gset K :=
  match ys with
  | [] => (queue, seen)
  | y :: ys =>
      if bool_decide (y ∈ seen) then push_new ys queue seen
      else push_new ys (queue ++ [y]) ({[y]} ∪ seen)
  end.

Fixpoint bfs (fuel : nat) (queue : list K) (seen : gset K) : option (gset K) :=
  match queue with
  | [] => Some seen
  | x :: queue =>
      match fuel with
      | 0 => None
      | S fuel => let '(queue, seen) := push_new (succ x) queue seen in bfs fuel queue seen
      end
  end.

(** The same traversal, returning [true] as soon as [target] is met. *)
Fixpoint push_until (target : K) (ys queue : list K) (seen : gset K)
    : option (list K * gset K) :=
  match ys with
  | [] => Some (queue, seen)
  | y :: ys =>
      if bool_decide (y = target) then None
      else if bool_decide (y ∈ seen) then push_until target ys queue seen
      else push_until target ys (queue ++ [y]) ({[y]} ∪ seen)
  end.

Fixpoint bfs_find (target : K) (fuel : nat) (queue : list K) (seen : gset K) : option bool :=
  match queue with
  | [] => Some false
  | x :: queue =>
      match fuel with
      | 0 => None
      | S fuel =>
          match push_until target (succ x) queue seen with
          | None => Some true
          | Some (queue, seen) => bfs_find target fuel queue seen
          end
      end
  end.

(** ** Marking on pop

    [while let Some(x) = queue.pop_front() { if !seen.insert(x) { continue }
       queue.extend(succ(x)) }] *)
Fixpoint bfs_pop (fuel : nat) (queue : list K) (seen : gset K) : option (gset K) :=
  match queue with
  | [] => Some seen
  | x :: queue =>
      match fuel with
      | 0 => None
      | S fuel =>
          if bool_decide (x ∈ seen) then bfs_pop fuel queue seen
          else bfs_pop fuel (queue ++ succ x) ({[x]} ∪ seen)
      end
  end.

(** ** Laws *)

Lemma push_new_spec ys q s q' s' :
  push_new ys q s = (q', s') ->
  (forall z, z ∈ s' <-> z ∈ s \/ z ∈ ys) /\
  (exists new, q' = q ++ new /\ forall z, z ∈ new <-> z ∈ s' /\ z ∉ s).
Proof.
  revert q s. induction ys as [|y ys IH]; intros q s; simpl.
  - intros [= <- <-]. split; [set_solver|]. exists []. rewrite app_nil_r. set_solver.
  - setoid_rewrite elem_of_cons. case_bool_decide as Hy; intros E; apply IH in E; clear IH;
      destruct E as [Hs (new & -> & Hnew)].
    + split; [naive_solver|]. eauto.
    + setoid_rewrite elem_of_union in Hs. setoid_rewrite elem_of_singleton in Hs.
      setoid_rewrite elem_of_union in Hnew. setoid_rewrite elem_of_singleton in Hnew.
      split; [naive_solver|]. exists (y :: new). rewrite <- app_assoc. split; [done|].
      intros z. rewrite elem_of_cons, Hnew, Hs. destruct (decide (z = y)); naive_solver.
Qed.

Lemma push_new_work (U : gset K) ys q s q' s' :
  push_new ys q s = (q', s') -> (forall z, z ∈ ys -> z ∈ U) ->
  length q' + size (U ∖ s') <= length q + size (U ∖ s).
Proof.
  revert q s. induction ys as [|y ys IH]; intros q s; simpl; [by intros [= <- <-]|].
  case_bool_decide as Hy; intros E HU.
  - apply IH in E; [done|set_solver].
  - apply IH in E; [|set_solver]. rewrite length_app in E. simpl in E.
    assert (size (U ∖ s) = S (size (U ∖ ({[y]} ∪ s)))) as ->; [|lia].
    assert (U ∖ s = {[y]} ∪ (U ∖ ({[y]} ∪ s))) as ->.
    { apply set_eq. intros z. destruct (decide (z = y)); set_solver. }
    by rewrite size_union, size_singleton by set_solver.
Qed.

Lemma bfs_total (U : gset K) fuel q s :
  (forall x z, z ∈ succ x -> z ∈ U) ->
  length q + size (U ∖ s) <= fuel -> is_Some (bfs fuel q s).
Proof.
  intros HU. revert q s. induction fuel as [|fuel IH]; intros [|x q] s; simpl; intros Hf;
    [done|lia|done|].
  destruct (push_new (succ x) q s) as [q' s'] eqn:E. apply IH.
  apply (push_new_work U) in E; [lia|eauto].
Qed.

(** [q] holds the marked elements whose successors are not marked yet. *)
Definition frontier (q : list K) (s : gset K) : Prop :=
  (forall x, x ∈ q -> x ∈ s) /\
  (forall x, x ∈ s -> x ∉ q -> forall y, y ∈ succ x -> y ∈ s).

Lemma frontier_start x : frontier [x] {[x]}.
Proof. split; set_solver. Qed.

Lemma frontier_step x q s q' s' :
  frontier (x :: q) s -> push_new (succ x) q s = (q', s') -> frontier q' s'.
Proof.
  intros [Hq Hc] E. apply push_new_spec in E as [Hs (new & -> & Hnew)].
  split; [set_solver|]. intros z Hz Hzq y Hy.
  destruct (decide (z = x)) as [->|]; [set_solver|].
  apply Hs. left. apply (Hc z); set_solver.
Qed.

Lemma bfs_closed fuel q s r :
  frontier q s -> bfs fuel q s = Some r ->
  s ⊆ r /\ (forall x y, x ∈ r -> y ∈ succ x -> y ∈ r).
Proof.
  revert q s. induction fuel as [|fuel IH]; intros [|x q] s Hfr; simpl; try done.
  1,2: intros [= <-]; split; [done|]; destruct Hfr as [_ Hc]; intros x y Hx Hy;
    eapply (Hc x); set_solver.
  destruct (push_new (succ x) q s) as [q' s'] eqn:E. intros Hb.
  pose proof (frontier_step _ _ _ _ _ Hfr E) as Hfr'.
  apply push_new_spec in E as [Hs _].
  destruct (IH _ _ Hfr' Hb) as [Hsub Hcl]. split; [set_solver|done].
Qed.

Lemma bfs_sound (P : K -> Prop) fuel q s r :
  (forall x y, P x -> y ∈ succ x -> P y) ->
  (forall x, x ∈ q -> P x) -> (forall x, x ∈ s -> P x) ->
  bfs fuel q s = Some r -> forall x, x ∈ r -> P x.
Proof.
  intros HP. revert q s. induction fuel as [|fuel IH]; intros [|x q] s Hq Hs; simpl; try done.
  1,2: by intros [= <-].
  destruct (push_new (succ x) q s) as [q' s'] eqn:E. intros Hb.
  apply push_new_spec in E as [Hs' (new & -> & Hnew)].
  assert (forall z, z ∈ s' -> P z) as Hall.
  { intros z [?|?]%Hs'; [auto|]. eapply HP; [|done]. apply Hq. set_solver. }
  eapply IH; [|exact Hall|exact Hb]. intros z [?|?]%elem_of_app; [set_solver|].
  apply Hall. set_solver.
Qed.

(** The traversal from one start computes exactly what it reaches. *)
Lemma bfs_reach fuel x r :
  bfs fuel [x] {[x]} = Some r -> forall y, y ∈ r <-> reach x y.
Proof.
  intros Hb y. split.
  - apply (bfs_sound (reach x)) with (4 := Hb); unfold reach.
    + intros a b Ha Hb'. eapply rtc_r; done.
    + intros z ->%list_elem_of_singleton. done.
    + intros z ->%elem_of_singleton. done.
  - destruct (bfs_closed _ _ _ _ (frontier_start x) Hb) as [Hsub Hcl].
    assert (x ∈ r) as Hx by set_solver. clear Hsub Hb. unfold reach.
    induction 1 as [|a b c Hab Hbc IH]; [done|]. apply IH. eauto.
Qed.

(** *** Early exit *)

Lemma push_until_spec t ys q s :
  match push_until t ys q s with
  | None => t ∈ ys
  | Some qs => (t ∉ ys) /\ push_new ys q s = qs
  end.
Proof.
  revert q s. induction ys as [|y ys IH]; intros q s; simpl; [set_solver|].
  case_bool_decide as Hy; [set_solver|].
  case_bool_decide; [specialize (IH q s)|specialize (IH (q ++ [y]) ({[y]} ∪ s))];
    destruct (push_until _ _ _ _); set_solver.
Qed.

Lemma bfs_find_total (U : gset K) t fuel q s :
  (forall x z, z ∈ succ x -> z ∈ U) ->
  length q + size (U ∖ s) <= fuel -> is_Some (bfs_find t fuel q s).
Proof.
  intros HU. revert q s. induction fuel as [|fuel IH]; intros [|x q] s; simpl; intros Hf;
    [done|lia|done|].
  pose proof (push_until_spec t (succ x) q s) as Hp.
  destruct (push_until t (succ x) q s) as [[q' s']|]; [|done]. apply IH.
  destruct Hp as [_ E]. apply (push_new_work U) in E; [lia|eauto].
Qed.

Lemma bfs_find_true (P : K -> Prop) t fuel q s :
  (forall x y, P x -> y ∈ succ x -> P y) ->
  (forall x, x ∈ q -> P x) -> (forall x, x ∈ s -> P x) ->
  bfs_find t fuel q s = Some true -> P t.
Proof.
  intros HP. revert q s. induction fuel as [|fuel IH]; intros [|x q] s Hq Hs; simpl; try done.
  pose proof (push_until_spec t (succ x) q s) as Hp.
  destruct (push_until t (succ x) q s) as [[q' s']|].
  - destruct Hp as [_ E]. apply push_new_spec in E as [Hs' (new & -> & Hnew)].
    assert (forall z, z ∈ s' -> P z) as Hall.
    { intros z [?|?]%Hs'; [auto|]. eapply HP; [|done]. apply Hq. set_solver. }
    apply IH; [|done]. intros z [?|?]%elem_of_app; [set_solver|]. apply Hall. set_solver.
  - intros _. eapply HP; [|done]. apply Hq. set_solver.
Qed.

Lemma bfs_find_false t fuel q s :
  frontier q s -> t ∉ s -> bfs_find t fuel q s = Some false ->
  exists r, s ⊆ r /\ (t ∉ r) /\ forall x y, x ∈ r -> y ∈ succ x -> y ∈ r.
Proof.
  revert q s. induction fuel as [|fuel IH]; intros [|x q] s Hfr Ht; simpl; try done.
  1,2: intros _; exists s; split_and!; [done..|]; destruct Hfr as [_ Hc]; intros a b Ha Hb;
    eapply (Hc a); set_solver.
  pose proof (push_until_spec t (succ x) q s) as Hp.
  destruct (push_until t (succ x) q s) as [[q' s']|]; [|done].
  destruct Hp as [Htx E]. intros Hb.
  pose proof (frontier_step _ _ _ _ _ Hfr E) as Hfr'.
  apply push_new_spec in E as [Hs _].
  destruct (IH q' s' Hfr' ltac:(set_solver) Hb) as (r & Hsub & Htr & Hcl).
  exists r. split_and!; [set_solver|done..].
Qed.

Lemma bfs_find_reach fuel x t b :
  x <> t -> bfs_find t fuel [x] {[x]} = Some b -> b = true <-> reach x t.
Proof.
  intros Hne Hb. split.
  - intros ->. apply (bfs_find_true (reach x)) with (4 := Hb); unfold reach.
    + intros a c Ha Hc. eapply rtc_r; done.
    + by intros z ->%list_elem_of_singleton.
    + by intros z ->%elem_of_singleton.
  - intros Hr. destruct b; [done|]. exfalso.
    destruct (bfs_find_false t fuel [x] {[x]} (frontier_start x) ltac:(set_solver) Hb)
      as (r & Hsub & Ht & Hcl).
    assert (x ∈ r) as Hx by set_solver. clear Hsub Hb Hne. apply Ht. unfold reach in Hr.
    clear Ht. induction Hr as [|a c d Hac Hcd IH]; [done|]. apply IH. eauto.
Qed.

(** *** Marking on pop *)

Definition weight (U s : gset K) : nat :=
  sum_list_with (fun x => length (succ x)) (elements (U ∖ s)).

Lemma weight_mark (U s : gset K) x :
  x ∈ U -> x ∉ s -> weight U s = length (succ x) + weight U ({[x]} ∪ s).
Proof.
  intros HU Hs. unfold weight.
  assert (U ∖ s = {[x]} ∪ (U ∖ ({[x]} ∪ s))) as E.
  { apply set_eq. intros z. destruct (decide (z = x)); set_solver. }
  rewrite E at 1. rewrite elements_disj_union by set_solver.
  rewrite sum_list_with_app, elements_singleton. simpl. lia.
Qed.

Lemma bfs_pop_total (U : gset K) fuel q s :
  (forall x, x ∉ U -> succ x = []) ->
  length q + weight U s <= fuel -> is_Some (bfs_pop fuel q s).
Proof.
  intros HU. revert q s. induction fuel as [|fuel IH]; intros [|x q] s; simpl; intros Hf;
    [done|lia|done|].
  case_bool_decide as Hx; apply IH; [lia|]. rewrite length_app.
  destruct (decide (x ∈ U)) as [HxU|HxU].
  - rewrite (weight_mark U s x) in Hf by done. lia.
  - rewrite HU by done. simpl.
    assert (weight U ({[x]} ∪ s) = weight U s) as ->; [|lia].
    unfold weight. do 2 f_equal. set_solver.
Qed.

Lemma bfs_pop_spec fuel q s r :
  (forall x, x ∈ s -> forall y, y ∈ succ x -> y ∈ s \/ y ∈ q) ->
  bfs_pop fuel q s = Some r ->
  s ⊆ r /\ (forall x, x ∈ q -> x ∈ r) /\ (forall x y, x ∈ r -> y ∈ succ x -> y ∈ r).
Proof.
  revert q s. induction fuel as [|fuel IH]; intros [|x q] s Hc; simpl; try done.
  1,2: intros [= <-]; split_and!; set_solver.
  case_bool_decide as Hx; intros Hb.
  - destruct (IH q s) as (? & ? & ?); [set_solver|done|]. split_and!; set_solver.
  - destruct (IH (q ++ succ x) ({[x]} ∪ s)) as (? & ? & ?); [|done|split_and!; set_solver].
    intros z [->%elem_of_singleton|Hz]%elem_of_union y Hy; [set_solver|].
    destruct (Hc z Hz y Hy); set_solver.
Qed.

Lemma bfs_pop_sound (P : K -> Prop) fuel q s r :
  (forall x y, P x -> y ∈ succ x -> P y) ->
  (forall x, x ∈ q -> P x) -> (forall x, x ∈ s -> P x) ->
  bfs_pop fuel q s = Some r -> forall x, x ∈ r -> P x.
Proof.
  intros HP. revert q s. induction fuel as [|fuel IH]; intros [|x q] s Hq Hs; simpl; try done.
  1,2: by intros [= <-].
  case_bool_decide; apply IH; try set_solver.
Qed.
End Worklist.

(** ** Saturation

    [loop { before = reset.len(); for (a, b) in edges { if reset.contains(a) {
       reset.insert(b) } } if before == reset.len() { break } }] *)
Section Saturate.
Context `{Countable K}.
Implicit Types (es : list (K * K)) (s : gset K).

Definition sweep es s : gset K :=
  foldl (fun s e => if bool_decide (e.1 ∈ s) then {[e.2]} ∪ s else s) s es.

Fixpoint saturate es (fuel : nat) s : option (gset K) :=
  match fuel with
  | 0 => None
  | S fuel =>
      let s' := sweep es s in
      if bool_decide (size s = size s') then Some s' else saturate es fuel s'
  end.

Definition edge_succ es (x : K) : list K := filter_map (fun e => if bool_decide (e.1 = x) then Some e.2 else None) es.

Lemma edge_succ_elem es x y : y ∈ edge_succ es x <-> (x, y) ∈ es.
Proof.
  unfold edge_succ. rewrite filter_map_elem. split.
  - intros ([a b] & Hab & E). simpl in E. case_bool_decide; naive_solver.
  - intros Hxy. exists (x, y). simpl. by rewrite bool_decide_true.
Qed.

Lemma sweep_incl es s : s ⊆ sweep es s.
Proof.
  unfold sweep. revert s. induction es as [|e es IH]; intros s; simpl; [done|].
  etrans; [|apply IH]. case_bool_decide; set_solver.
Qed.

Lemma sweep_sound (P : K -> Prop) es s :
  (forall x y, P x -> (x, y) ∈ es -> P y) -> (forall x, x ∈ s -> P x) ->
  forall x, x ∈ sweep es s -> P x.
Proof.
  unfold sweep. revert s. induction es as [|e es IH]; intros s HP Hs; simpl; [done|].
  apply IH; [set_solver|]. case_bool_decide; [|done].
  intros x [->%elem_of_singleton|?]%elem_of_union; [|auto].
  eapply (HP e.1); [auto|]. destruct e. set_solver.
Qed.

Lemma sweep_closed es s : sweep es s = s -> forall x y, x ∈ s -> (x, y) ∈ es -> y ∈ s.
Proof.
  intros E. assert (forall es s, s ⊆ sweep es s) as Hincl by (intros; apply sweep_incl).
  assert (forall e k s', e ∈ k -> e.1 ∈ s' -> e.2 ∈ sweep k s') as Hstep.
  { clear s E. intros e k. induction k as [|e' k IH]; intros s'; [set_solver|].
    intros [->|Hk]%elem_of_cons He; unfold sweep in *; simpl.
    - apply (Hincl k). rewrite bool_decide_true by done. set_solver.
    - apply IH; [done|]. case_bool_decide; set_solver. }
  intros x y Hx Hxy. rewrite <- E. by apply (Hstep (x, y)).
Qed.

Lemma saturate_total es fuel s (U : gset K) :
  s ⊆ U -> (forall x y, (x, y) ∈ es -> y ∈ U) ->
  size U < size s + fuel -> is_Some (saturate es fuel s).
Proof.
  revert s. induction fuel as [|fuel IH]; intros s Hs HU Hf; simpl.
  { apply subseteq_size in Hs. lia. }
  case_bool_decide as Hsz; [done|].
  assert (sweep es s ⊆ U) as Hs'.
  { intros x. apply (sweep_sound (.∈ U)); [eauto|set_solver]. }
  apply IH; [done|done|].
  pose proof (subseteq_size _ _ (sweep_incl es s)). lia.
Qed.

Lemma saturate_reach es fuel x r :
  saturate es fuel {[x]} = Some r -> forall y, y ∈ r <-> reach (edge_succ es) x y.
Proof.
  assert (forall s, (forall y, y ∈ s -> reach (edge_succ es) x y) -> x ∈ s ->
    saturate es fuel s = Some r -> forall y, y ∈ r <-> reach (edge_succ es) x y) as Hgen;
    [|apply Hgen; [by intros y ->%elem_of_singleton|set_solver]].
  induction fuel as [|fuel IH]; intros s Hs Hx; simpl; [done|].
  assert (forall y, y ∈ sweep es s -> reach (edge_succ es) x y) as Hs'.
  { apply (sweep_sound (reach (edge_succ es) x)); [|done].
    intros a b Ha Hab. eapply rtc_r; [done|]. by apply edge_succ_elem. }
  pose proof (sweep_incl es s) as Hincl.
  case_bool_decide as Hsz; [|apply IH; set_solver].
  intros [= <-] y. split; [apply Hs'|].
  assert (sweep es s = s) as E.
  { symmetry. apply set_subseteq_size_eq; [done|lia]. }
  rewrite E. unfold reach. clear IH Hs Hs' Hincl Hsz.
  induction 1 as [|a b c Hab Hbc IHr]; [done|]. apply IHr.
  eapply (sweep_closed es s E); [done|]. by apply edge_succ_elem.
Qed.
End Saturate.
