(* ===== verification/GraphTypes.v ===== *)
(** * Graph vocabulary (haider-protocol/src/graph.rs)

    The constants, node names, gates and template records shared by the
    template catalogue, the journal reducer and the activation engine.  The
    opaque identifiers of ids.rs are string newtypes, and so are node names,
    whose constructor accepts only the form [graph_node_name_new] checks. *)

From S2P Require Import Prelude RustStr.

Local Open Scope string_scope.

Definition SHIP_LOOP_TEMPLATE := "ship-loop".
Definition SUPER_SHIP_LOOP_TEMPLATE := "super-ship-loop".
Definition STAGGERED_TEMPLATE := "staggered".
Definition SEC_AUDIT_TEMPLATE := "sec-audit".
Definition DOCS_SWEEP_TEMPLATE := "docs-sweep".
Definition IMPLEMENT_VERIFY_CHILD_TEMPLATE := "child-implement-verify".
Definition DEEPER_CHILD_TEMPLATE := "child-deeper".
Definition GRAPH_TEMPLATE_VERSION : N := 1.
Definition GRAPH_NODE_NAME_MAX_BYTES : N := 64.
Definition GRAPH_MAX_NODES : N := 512.
Definition GRAPH_MAX_EDGES : N := 4096.
Definition GRAPH_MAX_SLOTS : N := 4096.
Definition GRAPH_MAX_ATTEMPTS : N := 8.
Definition GRAPH_MAX_CONDITIONAL_HOPS : N := 24.
Definition GRAPH_MAX_EVIDENCE_PER_ATTEMPT : N := 8.
Definition GRAPH_EVIDENCE_DETAIL_MAX_BYTES : N := 1024.
Definition WORKFLOW_NODE_REJECT_MESSAGE_MAX_BYTES : N := 1024.

(** ** Identifiers (ids.rs): newtypes over [String] *)

Abbreviation GraphId := string (only parsing).
Abbreviation GraphRunSetId := string (only parsing).
Abbreviation GraphNodeName := string (only parsing).
Abbreviation ArtifactRef := string (only parsing).
Abbreviation RunId := string (only parsing).
Abbreviation SessionId := string (only parsing).
Abbreviation EffectId := string (only parsing).
Abbreviation EventId := string (only parsing).
Abbreviation ItemId := string (only parsing).
Abbreviation MenuId := string (only parsing).
Abbreviation WorkspaceRevision := string (only parsing).

(** ** Node names *)

(** The bytes allowed after the first one. *)
Definition node_name_byte (c : ascii) : bool :=
  is_ascii_uppercase c || is_ascii_digit c || is_underscore_or_dash c.

Definition graph_node_name_valid (value : string) : bool :=
  match value with
  | EmptyString => false
  | String first rest =>
      (len value <=? GRAPH_NODE_NAME_MAX_BYTES)%N && is_ascii_uppercase first &&
      all_bytes node_name_byte rest
  end.

(** [GraphNodeName::new], with the text of [GraphNodeNameError]. *)
Definition graph_node_name_error : string :=
  "graph node name must match [A-Z][A-Z0-9_-]{0," ++
  pretty (GRAPH_NODE_NAME_MAX_BYTES - 1)%N ++ "}".

Definition graph_node_name_new (value : string) : result GraphNodeName string :=
  if graph_node_name_valid value then Ok value else Err graph_node_name_error.

Definition build_node : GraphNodeName := "BUILD".
Definition verify_node : GraphNodeName := "VERIFY".
Definition ship_node : GraphNodeName := "SHIP".

(** ** Gates and templates *)

Inductive GraphGateKind :=
| CommandGreen
| AllOfN (n : N)
| HumanConfirm.

Inductive GraphExecutorShape := Inline | FanOut | Human.

Inductive EvidenceAuthority := DaemonVerified | ModelAttested.

Inductive SubjectSelector := SelWorkspaceRevision | SelCommand | SelFreeform.

Record EvidenceSlotSpec := mkEvidenceSlotSpec {
  slot_id : string;
  slot_authority : EvidenceAuthority;
  slot_subject_selector : SubjectSelector
}.

Record GraphNodeSpec := mkGraphNodeSpec {
  spec_name : GraphNodeName;
  spec_gate : GraphGateKind;
  spec_executor : GraphExecutorShape;
  spec_max_attempts : N;
  spec_max_evidence_per_attempt : option N;
  spec_depends_on : list GraphNodeName;
  spec_red_target : option GraphNodeName;
  spec_verify_slots : list EvidenceSlotSpec
}.

Record GraphTemplateSpec := mkGraphTemplateSpec {
  tpl_name : string;
  tpl_version : N;
  tpl_start_node : option GraphNodeName;
  tpl_nodes : list GraphNodeSpec
}.

#[export] Instance GraphGateKind_eq_dec : EqDecision GraphGateKind.
Proof. solve_decision. Defined.
#[export] Instance GraphExecutorShape_eq_dec : EqDecision GraphExecutorShape.
Proof. solve_decision. Defined.
#[export] Instance EvidenceAuthority_eq_dec : EqDecision EvidenceAuthority.
Proof. solve_decision. Defined.
#[export] Instance SubjectSelector_eq_dec : EqDecision SubjectSelector.
Proof. solve_decision. Defined.
#[export] Instance EvidenceSlotSpec_eq_dec : EqDecision EvidenceSlotSpec.
Proof. solve_decision. Defined.
#[export] Instance GraphNodeSpec_eq_dec : EqDecision GraphNodeSpec.
Proof. solve_decision. Defined.
#[export] Instance GraphTemplateSpec_eq_dec : EqDecision GraphTemplateSpec.
Proof. solve_decision. Defined.

(** [matches!(gate, GraphGateKind::HumanConfirm)]. *)
Definition is_human_gate (g : GraphGateKind) : bool :=
  match g with HumanConfirm => true | _ => false end.

Lemma graph_node_name_new_ok value name :
  graph_node_name_new value = Ok name <-> name = value /\ graph_node_name_valid value = true.
Proof. unfold graph_node_name_new. destruct (graph_node_name_valid value); naive_solver. Qed.

Lemma graph_node_name_valid_nonempty value : graph_node_name_valid value = true -> value <> "".
Proof. by destruct value. Qed.

Lemma graph_node_name_valid_len value :
  graph_node_name_valid value = true -> (len value <= GRAPH_NODE_NAME_MAX_BYTES)%N.
Proof.
  destruct value as [|c v]; [done|]. unfold graph_node_name_valid.
  rewrite !andb_true_iff, N.leb_le. tauto.
Qed.
