(* ===== verification/TypeExpr.v ===== *)
(** * Artifact type expressions

    The pipe/v1 type language (haider-protocol/src/loom.rs) and the copies of
    its operations the activation engine uses (graph.rs): one identifier, or a
    composite [A + B + ...]. *)

From S2P Require Import Prelude RustStr.

Local Open Scope string_scope.

(** ** loom.rs *)

Definition ident_byte (c : ascii) : bool := is_ascii_alphanumeric c || is_underscore_or_dash c.

Definition is_ident_chars (value : string) : bool :=
  negb (is_empty value) && all_bytes ident_byte value.

Definition is_ident (value : string) : bool := is_ident_chars value && (len value <=? 64)%N.

Definition valid_type_expr (value : string) : bool :=
  negb (is_empty value) && (len value <=? 256)%N &&
  (length (split_char "+" value) <=? 8)%nat &&
  forallb (fun operand => is_ident (trim operand)) (split_char "+" value).

(** [value.split('+').map(str::trim)]. *)
Definition trimmed_operands (value : string) : list string :=
  map trim (split_char "+" value).

(** ... followed by [.filter(|operand| !operand.is_empty())]. *)
Definition operands (value : string) : list string :=
  filterb (fun operand => negb (is_empty operand)) (trimmed_operands value).

(** [if !merged.contains(&operand) { merged.push(operand) }]. *)
Definition push_unique (merged : list string) (operand : string) : list string :=
  if bool_decide (operand ∈ merged) then merged else (merged ++ [operand])%list.

Definition accepts (expected carried : string) : bool :=
  bool_decide (expected = carried) ||
  existsb (fun operand => bool_decide (operand = carried)) (trimmed_operands expected).

Definition merge_type_exprs (inputs : list string) : string :=
  match inputs with
  | [only] => only
  | _ => join " + " (foldl push_unique [] (flat_map operands inputs))
  end.

Definition normalized_type_operands (value : string) : list string :=
  dedup (sort_strings (operands value)).

Definition same_type_operands (expected carried : string) : bool :=
  bool_decide (normalized_type_operands expected = normalized_type_operands carried).

(** ** graph.rs *)

Definition merge_workflow_types (inputs : list string) : string :=
  match inputs with
  | [only] => only
  | _ => join " + " (foldl (fun merged input => foldl push_unique merged (operands input)) [] inputs)
  end.

Definition workflow_type_operands (value : string) : list string :=
  dedup (sort_strings (operands value)).

Definition workflow_node_accepts_inputs (expected : string) (inputs : list string) : bool :=
  let carried := merge_workflow_types inputs in
  if (1 <? length inputs)%nat
  then bool_decide (workflow_type_operands expected = workflow_type_operands carried)
  else bool_decide (expected = carried) ||
       existsb (fun operand => bool_decide (operand = carried)) (trimmed_operands expected).

Definition workflow_output_accepts (expected : string) (terminal_types : list string) : bool :=
  let produced := merge_workflow_types terminal_types in
  if (1 <? length terminal_types)%nat
  then bool_decide (workflow_type_operands expected = workflow_type_operands produced)
  else workflow_node_accepts_inputs expected terminal_types.

Definition valid_workflow_evidence_type (value : string) : bool := valid_type_expr value.

(** ** The two copies agree *)

Lemma foldl_flat_map {A B C} (f : C -> B -> C) (g : A -> list B) (l : list A) c :
  foldl f c (flat_map g l) = foldl (fun c a => foldl f c (g a)) c l.
Proof. revert c. induction l as [|a l IH]; intros c; simpl; [done|]. by rewrite foldl_app, IH. Qed.

Lemma merge_type_exprs_workflow inputs : merge_type_exprs inputs = merge_workflow_types inputs.
Proof.
  unfold merge_type_exprs, merge_workflow_types.
  destruct inputs as [|a [|b l]]; [done|done|]. f_equal. apply foldl_flat_map.
Qed.

Lemma same_type_operands_workflow expected carried :
  same_type_operands expected carried =
  bool_decide (workflow_type_operands expected = workflow_type_operands carried).
Proof. done. Qed.

Lemma accepts_workflow expected carried :
  accepts expected carried = workflow_node_accepts_inputs expected [carried].
Proof. done. Qed.
