(* ===== verification/Evidence.v ===== *)
(** * InstructPipe evidence rows (haider-protocol/src/pipe.rs)

    One immutable, content-addressed value carried between activation-graph
    stages.  The ledger digest binds the content address, the declared type,
    the byte length and the ordered parent addresses. *)

From S2P Require Import Prelude RustStr Digest GraphTypes TypeExpr.

Local Open Scope string_scope.

Definition INSTRUCT_EVIDENCE_VERSION : N := 1.
Definition INSTRUCT_EVIDENCE_MAX_BYTES : N := 1024 * 1024.
Definition INSTRUCT_EVIDENCE_MAX_PARENTS : N := 4096.

Record InstructEvidenceRef := mkEvidence {
  ev_version : N;
  ev_artifact : ArtifactRef;
  ev_type : string;
  ev_byte_len : N;
  ev_parents : list ArtifactRef;
  ev_ledger_digest : string
}.

#[export] Instance InstructEvidenceRef_eq_dec : EqDecision InstructEvidenceRef.
Proof. solve_decision. Defined.

Inductive InstructEvidenceError :=
| UnsupportedVersion (version : N)
| InvalidType
| InvalidLength
| InvalidArtifact
| TooManyParents
| DigestMismatch.

(** [impl Display for InstructEvidenceError]. *)
Definition instruct_evidence_error_text (e : InstructEvidenceError) : string :=
  match e with
  | UnsupportedVersion v => "unsupported InstructPipe evidence version " ++ pretty v
  | InvalidType => "invalid InstructPipe evidence type"
  | InvalidLength => "invalid InstructPipe evidence length"
  | InvalidArtifact => "invalid InstructPipe artifact address"
  | TooManyParents => "InstructPipe evidence has too many parents"
  | DigestMismatch => "InstructPipe evidence ledger digest does not match"
  end.

Definition valid_artifact_ref (artifact : ArtifactRef) : bool :=
  match strip_prefix "blake3:" artifact with
  | Some digest => (len digest =? 64)%N && all_bytes is_lower_hex digest
  | None => false
  end.

(** The domain tag, NUL terminated. *)
Definition evidence_ledger_domain : string :=
  "haider/instruct-pipe/evidence-ledger/v1" ++ String (ascii_of_nat 0) "".

(** The parts [instruct_evidence_ledger_digest] feeds to [hash_ledger_part]. *)
Definition evidence_ledger_parts (artifact : ArtifactRef) (evidence_type : string)
    (byte_len : N) (parents : list ArtifactRef) : list string :=
  [artifact; evidence_type; u64_be byte_len; u64_be (u64_of_usize (length parents))]
  ++ parents.

Section Evidence.
Context `{Blake3}.

Definition instruct_evidence_ledger_digest (artifact : ArtifactRef) (evidence_type : string)
    (byte_len : N) (parents : list ArtifactRef) : string :=
  blake3_digest evidence_ledger_domain
    (evidence_ledger_parts artifact evidence_type byte_len parents).

(** [InstructEvidenceRef::new]. *)
Definition evidence_new (artifact : ArtifactRef) (evidence_type : string) (byte_len : N)
    (parents : list ArtifactRef) : InstructEvidenceRef :=
  mkEvidence INSTRUCT_EVIDENCE_VERSION artifact evidence_type byte_len parents
    (instruct_evidence_ledger_digest artifact evidence_type byte_len parents).

(** [InstructEvidenceRef::validate]. *)
Definition evidence_validate (e : InstructEvidenceRef) : result unit InstructEvidenceError :=
  (reject_if (negb (ev_version e =? INSTRUCT_EVIDENCE_VERSION)%N)
     (UnsupportedVersion (ev_version e)) ?;
   reject_if (negb (valid_type_expr (ev_type e))) InvalidType ?;
   reject_if ((ev_byte_len e =? 0)%N || (INSTRUCT_EVIDENCE_MAX_BYTES <? ev_byte_len e)%N)
     InvalidLength ?;
   reject_if (INSTRUCT_EVIDENCE_MAX_PARENTS <? N.of_nat (length (ev_parents e)))%N
     TooManyParents ?;
   reject_if (negb (valid_artifact_ref (ev_artifact e)) ||
              existsb (fun parent => negb (valid_artifact_ref parent)) (ev_parents e))
     InvalidArtifact ?;
   reject_if (negb (bool_decide (ev_ledger_digest e =
       instruct_evidence_ledger_digest (ev_artifact e) (ev_type e) (ev_byte_len e)
         (ev_parents e)))) DigestMismatch)%res.

(** What [validate] accepts: exactly the rows [new] builds from admissible
    fields. *)
Definition evidence_fields_ok (artifact : ArtifactRef) (evidence_type : string) (byte_len : N)
    (parents : list ArtifactRef) : Prop :=
  valid_type_expr evidence_type = true /\
  (0 < byte_len <= INSTRUCT_EVIDENCE_MAX_BYTES)%N /\
  (N.of_nat (length parents) <= INSTRUCT_EVIDENCE_MAX_PARENTS)%N /\
  valid_artifact_ref artifact = true /\
  Forall (fun parent => valid_artifact_ref parent = true) parents.

Lemma evidence_validate_iff e :
  evidence_validate e = Ok tt <->
  evidence_fields_ok (ev_artifact e) (ev_type e) (ev_byte_len e) (ev_parents e) /\
  e = evidence_new (ev_artifact e) (ev_type e) (ev_byte_len e) (ev_parents e).
Proof.
  unfold evidence_validate, evidence_fields_ok, evidence_new. destruct e as [v a t b ps d].
  simpl. split.
  - intros Hv. res_invert. guards.
    match goal with He : existsb _ _ = false |- _ => rewrite existsb_false in He end.
    subst. split_and!; try done; try lia.
    apply Forall_forall. intros p Hp.
    match goal with He : forall x, x ∈ ps -> _ |- _ => specialize (He p Hp) end. by guards.
  - intros [(Ht & Hb & Hp & Ha & Hps) [= -> ->]].
    rewrite N.eqb_refl, Ht, Ha. rewrite bool_decide_true by done. simpl.
    replace (b =? 0)%N with false by (symmetry; apply N.eqb_neq; lia).
    replace (INSTRUCT_EVIDENCE_MAX_BYTES <? b)%N with false by (symmetry; apply N.ltb_ge; lia).
    replace (INSTRUCT_EVIDENCE_MAX_PARENTS <? N.of_nat (length ps))%N with false
      by (symmetry; apply N.ltb_ge; lia). simpl.
    replace (existsb _ ps) with false; [done|]. symmetry. apply existsb_false.
    rewrite Forall_forall in Hps. intros x Hx. by rewrite Hps.
Qed.
End Evidence.

(** The bytes hashed for two admissible rows coincide only for equal fields. *)
Lemma evidence_ledger_parts_inj a t b ps a' t' b' ps' :
  (b <= u64_max)%N -> (b' <= u64_max)%N ->
  (N.of_nat (length ps) <= u64_max)%N -> (N.of_nat (length ps') <= u64_max)%N ->
  evidence_ledger_parts a t b ps = evidence_ledger_parts a' t' b' ps' ->
  a = a' /\ t = t' /\ b = b' /\ ps = ps'.
Proof.
  unfold evidence_ledger_parts. intros Hb Hb' Hp Hp' E.
  apply cons_eq_inj in E as [-> E]. apply cons_eq_inj in E as [-> E].
  apply cons_eq_inj in E as [->%u64_be_inj E]; [|done..].
  by apply cons_eq_inj in E as [_ ->].
Qed.
