(* ===== verification/Activation.v ===== *)
(** * The workflow activation engine (haider-protocol/src/graph.rs)

    A registered workflow is frozen into an activation AST: typed nodes, and
    typed edges of three kinds (the graph input, forward edges, back edges).
    [WorkflowGraphState] is the projection of the journal facts about one
    instance; [from_started] opens it and [wg_apply] folds one fact into it.
    This file holds the data and the operations; the proofs are in
    ActivationGraph.v, ActivationInv.v and ActivationProps.v. *)

From S2P Require Import Prelude RustStr Digest Worklist GraphTypes TypeExpr Evidence.

Local Open Scope string_scope.

(** ** Data *)

Inductive WorkflowEdgeKind := GraphInput | Forward | Back.

Record WorkflowActivationEdge := mkEdge {
  edge_id : N;
  edge_kind : WorkflowEdgeKind;
  edge_from : option GraphNodeName;
  edge_to : GraphNodeName;
  edge_evidence_type : string
}.

Record WorkflowJoinSemantics := mkJoin {
  initial_all : list N;
  reactivate_any : list N
}.

Record WorkflowActivationNode := mkActivationNode {
  wan_node : GraphNodeName;
  wan_input_type : string;
  wan_output_type : string;
  wan_join : WorkflowJoinSemantics;
  wan_convergence_gate : bool
}.

Record WorkflowActivationAst := mkActivationAst {
  workflow_id : string;
  workflow_digest : string;
  ast_input_type : string;
  ast_output_type : string;
  ast_nodes : list WorkflowActivationNode;
  ast_edges : list WorkflowActivationEdge;
  max_back_edge_activations : N
}.

Record WorkflowGraphStarted := mkStarted {
  st_graph_id : GraphId;
  st_ast : WorkflowActivationAst;
  st_ast_digest : string;
  st_seed : option InstructEvidenceRef
}.

Record WorkflowNodeInput := mkInput {
  in_edge_id : N;
  in_evidence : InstructEvidenceRef
}.

Inductive WorkflowActivationCause := ForwardJoin | BackEdge.

Record WorkflowNodeActivated := mkActivated {
  act_graph_id : GraphId;
  act_node : GraphNodeName;
  act_iteration : N;
  act_order : N;
  act_cause : WorkflowActivationCause;
  act_inputs : list WorkflowNodeInput;
  act_input_ledger_digest : string
}.

(** [WorkflowConvergenceStamp] holds one field, the decision digest. *)
Record WorkflowConvergenceStamp := mkStamp { decision_digest : string }.

Record WorkflowNodeCompleted := mkCompleted {
  com_graph_id : GraphId;
  com_node : GraphNodeName;
  com_iteration : N;
  com_outputs : list InstructEvidenceRef;
  com_output_ledger_digest : string;
  com_convergence : option WorkflowConvergenceStamp
}.

Inductive WorkflowNodeRejectCode :=
| EvidenceRejected
| TypedInputMissing
| IterationGuard
| ConvergenceRejected
| Abandoned
| Superseded
| InvariantViolation.

Record WorkflowNodeRejected := mkRejected {
  rej_graph_id : GraphId;
  rej_node : GraphNodeName;
  rej_iteration : N;
  rej_code : WorkflowNodeRejectCode;
  rej_message : string;
  rej_evidence : option InstructEvidenceRef;
  rej_convergence_gate : bool
}.

Inductive WorkflowNodePhase := NWaiting | NActivated | NCompleted | NRejected.

Record WorkflowNodeState := mkNodeState {
  wns_node : GraphNodeName;
  wns_phase : WorkflowNodePhase;
  wns_iteration : N;
  wns_activation_order : option N;
  wns_inputs : list WorkflowNodeInput;
  wns_outputs : list InstructEvidenceRef;
  wns_convergence : option WorkflowConvergenceStamp;
  wns_rejection : option WorkflowNodeRejected;
  wns_updated_cursor : N
}.

Inductive WorkflowGraphPhase := GActive | GCompleted | GRejected.

Record WorkflowActivationCoordinate := mkCoordinate {
  co_activation_order : N;
  co_node : GraphNodeName;
  co_iteration : N;
  co_cursor : N
}.

Record WorkflowGraphState := mkGraphState {
  wg_graph_id : GraphId;
  wg_ast : WorkflowActivationAst;
  wg_ast_digest : string;
  wg_seed : option InstructEvidenceRef;
  wg_phase : WorkflowGraphPhase;
  wg_through_cursor : N;
  wg_next_activation_order : N;
  wg_back_edge_activations : N;
  wg_nodes : list WorkflowNodeState;
  wg_activation_order : list WorkflowActivationCoordinate
}.

Inductive WorkflowGraphJournalEvent :=
| EvStarted (started : WorkflowGraphStarted)
| EvActivated (activated : WorkflowNodeActivated)
| EvCompleted (completed : WorkflowNodeCompleted)
| EvRejected (rejected : WorkflowNodeRejected).

Inductive WorkflowGraphReductionError :=
| InvalidAst (message : string)
| InvalidEvent (message : string).

Abbreviation ast_result A := (result A WorkflowGraphReductionError).
Abbreviation wg_method := (ST WorkflowGraphState WorkflowGraphReductionError).

#[export] Instance WorkflowEdgeKind_eq_dec : EqDecision WorkflowEdgeKind.
Proof. solve_decision. Defined.
#[export] Instance WorkflowNodeRejectCode_eq_dec : EqDecision WorkflowNodeRejectCode.
Proof. solve_decision. Defined.
#[export] Instance WorkflowNodePhase_eq_dec : EqDecision WorkflowNodePhase.
Proof. solve_decision. Defined.
#[export] Instance WorkflowGraphPhase_eq_dec : EqDecision WorkflowGraphPhase.
Proof. solve_decision. Defined.

(** ** Typed edges and readiness *)

Definition is_kind (k : WorkflowEdgeKind) (e : WorkflowActivationEdge) : bool :=
  bool_decide (edge_kind e = k).

Definition edge_ids (inputs : list WorkflowNodeInput) : list N := map in_edge_id inputs.

Definition find_spec (ast : WorkflowActivationAst) (node : GraphNodeName)
    : option WorkflowActivationNode :=
  find (fun candidate => bool_decide (wan_node candidate = node)) (ast_nodes ast).

(** Targets of the forward edges leaving [source], in edge order. *)
Definition forward_targets (ast : WorkflowActivationAst) (source : GraphNodeName)
    : list GraphNodeName :=
  filter_map (fun edge =>
    if is_kind Forward edge && opt_eqb (edge_from edge) (Some source)
    then Some (edge_to edge) else None) (ast_edges ast).

(** The loop visits each edge target once, so one step per edge is enough. *)
Definition workflow_forward_reaches (ast : WorkflowActivationAst)
    (ancestor descendant : GraphNodeName) : bool :=
  if bool_decide (ancestor = descendant) then true
  else default false
         (bfs_find (forward_targets ast) descendant (S (length (ast_edges ast)))
            [ancestor] {[ancestor]}).

(** A node with no forward edge leaving it. *)
Definition is_terminal (ast : WorkflowActivationAst) (node : WorkflowActivationNode) : bool :=
  negb (existsb (fun edge =>
    is_kind Forward edge && opt_eqb (edge_from edge) (Some (wan_node node))) (ast_edges ast)).

(** ** Digests *)

Definition nul : string := String (ascii_of_nat 0) "".

Definition edge_kind_tag (k : WorkflowEdgeKind) : string :=
  String (ascii_of_N match k with GraphInput => 0 | Forward => 1 | Back => 2 end) "".

Definition bool_tag (b : bool) : string := String (ascii_of_N (if b then 1 else 0)) "".

(** [hash_graph_u32s]: the count, then each value. *)
Definition u32s_parts (values : list N) : list string :=
  u64_be (u64_of_usize (length values)) :: map u32_be values.

Definition node_parts (node : WorkflowActivationNode) : list string :=
  ([wan_node node; wan_input_type node; wan_output_type node;
    bool_tag (wan_convergence_gate node)]
   ++ u32s_parts (initial_all (wan_join node))
   ++ u32s_parts (reactivate_any (wan_join node)))%list.

Definition edge_parts (edge : WorkflowActivationEdge) : list string :=
  [u32_be (edge_id edge); edge_kind_tag (edge_kind edge); default "" (edge_from edge);
   edge_to edge; edge_evidence_type edge].

Definition ast_parts (ast : WorkflowActivationAst) : list string :=
  ([workflow_id ast; workflow_digest ast; ast_input_type ast; ast_output_type ast;
    u64_be (u64_of_usize (length (ast_nodes ast)))]
   ++ flat_map node_parts (ast_nodes ast)
   ++ [u64_be (u64_of_usize (length (ast_edges ast)))]
   ++ flat_map edge_parts (ast_edges ast)
   ++ [u32_be (max_back_edge_activations ast)])%list.

Definition workflow_activation_ast_digest `{Blake3} (ast : WorkflowActivationAst) : string :=
  blake3_digest ("haider/workflow-activation-ast/v1" ++ nul) (ast_parts ast).

Definition workflow_input_ledger_digest `{Blake3} (inputs : list WorkflowNodeInput) : string :=
  blake3_digest ("haider/workflow-node-input-ledger/v1" ++ nul)
    (flat_map (fun input => [u32_be (in_edge_id input);
                             ev_ledger_digest (in_evidence input)]) inputs).

Definition workflow_evidence_ledger_digest `{Blake3} (outputs : list InstructEvidenceRef)
    : string :=
  blake3_digest ("haider/workflow-node-output-ledger/v1" ++ nul) (map ev_ledger_digest outputs).

(** ** AST validation *)

Definition ast_header_rejected (ast : WorkflowActivationAst) : bool :=
  is_empty (workflow_id ast) || is_empty (workflow_digest ast)
  || negb (valid_workflow_evidence_type (ast_input_type ast))
  || negb (valid_workflow_evidence_type (ast_output_type ast))
  || bool_decide (ast_nodes ast = nil)
  || (GRAPH_MAX_NODES <? N.of_nat (length (ast_nodes ast)))%N
  || bool_decide (ast_edges ast = nil)
  || (GRAPH_MAX_EDGES <? N.of_nat (length (ast_edges ast)))%N
  || (max_back_edge_activations ast =? 0)%N
  || (GRAPH_MAX_CONDITIONAL_HOPS <? max_back_edge_activations ast)%N.

(** One iteration of the loop over the edges. *)
Definition check_edge (ast : WorkflowActivationAst) (edge : WorkflowActivationEdge)
    : ast_result unit :=
  (reject_if (negb (bool_decide (edge_to edge ∈ map wan_node (ast_nodes ast)))
              || negb (valid_workflow_evidence_type (edge_evidence_type edge)))
     (InvalidAst "workflow activation edge target or type is invalid") ?;
   let? target := ok_or (find_spec ast (edge_to edge))
                    (InvalidAst "workflow activation edge lost its target") in
   let accepted :=
     match edge_kind edge with
     | GraphInput =>
         opt_eqb (edge_from edge) None
         && bool_decide (edge_evidence_type edge = ast_input_type ast)
     | Forward =>
         match edge_from edge with
         | None => false
         | Some from =>
             match position (fun node => bool_decide (wan_node node = from)) (ast_nodes ast),
                   position (fun node => bool_decide (wan_node node = edge_to edge))
                     (ast_nodes ast) with
             | Some source_index, Some target_index =>
                 (source_index <? target_index)%nat
                 && match ast_nodes ast !! source_index with
                    | Some source => bool_decide (wan_output_type source = edge_evidence_type edge)
                    | None => false
                    end
             | _, _ => false
             end
         end
     | Back =>
         match edge_from edge with
         | None => false
         | Some from => workflow_forward_reaches ast (edge_to edge) from
         end && bool_decide (edge_evidence_type edge = wan_input_type target)
     end in
   reject_if (negb accepted) (InvalidAst "workflow activation edge has an invalid source"))%res.

(** One iteration of the loop over the nodes. *)
Definition check_node (ast : WorkflowActivationAst) (node : WorkflowActivationNode)
    : ast_result unit :=
  let into edge := bool_decide (edge_to edge = wan_node node) in
  let initial := filterb (fun edge => into edge && negb (is_kind Back edge)) (ast_edges ast) in
  let back := filterb (fun edge => into edge && is_kind Back edge) (ast_edges ast) in
  let incoming_types := map edge_evidence_type initial in
  let expected_initial := map edge_id initial in
  let expected_back := map edge_id back in
  reject_if
    (negb (valid_workflow_evidence_type (wan_input_type node))
     || negb (valid_workflow_evidence_type (wan_output_type node))
     || bool_decide (initial_all (wan_join node) = nil)
     || negb (all_distinct (initial_all (wan_join node)))
     || negb (all_distinct (reactivate_any (wan_join node)))
     || negb (bool_decide (initial_all (wan_join node) = expected_initial))
     || negb (bool_decide (reactivate_any (wan_join node) = expected_back))
     || negb (workflow_node_accepts_inputs (wan_input_type node) incoming_types))
    (InvalidAst "workflow node join or typed signature is invalid").

Definition terminals (ast : WorkflowActivationAst) : list WorkflowActivationNode :=
  filterb (is_terminal ast) (ast_nodes ast).

Definition validate_workflow_activation_ast (ast : WorkflowActivationAst) : ast_result unit :=
  (reject_if (ast_header_rejected ast)
     (InvalidAst "workflow activation AST identity, bounds, or types are invalid") ?;
   reject_if (negb (all_distinct (map wan_node (ast_nodes ast))))
     (InvalidAst "workflow activation AST contains duplicate nodes") ?;
   reject_if
     (negb (all_distinct (map edge_id (ast_edges ast)))
      || bool_decide (0%N ∈ map edge_id (ast_edges ast))
      || negb (length (filterb (is_kind GraphInput) (ast_edges ast)) =? 1)%nat)
     (InvalidAst
        "workflow activation AST needs unique nonzero edges and exactly one graph input") ?;
   for_each (check_edge ast) (ast_edges ast) ?;
   for_each (check_node ast) (ast_nodes ast) ?;
   reject_if
     (bool_decide (terminals ast = nil)
      || negb (workflow_output_accepts (ast_output_type ast)
                 (map wan_output_type (terminals ast))))
     (InvalidAst "workflow activation terminals do not produce the workflow output type"))%res.

(** ** Reads of the projection *)

(** [WorkflowGraphState::node]. *)
Definition wg_node (self : WorkflowGraphState) (node : GraphNodeName)
    : option WorkflowNodeState :=
  find (fun candidate => bool_decide (wns_node candidate = node)) (wg_nodes self).

Definition node_in_phase (self : WorkflowGraphState) (node : GraphNodeName)
    (phase : WorkflowNodePhase) : bool :=
  match wg_node self node with
  | Some state => bool_decide (wns_phase state = phase)
  | None => false
  end.

Definition terminal_nodes_completed (self : WorkflowGraphState) : bool :=
  forallb (fun terminal => node_in_phase self (wan_node terminal) NCompleted)
    (terminals (wg_ast self)).

Definition is_terminal_code (code : WorkflowNodeRejectCode) : bool :=
  match code with Abandoned | Superseded => true | _ => false end.

Definition terminal_rejection_code (self : WorkflowGraphState)
    : option WorkflowNodeRejectCode :=
  find_map (fun node =>
    match wns_rejection node with
    | Some rejection =>
        if is_terminal_code (rej_code rejection) then Some (rej_code rejection) else None
    | None => None
    end) (wg_nodes self).

(** One input of [initial_inputs_exist]: is its evidence present? *)
Definition initial_input_exists (self : WorkflowGraphState) (edge : WorkflowActivationEdge)
    (input : WorkflowNodeInput) : bool :=
  match edge_kind edge with
  | GraphInput =>
      opt_eqb (edge_from edge) None
      && match wg_seed self with
         | None => bool_decide (ev_type (in_evidence input) = ast_input_type (wg_ast self))
                   && bool_decide (ev_parents (in_evidence input) = nil)
         | Some seed => bool_decide (in_evidence input = seed)
         end
  | Forward =>
      match edge_from edge with
      | Some source =>
          match wg_node self source with
          | Some node => bool_decide (wns_phase node = NCompleted)
                         && bool_decide (in_evidence input ∈ wns_outputs node)
          | None => false
          end
      | None => false
      end
  | Back => false
  end.

Definition find_edge (self : WorkflowGraphState) (p : WorkflowActivationEdge -> bool)
    : option WorkflowActivationEdge := find p (ast_edges (wg_ast self)).

Fixpoint initial_inputs_exist (self : WorkflowGraphState) (inputs : list WorkflowNodeInput)
    : ast_result bool :=
  match inputs with
  | [] => Ok true
  | input :: inputs =>
      (let? edge := ok_or (find_edge self (fun edge => (edge_id edge =? in_edge_id input)%N))
                      (InvalidEvent "activation input edge disappeared") in
       if initial_input_exists self edge input then initial_inputs_exist self inputs
       else Ok false)%res
  end.

Definition back_input_exists (self : WorkflowGraphState) (input : WorkflowNodeInput) : bool :=
  match find_edge self (fun edge => (edge_id edge =? in_edge_id input)%N && is_kind Back edge) with
  | None => false
  | Some edge =>
      match edge_from edge with
      | None => false
      | Some source =>
          match wg_node self source ≫= wns_rejection with
          | Some rejection =>
              bool_decide (rej_code rejection = EvidenceRejected)
              && opt_eqb (rej_evidence rejection) (Some (in_evidence input))
          | None => false
          end
      end
  end.

(** ** Updates of the projection *)

Definition with_seed (seed : option InstructEvidenceRef) (s : WorkflowGraphState) :=
  mkGraphState (wg_graph_id s) (wg_ast s) (wg_ast_digest s) seed (wg_phase s)
    (wg_through_cursor s) (wg_next_activation_order s) (wg_back_edge_activations s)
    (wg_nodes s) (wg_activation_order s).
Definition with_phase (phase : WorkflowGraphPhase) (s : WorkflowGraphState) :=
  mkGraphState (wg_graph_id s) (wg_ast s) (wg_ast_digest s) (wg_seed s) phase
    (wg_through_cursor s) (wg_next_activation_order s) (wg_back_edge_activations s)
    (wg_nodes s) (wg_activation_order s).
Definition with_through_cursor (cursor : N) (s : WorkflowGraphState) :=
  mkGraphState (wg_graph_id s) (wg_ast s) (wg_ast_digest s) (wg_seed s) (wg_phase s)
    cursor (wg_next_activation_order s) (wg_back_edge_activations s)
    (wg_nodes s) (wg_activation_order s).
Definition with_next_order (next : N) (s : WorkflowGraphState) :=
  mkGraphState (wg_graph_id s) (wg_ast s) (wg_ast_digest s) (wg_seed s) (wg_phase s)
    (wg_through_cursor s) next (wg_back_edge_activations s)
    (wg_nodes s) (wg_activation_order s).
Definition with_back_edges (count : N) (s : WorkflowGraphState) :=
  mkGraphState (wg_graph_id s) (wg_ast s) (wg_ast_digest s) (wg_seed s) (wg_phase s)
    (wg_through_cursor s) (wg_next_activation_order s) count
    (wg_nodes s) (wg_activation_order s).
Definition with_nodes (nodes : list WorkflowNodeState) (s : WorkflowGraphState) :=
  mkGraphState (wg_graph_id s) (wg_ast s) (wg_ast_digest s) (wg_seed s) (wg_phase s)
    (wg_through_cursor s) (wg_next_activation_order s) (wg_back_edge_activations s)
    nodes (wg_activation_order s).
Definition with_activation_order (order : list WorkflowActivationCoordinate)
    (s : WorkflowGraphState) :=
  mkGraphState (wg_graph_id s) (wg_ast s) (wg_ast_digest s) (wg_seed s) (wg_phase s)
    (wg_through_cursor s) (wg_next_activation_order s) (wg_back_edge_activations s)
    (wg_nodes s) order.

(** Mutates the state of the first node named [node]. *)
Definition update_node (node : GraphNodeName) (f : WorkflowNodeState -> WorkflowNodeState)
    (s : WorkflowGraphState) : WorkflowGraphState :=
  with_nodes (alter_first (fun candidate => bool_decide (wns_node candidate = node)) f
                (wg_nodes s)) s.

(** The forward edges with a source, as pairs. *)
Definition forward_pairs (ast : WorkflowActivationAst) : list (GraphNodeName * GraphNodeName) :=
  filter_map (fun edge =>
    if is_kind Forward edge then (fun from => (from, edge_to edge)) <$> edge_from edge
    else None) (ast_edges ast).

(** Every sweep but the last adds an edge target, so the loop runs at most
    once more than there are edges. *)
Definition descendants (ast : WorkflowActivationAst) (target : GraphNodeName)
    : gset GraphNodeName :=
  default ∅ (saturate (forward_pairs ast) (S (length (ast_edges ast))) {[target]}).

Definition reset_node (cursor : N) (n : WorkflowNodeState) : WorkflowNodeState :=
  mkNodeState (wns_node n) NWaiting (wns_iteration n) None [] [] None None cursor.

Definition reset_descendants (target : GraphNodeName) (cursor : N) (self : WorkflowGraphState)
    : WorkflowGraphState :=
  let reset := descendants (wg_ast self) target in
  with_nodes (map (fun node =>
    if bool_decide (wns_node node ∈ reset) then reset_node cursor node else node)
    (wg_nodes self)) self.

(** ** Journal facts *)

Section Operations.
Context `{Blake3}.
Local Open Scope st_scope.

Definition invalid_workflow_event (message : string) : WorkflowGraphReductionError :=
  InvalidEvent message.

(** [evidence.validate().map_err(|error| .. format!("{what} is invalid: {error}"))]. *)
Definition checked_evidence (what : string) (e : InstructEvidenceRef) : ast_result unit :=
  map_err (fun error =>
    InvalidEvent (what ++ " is invalid: " ++ instruct_evidence_error_text error))
    (evidence_validate e).

Definition initial_node_state (cursor : N) (node : WorkflowActivationNode)
    : WorkflowNodeState :=
  mkNodeState (wan_node node) NWaiting 0 None [] [] None None cursor.

(** [WorkflowGraphState::from_started]. *)
Definition from_started (cursor : N) (started : WorkflowGraphStarted)
    : ast_result WorkflowGraphState :=
  (reject_if ((cursor =? 0)%N || is_empty (st_graph_id started))
     (InvalidEvent "workflow graph start has invalid journal coordinates") ?;
   validate_workflow_activation_ast (st_ast started) ?;
   match st_seed started with
   | None => Ok tt
   | Some seed =>
       checked_evidence "workflow graph seed" seed ?;
       reject_if (negb (bool_decide (ev_type seed = ast_input_type (st_ast started)))
                  || negb (bool_decide (ev_parents seed = nil)))
         (InvalidEvent "workflow graph seed type or root lineage differs from the AST input")
   end ?;
   reject_if (negb (bool_decide
       (st_ast_digest started = workflow_activation_ast_digest (st_ast started))))
     (InvalidEvent "workflow activation AST digest does not match") ?;
   Ok (mkGraphState (st_graph_id started) (st_ast started) (st_ast_digest started)
         (st_seed started) GActive cursor 1 0
         (map (initial_node_state cursor) (ast_nodes (st_ast started))) []))%res.

(** One input of an activation: valid evidence on an edge into the node,
    of the edge's type. *)
Definition check_activation_input (self : WorkflowGraphState) (node : GraphNodeName)
    (input : WorkflowNodeInput) : ast_result unit :=
  (checked_evidence "workflow activation input" (in_evidence input) ?;
   let? edge := ok_or (find_edge self (fun edge =>
                         (edge_id edge =? in_edge_id input)%N
                         && bool_decide (edge_to edge = node)))
                  (invalid_workflow_event "activation names an unknown input edge") in
   reject_if (negb (bool_decide (edge_evidence_type edge = ev_type (in_evidence input))))
     (invalid_workflow_event "activation input evidence has the wrong edge type"))%res.

(** [WorkflowActivationCause::ForwardJoin]: the node waits, names exactly its
    initial edges, and each of them carries existing evidence. *)
Definition check_forward_join (self : WorkflowGraphState) (spec : WorkflowActivationNode)
    (activated : WorkflowNodeActivated) : ast_result unit :=
  let premature :=
    invalid_workflow_event "node activated before every typed initial input existed" in
  (reject_if
     (negb (node_in_phase self (act_node activated) NWaiting)
      || negb (bool_decide (edge_ids (act_inputs activated) = initial_all (wan_join spec))))
     premature ?;
   let? exist := initial_inputs_exist self (act_inputs activated) in
   reject_if (negb exist) premature)%res.

(** [WorkflowActivationCause::BackEdge]: one input, on a declared back edge,
    carrying the evidence its source was rejected with. *)
Definition back_edge_rejected (self : WorkflowGraphState) (spec : WorkflowActivationNode)
    (activated : WorkflowNodeActivated) : bool :=
  opt_eqb (wg_seed self) None
  || (act_iteration activated =? 1)%N
  || match act_inputs activated with
     | [input] =>
         negb (bool_decide (in_edge_id input ∈ reactivate_any (wan_join spec)))
         || negb (back_input_exists self input)
     | _ => true
     end.

Definition reactivate (cursor : N) (spec : WorkflowActivationNode)
    (activated : WorkflowNodeActivated) : wg_method unit :=
  self <- st_get ;;
  st_reject_if (back_edge_rejected self spec activated)
    (invalid_workflow_event "node reactivation lacks a typed rejected back-edge input") ;;;
  next <- st_lift (ok_or (checked_add_u32 (wg_back_edge_activations self) 1)
            (invalid_workflow_event "back-edge activation count overflowed")) ;;
  st_reject_if (max_back_edge_activations (wg_ast self) <? next)%N
    (invalid_workflow_event "back-edge activation exceeded the bounded iteration guard") ;;;
  st_modify (with_back_edges next) ;;;
  st_modify (reset_descendants (act_node activated) cursor).

(** The first input that arrives on the graph-input edge becomes the seed. *)
Definition captured_seed (self : WorkflowGraphState) (inputs : list WorkflowNodeInput)
    : option InstructEvidenceRef :=
  find_map (fun input =>
    match find_edge self (fun edge =>
            (edge_id edge =? in_edge_id input)%N && is_kind GraphInput edge) with
    | Some _ => Some (in_evidence input)
    | None => None
    end) inputs.

Definition capture_seed (inputs : list WorkflowNodeInput) (self : WorkflowGraphState)
    : WorkflowGraphState :=
  match wg_seed self with
  | Some _ => self
  | None => with_seed (captured_seed self inputs) self
  end.

Definition activated_node (cursor : N) (activated : WorkflowNodeActivated)
    (n : WorkflowNodeState) : WorkflowNodeState :=
  mkNodeState (wns_node n) NActivated (act_iteration activated) (Some (act_order activated))
    (act_inputs activated) [] None None cursor.

Definition activation_coordinate (cursor : N) (activated : WorkflowNodeActivated)
    : WorkflowActivationCoordinate :=
  mkCoordinate (act_order activated) (act_node activated) (act_iteration activated) cursor.

(** The node becomes active and the graph's total order advances. *)
Definition commit_activation (cursor : N) (activated : WorkflowNodeActivated)
    : wg_method unit :=
  self <- st_get ;;
  node <- st_lift (ok_or (wg_node self (act_node activated))
            (invalid_workflow_event "activated node has no projected state")) ;;
  st_reject_if (negb (bool_decide (wns_phase node = NWaiting)))
    (invalid_workflow_event "node activation requires a waiting projection") ;;;
  st_modify (update_node (act_node activated) (activated_node cursor activated)) ;;;
  st_modify (fun self => with_activation_order
    (wg_activation_order self ++ [activation_coordinate cursor activated])%list self) ;;;
  self <- st_get ;;
  next <- st_lift (ok_or (checked_add_u64 (wg_next_activation_order self) 1)
            (invalid_workflow_event "activation total order overflowed")) ;;
  st_modify (fun self => with_phase GActive (with_next_order next self)).

Definition apply_activation (cursor : N) (activated : WorkflowNodeActivated)
    : wg_method unit :=
  self <- st_get ;;
  st_reject_if
    (negb (bool_decide (act_graph_id activated = wg_graph_id self))
     || negb (act_order activated =? wg_next_activation_order self)%N
     || bool_decide (wg_phase self = GCompleted)
     || negb (opt_eqb (terminal_rejection_code self) None))
    (invalid_workflow_event
       "workflow node activation has wrong graph, total order, or terminal phase") ;;;
  spec <- st_lift (ok_or (find_spec (wg_ast self) (act_node activated))
            (invalid_workflow_event "activated node is absent from the AST")) ;;
  previous_iteration <- st_lift (ok_or (wns_iteration <$> wg_node self (act_node activated))
            (invalid_workflow_event "activated node has no projected state")) ;;
  expected_iteration <- st_lift (ok_or (checked_add_u32 previous_iteration 1)
            (invalid_workflow_event "node activation iteration overflowed")) ;;
  st_reject_if
    (negb (act_iteration activated =? expected_iteration)%N
     || negb (bool_decide (act_input_ledger_digest activated =
                           workflow_input_ledger_digest (act_inputs activated))))
    (invalid_workflow_event "workflow activation iteration or input ledger is invalid") ;;;
  st_lift (for_each (check_activation_input self (act_node activated))
             (act_inputs activated)) ;;;
  match act_cause activated with
  | ForwardJoin => st_lift (check_forward_join self spec activated)
  | BackEdge => reactivate cursor spec activated
  end ;;;
  st_modify (capture_seed (act_inputs activated)) ;;;
  commit_activation cursor activated.

(** The artifacts of a node's activation inputs, in order. *)
Definition input_artifacts (n : WorkflowNodeState) : list ArtifactRef :=
  map (fun input => ev_artifact (in_evidence input)) (wns_inputs n).

Definition completed_node (cursor : N) (completed : WorkflowNodeCompleted)
    (n : WorkflowNodeState) : WorkflowNodeState :=
  mkNodeState (wns_node n) NCompleted (wns_iteration n) (wns_activation_order n)
    (wns_inputs n) (com_outputs completed) (com_convergence completed) None cursor.

(** The single output of a completion. *)
Definition output_type_rejected (spec : WorkflowActivationNode)
    (completed : WorkflowNodeCompleted) : bool :=
  match com_outputs completed with
  | [output] => negb (bool_decide (ev_type output = wan_output_type spec))
  | _ => true
  end.

Definition apply_completion (cursor : N) (completed : WorkflowNodeCompleted)
    : wg_method unit :=
  self <- st_get ;;
  st_reject_if
    (negb (bool_decide (com_graph_id completed = wg_graph_id self))
     || negb (bool_decide (com_output_ledger_digest completed =
                           workflow_evidence_ledger_digest (com_outputs completed)))
     || negb (opt_eqb (terminal_rejection_code self) None))
    (invalid_workflow_event "workflow node completion has wrong graph or output ledger") ;;;
  spec <- st_lift (ok_or (find_spec (wg_ast self) (com_node completed))
            (invalid_workflow_event "completed node is absent from the AST")) ;;
  st_reject_if (output_type_rejected spec completed)
    (invalid_workflow_event "completed node did not produce its exact typed output") ;;;
  st_lift (for_each (checked_evidence "workflow output evidence") (com_outputs completed)) ;;;
  node <- st_lift (ok_or (wg_node self (com_node completed))
            (invalid_workflow_event "completed node has no projected state")) ;;
  st_reject_if
    (negb (bool_decide (wns_phase node = NActivated))
     || negb (wns_iteration node =? com_iteration completed)%N)
    (invalid_workflow_event "only the current activated iteration may complete") ;;;
  st_reject_if
    (negb (bool_decide (ev_parents <$> head (com_outputs completed) =
                        Some (input_artifacts node))))
    (invalid_workflow_event "workflow output does not bind its ordered activation inputs") ;;;
  st_reject_if
    (negb (Bool.eqb (wan_convergence_gate spec)
             (bool_decide (is_Some (com_convergence completed))))
     || match com_convergence completed with
        | Some stamp => negb (bool_decide (Some (decision_digest stamp) =
                                ev_ledger_digest <$> head (com_outputs completed)))
        | None => false
        end)
    (invalid_workflow_event
       "convergence gate completion lacks its output-bound inspectable stamp") ;;;
  st_modify (update_node (com_node completed) (completed_node cursor completed)) ;;;
  st_modify (fun self =>
    if terminal_nodes_completed self then with_phase GCompleted self else self).

(** Which rejections name an activation that never happened. *)
Definition rejects_missing_activation (node : WorkflowNodeState)
    (rejected : WorkflowNodeRejected) : bool :=
  opt_eqb (checked_add_u32 (wns_iteration node) 1) (Some (rej_iteration rejected))
  && match rej_code rejected with
     | TypedInputMissing | InvariantViolation | Abandoned | Superseded =>
         bool_decide (wns_phase node = NWaiting)
     | IterationGuard => negb (bool_decide (wns_phase node = NActivated))
     | _ => false
     end.

Definition rejected_node (cursor : N) (rejected : WorkflowNodeRejected)
    (n : WorkflowNodeState) : WorkflowNodeState :=
  mkNodeState (wns_node n) NRejected (rej_iteration rejected) (wns_activation_order n)
    (wns_inputs n) [] None (Some rejected) cursor.

Definition apply_rejection (cursor : N) (rejected : WorkflowNodeRejected)
    : wg_method unit :=
  self <- st_get ;;
  st_reject_if
    (negb (bool_decide (rej_graph_id rejected = wg_graph_id self))
     || is_empty (trim (rej_message rejected))
     || (WORKFLOW_NODE_REJECT_MESSAGE_MAX_BYTES <? len (rej_message rejected))%N
     || bool_decide (wg_phase self = GCompleted)
     || match terminal_rejection_code self with
        | Some code => negb (bool_decide (code = rej_code rejected))
        | None => false
        end)
    (invalid_workflow_event
       "workflow node rejection has wrong graph, no detail, or a terminal phase") ;;;
  st_lift (match rej_evidence rejected with
           | Some evidence => checked_evidence "workflow reject evidence" evidence
           | None => Ok tt
           end) ;;;
  spec <- st_lift (ok_or (find_spec (wg_ast self) (rej_node rejected))
            (invalid_workflow_event "rejected node is absent from the AST")) ;;
  st_reject_if
    (negb (Bool.eqb (wan_convergence_gate spec) (rej_convergence_gate rejected)))
    (invalid_workflow_event "workflow rejection mislabels convergence authority") ;;;
  node <- st_lift (ok_or (wg_node self (rej_node rejected))
            (invalid_workflow_event "rejected node has no projected state")) ;;
  st_reject_if
    (match rej_evidence rejected with
     | Some evidence => negb (bool_decide (ev_parents evidence = input_artifacts node))
     | None => false
     end)
    (invalid_workflow_event
       "workflow rejection evidence does not bind its activation inputs") ;;;
  st_reject_if
    (negb (rejects_missing_activation node rejected)
     && (negb (bool_decide (wns_phase node = NActivated))
         || negb (wns_iteration node =? rej_iteration rejected)%N))
    (invalid_workflow_event
       "rejection does not name the current activation or a missing-input attempt") ;;;
  st_modify (update_node (rej_node rejected) (rejected_node cursor rejected)) ;;;
  st_modify (with_phase GRejected).

(** [WorkflowGraphState::apply]. *)
Definition wg_apply (cursor : N) (event : WorkflowGraphJournalEvent) : wg_method unit :=
  self <- st_get ;;
  st_reject_if (cursor <=? wg_through_cursor self)%N
    (invalid_workflow_event "workflow activation cursor did not advance") ;;;
  match event with
  | EvStarted _ =>
      st_lift (Err (invalid_workflow_event "workflow graph was started more than once"))
  | EvActivated activated => apply_activation cursor activated
  | EvCompleted completed => apply_completion cursor completed
  | EvRejected rejected => apply_rejection cursor rejected
  end ;;;
  st_modify (with_through_cursor cursor).

(** ** The projection trust boundary *)

(** [u64::try_from(n).ok().and_then(|count| count.checked_add(1))]. *)
Definition next_of_count (n : nat) : option N :=
  if (N.of_nat n <=? u64_max)%N then checked_add_u64 (N.of_nat n) 1 else None.

Definition projected_node_rejected (self : WorkflowGraphState) (state : WorkflowNodeState)
    (spec : WorkflowActivationNode) : bool :=
  negb (bool_decide (wns_node state = wan_node spec))
  || (wns_updated_cursor state =? 0)%N
  || (wg_through_cursor self <? wns_updated_cursor state)%N
  || (negb (bool_decide (wns_phase state = NWaiting)) && (wns_iteration state =? 0)%N).

Definition projection_header_rejected (self : WorkflowGraphState) : bool :=
  is_empty (wg_graph_id self)
  || (wg_through_cursor self =? 0)%N
  || negb (bool_decide (wg_ast_digest self = workflow_activation_ast_digest (wg_ast self)))
  || match wg_seed self with
     | Some seed => negb (bool_decide (ev_type seed = ast_input_type (wg_ast self)))
                    || negb (bool_decide (ev_parents seed = nil))
     | None => negb (bool_decide (wg_activation_order self = nil))
               || existsb (fun node => match wns_phase node with
                                       | NActivated | NCompleted => true
                                       | _ => false
                                       end) (wg_nodes self)
     end
  || negb (opt_eqb (next_of_count (length (wg_activation_order self)))
             (Some (wg_next_activation_order self)))
  || (max_back_edge_activations (wg_ast self) <? wg_back_edge_activations self)%N
  || negb (length (wg_nodes self) =? length (ast_nodes (wg_ast self)))%nat
  || existsb (fun pair => projected_node_rejected self pair.1 pair.2)
       (zip (wg_nodes self) (ast_nodes (wg_ast self))).

Fixpoint check_coordinates (self : WorkflowGraphState) (index : nat) (previous_cursor : N)
    (coordinates : list WorkflowActivationCoordinate) : ast_result unit :=
  match coordinates with
  | [] => Ok tt
  | coordinate :: coordinates =>
      (reject_if
         (negb (opt_eqb (next_of_count index) (Some (co_activation_order coordinate)))
          || (co_iteration coordinate =? 0)%N
          || (co_cursor coordinate <=? previous_cursor)%N
          || (wg_through_cursor self <? co_cursor coordinate)%N
          || negb (bool_decide (is_Some (wg_node self (co_node coordinate)))))
         (invalid_workflow_event "workflow graph projection activation order is invalid") ?;
       check_coordinates self (S index) (co_cursor coordinate) coordinates)%res
  end.

Definition validate_projection (self : WorkflowGraphState) : ast_result unit :=
  (validate_workflow_activation_ast (wg_ast self) ?;
   match wg_seed self with
   | Some seed => checked_evidence "workflow graph seed" seed
   | None => Ok tt
   end ?;
   reject_if (projection_header_rejected self)
     (invalid_workflow_event
        "workflow graph projection identity, counters, or node index is invalid") ?;
   check_coordinates self 0 0 (wg_activation_order self) ?;
   match wg_phase self with
   | GCompleted =>
       reject_if (negb (terminal_nodes_completed self))
         (invalid_workflow_event
            "completed workflow graph projection has unfinished terminals")
   | GRejected =>
       reject_if (negb (existsb (fun node => bool_decide (is_Some (wns_rejection node)))
                          (wg_nodes self)))
         (invalid_workflow_event
            "rejected workflow graph projection has no inspectable rejection")
   | GActive =>
       reject_if (terminal_nodes_completed self)
         (invalid_workflow_event
            "active workflow graph projection already completed every terminal")
   end)%res.
End Operations.

(** ** Replay *)

(** Decoding of a journal payload is serde's: the payload's [type] tag, and
    the decoding of a payload that carries one of the four activation tags. *)
Class ActivationCodec (Payload : Type) := {
  payload_type : Payload -> option string;
  decode_activation : Payload -> result WorkflowGraphJournalEvent string
}.

Record Envelope (Payload : Type) := mkEnvelope { env_seq : N; env_payload : Payload }.
Arguments mkEnvelope {Payload} _ _.
Arguments env_seq {Payload} _.
Arguments env_payload {Payload} _.

Definition activation_tags : list string :=
  ["workflow_graph_started"; "workflow_node_activated"; "workflow_node_completed";
   "workflow_node_rejected"].

Section Replay.
Context `{Blake3} `{ActivationCodec Payload}.

(** [WorkflowGraphJournalEvent::from_payload_value]. *)
Definition from_payload_value (value : Payload)
    : result (option WorkflowGraphJournalEvent) string :=
  match payload_type value with
  | Some kind => if bool_decide (kind ∈ activation_tags)
                 then result_bind (decode_activation value) (fun event => Ok (Some event))
                 else Ok None
  | None => Ok None
  end.

Definition event_graph_id (event : WorkflowGraphJournalEvent) : GraphId :=
  match event with
  | EvStarted started => st_graph_id started
  | EvActivated activated => act_graph_id activated
  | EvCompleted completed => com_graph_id completed
  | EvRejected rejected => rej_graph_id rejected
  end.

(** One decoded fact folded into the states of every graph. *)
Definition reduce_event (states : gmap GraphId WorkflowGraphState) (seq : N)
    (event : WorkflowGraphJournalEvent) : ast_result (gmap GraphId WorkflowGraphState) :=
  match event with
  | EvStarted started =>
      (reject_if (bool_decide (is_Some (states !! st_graph_id started)))
         (invalid_workflow_event ("workflow graph " ++ st_graph_id started ++
            " started twice at cursor " ++ pretty seq)) ?;
       let? state := from_started seq started in
       Ok (<[st_graph_id started := state]> states))%res
  | _ =>
      (let? state := ok_or (states !! event_graph_id event)
           (invalid_workflow_event ("workflow activation fact for " ++ event_graph_id event ++
              " precedes its start at cursor " ++ pretty seq)) in
       match wg_apply seq event state with
       | (Ok _, state) => Ok (<[event_graph_id event := state]> states)
       | (Err error, _) => Err error
       end)%res
  end.

Definition reduce_envelope (states : gmap GraphId WorkflowGraphState)
    (envelope : Envelope Payload) : ast_result (gmap GraphId WorkflowGraphState) :=
  match from_payload_value (env_payload envelope) with
  | Ok None => Ok states
  | Ok (Some event) => reduce_event states (env_seq envelope) event
  | Err error =>
      Err (invalid_workflow_event ("malformed workflow activation fact at cursor " ++
             pretty (env_seq envelope) ++ ": " ++ error))
  end.

Fixpoint reduce_from (states : gmap GraphId WorkflowGraphState)
    (envelopes : list (Envelope Payload)) : ast_result (gmap GraphId WorkflowGraphState) :=
  match envelopes with
  | [] => Ok states
  | envelope :: envelopes =>
      (let? states := reduce_envelope states envelope in reduce_from states envelopes)%res
  end.

Definition reduce_workflow_graphs (envelopes : list (Envelope Payload))
    : ast_result (gmap GraphId WorkflowGraphState) := reduce_from ∅ envelopes.
End Replay.
