(* ===== verification/ActivationGraph.v ===== *)
(** * What a validated activation AST guarantees

    [ast_ok] collects, as propositions, what acceptance by
    [validate_workflow_activation_ast] establishes, and the graph searches of
    the engine are shown to compute reachability over forward edges. *)

From S2P Require Import Prelude RustStr Digest Worklist GraphTypes TypeExpr Evidence Activation.

(** ** Searches *)

Lemma is_kind_true k e : is_kind k e = true <-> edge_kind e = k.
Proof. unfold is_kind. apply bool_decide_eq_true. Qed.

Lemma opt_eqb_true `{EqDecision A} (a b : option A) : opt_eqb a b = true <-> a = b.
Proof. apply bool_decide_eq_true. Qed.

Lemma opt_eqb_false `{EqDecision A} (a b : option A) : opt_eqb a b = false <-> a <> b.
Proof. apply bool_decide_eq_false. Qed.

#[export] Hint Rewrite is_kind_true @opt_eqb_true @opt_eqb_false Nat.eqb_eq Nat.eqb_neq
  @existsb_false @all_distinct_NoDup Bool.eqb_true_iff Bool.eqb_false_iff : guards.

Lemma forward_targets_elem ast x y :
  y ∈ forward_targets ast x <->
  exists e, e ∈ ast_edges ast /\ edge_kind e = Forward /\ edge_from e = Some x /\ edge_to e = y.
Proof.
  unfold forward_targets. rewrite filter_map_elem. split.
  - intros (e & He & E). exists e. destruct (is_kind Forward e && _) eqn:G; [|done].
    guards. naive_solver.
  - intros (e & He & Hk & Hf & <-). exists e. split; [done|].
    replace (is_kind Forward e && _) with true; [done|]. symmetry. by guards.
Qed.

Lemma forward_pairs_elem ast x y :
  (x, y) ∈ forward_pairs ast <-> y ∈ forward_targets ast x.
Proof.
  rewrite forward_targets_elem. unfold forward_pairs. rewrite filter_map_elem. split.
  - intros (e & He & E). exists e. destruct (is_kind Forward e) eqn:G; [|done]. guards.
    apply fmap_Some in E as (z & Hz & [= -> ->]). done.
  - intros (e & He & Hk & Hf & <-). exists e. split; [done|].
    apply is_kind_true in Hk. by rewrite Hk, Hf.
Qed.

(** Forward reachability between nodes of an AST. *)
Definition forward_reach (ast : WorkflowActivationAst) : GraphNodeName -> GraphNodeName -> Prop :=
  reach (forward_targets ast).

Definition target_set (ast : WorkflowActivationAst) : gset GraphNodeName :=
  list_to_set (map edge_to (ast_edges ast)).

Lemma target_set_size ast : size (target_set ast) <= length (ast_edges ast).
Proof. unfold target_set. etrans; [apply size_list_to_set_le|]. by rewrite length_map. Qed.

Lemma forward_targets_in_set ast x y : y ∈ forward_targets ast x -> y ∈ target_set ast.
Proof.
  rewrite forward_targets_elem. intros (e & He & _ & _ & <-). unfold target_set.
  apply elem_of_list_to_set. rewrite list_elem_of_In. apply in_map. by apply list_elem_of_In.
Qed.

Lemma workflow_forward_reaches_spec ast a d :
  workflow_forward_reaches ast a d = true <-> forward_reach ast a d.
Proof.
  unfold workflow_forward_reaches. case_bool_decide as Had.
  - subst. split; [|done]. intros _. unfold forward_reach, reach. done.
  - destruct (bfs_find_total (forward_targets ast) (target_set ast) d
      (S (length (ast_edges ast))) [a] {[a]}) as [b Hb].
    + intros x z. apply forward_targets_in_set.
    + simpl. pose proof (target_set_size ast).
      assert (size (target_set ast ∖ {[a]}) <= size (target_set ast))
        by (apply subseteq_size; set_solver). lia.
    + rewrite Hb. simpl. by apply (bfs_find_reach _ _ _ _ _ Had Hb).
Qed.

Lemma reach_ext `{Countable K} (f g : K -> list K) x y :
  (forall a b, b ∈ f a -> b ∈ g a) -> reach f x y -> reach g x y.
Proof.
  intros Hfg. unfold reach. induction 1 as [|a b c Hab _ IH]; [done|].
  eapply rtc_l; [|done]. by apply Hfg.
Qed.

(** [reset_descendants] resets exactly the forward-reachable nodes. *)
Lemma descendants_spec ast t x : x ∈ descendants ast t <-> forward_reach ast t x.
Proof.
  unfold descendants.
  destruct (saturate_total (forward_pairs ast) (S (length (ast_edges ast))) {[t]}
    ({[t]} ∪ target_set ast)) as [r Hr].
  - set_solver.
  - intros a b Hab%forward_pairs_elem%forward_targets_in_set. set_solver.
  - rewrite size_singleton. pose proof (target_set_size ast).
    assert (size ({[t]} ∪ target_set ast) <= 1 + size (target_set ast)); [|lia].
    rewrite size_union_alt, size_singleton.
    assert (size (target_set ast ∖ {[t]}) <= size (target_set ast))
      by (apply subseteq_size; set_solver). lia.
  - rewrite Hr. simpl. rewrite (saturate_reach _ _ _ _ Hr). unfold forward_reach.
    split; apply reach_ext; intros a b; rewrite edge_succ_elem; apply forward_pairs_elem.
Qed.

(** ** Well-formed ASTs *)

Record edge_ok (ast : WorkflowActivationAst) (e : WorkflowActivationEdge) : Prop := {
  eo_target : exists n, find_spec ast (edge_to e) = Some n;
  eo_source :
    match edge_kind e with
    | GraphInput => edge_from e = None /\ edge_evidence_type e = ast_input_type ast
    | Forward => exists from i j src tgt,
        edge_from e = Some from /\ ast_nodes ast !! i = Some src /\ wan_node src = from /\
        ast_nodes ast !! j = Some tgt /\ wan_node tgt = edge_to e /\ i < j /\
        wan_output_type src = edge_evidence_type e
    | Back => exists from tgt, edge_from e = Some from /\
        forward_reach ast (edge_to e) from /\
        find_spec ast (edge_to e) = Some tgt /\ edge_evidence_type e = wan_input_type tgt
    end
}.

Record node_ok (ast : WorkflowActivationAst) (n : WorkflowActivationNode) : Prop := {
  no_initial_some : initial_all (wan_join n) <> [];
  no_initial : forall i, i ∈ initial_all (wan_join n) <->
    exists e, e ∈ ast_edges ast /\ edge_id e = i /\ edge_to e = wan_node n /\ edge_kind e <> Back;
  no_back : forall i, i ∈ reactivate_any (wan_join n) <->
    exists e, e ∈ ast_edges ast /\ edge_id e = i /\ edge_to e = wan_node n /\ edge_kind e = Back
}.

Record ast_ok (ast : WorkflowActivationAst) : Prop := {
  ao_nodes : NoDup (map wan_node (ast_nodes ast));
  ao_edges : NoDup (map edge_id (ast_edges ast));
  ao_node_bound : (N.of_nat (length (ast_nodes ast)) <= GRAPH_MAX_NODES)%N;
  ao_hops : (0 < max_back_edge_activations ast <= GRAPH_MAX_CONDITIONAL_HOPS)%N;
  ao_edge : forall e, e ∈ ast_edges ast -> edge_ok ast e;
  ao_node : forall n, n ∈ ast_nodes ast -> node_ok ast n;
  ao_terminals : terminals ast <> []
}.

Lemma find_spec_some ast x n :
  find_spec ast x = Some n -> n ∈ ast_nodes ast /\ wan_node n = x.
Proof. unfold find_spec. intros [? Hp]%find_some_iff. by guards. Qed.

Lemma check_edge_ok ast e : check_edge ast e = Ok tt -> edge_ok ast e.
Proof.
  unfold check_edge. intros Hc. res_invert. rename v0 into target.
  split; [eauto|]. destruct (edge_kind e) eqn:Hk.
  - by guards.
  - destruct (edge_from e) as [from|]; [|done].
    destruct (position _ _) as [i|] eqn:Hi; [|done].
    destruct (position (fun node => bool_decide (wan_node node = edge_to e)) _)
      as [j|] eqn:Hj; [|done].
    destruct (ast_nodes ast !! i) as [src|] eqn:Hsrc;
      [|by rewrite andb_false_r in *]. guards.
    apply position_some in Hi as (src' & Hsrc' & Hp & _).
    rewrite Hsrc in Hsrc'. injection Hsrc' as <-.
    apply position_some in Hj as (tgt & ? & Hq & _). guards.
    exists from, i, j, src, tgt. split_and!; try done. by apply Nat.ltb_lt.
  - guards. destruct (edge_from e) as [from|]; [|done]. 
    exists from, target. split_and!; try done. by apply workflow_forward_reaches_spec.
Qed.

Lemma check_node_ok ast n : check_node ast n = Ok tt -> node_ok ast n.
Proof.
  unfold check_node. intros Hc. res_invert. guards. split.
  - done.
  - intros i. match goal with E : initial_all _ = _ |- _ => rewrite E end.
    rewrite list_elem_of_fmap. setoid_rewrite filterb_elem. split.
    + intros (e & -> & He & Hp). exists e. guards. unfold is_kind in *. by guards.
    + intros (e & He & <- & Ht & Hk). exists e. split_and!; try done.
      unfold is_kind. by guards.
  - intros i. match goal with E : reactivate_any _ = _ |- _ => rewrite E end.
    rewrite list_elem_of_fmap. setoid_rewrite filterb_elem. split.
    + intros (e & -> & He & Hp). exists e. by guards.
    + intros (e & He & <- & Ht & Hk). exists e. split_and!; try done. by guards.
Qed.

Lemma validate_ast_ok ast : validate_workflow_activation_ast ast = Ok tt -> ast_ok ast.
Proof.
  unfold validate_workflow_activation_ast, ast_header_rejected. intros Hv. res_invert. guards.
  split; try done; try lia.
  - intros e He. apply check_edge_ok.
    match goal with F : Forall (fun x => check_edge _ x = _) _ |- _ =>
      rewrite Forall_forall in F; auto end.
  - intros n Hn. apply check_node_ok.
    match goal with F : Forall (fun x => check_node _ x = _) _ |- _ =>
      rewrite Forall_forall in F; auto end.
Qed.

(** Edge ids are unique, so a lookup by id finds the edge itself. *)
Lemma find_edge_unique ast e p :
  ast_ok ast -> e ∈ ast_edges ast -> p e = true ->
  find (fun e' => (edge_id e' =? edge_id e)%N && p e') (ast_edges ast) = Some e.
Proof.
  intros [_ Hnd _ _ _ _ _] He Hp.
  destruct (find_is_some (fun e' => (edge_id e' =? edge_id e)%N && p e') (ast_edges ast) e)
    as [e' Hf]; [done|by rewrite N.eqb_refl|].
  rewrite Hf. f_equal. apply find_some_iff in Hf as [He' Hp']. guards.
  assert (edge_id e' = edge_id e) as Heq by done.
  clear - Hnd He He' Heq. revert Hnd He He'. generalize (ast_edges ast) as l.
  intros l. induction l as [|x l IH]; [set_solver|]. simpl.
  intros [Hx Hnd]%NoDup_cons [->|He]%elem_of_cons [->|He']%elem_of_cons; try done.
  - exfalso. apply Hx. rewrite list_elem_of_fmap. eauto.
  - exfalso. apply Hx. rewrite list_elem_of_fmap. eauto.
  - by apply IH.
Qed.
