(* ===== verification/ActivationStep.v ===== *)
(** * The activation engine as a transition system

    [wg_step] states what one journal fact may do to a graph instance, rule by
    rule and without the code's control flow; [wg_apply_refines] and
    [wg_apply_complete] show that [wg_apply] succeeds exactly on the steps of
    the relation and computes their target. *)

From S2P Require Import Prelude RustStr Digest Worklist GraphTypes TypeExpr Evidence.
From S2P Require Import Activation ActivationGraph.

(** ** Lookups after updates *)

Lemma wg_node_some s x n : wg_node s x = Some n -> n ∈ wg_nodes s /\ wns_node n = x.
Proof. unfold wg_node. intros [? Hp]%find_some_iff. by guards. Qed.

Lemma find_alter_first {A} (key : A -> string) (f : A -> A) l x y :
  (forall a, key (f a) = key a) ->
  find (fun a => bool_decide (key a = y)) (alter_first (fun a => bool_decide (key a = x)) f l) =
  if decide (x = y) then f <$> find (fun a => bool_decide (key a = x)) l
  else find (fun a => bool_decide (key a = y)) l.
Proof.
  intros Hf. induction l as [|a l IH]; simpl; [by destruct (decide _)|].
  repeat case_bool_decide; simpl; rewrite ?Hf; subst.
  - rewrite decide_True by done. by rewrite bool_decide_true.
  - rewrite decide_False by done. by rewrite bool_decide_false.
  - by rewrite bool_decide_true, decide_False.
  - by rewrite bool_decide_false.
Qed.

Lemma wg_node_update x f s y :
  (forall n, wns_node (f n) = wns_node n) ->
  wg_node (update_node x f s) y =
  if decide (x = y) then f <$> wg_node s x else wg_node s y.
Proof. apply (find_alter_first wns_node). Qed.

Lemma wg_node_reset t c s y :
  wg_node (reset_descendants t c s) y =
  (fun n => if bool_decide (y ∈ descendants (wg_ast s) t) then reset_node c n else n)
    <$> wg_node s y.
Proof.
  unfold wg_node, reset_descendants. simpl. induction (wg_nodes s) as [|n l IH]; simpl; [done|].
  assert (wns_node (if bool_decide (wns_node n ∈ descendants (wg_ast s) t)
                    then reset_node c n else n) = wns_node n) as E.
  { clear IH. by case_bool_decide. }
  rewrite E. destruct (decide (wns_node n = y)) as [<-|Hn].
  - by rewrite (bool_decide_true (wns_node n = wns_node n)) by done.
  - by rewrite (bool_decide_false (wns_node n = y)) by done.
Qed.

Lemma wg_node_capture_seed i s y : wg_node (capture_seed i s) y = wg_node s y.
Proof. unfold capture_seed. by destruct (wg_seed s). Qed.

Lemma capture_seed_fields i s :
  let s' := capture_seed i s in
  wg_graph_id s' = wg_graph_id s /\ wg_ast s' = wg_ast s /\ wg_ast_digest s' = wg_ast_digest s /\
  wg_phase s' = wg_phase s /\ wg_through_cursor s' = wg_through_cursor s /\
  wg_next_activation_order s' = wg_next_activation_order s /\
  wg_back_edge_activations s' = wg_back_edge_activations s /\ wg_nodes s' = wg_nodes s /\
  wg_activation_order s' = wg_activation_order s.
Proof. unfold capture_seed. by destruct (wg_seed s). Qed.

(** ** The relation *)

(** Evidence arriving on an edge into [node], of the edge's type. *)
Definition input_typed `{Blake3} (s : WorkflowGraphState) (node : GraphNodeName)
    (i : WorkflowNodeInput) : Prop :=
  evidence_validate (in_evidence i) = Ok tt /\
  exists e, e ∈ ast_edges (wg_ast s) /\ edge_id e = in_edge_id i /\ edge_to e = node /\
    edge_evidence_type e = ev_type (in_evidence i).

(** Evidence that exists on a forward path: the external input, or an output
    of the completed source of a forward edge. *)
Definition input_available (s : WorkflowGraphState) (i : WorkflowNodeInput) : Prop :=
  exists e, e ∈ ast_edges (wg_ast s) /\ edge_id e = in_edge_id i /\
    match edge_kind e with
    | GraphInput => edge_from e = None /\
        match wg_seed s with
        | None => ev_type (in_evidence i) = ast_input_type (wg_ast s) /\
                  ev_parents (in_evidence i) = []
        | Some seed => in_evidence i = seed
        end
    | Forward => exists src n, edge_from e = Some src /\ wg_node s src = Some n /\
        wns_phase n = NCompleted /\ in_evidence i ∈ wns_outputs n
    | Back => False
    end.

(** Evidence its source was rejected with, on a back edge. *)
Definition back_available (s : WorkflowGraphState) (i : WorkflowNodeInput) : Prop :=
  exists e src n r, e ∈ ast_edges (wg_ast s) /\ edge_id e = in_edge_id i /\
    edge_kind e = Back /\ edge_from e = Some src /\ wg_node s src = Some n /\
    wns_rejection n = Some r /\ rej_code r = EvidenceRejected /\
    rej_evidence r = Some (in_evidence i).

(** What every activation checks first. *)
Record activation_admitted `{Blake3} (s : WorkflowGraphState) (a : WorkflowNodeActivated)
    (spec : WorkflowActivationNode) (n : WorkflowNodeState) : Prop := {
  aa_graph : act_graph_id a = wg_graph_id s;
  aa_order : act_order a = wg_next_activation_order s;
  aa_open : wg_phase s <> GCompleted;
  aa_sealed : terminal_rejection_code s = None;
  aa_spec : find_spec (wg_ast s) (act_node a) = Some spec;
  aa_node : wg_node s (act_node a) = Some n;
  aa_iteration : act_iteration a = (wns_iteration n + 1)%N;
  aa_iteration_bound : (wns_iteration n + 1 <= u32_max)%N;
  aa_order_bound : (wg_next_activation_order s + 1 <= u64_max)%N;
  aa_ledger : act_input_ledger_digest a = workflow_input_ledger_digest (act_inputs a);
  aa_inputs : Forall (input_typed s (act_node a)) (act_inputs a)
}.

(** The effect of an admitted activation. *)
Definition activated_state (cursor : N) (a : WorkflowNodeActivated) (s : WorkflowGraphState)
    : WorkflowGraphState :=
  with_phase GActive (with_next_order (wg_next_activation_order s + 1)
    (with_activation_order (wg_activation_order s ++ [activation_coordinate cursor a])
      (update_node (act_node a) (activated_node cursor a) s))).

Definition completed_state (cursor : N) (c : WorkflowNodeCompleted) (s : WorkflowGraphState)
    : WorkflowGraphState :=
  let s' := update_node (com_node c) (completed_node cursor c) s in
  if terminal_nodes_completed s' then with_phase GCompleted s' else s'.

Definition rejected_state (cursor : N) (r : WorkflowNodeRejected) (s : WorkflowGraphState)
    : WorkflowGraphState :=
  with_phase GRejected (update_node (rej_node r) (rejected_node cursor r) s).

(** The rejection closes the current activation, or an attempt that could not
    be opened. *)
Definition rejection_coordinates (n : WorkflowNodeState) (r : WorkflowNodeRejected) : Prop :=
  (wns_phase n = NActivated /\ rej_iteration r = wns_iteration n) \/
  (rej_iteration r = wns_iteration n + 1 /\ wns_iteration n + 1 <= u32_max)%N /\
  match rej_code r with
  | TypedInputMissing | InvariantViolation | Abandoned | Superseded => wns_phase n = NWaiting
  | IterationGuard => wns_phase n <> NActivated
  | _ => False
  end.

Inductive wg_step `{Blake3} (cursor : N)
    : WorkflowGraphState -> WorkflowGraphJournalEvent -> WorkflowGraphState -> Prop :=
| step_forward s a spec n :
    (wg_through_cursor s < cursor)%N ->
    activation_admitted s a spec n ->
    act_cause a = ForwardJoin ->
    wns_phase n = NWaiting ->
    edge_ids (act_inputs a) = initial_all (wan_join spec) ->
    Forall (input_available s) (act_inputs a) ->
    wg_step cursor s (EvActivated a)
      (with_through_cursor cursor (activated_state cursor a (capture_seed (act_inputs a) s)))
| step_back s a spec n i seed :
    (wg_through_cursor s < cursor)%N ->
    activation_admitted s a spec n ->
    act_cause a = BackEdge ->
    wg_seed s = Some seed ->
    act_iteration a <> 1%N ->
    act_inputs a = [i] ->
    in_edge_id i ∈ reactivate_any (wan_join spec) ->
    back_available s i ->
    (wg_back_edge_activations s + 1 <= max_back_edge_activations (wg_ast s))%N ->
    wg_step cursor s (EvActivated a)
      (with_through_cursor cursor (activated_state cursor a
        (reset_descendants (act_node a) cursor
          (with_back_edges (wg_back_edge_activations s + 1) s))))
| step_complete s c spec n out :
    (wg_through_cursor s < cursor)%N ->
    com_graph_id c = wg_graph_id s ->
    com_output_ledger_digest c = workflow_evidence_ledger_digest (com_outputs c) ->
    terminal_rejection_code s = None ->
    find_spec (wg_ast s) (com_node c) = Some spec ->
    com_outputs c = [out] ->
    ev_type out = wan_output_type spec ->
    evidence_validate out = Ok tt ->
    wg_node s (com_node c) = Some n ->
    wns_phase n = NActivated ->
    com_iteration c = wns_iteration n ->
    ev_parents out = input_artifacts n ->
    (if wan_convergence_gate spec
     then com_convergence c = Some (mkStamp (ev_ledger_digest out))
     else com_convergence c = None) ->
    wg_step cursor s (EvCompleted c)
      (with_through_cursor cursor (completed_state cursor c s))
| step_reject s r spec n :
    (wg_through_cursor s < cursor)%N ->
    rej_graph_id r = wg_graph_id s ->
    trim (rej_message r) <> ""%string ->
    (len (rej_message r) <= WORKFLOW_NODE_REJECT_MESSAGE_MAX_BYTES)%N ->
    wg_phase s <> GCompleted ->
    (terminal_rejection_code s = None \/ terminal_rejection_code s = Some (rej_code r)) ->
    find_spec (wg_ast s) (rej_node r) = Some spec ->
    rej_convergence_gate r = wan_convergence_gate spec ->
    wg_node s (rej_node r) = Some n ->
    (forall e, rej_evidence r = Some e ->
       evidence_validate e = Ok tt /\ ev_parents e = input_artifacts n) ->
    rejection_coordinates n r ->
    wg_step cursor s (EvRejected r) (with_through_cursor cursor (rejected_state cursor r s)).

(** ** The checks of the code, as propositions *)

Section Refinement.
Context `{Blake3}.

Lemma checked_evidence_ok what e : checked_evidence what e = Ok tt <-> evidence_validate e = Ok tt.
Proof. apply map_err_ok. Qed.

Lemma check_activation_input_typed s node i :
  check_activation_input s node i = Ok tt -> input_typed s node i.
Proof.
  unfold check_activation_input, find_edge. intros Hc. res_invert. destruct v.
  split; [by eapply checked_evidence_ok|]. exists v0.
  match goal with F : find _ _ = _ |- _ => apply find_some_iff in F as [? ?] end. by guards.
Qed.

Lemma input_typed_checked s node i :
  ast_ok (wg_ast s) -> input_typed s node i -> check_activation_input s node i = Ok tt.
Proof.
  intros Hok [Hv (e & He & Hid & Hto & Hty)]. unfold check_activation_input, find_edge.
  apply (checked_evidence_ok "workflow activation input"%string) in Hv. rewrite Hv. simpl.
  rewrite <- Hid, (find_edge_unique _ e (fun e' => bool_decide (edge_to e' = node)));
    [|done|done|by guards]. simpl. by rewrite bool_decide_true.
Qed.

Lemma initial_input_exists_iff s e i :
  initial_input_exists s e i = true <->
  match edge_kind e with
  | GraphInput => edge_from e = None /\
      match wg_seed s with
      | None => ev_type (in_evidence i) = ast_input_type (wg_ast s) /\
                ev_parents (in_evidence i) = []
      | Some seed => in_evidence i = seed
      end
  | Forward => exists src n, edge_from e = Some src /\ wg_node s src = Some n /\
      wns_phase n = NCompleted /\ in_evidence i ∈ wns_outputs n
  | Back => False
  end.
Proof.
  unfold initial_input_exists. destruct (edge_kind e).
  - destruct (wg_seed s); autorewrite with guards; naive_solver.
  - destruct (edge_from e) as [src|]; [|naive_solver].
    destruct (wg_node s src) as [n|] eqn:Hn; [|naive_solver].
    autorewrite with guards. naive_solver.
  - done.
Qed.

Lemma initial_inputs_exist_available s l :
  initial_inputs_exist s l = Ok true -> Forall (input_available s) l.
Proof.
  induction l as [|i l IH]; simpl; [constructor|]. intros Hx. res_invert.
  destruct (initial_input_exists s v i) eqn:Hi; [|done]. constructor; [|auto].
  unfold find_edge in *.
  match goal with F : find _ _ = _ |- _ => apply find_some_iff in F as [? ?] end. guards.
  exists v. split_and!; [done..|]. by apply initial_input_exists_iff.
Qed.

Lemma available_initial_inputs_exist s l :
  ast_ok (wg_ast s) -> Forall (input_available s) l -> initial_inputs_exist s l = Ok true.
Proof.
  intros Hok. induction 1 as [|i l (e & He & Hid & Hx) Hl IH]; simpl; [done|].
  unfold find_edge. rewrite <- Hid.
  pose proof (find_edge_unique _ e (fun _ => true) Hok He eq_refl) as Hf.
  rewrite (find_ext _ (fun e' => (edge_id e' =? edge_id e)%N && true)), Hf
    by (intros; by rewrite andb_true_r).
  simpl. apply initial_input_exists_iff in Hx. by rewrite Hx.
Qed.

Lemma back_input_exists_available s i : back_input_exists s i = true -> back_available s i.
Proof.
  unfold back_input_exists, find_edge.
  destruct (find _ _) as [e|] eqn:Hf; [|done]. apply find_some_iff in Hf as [He Hp]. guards.
  destruct (edge_from e) as [src|] eqn:Hs; [|done].
  destruct (wg_node s src) as [n|] eqn:Hn; [|done]. simpl.
  destruct (wns_rejection n) as [r|] eqn:Hr; [|done]. intros Hb. guards.
  exists e, src, n, r. done.
Qed.

Lemma back_available_exists s i :
  ast_ok (wg_ast s) -> back_available s i -> back_input_exists s i = true.
Proof.
  intros Hok (e & src & n & r & He & Hid & Hk & Hf & Hn & Hr & Hc & Hev).
  unfold back_input_exists, find_edge. rewrite <- Hid.
  rewrite (find_edge_unique _ e (is_kind Back)); [|done|done|by apply is_kind_true].
  rewrite Hf, Hn. simpl. rewrite Hr. by guards.
Qed.

Lemma commit_activation_ok cursor a s s' :
  commit_activation cursor a s = (Ok tt, s') <->
  (exists n, wg_node s (act_node a) = Some n /\ wns_phase n = NWaiting) /\
  (wg_next_activation_order s + 1 <= u64_max)%N /\ s' = activated_state cursor a s.
Proof.
  split.
  - intros Hc. unfold commit_activation in Hc. st_invert. res_invert. guards. simpl in *.
    match goal with E : checked_add_u64 _ _ = Some _ |- _ =>
      apply checked_add_u64_some in E as [-> ?] end.
    split_and!; [eauto|done|done].
  - intros ((n & Hn & Hp) & Hb & ->). unfold commit_activation, st_bind, st_get, st_lift,
      st_reject_if, st_lift, st_modify. rewrite Hn. simpl.
    rewrite bool_decide_true by done. simpl.
    rewrite (proj2 (checked_add_u64_some _ _ _) (conj eq_refl Hb)). done.
Qed.

(** *** From a run of the code to a step *)

Lemma reactivate_ok cursor spec a s s' :
  reactivate cursor spec a s = (Ok tt, s') ->
  (exists seed i, wg_seed s = Some seed /\ act_iteration a <> 1%N /\ act_inputs a = [i] /\
     in_edge_id i ∈ reactivate_any (wan_join spec) /\ back_available s i) /\
  (wg_back_edge_activations s + 1 <= max_back_edge_activations (wg_ast s))%N /\
  s' = reset_descendants (act_node a) cursor
         (with_back_edges (wg_back_edge_activations s + 1) s).
Proof.
  unfold reactivate. intros Hr. st_invert. res_invert.
  match goal with E : checked_add_u32 _ _ = Some _ |- _ =>
    apply checked_add_u32_some in E as [-> ?] end.
  unfold back_edge_rejected in *. autorewrite with guards in *. destruct_and?.
  destruct (act_inputs a) as [|i [|]]; [done| |done]. guards.
  destruct (wg_seed s) as [seed|]; [|done].
  split_and!; [|done|done]. exists seed, i. split_and!; try done.
  by apply back_input_exists_available.
Qed.

Lemma apply_activation_step cursor a s s' :
  (wg_through_cursor s < cursor)%N -> apply_activation cursor a s = (Ok tt, s') ->
  wg_step cursor s (EvActivated a) (with_through_cursor cursor s').
Proof.
  intros Hcur Hr. unfold apply_activation in Hr. st_invert. res_invert. guards.
  rename v1 into spec.
  match goal with E : _ <$> wg_node _ _ = Some _ |- _ =>
    apply fmap_Some in E as (n & Hn & ->) end.
  match goal with E : checked_add_u32 _ _ = Some _ |- _ =>
    apply checked_add_u32_some in E as [-> Hib] end.
  match goal with E : commit_activation _ _ _ = (Ok ?u, _) |- _ => destruct u;
    apply commit_activation_ok in E as ((n' & Hn' & Hp') & Hnb & ->) end.
  pose proof (capture_seed_fields (act_inputs a) s7) as (_ & _ & _ & _ & _ & Hno & _).
  rewrite Hno in Hnb. rewrite wg_node_capture_seed in Hn'.
  assert (Forall (input_typed s (act_node a)) (act_inputs a)) as Htyped.
  { eapply Forall_impl; [eassumption|]. intros i. apply check_activation_input_typed. }
  destruct (act_cause a) eqn:Hcause.
  - st_invert. unfold check_forward_join in *. res_invert. guards.
    rewrite Hn in Hn'. injection Hn' as <-. subst.
    by apply (step_forward cursor s a spec n), initial_inputs_exist_available.
  - match goal with E : reactivate _ _ _ _ = (Ok ?u, _) |- _ => destruct u;
      apply reactivate_ok in E as ((seed & i & Hseed & Hit & Hin & Hid & Hav) & Hmax & ->) end.
    replace (capture_seed (act_inputs a) _) with
      (reset_descendants (act_node a) cursor
         (with_back_edges (wg_back_edge_activations s + 1) s)).
    2:{ unfold capture_seed. simpl. by rewrite Hseed. }
    eapply (step_back cursor s a spec n i seed); try done.
Qed.

Lemma apply_completion_step cursor c s s' :
  (wg_through_cursor s < cursor)%N -> apply_completion cursor c s = (Ok tt, s') ->
  wg_step cursor s (EvCompleted c) (with_through_cursor cursor s').
Proof.
  intros Hcur Hr. unfold apply_completion in Hr. st_invert. res_invert. guards.
  unfold output_type_rejected in *.
  destruct (com_outputs c) as [|out [|]] eqn:Hout; [done| |done]. simpl in *. guards.
  rename v1 into spec, v4 into n.
  match goal with F : Forall _ [out] |- _ => rewrite Forall_singleton, checked_evidence_ok in F end.
  eapply (step_complete cursor s c spec n out); try done.
  - congruence.
  - by simplify_eq.
  - destruct (wan_convergence_gate spec), (com_convergence c) as [[d]|]; simpl in *;
      guards; try done.
    naive_solver.
Qed.

Lemma rejection_coordinates_code n r :
  negb (rejects_missing_activation n r)
  && (negb (bool_decide (wns_phase n = NActivated))
      || negb (wns_iteration n =? rej_iteration r)%N) = false <->
  rejection_coordinates n r.
Proof.
  unfold rejection_coordinates, rejects_missing_activation.
  rewrite andb_false_iff, negb_false_iff, andb_true_iff, opt_eqb_true, checked_add_u32_some,
    orb_false_iff, !negb_false_iff, bool_decide_eq_true, N.eqb_eq.
  destruct (rej_code r); rewrite ?bool_decide_eq_true, ?negb_true_iff, ?bool_decide_eq_false;
    intuition congruence.
Qed.

Lemma apply_rejection_step cursor r s s' :
  (wg_through_cursor s < cursor)%N -> apply_rejection cursor r s = (Ok tt, s') ->
  wg_step cursor s (EvRejected r) (with_through_cursor cursor s').
Proof.
  intros Hcur Hr. unfold apply_rejection in Hr. st_invert.
  match goal with E : negb (rejects_missing_activation _ _) && _ = false |- _ =>
    apply rejection_coordinates_code in E end.
  res_invert. guards. rename v2 into spec, v4 into n.
  eapply (step_reject cursor s r spec n); try done.
  - by destruct (trim (rej_message r)).
  - destruct (terminal_rejection_code s); guards; naive_solver.
  - destruct (rej_evidence r) as [e|]; [|done]. intros e' [= <-]. guards. split; [|done].
    match goal with E : checked_evidence _ _ = Ok ?u |- _ => destruct u;
      by apply checked_evidence_ok in E end.
Qed.

Lemma wg_apply_refines cursor ev s s' :
  wg_apply cursor ev s = (Ok tt, s') -> wg_step cursor s ev s'.
Proof.
  unfold wg_apply. intros Hr. st_invert. guards. destruct ev; st_invert; try done.
  - destruct v1. by apply apply_activation_step.
  - destruct v1. by apply apply_completion_step.
  - destruct v1. by apply apply_rejection_step.
Qed.

(** *** From a step to a run of the code *)

Lemma admitted_activation_runs cursor a s spec n s1 s2 :
  ast_ok (wg_ast s) -> activation_admitted s a spec n ->
  match act_cause a with
  | ForwardJoin => st_lift (check_forward_join s spec a)
  | BackEdge => reactivate cursor spec a
  end s = (Ok tt, s1) ->
  commit_activation cursor a (capture_seed (act_inputs a) s1) = (Ok tt, s2) ->
  apply_activation cursor a s = (Ok tt, s2).
Proof.
  intros Hok [Hg Ho Hop Hse Hsp Hn Hi Hib Hob Hl Hin] Hcause Hcommit.
  unfold apply_activation. rewrite st_run_get, st_run_reject by (by rewrite Ho; guards).
  rewrite (st_run_lift _ spec) by (by rewrite Hsp).
  rewrite (st_run_lift _ (wns_iteration n)) by (by rewrite Hn).
  rewrite (st_run_lift _ (wns_iteration n + 1)%N)
    by (by rewrite (proj2 (checked_add_u32_some _ _ _) (conj eq_refl Hib))).
  rewrite st_run_reject by (by guards).
  rewrite (st_run_lift _ tt).
  2:{ apply for_each_ok. eapply Forall_impl; [exact Hin|]. intros i.
      by apply input_typed_checked. }
  rewrite (st_run_bind _ _ _ _ _ Hcause), st_run_modify. done.
Qed.

Lemma wg_apply_activation cursor a s s' :
  (wg_through_cursor s < cursor)%N -> apply_activation cursor a s = (Ok tt, s') ->
  wg_apply cursor (EvActivated a) s = (Ok tt, with_through_cursor cursor s').
Proof.
  intros Hc Hr. unfold wg_apply. rewrite st_run_get, st_run_reject by (by guards).
  by rewrite (st_run_bind _ _ _ _ _ Hr).
Qed.

Lemma forward_step_runs cursor s a spec n :
  ast_ok (wg_ast s) -> activation_admitted s a spec n -> act_cause a = ForwardJoin ->
  wns_phase n = NWaiting -> edge_ids (act_inputs a) = initial_all (wan_join spec) ->
  Forall (input_available s) (act_inputs a) ->
  apply_activation cursor a s =
    (Ok tt, activated_state cursor a (capture_seed (act_inputs a) s)).
Proof.
  intros Hok Hadm Hcause Hp Hids Hav.
  eapply (admitted_activation_runs _ _ _ spec n s); [done..| |].
  - rewrite Hcause. unfold check_forward_join, st_lift, node_in_phase.
    rewrite (aa_node _ _ _ _ Hadm), !bool_decide_true by done. simpl.
    by rewrite available_initial_inputs_exist.
  - apply commit_activation_ok. rewrite wg_node_capture_seed, (aa_node _ _ _ _ Hadm).
    pose proof (capture_seed_fields (act_inputs a) s) as (_ & _ & _ & _ & _ & -> & _).
    destruct Hadm. eauto.
Qed.

Lemma back_step_runs cursor s a spec n i seed :
  ast_ok (wg_ast s) -> activation_admitted s a spec n -> act_cause a = BackEdge ->
  wg_seed s = Some seed -> act_iteration a <> 1%N -> act_inputs a = [i] ->
  in_edge_id i ∈ reactivate_any (wan_join spec) -> back_available s i ->
  (wg_back_edge_activations s + 1 <= max_back_edge_activations (wg_ast s))%N ->
  apply_activation cursor a s = (Ok tt, activated_state cursor a
    (reset_descendants (act_node a) cursor
      (with_back_edges (wg_back_edge_activations s + 1) s))).
Proof.
  intros Hok Hadm Hcause Hseed Hit Hin Hid Hav Hmax.
  eapply (admitted_activation_runs _ _ _ spec n); [done..| |].
  - rewrite Hcause. unfold reactivate. rewrite st_run_get, st_run_reject.
    2:{ unfold back_edge_rejected. rewrite Hseed, Hin, back_available_exists by done.
        guards. naive_solver. }
    rewrite (st_run_lift _ (wg_back_edge_activations s + 1)%N).
    2:{ erewrite (proj2 (checked_add_u32_some (wg_back_edge_activations s) 1 _));
          [done|split; [done|]]. destruct Hok as [_ _ _ [_ Hh] _ _ _].
        unfold GRAPH_MAX_CONDITIONAL_HOPS, u32_max in *. lia. }
    rewrite st_run_reject, st_run_modify by (apply N.ltb_ge; lia). done.
  - apply commit_activation_ok. unfold capture_seed. simpl. rewrite Hseed.
    rewrite wg_node_reset. simpl. unfold wg_node at 1. simpl.
    change (find _ (wg_nodes s)) with (wg_node s (act_node a)).
    rewrite (aa_node _ _ _ _ Hadm). simpl.
    rewrite bool_decide_true by (by apply descendants_spec; unfold forward_reach, reach).
    destruct Hadm. eauto.
Qed.

Lemma completion_step_runs cursor s c spec n out :
  com_graph_id c = wg_graph_id s ->
  com_output_ledger_digest c = workflow_evidence_ledger_digest (com_outputs c) ->
  terminal_rejection_code s = None ->
  find_spec (wg_ast s) (com_node c) = Some spec -> com_outputs c = [out] ->
  ev_type out = wan_output_type spec -> evidence_validate out = Ok tt ->
  wg_node s (com_node c) = Some n -> wns_phase n = NActivated ->
  com_iteration c = wns_iteration n -> ev_parents out = input_artifacts n ->
  (if wan_convergence_gate spec
   then com_convergence c = Some (mkStamp (ev_ledger_digest out))
   else com_convergence c = None) ->
  apply_completion cursor c s = (Ok tt, completed_state cursor c s).
Proof.
  intros Hg Hl Hse Hsp Ho Hty Hv Hn Hp Hi Hpa Hcv. unfold apply_completion.
  rewrite st_run_get, st_run_reject by (by guards).
  rewrite (st_run_lift _ spec) by (by rewrite Hsp).
  rewrite st_run_reject by (unfold output_type_rejected; rewrite Ho; by guards).
  rewrite (st_run_lift _ tt).
  2:{ apply for_each_ok. rewrite Ho, Forall_singleton. by apply checked_evidence_ok. }
  rewrite (st_run_lift _ n) by (by rewrite Hn).
  rewrite st_run_reject by (by guards).
  rewrite st_run_reject by (rewrite Ho; simpl; rewrite Hpa; by guards).
  rewrite st_run_reject.
  2:{ rewrite Ho. destruct (wan_convergence_gate spec); rewrite Hcv; simpl; by guards. }
  done.
Qed.

Lemma rejection_step_runs cursor s r spec n :
  rej_graph_id r = wg_graph_id s -> trim (rej_message r) <> ""%string ->
  (len (rej_message r) <= WORKFLOW_NODE_REJECT_MESSAGE_MAX_BYTES)%N ->
  wg_phase s <> GCompleted ->
  (terminal_rejection_code s = None \/ terminal_rejection_code s = Some (rej_code r)) ->
  find_spec (wg_ast s) (rej_node r) = Some spec ->
  rej_convergence_gate r = wan_convergence_gate spec ->
  wg_node s (rej_node r) = Some n ->
  (forall e, rej_evidence r = Some e ->
     evidence_validate e = Ok tt /\ ev_parents e = input_artifacts n) ->
  rejection_coordinates n r ->
  apply_rejection cursor r s = (Ok tt, rejected_state cursor r s).
Proof.
  intros Hg Hm Hlen Hp Hse Hsp Hcg Hn Hev Hco. unfold apply_rejection.
  rewrite st_run_get, st_run_reject.
  2:{ guards. split_and!; try done; [by destruct (trim (rej_message r))|].
      destruct Hse as [-> | ->]; [done|]. by guards. }
  rewrite (st_run_lift _ tt).
  2:{ destruct (rej_evidence r); [|done]. apply checked_evidence_ok. by apply Hev. }
  rewrite (st_run_lift _ spec) by (by rewrite Hsp).
  rewrite st_run_reject by (by guards).
  rewrite (st_run_lift _ n) by (by rewrite Hn).
  rewrite st_run_reject.
  2:{ destruct (rej_evidence r); [|done]. guards. by apply Hev. }
  rewrite st_run_reject by (by apply rejection_coordinates_code). done.
Qed.

Lemma wg_apply_complete cursor ev s s' :
  ast_ok (wg_ast s) -> wg_step cursor s ev s' -> wg_apply cursor ev s = (Ok tt, s').
Proof.
  intros Hok. destruct 1.
  - apply wg_apply_activation; [done|]. by eapply forward_step_runs.
  - apply wg_apply_activation; [done|]. by eapply back_step_runs.
  - unfold wg_apply. rewrite st_run_get, st_run_reject by (by guards).
    by erewrite st_run_bind by (by eapply completion_step_runs).
  - unfold wg_apply. rewrite st_run_get, st_run_reject by (by guards).
    by erewrite st_run_bind by (by eapply rejection_step_runs).
Qed.
End Refinement.
