(* ===== verification/ActivationInv.v ===== *)
(** * Invariant of the activation engine

    [wg_inv] is established by [from_started] and preserved by every step.  It
    covers the journal coordinates, the shape of each node's projection, the
    provenance of every forward input and a bound on the activations. *)

From S2P Require Import Prelude RustStr Digest Worklist GraphTypes TypeExpr Evidence.
From S2P Require Import Activation ActivationGraph ActivationStep.

Section Invariant.
Context `{Blake3}.
Implicit Types (s : WorkflowGraphState) (n : WorkflowNodeState).

(** ** Node projections *)

Definition node_shape n : Prop :=
  match wns_phase n with
  | NWaiting => wns_inputs n = [] /\ wns_outputs n = [] /\ wns_rejection n = None
  | NActivated => wns_outputs n = [] /\ wns_rejection n = None
  | NCompleted => wns_rejection n = None /\
      exists out, wns_outputs n = [out] /\ evidence_validate out = Ok tt /\
        ev_parents out = input_artifacts n
  | NRejected => wns_outputs n = [] /\ exists r, wns_rejection n = Some r /\
      rej_iteration r = wns_iteration n /\ rej_node r = wns_node n
  end.

Record node_inv (through : N) n : Prop := {
  ni_cursor : (0 < wns_updated_cursor n <= through)%N;
  ni_iteration : wns_phase n <> NWaiting -> (0 < wns_iteration n)%N;
  ni_shape : node_shape n
}.

(** ** Provenance

    The evidence a node was activated with is still the output of the
    completed source of its edge, unless a guarded back hop has since
    rejected that source. *)
Definition supplied s src (evidence : InstructEvidenceRef) : Prop :=
  exists m, wg_node s src = Some m /\
    ((wns_phase m = NCompleted /\ evidence ∈ wns_outputs m) \/
     (exists r, wns_rejection m = Some r /\ rej_code r = IterationGuard)).

Definition provenance s : Prop :=
  forall x n i e src, wg_node s x = Some n -> i ∈ wns_inputs n ->
    e ∈ ast_edges (wg_ast s) -> edge_id e = in_edge_id i ->
    edge_kind e = Forward -> edge_from e = Some src -> supplied s src (in_evidence i).

(** ** Activation order *)

Record order_inv s : Prop := {
  oi_coordinate : forall k c, wg_activation_order s !! k = Some c ->
    co_activation_order c = N.of_nat (S k) /\ (0 < co_iteration c)%N /\
    (0 < co_cursor c <= wg_through_cursor s)%N /\ is_Some (wg_node s (co_node c));
  oi_increasing : forall j k c d, j < k -> wg_activation_order s !! j = Some c ->
    wg_activation_order s !! k = Some d -> (co_cursor c < co_cursor d)%N
}.

(** ** The budget

    Between two back edges a node is activated at most once. *)
Definition is_waiting n : bool := bool_decide (wns_phase n = NWaiting).
Definition waiting s : nat := length (filterb is_waiting (wg_nodes s)).

Definition in_budget s : Prop :=
  length (wg_activation_order s) + waiting s <=
  length (wg_nodes s) * S (N.to_nat (wg_back_edge_activations s)).

(** ** The whole invariant *)

Definition seed_inv s : Prop :=
  match wg_seed s with
  | Some seed => evidence_validate seed = Ok tt /\ ev_type seed = ast_input_type (wg_ast s) /\
      ev_parents seed = []
  | None => wg_activation_order s = [] /\
      forall x n, wg_node s x = Some n -> wns_phase n <> NActivated /\ wns_phase n <> NCompleted
  end.

Definition phase_inv s : Prop :=
  (wg_phase s = GCompleted <-> terminal_nodes_completed s = true) /\
  (wg_phase s = GRejected -> exists x n, wg_node s x = Some n /\ is_Some (wns_rejection n)).

Record wg_inv s : Prop := {
  wi_ast : validate_workflow_activation_ast (wg_ast s) = Ok tt;
  wi_graph_id : wg_graph_id s <> ""%string;
  wi_digest : wg_ast_digest s = workflow_activation_ast_digest (wg_ast s);
  wi_through : (0 < wg_through_cursor s)%N;
  wi_names : map wns_node (wg_nodes s) = map wan_node (ast_nodes (wg_ast s));
  wi_seed : seed_inv s;
  wi_next : wg_next_activation_order s = N.of_nat (S (length (wg_activation_order s)));
  wi_back : (wg_back_edge_activations s <= max_back_edge_activations (wg_ast s))%N;
  wi_nodes : forall x n, wg_node s x = Some n -> node_inv (wg_through_cursor s) n;
  wi_inputs : forall x n i, wg_node s x = Some n -> i ∈ wns_inputs n -> input_typed s x i;
  wi_provenance : provenance s;
  wi_order : order_inv s;
  wi_budget : in_budget s;
  wi_phase : phase_inv s
}.

Lemma wi_ast_ok s : wg_inv s -> ast_ok (wg_ast s).
Proof. intros Hi. apply validate_ast_ok, Hi. Qed.

(** ** Names and lookups *)

Lemma wg_node_is_some s x :
  map wns_node (wg_nodes s) = map wan_node (ast_nodes (wg_ast s)) ->
  is_Some (wg_node s x) <-> x ∈ map wan_node (ast_nodes (wg_ast s)).
Proof.
  intros <-. rewrite list_elem_of_fmap. split.
  - intros [n Hn]. apply wg_node_some in Hn as [? <-]. eauto.
  - intros (n & -> & Hn). eapply find_is_some; [done|]. by rewrite bool_decide_true.
Qed.

Lemma wg_node_of_elem s n :
  NoDup (map wns_node (wg_nodes s)) -> n ∈ wg_nodes s -> wg_node s (wns_node n) = Some n.
Proof.
  unfold wg_node. induction (wg_nodes s) as [|m l IH]; simpl; [set_solver|].
  intros [Hm Hnd]%NoDup_cons [->|Hn]%elem_of_cons; [by rewrite bool_decide_true|].
  rewrite bool_decide_false; [by apply IH|]. intros E. apply Hm. rewrite E.
  rewrite list_elem_of_fmap. eauto.
Qed.

Lemma wi_names_nodup s : wg_inv s -> NoDup (map wns_node (wg_nodes s)).
Proof. intros Hi. rewrite (wi_names s Hi). by apply ao_nodes, wi_ast_ok. Qed.

Lemma find_spec_name s x spec :
  find_spec (wg_ast s) x = Some spec -> x ∈ map wan_node (ast_nodes (wg_ast s)).
Proof. intros [? <-]%find_spec_some. rewrite list_elem_of_fmap. eauto. Qed.

Lemma update_node_names x f s :
  (forall n, wns_node (f n) = wns_node n) ->
  map wns_node (wg_nodes (update_node x f s)) = map wns_node (wg_nodes s).
Proof.
  intros Hf. simpl. induction (wg_nodes s) as [|n l IH]; simpl; [done|].
  case_bool_decide; simpl; by rewrite ?Hf, ?IH.
Qed.

Lemma reset_names t c s :
  map wns_node (wg_nodes (reset_descendants t c s)) = map wns_node (wg_nodes s).
Proof.
  simpl. rewrite map_map. apply map_ext. intros n. by case_bool_decide.
Qed.

(** ** Counting waiting nodes *)

Lemma waiting_le s : waiting s <= length (wg_nodes s).
Proof. apply List.filter_length_le. Qed.

Lemma count_alter_first {A} (p q : A -> bool) (f : A -> A) l a :
  find p l = Some a ->
  length (filterb q (alter_first p f l)) + Nat.b2n (q a) =
  length (filterb q l) + Nat.b2n (q (f a)).
Proof.
  induction l as [|b l IH]; simpl; [done|]. destruct (p b).
  - intros [= ->]. simpl. destruct (q a), (q (f a)); simpl; lia.
  - intros Hf. specialize (IH Hf). simpl. destruct (q b); simpl; lia.
Qed.

Lemma waiting_update x f s n :
  wg_node s x = Some n ->
  waiting (update_node x f s) + Nat.b2n (is_waiting n) =
  waiting s + Nat.b2n (is_waiting (f n)).
Proof. intros Hn. by apply count_alter_first. Qed.

(** ** Monotonicity *)

Lemma node_inv_le c c' n : (c <= c')%N -> node_inv c n -> node_inv c' n.
Proof. intros Hc [? ? ?]. split; [lia|done|done]. Qed.

Lemma input_typed_ast s s' x i : wg_ast s' = wg_ast s -> input_typed s x i -> input_typed s' x i.
Proof. unfold input_typed. by intros ->. Qed.

Lemma terminals_completed_mono s s' :
  wg_ast s' = wg_ast s ->
  (forall y, node_in_phase s' y NCompleted = true -> node_in_phase s y NCompleted = true) ->
  terminal_nodes_completed s' = true -> terminal_nodes_completed s = true.
Proof.
  unfold terminal_nodes_completed. rewrite !forallb_elem. intros -> Hmono Ht t Ht'. auto.
Qed.

Lemma node_in_phase_true s x p :
  node_in_phase s x p = true <-> exists n, wg_node s x = Some n /\ wns_phase n = p.
Proof.
  unfold node_in_phase. destruct (wg_node s x) as [n|]; [|naive_solver].
  rewrite bool_decide_eq_true. naive_solver.
Qed.

(** ** Activation

    [base] is the state an admitted activation starts from: [s] with the
    external input captured, or [s] with the descendants of the reactivated
    node reset. *)
Record base (cursor : N) s b : Prop := {
  b_graph_id : wg_graph_id b = wg_graph_id s;
  b_ast : wg_ast b = wg_ast s;
  b_digest : wg_ast_digest b = wg_ast_digest s;
  b_through : wg_through_cursor b = wg_through_cursor s;
  b_order : wg_activation_order b = wg_activation_order s;
  b_next : wg_next_activation_order b = wg_next_activation_order s;
  b_names : map wns_node (wg_nodes b) = map wns_node (wg_nodes s);
  b_back : (wg_back_edge_activations b <= max_back_edge_activations (wg_ast b))%N;
  b_nodes : forall x n, wg_node b x = Some n -> node_inv cursor n;
  b_inputs : forall x n i, wg_node b x = Some n -> i ∈ wns_inputs n -> input_typed b x i;
  b_provenance : provenance b;
  b_budget : in_budget b;
  b_seed : exists seed, wg_seed b = Some seed /\ evidence_validate seed = Ok tt /\
    ev_type seed = ast_input_type (wg_ast b) /\ ev_parents seed = [];
  b_unfinished : terminal_nodes_completed b = false
}.

Lemma wg_node_activated cursor c a b y :
  wg_node (with_through_cursor c (activated_state cursor a b)) y =
  if decide (act_node a = y) then activated_node cursor a <$> wg_node b (act_node a)
  else wg_node b y.
Proof. by apply wg_node_update. Qed.

(** A node that is neither completed nor rejected supplies nothing. *)
Lemma supplied_update s s' x (f : WorkflowNodeState -> WorkflowNodeState) n src ev :
  (forall y, wg_node s' y = if decide (x = y) then f <$> wg_node s x else wg_node s y) ->
  wg_node s x = Some n -> wns_phase n <> NCompleted -> wns_rejection n = None ->
  supplied s src ev -> supplied s' src ev.
Proof.
  intros Hl Hn Hp Hr (m & Hm & Hc). exists m. split; [|done]. rewrite Hl.
  destruct (decide (x = src)) as [<-|]; [|done]. exfalso.
  destruct Hc as [[? ?]|(r & Hr' & _)]; simplify_eq.
Qed.

Lemma order_inv_snoc s s' c :
  order_inv s -> wg_activation_order s' = wg_activation_order s ++ [c] ->
  co_activation_order c = N.of_nat (S (length (wg_activation_order s))) ->
  (0 < co_iteration c)%N -> co_cursor c = wg_through_cursor s' ->
  (wg_through_cursor s < wg_through_cursor s')%N ->
  is_Some (wg_node s' (co_node c)) ->
  (forall y, is_Some (wg_node s y) -> is_Some (wg_node s' y)) -> order_inv s'.
Proof.
  intros [Hc Hi] Ho Hco Hit Hcu Hlt Hn Hmono. split.
  - intros k d. rewrite Ho, lookup_app_Some. intros [Hk|[Hk Hd]].
    + destruct (Hc _ _ Hk) as (? & ? & ? & ?). split_and!; [done|done|lia|lia|auto].
    + apply list_lookup_singleton_Some in Hd as [? <-].
      replace (S k) with (S (length (wg_activation_order s))) by lia.
      split_and!; [done|done|lia|lia|done].
  - intros j k d e Hjk. rewrite Ho, !lookup_app_Some.
    intros [Hj|[Hj Hd]] [Hk|[Hk He]].
    + eauto.
    + apply list_lookup_singleton_Some in He as [_ <-]. destruct (Hc _ _ Hj). lia.
    + apply lookup_lt_Some in Hk. lia.
    + apply list_lookup_singleton_Some in He as [? _].
      apply list_lookup_singleton_Some in Hd as [? _]. lia.
Qed.

Lemma activated_inv cursor s b a n :
  wg_inv s -> (wg_through_cursor s < cursor)%N -> base cursor s b ->
  wg_node b (act_node a) = Some n -> wns_phase n = NWaiting ->
  act_order a = wg_next_activation_order s -> (0 < act_iteration a)%N ->
  Forall (input_typed s (act_node a)) (act_inputs a) ->
  (forall i e src, i ∈ act_inputs a -> e ∈ ast_edges (wg_ast s) -> edge_id e = in_edge_id i ->
     edge_kind e = Forward -> edge_from e = Some src -> supplied b src (in_evidence i)) ->
  wg_inv (with_through_cursor cursor (activated_state cursor a b)).
Proof.
  intros Hi Hcur Hb Hn Hp Hord Hit Htyped Hsup.
  set (s' := with_through_cursor _ _).
  pose proof (wg_node_activated cursor cursor a b) as Hl. fold s' in Hl.
  assert (node_shape n) as Hsh by apply (b_nodes _ _ _ Hb _ _ Hn).
  unfold node_shape in Hsh. rewrite Hp in Hsh. destruct Hsh as (_ & _ & Hrj).
  split.
  - simpl. rewrite (b_ast _ _ _ Hb). apply Hi.
  - simpl. rewrite (b_graph_id _ _ _ Hb). apply Hi.
  - simpl. rewrite (b_digest _ _ _ Hb), (b_ast _ _ _ Hb). apply Hi.
  - simpl. lia.
  - change (map wns_node (wg_nodes s')) with
      (map wns_node (wg_nodes (update_node (act_node a) (activated_node cursor a) b))).
    rewrite update_node_names, (b_names _ _ _ Hb) by done. simpl.
    rewrite (b_ast _ _ _ Hb). apply Hi.
  - destruct (b_seed _ _ _ Hb) as (seed & Hs & ?). unfold seed_inv. simpl. by rewrite Hs.
  - simpl. rewrite length_app, (b_next _ _ _ Hb), (wi_next _ Hi), (b_order _ _ _ Hb).
    simpl. lia.
  - simpl. apply (b_back _ _ _ Hb).
  - intros x m. rewrite Hl. destruct (decide _) as [<-|].
    + rewrite Hn. intros [= <-]. split; simpl; [lia|done|]. by unfold node_shape.
    + apply Hb.
  - intros x m i. rewrite Hl. destruct (decide _) as [<-|].
    + rewrite Hn. intros [= <-] Hin. simpl in Hin. rewrite Forall_forall in Htyped.
      eapply input_typed_ast; [|by apply Htyped]. simpl. apply Hb.
    + intros Hm Hin. eapply input_typed_ast; [|by eapply (b_inputs _ _ _ Hb)]. done.
  - intros x m i e src. rewrite Hl. simpl. rewrite (b_ast _ _ _ Hb). intros Hm Hin He Hid Hk Hf.
    eapply (supplied_update b s' (act_node a)); [done|done|congruence|done|].
    destruct (decide (act_node a = x)) as [<-|].
    + rewrite Hn in Hm. injection Hm as <-. eauto.
    + eapply (b_provenance _ _ _ Hb); eauto. by rewrite (b_ast _ _ _ Hb).
  - eapply (order_inv_snoc s s' (activation_coordinate cursor a)); simpl; try done.
    + apply Hi.
    + by rewrite (b_order _ _ _ Hb).
    + by rewrite Hord, (wi_next _ Hi).
    + rewrite Hl, decide_True by done. by rewrite Hn.
    + intros y. rewrite Hl. rewrite wg_node_is_some by apply Hi.
      intros Hy. destruct (decide _); [by rewrite Hn|].
      apply wg_node_is_some; rewrite ?(b_names _ _ _ Hb), ?(b_ast _ _ _ Hb); [apply Hi|done].
  - pose proof (b_budget _ _ _ Hb) as Hbud. unfold in_budget in *.
    assert (waiting s' + 1 = waiting b) as Hw.
    { pose proof (waiting_update _ (activated_node cursor a) _ _ Hn) as Hw.
      unfold is_waiting in Hw at 1 2. rewrite bool_decide_true in Hw by done.
      simpl in Hw. change (waiting s') with (waiting (update_node (act_node a)
        (activated_node cursor a) b)). lia. }
    assert (length (wg_nodes s') = length (wg_nodes b)) as Hlen by apply alter_first_length.
    rewrite Hlen. simpl wg_back_edge_activations. simpl wg_activation_order.
    rewrite length_app. simpl length. lia.
  - split; [|done]. simpl. split; [done|]. intros Ht. exfalso.
    apply (terminals_completed_mono b s') in Ht; [by rewrite (b_unfinished _ _ _ Hb) in Ht|done|].
    intros y. rewrite !node_in_phase_true, Hl.
    destruct (decide _) as [<-|]; [|done]. rewrite Hn. simpl. intros (m & [= <-] & [=]).
Qed.

Lemma unfinished_of_phase s : wg_inv s -> wg_phase s <> GCompleted ->
  terminal_nodes_completed s = false.
Proof.
  intros Hi Hp. destruct (terminal_nodes_completed s) eqn:E; [|done].
  by apply (proj1 (wi_phase s Hi)) in E.
Qed.

(** The first external input seeds the graph. *)
Lemma captured_seed_ok s spec l :
  wg_inv s -> spec ∈ ast_nodes (wg_ast s) ->
  edge_ids l = initial_all (wan_join spec) -> Forall (input_available s) l ->
  Forall (input_typed s (wan_node spec)) l ->
  exists seed, wg_seed (capture_seed l s) = Some seed /\ evidence_validate seed = Ok tt /\
    ev_type seed = ast_input_type (wg_ast s) /\ ev_parents seed = [].
Proof.
  intros Hi Hspec Hids Hav Hty. pose proof (wi_seed s Hi) as Hs. unfold seed_inv in Hs.
  unfold capture_seed. destruct (wg_seed s) as [seed|] eqn:Hseed; [rewrite Hseed; eauto|].
  destruct Hs as [_ Hnone]. simpl.
  assert (forall i, i ∈ l -> exists e, e ∈ ast_edges (wg_ast s) /\ edge_id e = in_edge_id i /\
    edge_kind e = GraphInput /\ ev_type (in_evidence i) = ast_input_type (wg_ast s) /\
    ev_parents (in_evidence i) = []) as Hall.
  { intros i Hil. rewrite Forall_forall in Hav. destruct (Hav i Hil) as (e & He & Hid & Hk).
    destruct (edge_kind e) eqn:Hkind; [|exfalso|done].
    - rewrite Hseed in Hk. exists e. naive_solver.
    - destruct Hk as (src & m & _ & Hm & Hc & _). by destruct (Hnone _ _ Hm). }
  destruct (captured_seed s l) as [seed|] eqn:Hcs.
  - exists seed. split; [done|]. apply find_map_some in Hcs as (i & Hil & Hf).
    destruct (find_edge _ _); [|done]. injection Hf as <-.
    rewrite Forall_forall in Hty. destruct (Hty i Hil) as [? _].
    destruct (Hall i Hil) as (e & _ & _ & _ & ? & ?). done.
  - exfalso. destruct l as [|i l].
    { by apply (no_initial_some _ _ (ao_node _ (wi_ast_ok s Hi) _ Hspec)). }
    unfold captured_seed in Hcs. rewrite find_map_none in Hcs.
    specialize (Hcs i ltac:(set_solver)). simpl in Hcs.
    destruct (Hall i ltac:(set_solver)) as (e & He & Hid & Hk & _).
    unfold find_edge in Hcs. rewrite <- Hid in Hcs.
    rewrite (find_edge_unique _ e (is_kind GraphInput)) in Hcs; [done| |done|].
    + by apply wi_ast_ok.
    + by apply is_kind_true.
Qed.

Lemma forward_base cursor s a spec n :
  wg_inv s -> (wg_through_cursor s < cursor)%N -> activation_admitted s a spec n ->
  edge_ids (act_inputs a) = initial_all (wan_join spec) ->
  Forall (input_available s) (act_inputs a) ->
  base cursor s (capture_seed (act_inputs a) s).
Proof.
  intros Hi Hcur Hadm Hids Hav.
  pose proof (capture_seed_fields (act_inputs a) s) as
    (Eg & Ea & Ed & Ep & Et & En & Eb & Ens & Eo).
  pose proof (fun y => wg_node_capture_seed (act_inputs a) s y) as Hl.
  destruct (find_spec_some _ _ _ (aa_spec _ _ _ _ Hadm)) as [Hspec Hname].
  split; try done.
  - by rewrite Ens.
  - rewrite Eb, Ea. apply Hi.
  - intros x m. rewrite Hl. intros Hm. eapply node_inv_le; [|by eapply wi_nodes]. lia.
  - intros x m i. rewrite Hl. intros Hm Hin.
    eapply input_typed_ast; [done|]. by eapply wi_inputs.
  - intros x m i e src. rewrite Hl, Ea. intros Hm Hin He Hid Hk Hf.
    destruct (wi_provenance s Hi x m i e src Hm Hin He Hid Hk Hf) as (q & Hq & ?).
    exists q. by rewrite Hl.
  - pose proof (wi_budget s Hi) as Hbud. unfold in_budget, waiting in *.
    by rewrite Ens, Eo, Eb.
  - rewrite Ea. eapply captured_seed_ok; try done.
    rewrite Hname. apply (aa_inputs _ _ _ _ Hadm).
  - apply not_true_iff_false. intros Ht.
    apply (terminals_completed_mono s) in Ht; [|done|].
    + rewrite unfinished_of_phase in Ht; [done|done|apply Hadm].
    + intros y. by rewrite !node_in_phase_true, Hl.
Qed.

Lemma reset_node_inv c n :
  (0 < c)%N -> node_inv c (reset_node c n).
Proof. intros Hc. split; simpl; [lia|done|done]. Qed.

(** A forward source of a node outside the reset set is outside it. *)
Lemma descendants_closed ast t e src :
  e ∈ ast_edges ast -> edge_kind e = Forward -> edge_from e = Some src ->
  src ∈ descendants ast t -> edge_to e ∈ descendants ast t.
Proof.
  intros He Hk Hf. rewrite !descendants_spec. intros Hr. eapply rtc_r; [exact Hr|].
  apply forward_targets_elem. eauto.
Qed.

Lemma edge_unique s e e' :
  wg_inv s -> e ∈ ast_edges (wg_ast s) -> e' ∈ ast_edges (wg_ast s) ->
  edge_id e = edge_id e' -> e = e'.
Proof.
  intros Hi He He' Hid.
  pose proof (find_edge_unique _ e (fun _ => true) (wi_ast_ok s Hi) He eq_refl) as H1.
  pose proof (find_edge_unique _ e' (fun _ => true) (wi_ast_ok s Hi) He' eq_refl) as H2.
  cbv beta in H1, H2. rewrite Hid in H1. congruence.
Qed.

Lemma wg_node_back_base s t cursor k y :
  wg_node (reset_descendants t cursor (with_back_edges k s)) y =
  (fun n => if bool_decide (y ∈ descendants (wg_ast s) t) then reset_node cursor n else n)
    <$> wg_node s y.
Proof. by rewrite wg_node_reset. Qed.

Lemma back_provenance s t cursor k :
  wg_inv s -> provenance (reset_descendants t cursor (with_back_edges k s)).
Proof.
  intros Hi x m i e src. rewrite wg_node_back_base. simpl.
  intros Hm Hin He Hid Hk Hf. apply fmap_Some in Hm as (m0 & Hm0 & ->).
  case_bool_decide as Hx; [by set_solver|].
  destruct (wi_provenance s Hi x m0 i e src Hm0 Hin He Hid Hk Hf) as (q & Hq & Hsup).
  exists q. rewrite wg_node_back_base, Hq. simpl. split; [|done].
  rewrite bool_decide_false; [done|]. intros Hsrc. apply Hx.
  destruct (wi_inputs s Hi x m0 i Hm0 Hin) as [_ (e' & He' & Hid' & Hto & _)].
  rewrite <- Hto, <- (edge_unique s e e'); [|done..|congruence].
  by eapply descendants_closed.
Qed.

Lemma back_base cursor s a spec n seed :
  wg_inv s -> (wg_through_cursor s < cursor)%N -> activation_admitted s a spec n ->
  wg_seed s = Some seed ->
  (wg_back_edge_activations s + 1 <= max_back_edge_activations (wg_ast s))%N ->
  base cursor s (reset_descendants (act_node a) cursor
    (with_back_edges (wg_back_edge_activations s + 1) s)).
Proof.
  intros Hi Hcur Hadm Hseed Hmax.
  pose proof (wg_node_back_base s (act_node a) cursor (wg_back_edge_activations s + 1)) as Hl.
  split; try done.
  - apply (reset_names (act_node a) cursor (with_back_edges _ s)).
  - intros x m. rewrite Hl. intros (m0 & Hm0 & ->)%fmap_Some.
    case_bool_decide; [apply reset_node_inv; lia|].
    eapply node_inv_le; [|by eapply wi_nodes]. lia.
  - intros x m i. rewrite Hl. intros (m0 & Hm0 & ->)%fmap_Some Hin.
    eapply (input_typed_ast s); [done|]. case_bool_decide; [by set_solver|].
    by eapply wi_inputs.
  - by apply back_provenance.
  - pose proof (wi_budget s Hi) as Hbud. unfold in_budget in *.
    pose proof (waiting_le (reset_descendants (act_node a) cursor
      (with_back_edges (wg_back_edge_activations s + 1) s))) as Hw.
    simpl in *. rewrite length_map in *.
    replace (N.to_nat (wg_back_edge_activations s + 1))
      with (S (N.to_nat (wg_back_edge_activations s))) by lia. lia.
  - exists seed. pose proof (wi_seed s Hi) as Hs. unfold seed_inv in Hs.
    rewrite Hseed in Hs. done.
  - apply not_true_iff_false. intros Ht.
    apply (terminals_completed_mono s) in Ht; [|done|].
    + rewrite unfinished_of_phase in Ht; [done|done|apply Hadm].
    + intros y. rewrite !node_in_phase_true, Hl. intros (m & (m0 & Hm0 & ->)%fmap_Some & Hp).
      case_bool_decide; [done|]. eauto.
Qed.

(** ** Completion and rejection: one node changes, the order does not *)

Lemma order_inv_same s s' :
  order_inv s -> wg_activation_order s' = wg_activation_order s ->
  (wg_through_cursor s <= wg_through_cursor s')%N ->
  (forall y, is_Some (wg_node s y) -> is_Some (wg_node s' y)) -> order_inv s'.
Proof.
  intros [Hc Hi] Ho Hle Hmono. split; intros *; rewrite Ho.
  - intros Hk. destruct (Hc _ _ Hk) as (? & ? & ? & ?). split_and!; [done|done|lia|lia|auto].
  - apply Hi.
Qed.

Lemma waiting_settle x f s n :
  wg_node s x = Some n -> wns_phase (f n) <> NWaiting -> waiting (update_node x f s) <= waiting s.
Proof.
  intros Hn Hp. pose proof (waiting_update x f s n Hn) as Hw.
  unfold is_waiting in Hw at 2. rewrite bool_decide_false in Hw by done. simpl in Hw. lia.
Qed.

(** The parts of the invariant a change of one node's projection keeps. *)
Lemma settled_inv cursor s s' x f n :
  wg_inv s -> (wg_through_cursor s < cursor)%N -> wg_node s x = Some n ->
  (forall m, wns_node (f m) = wns_node m) -> wns_inputs (f n) = wns_inputs n ->
  node_inv cursor (f n) -> wns_phase (f n) <> NWaiting ->
  wg_graph_id s' = wg_graph_id s -> wg_ast s' = wg_ast s ->
  wg_ast_digest s' = wg_ast_digest s -> wg_through_cursor s' = cursor ->
  wg_nodes s' = wg_nodes (update_node x f s) -> wg_seed s' = wg_seed s ->
  wg_next_activation_order s' = wg_next_activation_order s ->
  wg_back_edge_activations s' = wg_back_edge_activations s ->
  wg_activation_order s' = wg_activation_order s ->
  (wg_seed s = None -> wns_phase (f n) <> NActivated /\ wns_phase (f n) <> NCompleted) ->
  (forall src ev, supplied s src ev -> supplied s' src ev) ->
  phase_inv s' -> wg_inv s'.
Proof.
  intros Hi Hcur Hn Hname Hinp Hni Hp Eg Ea Ed Et En Es Enx Eb Eo Hnone Hsup Hph.
  assert (forall y, wg_node s' y = if decide (x = y) then f <$> wg_node s x else wg_node s y)
    as Hl.
  { intros y. unfold wg_node at 1. rewrite En. by apply wg_node_update. }
  assert (forall y m, wg_node s' y = Some m -> exists m0, wg_node s y = Some m0 /\
    wns_inputs m = wns_inputs m0) as Hinp'.
  { intros y m. rewrite Hl. destruct (decide _) as [<-|]; [|eauto].
    rewrite Hn. intros [= <-]. eauto. }
  split; rewrite ?Eg, ?Ea, ?Ed, ?Et, ?Es, ?Enx, ?Eb, ?Eo; try apply Hi; try done.
  - lia.
  - rewrite En, update_node_names by done. apply Hi.
  - pose proof (wi_seed s Hi) as Hs. unfold seed_inv in *. rewrite Es, Ea, Eo.
    destruct (wg_seed s); [done|]. destruct Hs as [? Hs]. split; [done|].
    intros y m. rewrite Hl. destruct (decide _) as [<-|]; [|apply Hs].
    rewrite Hn. intros [= <-]. auto.
  - intros y m. rewrite Hl. destruct (decide _) as [<-|].
    + rewrite Hn. by intros [= <-].
    + intros Hm. eapply node_inv_le; [|by eapply wi_nodes]. lia.
  - intros y m i Hm Hin. destruct (Hinp' _ _ Hm) as (m0 & Hm0 & E). rewrite E in Hin.
    eapply input_typed_ast; [done|]. by eapply wi_inputs.
  - intros y m i e src Hm Hin. rewrite Ea. intros He Hid Hk Hf. apply Hsup.
    destruct (Hinp' _ _ Hm) as (m0 & Hm0 & E). rewrite E in Hin.
    by eapply (wi_provenance s Hi).
  - apply (order_inv_same s); [apply Hi|done|lia|].
    intros y. rewrite Hl. destruct (decide _) as [<-|]; [by rewrite Hn|done].
  - pose proof (wi_budget s Hi) as Hbud. unfold in_budget in *. rewrite Eo, Eb.
    pose proof (waiting_settle x f s n Hn Hp) as Hw.
    replace (waiting s') with (waiting (update_node x f s)) by (unfold waiting; by rewrite En).
    replace (length (wg_nodes s')) with (length (wg_nodes s)); [lia|].
    rewrite En. symmetry. apply alter_first_length.
Qed.

Lemma completed_inv cursor s c n out :
  wg_inv s -> (wg_through_cursor s < cursor)%N ->
  com_outputs c = [out] -> evidence_validate out = Ok tt ->
  wg_node s (com_node c) = Some n -> wns_phase n = NActivated ->
  ev_parents out = input_artifacts n ->
  wg_inv (with_through_cursor cursor (completed_state cursor c s)).
Proof.
  intros Hi Hcur Hout Hv Hn Hp Hpar.
  set (s1 := update_node (com_node c) (completed_node cursor c) s).
  assert (forall y, wg_node s1 y = if decide (com_node c = y)
    then completed_node cursor c <$> wg_node s (com_node c) else wg_node s y) as Hl.
  { intros y. by apply wg_node_update. }
  pose proof (wi_nodes s Hi _ _ Hn) as [_ Hit Hsh]. unfold node_shape in Hsh.
  rewrite Hp in Hsh. destruct Hsh as [_ Hrj].
  assert (wg_phase s = GCompleted -> terminal_nodes_completed s1 = true) as Hkeep.
  { intros Hc. apply (proj1 (wi_phase s Hi)) in Hc. unfold terminal_nodes_completed in *.
    rewrite forallb_elem in *. intros t Ht. specialize (Hc t Ht).
    rewrite node_in_phase_true in *. rewrite Hl.
    destruct (decide (com_node c = wan_node t)); [|done]. rewrite Hn. simpl. eauto. }
  assert (phase_inv (with_through_cursor cursor (completed_state cursor c s))) as Hph.
  { unfold completed_state. fold s1. destruct (terminal_nodes_completed s1) eqn:Ht.
    - split; [|done]. by split; intros _.
    - split; simpl.
      + split; [intros Hc; by rewrite Hkeep in Ht|]. intros Ht'. exfalso.
        change (terminal_nodes_completed s1 = true) in Ht'. congruence.
      + intros Hr. destruct (proj2 (wi_phase s Hi) Hr) as (x & m & Hm & Hrej).
        exists x, m. split; [|done].
        change (wg_node s1 x = Some m). rewrite Hl.
        destruct (decide _) as [<-|]; [|done]. simplify_eq. rewrite Hrj in Hrej.
        by destruct Hrej. }
  unfold completed_state in *. fold s1 in Hph |- *.
  destruct (terminal_nodes_completed s1);
    (eapply (settled_inv cursor s _ (com_node c) (completed_node cursor c) n); try done;
     [ split; simpl; [lia|intros _; apply Hit; congruence|];
       unfold node_shape; simpl; rewrite Hout; eauto
     | intros Hs; pose proof (wi_seed s Hi) as Hs'; unfold seed_inv in Hs';
       rewrite Hs in Hs'; by destruct (proj2 Hs' _ _ Hn)
     | intros src ev; apply (supplied_update s _ (com_node c) (completed_node cursor c) n);
       [done|done|congruence|done] ]).
Qed.

Lemma rejected_supplies s s' r n cursor src ev :
  wg_inv s -> wg_node s (rej_node r) = Some n -> rejection_coordinates n r ->
  (forall y, wg_node s' y = if decide (rej_node r = y)
     then rejected_node cursor r <$> wg_node s (rej_node r) else wg_node s y) ->
  supplied s src ev -> supplied s' src ev.
Proof.
  intros Hi Hn Hco Hl (m & Hm & Hc).
  destruct (decide (rej_node r = src)) as [<-|Hne].
  2:{ exists m. rewrite Hl, decide_False by done. done. }
  rewrite Hn in Hm. injection Hm as <-. exists (rejected_node cursor r n).
  rewrite Hl, decide_True, Hn by done. split; [done|]. right. exists r. split; [done|].
  pose proof (ni_shape _ _ (wi_nodes s Hi _ _ Hn)) as Hsh. unfold node_shape in Hsh.
  assert (wns_phase n = NCompleted \/ wns_phase n = NRejected) as Hp.
  { destruct Hc as [[? _]|(r0 & Hr0 & _)]; [auto|].
    destruct (wns_phase n); [naive_solver..|auto]. }
  destruct Hco as [[Hp' _]|[_ Hcode]]; [by destruct Hp; congruence|].
  destruct (rej_code r); try done; destruct Hp; congruence.
Qed.

Lemma rejected_inv cursor s r n :
  wg_inv s -> (wg_through_cursor s < cursor)%N -> wg_phase s <> GCompleted ->
  wg_node s (rej_node r) = Some n -> rejection_coordinates n r ->
  wg_inv (with_through_cursor cursor (rejected_state cursor r s)).
Proof.
  intros Hi Hcur Hph Hn Hco.
  assert (forall y, wg_node (with_through_cursor cursor (rejected_state cursor r s)) y =
    if decide (rej_node r = y) then rejected_node cursor r <$> wg_node s (rej_node r)
    else wg_node s y) as Hl.
  { intros y. by apply wg_node_update. }
  destruct (wg_node_some _ _ _ Hn) as [_ Hname].
  pose proof (wi_nodes s Hi _ _ Hn) as [_ Hit _].
  eapply (settled_inv cursor s _ (rej_node r) (rejected_node cursor r) n); try done.
  - split; simpl; [lia| |unfold node_shape; simpl; split; [done|]; eauto].
    intros _. destruct Hco as [[Hp ->]|[[-> _] _]]; [|lia]. apply Hit. congruence.
  - intros src ev. by eapply rejected_supplies.
  - split; simpl.
    + split; [done|]. intros Ht. exfalso.
      apply (terminals_completed_mono s) in Ht; [by rewrite unfinished_of_phase in Ht|done|].
      intros y. rewrite !node_in_phase_true, Hl.
      destruct (decide _) as [<-|]; [|done]. rewrite Hn. simpl. intros (m & [= <-] & [=]).
    + intros _. exists (rej_node r). rewrite Hl, decide_True, Hn by done. simpl. eauto.
Qed.

(** ** Steps preserve the invariant *)

Lemma wg_step_inv cursor s ev s' : wg_inv s -> wg_step cursor s ev s' -> wg_inv s'.
Proof.
  intros Hi Hstep. destruct Hstep as [s a spec n Hcur Hadm Hc Hp Hids Hav
    |s a spec n i seed Hcur Hadm Hc Hseed Hit Hin Hid Hav Hmax|s c spec n out|s r spec n].
  - eapply (activated_inv cursor s _ a n); [done|done|by eapply forward_base|..].
    + rewrite wg_node_capture_seed. apply Hadm.
    + done.
    + apply Hadm.
    + rewrite (aa_iteration _ _ _ _ Hadm). lia.
    + apply Hadm.
    + intros i e src Hin He Hid Hk Hf. rewrite Forall_forall in Hav.
      destruct (Hav i Hin) as (e' & He' & Hid' & Hk').
      rewrite <- (edge_unique s e e'), Hk, Hf in Hk'; [|done..|congruence].
      destruct Hk' as (src' & m & [= <-] & Hm & Hcm & Hev).
      exists m. rewrite wg_node_capture_seed. naive_solver.
  - eapply (activated_inv cursor s _ a (reset_node cursor n));
      [done|done|by eapply back_base|..].
    + rewrite wg_node_back_base, (aa_node _ _ _ _ Hadm). simpl.
      rewrite bool_decide_true; [done|]. by apply descendants_spec.
    + done.
    + apply Hadm.
    + rewrite (aa_iteration _ _ _ _ Hadm). lia.
    + apply Hadm.
    + intros j e src. rewrite Hin. intros ->%list_elem_of_singleton He Hide Hk _. exfalso.
      destruct Hav as (e' & _ & _ & _ & He' & Hid' & Hk' & _).
      rewrite (edge_unique s e e') in Hk; [congruence|done..|congruence].
  - by eapply completed_inv.
  - by eapply rejected_inv.
Qed.

Lemma filter_waiting_initial cursor l :
  length (filterb is_waiting (map (initial_node_state cursor) l)) = length l.
Proof. induction l as [|x l IH]; simpl; [done|]. by rewrite IH. Qed.

Lemma wg_node_initial cursor l x n :
  find (fun m => bool_decide (wns_node m = x)) (map (initial_node_state cursor) l) = Some n ->
  exists w, n = initial_node_state cursor w.
Proof. intros [Hn _]%find_some_iff. rewrite list_elem_of_fmap in Hn. naive_solver. Qed.

Lemma from_started_inv cursor st s : from_started cursor st = Ok s -> wg_inv s.
Proof.
  unfold from_started. intros Hf. res_invert. simplify_eq. guards.
  destruct v0. rename Hstep0 into Hast.
  match goal with |- wg_inv ?x => set (s0 := x) end.
  assert (forall x n, wg_node s0 x = Some n -> exists w, n = initial_node_state cursor w) as Hl.
  { intros x n. apply wg_node_initial. }
  assert (terminal_nodes_completed s0 = false) as Hterm.
  { apply not_true_iff_false. unfold terminal_nodes_completed. rewrite forallb_elem.
    intros Ht. apply validate_ast_ok in Hast. destruct (terminals (st_ast st)) as [|t l] eqn:E;
      [by apply (ao_terminals _ Hast)|].
    specialize (Ht t). simpl in Ht. rewrite E in Ht. specialize (Ht ltac:(set_solver)).
    apply node_in_phase_true in Ht as (n & (w & ->)%Hl & [=]). }
  split; simpl; try done.
  - by destruct (st_graph_id st).
  - lia.
  - by rewrite map_map.
  - unfold seed_inv. simpl. destruct (st_seed st) as [sd|]; res_invert; guards.
    + destruct v0. split_and!; [by eapply checked_evidence_ok|done|done].
    + split; [done|]. by intros x n (w & ->)%Hl.
  - lia.
  - intros x n (w & ->)%Hl. split; simpl; [lia|done|done].
  - intros x n i (w & ->)%Hl. set_solver.
  - intros x n i e src (w & ->)%Hl. set_solver.
  - unfold in_budget, waiting. simpl. rewrite filter_waiting_initial, length_map. lia.
  - split; simpl; [|done]. by rewrite Hterm.
Qed.

(** ** Reachable states *)

Inductive wg_reachable : WorkflowGraphState -> Prop :=
| reach_start cursor started s : from_started cursor started = Ok s -> wg_reachable s
| reach_apply cursor event s s' :
    wg_reachable s -> wg_apply cursor event s = (Ok tt, s') -> wg_reachable s'.

Lemma wg_reachable_inv s : wg_reachable s -> wg_inv s.
Proof.
  induction 1 as [|cursor event s s' _ IH Hr]; [by eapply from_started_inv|].
  eapply wg_step_inv; [done|]. by eapply wg_apply_refines.
Qed.

(** The budget in absolute terms. *)
Lemma wg_inv_bound s :
  wg_inv s ->
  (N.of_nat (length (wg_activation_order s)) <=
   GRAPH_MAX_NODES * (GRAPH_MAX_CONDITIONAL_HOPS + 1))%N.
Proof.
  intros Hi. pose proof (wi_ast_ok s Hi) as [_ _ Hn [_ Hh] _ _ _].
  pose proof (wi_budget s Hi) as Hb. pose proof (wi_back s Hi) as Hk. unfold in_budget in Hb.
  assert (length (wg_nodes s) = length (ast_nodes (wg_ast s))) as Hlen.
  { by rewrite <- (length_map wns_node), (wi_names s Hi), length_map. }
  rewrite Hlen in Hb. unfold GRAPH_MAX_NODES, GRAPH_MAX_CONDITIONAL_HOPS in *. nia.
Qed.
End Invariant.
