(* ===== verification/Fixtures.v ===== *)
(** * A concrete workflow run

    One instance of the parameter [Blake3] (a checksum of the right shape) and
    one registered workflow, PLAN -> BUILD -> REVIEW with a back edge from
    REVIEW to BUILD, run through a rejection, a retry and completion.  The
    witnesses of the activation theorems evaluate the definitions here. *)

From S2P Require Import Prelude RustStr Digest GraphTypes TypeExpr Evidence Activation.

Local Open Scope string_scope.

Module Sample.
Definition hex_digit (n : N) : ascii :=
  ascii_of_N (if (n <? 10)%N then 48 + n else 87 + n).

Fixpoint hex_digits (k : nat) (n : N) : string :=
  match k with
  | 0 => ""
  | S k => String (hex_digit ((n / 16 ^ N.of_nat k) mod 16)) (hex_digits k n)
  end.

Fixpoint checksum (acc : N) (s : string) : N :=
  match s with
  | "" => acc
  | String c s => checksum ((acc * 257 + byte_val c + 1) mod 2 ^ 64) s
  end.

#[export] Instance sample_blake3 : Blake3 := fun bytes => hex_digits 64 (checksum 1 bytes).

Lemma hex_digit_lower (n : N) : is_lower_hex (hex_digit (n mod 16)) = true.
Proof.
  assert (Hlt : (n mod 16 < 16)%N) by (apply N.mod_lt; lia). revert Hlt.
  generalize (n mod 16)%N. intros m Hm. destruct m as [|m]; [done|].
  do 4 (destruct m as [m|m|]; [| |done]); lia || done.
Qed.

#[export] Instance sample_blake3_hex : Blake3Hex sample_blake3.
Proof.
  assert (Hk : forall k n, len (hex_digits k n) = N.of_nat k /\ all_bytes is_lower_hex (hex_digits k n) = true).
  { induction k as [|k IH]; intros n; [done|]. destruct (IH n) as [Hl Hd]. cbn [hex_digits len all_bytes].
    rewrite Hd, hex_digit_lower. split; [|done]. unfold len in *. cbn. lia. }
  split; intros bytes; apply (Hk 64).
Qed.

Definition artifact (label : string) : ArtifactRef := "blake3:" ++ sample_blake3 label.

Definition ast : WorkflowActivationAst :=
  mkActivationAst "wf" "blake3:d" "Task" "Report"
    [mkActivationNode "PLAN" "Task" "Plan" (mkJoin [1%N] []) false;
     mkActivationNode "BUILD" "Plan" "Patch" (mkJoin [2%N] [4%N]) false;
     mkActivationNode "REVIEW" "Patch" "Report" (mkJoin [3%N] []) true]
    [mkEdge 1 GraphInput None "PLAN" "Task";
     mkEdge 2 Forward (Some "PLAN") "BUILD" "Plan";
     mkEdge 3 Forward (Some "BUILD") "REVIEW" "Patch";
     mkEdge 4 Back (Some "REVIEW") "BUILD" "Plan"] 3.

Definition seed := evidence_new (artifact "task") "Task" 10 [].
Definition plan := evidence_new (artifact "plan") "Plan" 20 [ev_artifact seed].
Definition patch := evidence_new (artifact "patch") "Patch" 30 [ev_artifact plan].
Definition complaint := evidence_new (artifact "no") "Plan" 5 [ev_artifact patch].
Definition patch2 := evidence_new (artifact "patch2") "Patch" 31 [ev_artifact complaint].
Definition report := evidence_new (artifact "report") "Report" 40 [ev_artifact patch2].

Definition started : WorkflowGraphStarted :=
  mkStarted "g1" ast (workflow_activation_ast_digest ast) None.

Definition activate (node : string) (iteration order : N) (cause : WorkflowActivationCause)
    (inputs : list WorkflowNodeInput) : WorkflowGraphJournalEvent :=
  EvActivated (mkActivated "g1" node iteration order cause inputs
                 (workflow_input_ledger_digest inputs)).

Definition complete (node : string) (iteration : N) (out : InstructEvidenceRef)
    (stamp : option WorkflowConvergenceStamp) : WorkflowGraphJournalEvent :=
  EvCompleted (mkCompleted "g1" node iteration [out]
                 (workflow_evidence_ledger_digest [out]) stamp).

Definition events : list WorkflowGraphJournalEvent :=
  [activate "PLAN" 1 1 ForwardJoin [mkInput 1 seed];
   complete "PLAN" 1 plan None;
   activate "BUILD" 1 2 ForwardJoin [mkInput 2 plan];
   complete "BUILD" 1 patch None;
   activate "REVIEW" 1 3 ForwardJoin [mkInput 3 patch];
   EvRejected (mkRejected "g1" "REVIEW" 1 EvidenceRejected "tests fail" (Some complaint) true);
   activate "BUILD" 2 4 BackEdge [mkInput 4 complaint];
   complete "BUILD" 2 patch2 None;
   activate "REVIEW" 2 5 ForwardJoin [mkInput 3 patch2];
   complete "REVIEW" 2 report (Some (mkStamp (ev_ledger_digest report)))].

(** Folds the events at consecutive cursors. *)
Fixpoint play (cursor : N) (s : WorkflowGraphState) (l : list WorkflowGraphJournalEvent)
    : option WorkflowGraphState :=
  match l with
  | [] => Some s
  | event :: l =>
      match wg_apply cursor event s with
      | (Ok _, s') => play (cursor + 1) s' l
      | (Err _, _) => None
      end
  end.

Definition initial : WorkflowGraphState :=
  match from_started 1 started with
  | Ok s => s
  | Err _ => mkGraphState "" ast "" None GActive 0 0 0 [] []
  end.

(** The state after the first [k] events. *)
Definition after (k : nat) : WorkflowGraphState := default initial (play 2 initial (take k events)).

Example run_completes : wg_phase (after 10) = GCompleted.
Proof. vm_compute. reflexivity. Qed.

Example retry_active : wg_back_edge_activations (after 7) = 1%N /\ wg_phase (after 7) = GActive.
Proof. vm_compute. done. Qed.
End Sample.
