(* ===== verification/ActivationDigest.v ===== *)
(** * The activation AST digest binds the AST

    [workflow_activation_ast_digest] hashes the parts of [ast_parts], each
    length prefixed.  The parts of a validated AST determine it, so two
    different validated ASTs share a digest only when BLAKE3 collides. *)

From S2P Require Import Prelude RustStr Digest Worklist GraphTypes TypeExpr Evidence.
From S2P Require Import Activation ActivationGraph Fixtures.

Local Open Scope string_scope.

(** What the machine types of the fields guarantee: [u32] edge ids, strings
    whose length is a [usize]. *)
Record ast_sized (ast : WorkflowActivationAst) : Prop := {
  as_fits : Forall fits (ast_parts ast);
  as_edge_ids : Forall (fun e => edge_id e <= u32_max)%N (ast_edges ast)
}.

(** ** Decoding the parts *)

Lemma u32s_parts_inj l k r r' :
  (N.of_nat (length l) <= u64_max)%N -> (N.of_nat (length k) <= u64_max)%N ->
  Forall (fun n => n <= u32_max)%N l -> Forall (fun n => n <= u32_max)%N k ->
  (u32s_parts l ++ r)%list = (u32s_parts k ++ r')%list -> l = k /\ r = r'.
Proof.
  unfold u32s_parts. intros Hl Hk Hbl Hbk [Hn%u64_of_usize_inj E]%cons_eq_inj; [|done..].
  apply app_inj_counted in E as [E ->]; [|by rewrite !length_map].
  split; [by apply map_u32_be_inj|done].
Qed.

Lemma bool_tag_inj a b : bool_tag a = bool_tag b -> a = b.
Proof. by destruct a, b. Qed.

Lemma edge_kind_tag_inj a b : edge_kind_tag a = edge_kind_tag b -> a = b.
Proof. by destruct a, b. Qed.

(** The join of a node fits the counters. *)
Definition join_sized (n : WorkflowActivationNode) : Prop :=
  (N.of_nat (length (initial_all (wan_join n))) <= u64_max)%N /\
  (N.of_nat (length (reactivate_any (wan_join n))) <= u64_max)%N /\
  Forall (fun i => i <= u32_max)%N (initial_all (wan_join n)) /\
  Forall (fun i => i <= u32_max)%N (reactivate_any (wan_join n)).

Lemma node_parts_inj n n' r r' :
  join_sized n -> join_sized n' ->
  (node_parts n ++ r)%list = (node_parts n' ++ r')%list -> n = n' /\ r = r'.
Proof.
  intros (? & ? & ? & ?) (? & ? & ? & ?). destruct n as [x ti to [ji jr] g], n' as [x' ti' to' [ji' jr'] g'].
  unfold node_parts. cbn [wan_node wan_input_type wan_output_type wan_convergence_gate wan_join
    initial_all reactivate_any] in *. rewrite <- !(assoc_L (++)%list). cbn [app].
  intros [-> E]%cons_eq_inj. apply cons_eq_inj in E as [-> E]. apply cons_eq_inj in E as [-> E].
  apply cons_eq_inj in E as [->%bool_tag_inj E].
  apply u32s_parts_inj in E as [-> E]; [|done..]. apply u32s_parts_inj in E as [-> ->]; done.
Qed.

Lemma nodes_parts_inj l l' r r' :
  length l = length l' -> Forall join_sized l -> Forall join_sized l' ->
  (flat_map node_parts l ++ r)%list = (flat_map node_parts l' ++ r')%list -> l = l' /\ r = r'.
Proof.
  revert l' r r'. induction l as [|n l IH]; intros [|n' l'] r r' Hlen Hs Hs'; try done.
  cbn [flat_map]. rewrite <- !(assoc_L (++)%list).
  apply Forall_cons in Hs as [? ?], Hs' as [? ?].
  intros [-> E]%node_parts_inj; [|done..].
  apply IH in E as [-> ->]; [done|by injection Hlen|done..].
Qed.

(** The source of an edge is determined by its kind and its text. *)
Definition edge_sized (e : WorkflowActivationEdge) : Prop :=
  (edge_id e <= u32_max)%N /\ (edge_from e = None <-> edge_kind e = GraphInput).

Lemma edge_parts_inj e e' r r' :
  edge_sized e -> edge_sized e' ->
  (edge_parts e ++ r)%list = (edge_parts e' ++ r')%list -> e = e' /\ r = r'.
Proof.
  intros [Hi Hf] [Hi' Hf']. destruct e as [i k f t ty], e' as [i' k' f' t' ty'].
  unfold edge_parts. cbn [app edge_id edge_kind edge_from edge_to edge_evidence_type] in *.
  intros [->%u32_be_inj E]%cons_eq_inj; [|done..].
  apply cons_eq_inj in E as [->%edge_kind_tag_inj E]. apply cons_eq_inj in E as [Hfrom E].
  apply cons_eq_inj in E as [-> E]. apply cons_eq_inj in E as [-> ->]. split; [|done].
  destruct f, f'; simpl in *; naive_solver.
Qed.

Lemma edges_parts_inj l l' r r' :
  length l = length l' -> Forall edge_sized l -> Forall edge_sized l' ->
  (flat_map edge_parts l ++ r)%list = (flat_map edge_parts l' ++ r')%list -> l = l' /\ r = r'.
Proof.
  revert l' r r'. induction l as [|e l IH]; intros [|e' l'] r r' Hlen Hs Hs'; try done.
  cbn [flat_map]. rewrite <- !(assoc_L (++)%list).
  apply Forall_cons in Hs as [? ?], Hs' as [? ?].
  intros [-> E]%edge_parts_inj; [|done..].
  apply IH in E as [-> ->]; [done|by injection Hlen|done..].
Qed.

(** ** Validated ASTs *)

Lemma validated_edges_sized ast :
  validate_workflow_activation_ast ast = Ok tt -> ast_sized ast ->
  Forall edge_sized (ast_edges ast).
Proof.
  intros Hok%validate_ast_ok [_ Hid]. rewrite Forall_forall in *. intros e He. split; [auto|].
  pose proof (eo_source _ _ (ao_edge _ Hok e He)) as Hs. destruct (edge_kind e); naive_solver.
Qed.

Lemma validated_nodes_sized ast :
  validate_workflow_activation_ast ast = Ok tt -> ast_sized ast ->
  Forall join_sized (ast_nodes ast) /\ (N.of_nat (length (ast_edges ast)) <= u64_max)%N /\
  (N.of_nat (length (ast_nodes ast)) <= u64_max)%N /\
  (max_back_edge_activations ast <= u32_max)%N.
Proof.
  intros Hv [_ Hid]. pose proof (validate_ast_ok _ Hv) as Hok.
  pose proof (ao_node_bound _ Hok). pose proof (ao_hops _ Hok).
  unfold validate_workflow_activation_ast, ast_header_rejected in Hv. res_invert. guards.
  unfold GRAPH_MAX_NODES, GRAPH_MAX_EDGES, GRAPH_MAX_CONDITIONAL_HOPS, u64_max, u32_max in *.
  split_and!; [|lia..]. apply Forall_forall. intros n Hn.
  match goal with F : Forall (fun x => check_node _ x = _) _ |- _ =>
    rewrite Forall_forall in F; specialize (F n Hn); unfold check_node in F end.
  res_invert. guards.
  assert (forall p, (N.of_nat (length (map edge_id (filterb p (ast_edges ast)))) <= 4096)%N) as Hle.
  { intros p. rewrite length_map. pose proof (filter_length_le p (ast_edges ast)). lia. }
  assert (forall p, Forall (fun i => i <= u32_max)%N (map edge_id (filterb p (ast_edges ast)))) as Hb.
  { intros p. rewrite Forall_forall in Hid. apply Forall_forall.
    intros i (e & -> & He)%list_elem_of_fmap. apply filterb_elem in He as [He _]. by apply Hid. }
  unfold join_sized, u64_max.
  repeat match goal with E : _ (wan_join n) = map edge_id _ |- _ => rewrite E; clear E end.
  split_and!; [etrans; [apply Hle|done]|etrans; [apply Hle|done]|apply Hb|apply Hb].
Qed.

Lemma ast_parts_inj a b :
  validate_workflow_activation_ast a = Ok tt -> validate_workflow_activation_ast b = Ok tt ->
  ast_sized a -> ast_sized b -> ast_parts a = ast_parts b -> a = b.
Proof.
  intros Hva Hvb Hsa Hsb.
  destruct (validated_nodes_sized a Hva Hsa) as (Hja & Hea & Hna & Hma).
  destruct (validated_nodes_sized b Hvb Hsb) as (Hjb & Heb & Hnb & Hmb).
  pose proof (validated_edges_sized a Hva Hsa) as Hga.
  pose proof (validated_edges_sized b Hvb Hsb) as Hgb.
  destruct a as [w d ti to ns es m], b as [w' d' ti' to' ns' es' m']. unfold ast_parts.
  cbn [workflow_id workflow_digest ast_input_type ast_output_type ast_nodes ast_edges
    max_back_edge_activations app] in *.
  intros [-> E]%cons_eq_inj. apply cons_eq_inj in E as [-> E]. apply cons_eq_inj in E as [-> E].
  apply cons_eq_inj in E as [-> E]. apply cons_eq_inj in E as [Hn%u64_of_usize_inj E]; [|done..].
  apply nodes_parts_inj in E as [-> E]; [|done..].
  apply cons_eq_inj in E as [He%u64_of_usize_inj E]; [|done..].
  apply edges_parts_inj in E as [-> E]; [|done..].
  by apply cons_eq_inj in E as [->%u32_be_inj _].
Qed.

(** the digest recorded when a graph starts pins its AST: two validated
    ASTs with the same digest are equal, or they exhibit a BLAKE3 collision. *)
Theorem ast_digest_binds `{Blake3} a b :
  validate_workflow_activation_ast a = Ok tt -> validate_workflow_activation_ast b = Ok tt ->
  ast_sized a -> ast_sized b ->
  workflow_activation_ast_digest a = workflow_activation_ast_digest b ->
  a = b \/ exists x y, x <> y /\ blake3_hex x = blake3_hex y.
Proof.
  intros Hva Hvb Hsa Hsb [E|Hc]%blake3_digest_collision; [|by right|apply Hsa|apply Hsb].
  left. by apply ast_parts_inj.
Qed.

Import Sample.

Lemma ast_digest_binds_witness :
  ast = ast \/ exists x y, x <> y /\ blake3_hex x = blake3_hex y.
Proof.
  assert (ast_sized ast) as Hs.
  { split; [apply fits_all; vm_compute; reflexivity|by repeat constructor]. }
  by apply (ast_digest_binds ast ast); [vm_compute; reflexivity|vm_compute; reflexivity|..].
Defined.

(** ** Evidence ledger rows *)

Lemma valid_artifact_ref_fits a : valid_artifact_ref a = true -> fits a.
Proof.
  unfold valid_artifact_ref, fits. destruct (strip_prefix _ a) as [d|] eqn:E; [|done].
  apply strip_prefix_some in E as ->. unfold len. rewrite str_length_app.
  intros Hd. guards. unfold len in *. simpl. unfold u64_max. lia.
Qed.

Lemma valid_type_expr_fits t : valid_type_expr t = true -> fits t.
Proof. unfold valid_type_expr, fits, u64_max. intros Ht. guards. lia. Qed.

Lemma evidence_parts_fit a t b ps :
  evidence_fields_ok a t b ps -> Forall fits (evidence_ledger_parts a t b ps).
Proof.
  intros (Ht & _ & _ & Ha & Hps). unfold evidence_ledger_parts.
  assert (forall n, fits (u64_be n)) as Hn.
  { intros n. unfold fits, len, u64_be. by rewrite be_bytes_length. }
  apply Forall_cons_2; [by apply valid_artifact_ref_fits|].
  apply Forall_cons_2; [by apply valid_type_expr_fits|].
  apply Forall_cons_2; [apply Hn|]. apply Forall_cons_2; [apply Hn|].
  eapply Forall_impl; [done|]. intros p. apply valid_artifact_ref_fits.
Qed.

(** a ledger digest pins its evidence row: two rows that validate and
    carry the same digest are equal in every field, or BLAKE3 collides. *)
Theorem evidence_digest_binds `{Blake3} e e' :
  evidence_validate e = Ok tt -> evidence_validate e' = Ok tt ->
  ev_ledger_digest e = ev_ledger_digest e' ->
  e = e' \/ exists x y, x <> y /\ blake3_hex x = blake3_hex y.
Proof.
  intros [Hf He]%evidence_validate_iff [Hf' He']%evidence_validate_iff Hd.
  rewrite He, He' in Hd. unfold evidence_new in Hd. cbn [ev_ledger_digest] in Hd.
  apply blake3_digest_collision in Hd as [E|Hc];
    [left|by right|by apply evidence_parts_fit|by apply evidence_parts_fit].
  destruct Hf as (_ & [_ Hb] & Hp & _), Hf' as (_ & [_ Hb'] & Hp' & _).
  unfold INSTRUCT_EVIDENCE_MAX_BYTES, INSTRUCT_EVIDENCE_MAX_PARENTS in *.
  apply evidence_ledger_parts_inj in E as (Ea & Et & El & Ep); [|unfold u64_max; lia..].
  rewrite He, He', Ea, Et, El, Ep. done.
Qed.

Lemma evidence_digest_binds_witness :
  plan = plan \/ exists x y, x <> y /\ blake3_hex x = blake3_hex y.
Proof. apply (evidence_digest_binds plan plan); [vm_compute; reflexivity..|reflexivity]. Defined.
