(* ===== verification/ActivationProps.v ===== *)
(** * Correctness of the activation engine

    What the journal replay of one workflow instance guarantees, proved from
    the invariant of ActivationInv.v and the transition system of
    ActivationStep.v. *)

From S2P Require Import Prelude RustStr Digest Worklist GraphTypes TypeExpr Evidence.
From S2P Require Import Activation ActivationGraph ActivationStep ActivationInv Fixtures.

Local Open Scope string_scope.

(** ** Supporting lemmas *)

Section Support.
Context `{Blake3}.
Implicit Types (s : WorkflowGraphState) (n : WorkflowNodeState).

Lemma next_of_count_small k :
  (N.of_nat k < u64_max)%N -> next_of_count k = Some (N.of_nat (S k)).
Proof.
  intros Hk. unfold next_of_count, checked_add_u64.
  rewrite (proj2 (N.leb_le _ _)) by lia. rewrite (proj2 (N.leb_le _ _)) by lia. f_equal. lia.
Qed.

Lemma activations_small s : wg_inv s ->
  (N.of_nat (length (wg_activation_order s)) < u64_max)%N.
Proof.
  intros Hb%wg_inv_bound. unfold GRAPH_MAX_NODES, GRAPH_MAX_CONDITIONAL_HOPS, u64_max in *. lia.
Qed.

Lemma next_order_small s : wg_inv s -> (wg_next_activation_order s + 1 <= u64_max)%N.
Proof.
  intros Hi. rewrite (wi_next s Hi). pose proof (wg_inv_bound s Hi) as Hb.
  unfold GRAPH_MAX_NODES, GRAPH_MAX_CONDITIONAL_HOPS, u64_max in *. lia.
Qed.

(** *** The projection checks *)

Lemma check_coordinates_ok s l k prev :
  wg_inv s -> drop k (wg_activation_order s) = l ->
  (forall c, wg_activation_order s !! k = Some c -> (prev < co_cursor c)%N) ->
  check_coordinates s k prev l = Ok tt.
Proof.
  intros Hi. pose proof (wi_order s Hi) as [Hc Hlt]. pose proof (activations_small s Hi) as Hsm.
  revert k prev. induction l as [|c l IH]; intros k prev Hd Hprev; simpl; [done|].
  assert (wg_activation_order s !! k = Some c) as Hk.
  { rewrite <- (Nat.add_0_r k), <- lookup_drop, Hd. done. }
  destruct (Hc k c Hk) as (Ho & Hit & Hcur & Hn). pose proof (Hprev c Hk) as Hp.
  apply lookup_lt_Some in Hk as Hlen.
  assert ((co_iteration c =? 0)%N = false) as -> by (apply N.eqb_neq; lia).
  assert ((co_cursor c <=? prev)%N = false) as -> by (apply N.leb_gt; lia).
  assert ((wg_through_cursor s <? co_cursor c)%N = false) as -> by (apply N.ltb_ge; lia).
  rewrite (bool_decide_true _ Hn), next_of_count_small, <- Ho by lia.
  rewrite (proj2 (opt_eqb_true _ _) eq_refl). simpl. apply IH.
  - replace (S k) with (k + 1) by lia. rewrite <- drop_drop, Hd. done.
  - intros d Hd'. eapply Hlt; [|done..]. lia.
Qed.

Lemma zip_same_names s n w :
  wg_inv s -> (n, w) ∈ zip (wg_nodes s) (ast_nodes (wg_ast s)) -> wns_node n = wan_node w.
Proof.
  intros Hi [k Hk]%list_elem_of_lookup. apply lookup_zip_with_Some in Hk as (n' & w' & E & Hn & Hw).
  injection E as -> ->. pose proof (f_equal (.!! k) (wi_names s Hi)) as E.
  rewrite !list_lookup_fmap, Hn, Hw in E. by injection E.
Qed.

Lemma projected_node_accepted s n w :
  wg_inv s -> (n, w) ∈ zip (wg_nodes s) (ast_nodes (wg_ast s)) ->
  projected_node_rejected s n w = false.
Proof.
  intros Hi Hz. pose proof (zip_same_names s n w Hi Hz) as Hnm.
  apply elem_of_zip_l in Hz as Hel. apply (wg_node_of_elem s n (wi_names_nodup s Hi)) in Hel.
  destruct (wi_nodes s Hi _ _ Hel) as [Hc Hit _]. unfold projected_node_rejected. guards.
  split_and!; [done|lia|lia|]. destruct (decide (wns_phase n = NWaiting)); [by left|].
  right. specialize (Hit ltac:(done)). lia.
Qed.

Lemma projection_header_accepted s : wg_inv s -> projection_header_rejected s = false.
Proof.
  intros Hi. pose proof (wi_through s Hi). pose proof (wi_back s Hi).
  unfold projection_header_rejected.
  rewrite (next_of_count_small _ (activations_small s Hi)), <- (wi_next s Hi).
  rewrite (proj2 (opt_eqb_true _ _) eq_refl). guards. split_and!; try done.
  - destruct (wg_graph_id s) eqn:E; [by destruct (wi_graph_id s Hi)|done].
  - lia.
  - apply Hi.
  - pose proof (wi_seed s Hi) as Hs. unfold seed_inv in Hs.
    destruct (wg_seed s); [by guards|]. destruct Hs as [Ho Hs]. rewrite Ho.
    rewrite bool_decide_true by done. simpl.
    apply existsb_false. intros n Hn. apply (wg_node_of_elem s n (wi_names_nodup s Hi)) in Hn.
    apply Hs in Hn as [? ?]. by destruct (wns_phase n).
  - by rewrite <- (length_map wns_node), (wi_names s Hi), length_map.
  - intros [n w] Hz. by apply projected_node_accepted.
Qed.

Lemma wg_inv_projection s : wg_inv s -> validate_projection s = Ok tt.
Proof.
  intros Hi. unfold validate_projection. rewrite (wi_ast s Hi). simpl.
  assert (match wg_seed s with
          | Some seed => checked_evidence "workflow graph seed" seed
          | None => Ok tt end = Ok tt) as ->.
  { pose proof (wi_seed s Hi) as Hs. unfold seed_inv in Hs. destruct (wg_seed s); [|done].
    apply checked_evidence_ok. by destruct Hs. }
  simpl. rewrite projection_header_accepted by done. simpl.
  rewrite (check_coordinates_ok s (wg_activation_order s)); [|done|done|].
  2:{ intros c Hc. apply (oi_coordinate s (wi_order s Hi)) in Hc. lia. }
  simpl. destruct (wi_phase s Hi) as [Hcomp Hrej]. destruct (wg_phase s) eqn:Hp.
  - apply reject_if_ok. apply not_true_iff_false. by rewrite <- Hcomp.
  - by rewrite (proj1 Hcomp).
  - destruct Hrej as (x & n & Hn & Hr); [done|]. apply reject_if_ok. guards.
    apply existsb_elem. exists n. split; [by apply wg_node_some in Hn as [? _]|by guards].
Qed.

(** *** Failing calls *)

Lemma commit_runs cursor a s n :
  wg_inv s -> forall s1, wg_node s1 (act_node a) = Some n -> wns_phase n = NWaiting ->
  wg_next_activation_order s1 = wg_next_activation_order s ->
  exists s2, commit_activation cursor a (capture_seed (act_inputs a) s1) = (Ok tt, s2).
Proof.
  intros Hi s1 Hn Hp Hno. eexists. apply commit_activation_ok. split_and!; [| |done].
  - rewrite wg_node_capture_seed. eauto.
  - pose proof (capture_seed_fields (act_inputs a) s1) as (_ & _ & _ & _ & _ & -> & _).
    rewrite Hno. by apply next_order_small.
Qed.

Lemma reactivate_atomic cursor spec a s : st_atomic (reactivate cursor spec a) s.
Proof. unfold reactivate. st_atomic_guards. by eapply st_atomic_ok. Qed.

Lemma apply_activation_atomic cursor a s : wg_inv s -> st_atomic (apply_activation cursor a) s.
Proof.
  intros Hi. unfold apply_activation. st_atomic_guards. res_invert.
  match goal with E : _ <$> wg_node _ _ = Some _ |- _ =>
    apply fmap_Some in E as (n & Hn & ->) end.
  apply st_atomic_then; [destruct (act_cause a); auto using reactivate_atomic with atomic|].
  intros u s1 Hs1. assert (exists n1, wg_node s1 (act_node a) = Some n1 /\
    wns_phase n1 = NWaiting /\ wg_next_activation_order s1 = wg_next_activation_order s)
    as (n1 & Hn1 & Hp1 & Hno).
  { destruct (act_cause a).
    - st_invert. unfold check_forward_join in *. res_invert. guards.
      match goal with E : node_in_phase _ _ _ = true |- _ =>
        apply node_in_phase_true in E as (n1 & ? & ?) end. eauto.
    - destruct u. apply reactivate_ok in Hs1 as (_ & _ & ->). exists (reset_node cursor n).
      split_and!; [|done|done]. rewrite wg_node_back_base, Hn. simpl.
      rewrite bool_decide_true; [done|]. by apply descendants_spec. }
  destruct (commit_runs cursor a s n1 Hi s1) as [s2 Hs2]; [done..|]. exists tt, s2.
  by rewrite st_run_modify.
Qed.

Lemma apply_completion_atomic cursor c s : st_atomic (apply_completion cursor c) s.
Proof. unfold apply_completion. st_atomic_guards. by eapply st_atomic_ok. Qed.

Lemma apply_rejection_atomic cursor r s : st_atomic (apply_rejection cursor r) s.
Proof. unfold apply_rejection. st_atomic_guards. by eapply st_atomic_ok. Qed.

Lemma wg_apply_err_atomic cursor ev s : wg_inv s -> st_atomic (wg_apply cursor ev) s.
Proof.
  intros Hi. unfold wg_apply. st_atomic_guards.
  apply st_atomic_then; [|intros; by eexists _, _].
  destruct ev; auto using apply_activation_atomic, apply_completion_atomic,
    apply_rejection_atomic with atomic.
Qed.
(** *** Joins *)

Lemma joined_forward_edge s a spec n e :
  wg_inv s -> activation_admitted s a spec n ->
  edge_ids (act_inputs a) = initial_all (wan_join spec) ->
  Forall (input_available s) (act_inputs a) ->
  e ∈ ast_edges (wg_ast s) -> edge_to e = act_node a -> edge_kind e = Forward ->
  exists src m i, edge_from e = Some src /\ wg_node s src = Some m /\
    wns_phase m = NCompleted /\ i ∈ act_inputs a /\ in_edge_id i = edge_id e /\
    in_evidence i ∈ wns_outputs m /\ ev_type (in_evidence i) = edge_evidence_type e.
Proof.
  intros Hi Hadm Hids Hav He Ht Hk.
  pose proof (wi_ast_ok s Hi) as Hok.
  destruct (find_spec_some _ _ _ (aa_spec _ _ _ _ Hadm)) as [Hspec Hname].
  assert (edge_id e ∈ edge_ids (act_inputs a)) as Hin.
  { rewrite Hids. apply (no_initial _ _ (ao_node _ Hok _ Hspec)). exists e. rewrite Hname, Hk.
    split_and!; done. }
  apply list_elem_of_fmap in Hin as (i & Hid & Hin).
  rewrite Forall_forall in Hav. destruct (Hav i Hin) as (e1 & He1 & Hid1 & Hx).
  pose proof (aa_inputs _ _ _ _ Hadm) as Hty. rewrite Forall_forall in Hty.
  destruct (Hty i Hin) as [_ (e2 & He2 & Hid2 & _ & Hty2)].
  rewrite <- (edge_unique s e e1), Hk in Hx by (done || congruence).
  rewrite <- (edge_unique s e e2) in Hty2 by (done || congruence).
  destruct Hx as (src & m & ? & ? & ? & ?). exists src, m, i. by split_and!.
Qed.

(** *** Terminal rejections *)

Lemma find_map_alter_first {A B} (f : A -> option B) (p : A -> bool) (g : A -> A) l b :
  (forall a, f (g a) = Some b) -> find_map f l = Some b ->
  find_map f (alter_first p g l) = Some b.
Proof.
  intros Hg. induction l as [|a l IH]; simpl; [done|]. destruct (p a); simpl; [by rewrite Hg|].
  destruct (f a); [done|apply IH].
Qed.

Lemma rejected_state_code cursor r s code :
  terminal_rejection_code s = Some code -> rej_code r = code ->
  terminal_rejection_code (rejected_state cursor r s) = Some code.
Proof.
  intros Hc Hr. apply find_map_alter_first; [|done]. intros n. simpl. rewrite Hr.
  apply find_map_some in Hc as (m & _ & Hm). destruct (wns_rejection m) as [r'|]; [|done].
  destruct (is_terminal_code (rej_code r')) eqn:E; [|done]. injection Hm as <-. by rewrite E.
Qed.

End Support.

(** ** Reachable states of the sample run *)

Section SampleRun.
Import Sample.

Lemma play_reachable l cursor s s' : wg_reachable s -> play cursor s l = Some s' -> wg_reachable s'.
Proof.
  revert cursor s. induction l as [|ev l IH]; intros cursor s Hs; simpl; [congruence|].
  destruct (wg_apply cursor ev s) as [[[]|] s1] eqn:E; [|done]. apply IH.
  by eapply reach_apply.
Qed.

Lemma initial_reachable : wg_reachable initial.
Proof. apply (reach_start 1 started). vm_compute. reflexivity. Qed.

Lemma after_reachable k : wg_reachable (after k).
Proof.
  unfold after. destruct (play 2 initial (take k events)) as [s|] eqn:E; simpl.
  - eapply play_reachable; [apply initial_reachable|done].
  - apply initial_reachable.
Qed.
End SampleRun.

(** ** Properties *)

Section Properties.
Context `{Blake3}.
Implicit Types (s : WorkflowGraphState) (n : WorkflowNodeState).

(** C1: every state the engine can reach, from a started graph by accepted
    journal facts, passes [validate_projection], the trust boundary clients
    check a received projection with. *)
Theorem reachable_projection_valid s : wg_reachable s -> validate_projection s = Ok tt.
Proof. intros Hr. by apply wg_inv_projection, wg_reachable_inv. Qed.

(** C2: on reachable states [apply] succeeds exactly on the steps of the
    specification [wg_step] and computes their target state. *)
Theorem wg_apply_iff_step cursor ev s s' :
  wg_reachable s -> wg_apply cursor ev s = (Ok tt, s') <-> wg_step cursor s ev s'.
Proof.
  intros Hi%wg_reachable_inv. split; [apply wg_apply_refines|].
  by apply wg_apply_complete, wi_ast_ok.
Qed.

(** C32: a rejected journal fact changes nothing, although a back edge resets
    nodes before its last check: on reachable states that check never fails. *)
Theorem wg_apply_atomic cursor ev s e s' :
  wg_reachable s -> wg_apply cursor ev s = (Err e, s') -> s' = s.
Proof. intros Hi%wg_reachable_inv. by apply wg_apply_err_atomic. Qed.

(** C28: the total order of activations is bounded by the static bounds of the
    AST: at most 512 nodes, each activated at most once per back hop and once
    more, so the [u64] order and the [u32] hop counter never overflow. *)
Theorem activations_bounded s :
  wg_reachable s ->
  wg_next_activation_order s = N.of_nat (S (length (wg_activation_order s))) /\
  (wg_next_activation_order s <= GRAPH_MAX_NODES * (GRAPH_MAX_CONDITIONAL_HOPS + 1) + 1)%N /\
  (wg_back_edge_activations s <= GRAPH_MAX_CONDITIONAL_HOPS)%N.
Proof.
  intros Hi%wg_reachable_inv. pose proof (wg_inv_bound s Hi). pose proof (wi_next s Hi) as E.
  pose proof (wi_back s Hi). pose proof (ao_hops _ (wi_ast_ok s Hi)). split_and!; [done|lia|lia].
Qed.

(** a forward join never fires early: the activation names, for every
    forward edge into the node, an output of the edge's completed source, of
    the edge's type. *)
Theorem forward_join_safe cursor a s s' e :
  wg_reachable s -> wg_apply cursor (EvActivated a) s = (Ok tt, s') ->
  act_cause a = ForwardJoin ->
  e ∈ ast_edges (wg_ast s) -> edge_to e = act_node a -> edge_kind e = Forward ->
  exists src m i, edge_from e = Some src /\ wg_node s src = Some m /\
    wns_phase m = NCompleted /\ i ∈ act_inputs a /\ in_edge_id i = edge_id e /\
    in_evidence i ∈ wns_outputs m /\ ev_type (in_evidence i) = edge_evidence_type e.
Proof.
  intros Hi%wg_reachable_inv Hr%wg_apply_refines Hc He Ht Hk.
  inversion Hr as [s0 a0 spec n _ Hadm _ Hp Hids Hav| | |]; subst; [|congruence].
  by eapply joined_forward_edge.
Qed.

(** evidence lineage is never dangling: what a node was activated with
    on a forward edge is still an output of that edge's completed source,
    unless the hop guard has since rejected that source. *)
Theorem reachable_provenance s x n i e src :
  wg_reachable s -> wg_node s x = Some n -> i ∈ wns_inputs n ->
  e ∈ ast_edges (wg_ast s) -> edge_id e = in_edge_id i -> edge_kind e = Forward ->
  edge_from e = Some src -> supplied s src (in_evidence i).
Proof. intros Hi%wg_reachable_inv. by apply (wi_provenance s Hi). Qed.
(** a graph abandoned or superseded is sealed: afterwards only rejections
    with the same code are accepted, and the seal and the phase stay. *)
Theorem terminal_rejection_seals cursor ev s s' code :
  terminal_rejection_code s = Some code -> wg_apply cursor ev s = (Ok tt, s') ->
  (exists r, ev = EvRejected r /\ rej_code r = code) /\
  terminal_rejection_code s' = Some code /\ wg_phase s' = GRejected.
Proof.
  intros Hc Hr%wg_apply_refines. inversion Hr as [? ? ? ? _ Hadm|? ? ? ? ? ? _ Hadm| |]; subst.
  1,2: pose proof (aa_sealed _ _ _ _ Hadm); congruence.
  - congruence.
  - match goal with E : _ \/ terminal_rejection_code s = Some _ |- _ => destruct E end; [congruence|].
    split_and!; [|by apply rejected_state_code; congruence|done].
    eexists. split; [done|congruence].
Qed.

(** C29: a back edge restarts exactly the forward descendants of its target:
    the target is active again with the rejected evidence, every other
    descendant waits with its iteration kept, no other node is touched, and
    one hop of the budget is spent. *)
Theorem back_edge_restarts cursor a s s' :
  wg_apply cursor (EvActivated a) s = (Ok tt, s') -> act_cause a = BackEdge ->
  (exists n, wg_node s' (act_node a) = Some n /\ wns_phase n = NActivated /\
     wns_inputs n = act_inputs a /\ wns_iteration n = act_iteration a) /\
  (forall y n, y <> act_node a -> forward_reach (wg_ast s) (act_node a) y ->
     wg_node s y = Some n -> wg_node s' y = Some (reset_node cursor n)) /\
  (forall y, ~ forward_reach (wg_ast s) (act_node a) y -> wg_node s' y = wg_node s y) /\
  wg_back_edge_activations s' = (wg_back_edge_activations s + 1)%N /\
  (wg_back_edge_activations s' <= max_back_edge_activations (wg_ast s))%N.
Proof.
  intros Hr%wg_apply_refines Hc.
  inversion Hr as [|s0 a0 spec n i seed _ Hadm _ _ _ _ _ _ Hmax| |]; subst; [congruence|].
  set (b := reset_descendants _ _ _).
  assert (forall y, wg_node (with_through_cursor cursor (activated_state cursor a b)) y =
    if decide (act_node a = y) then activated_node cursor a <$> wg_node b (act_node a)
    else wg_node b y) as Hl by (intros y; by apply wg_node_activated).
  assert (forall y, wg_node b y = (fun n => if bool_decide (y ∈ descendants (wg_ast s) (act_node a))
    then reset_node cursor n else n) <$> wg_node s y) as Hb by (intros y; apply wg_node_back_base).
  split_and!; [| | |done|done].
  - eexists. rewrite Hl, decide_True, Hb, (aa_node _ _ _ _ Hadm) by done. by simpl.
  - intros y m Hy Hf Hm. rewrite Hl, decide_False, Hb, Hm by done. simpl.
    by rewrite bool_decide_true by (by apply descendants_spec).
  - intros y Hy. rewrite Hl, decide_False, Hb.
    + destruct (wg_node s y); simpl; [|done].
      by rewrite bool_decide_false by (by rewrite descendants_spec).
    + intros <-. by apply Hy.
Qed.

End Properties.

(** ** Witnesses, on the sample run *)

Section Witnesses.
Import Sample.

Lemma reachable_projection_valid_witness :
  wg_reachable (after 7) /\ validate_projection (after 7) = Ok tt.
Proof.
  split; [apply after_reachable|]. apply (reachable_projection_valid (after 7)), after_reachable.
Defined.

(** The event after the first [k] ones, at its cursor. *)
Definition event_at (k : nat) : WorkflowGraphJournalEvent := default (EvStarted started) (events !! k).

Lemma wg_apply_iff_step_witness :
  wg_step 8 (after 6) (event_at 6) (after 7).
Proof.
  apply (wg_apply_iff_step 8 (event_at 6) (after 6) (after 7) (after_reachable 6)).
  vm_compute. reflexivity.
Defined.

Lemma wg_apply_atomic_witness :
  wg_apply 9 (EvStarted started) (after 7)
    = (Err (InvalidEvent "workflow graph was started more than once"), after 7) /\
  after 7 = after 7.
Proof.
  assert (wg_apply 9 (EvStarted started) (after 7)
    = (Err (InvalidEvent "workflow graph was started more than once"), after 7)) as E
    by (vm_compute; reflexivity).
  split; [exact E|]. exact (wg_apply_atomic 9 _ _ _ _ (after_reachable 7) E).
Defined.

Lemma activations_bounded_witness :
  wg_next_activation_order (after 10) = 6%N /\
  (wg_next_activation_order (after 10)
     <= GRAPH_MAX_NODES * (GRAPH_MAX_CONDITIONAL_HOPS + 1) + 1)%N.
Proof.
  split; [vm_compute; reflexivity|].
  exact (proj1 (proj2 (activations_bounded (after 10) (after_reachable 10)))).
Defined.

(** The activation of REVIEW, joined on the forward edge from BUILD. *)
Definition review : WorkflowNodeActivated :=
  mkActivated "g1" "REVIEW" 1 3 ForwardJoin [mkInput 3 patch]
    (workflow_input_ledger_digest [mkInput 3 patch]).

Lemma forward_join_safe_witness :
  exists src m i, Some "BUILD" = Some src /\ wg_node (after 4) src = Some m /\
    wns_phase m = NCompleted /\ i ∈ act_inputs review /\ in_edge_id i = 3%N /\
    in_evidence i ∈ wns_outputs m /\ ev_type (in_evidence i) = "Patch".
Proof.
  apply (forward_join_safe 6 review (after 4) (after 5)
           (mkEdge 3 Forward (Some "BUILD") "REVIEW" "Patch") (after_reachable 4));
    [vm_compute; reflexivity|reflexivity| |reflexivity|reflexivity].
  apply list_elem_of_In. vm_compute. auto.
Defined.

Definition node_of (s : WorkflowGraphState) (x : string) : WorkflowNodeState :=
  default (mkNodeState x NWaiting 0 None [] [] None None 0) (wg_node s x).

Lemma reachable_provenance_witness : supplied (after 5) "BUILD" patch.
Proof.
  apply (reachable_provenance (after 5) "REVIEW" (node_of (after 5) "REVIEW") (mkInput 3 patch)
           (mkEdge 3 Forward (Some "BUILD") "REVIEW" "Patch") "BUILD" (after_reachable 5));
    [vm_compute; reflexivity| | |reflexivity|reflexivity|reflexivity];
    apply list_elem_of_In; vm_compute; auto.
Defined.

Definition abandon (node : string) (iteration : N) (gate : bool) : WorkflowGraphJournalEvent :=
  EvRejected (mkRejected "g1" node iteration Abandoned "cancelled" None gate).

Definition abandoned : WorkflowGraphState := (wg_apply 5 (abandon "BUILD" 1 false) (after 3)).2.
Definition abandoned_twice : WorkflowGraphState := (wg_apply 6 (abandon "REVIEW" 1 true) abandoned).2.

Lemma terminal_rejection_seals_witness :
  wg_phase abandoned_twice = GRejected /\ terminal_rejection_code abandoned_twice = Some Abandoned.
Proof.
  destruct (terminal_rejection_seals 6 (abandon "REVIEW" 1 true) abandoned abandoned_twice Abandoned)
    as (_ & Hc & Hp); [vm_compute; reflexivity..|]. exact (conj Hp Hc).
Defined.

Lemma back_edge_restarts_witness :
  wg_back_edge_activations (after 7) = (wg_back_edge_activations (after 6) + 1)%N.
Proof.
  pose (a := mkActivated "g1" "BUILD" 2 4 BackEdge [mkInput 4 complaint]
    (workflow_input_ledger_digest [mkInput 4 complaint])).
  destruct (back_edge_restarts 8 a (after 6) (after 7)) as (_ & _ & _ & E & _);
    [vm_compute; reflexivity|reflexivity|exact E].
Defined.
End Witnesses.
