(* ===== verification/ActivationFinal.v ===== *)
(** * Completion is final

    A node that was opened since its last reset has only settled forward
    predecessors.  When every terminal completed, following that backwards
    settles the whole graph, so a completed graph accepts no further fact. *)

From S2P Require Import Prelude RustStr Digest Worklist GraphTypes TypeExpr Evidence.
From S2P Require Import Activation ActivationGraph ActivationStep ActivationInv Fixtures.
From S2P Require Import ActivationProps.

Local Open Scope string_scope.

Section Final.
Context `{Blake3}.
Implicit Types (s : WorkflowGraphState) (n : WorkflowNodeState).

(** Opened since the last reset. *)
Definition opened n : Prop := is_Some (wns_activation_order n).

(** Opened, and completed or stopped by the hop guard. *)
Definition settled n : Prop :=
  opened n /\ (wns_phase n = NCompleted \/
    exists r, wns_rejection n = Some r /\ rej_code r = IterationGuard).

Definition forward_edge (ast : WorkflowActivationAst) (x y : GraphNodeName) : Prop :=
  y ∈ forward_targets ast x.

Record causal s : Prop := {
  ca_open : forall x n, wg_node s x = Some n ->
    wns_phase n = NActivated \/ wns_phase n = NCompleted -> opened n;
  ca_rejected : forall x n r, wg_node s x = Some n -> wns_rejection n = Some r ->
    rej_code r = EvidenceRejected -> opened n;
  ca_preds : forall x y m n, forward_edge (wg_ast s) x y ->
    wg_node s x = Some m -> wg_node s y = Some n -> opened n -> settled m
}.

(** What an unsettled node's successors look like. *)
Lemma successors_unopened s x y m n :
  causal s -> forward_edge (wg_ast s) x y -> wg_node s x = Some m -> wg_node s y = Some n ->
  ~ settled m -> ~ opened n.
Proof. intros Hc He Hm Hn Hs Ho. by apply Hs, (ca_preds s Hc x y m n). Qed.

(** Settledness travels backwards along forward paths. *)
Lemma settled_ancestors s x y n :
  causal s -> wg_inv s -> forward_reach (wg_ast s) x y -> wg_node s y = Some n -> opened n ->
  exists m, wg_node s x = Some m /\ opened m /\ (x <> y -> settled m).
Proof.
  intros Hc Hi Hr. revert n. unfold forward_reach, reach in Hr.
  induction Hr as [x|x z y Hxz Hzy IH]; intros n Hn Ho; [by exists n|].
  destruct (IH n Hn Ho) as (m & Hm & Hom & _).
  assert (is_Some (wg_node s x)) as [k Hk].
  { apply (wg_node_is_some s x (wi_names s Hi)). apply forward_targets_elem in Hxz as (e & He & Hk & Hf & _).
    pose proof (eo_source _ _ (ao_edge _ (wi_ast_ok s Hi) e He)) as Hsrc. rewrite Hk in Hsrc.
    destruct Hsrc as (from & i & j & src & tgt & Hf' & Hsrc & Hnm & _). rewrite Hf in Hf'.
    injection Hf' as <-. rewrite <- Hnm. apply list_elem_of_fmap. exists src.
    split; [done|]. by eapply list_elem_of_lookup_2. }
  exists k. pose proof (ca_preds s Hc x z k m Hxz Hk Hm Hom) as Hs. split_and!; [done|apply Hs|done].
Qed.
(** ** Forward edges follow the declaration order *)

Definition at_index (ast : WorkflowActivationAst) (x : GraphNodeName) (i : nat) : Prop :=
  map wan_node (ast_nodes ast) !! i = Some x.

Lemma forward_edge_index ast x y :
  ast_ok ast -> forward_edge ast x y ->
  exists i j, at_index ast x i /\ at_index ast y j /\ i < j.
Proof.
  intros Hok (e & He & Hk & Hf & <-)%forward_targets_elem.
  pose proof (eo_source _ _ (ao_edge _ Hok e He)) as Hs. rewrite Hk in Hs.
  destruct Hs as (from & i & j & src & tgt & Hf' & Hsrc & <- & Htgt & Hto & Hlt & _).
  rewrite Hf in Hf'. injection Hf' as ->. exists i, j. unfold at_index.
  rewrite !list_lookup_fmap, Hsrc, Htgt. simpl. by rewrite Hto.
Qed.

Lemma forward_reach_index ast x y i j :
  ast_ok ast -> forward_reach ast x y -> at_index ast x i -> at_index ast y j -> i <= j.
Proof.
  intros Hok Hr. revert i. unfold forward_reach, reach in Hr.
  induction Hr as [x|x z y Hxz _ IH]; intros i Hi Hj.
  - pose proof (NoDup_lookup _ _ _ _ (ao_nodes _ Hok) Hi Hj). lia.
  - destruct (forward_edge_index ast x z Hok Hxz) as (i' & k & Hi' & Hk & Hlt).
    pose proof (NoDup_lookup _ _ _ _ (ao_nodes _ Hok) Hi Hi'). specialize (IH k Hk Hj). lia.
Qed.

Lemma forward_acyclic ast x y : ast_ok ast -> forward_edge ast x y -> ~ forward_reach ast y x.
Proof.
  intros Hok (i & j & Hi & Hj & Hlt)%(forward_edge_index ast x y Hok) Hr.
  pose proof (forward_reach_index ast y x j i Hok Hr Hj Hi). lia.
Qed.

(** ** Steps preserve causality *)

Lemma causal_update s s' x f n :
  causal s -> ast_ok (wg_ast s) -> wg_ast s' = wg_ast s ->
  (forall y, wg_node s' y = if decide (x = y) then f <$> wg_node s x else wg_node s y) ->
  wg_node s x = Some n ->
  (opened (f n) -> forall y m, forward_edge (wg_ast s) y x -> wg_node s y = Some m -> settled m) ->
  (settled n -> settled (f n)) ->
  (wns_phase (f n) = NActivated \/ wns_phase (f n) = NCompleted -> opened (f n)) ->
  (forall r, wns_rejection (f n) = Some r -> rej_code r = EvidenceRejected -> opened (f n)) ->
  causal s'.
Proof.
  intros Hc Hok Ha Hl Hn Hpre Hset Hop Hrej. split.
  - intros y m. rewrite Hl. destruct (decide _) as [<-|]; [|apply (ca_open s Hc)].
    rewrite Hn. intros [= <-]. exact Hop.
  - intros y m r. rewrite Hl. destruct (decide _) as [<-|]; [|apply (ca_rejected s Hc)].
    rewrite Hn. intros [= <-]. apply Hrej.
  - intros y z m k. rewrite Ha, !Hl. intros He.
    destruct (decide (x = y)) as [<-|], (decide (x = z)) as [<-|]; rewrite ?Hn.
    + exfalso. apply (forward_acyclic _ _ _ Hok He). done.
    + intros [= <-] Hk Ho. apply Hset. by eapply (ca_preds s Hc x z).
    + intros Hm [= <-] Ho. by eapply Hpre.
    + by apply (ca_preds s Hc).
Qed.

Lemma causal_reset s t cursor k :
  causal s -> ast_ok (wg_ast s) ->
  causal (reset_descendants t cursor (with_back_edges k s)).
Proof.
  intros Hc Hok. set (b := reset_descendants _ _ _).
  assert (forall y n, wg_node b y = Some n -> exists m, wg_node s y = Some m /\
    ((forward_reach (wg_ast s) t y /\ n = reset_node cursor m) \/
     (~ forward_reach (wg_ast s) t y /\ n = m))) as Hl.
  { intros y n. unfold b. rewrite wg_node_back_base, fmap_Some. intros (m & Hm & ->).
    exists m. split; [done|]. rewrite <- descendants_spec. case_bool_decide; auto. }
  split.
  - intros x n (m & Hm & [[_ ->]|[_ ->]])%Hl Hp; [by destruct Hp|by eapply ca_open].
  - intros x n r (m & Hm & [[_ ->]|[_ ->]])%Hl Hr Hcode; [done|by eapply ca_rejected].
  - intros x y m n He (m0 & Hm & Hx)%Hl (n0 & Hn & Hy)%Hl Ho.
    destruct Hy as [[_ ->]|[Hy ->]]; [by destruct Ho|].
    destruct Hx as [[Hx ->]|[_ ->]]; [|by eapply (ca_preds s Hc x y)].
    exfalso. apply Hy. eapply rtc_r; [exact Hx|exact He].
Qed.

Lemma causal_same_nodes s s' :
  wg_ast s' = wg_ast s -> (forall y, wg_node s' y = wg_node s y) -> causal s -> causal s'.
Proof.
  intros Ha Hl Hc. split.
  - intros x n. rewrite Hl. apply Hc.
  - intros x n r. rewrite Hl. apply Hc.
  - intros x y m n. rewrite Ha, !Hl. apply Hc.
Qed.

Lemma waiting_unsettled through n : node_inv through n -> wns_phase n = NWaiting \/ wns_phase n = NActivated -> ~ settled n.
Proof.
  intros [_ _ Hsh] Hp [_ Hs]. unfold node_shape in Hsh. destruct (wns_phase n); naive_solver.
Qed.

(** A back edge leaves an opened descendant of its target, so the target was
    opened as well. *)
Lemma back_target_opened s a spec n i :
  wg_inv s -> causal s -> activation_admitted s a spec n -> act_inputs a = [i] ->
  back_available s i -> opened n.
Proof.
  intros Hi Hc Hadm Hin (e & src & z & r & He & Hid & Hk & Hf & Hz & Hr & Hcode & _).
  pose proof (aa_inputs _ _ _ _ Hadm) as Hty. rewrite Hin in Hty.
  apply Forall_cons in Hty as [[_ (e' & He' & Hid' & Hto & _)] _].
  rewrite (edge_unique s e' e) in Hto by (done || congruence).
  pose proof (eo_source _ _ (ao_edge _ (wi_ast_ok s Hi) e He)) as Hsrc. rewrite Hk in Hsrc.
  destruct Hsrc as (from & tgt & Hf' & Hreach & _). rewrite Hf in Hf'. injection Hf' as <-.
  rewrite Hto in Hreach.
  destruct (settled_ancestors s (act_node a) src z Hc Hi Hreach Hz) as (m & Hm & Ho & _).
  { by eapply ca_rejected. }
  rewrite (aa_node _ _ _ _ Hadm) in Hm. by injection Hm as <-.
Qed.

Lemma completed_state_fields cursor c s :
  wg_ast (completed_state cursor c s) = wg_ast s /\
  forall y, wg_node (completed_state cursor c s) y =
    wg_node (update_node (com_node c) (completed_node cursor c) s) y.
Proof. unfold completed_state. case_match; split; reflexivity. Qed.

Lemma causal_step cursor s ev s' : wg_inv s -> causal s -> wg_step cursor s ev s' -> causal s'.
Proof.
  intros Hi Hc Hstep. pose proof (wi_ast_ok s Hi) as Hok.
  destruct Hstep as [s a spec n _ Hadm _ Hp Hids Hav|s a spec n i seed _ Hadm _ _ _ Hin _ Hav
    |s c spec n out _ _ _ _ _ _ _ _ Hn Hp|s r spec n _ _ _ _ _ _ _ _ Hn _ Hco].
  - pose proof (aa_node _ _ _ _ Hadm) as Hn.
    apply (causal_update s _ (act_node a) (activated_node cursor a) n); try done.
    + by unfold capture_seed; destruct (wg_seed s).
    + intros y. rewrite wg_node_activated. by rewrite !wg_node_capture_seed.
    + intros _ y m (e & He & Hk & Hf & Ht)%forward_targets_elem Hm.
      destruct (joined_forward_edge s a spec n e) as (src & m' & j & Hsrc & Hm' & Hcm & _); try done.
      assert (y = src) as -> by congruence. rewrite Hm in Hm'. injection Hm' as <-.
      split; [|by left]. by eapply (ca_open s Hc); [done|right].
    + intros Hs. exfalso. eapply waiting_unsettled; [by eapply wi_nodes|by left|done].
    + by eexists.
  - pose proof (aa_node _ _ _ _ Hadm) as Hn.
    set (b := reset_descendants _ _ _).
    assert (wg_node b (act_node a) = Some (reset_node cursor n)) as Hb.
    { unfold b. rewrite wg_node_back_base, Hn. simpl.
      rewrite bool_decide_true; [done|]. by apply descendants_spec. }
    apply (causal_update b _ (act_node a) (activated_node cursor a) (reset_node cursor n));
      try done.
    + by apply causal_reset.
    + intros y. by apply wg_node_activated.
    + intros _ y m He Hm. revert Hm. unfold b. rewrite wg_node_back_base, bool_decide_false.
      2:{ rewrite descendants_spec. by apply forward_acyclic. }
      destruct (wg_node s y) as [m'|] eqn:Hm; [|done]. simpl. intros [= <-].
      by eapply (ca_preds s Hc y); [..|eapply back_target_opened].
    + by intros [[? ?] _].
    + by eexists.
  - apply (causal_update s _ (com_node c) (completed_node cursor c) n); try done.
    + apply completed_state_fields.
    + intros y. etrans; [apply (proj2 (completed_state_fields cursor c s))|by apply wg_node_update].
    + intros Ho y m He Hm. by eapply (ca_preds s Hc y).
    + intros Hs. exfalso. eapply waiting_unsettled; [by eapply wi_nodes|by right|done].
    + intros _. exact (ca_open s Hc _ n Hn (or_introl Hp)).
  - apply (causal_update s _ (rej_node r) (rejected_node cursor r) n); try done.
    + intros y. by apply wg_node_update.
    + intros Ho y m He Hm. by eapply (ca_preds s Hc y).
    + intros Hs. split; [apply Hs|]. right. exists r. split; [done|].
      destruct Hco as [[Hp _]|[_ Hcode]].
      * exfalso. eapply waiting_unsettled; [by eapply wi_nodes|by right|done].
      * destruct (rej_code r); try done; exfalso;
          (eapply waiting_unsettled; [by eapply wi_nodes|by left|done]).
    + by intros [|].
    + intros r' [= <-] Hcode. unfold rejection_coordinates in Hco; rewrite Hcode in Hco. destruct Hco as [[Hp _]|[_ []]].
      exact (ca_open s Hc _ n Hn (or_introl Hp)).
Qed.

Lemma reachable_causal s : wg_reachable s -> causal s.
Proof.
  induction 1 as [cursor st s Hst|cursor ev s s' Hs IH Hr].
  - assert (forall x n, wg_node s x = Some n -> exists w, n = initial_node_state cursor w) as Hl.
    { unfold from_started in Hst. res_invert. simplify_eq. intros x n. apply wg_node_initial. }
    split.
    + intros x n (w & ->)%Hl Hp. by destruct Hp.
    + by intros x n r (w & ->)%Hl.
    + intros x y m n _ _ (w & ->)%Hl Ho. by destruct Ho.
  - eapply causal_step; [by apply wg_reachable_inv|done|]. by apply wg_apply_refines.
Qed.

(** ** Every node leads to a terminal *)

Lemma reaches_terminal ast k i w :
  ast_ok ast -> length (ast_nodes ast) <= i + k -> ast_nodes ast !! i = Some w ->
  exists t, t ∈ terminals ast /\ forward_reach ast (wan_node w) (wan_node t).
Proof.
  intros Hok. revert i w. induction k as [|k IH]; intros i w Hlen Hw.
  { apply lookup_lt_Some in Hw. lia. }
  destruct (is_terminal ast w) eqn:Ht.
  { exists w. split; [|done]. unfold terminals. apply filterb_elem.
    split; [by eapply list_elem_of_lookup_2|done]. }
  unfold is_terminal in Ht. apply negb_false_iff, existsb_elem in Ht as (e & He & Hp). guards.
  assert (forward_edge ast (wan_node w) (edge_to e)) as Hfe.
  { apply forward_targets_elem. by exists e. }
  destruct (forward_edge_index ast _ _ Hok Hfe) as (i' & j & Hi' & Hj & Hlt).
  assert (at_index ast (wan_node w) i) as Hi by (unfold at_index; by rewrite list_lookup_fmap, Hw).
  pose proof (NoDup_lookup _ _ _ _ (ao_nodes _ Hok) Hi Hi') as <-.
  unfold at_index in Hj. rewrite list_lookup_fmap in Hj.
  apply fmap_Some in Hj as (v & Hv & Hname).
  destruct (IH j v) as (t & Ht & Hr); [lia|done|]. exists t. split; [done|].
  eapply rtc_l; [exact Hfe|]. by rewrite Hname.
Qed.

(** In a completed graph no node is active. *)
Lemma completed_settled s x n :
  wg_reachable s -> wg_phase s = GCompleted -> wg_node s x = Some n -> settled n.
Proof.
  intros Hre Hp Hn. pose proof (wg_reachable_inv s Hre) as Hi.
  pose proof (reachable_causal s Hre) as Hc. pose proof (wi_ast_ok s Hi) as Hok.
  apply (proj1 (wi_phase s Hi)) in Hp. unfold terminal_nodes_completed in Hp.
  rewrite forallb_elem in Hp.
  assert (x ∈ map wan_node (ast_nodes (wg_ast s))) as (w & -> & [i Hw]%list_elem_of_lookup)%list_elem_of_fmap.
  { apply (wg_node_is_some s x (wi_names s Hi)). eauto. }
  destruct (reaches_terminal (wg_ast s) (length (ast_nodes (wg_ast s))) i w) as (t & Ht & Hr);
    [done|lia|done|].
  specialize (Hp t Ht). apply node_in_phase_true in Hp as (m & Hm & Hmp).
  assert (opened m) as Ho by (eapply (ca_open s Hc); eauto).
  destruct (settled_ancestors s _ _ m Hc Hi Hr Hm Ho) as (n' & Hn' & Hon & Hs).
  rewrite Hn in Hn'. injection Hn' as <-.
  destruct (decide (wan_node w = wan_node t)) as [E|]; [|auto].
  rewrite E in Hn. rewrite Hm in Hn. injection Hn as <-. split; [done|by left].
Qed.

(** completion is final: a reachable graph whose terminals all completed
    refuses every further fact, at any cursor, and is left unchanged. *)
Theorem completed_is_final cursor ev s :
  wg_reachable s -> wg_phase s = GCompleted -> exists e, wg_apply cursor ev s = (Err e, s).
Proof.
  intros Hre Hp. pose proof (wg_reachable_inv s Hre) as Hi.
  destruct (wg_apply cursor ev s) as [[[]|e] s'] eqn:E.
  2:{ exists e. f_equal. by eapply wg_apply_err_atomic. }
  exfalso. apply wg_apply_refines in E.
  inversion E as [? ? ? ? _ Hadm|? ? ? ? ? ? _ Hadm|? ? ? n ? _ _ _ _ _ _ _ _ Hn Hn'|]; subst.
  1,2: by destruct (aa_open _ _ _ _ Hadm).
  2: done.
  eapply waiting_unsettled; [by eapply wi_nodes|by right|by eapply completed_settled].
Qed.

End Final.

Section Witness.
Import Sample.

Lemma completed_is_final_witness :
  exists e, wg_apply 100 (event_at 9) (after 10) = (Err e, after 10).
Proof.
  apply (completed_is_final 100 (event_at 9) (after 10) (after_reachable 10)).
  vm_compute. reflexivity.
Defined.
End Witness.
