(* ===== verification/ActivationReplay.v ===== *)
(** * Journal replay of the activation engine

    [reduce_workflow_graphs] folds a mixed journal into one projection per
    graph.  Replays compose over concatenation, produce only reachable
    projections, and treat graphs independently. *)

From S2P Require Import Prelude RustStr Digest Worklist GraphTypes TypeExpr Evidence.
From S2P Require Import Activation ActivationGraph ActivationStep ActivationInv Fixtures.
From S2P Require Import ActivationProps.

Local Open Scope string_scope.

Section Replay.
Context `{Blake3} `{ActivationCodec Payload}.
Implicit Types (m : gmap GraphId WorkflowGraphState) (l : list (Envelope Payload)).

(** The graph a journal entry is a fact of, if any. *)
Definition envelope_graph (envelope : Envelope Payload) : option GraphId :=
  match from_payload_value (env_payload envelope) with
  | Ok (Some event) => Some (event_graph_id event)
  | _ => None
  end.

Lemma reduce_from_app m l k :
  reduce_from m (l ++ k) = result_bind (reduce_from m l) (fun m' => reduce_from m' k).
Proof.
  revert m. induction l as [|e l IH]; intros m; simpl; [done|].
  destruct (reduce_envelope m e); simpl; [apply IH|done].
Qed.

(** ** What one fact does *)

Lemma wg_apply_keeps_id cursor ev s s' :
  wg_apply cursor ev s = (Ok tt, s') -> wg_graph_id s' = wg_graph_id s.
Proof.
  intros Hr%wg_apply_refines. inversion Hr as [| |? c|]; subst; simpl; try done.
  - by unfold capture_seed; destruct (wg_seed s).
  - clear. unfold completed_state. case_match; reflexivity.
Qed.

(** A fact replaces the projection of its own graph, computed from that
    projection alone. *)
Definition next_projection (o : option WorkflowGraphState) (seq : N)
    (event : WorkflowGraphJournalEvent) : option WorkflowGraphState :=
  match event, o with
  | EvStarted started, None =>
      match from_started seq started with Ok s => Some s | Err _ => None end
  | EvStarted _, Some _ => None
  | _, Some s => match wg_apply seq event s with (Ok _, s') => Some s' | _ => None end
  | _, None => None
  end.

Lemma reduce_event_ok m seq event m' :
  reduce_event m seq event = Ok m' <->
  exists s, next_projection (m !! event_graph_id event) seq event = Some s /\
    m' = <[event_graph_id event := s]> m.
Proof.
  unfold reduce_event, next_projection. destruct event; simpl.
  - destruct (m !! st_graph_id started) eqn:E; simpl.
    + naive_solver.
    + destruct (from_started seq started); simpl; naive_solver.
  - destruct (m !! act_graph_id activated); simpl; [|naive_solver].
    destruct (wg_apply _ _ _) as [[]]; naive_solver.
  - destruct (m !! com_graph_id completed); simpl; [|naive_solver].
    destruct (wg_apply _ _ _) as [[]]; naive_solver.
  - destruct (m !! rej_graph_id rejected); simpl; [|naive_solver].
    destruct (wg_apply _ _ _) as [[]]; naive_solver.
Qed.

Lemma next_projection_reachable o seq event s :
  (forall s0, o = Some s0 -> wg_reachable s0 /\ wg_graph_id s0 = event_graph_id event) ->
  next_projection o seq event = Some s ->
  wg_reachable s /\ wg_graph_id s = event_graph_id event.
Proof.
  intros Ho. unfold next_projection. destruct event, o as [s0|]; try done; simpl.
  1:{ destruct (from_started seq started) eqn:E; [|done]. intros [= <-].
      split; [by eapply reach_start|]. unfold from_started in E. res_invert. by simplify_eq. }
  all: destruct (wg_apply _ _ _) as [[[]|] s1] eqn:E; [|done]; intros [= <-];
    destruct (Ho s0 eq_refl) as [Hr Hid];
    split; [by eapply reach_apply|by erewrite wg_apply_keeps_id].
Qed.

(** ** Replayed maps *)

Definition map_reachable m : Prop :=
  forall g s, m !! g = Some s -> wg_reachable s /\ wg_graph_id s = g.

Lemma reduce_envelope_reachable m e m' :
  map_reachable m -> reduce_envelope m e = Ok m' -> map_reachable m'.
Proof.
  intros Hm. unfold reduce_envelope. destruct (from_payload_value _) as [[event|]|]; [|by intros [= <-]|done].
  intros (s & Hs & ->)%reduce_event_ok g s' Hg.
  apply lookup_insert_Some in Hg as [[<- <-]|[_ Hg]]; [|by apply Hm].
  eapply next_projection_reachable; [|done]. intros s0 Hs0. by apply Hm.
Qed.

Lemma reduce_from_reachable m l m' :
  map_reachable m -> reduce_from m l = Ok m' -> map_reachable m'.
Proof.
  revert m. induction l as [|e l IH]; intros m Hm; simpl; [by intros [= <-]|].
  intros (m1 & Hm1 & Hr)%result_bind_ok. eapply IH; [|done]. by eapply reduce_envelope_reachable.
Qed.

(** The entry of [g] alone. *)
Definition restrict (g : GraphId) m : gmap GraphId WorkflowGraphState :=
  match m !! g with Some s => {[g := s]} | None => ∅ end.

Lemma restrict_lookup g m : restrict g m !! g = m !! g.
Proof. unfold restrict. destruct (m !! g) eqn:E; [apply lookup_singleton_eq|by rewrite lookup_empty]. Qed.

Lemma restrict_insert_same g s m : restrict g (<[g := s]> m) = <[g := s]> (restrict g m).
Proof.
  unfold restrict. rewrite lookup_insert_eq.
  destruct (m !! g); [by rewrite insert_singleton_eq|by rewrite insert_empty].
Qed.

Lemma restrict_insert_other g g' s m : g <> g' -> restrict g (<[g' := s]> m) = restrict g m.
Proof. intros. unfold restrict. by rewrite lookup_insert_ne. Qed.

Definition of_graph (g : GraphId) (envelope : Envelope Payload) : bool :=
  opt_eqb (envelope_graph envelope) (Some g).

Lemma reduce_envelope_restrict g m e m' :
  reduce_envelope m e = Ok m' ->
  if of_graph g e then reduce_envelope (restrict g m) e = Ok (restrict g m')
  else restrict g m' = restrict g m.
Proof.
  unfold of_graph, envelope_graph, reduce_envelope.
  destruct (from_payload_value _) as [[event|]|]; [|by intros [= <-]|done].
  intros (s & Hs & ->)%reduce_event_ok. unfold opt_eqb. case_bool_decide as Hg.
  - injection Hg as <-. apply reduce_event_ok. exists s. rewrite restrict_lookup.
    split; [done|]. apply restrict_insert_same.
  - apply restrict_insert_other. congruence.
Qed.

Lemma reduce_from_restrict g l m m' :
  reduce_from m l = Ok m' ->
  reduce_from (restrict g m) (filterb (of_graph g) l) = Ok (restrict g m').
Proof.
  revert m. induction l as [|e l IH]; intros m; simpl; [by intros [= <-]|].
  intros (m1 & Hm1 & Hr)%result_bind_ok. apply (reduce_envelope_restrict g) in Hm1.
  apply IH in Hr. destruct (of_graph g e); simpl; [by rewrite Hm1|by rewrite <- Hm1].
Qed.

(** every projection a successful replay returns is filed under its own
    graph id and passes [validate_projection]. *)
Theorem replay_projections_valid l m g s :
  reduce_workflow_graphs l = Ok m -> m !! g = Some s ->
  wg_graph_id s = g /\ validate_projection s = Ok tt.
Proof.
  intros Hr Hg. destruct (reduce_from_reachable ∅ l m) with (g := g) (s := s) as [Hre Hid]; [|done|done|].
  - intros g' s'. by rewrite lookup_empty.
  - split; [done|]. by apply wg_inv_projection, wg_reachable_inv.
Qed.

(** graphs are independent: the projection of a graph is the one obtained
    by replaying only that graph's own facts. *)
Theorem replay_independent l m g :
  reduce_workflow_graphs l = Ok m ->
  exists m', reduce_workflow_graphs (filterb (of_graph g) l) = Ok m' /\ m' !! g = m !! g /\
    forall g', g' <> g -> m' !! g' = None.
Proof.
  intros Hr. exists (restrict g m). split_and!.
  - apply (reduce_from_restrict g) in Hr. exact Hr.
  - apply restrict_lookup.
  - intros g' Hg. unfold restrict. destruct (m !! g); [by apply lookup_singleton_ne|apply lookup_empty].
Qed.

(** replay is incremental: replaying a journal and then its continuation
    gives the replay of the whole, and a malformed or refused fact makes every
    longer replay fail with the same error. *)
Theorem replay_incremental l k :
  reduce_workflow_graphs (l ++ k) =
  match reduce_workflow_graphs l with
  | Ok m => reduce_from m k
  | Err e => Err e
  end.
Proof. apply reduce_from_app. Qed.
End Replay.

(** ** Witnesses *)

Section Witnesses.
Import Sample.

#[local] Instance sample_codec : ActivationCodec (option WorkflowGraphJournalEvent) := {
  payload_type := fun p =>
    (fun event => match event with
                  | EvStarted _ => "workflow_graph_started"
                  | EvActivated _ => "workflow_node_activated"
                  | EvCompleted _ => "workflow_node_completed"
                  | EvRejected _ => "workflow_node_rejected"
                  end) <$> p;
  decode_activation := fun p => ok_or p "not an activation fact"
}.

Definition journal : list (Envelope (option WorkflowGraphJournalEvent)) :=
  mkEnvelope 1 (Some (EvStarted started)) :: mkEnvelope 2 None ::
  mkEnvelope 3 (Some (EvStarted (mkStarted "g2" ast (workflow_activation_ast_digest ast) None))) ::
  zip_with (fun k e => mkEnvelope (N.of_nat k) (Some e)) (seq 4 10) events.

Definition replayed : gmap GraphId WorkflowGraphState :=
  match reduce_workflow_graphs journal with Ok m => m | Err _ => ∅ end.

Definition replayed_g1 : WorkflowGraphState := default initial (replayed !! "g1").

Lemma replay_projections_valid_witness :
  wg_graph_id replayed_g1 = "g1" /\ validate_projection replayed_g1 = Ok tt.
Proof.
  apply (replay_projections_valid journal replayed "g1" replayed_g1); vm_compute; reflexivity.
Defined.

Lemma replay_independent_witness :
  exists m', reduce_workflow_graphs (filterb (of_graph "g1") journal) = Ok m' /\
    m' !! "g1" = replayed !! "g1" /\ forall g', g' <> "g1" -> m' !! g' = None.
Proof. apply (replay_independent journal replayed "g1"). vm_compute. reflexivity. Defined.
End Witnesses.
