(* ===== verification/GraphTemplate.v ===== *)
(** * Graph templates (haider-protocol/src/graph.rs)

    The release-owned workflow catalogue and the validation every template
    passes before it is pinned.  The proofs are in TemplateProps.v. *)

From S2P Require Import Prelude RustStr Digest Worklist GraphTypes.

Local Open Scope string_scope.

(** ** Rejections *)

Inductive GraphTemplateRejection :=
| DuplicateNode
| NoStart
| MultipleStarts
| Cycle
| UnreachableNode
| UnknownDependency
| OverCeiling
| InvalidGate.

Record GraphTemplateError := mkTemplateError {
  te_kind : GraphTemplateRejection;
  te_message : string
}.

Abbreviation tpl_result A := (result A GraphTemplateError).

(** ** Validation *)

Definition template_header_rejected (t : GraphTemplateSpec) : bool :=
  is_empty (tpl_name t) || (64 <? len (tpl_name t))%N || (tpl_version t =? 0)%N
  || bool_decide (tpl_nodes t = nil)
  || (GRAPH_MAX_NODES <? N.of_nat (length (tpl_nodes t)))%N.

(** The loop that inserts every node name into a set. *)
Fixpoint check_unique_names (names : gset GraphNodeName) (nodes : list GraphNodeSpec)
    : tpl_result (gset GraphNodeName) :=
  match nodes with
  | [] => Ok names
  | node :: nodes =>
      if bool_decide (spec_name node ∈ names)
      then Err (mkTemplateError DuplicateNode ("graph template repeats node " ++ spec_name node))
      else check_unique_names ({[spec_name node]} ∪ names) nodes
  end.

(** [try_fold(0_usize, |total, node| total.checked_add(..))]. *)
Fixpoint checked_total (total : N) (lengths : list nat) : option N :=
  match lengths with
  | [] => Some total
  | n :: lengths => checked_add_u64 total (N.of_nat n) ≫= fun total => checked_total total lengths
  end.

Definition over_ceiling (ceiling : N) (lengths : list nat) : bool :=
  match checked_total 0 lengths with Some count => (ceiling <? count)%N | None => true end.

(** [graph_dependency_ancestors].  Each pop marks a node or discards a queued
    entry, and every entry queued belongs to the dependencies of the start or
    of a marked node: twice the number of edges is enough fuel. *)
Definition dependencies_of (specs : list GraphNodeSpec) (node : GraphNodeName)
    : list GraphNodeName :=
  match find (fun spec => bool_decide (spec_name spec = node)) specs with
  | Some spec => spec_depends_on spec
  | None => []
  end.

Definition edge_total (specs : list GraphNodeSpec) : nat :=
  sum_list_with (fun spec => length (spec_depends_on spec)) specs.

Definition graph_dependency_ancestors (specs : list GraphNodeSpec) (node : GraphNodeName)
    : gset GraphNodeName :=
  default ∅ (bfs_pop (dependencies_of specs) (edge_total specs + edge_total specs)
               (dependencies_of specs node) ∅).

Fixpoint check_dependencies (names : gset GraphNodeName) (node : GraphNodeSpec)
    (seen : gset GraphNodeName) (dependencies : list GraphNodeName) : tpl_result unit :=
  match dependencies with
  | [] => Ok tt
  | dependency :: dependencies =>
      (reject_if (negb (bool_decide (dependency ∈ names)))
         (mkTemplateError UnknownDependency
            ("graph node " ++ spec_name node ++ " depends on unknown node " ++ dependency)) ?;
       reject_if (bool_decide (dependency ∈ seen))
         (mkTemplateError DuplicateNode
            ("graph node " ++ spec_name node ++ " repeats dependency " ++ dependency)) ?;
       check_dependencies names node ({[dependency]} ∪ seen) dependencies)%res
  end.

Definition check_red_target (specs : list GraphNodeSpec) (names : gset GraphNodeName)
    (node : GraphNodeSpec) : tpl_result unit :=
  match spec_red_target node with
  | None => Ok tt
  | Some target =>
      (reject_if (negb (bool_decide (target ∈ names)))
         (mkTemplateError UnknownDependency
            ("graph node " ++ spec_name node ++ " has an unknown red target " ++ target)) ?;
       reject_if (is_human_gate (spec_gate node))
         (mkTemplateError InvalidGate
            ("human graph node " ++ spec_name node ++ " cannot declare a red target")) ?;
       reject_if
         (negb (bool_decide (target = spec_name node))
          && negb (bool_decide (target ∈ graph_dependency_ancestors specs (spec_name node))))
         (mkTemplateError InvalidGate
            ("graph node " ++ spec_name node ++ " red target " ++ target
             ++ " is not a dependency ancestor")))%res
  end.

Definition slot_id_byte (c : ascii) : bool := is_ascii_alphanumeric c || is_underscore_or_dash c.

Definition slot_id_rejected (id : string) : bool :=
  is_empty id || (64 <? len id)%N || negb (all_bytes slot_id_byte id).

Fixpoint check_slots (node : GraphNodeSpec) (seen : gset string) (slots : list EvidenceSlotSpec)
    : tpl_result unit :=
  match slots with
  | [] => Ok tt
  | slot :: slots =>
      (reject_if (slot_id_rejected (slot_id slot) || bool_decide (slot_id slot ∈ seen))
         (mkTemplateError InvalidGate
            ("graph node " ++ spec_name node ++ " has an invalid or duplicate evidence slot")) ?;
       check_slots node ({[slot_id slot]} ∪ seen) slots)%res
  end.

Definition check_gate (node : GraphNodeSpec) : tpl_result unit :=
  match spec_gate node with
  | AllOfN n =>
      reject_if ((n =? 0)%N
                 || (negb (bool_decide (spec_verify_slots node = nil))
                     && negb (n =? u32_of_usize (length (spec_verify_slots node)))%N))
        (mkTemplateError InvalidGate
           ("graph node " ++ spec_name node ++ " has an incoherent all-of-n gate"))
  | HumanConfirm =>
      reject_if (negb (bool_decide (spec_executor node = Human))
                 || bool_decide (is_Some (spec_max_evidence_per_attempt node))
                 || negb (bool_decide (spec_verify_slots node = nil)))
        (mkTemplateError InvalidGate
           ("graph node " ++ spec_name node ++ " has an incoherent human gate"))
  | CommandGreen => Ok tt
  end.

(** One iteration of the loop over the nodes. *)
Definition check_template_node (specs : list GraphNodeSpec) (names : gset GraphNodeName)
    (node : GraphNodeSpec) : tpl_result unit :=
  (reject_if ((spec_max_attempts node =? 0)%N || (GRAPH_MAX_ATTEMPTS <? spec_max_attempts node)%N)
     (mkTemplateError OverCeiling
        ("graph node " ++ spec_name node ++ " exceeds the attempt ceiling")) ?;
   reject_if (match spec_max_evidence_per_attempt node with
              | Some limit => (limit =? 0)%N || (GRAPH_MAX_EVIDENCE_PER_ATTEMPT <? limit)%N
              | None => false
              end)
     (mkTemplateError OverCeiling
        ("graph node " ++ spec_name node ++ " exceeds the evidence ceiling")) ?;
   check_dependencies names node ∅ (spec_depends_on node) ?;
   check_red_target specs names node ?;
   check_slots node ∅ (spec_verify_slots node) ?;
   check_gate node)%res.

(** The names of the nodes that depend on [node], in template order. *)
Definition dependents (specs : list GraphNodeSpec) (node : GraphNodeName) : list GraphNodeName :=
  map spec_name (filterb (fun candidate =>
    existsb (fun dependency => bool_decide (dependency = node)) (spec_depends_on candidate)) specs).

(** *** The topological sweep *)

(** [*count = count.saturating_sub(1); if *count == 0 { queue.push_back(..) }]
    for each dependent present in the map. *)
Fixpoint release (ds : list GraphNodeName) (indegree : gmap GraphNodeName nat)
    (queue : list GraphNodeName) : gmap GraphNodeName nat * list GraphNodeName :=
  match ds with
  | [] => (indegree, queue)
  | d :: ds =>
      match indegree !! d with
      | Some count =>
          let count := count - 1 in
          release ds (<[d := count]> indegree)
            (if (count =? 0)%nat then (queue ++ [d])%list else queue)
      | None => release ds indegree queue
      end
  end.

Fixpoint kahn (specs : list GraphNodeSpec) (fuel : nat) (queue : list GraphNodeName)
    (indegree : gmap GraphNodeName nat) (visited : nat) : option nat :=
  match queue with
  | [] => Some visited
  | node :: queue =>
      match fuel with
      | 0 => None
      | S fuel =>
          let '(indegree, queue) := release (dependents specs node) indegree queue in
          kahn specs fuel queue indegree (S visited)
      end
  end.

(** The map is collected from pairs, so a repeated name keeps its last count. *)
Definition indegrees (specs : list GraphNodeSpec) : gmap GraphNodeName nat :=
  foldl (fun m spec => <[spec_name spec := length (spec_depends_on spec)]> m) ∅ specs.

Definition roots (specs : list GraphNodeSpec) : list GraphNodeName :=
  map spec_name (filterb (fun node => bool_decide (spec_depends_on node = nil)) specs).

(** A node is queued once its dependencies are visited: one step per node. *)
Definition topological_visits (specs : list GraphNodeSpec) : option nat :=
  kahn specs (length specs) (roots specs) (indegrees specs) 0.

(** *** Reachability from the start *)

(** Each node is queued at most once, and so is the start. *)
Definition template_reachable (specs : list GraphNodeSpec) (start : GraphNodeName)
    : gset GraphNodeName :=
  default ∅ (bfs (dependents specs) (S (length specs)) [start] {[start]}).

Definition validate_graph_template (t : GraphTemplateSpec) : tpl_result unit :=
  (reject_if (template_header_rejected t)
     (mkTemplateError OverCeiling
        "graph template name/version/node count is outside its bounded ceiling") ?;
   let? start_node := ok_or (tpl_start_node t)
       (mkTemplateError NoStart "graph template does not declare a start node") in
   let? names := check_unique_names ∅ (tpl_nodes t) in
   let? start_spec := ok_or (find (fun node => bool_decide (spec_name node = start_node))
                               (tpl_nodes t))
       (mkTemplateError NoStart
          ("declared start node " ++ start_node ++ " is absent from the graph template")) in
   reject_if (negb (bool_decide (spec_depends_on start_spec = nil)))
     (mkTemplateError NoStart
        ("declared start node " ++ start_node ++ " has incoming dependencies")) ?;
   reject_if
     (over_ceiling GRAPH_MAX_EDGES (map (fun node => length (spec_depends_on node)) (tpl_nodes t))
      || over_ceiling GRAPH_MAX_SLOTS
           (map (fun node => length (spec_verify_slots node)) (tpl_nodes t)))
     (mkTemplateError OverCeiling
        "graph template exceeds its edge or evidence-slot ceiling") ?;
   for_each (check_template_node (tpl_nodes t) names) (tpl_nodes t) ?;
   reject_if (negb (opt_eqb (topological_visits (tpl_nodes t)) (Some (length (tpl_nodes t)))))
     (mkTemplateError Cycle "graph template contains a dependency cycle") ?;
   match find (fun node => negb (bool_decide
                 (spec_name node ∈ template_reachable (tpl_nodes t) start_node))) (tpl_nodes t) with
   | Some node =>
       Err (mkTemplateError UnreachableNode
              ("graph node " ++ spec_name node ++ " is unreachable from " ++ start_node))
   | None => Ok tt
   end)%res.

(** ** The catalogue *)

Definition node_spec (name : string) (gate : GraphGateKind) (executor : GraphExecutorShape)
    (dependencies : list string) (slots : list EvidenceSlotSpec) : GraphNodeSpec :=
  mkGraphNodeSpec
    (match graph_node_name_new name with Ok name => name | Err _ => build_node end)
    gate executor GRAPH_MAX_ATTEMPTS
    (if is_human_gate gate then None else Some GRAPH_MAX_EVIDENCE_PER_ATTEMPT)
    (filter_map (fun name => match graph_node_name_new name with
                             | Ok name => Some name
                             | Err _ => None
                             end) dependencies)
    None slots.

Definition daemon_slot (id : string) : EvidenceSlotSpec :=
  mkEvidenceSlotSpec id DaemonVerified SelCommand.

Definition model_slot (id : string) : EvidenceSlotSpec :=
  mkEvidenceSlotSpec id ModelAttested SelFreeform.

Definition template (name start : string) (nodes : list GraphNodeSpec) : GraphTemplateSpec :=
  mkGraphTemplateSpec name GRAPH_TEMPLATE_VERSION
    (match graph_node_name_new start with Ok name => Some name | Err _ => None end) nodes.

Definition ship_loop_nodes : list GraphNodeSpec :=
  [mkGraphNodeSpec build_node CommandGreen Inline GRAPH_MAX_ATTEMPTS
     (Some GRAPH_MAX_EVIDENCE_PER_ATTEMPT) [] None [];
   mkGraphNodeSpec verify_node (AllOfN 3) FanOut GRAPH_MAX_ATTEMPTS
     (Some GRAPH_MAX_EVIDENCE_PER_ATTEMPT) [build_node] None
     (map (fun id => mkEvidenceSlotSpec id DaemonVerified SelCommand)
        ["tests"; "lint"; "typecheck"]);
   mkGraphNodeSpec ship_node HumanConfirm Human GRAPH_MAX_ATTEMPTS None [verify_node] None []].

Definition ship_loop_template : GraphTemplateSpec :=
  mkGraphTemplateSpec SHIP_LOOP_TEMPLATE GRAPH_TEMPLATE_VERSION (Some build_node) ship_loop_nodes.

Definition super_ship_loop_template : GraphTemplateSpec :=
  template SUPER_SHIP_LOOP_TEMPLATE "IMPLEMENT"
    [node_spec "IMPLEMENT" CommandGreen Inline [] [];
     node_spec "TESTS" (AllOfN 2) FanOut ["IMPLEMENT"] [daemon_slot "tests"; daemon_slot "lint"];
     node_spec "CLEAN" (AllOfN 1) Inline ["IMPLEMENT"] [model_slot "clean-code"];
     node_spec "OPTIMIZE" (AllOfN 1) Inline ["TESTS"; "CLEAN"] [model_slot "optimize"];
     node_spec "SHIP" HumanConfirm Human ["OPTIMIZE"] []].

Definition staggered_template : GraphTemplateSpec :=
  template STAGGERED_TEMPLATE "START"
    [node_spec "START" CommandGreen Inline [] [];
     node_spec "BACKEND" CommandGreen Inline ["START"] [];
     node_spec "FRONTEND" CommandGreen Inline ["START"] [];
     node_spec "INTEGRATE" CommandGreen Inline ["BACKEND"; "FRONTEND"] [];
     node_spec "VERIFY" (AllOfN 2) FanOut ["INTEGRATE"]
       [daemon_slot "tests"; daemon_slot "typecheck"];
     node_spec "SHIP" HumanConfirm Human ["VERIFY"] []].

Definition sec_audit_template : GraphTemplateSpec :=
  template SEC_AUDIT_TEMPLATE "SCOPE"
    [node_spec "SCOPE" CommandGreen Inline [] [];
     node_spec "STATIC" (AllOfN 2) FanOut ["SCOPE"]
       [daemon_slot "scanner"; daemon_slot "dependencies"];
     node_spec "THREAT_REVIEW" (AllOfN 1) Inline ["SCOPE"] [model_slot "threat_model"];
     node_spec "REMEDIATE" CommandGreen Inline ["STATIC"; "THREAT_REVIEW"] [];
     node_spec "VERIFY" (AllOfN 2) FanOut ["REMEDIATE"]
       [daemon_slot "tests"; daemon_slot "rescan"];
     node_spec "APPROVE" HumanConfirm Human ["VERIFY"] []].

Definition docs_sweep_template : GraphTemplateSpec :=
  template DOCS_SWEEP_TEMPLATE "INVENTORY"
    [node_spec "INVENTORY" CommandGreen Inline [] [];
     node_spec "GUIDES" CommandGreen Inline ["INVENTORY"] [];
     node_spec "API_DOCS" CommandGreen Inline ["INVENTORY"] [];
     node_spec "LINKS" (AllOfN 1) Inline ["GUIDES"; "API_DOCS"] [daemon_slot "linkcheck"];
     node_spec "REVIEW" (AllOfN 1) Inline ["GUIDES"; "API_DOCS"] [model_slot "editorial"];
     node_spec "PUBLISH" HumanConfirm Human ["LINKS"; "REVIEW"] []].

Definition implement_verify_child_template : GraphTemplateSpec :=
  template IMPLEMENT_VERIFY_CHILD_TEMPLATE "IMPLEMENT"
    [node_spec "IMPLEMENT" (AllOfN 1) Inline []
       [mkEvidenceSlotSpec "mutation" ModelAttested SelWorkspaceRevision];
     node_spec "VERIFY" (AllOfN 1) Inline ["IMPLEMENT"] [daemon_slot "verification"]].

Definition deeper_child_template : GraphTemplateSpec :=
  template DEEPER_CHILD_TEMPLATE "PLAN"
    [node_spec "PLAN" (AllOfN 1) Inline [] [model_slot "plan"];
     node_spec "IMPLEMENT" (AllOfN 1) Inline ["PLAN"]
       [mkEvidenceSlotSpec "mutation" ModelAttested SelWorkspaceRevision];
     node_spec "VERIFY" (AllOfN 1) FanOut ["IMPLEMENT"] [daemon_slot "verification"];
     node_spec "REVIEW" (AllOfN 1) Inline ["VERIFY"] [model_slot "review"]].

Record BuiltInWorkflowCatalogEntry := mkCatalogEntry {
  ce_template : GraphTemplateSpec;
  ce_main_session_eligible : bool
}.

Definition built_in_workflow_catalog : list BuiltInWorkflowCatalogEntry :=
  (map (fun template => mkCatalogEntry template true)
     [ship_loop_template; super_ship_loop_template; staggered_template; sec_audit_template;
      docs_sweep_template]
   ++ map (fun template => mkCatalogEntry template false)
        [implement_verify_child_template; deeper_child_template])%list.

Definition graph_template_catalog : list GraphTemplateSpec :=
  map ce_template (filterb ce_main_session_eligible built_in_workflow_catalog).

Definition graph_template (name : string) : option GraphTemplateSpec :=
  if bool_decide (name = IMPLEMENT_VERIFY_CHILD_TEMPLATE) then Some implement_verify_child_template
  else if bool_decide (name = DEEPER_CHILD_TEMPLATE) then Some deeper_child_template
  else find (fun t => bool_decide (tpl_name t = name)) graph_template_catalog.

(** ** Gate structure (the child-template cache key) *)

(** [{:?}] of the derived [Debug] instances. *)
Definition authority_debug (a : EvidenceAuthority) : string :=
  match a with DaemonVerified => "DaemonVerified" | ModelAttested => "ModelAttested" end.

Definition selector_debug (s : SubjectSelector) : string :=
  match s with
  | SelWorkspaceRevision => "WorkspaceRevision"
  | SelCommand => "Command"
  | SelFreeform => "Freeform"
  end.

Definition node_gate_structure (node : GraphNodeSpec) : string :=
  let gate := match spec_gate node with
              | CommandGreen => "command-green"
              | AllOfN n => "all-of-" ++ pretty n
              | HumanConfirm => "human-confirm"
              end in
  let slots := join "," (map (fun slot => authority_debug (slot_authority slot) ++ ":" ++
                                selector_debug (slot_subject_selector slot))
                           (spec_verify_slots node)) in
  gate ++ "[" ++ slots ++ "]".

Definition child_gate_structure (t : GraphTemplateSpec) : string :=
  join ">" (map node_gate_structure (tpl_nodes t)).

(** ** Digests

    [serde_json::to_vec] is serde's: the bytes of a template and of the pair
    [ship_loop_digest] hashes are parameters. *)
Class TemplateJson := {
  template_json : GraphTemplateSpec -> string;
  named_nodes_json : string -> list GraphNodeSpec -> string
}.

Section TemplateDigests.
Context `{Blake3} `{TemplateJson}.

Definition ship_loop_digest : string :=
  blake3_hex (named_nodes_json SHIP_LOOP_TEMPLATE ship_loop_nodes).

Definition graph_template_digest (t : GraphTemplateSpec) : string :=
  if bool_decide (t = ship_loop_template) then ship_loop_digest
  else blake3_hex (template_json t).
End TemplateDigests.
