(* ===== verification/TemplateOrder.v ===== *)
(** * The topological sweep of template validation

    [topological_visits] counts the nodes Kahn's loop visits.  On a template
    whose names are distinct and whose dependency lists are duplicate free and
    closed, the loop terminates within one step per node and visits all of
    them exactly when the dependency relation has no cycle. *)

From S2P Require Import Prelude RustStr Worklist GraphTypes GraphTemplate.

Section Order.
Variable specs : list GraphNodeSpec.

Definition names : list GraphNodeName := map spec_name specs.
Definition deps (x : GraphNodeName) : list GraphNodeName := dependencies_of specs x.

(** [d] is a direct dependency of [x]. *)
Definition needs (x d : GraphNodeName) : Prop := d ∈ deps x.

Hypothesis names_distinct : NoDup names.

Lemma dependencies_of_spec spec : spec ∈ specs -> deps (spec_name spec) = spec_depends_on spec.
Proof.
  intros Hs. unfold deps, dependencies_of.
  destruct (find_is_some (fun s => bool_decide (spec_name s = spec_name spec)) specs spec)
    as [s Hf]; [done|by guards|].
  rewrite Hf. apply find_some_iff in Hf as [Hin Hn]. guards. f_equal.
  apply list_elem_of_lookup in Hin as [i Hi], Hs as [j Hj].
  assert (i = j) as ->; [|congruence].
  eapply (NoDup_lookup names); [done|unfold names; by rewrite list_lookup_fmap, Hi|].
  unfold names. rewrite list_lookup_fmap, Hj. simpl. by f_equal.
Qed.

Lemma deps_names x d : needs x d -> x ∈ names.
Proof.
  unfold needs, deps, dependencies_of. destruct (find _ specs) as [s|] eqn:Hf; [|set_solver].
  intros _. apply find_some_iff in Hf as [Hin Hn]. guards. subst.
  apply list_elem_of_fmap. eauto.
Qed.

Lemma dependents_elem x y : y ∈ dependents specs x <-> needs y x.
Proof.
  unfold dependents. rewrite list_elem_of_fmap. setoid_rewrite filterb_elem.
  setoid_rewrite existsb_elem. split.
  - intros (s & -> & Hs & d & Hd & E). guards. subst. unfold needs.
    by rewrite dependencies_of_spec.
  - intros Hn. pose proof (deps_names y x Hn) as Hy. unfold names in Hy.
    apply list_elem_of_fmap in Hy as (s & -> & Hs). exists s. split_and!; [done|done|].
    exists x. unfold needs in Hn. rewrite dependencies_of_spec in Hn by done.
    split; [done|by guards].
Qed.

Lemma dependents_NoDup x : NoDup (dependents specs x).
Proof.
  unfold dependents. clear -names_distinct. unfold names in names_distinct. revert names_distinct.
  induction specs as [|s l IH]; simpl; [constructor|]. intros [Hs Hl]%NoDup_cons.
  case_match; simpl; [|by apply IH]. apply NoDup_cons. split; [|by apply IH].
  intros (s' & E & Hs')%list_elem_of_fmap. apply filterb_elem in Hs' as [Hs' _].
  apply Hs. rewrite E. apply list_elem_of_fmap. eauto.
Qed.

(** ** One release *)

Definition reaches_zero (ind : gmap GraphNodeName nat) (d : GraphNodeName) : bool :=
  match ind !! d with Some c => (c - 1 =? 0)%nat | None => false end.

Lemma release_spec ds ind q :
  NoDup ds ->
  (release ds ind q).2 = q ++ filterb (reaches_zero ind) ds /\
  forall y, (release ds ind q).1 !! y =
    if bool_decide (y ∈ ds) then (fun c => c - 1) <$> ind !! y else ind !! y.
Proof.
  revert ind q. induction ds as [|d ds IH]; intros ind q; simpl.
  { intros _. by rewrite app_nil_r. }
  intros [Hd Hds]%NoDup_cons.
  assert (reaches_zero ind d = match ind !! d with Some c => (c - 1 =? 0)%nat | None => false end)
    as -> by done.
  destruct (ind !! d) as [c|] eqn:Hc.
  - destruct (IH (<[d := c - 1]> ind) (if (c - 1 =? 0)%nat then q ++ [d] else q) Hds) as [Hq Hl].
    split.
    + rewrite Hq. assert (filterb (reaches_zero (<[d := c - 1]> ind)) ds =
        filterb (reaches_zero ind) ds) as ->.
      { apply filter_ext_in. intros y Hy%list_elem_of_In. unfold reaches_zero.
        rewrite lookup_insert_ne by (by intros ->). done. }
      destruct (c - 1 =? 0)%nat; [by rewrite <- app_assoc|done].
    + intros y. rewrite Hl. destruct (decide (y = d)) as [->|Hne].
      * rewrite bool_decide_false by done. rewrite bool_decide_true by set_solver.
        by rewrite lookup_insert_eq, Hc.
      * rewrite lookup_insert_ne by done.
        destruct (decide (y ∈ ds)); [rewrite !bool_decide_true by set_solver; done|].
        by rewrite !bool_decide_false by set_solver.
  - destruct (IH ind q Hds) as [Hq Hl]. split; [done|]. intros y. rewrite Hl.
    destruct (decide (y = d)) as [->|Hne].
    + rewrite bool_decide_false by done. rewrite bool_decide_true by set_solver. by rewrite Hc.
    + destruct (decide (y ∈ ds)); [rewrite !bool_decide_true by set_solver; done|].
      by rewrite !bool_decide_false by set_solver.
Qed.

(** ** The loop invariant *)

Hypothesis deps_distinct : forall x, NoDup (deps x).
Hypothesis deps_closed : forall x d, needs x d -> d ∈ names.

(** Dependencies of [y] outside [P]. *)
Definition pending (P : list GraphNodeName) (y : GraphNodeName) : nat :=
  length (filter (.∉ P) (deps y)).

Record sweep_inv (P Q : list GraphNodeName) (ind : gmap GraphNodeName nat) : Prop := {
  sw_nodup : NoDup (P ++ Q);
  sw_names : forall y, y ∈ P ++ Q -> y ∈ names;
  sw_count : forall y, y ∈ names -> ind !! y = Some (pending P y);
  sw_ready : forall y, y ∈ names -> y ∈ P ++ Q <-> forall d, needs y d -> d ∈ P;
  sw_order : forall i y, P !! i = Some y -> forall d, needs y d -> exists j, j < i /\ P !! j = Some d
}.

Lemma pending_zero P y : pending P y = 0 <-> forall d, needs y d -> d ∈ P.
Proof.
  unfold pending, needs. split.
  - intros E%nil_length_inv d Hd. destruct (decide (d ∈ P)); [done|].
    assert (d ∈ filter (.∉ P) (deps y)) as Hin by (by apply list_elem_of_filter).
    rewrite E in Hin. set_solver.
  - intros Hall. destruct (filter (.∉ P) (deps y)) as [|d l] eqn:E; [done|].
    assert (d ∈ filter (.∉ P) (deps y)) as [Hd Hin]%list_elem_of_filter by (rewrite E; set_solver).
    by destruct Hd; apply Hall.
Qed.

Lemma pending_snoc P x y :
  x ∉ P -> pending P y = (if bool_decide (x ∈ deps y) then 1 else 0) + pending (P ++ [x]) y.
Proof.
  intros Hx. unfold pending, needs. generalize (deps_distinct y).
  induction (deps y) as [|d l IH]; simpl; intros Hnd.
  { done. }
  apply NoDup_cons in Hnd as [Hd Hnd]. specialize (IH Hnd). rewrite !filter_cons.
  destruct (decide (d = x)) as [->|Hne].
  - rewrite decide_True by done. rewrite decide_False by set_solver.
    rewrite bool_decide_false in IH by done. rewrite bool_decide_true by set_solver. simpl. lia.
  - assert (bool_decide (x ∈ d :: l) = bool_decide (x ∈ l)) as ->.
    { apply bool_decide_ext. set_solver. }
    destruct (decide (d ∉ P)); [rewrite decide_True by set_solver|rewrite decide_False by set_solver];
      simpl; lia.
Qed.

Lemma sweep_step P x Q ind :
  sweep_inv P (x :: Q) ind ->
  sweep_inv (P ++ [x]) (release (dependents specs x) ind Q).2
    (release (dependents specs x) ind Q).1.
Proof.
  intros [Hnd Hnm Hct Hrd Hor]. destruct (release_spec (dependents specs x) ind Q) as [Hq Hl].
  { apply dependents_NoDup. }
  rewrite Hq. set (new := filterb _ _).
  assert ((x ∉ P) /\ (forall y, y ∈ Q -> y <> x)) as [HxP HxQ].
  { apply NoDup_app in Hnd as (_ & Hd & Hq'). apply NoDup_cons in Hq' as [? _]. set_solver. }
  assert (forall y, y ∈ new <-> needs y x /\ pending (P ++ [x]) y = 0) as Hnew.
  { intros y. unfold new. rewrite filterb_elem, dependents_elem. unfold reaches_zero.
    split; intros [Hy Hz]; (split; [done|]).
    - rewrite (Hct y), (pending_snoc P x y) in Hz by (done || by eapply deps_names).
      rewrite bool_decide_true in Hz by done. apply Nat.eqb_eq in Hz. lia.
    - rewrite (Hct y), (pending_snoc P x y) by (done || by eapply deps_names).
      rewrite bool_decide_true by done. apply Nat.eqb_eq. lia. }
  assert (forall y, needs y x -> y ∉ P ++ x :: Q) as Hout.
  { intros y Hy Hin. apply HxP. apply (Hrd y); [by eapply deps_names|done|done]. }
  assert (forall y, y ∈ (P ++ [x]) ++ Q ++ new <-> y ∈ P ++ x :: Q \/ y ∈ new) as Hmem.
  { intros y. rewrite !elem_of_app, !elem_of_cons. pose proof (not_elem_of_nil y). tauto. }
  split.
  - rewrite <- (assoc_L (++)). simpl. rewrite app_comm_cons, (assoc_L (++)).
    apply NoDup_app. split_and!; [done| |apply filterb_NoDup, dependents_NoDup].
    intros y Hy [Hn _]%Hnew. by apply (Hout y).
  - intros y [Hy|[Hy _]%Hnew]%Hmem; [auto|by eapply deps_names].
  - intros y Hy. rewrite Hl, (Hct y Hy), (pending_snoc P x y HxP).
    destruct (decide (x ∈ deps y)) as [Hn|Hn].
    + rewrite !bool_decide_true by (done || by apply dependents_elem). simpl. f_equal. lia.
    + rewrite !bool_decide_false by (done || by rewrite dependents_elem). done.
  - intros y Hy. rewrite Hmem, Hnew, (Hrd y Hy), pending_zero.
    split; [set_solver|]. intros Hall.
    destruct (decide (x ∈ deps y)); [by right|]. left. intros d Hd.
    specialize (Hall d Hd). apply elem_of_app in Hall as [?|Hx]; [done|].
    by apply list_elem_of_singleton in Hx as ->.
  - intros i y Hi d Hd. apply lookup_app_Some in Hi as [Hi|[Hlen Hi]].
    + destruct (Hor i y Hi d Hd) as (j & Hj & Hjd). exists j. split; [done|].
      by apply lookup_app_l_Some.
    + apply list_lookup_singleton_Some in Hi as [Hi <-].
      assert (d ∈ P) as [j Hj]%list_elem_of_lookup.
      { apply (Hrd x); [apply Hnm; set_solver|set_solver|done]. }
      exists j. apply lookup_lt_Some in Hj as ?. split; [lia|]. by apply lookup_app_l_Some.
Qed.
(** ** The start of the loop *)

Lemma indegrees_lookup y : y ∈ names -> indegrees specs !! y = Some (length (deps y)).
Proof.
  unfold names. intros (s & -> & Hs)%list_elem_of_fmap. rewrite dependencies_of_spec by done.
  unfold indegrees. unfold names in names_distinct. clear deps_closed deps_distinct.
  revert Hs names_distinct. generalize (∅ : gmap GraphNodeName nat) as m.
  induction specs as [|s' l IH]; intros m Hs; [set_solver|]. simpl.
  intros [Hn Hnd]%NoDup_cons. apply elem_of_cons in Hs as [->|Hs]; [|by apply IH].
  assert (forall l m x, (x ∉ map spec_name l) -> foldl (fun (m : gmap GraphNodeName nat) spec =>
    <[spec_name spec := length (spec_depends_on spec)]> m) m l !! x = m !! x) as Hskip.
  { clear. induction l as [|s l IH]; intros m x Hx; simpl; [done|].
    rewrite IH by set_solver. apply lookup_insert_ne. set_solver. }
  by rewrite Hskip, lookup_insert_eq.
Qed.

Lemma roots_elem y : y ∈ roots specs <-> y ∈ names /\ forall d, ~ needs y d.
Proof.
  unfold roots, names. rewrite !list_elem_of_fmap. setoid_rewrite filterb_elem. split.
  - intros (s & -> & Hs & E). guards. split; [eauto|]. intros d. unfold needs.
    rewrite dependencies_of_spec, E by done. set_solver.
  - intros [(s & -> & Hs) Hd]. exists s. split_and!; [done|done|]. guards.
    unfold needs in Hd. rewrite dependencies_of_spec in Hd by done.
    destruct (spec_depends_on s) as [|d l]; [done|]. by destruct (Hd d); set_solver.
Qed.

Lemma roots_NoDup : NoDup (roots specs).
Proof.
  unfold roots. unfold names in names_distinct. clear deps_distinct deps_closed.
  revert names_distinct. induction specs as [|s l IH]; simpl; [constructor|].
  intros [Hs Hl]%NoDup_cons. case_match; simpl; [|by apply IH]. apply NoDup_cons.
  split; [|by apply IH]. intros (s' & E & Hs')%list_elem_of_fmap.
  apply filterb_elem in Hs' as [Hs' _]. apply Hs. rewrite E. apply list_elem_of_fmap. eauto.
Qed.

Lemma sweep_start : sweep_inv [] (roots specs) (indegrees specs).
Proof.
  split; simpl.
  - apply roots_NoDup.
  - by intros y [? _]%roots_elem.
  - intros y Hy. rewrite indegrees_lookup by done. f_equal. unfold pending.
    induction (deps y) as [|d l IH]; [done|]. rewrite filter_cons_True by set_solver. simpl.
    by f_equal.
  - intros y Hy. rewrite roots_elem. setoid_rewrite elem_of_nil. naive_solver.
  - intros i y Hi. by rewrite lookup_nil in Hi.
Qed.

(** ** The whole loop *)

Lemma kahn_runs fuel P Q ind :
  sweep_inv P Q ind -> length names <= length P + fuel ->
  exists P' ind', kahn specs fuel Q ind (length P) = Some (length P') /\ sweep_inv P' [] ind'.
Proof.
  revert P Q ind. induction fuel as [|fuel IH]; intros P Q ind Hsw Hf; destruct Q as [|x Q]; simpl.
  1,3: by exists P, ind.
  - exfalso. pose proof (sw_nodup _ _ _ Hsw) as Hnd.
    assert (length (P ++ x :: Q) <= length names) as Hle.
    { apply (submseteq_length), NoDup_submseteq; [done|apply Hsw]. }
    rewrite length_app in Hle. simpl in Hle. lia.
  - apply sweep_step in Hsw. destruct (release (dependents specs x) ind Q) as [ind1 Q1].
    destruct (IH (P ++ [x]) Q1 ind1) as (P' & ind' & Hk & Hsw'); [done|rewrite length_app; simpl; lia|].
    exists P', ind'. split; [|done]. rewrite length_app, Nat.add_comm in Hk. exact Hk.
Qed.

(** A final state with every node visited, or with a cycle left over. *)
Lemma sweep_order_acyclic P ind :
  sweep_inv P [] ind -> (forall y, y ∈ names -> y ∈ P) -> forall x, ~ tc needs x x.
Proof.
  intros Hsw Hall x Hx.
  assert (forall x y, tc needs x y -> forall i, P !! i = Some x ->
    exists j, j < i /\ P !! j = Some y) as Hdown.
  { clear x Hx. induction 1 as [x y Hxy|x z y Hxz _ IH]; intros i Hi.
    - by eapply (sw_order _ _ _ Hsw).
    - destruct (sw_order _ _ _ Hsw i x Hi z Hxz) as (k & Hk & Hz).
      destruct (IH k Hz) as (j & Hj & Hy). exists j. split; [lia|done]. }
  assert (x ∈ names) as Hn by (inversion Hx; subst; by eapply deps_names).
  apply Hall, list_elem_of_lookup in Hn as [i Hi].
  destruct (Hdown x x Hx i Hi) as (j & Hj & Hjx).
  pose proof (sw_nodup _ _ _ Hsw) as Hnd. rewrite app_nil_r in Hnd.
  pose proof (NoDup_lookup _ _ _ _ Hnd Hi Hjx). lia.
Qed.

Lemma tc_needs_names x y : tc needs x y -> y ∈ names.
Proof. induction 1 as [x y Hxy|]; [by eapply deps_closed|done]. Qed.

Lemma acyclic_sweep_all P ind :
  sweep_inv P [] ind -> (forall x, ~ tc needs x x) -> forall y, y ∈ names -> y ∈ P.
Proof.
  intros Hsw Hac y Hy.
  assert (sn needs y) as Hsn.
  { apply tc_finite_sn; [done|]. exists names. intros z.
    apply tc_needs_names. }
  induction Hsn as [y _ IH]. pose proof (sw_ready _ _ _ Hsw y Hy) as Hr.
  rewrite app_nil_r in Hr. apply Hr. intros d Hd. apply IH; [done|by eapply deps_closed].
Qed.

(** The sweep terminates, and visits every node exactly when the dependency
    relation has no cycle. *)
Lemma topological_visits_spec :
  exists v, topological_visits specs = Some v /\
    (v = length specs <-> forall x, ~ tc needs x x).
Proof.
  destruct (kahn_runs (length specs) [] (roots specs) (indegrees specs)) as (P & ind & Hk & Hsw).
  { apply sweep_start. }
  { unfold names. rewrite length_map. simpl. lia. }
  exists (length P). split; [exact Hk|].
  pose proof (sw_nodup _ _ _ Hsw) as Hnd. pose proof (sw_names _ _ _ Hsw) as Hnm.
  rewrite app_nil_r in Hnd, Hnm. replace (length specs) with (length names) by apply length_map.
  assert (P ⊆+ names) as Hsub by (by apply NoDup_submseteq). split.
  - intros Hlen. eapply sweep_order_acyclic; [done|]. intros y Hy.
    apply (submseteq_length_Permutation) in Hsub; [by rewrite Hsub|lia].
  - intros Hac. apply Permutation_length, NoDup_Permutation; [done|done|]. intros y.
    split; [apply Hnm|]. by eapply acyclic_sweep_all.
Qed.

End Order.
