(* ===== verification/TemplateProps.v ===== *)
(** * What template validation accepts

    [template_ok] states the contract of a template declaratively, as a graph;
    [validate_graph_template] accepts exactly the templates that satisfy it,
    the release catalogue does, and lookups by name return it. *)

From S2P Require Import Prelude RustStr Digest Worklist GraphTypes GraphTemplate TemplateOrder.
From S2P Require Import ActivationGraph.

Local Open Scope string_scope.

(** ** The contract *)

Record node_spec_ok (specs : list GraphNodeSpec) (node : GraphNodeSpec) : Prop := {
  ns_attempts : (0 < spec_max_attempts node <= GRAPH_MAX_ATTEMPTS)%N;
  ns_evidence : forall limit, spec_max_evidence_per_attempt node = Some limit ->
    (0 < limit <= GRAPH_MAX_EVIDENCE_PER_ATTEMPT)%N;
  ns_deps : forall d, d ∈ spec_depends_on node -> d ∈ names specs;
  ns_deps_distinct : NoDup (spec_depends_on node);
  ns_red : forall target, spec_red_target node = Some target ->
    target ∈ names specs /\ is_human_gate (spec_gate node) = false /\
    rtc (needs specs) (spec_name node) target;
  ns_slots : forall slot, slot ∈ spec_verify_slots node -> slot_id_rejected (slot_id slot) = false;
  ns_slots_distinct : NoDup (map slot_id (spec_verify_slots node));
  ns_gate : match spec_gate node with
    | AllOfN n => n <> 0%N /\ (spec_verify_slots node = [] \/
        n = u32_of_usize (length (spec_verify_slots node)))
    | HumanConfirm => spec_executor node = Human /\ spec_max_evidence_per_attempt node = None /\
        spec_verify_slots node = []
    | CommandGreen => True
    end
}.

Record template_ok (t : GraphTemplateSpec) : Prop := {
  to_header : template_header_rejected t = false;
  to_names : NoDup (names (tpl_nodes t));
  to_edges : (N.of_nat (edge_total (tpl_nodes t)) <= GRAPH_MAX_EDGES)%N;
  to_slots : (N.of_nat (sum_list_with (fun n => length (spec_verify_slots n)) (tpl_nodes t))
                <= GRAPH_MAX_SLOTS)%N;
  to_nodes : forall node, node ∈ tpl_nodes t -> node_spec_ok (tpl_nodes t) node;
  to_acyclic : forall x, ~ tc (needs (tpl_nodes t)) x x;
  to_start : exists start, tpl_start_node t = Some start /\ start ∈ names (tpl_nodes t) /\
    (forall d, ~ needs (tpl_nodes t) start d) /\
    forall x, x ∈ names (tpl_nodes t) -> rtc (needs (tpl_nodes t)) x start
}.

(** ** The checks, one by one *)

Lemma check_unique_names_ok seen l r :
  check_unique_names seen l = Ok r <->
  NoDup (map spec_name l) /\ (forall x, x ∈ map spec_name l -> x ∉ seen) /\
  r = list_to_set (map spec_name l) ∪ seen.
Proof.
  revert seen. induction l as [|s l IH]; intros seen; simpl.
  - split; [intros [= <-]; split_and!; [constructor|set_solver|set_solver]|].
    intros (_ & _ & ->). f_equal. set_solver.
  - case_bool_decide as Hs.
    + split; [done|]. intros (_ & Hd & _). exfalso. apply (Hd (spec_name s)); set_solver.
    + rewrite IH, NoDup_cons. split.
      * intros (Hnd & Hd & ->). split_and!; [set_solver|done|set_solver|set_solver].
      * intros ((Hn & Hnd) & Hd & ->). split_and!; [done|set_solver|set_solver].
Qed.

Lemma checked_total_spec total l :
  (total <= u64_max)%N ->
  match checked_total total l with
  | Some c => c = (total + N.of_nat (sum_list l))%N
  | None => (u64_max < total + N.of_nat (sum_list l))%N
  end.
Proof.
  revert total. induction l as [|n l IH]; intros total Ht; simpl; [lia|].
  unfold checked_add_u64. destruct (N.leb_spec (total + N.of_nat n) u64_max) as [Hle|Hgt]; simpl.
  - specialize (IH _ Hle). destruct (checked_total _ _); lia.
  - lia.
Qed.

Lemma over_ceiling_false c l :
  (c <= u64_max)%N -> over_ceiling c l = false <-> (N.of_nat (sum_list l) <= c)%N.
Proof.
  intros Hc. unfold over_ceiling. pose proof (checked_total_spec 0 l ltac:(done)) as Hs.
  destruct (checked_total 0 l) as [k|]; [rewrite N.ltb_ge; lia|]. split; [done|lia].
Qed.

Lemma sum_list_map {A} (f : A -> nat) l : sum_list (map f l) = sum_list_with f l.
Proof. induction l; simpl; lia. Qed.

Lemma check_dependencies_ok ns node seen l :
  check_dependencies ns node seen l = Ok tt <->
  (forall d, d ∈ l -> d ∈ ns /\ d ∉ seen) /\ NoDup l.
Proof.
  revert seen. induction l as [|d l IH]; intros seen; simpl.
  - split; [intros _; split; [set_solver|constructor]|done].
  - rewrite result_bind_ok, NoDup_cons. setoid_rewrite result_bind_ok.
    setoid_rewrite reject_if_ok. setoid_rewrite IH. split.
    + intros (_ & Hd & _ & Hs & Hl & Hnd). apply negb_false_iff, bool_decide_eq_true in Hd.
      apply bool_decide_eq_false in Hs. split_and!; [|by intros [_ ?]%Hl; set_solver|done].
      intros x [->|Hx]%elem_of_cons; [done|]. apply Hl in Hx. set_solver.
    + intros (Hl & Hn & Hnd). destruct (Hl d) as [? ?]; [by left|].
      exists tt. split; [by rewrite bool_decide_true|]. exists tt.
      split_and!; [by rewrite bool_decide_false| |done].
      intros x Hx. destruct (Hl x) as [? ?]; [by right|]. set_solver.
Qed.

Lemma check_slots_ok node seen l :
  check_slots node seen l = Ok tt <->
  (forall s, s ∈ l -> slot_id_rejected (slot_id s) = false) /\
  (forall x, x ∈ map slot_id l -> x ∉ seen) /\ NoDup (map slot_id l).
Proof.
  revert seen. induction l as [|s l IH]; intros seen; simpl.
  - split; [intros _; split_and!; [set_solver|set_solver|constructor]|done].
  - rewrite result_bind_ok, NoDup_cons. setoid_rewrite reject_if_ok. setoid_rewrite IH. split.
    + intros (_ & [Hr Hs%bool_decide_eq_false]%orb_false_iff & Hl & Hd & Hnd).
      split_and!; [| |by intros ?%Hd; set_solver|done].
      * intros s' [->|?]%elem_of_cons; auto.
      * intros x [->|Hx]%elem_of_cons; [done|]. apply Hd in Hx. set_solver.
    + intros (Hl & Hd & Hn & Hnd). exists tt. split_and!.
      * apply orb_false_iff. split; [apply Hl; by left|]. apply bool_decide_eq_false, Hd. by left.
      * intros s' Hs'. apply Hl. by right.
      * intros x Hx. pose proof (Hd x ltac:(by right)). set_solver.
      * done.
Qed.

(** ** The traversals *)

Section Traversals.
Context (specs : list GraphNodeSpec) (Hnd : NoDup (names specs)).

Lemma weight_total :
  weight (dependencies_of specs) (list_to_set (names specs)) ∅ = edge_total specs.
Proof.
  unfold weight. replace (list_to_set (names specs) ∖ ∅) with
    (list_to_set (names specs) : gset string) by set_solver.
  rewrite (elements_list_to_set _ Hnd).
  unfold edge_total, names.
  assert (forall s, s ∈ specs -> dependencies_of specs (spec_name s) = spec_depends_on s) as Hs.
  { intros s. by apply dependencies_of_spec. }
  revert Hs. generalize specs at 1 4 5. intros l. induction l as [|s l IH]; intros Hs; [done|].
  simpl. rewrite Hs, IH by set_solver. done.
Qed.

Lemma deps_unknown x : x ∉ (list_to_set (names specs) : gset string) -> dependencies_of specs x = [].
Proof.
  rewrite elem_of_list_to_set. intros Hx. destruct (dependencies_of specs x) as [|d l] eqn:E; [done|].
  exfalso. apply Hx, (deps_names specs Hnd x d). unfold needs, deps. rewrite E. set_solver.
Qed.

Lemma length_deps_le x : length (dependencies_of specs x) <= edge_total specs.
Proof.
  unfold dependencies_of. destruct (find _ specs) as [s|] eqn:E; [|simpl; lia].
  apply find_some_iff in E as [Hs _]. unfold edge_total. clear Hnd.
  induction specs as [|s' l IH]; [set_solver|]. simpl.
  apply elem_of_cons in Hs as [->|Hs]; [lia|]. specialize (IH Hs). lia.
Qed.

Lemma ancestors_spec x y :
  y ∈ graph_dependency_ancestors specs x <-> tc (needs specs) x y.
Proof.
  unfold graph_dependency_ancestors.
  destruct (bfs_pop_total (dependencies_of specs) (list_to_set (names specs))
    (edge_total specs + edge_total specs) (dependencies_of specs x) ∅ deps_unknown) as [r Hr].
  { rewrite weight_total. pose proof (length_deps_le x). lia. }
  rewrite Hr. simpl. split.
  - revert y. apply (bfs_pop_sound (dependencies_of specs) (tc (needs specs) x)) with (4 := Hr).
    + intros a b Ha Hb. eapply tc_r; [done|exact Hb].
    + intros z Hz. by constructor.
    + set_solver.
  - apply bfs_pop_spec in Hr as (_ & Hq & Hc); [|set_solver].
    assert (forall a b, tc (needs specs) a b -> a = x \/ a ∈ r -> b ∈ r) as Htc.
    { induction 1 as [a b Hab|a b c Hab _ IH]; intros [->|Ha].
      - by apply Hq.
      - by eapply Hc.
      - apply IH. right. by apply Hq.
      - apply IH. right. by eapply Hc. }
    intros Hy. eapply Htc; [done|by left].
Qed.

Lemma reachable_spec start x :
  x ∈ template_reachable specs start <-> rtc (needs specs) x start.
Proof.
  unfold template_reachable.
  destruct (bfs_total (dependents specs) (list_to_set (names specs)) (S (length specs)) [start]
    {[start]}) as [r Hr].
  - intros a b Hb%dependents_elem; [|done]. rewrite elem_of_list_to_set. by eapply deps_names.
  - simpl. apply le_n_S. transitivity (size (list_to_set (names specs) : gset string)).
    + apply subseteq_size. set_solver.
    + etrans; [apply size_list_to_set_le|]. unfold names. by rewrite length_map.
  - rewrite Hr. simpl. rewrite (bfs_reach _ _ _ _ Hr). clear Hr. unfold reach, edge. split.
    + induction 1 as [|a b c Hab _ IH]; [done|]. eapply rtc_r; [exact IH|]. by apply dependents_elem.
    + induction 1 as [|a b c Hab _ IH]; [done|]. eapply rtc_r; [exact IH|]. by apply dependents_elem.
Qed.
End Traversals.

(** ** One node *)

Lemma check_gate_ok node :
  check_gate node = Ok tt <->
  match spec_gate node with
  | AllOfN n => n <> 0%N /\ (spec_verify_slots node = [] \/
      n = u32_of_usize (length (spec_verify_slots node)))
  | HumanConfirm => spec_executor node = Human /\ spec_max_evidence_per_attempt node = None /\
      spec_verify_slots node = []
  | CommandGreen => True
  end.
Proof.
  unfold check_gate. destruct (spec_gate node); [done|..]; rewrite reject_if_ok.
  - autorewrite with guards. tauto.
  - rewrite !orb_false_iff, !negb_false_iff, !bool_decide_eq_true, bool_decide_eq_false.
    rewrite <- eq_None_not_Some. tauto.
Qed.

Lemma check_red_target_ok specs node :
  NoDup (names specs) ->
  check_red_target specs (list_to_set (names specs)) node = Ok tt <->
  forall target, spec_red_target node = Some target ->
    target ∈ names specs /\ is_human_gate (spec_gate node) = false /\
    rtc (needs specs) (spec_name node) target.
Proof.
  intros Hnd. unfold check_red_target. destruct (spec_red_target node) as [x|]; [|naive_solver].
  assert (rtc (needs specs) (spec_name node) x <->
    x = spec_name node \/ tc (needs specs) (spec_name node) x) as Hrtc.
  { rewrite rtc_tc. naive_solver. }
  rewrite result_bind_ok. setoid_rewrite result_bind_ok. setoid_rewrite reject_if_ok.
  setoid_rewrite andb_false_iff. setoid_rewrite negb_false_iff.
  setoid_rewrite bool_decide_eq_true. setoid_rewrite elem_of_list_to_set.
  setoid_rewrite (ancestors_spec specs Hnd). split.
  - intros (_ & Hx & _ & Hh & Hr) target [= <-]. rewrite Hrtc. done.
  - intros Hall. destruct (Hall x eq_refl) as (Hx & Hh & Hr). rewrite Hrtc in Hr.
    exists tt. split; [done|]. by exists tt.
Qed.

Lemma check_template_node_ok specs node :
  NoDup (names specs) ->
  check_template_node specs (list_to_set (names specs)) node = Ok tt <-> node_spec_ok specs node.
Proof.
  intros Hnd. unfold check_template_node. split.
  - intros Hc. repeat match goal with
      | E : result_bind _ _ = Ok _ |- _ =>
          apply result_bind_ok in E as ([] & ? & ?)
      end.
    repeat match goal with E : reject_if _ _ = Ok _ |- _ => apply reject_if_ok in E end.
    match goal with E : check_dependencies _ _ _ _ = _ |- _ =>
      apply check_dependencies_ok in E as [? ?] end.
    match goal with E : check_slots _ _ _ = _ |- _ => apply check_slots_ok in E as (? & _ & ?) end.
    match goal with E : check_red_target _ _ _ = _ |- _ =>
      rewrite (check_red_target_ok _ _ Hnd) in E end.
    match goal with E : check_gate _ = _ |- _ => apply check_gate_ok in E end.
    split; try done.
    + guards. lia.
    + intros limit E. rewrite E in *. guards. lia.
    + intros d Hd. match goal with F : forall d, d ∈ _ -> _ /\ _ |- _ => apply F in Hd as [Hd _] end.
      by apply elem_of_list_to_set in Hd.
  - intros [Hat Hev Hd Hdd Hr Hs Hsd Hg].
    rewrite (proj2 (reject_if_ok _ _ tt)); [simpl|guards; lia].
    rewrite (proj2 (reject_if_ok _ _ tt)); [simpl|].
    2:{ destruct (spec_max_evidence_per_attempt node) as [limit|]; [|done].
        specialize (Hev limit eq_refl). guards. lia. }
    rewrite (proj2 (check_dependencies_ok _ _ _ _)); [simpl|].
    2:{ split; [|done]. intros d Hin. split; [by apply elem_of_list_to_set, Hd|set_solver]. }
    rewrite (proj2 (check_red_target_ok _ _ Hnd)) by done. simpl.
    rewrite (proj2 (check_slots_ok _ _ _)); [simpl; by apply check_gate_ok|].
    split_and!; [done|set_solver|done].
Qed.

(** ** The whole template *)

Lemma nodes_deps specs x :
  (forall node, node ∈ specs -> node_spec_ok specs node) ->
  NoDup (deps specs x) /\ forall d, needs specs x d -> d ∈ names specs.
Proof.
  intros Hns. unfold needs, deps, dependencies_of.
  destruct (find _ specs) as [s|] eqn:E; [|split; [constructor|set_solver]].
  apply find_some_iff in E as [Hs _]. destruct (Hns s Hs). done.
Qed.

Lemma topological_decides specs :
  NoDup (names specs) -> (forall node, node ∈ specs -> node_spec_ok specs node) ->
  exists v, topological_visits specs = Some v /\
    (v = length specs <-> forall x, ~ tc (needs specs) x x).
Proof.
  intros Hnd Hns. apply topological_visits_spec; [done|..]; intros x; by apply nodes_deps.
Qed.

Lemma topological_accepts specs :
  NoDup (names specs) -> (forall node, node ∈ specs -> node_spec_ok specs node) ->
  opt_eqb (topological_visits specs) (Some (length specs)) = true <->
  forall x, ~ tc (needs specs) x x.
Proof.
  intros Hnd Hns. destruct (topological_decides specs Hnd Hns) as (v & Hv & Hiff).
  rewrite Hv, opt_eqb_true, <- Hiff. naive_solver.
Qed.

Lemma validate_graph_template_ok t : validate_graph_template t = Ok tt -> template_ok t.
Proof.
  unfold validate_graph_template. intros Hv.
  repeat match goal with
    | E : result_bind _ _ = Ok _ |- _ =>
        let v := fresh "r" in apply result_bind_ok in E as (v & ? & ?)
    end. res_invert.
  match goal with E : check_unique_names _ _ = _ |- _ =>
    apply check_unique_names_ok in E as (Hnd & _ & ->) end.
  rewrite union_empty_r_L in *.
  match goal with E : tpl_start_node t = Some ?x |- _ => rename x into start, E into Hstart end.
  match goal with E : find _ _ = Some ?x |- _ =>
    rename x into spec; apply find_some_iff in E as [Hspec Hname] end.
  match goal with F : Forall _ (tpl_nodes t) |- _ => rewrite Forall_forall in F; rename F into Hns end.
  assert (forall node, node ∈ tpl_nodes t -> node_spec_ok (tpl_nodes t) node) as Hok.
  { intros node Hn. apply check_template_node_ok; [done|]. by apply Hns. }
  guards. subst start.
  repeat match goal with E : over_ceiling _ _ = false |- _ =>
    apply over_ceiling_false in E; [|done]; rewrite sum_list_map in E end.
  split; try done.
  - apply topological_accepts; [done..|]. by apply opt_eqb_true.
  - exists (spec_name spec). split_and!; [done|apply list_elem_of_fmap; eauto|..].
    + intros d. unfold needs. rewrite dependencies_of_spec by done.
      match goal with E : spec_depends_on spec = [] |- _ => rewrite E end. set_solver.
    + intros x Hx. unfold names in Hx. apply list_elem_of_fmap in Hx as (node & -> & Hn).
      apply reachable_spec; [done|].
      destruct (find _ (tpl_nodes t)) eqn:E; [done|]. rewrite find_none_iff in E.
      specialize (E node Hn). by guards.
Qed.

Lemma validate_graph_template_complete t : template_ok t -> validate_graph_template t = Ok tt.
Proof.
  intros [Hh Hnd He Hs Hns Hac (start & Hst & Hin & Hroot & Hreach)].
  unfold validate_graph_template. rewrite (proj2 (reject_if_ok _ _ tt)) by done. simpl.
  rewrite Hst. simpl.
  assert (check_unique_names ∅ (tpl_nodes t) = Ok (list_to_set (names (tpl_nodes t)))) as ->.
  { apply check_unique_names_ok. split_and!; [done|set_solver|by rewrite union_empty_r_L]. }
  simpl. unfold names in Hin. apply list_elem_of_fmap in Hin as (spec & -> & Hspec).
  destruct (find_is_some (fun node => bool_decide (spec_name node = spec_name spec))
    (tpl_nodes t) spec) as [spec' Hf]; [done|by guards|].
  rewrite Hf. simpl. apply find_some_iff in Hf as [Hspec' Hname]. guards.
  assert (spec_depends_on spec' = []) as Hd.
  { destruct (spec_depends_on spec') as [|d l] eqn:E; [done|]. exfalso. apply (Hroot d).
    unfold needs. rewrite <- Hname, dependencies_of_spec, E by done. set_solver. }
  rewrite Hd. rewrite (proj2 (reject_if_ok _ _ tt)) by (by rewrite bool_decide_true). simpl.
  rewrite (proj2 (reject_if_ok _ _ tt)).
  2:{ apply orb_false_iff. split; (apply over_ceiling_false; [done|]; by rewrite sum_list_map). }
  simpl. rewrite (proj2 (for_each_ok _ _ tt)).
  2:{ apply Forall_forall. intros node Hn. apply check_template_node_ok; auto. }
  simpl. rewrite (proj2 (topological_accepts _ Hnd Hns)) by done. simpl.
  destruct (find _ (tpl_nodes t)) as [node|] eqn:E; [|done].
  apply find_some_iff in E as [Hn Hb]. guards. destruct Hb.
  apply reachable_spec; [done|]. apply Hreach. unfold names. apply list_elem_of_fmap. eauto.
Qed.

(** ** Properties *)

(** C3: [validate_graph_template] accepts exactly the templates that satisfy
    the declarative contract: bounded, distinctly named, closed, acyclic, every
    node reachable from the single declared root, coherent gates, and every
    red target the node itself or an ancestor. *)
Theorem validate_graph_template_iff t : validate_graph_template t = Ok tt <-> template_ok t.
Proof. split; [apply validate_graph_template_ok|apply validate_graph_template_complete]. Qed.

(** the sweep that detects cycles terminates with its static fuel on every
    template that reaches it, and its count is the number of nodes exactly when
    no node transitively depends on itself. *)
Theorem topological_sweep_decides t :
  NoDup (names (tpl_nodes t)) ->
  (forall node, node ∈ tpl_nodes t -> node_spec_ok (tpl_nodes t) node) ->
  exists v, topological_visits (tpl_nodes t) = Some v /\
    (v = length (tpl_nodes t) <-> forall x, ~ tc (needs (tpl_nodes t)) x x).
Proof. apply topological_decides. Qed.

Lemma validate_nodes t :
  validate_graph_template t = Ok tt ->
  NoDup (names (tpl_nodes t)) /\
  forall node, node ∈ tpl_nodes t -> node_spec_ok (tpl_nodes t) node.
Proof. intros Hok%validate_graph_template_ok. split; apply Hok. Qed.

Lemma topological_sweep_decides_witness :
  exists v, topological_visits (tpl_nodes sec_audit_template) = Some v /\
    (v = length (tpl_nodes sec_audit_template) <->
     forall x, ~ tc (needs (tpl_nodes sec_audit_template)) x x).
Proof.
  destruct (validate_nodes sec_audit_template) as [Hnd Hns]; [vm_compute; reflexivity|].
  exact (topological_sweep_decides sec_audit_template Hnd Hns).
Defined.

(** every template of the release catalogue satisfies the contract, its
    names are distinct, and [graph_template] finds each one by its name. *)
Theorem catalog_templates_ok :
  (forall e, e ∈ built_in_workflow_catalog ->
     template_ok (ce_template e) /\ graph_template (tpl_name (ce_template e)) = Some (ce_template e)) /\
  NoDup (map (fun e => tpl_name (ce_template e)) built_in_workflow_catalog).
Proof.
  split.
  - assert (forallb (fun e => is_ok (validate_graph_template (ce_template e)) &&
      bool_decide (graph_template (tpl_name (ce_template e)) = Some (ce_template e)))
      built_in_workflow_catalog = true) as Hall by (vm_compute; reflexivity).
    rewrite forallb_elem in Hall. intros e He. specialize (Hall e He). guards.
    split; [|done]. apply validate_graph_template_ok.
    destruct (validate_graph_template (ce_template e)) as [[]|]; done.
  - apply all_distinct_NoDup. vm_compute. reflexivity.
Qed.
