(* ===== verification/ChildWorkflow.v ===== *)
(** * Child workflow selection (haider-protocol/src/graph.rs)

    The selector a delegating call may name, and the decision gate that grants
    it a graph template only on a matching trigger. *)

From S2P Require Import Prelude RustStr GraphTypes GraphTemplate.

Local Open Scope string_scope.

(** ** Selectors *)

Inductive ChildWorkflowSelector :=
| Plain
| ImplementVerify
| Deeper
| WorkflowRef (name : string).

Definition workflow_ref_name (name : string) : bool :=
  negb (is_empty name) && (len name <=? GRAPH_NODE_NAME_MAX_BYTES)%N
  && all_bytes (fun byte => is_ascii_alphanumeric byte || is_underscore_or_dash byte) name.

Definition selector_error : string :=
  "workflow must be plain, implement_verify, deeper, or workflow_ref(<name>)".

(** [ChildWorkflowSelector::parse]. *)
Definition selector_parse (value : string) : result ChildWorkflowSelector string :=
  if String.eqb value "plain" then Ok Plain
  else if String.eqb value "implement_verify" then Ok ImplementVerify
  else if String.eqb value "deeper" then Ok Deeper
  else
    let name := rest ← strip_prefix "workflow_ref(" value; strip_suffix ")" rest in
    match name with
    | Some name => if workflow_ref_name name then Ok (WorkflowRef name) else Err selector_error
    | None => Err selector_error
    end.

Definition template_name (s : ChildWorkflowSelector) : option string :=
  match s with
  | Plain => None
  | ImplementVerify => Some IMPLEMENT_VERIFY_CHILD_TEMPLATE
  | Deeper => Some DEEPER_CHILD_TEMPLATE
  | WorkflowRef name => Some name
  end.

(** The [Display] instance. *)
Definition selector_display (s : ChildWorkflowSelector) : string :=
  match s with
  | Plain => "plain"
  | ImplementVerify => "implement_verify"
  | Deeper => "deeper"
  | WorkflowRef name => "workflow_ref(" ++ name ++ ")"
  end.

(** ** Triggers and decisions *)

Inductive ChildWorkflowTrigger :=
| MutationWithIndependentVerification
| DependentPhases
| TFanOut
| DistinctReview
| CrashRecovery.

Definition is_deeper (t : ChildWorkflowTrigger) : bool :=
  match t with
  | DependentPhases | TFanOut | DistinctReview | CrashRecovery => true
  | MutationWithIndependentVerification => false
  end.

Record ChildWorkflowDecision := mkDecision {
  cd_requested : ChildWorkflowSelector;
  cd_trigger : option ChildWorkflowTrigger;
  cd_template : option string;
  cd_reason : string;
  cd_workflow_author : bool
}.

Definition is_bare (d : ChildWorkflowDecision) : bool := bool_decide (cd_template d = None).

(** The reason text of a deeper trigger; [None] is the [unreachable!()] arm. *)
Definition deeper_reason (prefix : string) (found : ChildWorkflowTrigger) : option string :=
  match found with
  | DependentPhases => Some (prefix ++ "dependent_phases")
  | TFanOut => Some (prefix ++ "fan_out")
  | DistinctReview => Some (prefix ++ "distinct_review")
  | CrashRecovery => Some (prefix ++ "crash_recovery")
  | MutationWithIndependentVerification => None
  end.

(** The template and the reason, [None] when the code would panic. *)
Definition gate_decision (requested : ChildWorkflowSelector)
    (trigger : option ChildWorkflowTrigger) (registered_workflow_ref : bool)
    : option (option string * string) :=
  match requested, trigger with
  | Plain, _ => Some (None, "default_bare_attempt")
  | ImplementVerify, Some MutationWithIndependentVerification =>
      Some (template_name requested, "mutation_with_independent_verification")
  | ImplementVerify, _ => Some (None, "missing_mutation_independent_verification")
  | Deeper, trigger =>
      match trigger with
      | Some found =>
          if is_deeper found
          then (fun reason => (template_name requested, reason)) <$> deeper_reason "" found
          else Some (None, "missing_deeper_workflow_trigger")
      | None => Some (None, "missing_deeper_workflow_trigger")
      end
  | WorkflowRef name, Some found =>
      if match found with MutationWithIndependentVerification => true | _ => false end
         && bool_decide (name = IMPLEMENT_VERIFY_CHILD_TEMPLATE)
      then Some (Some name, "workflow_ref_mutation_with_independent_verification")
      else if bool_decide (name = DEEPER_CHILD_TEMPLATE) && is_deeper found
      then (fun reason => (Some name, reason)) <$> deeper_reason "workflow_ref_" found
      else if bool_decide (name = IMPLEMENT_VERIFY_CHILD_TEMPLATE)
              || bool_decide (name = DEEPER_CHILD_TEMPLATE)
      then Some (None, "workflow_ref_trigger_mismatch")
      else if registered_workflow_ref then Some (Some name, "registered_loom_workflow_ref")
      else Some (None, "workflow_ref_not_registered_child_template")
  | WorkflowRef _, None => Some (None, "missing_workflow_trigger")
  end.

Definition decide_child_workflow_with_registry (requested : option ChildWorkflowSelector)
    (trigger : option ChildWorkflowTrigger) (workflow_author_requested : bool)
    (registered_workflow_ref : bool) : option ChildWorkflowDecision :=
  let requested := default Plain requested in
  '(template, reason) ← gate_decision requested trigger registered_workflow_ref;
  Some (mkDecision requested trigger template reason
          (bool_decide (is_Some template) && workflow_author_requested
           && match trigger with Some t => is_deeper t | None => false end)).

Definition decide_child_workflow (requested : option ChildWorkflowSelector)
    (trigger : option ChildWorkflowTrigger) (workflow_author_requested : bool)
    : option ChildWorkflowDecision :=
  decide_child_workflow_with_registry requested trigger workflow_author_requested false.

(** ** Properties *)

(** The selectors that can be written down. *)
Definition selector_valid (s : ChildWorkflowSelector) : Prop :=
  match s with WorkflowRef name => workflow_ref_name name = true | _ => True end.

Lemma parse_ref_ok value name :
  selector_parse value = Ok (WorkflowRef name) <->
  value = "workflow_ref(" ++ name ++ ")" /\ workflow_ref_name name = true.
Proof.
  unfold selector_parse. split.
  - repeat (destruct (String.eqb _ _); [done|]).
    destruct (strip_prefix _ value) as [rest|] eqn:E; [|done]. simpl.
    destruct (strip_suffix ")" rest) as [n|] eqn:E'; [|done].
    destruct (workflow_ref_name n) eqn:Hn; [|done]. intros [= <-].
    apply strip_prefix_some in E as ->. apply strip_suffix_some in E' as ->. done.
  - intros [-> Hn].
    assert (strip_suffix ")" (name ++ ")") = Some name) as E' by (by apply strip_suffix_some).
    simpl. rewrite E'. by rewrite Hn.
Qed.

(** the selector's text form is a bijection on its valid values: a value
    parses to a selector exactly when it is that selector's display form and
    the selector is valid. *)
Theorem selector_round_trip value s :
  selector_parse value = Ok s <-> selector_display s = value /\ selector_valid s.
Proof.
  destruct s as [| | |name]; simpl.
  4:{ rewrite parse_ref_ok. naive_solver. }
  all: split; [|by intros [<- _]]; unfold selector_parse.
  all: destruct (String.eqb_spec value "plain"); [naive_solver|].
  all: destruct (String.eqb_spec value "implement_verify"); [naive_solver|].
  all: destruct (String.eqb_spec value "deeper"); [naive_solver|].
  all: destruct (_ ≫= _) as [n'|]; [destruct (workflow_ref_name n')|]; done.
Qed.

(** What the gate grants: a template, for a selector and a trigger. *)
Inductive granted (registered : bool)
    : ChildWorkflowSelector -> ChildWorkflowTrigger -> string -> Prop :=
| granted_implement s :
    template_name s = Some IMPLEMENT_VERIFY_CHILD_TEMPLATE -> 
    granted registered s MutationWithIndependentVerification IMPLEMENT_VERIFY_CHILD_TEMPLATE
| granted_deeper s trigger :
    template_name s = Some DEEPER_CHILD_TEMPLATE -> is_deeper trigger = true ->
    granted registered s trigger DEEPER_CHILD_TEMPLATE
| granted_registered name trigger :
    registered = true -> name <> IMPLEMENT_VERIFY_CHILD_TEMPLATE ->
    name <> DEEPER_CHILD_TEMPLATE -> granted registered (WorkflowRef name) trigger name.

Lemma gate_decision_total requested trigger registered :
  exists t reason, gate_decision requested trigger registered = Some (t, reason).
Proof.
  unfold gate_decision. destruct requested as [| | |name], trigger as [[]|]; simpl; eauto.
  all: repeat case_bool_decide; subst; simpl; eauto; by destruct registered; eauto.
Qed.

Lemma gate_decision_granted requested trigger registered t reason name :
  gate_decision requested trigger registered = Some (t, reason) ->
  t = Some name <-> exists tr, trigger = Some tr /\ granted registered requested tr name.
Proof.
  intros Hg. split.
  - intros ->. unfold gate_decision in Hg. destruct requested as [| | |n], trigger as [tr|]; simpl in Hg;
      try done.
    + destruct tr; simplify_eq. eexists. split; [done|]. by constructor.
    + destruct tr; simplify_eq/=; (eexists; split; [done|by constructor]).
    + destruct registered, tr; simpl in Hg; repeat case_bool_decide; simplify_eq/=;
        (eexists; split; [done|by constructor]).
  - intros (tr & -> & Hgr). unfold gate_decision in Hg.
    destruct Hgr as [s Hs|s tr Hs Hd|n tr -> Hn1 Hn2].
    + destruct s; simplify_eq/=; done.
    + destruct s, tr; simplify_eq/=; done.
    + rewrite (bool_decide_false (n = IMPLEMENT_VERIFY_CHILD_TEMPLATE)) in Hg by done.
      rewrite (bool_decide_false (n = DEEPER_CHILD_TEMPLATE)) in Hg by done.
      rewrite andb_false_r in Hg. by simplify_eq/=.
Qed.

(** the decision gate never panics, and grants a template exactly when the
    request and the trigger match: without a trigger every request is a bare
    attempt, and workflow authorship needs a granted template and a deeper
    trigger. *)
Theorem decision_grants requested trigger author registered :
  exists d, decide_child_workflow_with_registry requested trigger author registered = Some d /\
    (forall name, cd_template d = Some name <->
       exists tr, trigger = Some tr /\ granted registered (default Plain requested) tr name) /\
    (cd_workflow_author d = true <->
       is_bare d = false /\ author = true /\ exists tr, trigger = Some tr /\ is_deeper tr = true).
Proof.
  destruct (gate_decision_total (default Plain requested) trigger registered) as (t & reason & Hg).
  unfold decide_child_workflow_with_registry. rewrite Hg. simpl. eexists. split; [done|]. split.
  - intros name. by eapply gate_decision_granted.
  - unfold is_bare. simpl. rewrite !andb_true_iff, bool_decide_eq_true, bool_decide_eq_false,
      <- not_eq_None_Some. destruct trigger; naive_solver.
Qed.

(** every template the gate can grant from the built-in selectors is a
    catalogue entry that is not offered to main sessions. *)
Theorem built_in_grants_in_catalog s tr name :
  granted false s tr name ->
  exists e, e ∈ built_in_workflow_catalog /\ ce_main_session_eligible e = false /\
    tpl_name (ce_template e) = name /\ graph_template name = Some (ce_template e).
Proof.
  intros [s' Hs|s' tr' Hs Hd|n tr' [=]].
  - exists (mkCatalogEntry implement_verify_child_template false).
    split; [apply list_elem_of_In; simpl; tauto|done].
  - exists (mkCatalogEntry deeper_child_template false).
    split; [apply list_elem_of_In; simpl; tauto|done].
Qed.

Lemma built_in_grants_in_catalog_witness :
  exists e, e ∈ built_in_workflow_catalog /\ ce_main_session_eligible e = false /\
    tpl_name (ce_template e) = DEEPER_CHILD_TEMPLATE /\
    graph_template DEEPER_CHILD_TEMPLATE = Some (ce_template e).
Proof.
  apply (built_in_grants_in_catalog Deeper TFanOut DEEPER_CHILD_TEMPLATE).
  apply granted_deeper; reflexivity.
Defined.
