(* ===== verification/GraphStatus.v ===== *)
(** * The convergence-graph projection: data (haider-protocol/src/graph.rs)

    The journal facts of a pinned graph and the projection they reduce to. *)

From S2P Require Import Prelude RustStr Digest GraphTypes.

Local Open Scope string_scope.

(** ** Journal facts *)

Record GraphPinned := mkPinned {
  pin_graph_id : GraphId;
  pin_template : string;
  pin_digest : string;
  pin_template_version : N;
  pin_start_node : option GraphNodeName;
  pin_nodes : list GraphNodeSpec
}.

Record GraphAttemptOpened := mkAttemptOpened {
  open_graph_id : GraphId;
  open_node : GraphNodeName;
  open_attempt : N
}.

Inductive EvidenceVerdict := Green | Red.

(** tool.rs. *)
Record ImageBlockRef := mkImage {
  img_artifact : ArtifactRef;
  img_media_type : string;
  img_width : N;
  img_height : N;
  img_byte_len : N
}.

Inductive ComputerObservationKind := Screenshot | Inspect.

Inductive GraphEvidenceSource :=
| SrcModel (run_id : RunId) (call_id : string)
| SrcProcessSignal (run_id : RunId) (call_id : string) (effect_id : EffectId)
| SrcWorkspaceMutation (run_id : RunId) (effect_id : EffectId)
| SrcComputerObservation (run_id : RunId) (call_id : string) (effect_id : EffectId)
    (effect_args_digest : string) (observation : ComputerObservationKind) (image : ImageBlockRef)
    (workspace_revision : WorkspaceRevision)
| SrcChildContract (child_session_id : SessionId) (child_run_id : RunId)
    (child_graph_id : GraphId) (report_digest : string)
    (workspace_revision : option WorkspaceRevision).

Record EvidenceRecorded := mkRecorded {
  rec_graph_id : GraphId;
  rec_node : GraphNodeName;
  rec_attempt : N;
  rec_verdict : EvidenceVerdict;
  rec_detail : string;
  rec_fingerprint : string;
  rec_slot : option string;
  rec_subject_digest : option string;
  rec_source : GraphEvidenceSource
}.

Record GraphGateSatisfied := mkGateSatisfied {
  sat_graph_id : GraphId;
  sat_node : GraphNodeName;
  sat_attempt : N
}.

Record GraphAdvanced := mkAdvanced {
  adv_graph_id : GraphId;
  adv_from_node : GraphNodeName;
  adv_to_node : GraphNodeName
}.

Record GraphNodeReadied := mkReadied {
  rdy_graph_id : GraphId;
  rdy_node : GraphNodeName;
  rdy_attempt : N
}.

Record GraphSuperseded := mkSuperseded { sup_old : GraphId; sup_new : GraphId }.

Record GraphRunSetOpened := mkRunSetOpened {
  rso_run_set_id : GraphRunSetId;
  rso_root_graph_id : GraphId;
  rso_plan_item_id : ItemId;
  rso_plan_event_id : EventId;
  rso_required_children : N
}.

Record TodoGraphAttached := mkTodoAttached {
  att_run_set_id : GraphRunSetId;
  att_plan_item_id : ItemId;
  att_todo_id : N;
  att_depends_on_todo_id : option N;
  att_child_graph_id : GraphId;
  att_ordinal : N
}.

Inductive GraphBlockReason := RoundsExhausted | NoProgress | HumanHold.

Record GraphBlocked := mkBlocked {
  blk_graph_id : GraphId;
  blk_node : GraphNodeName;
  blk_reason : GraphBlockReason
}.

Record GraphCompleted := mkGraphCompleted { cmp_graph_id : GraphId }.

Record GraphAbandoned := mkAbandoned { abn_graph_id : GraphId; abn_why : string }.

Record GraphFinalizationDeferred := mkDeferred {
  def_graph_id : GraphId;
  def_run_id : RunId;
  def_state_digest : string;
  def_provider_requests_consumed : N;
  def_unmet_nodes : list GraphNodeName
}.

(** menu.rs: the two menus of a graph; the reducer treats every other kind
    alike. *)
Inductive MenuKind :=
| GraphHumanConfirm (graph_id : GraphId) (node : GraphNodeName) (attempt : N)
| GraphAbandonConfirm (graph_id : GraphId) (run_id : RunId) (state_digest : string)
| OtherMenu.

(** The id and the kind of a [Menu]; its presentation is not read here. *)
Record Menu := mkMenu { menu_id : MenuId; menu_kind : MenuKind }.

(** The variants of [EventPayload] the reducer matches on; [OtherPayload]
    stands for the ones its last arm ignores. *)
Inductive EventPayload :=
| PGraphPinned (pinned : GraphPinned)
| PGraphRunSetOpened (opened : GraphRunSetOpened)
| PTodoGraphAttached (attached : TodoGraphAttached)
| PGraphAttemptOpened (opened : GraphAttemptOpened)
| PEvidenceRecorded (recorded : EvidenceRecorded)
| PGraphGateSatisfied (satisfied : GraphGateSatisfied)
| PGraphAdvanced (advanced : GraphAdvanced)
| PGraphNodeReadied (readied : GraphNodeReadied)
| PGraphBlocked (blocked : GraphBlocked)
| PGraphCompleted (completed : GraphCompleted)
| PGraphAbandoned (abandoned : GraphAbandoned)
| PGraphFinalizationDeferred (deferred : GraphFinalizationDeferred)
| PGraphSuperseded (superseded : GraphSuperseded)
| PMenuOpened (menu : Menu)
| PMenuAnswered (menu : MenuId)
| PMenuClosed (menu : MenuId)
| OtherPayload.

(** ** Projection *)

Inductive GraphPhase := PhActive | PhBlocked | PhCompleted | PhAbandoned | PhSuperseded.

Record GraphEvidenceTally := mkTally {
  tally_green : N;
  tally_red : N;
  effective_green : N;
  standing_red : N
}.

Definition tally_default : GraphEvidenceTally := mkTally 0 0 0 0.

Record GraphEvidenceSlotStatus := mkSlotStatus {
  ss_id : string;
  ss_authority : EvidenceAuthority;
  ss_subject_selector : SubjectSelector;
  ss_verdict : option EvidenceVerdict;
  ss_fingerprint : option string;
  ss_subject_digest : option string;
  ss_source : option GraphEvidenceSource
}.

Record GraphNodeStatus := mkNodeStatus {
  gn_node : GraphNodeName;
  gn_gate : option GraphGateKind;
  gn_executor : option GraphExecutorShape;
  gn_attempts_opened : N;
  gn_current_attempt : option N;
  gn_evidence : GraphEvidenceTally;
  gn_evidence_slots : list GraphEvidenceSlotStatus;
  gn_satisfied : bool
}.

Record TodoGraphStatus := mkTodoStatus {
  td_todo_id : N;
  td_depends_on_todo_id : option N;
  td_graph_id : GraphId;
  td_ordinal : N;
  td_phase : GraphPhase;
  td_current_node : option GraphNodeName;
  td_attempt : N
}.

Record GraphRunSetStatus := mkRunSetStatus {
  rs_run_set_id : GraphRunSetId;
  rs_root_graph_id : GraphId;
  rs_plan_item_id : ItemId;
  rs_plan_event_id : EventId;
  rs_required_children : N;
  rs_terminal_children : N;
  rs_children : list TodoGraphStatus
}.

Record GraphStatus := mkGraphStatus {
  gs_graph_id : GraphId;
  gs_template : string;
  gs_digest : string;
  gs_template_version : N;
  gs_start_node : option GraphNodeName;
  gs_phase : GraphPhase;
  gs_current_node : option GraphNodeName;
  gs_ready_nodes : list GraphNodeName;
  gs_attempt : N;
  gs_nodes : list GraphNodeStatus;
  gs_blocked_reason : option GraphBlockReason;
  gs_pending_menu : option MenuId;
  gs_pending_menus : list MenuId;
  gs_run_set : option GraphRunSetStatus
}.

Record GraphFinalizationMenu := mkFinalizationMenu {
  fm_menu_id : MenuId;
  fm_run_id : RunId;
  fm_state_digest : string
}.

Record GraphReduction := mkReduction {
  gr_status : option GraphStatus;
  gr_evidence : list EvidenceRecorded;
  gr_finalization_deferrals : list GraphFinalizationDeferred;
  gr_finalization_menus : list GraphFinalizationMenu;
  gr_template_nodes : list GraphNodeSpec
}.

Record GraphReductions := mkReductions {
  active_root : option GraphId;
  by_graph : gmap GraphId GraphReduction;
  active_run_set : option GraphRunSetId;
  run_sets : gmap GraphRunSetId GraphRunSetStatus
}.

Definition reductions_default : GraphReductions := mkReductions None ∅ None ∅.

#[export] Instance GraphPhase_eq_dec : EqDecision GraphPhase.
Proof. solve_decision. Defined.
#[export] Instance EvidenceVerdict_eq_dec : EqDecision EvidenceVerdict.
Proof. solve_decision. Defined.

(** ** Field updates *)

Definition set_phase (phase : GraphPhase) (s : GraphStatus) : GraphStatus :=
  mkGraphStatus (gs_graph_id s) (gs_template s) (gs_digest s) (gs_template_version s)
    (gs_start_node s) phase (gs_current_node s) (gs_ready_nodes s) (gs_attempt s) (gs_nodes s)
    (gs_blocked_reason s) (gs_pending_menu s) (gs_pending_menus s) (gs_run_set s).
Definition set_current_node (node : option GraphNodeName) (s : GraphStatus) : GraphStatus :=
  mkGraphStatus (gs_graph_id s) (gs_template s) (gs_digest s) (gs_template_version s)
    (gs_start_node s) (gs_phase s) node (gs_ready_nodes s) (gs_attempt s) (gs_nodes s)
    (gs_blocked_reason s) (gs_pending_menu s) (gs_pending_menus s) (gs_run_set s).
Definition set_ready_nodes (ready : list GraphNodeName) (s : GraphStatus) : GraphStatus :=
  mkGraphStatus (gs_graph_id s) (gs_template s) (gs_digest s) (gs_template_version s)
    (gs_start_node s) (gs_phase s) (gs_current_node s) ready (gs_attempt s) (gs_nodes s)
    (gs_blocked_reason s) (gs_pending_menu s) (gs_pending_menus s) (gs_run_set s).
Definition set_attempt (attempt : N) (s : GraphStatus) : GraphStatus :=
  mkGraphStatus (gs_graph_id s) (gs_template s) (gs_digest s) (gs_template_version s)
    (gs_start_node s) (gs_phase s) (gs_current_node s) (gs_ready_nodes s) attempt (gs_nodes s)
    (gs_blocked_reason s) (gs_pending_menu s) (gs_pending_menus s) (gs_run_set s).
Definition set_nodes (nodes : list GraphNodeStatus) (s : GraphStatus) : GraphStatus :=
  mkGraphStatus (gs_graph_id s) (gs_template s) (gs_digest s) (gs_template_version s)
    (gs_start_node s) (gs_phase s) (gs_current_node s) (gs_ready_nodes s) (gs_attempt s) nodes
    (gs_blocked_reason s) (gs_pending_menu s) (gs_pending_menus s) (gs_run_set s).
Definition set_blocked_reason (reason : option GraphBlockReason) (s : GraphStatus) : GraphStatus :=
  mkGraphStatus (gs_graph_id s) (gs_template s) (gs_digest s) (gs_template_version s)
    (gs_start_node s) (gs_phase s) (gs_current_node s) (gs_ready_nodes s) (gs_attempt s)
    (gs_nodes s) reason (gs_pending_menu s) (gs_pending_menus s) (gs_run_set s).
Definition set_menus (pending : option MenuId) (menus : list MenuId) (s : GraphStatus)
    : GraphStatus :=
  mkGraphStatus (gs_graph_id s) (gs_template s) (gs_digest s) (gs_template_version s)
    (gs_start_node s) (gs_phase s) (gs_current_node s) (gs_ready_nodes s) (gs_attempt s)
    (gs_nodes s) (gs_blocked_reason s) pending menus (gs_run_set s).
Definition set_run_set (run_set : option GraphRunSetStatus) (s : GraphStatus) : GraphStatus :=
  mkGraphStatus (gs_graph_id s) (gs_template s) (gs_digest s) (gs_template_version s)
    (gs_start_node s) (gs_phase s) (gs_current_node s) (gs_ready_nodes s) (gs_attempt s)
    (gs_nodes s) (gs_blocked_reason s) (gs_pending_menu s) (gs_pending_menus s) run_set.

Definition with_status (status : option GraphStatus) (r : GraphReduction) : GraphReduction :=
  mkReduction status (gr_evidence r) (gr_finalization_deferrals r) (gr_finalization_menus r)
    (gr_template_nodes r).

(** Mutation of the value a map holds under a key, if any. *)
Definition with_by_graph (m : gmap GraphId GraphReduction) (r : GraphReductions) : GraphReductions :=
  mkReductions (active_root r) m (active_run_set r) (run_sets r).
Definition with_run_sets (m : gmap GraphRunSetId GraphRunSetStatus) (r : GraphReductions)
    : GraphReductions :=
  mkReductions (active_root r) (by_graph r) (active_run_set r) m.
Definition with_active_root (root : option GraphId) (r : GraphReductions) : GraphReductions :=
  mkReductions root (by_graph r) (active_run_set r) (run_sets r).
Definition with_active_run_set (run_set : option GraphRunSetId) (r : GraphReductions)
    : GraphReductions :=
  mkReductions (active_root r) (by_graph r) run_set (run_sets r).

(** ** Subject digests *)

Section Subjects.
Context `{Blake3}.

Definition computer_observation_subject_digest (run_id : RunId) (call_id : string)
    (effect_id : EffectId) (effect_args_digest : string) (observation : ComputerObservationKind)
    (image : ImageBlockRef) (workspace_revision : WorkspaceRevision) : string :=
  blake3_digest "haider.computer-observation.subject.v1"
    [run_id; call_id; effect_id; effect_args_digest;
     match observation with Screenshot => "screenshot" | Inspect => "inspect" end;
     img_artifact image; img_media_type image;
     pretty (img_width image) ++ "x" ++ pretty (img_height image);
     pretty (img_byte_len image); workspace_revision].

Definition workspace_mutation_subject_digest (effect_id : EffectId) (mutation_digest : string)
    (workspace_revision : WorkspaceRevision) : string :=
  blake3_digest "haider.workspace-mutation.subject.v1"
    [effect_id; mutation_digest; workspace_revision].

Definition process_signal_subject_digest (command_arg_digest transcript_digest : string)
    (workspace_revision : option WorkspaceRevision) : string :=
  blake3_digest "haider.process-signal.subject.v1"
    [command_arg_digest; transcript_digest; default "" workspace_revision].

Definition todo_run_set_id (session_id : SessionId) (plan_item_id : ItemId)
    (plan_event_id : EventId) : GraphRunSetId :=
  "todo-run-set-" ++
  blake3_hex ("haider.todo-run-set.v1" ++ frames [session_id; plan_item_id; plan_event_id]).

Definition todo_child_graph_id (session_id : SessionId) (run_set_id : GraphRunSetId)
    (plan_item_id : ItemId) (todo_id : N) : GraphId :=
  "todo-graph-" ++
  blake3_hex ("haider.todo-child-graph.v1" ++ frames [session_id; run_set_id; plan_item_id]
              ++ u32_be todo_id).

Definition evidence_fingerprint (normalized_detail : string) : string :=
  blake3_hex normalized_detail.
End Subjects.

(** ** Bounded detail text *)

(** [is_char_boundary]: the ends of the string, and offsets whose byte does not
    continue a character. *)
Definition is_char_boundary (value : string) (index : nat) : bool :=
  if (index =? 0)%nat then true
  else match String.get index value with
       | Some c => negb (is_continuation c)
       | None => (index =? String.length value)%nat
       end.

(** [while end > 0 && !value.is_char_boundary(end) { end -= 1 }]. *)
Fixpoint boundary_at_most (value : string) (index : nat) : nat :=
  match index with
  | 0 => 0
  | S index' => if is_char_boundary value index then index else boundary_at_most value index'
  end.

Definition truncate_utf8 (value : string) (max_bytes : N) : string :=
  if (len value <=? max_bytes)%N then value
  else String.substring 0 (boundary_at_most value (N.to_nat max_bytes)) value.

Definition bound_utf8 (value : string) (max_bytes : N) : string := truncate_utf8 value max_bytes.

Definition normalize_evidence_detail (detail : string) : string :=
  bound_utf8 (join " " (split_whitespace detail)) GRAPH_EVIDENCE_DETAIL_MAX_BYTES.
