(* ===== verification/GraphReduce.v ===== *)
(** * The convergence-graph reducer (haider-protocol/src/graph.rs)

    One definition per arm of [GraphReductions::apply_payload], the run-set
    reconciliation, and the batch and incremental folds over them.  The proofs
    are in ReduceProps.v. *)

From S2P Require Import Prelude RustStr Digest Worklist GraphTypes GraphTemplate GraphStatus.

Local Open Scope string_scope.

(** ** Helpers *)

(** [sort_by_key]: stable. *)
Section Sort.
Context {A : Type} (leb : A -> A -> bool).

Fixpoint stable_insert (x : A) (l : list A) : list A :=
  match l with
  | [] => [x]
  | y :: l' => if leb x y then x :: l else y :: stable_insert x l'
  end.

Definition stable_sort (l : list A) : list A := foldr stable_insert [] l.
End Sort.

Definition graph_phase_is_terminal (phase : GraphPhase) : bool :=
  match phase with PhCompleted | PhAbandoned | PhSuperseded => true | _ => false end.

Definition find_status (s : GraphStatus) (node : GraphNodeName) : option GraphNodeStatus :=
  find (fun status => bool_decide (gn_node status = node)) (gs_nodes s).

(** [GraphStatus::node_is_ready], [accepts_evidence], [is_unfinished]. *)
Definition node_is_ready (s : GraphStatus) (node : GraphNodeName) : bool :=
  match gs_ready_nodes s with
  | [] => opt_eqb (gs_current_node s) (Some node)
  | _ => existsb (fun ready => bool_decide (ready = node)) (gs_ready_nodes s)
  end.

Definition accepts_evidence (s : GraphStatus) (node : GraphNodeName) : bool :=
  if negb (bool_decide (gs_phase s = PhActive)) || negb (node_is_ready s node) then false
  else match find_status s node ≫= gn_gate with
       | Some gate => negb (is_human_gate gate)
       | None => false
       end.

Definition is_unfinished (s : GraphStatus) : bool :=
  match gs_phase s with PhActive | PhBlocked => true | _ => false end.

Definition is_complete (rs : GraphRunSetStatus) : bool :=
  (rs_terminal_children rs =? rs_required_children rs)%N.

(** [GraphNodeStatus::clear_evidence_frontier]. *)
Definition clear_slot (slot : GraphEvidenceSlotStatus) : GraphEvidenceSlotStatus :=
  mkSlotStatus (ss_id slot) (ss_authority slot) (ss_subject_selector slot) None None None None.

Definition clear_evidence_frontier (n : GraphNodeStatus) : GraphNodeStatus :=
  mkNodeStatus (gn_node n) (gn_gate n) (gn_executor n) (gn_attempts_opened n)
    (gn_current_attempt n) tally_default (map clear_slot (gn_evidence_slots n)) (gn_satisfied n).

(** [GraphStatus::node_mut] followed by a mutation. *)
Definition update_status_node (node : GraphNodeName) (f : GraphNodeStatus -> GraphNodeStatus)
    (s : GraphStatus) : GraphStatus :=
  set_nodes (alter_first (fun status => bool_decide (gn_node status = node)) f (gs_nodes s)) s.

(** The declaration index of a node, [usize::MAX] when it has none. *)
Definition template_index (template_nodes : list GraphNodeSpec) (node : GraphNodeName) : N :=
  match position (fun spec => bool_decide (spec_name spec = node)) template_nodes with
  | Some i => N.of_nat i
  | None => u64_max
  end.

Definition refresh_current_node (template_nodes : list GraphNodeSpec) (s : GraphStatus)
    : GraphStatus :=
  let ready := stable_sort (fun a b =>
    (template_index template_nodes a <=? template_index template_nodes b)%N) (gs_ready_nodes s) in
  set_current_node (head ready) (set_ready_nodes ready s).

Definition push_ready_in_template_order (template_nodes : list GraphNodeSpec)
    (node : GraphNodeName) (s : GraphStatus) : GraphStatus :=
  refresh_current_node template_nodes
    (if existsb (fun ready => bool_decide (ready = node)) (gs_ready_nodes s) then s
     else set_ready_nodes (gs_ready_nodes s ++ [node]) s).

(** Each node is queued at most once, and so is the target. *)
Definition graph_descendants_inclusive (specs : list GraphNodeSpec) (target : GraphNodeName)
    : gset GraphNodeName :=
  default ∅ (bfs (dependents specs) (S (length specs)) [target] {[target]}).

(** [self.by_graph.get_mut(id)] followed by a mutation. *)
Definition update_graph (graph_id : GraphId) (f : GraphReduction -> GraphReduction)
    (self : GraphReductions) : GraphReductions :=
  with_by_graph (alter f graph_id (by_graph self)) self.

(** [status_for_graph_mut(id)] followed by a mutation. *)
Definition update_status (graph_id : GraphId) (f : GraphReduction -> GraphStatus -> GraphStatus)
    (self : GraphReductions) : GraphReductions :=
  update_graph graph_id (fun reduction =>
    match gr_status reduction with
    | Some status =>
        if bool_decide (gs_graph_id status = graph_id)
        then with_status (Some (f reduction status)) reduction else reduction
    | None => reduction
    end) self.

(** [run_sets.values().any(|run_set| run_set.children.iter().any(..))]. *)
Definition attached_child (self : GraphReductions) (graph_id : GraphId) : bool :=
  existsb (fun entry => existsb (fun child => bool_decide (td_graph_id child = graph_id))
                          (rs_children entry.2)) (map_to_list (run_sets self)).

(** ** The arms of [apply_payload] *)

Definition initial_slot (slot : EvidenceSlotSpec) : GraphEvidenceSlotStatus :=
  mkSlotStatus (slot_id slot) (slot_authority slot) (slot_subject_selector slot)
    None None None None.

Definition initial_node_status (m2b : bool) (spec : GraphNodeSpec) : GraphNodeStatus :=
  mkNodeStatus (spec_name spec) (if m2b then Some (spec_gate spec) else None)
    (if m2b then Some (spec_executor spec) else None) 0 None tally_default
    (map initial_slot (spec_verify_slots spec)) false.

Definition initial_status (pinned : GraphPinned) : GraphStatus :=
  let m2b := (0 <? pin_template_version pinned)%N
             && bool_decide (is_Some (pin_start_node pinned)) in
  mkGraphStatus (pin_graph_id pinned) (pin_template pinned) (pin_digest pinned)
    (pin_template_version pinned) (pin_start_node pinned) PhActive None [] 0
    (map (initial_node_status m2b) (pin_nodes pinned)) None None [] None.

Definition apply_pinned (pinned : GraphPinned) (self : GraphReductions) : GraphReductions :=
  let graph_id := pin_graph_id pinned in
  let self := with_by_graph
    (<[graph_id := mkReduction (Some (initial_status pinned)) [] [] [] (pin_nodes pinned)]>
       (by_graph self)) self in
  if attached_child self graph_id then self else with_active_root (Some graph_id) self.

Definition apply_run_set_opened (opened : GraphRunSetOpened) (self : GraphReductions)
    : GraphReductions :=
  if bool_decide (is_Some (run_sets self !! rso_run_set_id opened))
     || bool_decide (by_graph self !! rso_root_graph_id opened = None)
  then self
  else
    let self := with_active_run_set (Some (rso_run_set_id opened)) self in
    with_run_sets (<[rso_run_set_id opened :=
      mkRunSetStatus (rso_run_set_id opened) (rso_root_graph_id opened) (rso_plan_item_id opened)
        (rso_plan_event_id opened) (rso_required_children opened) 0 []]> (run_sets self)) self.

(** [(child.ordinal, child.todo_id)], compared lexicographically. *)
Definition todo_leb (a b : TodoGraphStatus) : bool :=
  (td_ordinal a <? td_ordinal b)%N
  || ((td_ordinal a =? td_ordinal b)%N && (td_todo_id a <=? td_todo_id b)%N).

Definition attach_child (attached : TodoGraphAttached) (run_set : GraphRunSetStatus)
    : GraphRunSetStatus :=
  let child := mkTodoStatus (att_todo_id attached) (att_depends_on_todo_id attached)
    (att_child_graph_id attached) (att_ordinal attached) PhActive None 0 in
  mkRunSetStatus (rs_run_set_id run_set) (rs_root_graph_id run_set) (rs_plan_item_id run_set)
    (rs_plan_event_id run_set) (rs_required_children run_set) (rs_terminal_children run_set)
    (stable_sort todo_leb (rs_children run_set ++ [child])).

Definition attach_rejected (attached : TodoGraphAttached) (already : bool)
    (run_set : GraphRunSetStatus) : bool :=
  negb (bool_decide (rs_plan_item_id run_set = att_plan_item_id attached))
  || (rs_required_children run_set <=? N.of_nat (length (rs_children run_set)))%N
  || existsb (fun child => (td_todo_id child =? att_todo_id attached)%N) (rs_children run_set)
  || already.

Definition apply_todo_attached (attached : TodoGraphAttached) (self : GraphReductions)
    : GraphReductions :=
  let already := attached_child self (att_child_graph_id attached) in
  match run_sets self !! att_run_set_id attached with
  | None => self
  | Some run_set =>
      if attach_rejected attached already run_set then self
      else with_run_sets (<[att_run_set_id attached := attach_child attached run_set]>
                            (run_sets self)) self
  end.

(** Resets a node for a new traversal. *)
Definition invalidate_node (n : GraphNodeStatus) : GraphNodeStatus :=
  let n := clear_evidence_frontier n in
  mkNodeStatus (gn_node n) (gn_gate n) (gn_executor n) (gn_attempts_opened n) None
    (gn_evidence n) (gn_evidence_slots n) false.

Definition opened_node (attempt : N) (n : GraphNodeStatus) : GraphNodeStatus :=
  let n := clear_evidence_frontier n in
  mkNodeStatus (gn_node n) (gn_gate n) (gn_executor n)
    (saturating_add_u32 (gn_attempts_opened n) 1) (Some attempt)
    (gn_evidence n) (gn_evidence_slots n) false.

(** The nodes a reopened attempt invalidates. *)
Definition invalidate_for (template_nodes : list GraphNodeSpec) (opened : GraphAttemptOpened)
    (status : GraphStatus) : GraphStatus :=
  let reopening := match find_status status (open_node opened) with
                   | Some node => (0 <? gn_attempts_opened node)%N
                   | None => false
                   end in
  let status := set_attempt (N.max (gs_attempt status) (open_attempt opened)) status in
  let start_node := default build_node (gs_start_node status) in
  if bool_decide (open_node opened = start_node)
  then set_ready_nodes [] (set_nodes (map invalidate_node (gs_nodes status)) status)
  else if reopening
  then
    let invalidated := graph_descendants_inclusive template_nodes (open_node opened) in
    let status := set_nodes (map (fun node =>
      if bool_decide (gn_node node ∈ invalidated) then invalidate_node node else node)
      (gs_nodes status)) status in
    refresh_current_node template_nodes
      (set_ready_nodes (filterb (fun node => negb (bool_decide (node ∈ invalidated)))
                          (gs_ready_nodes status)) status)
  else status.

Definition open_attempt_status (template_nodes : list GraphNodeSpec)
    (opened : GraphAttemptOpened) (status : GraphStatus) : GraphStatus :=
  if negb (bool_decide (gs_phase status = PhActive)) then status
  else
    let status := invalidate_for template_nodes opened status in
    let status := update_status_node (open_node opened) (opened_node (open_attempt opened)) status in
    if (gs_template_version status =? 0)%N
    then set_current_node (Some (open_node opened)) status
    else push_ready_in_template_order template_nodes (open_node opened) status.

Definition apply_attempt_opened (opened : GraphAttemptOpened) (self : GraphReductions)
    : GraphReductions :=
  update_status (open_graph_id opened) (fun reduction status =>
    open_attempt_status (gr_template_nodes reduction) opened status) self.

(** [status.nodes.iter().find(..).is_none_or(|node| node.current_attempt != Some(attempt))]. *)
Definition attempt_mismatch (status : GraphStatus) (node : GraphNodeName) (attempt : N) : bool :=
  match find_status status node with
  | None => true
  | Some n => negb (opt_eqb (gn_current_attempt n) (Some attempt))
  end.

Definition is_computer_observation (source : GraphEvidenceSource) : bool :=
  match source with SrcComputerObservation _ _ _ _ _ _ _ => true | _ => false end.

(** The flat tally of nodes without declared slots. *)
Definition tally_flat (verdict : EvidenceVerdict) (t : GraphEvidenceTally) : GraphEvidenceTally :=
  match verdict with
  | Green => mkTally (saturating_add_u32 (tally_green t) 1) (tally_red t)
               (saturating_add_u32 (effective_green t) 1) 0
  | Red => mkTally (tally_green t) (saturating_add_u32 (tally_red t) 1) 0 1
  end.

Definition fill_slot (recorded : EvidenceRecorded) (slot : GraphEvidenceSlotStatus)
    : GraphEvidenceSlotStatus :=
  mkSlotStatus (ss_id slot) (ss_authority slot) (ss_subject_selector slot)
    (Some (rec_verdict recorded)) (Some (rec_fingerprint recorded))
    (rec_subject_digest recorded) (Some (rec_source recorded)).

Definition count_verdict (verdict : EvidenceVerdict) (slots : list GraphEvidenceSlotStatus) : N :=
  u32_of_usize (length (filterb (fun slot => opt_eqb (ss_verdict slot) (Some verdict)) slots)).

Definition tally_slots (verdict : EvidenceVerdict) (slots : list GraphEvidenceSlotStatus)
    (t : GraphEvidenceTally) : GraphEvidenceTally :=
  mkTally
    (match verdict with Green => saturating_add_u32 (tally_green t) 1 | Red => tally_green t end)
    (match verdict with Green => tally_red t | Red => saturating_add_u32 (tally_red t) 1 end)
    (count_verdict Green slots) (count_verdict Red slots).

Definition with_evidence (tally : GraphEvidenceTally) (slots : list GraphEvidenceSlotStatus)
    (n : GraphNodeStatus) : GraphNodeStatus :=
  mkNodeStatus (gn_node n) (gn_gate n) (gn_executor n) (gn_attempts_opened n)
    (gn_current_attempt n) tally slots (gn_satisfied n).

Definition record_on_node (recorded : EvidenceRecorded) (n : GraphNodeStatus) : GraphNodeStatus :=
  match gn_evidence_slots n with
  | [] => with_evidence (tally_flat (rec_verdict recorded) (gn_evidence n)) [] n
  | slots =>
      match slot_id ← rec_slot recorded;
            find (fun slot => bool_decide (ss_id slot = slot_id)) slots with
      | Some found =>
          let slots := alter_first (fun slot => bool_decide (ss_id slot = ss_id found))
                         (fill_slot recorded) slots in
          with_evidence (tally_slots (rec_verdict recorded) slots (gn_evidence n)) slots n
      | None => n
      end
  end.

Definition apply_evidence (recorded : EvidenceRecorded) (self : GraphReductions)
    : GraphReductions :=
  update_graph (rec_graph_id recorded) (fun reduction =>
    match gr_status reduction with
    | None => reduction
    | Some status =>
        if negb (bool_decide (gs_phase status = PhActive))
           || negb (node_is_ready status (rec_node recorded))
           || attempt_mismatch status (rec_node recorded) (rec_attempt recorded)
        then reduction
        else
          let gate_eligible := negb (is_computer_observation (rec_source recorded)) in
          let status := if gate_eligible
                        then update_status_node (rec_node recorded) (record_on_node recorded) status
                        else status in
          mkReduction (Some status) (gr_evidence reduction ++ [recorded])
            (gr_finalization_deferrals reduction) (gr_finalization_menus reduction)
            (gr_template_nodes reduction)
    end) self.

Definition satisfied_node (n : GraphNodeStatus) : GraphNodeStatus :=
  mkNodeStatus (gn_node n) (gn_gate n) (gn_executor n) (gn_attempts_opened n)
    (gn_current_attempt n) (gn_evidence n) (gn_evidence_slots n) true.

Definition satisfy_status (template_nodes : list GraphNodeSpec) (satisfied : GraphGateSatisfied)
    (status : GraphStatus) : GraphStatus :=
  if negb (bool_decide (gs_phase status = PhActive))
     || negb (node_is_ready status (sat_node satisfied))
     || attempt_mismatch status (sat_node satisfied) (sat_attempt satisfied)
  then status
  else
    let status := update_status_node (sat_node satisfied) satisfied_node status in
    if (0 <? gs_template_version status)%N
    then refresh_current_node template_nodes
           (set_ready_nodes (filterb (fun node => negb (bool_decide (node = sat_node satisfied)))
                               (gs_ready_nodes status)) status)
    else status.

Definition apply_gate_satisfied (satisfied : GraphGateSatisfied) (self : GraphReductions)
    : GraphReductions :=
  update_status (sat_graph_id satisfied) (fun reduction status =>
    satisfy_status (gr_template_nodes reduction) satisfied status) self.

Definition apply_advanced (advanced : GraphAdvanced) (self : GraphReductions) : GraphReductions :=
  update_status (adv_graph_id advanced) (fun _ status =>
    if (gs_template_version status =? 0)%N
    then set_current_node (Some (adv_to_node advanced)) status else status) self.

Definition apply_readied (readied : GraphNodeReadied) (self : GraphReductions) : GraphReductions :=
  update_status (rdy_graph_id readied) (fun reduction status =>
    if bool_decide (gs_phase status = PhActive) && (gs_attempt status =? rdy_attempt readied)%N
    then push_ready_in_template_order (gr_template_nodes reduction) (rdy_node readied) status
    else status) self.

Definition apply_blocked (blocked : GraphBlocked) (self : GraphReductions) : GraphReductions :=
  update_status (blk_graph_id blocked) (fun _ status =>
    set_menus None [] (set_blocked_reason (Some (blk_reason blocked)) (set_ready_nodes []
      (set_current_node (Some (blk_node blocked)) (set_phase PhBlocked status))))) self.

Definition apply_completed (completed : GraphCompleted) (self : GraphReductions)
    : GraphReductions :=
  update_status (cmp_graph_id completed) (fun _ status =>
    let status := set_phase PhCompleted status in
    let status := if (0 <? gs_template_version status)%N
                  then set_current_node None status else status in
    set_menus None [] (set_ready_nodes [] status)) self.

Definition apply_abandoned (abandoned : GraphAbandoned) (self : GraphReductions)
    : GraphReductions :=
  update_status (abn_graph_id abandoned) (fun _ status =>
    set_menus None [] (set_ready_nodes [] (set_phase PhAbandoned status))) self.

Definition apply_deferred (deferred : GraphFinalizationDeferred) (self : GraphReductions)
    : GraphReductions :=
  update_graph (def_graph_id deferred) (fun reduction =>
    if existsb (fun prior => bool_decide (def_run_id prior = def_run_id deferred)
                             && bool_decide (def_state_digest prior = def_state_digest deferred))
         (gr_finalization_deferrals reduction)
    then reduction
    else mkReduction (gr_status reduction) (gr_evidence reduction)
           (gr_finalization_deferrals reduction ++ [deferred]) (gr_finalization_menus reduction)
           (gr_template_nodes reduction)) self.

Definition apply_superseded (superseded : GraphSuperseded) (self : GraphReductions)
    : GraphReductions :=
  let self := update_status (sup_old superseded) (fun _ status =>
    set_menus None [] (set_ready_nodes [] (set_current_node None
      (set_phase PhSuperseded status)))) self in
  if attached_child self (sup_old superseded) then self
  else with_active_root (Some (sup_new superseded)) self.

Definition open_menu_status (menu : Menu) (finalization_menu : bool) (status : GraphStatus)
    : GraphStatus :=
  let pending := match gs_pending_menu status with
                 | Some pending => Some pending
                 | None => Some (menu_id menu)
                 end in
  let menus :=
    if ((0 <? gs_template_version status)%N || finalization_menu)
       && negb (existsb (fun id => bool_decide (id = menu_id menu)) (gs_pending_menus status))
    then (gs_pending_menus status ++ [menu_id menu])%list else gs_pending_menus status in
  set_menus pending menus status.

Definition apply_menu_opened (menu : Menu) (self : GraphReductions) : GraphReductions :=
  match menu_kind menu with
  | GraphHumanConfirm graph_id _ _ =>
      update_status graph_id (fun _ status => open_menu_status menu false status) self
  | GraphAbandonConfirm graph_id run_id state_digest =>
      let self := update_status graph_id (fun _ status => open_menu_status menu true status) self in
      update_graph graph_id (fun reduction =>
        mkReduction (gr_status reduction) (gr_evidence reduction)
          (gr_finalization_deferrals reduction)
          (gr_finalization_menus reduction
             ++ [mkFinalizationMenu (menu_id menu) run_id state_digest])
          (gr_template_nodes reduction)) self
  | OtherMenu => self
  end.

Definition close_menu_status (menu : MenuId) (status : GraphStatus) : GraphStatus :=
  let menus := filterb (fun pending => negb (bool_decide (pending = menu)))
                 (gs_pending_menus status) in
  set_menus (if opt_eqb (gs_pending_menu status) (Some menu) then head menus
             else gs_pending_menu status) menus status.

Definition apply_menu_closed (menu : MenuId) (self : GraphReductions) : GraphReductions :=
  with_by_graph ((fun reduction => with_status (close_menu_status menu <$> gr_status reduction)
                                     reduction) <$> by_graph self) self.

Definition apply_payload (payload : EventPayload) (self : GraphReductions) : GraphReductions :=
  match payload with
  | PGraphPinned pinned => apply_pinned pinned self
  | PGraphRunSetOpened opened => apply_run_set_opened opened self
  | PTodoGraphAttached attached => apply_todo_attached attached self
  | PGraphAttemptOpened opened => apply_attempt_opened opened self
  | PEvidenceRecorded recorded => apply_evidence recorded self
  | PGraphGateSatisfied satisfied => apply_gate_satisfied satisfied self
  | PGraphAdvanced advanced => apply_advanced advanced self
  | PGraphNodeReadied readied => apply_readied readied self
  | PGraphBlocked blocked => apply_blocked blocked self
  | PGraphCompleted completed => apply_completed completed self
  | PGraphAbandoned abandoned => apply_abandoned abandoned self
  | PGraphFinalizationDeferred deferred => apply_deferred deferred self
  | PGraphSuperseded superseded => apply_superseded superseded self
  | PMenuOpened menu => apply_menu_opened menu self
  | PMenuAnswered menu | PMenuClosed menu => apply_menu_closed menu self
  | OtherPayload => self
  end.

(** ** Run-set reconciliation *)

Definition refresh_child (graphs : gmap GraphId GraphReduction) (child : TodoGraphStatus)
    : TodoGraphStatus :=
  match graphs !! td_graph_id child ≫= gr_status with
  | None => child
  | Some status =>
      mkTodoStatus (td_todo_id child) (td_depends_on_todo_id child) (td_graph_id child)
        (td_ordinal child) (gs_phase status) (gs_current_node status) (gs_attempt status)
  end.

Definition refresh_run_set (graphs : gmap GraphId GraphReduction) (run_set : GraphRunSetStatus)
    : GraphRunSetStatus :=
  let children := map (refresh_child graphs) (rs_children run_set) in
  let terminal := u32_of_usize
    (length (filterb (fun child => graph_phase_is_terminal (td_phase child)) children)) in
  mkRunSetStatus (rs_run_set_id run_set) (rs_root_graph_id run_set) (rs_plan_item_id run_set)
    (rs_plan_event_id run_set) (rs_required_children run_set)
    (N.min terminal (rs_required_children run_set)) children.

Definition refresh_root (run_set : GraphRunSetStatus) (root : GraphStatus) : GraphStatus :=
  let root := set_run_set (Some run_set) root in
  match gs_phase root with
  | PhAbandoned | PhSuperseded => root
  | _ => set_menus None [] (set_ready_nodes [] (set_current_node None
           (set_phase (if is_complete run_set then PhCompleted else PhActive) root)))
  end.

Definition refresh_run_set_projections (self : GraphReductions) : GraphReductions :=
  let self := with_run_sets (refresh_run_set (by_graph self) <$> run_sets self) self in
  match active_run_set self ≫= fun id => run_sets self !! id with
  | None => self
  | Some run_set =>
      update_graph (rs_root_graph_id run_set) (fun reduction =>
        match gr_status reduction with
        | None => reduction
        | Some root => with_status (Some (refresh_root run_set root)) reduction
        end) self
  end.

(** ** Folds

    Decoding is serde's: the payload's [type] tag, and the decoding of a
    payload the tag filter lets through. *)
Class GraphCodec (Payload : Type) := {
  graph_payload_type : Payload -> option string;
  decode_graph : Payload -> option EventPayload
}.

Section Folds.
Context `{GraphCodec Payload}.

Definition graph_reduction_payload (payload : Payload) : option EventPayload :=
  kind ← graph_payload_type payload;
  if negb (starts_with "graph_" kind) && negb (String.eqb kind "todo_graph_attached")
     && negb (String.eqb kind "evidence_recorded") && negb (starts_with "menu_" kind)
  then None else decode_graph payload.

(** [apply_envelope_unprojected], with whether the envelope was a graph fact. *)
Definition apply_envelope_unprojected (payload : Payload) (self : GraphReductions)
    : GraphReductions * bool :=
  match graph_reduction_payload payload with
  | None => (self, false)
  | Some payload => (apply_payload payload self, true)
  end.

Definition apply_envelope (payload : Payload) (self : GraphReductions) : GraphReductions :=
  let '(self, changed) := apply_envelope_unprojected payload self in
  if changed then refresh_run_set_projections self else self.

Fixpoint fold_envelopes (payloads : list Payload) (self : GraphReductions) (changed : bool)
    : GraphReductions * bool :=
  match payloads with
  | [] => (self, changed)
  | payload :: payloads =>
      let '(self, c) := apply_envelope_unprojected payload self in
      fold_envelopes payloads self (changed || c)
  end.

Definition apply_envelopes (payloads : list Payload) (self : GraphReductions) : GraphReductions :=
  let '(self, changed) := fold_envelopes payloads self false in
  if changed then refresh_run_set_projections self else self.

Definition reduce_graphs (payloads : list Payload) : GraphReductions :=
  refresh_run_set_projections (fold_envelopes payloads reductions_default false).1.

(** [GraphReductions::active], and [reduce_graph]. *)
Definition active (self : GraphReductions) : option GraphReduction :=
  active_root self ≫= fun graph_id => by_graph self !! graph_id.

Definition reduce_graph (payloads : list Payload) : GraphReduction :=
  default (mkReduction None [] [] [] []) (active (reduce_graphs payloads)).
End Folds.
