(* ===== verification/ReduceProps.v ===== *)
(** * Properties of the convergence-graph reducer

    Per-graph isolation of the journal arms, the effect of a targeted retry,
    the invariant every projection keeps, run-set bookkeeping, and how the
    incremental fold relates to the batch fold. *)

From Stdlib Require Import Sorted.
From S2P Require Import Prelude RustStr Digest Worklist GraphTypes GraphTemplate TemplateOrder.
From S2P Require Import ActivationGraph ActivationStep TemplateProps GraphStatus GraphReduce.

Local Open Scope string_scope.

(** ** Lookups *)

Lemma update_graph_lookup g f self g' :
  by_graph (update_graph g f self) !! g' =
  if decide (g = g') then f <$> by_graph self !! g else by_graph self !! g'.
Proof.
  unfold update_graph. simpl. destruct (decide (g = g')) as [<-|].
  - by rewrite lookup_alter_eq.
  - by rewrite lookup_alter_ne.
Qed.

Lemma update_graph_fields g f self :
  active_root (update_graph g f self) = active_root self /\
  active_run_set (update_graph g f self) = active_run_set self /\
  run_sets (update_graph g f self) = run_sets self.
Proof. done. Qed.

(** ** Stable sorting *)

Section Sorting.
Context {A : Type} (leb : A -> A -> bool).
Hypothesis leb_total : forall a b, leb a b = true \/ leb b a = true.
Hypothesis leb_trans : forall a b c, leb a b = true -> leb b c = true -> leb a c = true.

Lemma stable_insert_perm x l : stable_insert leb x l ≡ₚ x :: l.
Proof.
  induction l as [|y l IH]; simpl; [done|]. destruct (leb x y); [done|].
  rewrite IH. apply perm_swap.
Qed.

Lemma stable_sort_perm l : stable_sort leb l ≡ₚ l.
Proof. induction l as [|x l IH]; simpl; [done|]. by rewrite stable_insert_perm, IH. Qed.

Lemma stable_insert_sorted x l :
  StronglySorted (fun a b => leb a b = true) l ->
  StronglySorted (fun a b => leb a b = true) (stable_insert leb x l).
Proof.
  induction 1 as [|y l Hl IH Hy]; simpl; [by repeat constructor|].
  destruct (leb x y) eqn:E.
  - constructor; [by constructor|]. constructor; [done|].
    eapply List.Forall_impl; [|exact Hy]. intros z Hz. by eapply leb_trans.
  - constructor; [done|]. apply List.Forall_forall. intros z Hz%list_elem_of_In.
    rewrite stable_insert_perm in Hz. apply elem_of_cons in Hz as [->|Hz].
    + destruct (leb_total x y); congruence.
    + rewrite List.Forall_forall in Hy. by apply Hy, list_elem_of_In.
Qed.

Lemma stable_sort_sorted l : StronglySorted (fun a b => leb a b = true) (stable_sort leb l).
Proof. induction l; simpl; [constructor|by apply stable_insert_sorted]. Qed.
End Sorting.

(** ** Isolation *)

(** The graphs whose projection a payload may touch. *)
Definition touches (payload : EventPayload) (g : GraphId) : bool :=
  match payload with
  | PGraphPinned p => bool_decide (pin_graph_id p = g)
  | PGraphAttemptOpened p => bool_decide (open_graph_id p = g)
  | PEvidenceRecorded p => bool_decide (rec_graph_id p = g)
  | PGraphGateSatisfied p => bool_decide (sat_graph_id p = g)
  | PGraphAdvanced p => bool_decide (adv_graph_id p = g)
  | PGraphNodeReadied p => bool_decide (rdy_graph_id p = g)
  | PGraphBlocked p => bool_decide (blk_graph_id p = g)
  | PGraphCompleted p => bool_decide (cmp_graph_id p = g)
  | PGraphAbandoned p => bool_decide (abn_graph_id p = g)
  | PGraphFinalizationDeferred p => bool_decide (def_graph_id p = g)
  | PGraphSuperseded p => bool_decide (sup_old p = g)
  | PMenuOpened menu => match menu_kind menu with
                        | GraphHumanConfirm id _ _ | GraphAbandonConfirm id _ _ =>
                            bool_decide (id = g)
                        | OtherMenu => false
                        end
  | PMenuAnswered _ | PMenuClosed _ => true
  | PGraphRunSetOpened _ | PTodoGraphAttached _ | OtherPayload => false
  end.

Lemma update_status_other g f self g' :
  g <> g' -> by_graph (update_status g f self) !! g' = by_graph self !! g'.
Proof. intros. unfold update_status. by rewrite update_graph_lookup, decide_False. Qed.

(** the reducer is isolated per graph: a journal fact leaves the projection
    of every graph it does not name exactly as it was. *)
Theorem reducer_isolated payload self g :
  touches payload g = false ->
  by_graph (apply_payload payload self) !! g = by_graph self !! g.
Proof.
  destruct payload; cbn [touches apply_payload]; intros Ht; try apply bool_decide_eq_false in Ht; try done;
    try (by apply update_status_other).
  - unfold apply_pinned. case_match; simpl; by rewrite lookup_insert_ne.
  - unfold apply_run_set_opened. by case_match.
  - unfold apply_todo_attached. repeat (case_match; try done).
  - unfold apply_evidence. by rewrite update_graph_lookup, decide_False.
  - unfold apply_deferred. by rewrite update_graph_lookup, decide_False.
  - unfold apply_superseded. case_match; simpl; by apply (update_status_other _ _ _ g).
  - unfold apply_menu_opened. destruct (menu_kind menu); [|rewrite update_graph_lookup|done];
      apply bool_decide_eq_false in Ht; rewrite ?decide_False by done; by apply update_status_other.
Qed.

(** computer observations are provenance, never testimony: recording one
    changes no graph's status, so it can neither satisfy a gate nor fill a slot. *)
Theorem observation_is_neutral recorded self g :
  is_computer_observation (rec_source recorded) = true ->
  gr_status <$> by_graph (apply_evidence recorded self) !! g = gr_status <$> by_graph self !! g.
Proof.
  intros Ho. unfold apply_evidence. rewrite update_graph_lookup. destruct (decide _) as [<-|]; [|done].
  destruct (by_graph self !! rec_graph_id recorded) as [r|]; simpl; [|done]. f_equal.
  destruct (gr_status r) as [s|] eqn:Es; [|done]. case_match; [done|]. by rewrite Ho.
Qed.

(** ** Attempts *)

Lemma find_status_map (f : GraphNodeStatus -> GraphNodeStatus) l x :
  (forall n, gn_node (f n) = gn_node n) ->
  find (fun n => bool_decide (gn_node n = x)) (map f l) =
  f <$> find (fun n => bool_decide (gn_node n = x)) l.
Proof.
  intros Hf. induction l as [|n l IH]; simpl; [done|]. rewrite Hf. by case_bool_decide.
Qed.

Lemma find_status_update x f s y :
  (forall n, gn_node (f n) = gn_node n) ->
  find_status (update_status_node x f s) y =
  if decide (x = y) then f <$> find_status s x else find_status s y.
Proof. apply (find_alter_first gn_node). Qed.

Lemma descendants_inclusive_spec specs t x :
  NoDup (names specs) -> x ∈ graph_descendants_inclusive specs t <-> rtc (needs specs) x t.
Proof. intros Hnd. apply (reachable_spec specs Hnd). Qed.

Lemma refresh_current_fields specs s :
  let s' := refresh_current_node specs s in
  gs_nodes s' = gs_nodes s /\ gs_attempt s' = gs_attempt s /\ gs_phase s' = gs_phase s /\
  gs_template_version s' = gs_template_version s /\ gs_start_node s' = gs_start_node s /\
  gs_ready_nodes s' ≡ₚ gs_ready_nodes s.
Proof. simpl. split_and!; try done. apply stable_sort_perm. Qed.

Lemma push_ready_fields specs x s :
  let s' := push_ready_in_template_order specs x s in
  gs_nodes s' = gs_nodes s /\ gs_attempt s' = gs_attempt s /\ gs_phase s' = gs_phase s /\
  gs_template_version s' = gs_template_version s /\ gs_start_node s' = gs_start_node s /\
  forall y, y ∈ gs_ready_nodes s' <-> y = x \/ y ∈ gs_ready_nodes s.
Proof.
  unfold push_ready_in_template_order.
  destruct (existsb _ (gs_ready_nodes s)) eqn:E; simpl; split_and!; try done; intros y;
    rewrite stable_sort_perm.
  - apply existsb_elem in E as (z & Hz & Hzx). guards. subst. set_solver.
  - set_solver.
Qed.

(** The invalidation of a reopened node that is not the start. *)
Lemma invalidate_for_reopened specs opened s n :
  NoDup (names specs) -> open_node opened <> default build_node (gs_start_node s) ->
  find_status s (open_node opened) = Some n -> (0 < gn_attempts_opened n)%N ->
  let s1 := invalidate_for specs opened s in
  let inv := graph_descendants_inclusive specs (open_node opened) in
  (forall x, find_status s1 x =
     (fun m => if bool_decide (x ∈ inv) then invalidate_node m else m) <$> find_status s x) /\
  gs_attempt s1 = N.max (gs_attempt s) (open_attempt opened) /\
  gs_template_version s1 = gs_template_version s /\
  gs_ready_nodes s1 ≡ₚ filterb (fun node => negb (bool_decide (node ∈ inv))) (gs_ready_nodes s).
Proof.
  intros Hnd Hst Hn Ha s1 inv.
  set (upd := fun node => if bool_decide (gn_node node ∈ inv) then invalidate_node node else node).
  set (s0 := set_ready_nodes (filterb (fun node => negb (bool_decide (node ∈ inv))) (gs_ready_nodes s))
    (set_nodes (map upd (gs_nodes s)) (set_attempt (N.max (gs_attempt s) (open_attempt opened)) s))).
  assert (s1 = refresh_current_node specs s0) as ->.
  { unfold s1, invalidate_for. rewrite Hn, (proj2 (N.ltb_lt _ _)) by done.
    by rewrite (bool_decide_false (open_node opened = _)) by done. }
  destruct (refresh_current_fields specs s0) as (En & Ea & _ & Ev & _ & Er).
  split_and!; [|done|done|done]. intros x. unfold find_status. rewrite En. simpl.
  rewrite find_status_map by (intros m; unfold upd; by case_match).
  destruct (find _ (gs_nodes s)) as [m|] eqn:E; [|done]. simpl. f_equal.
  apply find_some_iff in E as [_ E]. guards. unfold upd. by rewrite E.
Qed.

(** a targeted retry invalidates exactly the reopened node and its
    dependency descendants: every other node keeps its attempt, its evidence
    and its gate, descendants lose theirs, and the ready set drops exactly the
    descendants and gains the reopened node. *)
Theorem targeted_retry specs opened s n :
  NoDup (names specs) -> gs_phase s = PhActive -> gs_template_version s <> 0%N ->
  open_node opened <> default build_node (gs_start_node s) ->
  find_status s (open_node opened) = Some n -> (0 < gn_attempts_opened n)%N ->
  let s' := open_attempt_status specs opened s in
  (forall x, ~ rtc (needs specs) x (open_node opened) -> find_status s' x = find_status s x) /\
  (forall x, x <> open_node opened -> rtc (needs specs) x (open_node opened) ->
     find_status s' x = invalidate_node <$> find_status s x) /\
  find_status s' (open_node opened) =
    Some (opened_node (open_attempt opened) (invalidate_node n)) /\
  (forall x, x ∈ gs_ready_nodes s' <->
     x = open_node opened \/ (x ∈ gs_ready_nodes s /\ ~ rtc (needs specs) x (open_node opened))) /\
  gs_attempt s' = N.max (gs_attempt s) (open_attempt opened).
Proof.
  intros Hnd Hp Hv Hst Hn Ha.
  destruct (invalidate_for_reopened specs opened s n Hnd Hst Hn Ha) as (Hf1 & Ha1 & Hv1 & Hr1).
  set (x0 := open_node opened) in *. set (s1 := invalidate_for specs opened s) in *.
  assert (forall x, x ∈ graph_descendants_inclusive specs x0 <-> rtc (needs specs) x x0) as Hinv.
  { intros x. by apply descendants_inclusive_spec. }
  set (s2 := update_status_node x0 (opened_node (open_attempt opened)) s1).
  assert (open_attempt_status specs opened s = push_ready_in_template_order specs x0 s2) as ->.
  { unfold open_attempt_status. rewrite bool_decide_true by done. cbn [negb]. fold s1 x0 s2.
    change (gs_template_version s2) with (gs_template_version s1). rewrite Hv1.
    by rewrite (proj2 (N.eqb_neq _ _)). }
  pose proof (push_ready_fields specs x0 s2) as (En & Ea & _ & _ & _ & Er).
  assert (forall x, find_status (push_ready_in_template_order specs x0 s2) x = if decide (x0 = x)
    then opened_node (open_attempt opened) <$> find_status s1 x0 else find_status s1 x) as Hf3.
  { intros x. unfold find_status at 1. rewrite En. by apply find_status_update. }
  split_and!.
  - intros x Hx. rewrite Hf3, decide_False by (intros <-; by apply Hx).
    rewrite Hf1, bool_decide_false by (by rewrite Hinv). by destruct (find_status s x).
  - intros x Hne Hx. rewrite Hf3, decide_False by done.
    by rewrite Hf1, bool_decide_true by (by apply Hinv).
  - rewrite Hf3, decide_True, Hf1, bool_decide_true, Hn by (done || by apply Hinv). done.
  - intros x. rewrite Er. change (gs_ready_nodes s2) with (gs_ready_nodes s1).
    rewrite Hr1, filterb_elem, negb_true_iff, bool_decide_eq_false, Hinv. done.
  - rewrite Ea. exact Ha1.
Qed.
