(* ===== verification/ReduceInv.v ===== *)
(** * The invariant of graph projections

    Every projection reached by journal facts and reconciliations, in any
    order, keeps its node index, tallies that agree with its slots, and a ready
    list in template order whose head is the current node; run sets keep
    bounded, duplicate-free, ordered children. *)

From Stdlib Require Import Sorted.
From S2P Require Import Prelude RustStr Digest Worklist GraphTypes GraphTemplate TemplateOrder.
From S2P Require Import ActivationGraph GraphStatus GraphReduce ReduceProps.

Local Open Scope string_scope.

(** ** Tallies *)

Definition node_tally_ok (n : GraphNodeStatus) : Prop :=
  match gn_evidence_slots n with
  | [] => (effective_green (gn_evidence n) <= tally_green (gn_evidence n))%N /\
          (tally_green (gn_evidence n) <= u32_max)%N /\
          (standing_red (gn_evidence n) = 0%N \/
           standing_red (gn_evidence n) = 1%N /\ effective_green (gn_evidence n) = 0%N)
  | slots => effective_green (gn_evidence n) = count_verdict Green slots /\
             standing_red (gn_evidence n) = count_verdict Red slots
  end.

Lemma cleared_tally_ok n : node_tally_ok (clear_evidence_frontier n).
Proof.
  unfold node_tally_ok. destruct n as [x g e a c t slots b]. simpl.
  destruct slots as [|s l]; simpl; [split_and!; [lia|unfold u32_max; lia|by left]|].
  assert (forall v, filterb (fun slot => opt_eqb (ss_verdict slot) (Some v)) (map clear_slot l) = []) as E.
  { intros v. induction l as [|s' l IH]; simpl; [done|]. exact IH. }
  unfold count_verdict. simpl. by rewrite !E.
Qed.

Lemma tally_flat_ok v t :
  (effective_green t <= tally_green t)%N -> (tally_green t <= u32_max)%N ->
  let t' := tally_flat v t in
  (effective_green t' <= tally_green t')%N /\ (tally_green t' <= u32_max)%N /\
  (standing_red t' = 0%N \/ standing_red t' = 1%N /\ effective_green t' = 0%N).
Proof.
  intros He Hg. destruct v; simpl; unfold saturating_add_u32; [|auto with lia].
  split_and!; [lia|lia|by left].
Qed.

Lemma record_on_node_ok recorded n : node_tally_ok n -> node_tally_ok (record_on_node recorded n).
Proof.
  unfold record_on_node. intros Hn. destruct (gn_evidence_slots n) as [|s l] eqn:Es.
  - unfold node_tally_ok in *. rewrite Es in Hn. destruct Hn as (He & Hg & _). simpl.
    by apply tally_flat_ok.
  - destruct (_ ≫= _) as [found|]; [|done]. unfold node_tally_ok, with_evidence. simpl.
    set (slots := if bool_decide _ then _ else _). assert (slots <> []) as Hne.
    { unfold slots. by case_match. }
    destruct slots; done.
Qed.

(** ** One status *)

Definition index_leb (specs : list GraphNodeSpec) (a b : GraphNodeName) : bool :=
  (template_index specs a <=? template_index specs b)%N.

Record ready_ok (specs : list GraphNodeSpec) (s : GraphStatus) : Prop := {
  ro_current : gs_current_node s = head (gs_ready_nodes s);
  ro_nodup : NoDup (gs_ready_nodes s);
  ro_sorted : StronglySorted (fun a b => index_leb specs a b = true) (gs_ready_nodes s)
}.

Record status_ok (specs : list GraphNodeSpec) (s : GraphStatus) : Prop := {
  so_names : map gn_node (gs_nodes s) = map spec_name specs;
  so_tally : Forall node_tally_ok (gs_nodes s);
  so_ready : gs_template_version s <> 0%N -> gs_phase s = PhActive -> ready_ok specs s
}.

Lemma refresh_current_ready specs s :
  NoDup (gs_ready_nodes s) -> ready_ok specs (refresh_current_node specs s).
Proof.
  intros Hnd. split; simpl; [done| |].
  - by rewrite stable_sort_perm.
  - apply stable_sort_sorted.
    + intros a b. rewrite !N.leb_le. lia.
    + intros a b c. rewrite !N.leb_le. lia.
Qed.

Lemma push_ready_ready specs x s :
  NoDup (gs_ready_nodes s) -> ready_ok specs (push_ready_in_template_order specs x s).
Proof.
  intros Hnd. unfold push_ready_in_template_order. apply refresh_current_ready.
  destruct (existsb _ _) eqn:E; [done|]. simpl. rewrite existsb_false in E.
  apply NoDup_app. split_and!; [done| |apply NoDup_singleton].
  intros y Hy ->%list_elem_of_singleton. specialize (E x Hy). by rewrite bool_decide_true in E.
Qed.

Lemma map_names (f : GraphNodeStatus -> GraphNodeStatus) l :
  (forall n, gn_node (f n) = gn_node n) -> map gn_node (map f l) = map gn_node l.
Proof. intros Hf. rewrite map_map. by apply map_ext. Qed.

Lemma alter_first_names p (f : GraphNodeStatus -> GraphNodeStatus) l :
  (forall n, gn_node (f n) = gn_node n) -> map gn_node (alter_first p f l) = map gn_node l.
Proof. intros Hf. induction l as [|n l IH]; simpl; [done|]. destruct (p n); simpl; by rewrite ?Hf, ?IH. Qed.

Lemma alter_first_Forall {A} (P : A -> Prop) p f l :
  (forall a, P a -> P (f a)) -> Forall P l -> Forall P (alter_first p f l).
Proof.
  intros Hf. induction 1 as [|a l Ha Hl IH]; simpl; [constructor|].
  destruct (p a); constructor; auto.
Qed.

(** A change of the node list alone. *)
Lemma status_ok_nodes specs s nodes :
  status_ok specs s -> map gn_node nodes = map gn_node (gs_nodes s) -> Forall node_tally_ok nodes ->
  status_ok specs (set_nodes nodes s).
Proof. intros [Hn Ht Hr] Hm Hf. split; simpl; [by rewrite Hm|done|]. intros Hv Hp. by destruct (Hr Hv Hp). Qed.

Lemma invalidated_ok specs opened s :
  status_ok specs s ->
  let s1 := invalidate_for specs opened s in
  map gn_node (gs_nodes s1) = map spec_name specs /\ Forall node_tally_ok (gs_nodes s1) /\
  gs_template_version s1 = gs_template_version s /\ gs_graph_id s1 = gs_graph_id s /\
  (gs_template_version s <> 0%N -> gs_phase s = PhActive -> NoDup (gs_ready_nodes s1)).
Proof.
  intros [Hn Ht Hr]. unfold invalidate_for.
  assert (forall n, node_tally_ok (invalidate_node n)) as Hinv by (intros n; apply (cleared_tally_ok n)).
  assert (gs_template_version s <> 0%N -> gs_phase s = PhActive -> NoDup (gs_ready_nodes s)) as Hnd.
  { intros Hv Hp. apply (Hr Hv Hp). }
  repeat case_match; simpl; try done.
  all: rewrite map_names by (intros; by repeat case_match).
  all: split_and!; [done| |done|done|].
  all: try (apply Forall_map; eapply Forall_impl; [exact Ht|]; intros n Hok; simpl;
            by repeat case_match).
  all: intros Hv Hp; rewrite ?stable_sort_perm; by (constructor || apply filterb_NoDup, Hnd).
Qed.

Lemma open_attempt_ok specs opened s :
  status_ok specs s ->
  status_ok specs (open_attempt_status specs opened s) /\
  gs_graph_id (open_attempt_status specs opened s) = gs_graph_id s.
Proof.
  intros Hs. unfold open_attempt_status. case_bool_decide as Hp; simpl; [|done].
  destruct (invalidated_ok specs opened s Hs) as (Hn1 & Ht1 & Hv1 & Hg1 & Hr1).
  set (s1 := invalidate_for specs opened s) in *.
  assert (map gn_node (alter_first (fun status => bool_decide (gn_node status = open_node opened))
    (opened_node (open_attempt opened)) (gs_nodes s1)) = map spec_name specs) as Hn2.
  { by rewrite alter_first_names. }
  assert (Forall node_tally_ok (alter_first (fun status => bool_decide (gn_node status = open_node opened))
    (opened_node (open_attempt opened)) (gs_nodes s1))) as Ht2.
  { apply alter_first_Forall; [|done]. intros n _. apply (cleared_tally_ok n). }
  simpl. destruct (N.eqb_spec (gs_template_version s1) 0) as [E|E].
  - split; [|done]. split; simpl; done.
  - destruct (push_ready_fields specs (open_node opened)
      (update_status_node (open_node opened) (opened_node (open_attempt opened)) s1))
      as (En & _). split; [|unfold push_ready_in_template_order; by case_match].
    split; [by rewrite En|by rewrite En|]. intros _ _. apply push_ready_ready. simpl.
    apply Hr1; [congruence|done].
Qed.

(** The other updates of one status. *)
Lemma status_ok_inactive specs s s' :
  status_ok specs s -> gs_nodes s' = gs_nodes s -> gs_phase s' <> PhActive -> status_ok specs s'.
Proof. intros [Hn Ht _] En Hp. split; rewrite ?En; done. Qed.

Lemma status_ok_same specs s s' :
  status_ok specs s -> gs_nodes s' = gs_nodes s -> gs_phase s' = gs_phase s ->
  gs_template_version s' = gs_template_version s -> gs_ready_nodes s' = gs_ready_nodes s ->
  gs_current_node s' = gs_current_node s -> status_ok specs s'.
Proof.
  intros [Hn Ht Hr] En Ep Ev Er Ec. split; rewrite ?En; [done..|]. rewrite Ev, Ep. intros Hv Hp.
  destruct (Hr Hv Hp) as [Hc Hnd Hs]. split; rewrite ?Er, ?Ec; done.
Qed.

Lemma satisfy_ok specs satisfied s :
  status_ok specs s -> status_ok specs (satisfy_status specs satisfied s).
Proof.
  intros Hs. unfold satisfy_status. case_match; [done|].
  assert (status_ok specs (update_status_node (sat_node satisfied) satisfied_node s)) as Hs1.
  { apply status_ok_nodes; [done|by apply alter_first_names|].
    apply alter_first_Forall; [|apply Hs]. intros n Hn. exact Hn. }
  case_match; [|done]. split; simpl; [apply Hs1|apply Hs1|]. intros Hv Hp.
  apply (refresh_current_ready specs (set_ready_nodes _ _)). simpl.
  apply filterb_NoDup, (so_ready specs s Hs Hv Hp).
Qed.

Lemma readied_ok specs x s :
  status_ok specs s -> gs_phase s = PhActive ->
  status_ok specs (push_ready_in_template_order specs x s) \/ gs_template_version s = 0%N.
Proof.
  intros Hs Hp. destruct (decide (gs_template_version s = 0%N)) as [|Hv]; [by right|left].
  destruct (push_ready_fields specs x s) as (En & _).
  split; [rewrite En; apply Hs|rewrite En; apply Hs|]. intros _ _. apply push_ready_ready.
  apply (so_ready specs s Hs Hv Hp).
Qed.

Lemma push_ready_legacy specs x s :
  status_ok specs s -> gs_template_version s = 0%N ->
  status_ok specs (push_ready_in_template_order specs x s).
Proof.
  intros Hs Hv. destruct (push_ready_fields specs x s) as (En & _ & _ & Ev & _).
  split; [rewrite En; apply Hs|rewrite En; apply Hs|]. by rewrite Ev.
Qed.

(** ** All graphs *)

Definition reduction_ok (g : GraphId) (r : GraphReduction) : Prop :=
  forall s, gr_status r = Some s -> gs_graph_id s = g /\ status_ok (gr_template_nodes r) s.

Definition graphs_ok (self : GraphReductions) : Prop := map_Forall reduction_ok (by_graph self).

Lemma update_graph_ok g f self :
  graphs_ok self -> (forall r, reduction_ok g r -> reduction_ok g (f r)) ->
  graphs_ok (update_graph g f self).
Proof.
  intros Hs Hf g' r. rewrite update_graph_lookup. destruct (decide _) as [<-|]; [|apply Hs].
  rewrite fmap_Some. intros (r0 & Hr0 & ->). apply Hf, Hs, Hr0.
Qed.

Lemma update_status_ok g f self :
  graphs_ok self ->
  (forall r s, status_ok (gr_template_nodes r) s ->
     status_ok (gr_template_nodes r) (f r s) /\ gs_graph_id (f r s) = gs_graph_id s) ->
  graphs_ok (update_status g f self).
Proof.
  intros Hs Hf. apply update_graph_ok; [done|]. intros r Hr.
  destruct (gr_status r) as [s|] eqn:E; [|done]. case_bool_decide; [|done].
  intros s' [= <-]. destruct (Hr s E) as [Hg Hok]. destruct (Hf r s Hok) as [Hok' Hg'].
  split; [congruence|done].
Qed.

Lemma initial_status_ok pinned : status_ok (pin_nodes pinned) (initial_status pinned).
Proof.
  split; simpl.
  - rewrite map_map. by apply map_ext.
  - apply Forall_map, Forall_true. intros spec.
    assert (forall v l, filterb (fun slot => opt_eqb (ss_verdict slot) (Some v)) (map initial_slot l) = []) as E.
    { intros v l. induction l as [|s' l IH]; simpl; [done|]. exact IH. }
    unfold node_tally_ok. simpl. destruct (spec_verify_slots spec) as [|s l]; simpl.
    + split_and!; [lia|unfold u32_max; lia|by left].
    + unfold count_verdict. simpl. by rewrite !E.
  - intros _ _. split; simpl; [done|constructor|constructor].
Qed.

Lemma pinned_ok pinned self : graphs_ok self -> graphs_ok (apply_pinned pinned self).
Proof.
  intros Hs. unfold apply_pinned.
  assert (map_Forall reduction_ok (<[pin_graph_id pinned :=
    mkReduction (Some (initial_status pinned)) [] [] [] (pin_nodes pinned)]> (by_graph self))) as Hok.
  { apply map_Forall_insert_2; [|done]. intros s [= <-]. split; [done|apply initial_status_ok]. }
  case_match; exact Hok.
Qed.

Lemma evidence_ok recorded self : graphs_ok self -> graphs_ok (apply_evidence recorded self).
Proof.
  intros Hs. apply update_graph_ok; [done|]. intros r Hr.
  destruct (gr_status r) as [s|] eqn:E; [|done]. case_match; [done|]. intros s' [= <-]. simpl.
  destruct (Hr s E) as [Hg Hok]. case_match; [|done]. split; [done|].
  apply status_ok_nodes; [done|apply alter_first_names|].
  - intros n. unfold record_on_node. by repeat case_match.
  - apply alter_first_Forall; [apply record_on_node_ok|apply Hok].
Qed.

Lemma menu_opened_ok menu self : graphs_ok self -> graphs_ok (apply_menu_opened menu self).
Proof.
  intros Hs. unfold apply_menu_opened. destruct (menu_kind menu); [| |done].
  - apply update_status_ok; [done|]. intros r s Hok. split; [by eapply status_ok_same|done].
  - apply update_graph_ok; [|done].
    apply update_status_ok; [done|]. intros r s Hok. split; [by eapply status_ok_same|done].
Qed.

Lemma menu_closed_ok menu self : graphs_ok self -> graphs_ok (apply_menu_closed menu self).
Proof.
  intros Hs g r. simpl. rewrite lookup_fmap, fmap_Some. intros (r0 & Hr0 & ->) s. simpl.
  rewrite fmap_Some. intros (s0 & Hs0 & ->). destruct (Hs g r0 Hr0 s0 Hs0) as [Hg Hok].
  split; [done|by eapply status_ok_same].
Qed.

Lemma apply_payload_ok payload self : graphs_ok self -> graphs_ok (apply_payload payload self).
Proof.
  intros Hs. destruct payload; cbn [apply_payload].
  - by apply pinned_ok.
  - unfold apply_run_set_opened. by case_match.
  - unfold apply_todo_attached. by repeat case_match.
  - apply update_status_ok; [done|]. intros r s Hok. by apply open_attempt_ok.
  - by apply evidence_ok.
  - apply update_status_ok; [done|]. intros r s Hok. split; [by apply satisfy_ok|].
    unfold satisfy_status. by repeat case_match.
  - apply update_status_ok; [done|]. intros r s Hok. case_match eqn:E; [|done]. split; [|done].
    apply N.eqb_eq in E. split; simpl; [apply Hok|apply Hok|done].
  - apply update_status_ok; [done|]. intros r s Hok. case_match eqn:E; [|done]. guards.
    split; [|unfold push_ready_in_template_order; by case_match].
    destruct (readied_ok (gr_template_nodes r) (rdy_node readied) s Hok) as [|Hv]; [done|done|].
    by apply push_ready_legacy.
  - apply update_status_ok; [done|]. intros r s Hok. split; [by eapply status_ok_inactive|done].
  - apply update_status_ok; [done|]. intros r s Hok.
    destruct (0 <? gs_template_version s)%N eqn:E; cbn; rewrite E;
      (split; [by eapply status_ok_inactive|done]).
  - apply update_status_ok; [done|]. intros r s Hok. split; [by eapply status_ok_inactive|done].
  - apply update_graph_ok; [done|]. intros r Hr. by case_match.
  - unfold apply_superseded.
    assert (graphs_ok (update_status (sup_old superseded) (fun _ status =>
      set_menus None [] (set_ready_nodes [] (set_current_node None
      (set_phase PhSuperseded status)))) self)) as Hok.
    { apply update_status_ok; [done|]. intros r s Hok. split; [by eapply status_ok_inactive|done]. }
    by case_match.
  - by apply menu_opened_ok.
  - by apply menu_closed_ok.
  - by apply menu_closed_ok.
  - done.
Qed.

Lemma refresh_root_ok specs run_set s :
  status_ok specs s -> status_ok specs (refresh_root run_set s) /\
  gs_graph_id (refresh_root run_set s) = gs_graph_id s.
Proof.
  intros Hok. unfold refresh_root. simpl. destruct (gs_phase s) eqn:Hp; (split; [|done]).
  4,5: eapply status_ok_inactive; [done|done|]; simpl; congruence.
  all: split; simpl; [apply Hok|apply Hok|]; intros _ _; split; simpl; [done|constructor|constructor].
Qed.

Lemma refresh_ok self : graphs_ok self -> graphs_ok (refresh_run_set_projections self).
Proof.
  intros Hs. unfold refresh_run_set_projections. case_match; [|done].
  apply update_graph_ok; [done|]. intros r Hr. destruct (gr_status r) as [s|] eqn:E; [|done].
  intros s' [= <-]. simpl. destruct (Hr s E) as [Hg Hok].
  destruct (refresh_root_ok (gr_template_nodes r) g s Hok) as [? Hg']. by rewrite Hg'.
Qed.

(** ** Run sets *)

Record run_set_ok (id : GraphRunSetId) (rs : GraphRunSetStatus) : Prop := {
  rk_id : rs_run_set_id rs = id;
  rk_bound : (N.of_nat (length (rs_children rs)) <= rs_required_children rs)%N;
  rk_todos : NoDup (map td_todo_id (rs_children rs));
  rk_graphs : NoDup (map td_graph_id (rs_children rs));
  rk_sorted : StronglySorted (fun a b => todo_leb a b = true) (rs_children rs);
  rk_terminal : (rs_terminal_children rs <= rs_required_children rs)%N
}.

(** Each child graph is attached once, in one run set. *)
Record run_sets_ok (self : GraphReductions) : Prop := {
  rr_each : map_Forall run_set_ok (run_sets self);
  rr_apart : forall id id' rs rs' c c', run_sets self !! id = Some rs ->
    run_sets self !! id' = Some rs' -> c ∈ rs_children rs -> c' ∈ rs_children rs' ->
    td_graph_id c = td_graph_id c' -> id = id'
}.

Lemma attached_child_false self g :
  attached_child self g = false <->
  forall id rs c, run_sets self !! id = Some rs -> c ∈ rs_children rs -> td_graph_id c <> g.
Proof.
  unfold attached_child. rewrite existsb_false. split.
  - intros Hall id rs c Hrs Hc. specialize (Hall (id, rs) ltac:(by apply elem_of_map_to_list)).
    simpl in Hall. rewrite existsb_false in Hall. specialize (Hall c Hc). by guards.
  - intros Hall [id rs] Hin%elem_of_map_to_list. apply existsb_false. intros c Hc. guards.
    by eapply Hall.
Qed.

Lemma attach_child_ok attached id rs :
  run_set_ok id rs -> attach_rejected attached false rs = false ->
  (forall c, c ∈ rs_children rs -> td_graph_id c <> att_child_graph_id attached) ->
  run_set_ok id (attach_child attached rs).
Proof.
  intros [Hid Hb Ht Hg Hs Hterm] Hrej Hfresh. unfold attach_rejected in Hrej. guards.
  unfold attach_child. split; cbn [rs_run_set_id rs_required_children rs_children rs_terminal_children].
  - done.
  - rewrite stable_sort_perm, length_app. simpl. lia.
  - rewrite stable_sort_perm, map_app. simpl. apply NoDup_app. split_and!; [done| |apply NoDup_singleton].
    intros x (c & -> & Hc)%list_elem_of_fmap E%list_elem_of_singleton.
    match goal with F : forall x, x ∈ rs_children rs -> _ = false |- _ => specialize (F c Hc) end.
    by guards.
  - rewrite stable_sort_perm, map_app. simpl. apply NoDup_app. split_and!; [done| |apply NoDup_singleton].
    intros x (c & -> & Hc)%list_elem_of_fmap E%list_elem_of_singleton. by apply (Hfresh c).
  - apply stable_sort_sorted; unfold todo_leb.
    + intros a b. rewrite !orb_true_iff, !andb_true_iff, !N.ltb_lt, !N.eqb_eq, !N.leb_le. lia.
    + intros a b c. rewrite !orb_true_iff, !andb_true_iff, !N.ltb_lt, !N.eqb_eq, !N.leb_le. lia.
  - done.
Qed.

Lemma todo_attached_ok attached self :
  run_sets_ok self -> run_sets_ok (apply_todo_attached attached self).
Proof.
  intros Hok. unfold apply_todo_attached.
  destruct (run_sets self !! att_run_set_id attached) as [rs|] eqn:Hrs; [|done].
  destruct (attach_rejected _ _ rs) eqn:Hrej; [done|].
  assert (attached_child self (att_child_graph_id attached) = false) as Hfresh.
  { unfold attach_rejected in Hrej. by guards. }
  rewrite Hfresh in Hrej. rewrite attached_child_false in Hfresh.
  assert (forall c, c ∈ rs_children (attach_child attached rs) <->
    c ∈ rs_children rs \/ c = mkTodoStatus (att_todo_id attached) (att_depends_on_todo_id attached)
      (att_child_graph_id attached) (att_ordinal attached) PhActive None 0) as Hmem.
  { intros c. unfold attach_child. cbn [rs_children]. rewrite stable_sort_perm. set_solver. }
  split; cbn [run_sets with_run_sets].
  - apply map_Forall_insert_2; [|apply Hok]. apply attach_child_ok; [by apply Hok|done|].
    intros c. by apply (Hfresh (att_run_set_id attached)).
  - intros id id' r r' c c' Hr Hr' Hc Hc' E.
    apply lookup_insert_Some in Hr as [[<- <-]|[Hne Hr]], Hr' as [[<- <-]|[Hne' Hr']]; try done.
    + apply Hmem in Hc as [Hc| ->]; [by eapply rr_apart|].
      exfalso. by eapply Hfresh; [exact Hr'|exact Hc'|].
    + apply Hmem in Hc' as [Hc'| ->]; [by eapply rr_apart|].
      exfalso. by eapply Hfresh; [exact Hr|exact Hc|].
    + by eapply rr_apart.
Qed.

Lemma run_sets_ok_same self self' :
  run_sets self' = run_sets self -> run_sets_ok self -> run_sets_ok self'.
Proof. intros E [He Ha]. split; rewrite E; done. Qed.

Lemma run_set_opened_ok opened self :
  run_sets_ok self -> run_sets_ok (apply_run_set_opened opened self).
Proof.
  intros Hok. unfold apply_run_set_opened. case_match; [done|].
  split; cbn [run_sets with_run_sets with_active_run_set].
  - apply map_Forall_insert_2; [|apply Hok].
    split; simpl; [done|lia|constructor|constructor|constructor|lia].
  - intros id id' r r' c c' Hr Hr' Hc Hc' E.
    apply lookup_insert_Some in Hr as [[<- <-]|[_ Hr]]; [simpl in Hc; set_solver|].
    apply lookup_insert_Some in Hr' as [[<- <-]|[_ Hr']]; [simpl in Hc'; set_solver|].
    by eapply rr_apart.
Qed.

Lemma apply_payload_run_sets payload self :
  run_sets_ok self -> run_sets_ok (apply_payload payload self).
Proof.
  intros Hok. destruct payload; cbn [apply_payload];
    try (by apply (run_sets_ok_same self)); try (by apply run_set_opened_ok);
    try (by apply todo_attached_ok).
  - unfold apply_pinned. case_match; by apply (run_sets_ok_same self).
  - unfold apply_superseded. case_match; by apply (run_sets_ok_same self).
  - unfold apply_menu_opened. case_match; by apply (run_sets_ok_same self).
Qed.

Lemma refresh_child_fields graphs c :
  td_todo_id (refresh_child graphs c) = td_todo_id c /\
  td_graph_id (refresh_child graphs c) = td_graph_id c /\
  td_ordinal (refresh_child graphs c) = td_ordinal c.
Proof. unfold refresh_child. by destruct (_ ≫= _). Qed.

Lemma refresh_children_keys graphs (key : TodoGraphStatus -> N) l :
  (forall c, key (refresh_child graphs c) = key c) ->
  map key (map (refresh_child graphs) l) = map key l.
Proof. intros Hk. rewrite map_map. by apply map_ext. Qed.

Lemma refresh_run_set_ok graphs id rs : run_set_ok id rs -> run_set_ok id (refresh_run_set graphs rs).
Proof.
  intros [Hid Hb Ht Hg Hs Hterm]. unfold refresh_run_set. split; simpl.
  - done.
  - by rewrite length_map.
  - rewrite map_map. erewrite map_ext; [exact Ht|]. intros c. apply refresh_child_fields.
  - rewrite map_map. erewrite map_ext; [exact Hg|]. intros c. apply refresh_child_fields.
  - clear -Hs. induction Hs as [|c l Hl IH Hc]; simpl; [constructor|]. constructor; [done|].
    apply List.Forall_map. eapply List.Forall_impl; [|exact Hc]. intros d. unfold todo_leb.
    destruct (refresh_child_fields graphs c) as (-> & _ & ->).
    by destruct (refresh_child_fields graphs d) as (-> & _ & ->).
  - lia.
Qed.

Lemma refresh_run_sets self :
  run_sets (refresh_run_set_projections self) = refresh_run_set (by_graph self) <$> run_sets self.
Proof. unfold refresh_run_set_projections. by case_match. Qed.

Lemma refresh_run_sets_ok self : run_sets_ok self -> run_sets_ok (refresh_run_set_projections self).
Proof.
  intros [He Ha]. split; rewrite refresh_run_sets.
  - intros id rs. rewrite lookup_fmap, fmap_Some. intros (rs0 & Hrs & ->).
    by apply refresh_run_set_ok, He.
  - intros id id' rs rs' c c'. rewrite !lookup_fmap, !fmap_Some.
    intros (r0 & Hr & ->) (r1 & Hr' & ->). simpl.
    intros (d & -> & Hd)%list_elem_of_fmap (d' & -> & Hd')%list_elem_of_fmap.
    destruct (refresh_child_fields (by_graph self) d) as (_ & -> & _).
    destruct (refresh_child_fields (by_graph self) d') as (_ & -> & _). by eapply Ha.
Qed.

(** ** Reachable projections *)

Inductive graphs_reachable : GraphReductions -> Prop :=
| gr_default : graphs_reachable reductions_default
| gr_payload payload self : graphs_reachable self -> graphs_reachable (apply_payload payload self)
| gr_refresh self : graphs_reachable self -> graphs_reachable (refresh_run_set_projections self).

Lemma graphs_reachable_ok self : graphs_reachable self -> graphs_ok self /\ run_sets_ok self.
Proof.
  induction 1 as [|payload self _ [Hg Hr]|self _ [Hg Hr]].
  - split; [apply map_Forall_empty|]. split; [apply map_Forall_empty|].
    intros id id' rs rs' c c'. simpl. by rewrite lookup_empty.
  - split; [by apply apply_payload_ok|by apply apply_payload_run_sets].
  - split; [by apply refresh_ok|by apply refresh_run_sets_ok].
Qed.

(** C4: every projection reached by any sequence of journal facts and
    reconciliations is filed under its own id, keeps the pinned node index,
    has tallies that agree with its slots, and while active under a versioned
    template its ready list is duplicate free, in template order, and headed by
    the current node. *)
Theorem projection_invariant self g r s :
  graphs_reachable self -> by_graph self !! g = Some r -> gr_status r = Some s ->
  gs_graph_id s = g /\ status_ok (gr_template_nodes r) s.
Proof. intros [Hok _]%graphs_reachable_ok Hg Hs. by eapply Hok. Qed.

(** run sets stay well formed: at most the required number of children,
    distinct todo ids and graphs, ordered by ordinal and todo id, and a child
    graph belongs to at most one run set. *)
Theorem run_set_invariant self : graphs_reachable self -> run_sets_ok self.
Proof. by intros [_ Hok]%graphs_reachable_ok. Qed.

(** after a reconciliation a run set counts as complete exactly when all
    its required children are attached and every one of them is terminal. *)
Theorem run_set_completes_exactly self id rs :
  graphs_reachable self ->
  run_sets (refresh_run_set_projections self) !! id = Some rs ->
  (rs_required_children rs <= u32_max)%N ->
  is_complete rs = true <->
  N.of_nat (length (rs_children rs)) = rs_required_children rs /\
  Forall (fun c => graph_phase_is_terminal (td_phase c) = true) (rs_children rs).
Proof.
  intros [_ Hok]%graphs_reachable_ok. rewrite refresh_run_sets, lookup_fmap, fmap_Some.
  intros (rs0 & Hrs & ->) Hu. pose proof (rr_each _ Hok id rs0 Hrs) as [_ Hb _ _ _ _].
  unfold is_complete, refresh_run_set, u32_of_usize in *. simpl in *. rewrite N.eqb_eq, length_map.
  set (l := map (refresh_child (by_graph self)) (rs_children rs0)).
  assert (length l = length (rs_children rs0)) as Hlen by apply length_map.
  pose proof (filter_length_le (fun c => graph_phase_is_terminal (td_phase c)) l) as Hle.
  assert (length (filterb (fun c => graph_phase_is_terminal (td_phase c)) l) = length l <->
    Forall (fun c => graph_phase_is_terminal (td_phase c) = true) l) as Hall.
  { clear. induction l as [|c l IH]; simpl; [by split|]. rewrite Forall_cons, <- IH.
    pose proof (filter_length_le (fun c => graph_phase_is_terminal (td_phase c)) l).
    destruct (graph_phase_is_terminal (td_phase c)); simpl; split; intros; naive_solver lia. }
  rewrite <- Hall. lia.
Qed.
