(* ===== verification/ReduceFold.v ===== *)
(** * Batch and incremental reduction

    [reduce_graphs] folds a whole journal and reconciles run sets once;
    [apply_envelope] and [apply_envelopes] fold a suffix and reconcile after
    each call.  Without run sets the two agree on every split of the journal;
    with a run set they need not. *)

From Stdlib Require Import Sorted.
From S2P Require Import Prelude RustStr Digest Worklist GraphTypes GraphTemplate TemplateOrder.
From S2P Require Import GraphStatus GraphReduce TemplateProps ReduceProps ReduceInv.

Local Open Scope string_scope.

(** ** Reconciliation is idempotent *)

(** The root of the active run set, when there is one. *)
Definition active_set (self : GraphReductions) : option GraphRunSetStatus :=
  active_run_set self ≫= fun id => run_sets self !! id.

Lemma refresh_child_ext m m' c :
  m !! td_graph_id c ≫= gr_status = m' !! td_graph_id c ≫= gr_status ->
  refresh_child m c = refresh_child m' c.
Proof. unfold refresh_child. by intros ->. Qed.

Lemma refresh_child_twice m c : refresh_child m (refresh_child m c) = refresh_child m c.
Proof.
  unfold refresh_child at 1 3. destruct (refresh_child_fields m c) as (-> & -> & ->).
  destruct (m !! td_graph_id c ≫= gr_status) as [s|] eqn:E; unfold refresh_child; rewrite E; done.
Qed.

Lemma refresh_run_set_twice m m' rs :
  (forall c, c ∈ rs_children rs ->
     m' !! td_graph_id c ≫= gr_status = m !! td_graph_id c ≫= gr_status) ->
  refresh_run_set m' (refresh_run_set m rs) = refresh_run_set m rs.
Proof.
  intros Hm. unfold refresh_run_set. simpl.
  assert (map (refresh_child m') (map (refresh_child m) (rs_children rs)) =
    map (refresh_child m) (rs_children rs)) as ->; [|done].
  rewrite map_map. apply map_ext_in. intros c Hc%list_elem_of_In.
  rewrite (refresh_child_ext m' m); [apply refresh_child_twice|].
  destruct (refresh_child_fields m c) as (_ & -> & _). by apply Hm.
Qed.

Lemma refresh_root_twice rs s : refresh_root rs (refresh_root rs s) = refresh_root rs s.
Proof.
  unfold refresh_root. destruct s as [? ? ? ? ? [] ? ? ? ? ? ? ? ?]; simpl; try done;
    by destruct (is_complete rs).
Qed.

(** reconciling twice is reconciling once, whenever the root of the active
    run set is not itself attached as a child. *)
Theorem refresh_idempotent self :
  (forall rs, active_set self = Some rs -> attached_child self (rs_root_graph_id rs) = false) ->
  refresh_run_set_projections (refresh_run_set_projections self) =
  refresh_run_set_projections self.
Proof.
  intros Hroot. unfold active_set in Hroot.
  destruct self as [root graphs act sets]. unfold refresh_run_set_projections at 2 3. simpl in *.
  destruct act as [id|]; simpl in *.
  2:{ unfold refresh_run_set_projections. simpl. unfold with_run_sets. simpl. f_equal.
      rewrite <- map_fmap_compose. apply map_fmap_ext. intros i rs _. simpl.
      by apply refresh_run_set_twice. }
  rewrite lookup_fmap. destruct (sets !! id) as [rs|] eqn:Hrs; simpl.
  2:{ unfold refresh_run_set_projections. simpl. rewrite !lookup_fmap, Hrs. simpl.
      unfold with_run_sets. simpl. f_equal.
      rewrite <- map_fmap_compose. apply map_fmap_ext. intros i rs' _. simpl.
      by apply refresh_run_set_twice. }
  specialize (Hroot rs eq_refl). rewrite attached_child_false in Hroot. simpl in Hroot.
  set (rs1 := refresh_run_set graphs rs).
  set (step := fun reduction => match gr_status reduction with
    | Some status => with_status (Some (refresh_root rs1 status)) reduction | None => reduction end).
  set (graphs1 := alter step (rs_root_graph_id rs) graphs).
  assert (refresh_run_set graphs1 <$> (refresh_run_set graphs <$> sets) = refresh_run_set graphs <$> sets) as Hsets.
  { rewrite <- map_fmap_compose. apply map_fmap_ext. intros i rs' Hi. simpl.
    apply refresh_run_set_twice. intros c Hc. unfold graphs1.
    rewrite lookup_alter_ne; [done|]. intros E. by apply (Hroot i rs' c Hi Hc). }
  unfold refresh_run_set_projections, update_graph, with_run_sets, with_by_graph. simpl.
  fold rs1 step graphs1. rewrite Hsets, lookup_fmap, Hrs. simpl. fold rs1. f_equal.
  change (rs_root_graph_id rs1) with (rs_root_graph_id rs). fold step.
  unfold graphs1. rewrite alter_alter_eq. apply alter_ext. intros r _. unfold step.
  destruct (gr_status r) as [s|] eqn:E; simpl; rewrite !E; [|done].
  unfold with_status. simpl. by rewrite refresh_root_twice.
Qed.

(** ** Journals without run sets *)

Section Folds.
Context `{GraphCodec Payload}.

Lemma fold_envelopes_flag (l : list Payload) self c :
  (fold_envelopes l self c).1 = (fold_envelopes l self false).1.
Proof.
  revert self c. induction l as [|p l IH]; intros self c; simpl; [done|].
  destruct (apply_envelope_unprojected p self) as [self' c']. by rewrite IH, (IH _ (false || c')).
Qed.

Lemma fold_envelopes_app (l k : list Payload) self :
  (fold_envelopes (l ++ k) self false).1 =
  (fold_envelopes k (fold_envelopes l self false).1 false).1.
Proof.
  revert self. induction l as [|p l IH]; intros self; simpl; [done|].
  destruct (apply_envelope_unprojected p self) as [self' c'].
  by rewrite fold_envelopes_flag, IH, (fold_envelopes_flag l self' c').
Qed.

(** The journal never opens a run set. *)
Definition opens_run_set (p : Payload) : bool :=
  match graph_reduction_payload p with Some (PGraphRunSetOpened _) => true | _ => false end.

Definition no_run_sets (self : GraphReductions) : Prop :=
  active_run_set self = None /\ run_sets self = ∅.

Lemma refresh_no_run_sets self : no_run_sets self -> refresh_run_set_projections self = self.
Proof.
  destruct self as [root graphs act sets]. intros [Ha Hs]. simpl in *. subst.
  unfold refresh_run_set_projections, with_run_sets. simpl. by rewrite fmap_empty.
Qed.

Lemma apply_payload_no_run_sets payload self :
  (forall o, payload <> PGraphRunSetOpened o) -> no_run_sets self ->
  no_run_sets (apply_payload payload self).
Proof.
  intros Ho [Ha Hs]. destruct payload; cbn [apply_payload]; try done.
  - unfold apply_pinned. by case_match.
  - by destruct (Ho opened).
  - unfold apply_todo_attached. rewrite Hs, lookup_empty. done.
  - unfold apply_superseded. by case_match.
  - unfold apply_menu_opened. by case_match.
Qed.

Lemma unprojected_no_run_sets (p : Payload) self :
  opens_run_set p = false -> no_run_sets self ->
  no_run_sets (apply_envelope_unprojected p self).1.
Proof.
  unfold opens_run_set, apply_envelope_unprojected. destruct (graph_reduction_payload p) as [e|]; [|done].
  intros Ho Hs. apply apply_payload_no_run_sets; [|done]. by intros o ->.
Qed.

Lemma fold_no_run_sets (l : list Payload) self :
  forallb (fun p => negb (opens_run_set p)) l = true -> no_run_sets self ->
  no_run_sets (fold_envelopes l self false).1.
Proof.
  revert self. induction l as [|p l IH]; intros self; simpl; [done|]. rewrite andb_true_iff, negb_true_iff.
  intros [Hp Hl] Hs. pose proof (unprojected_no_run_sets p self Hp Hs) as Hs'.
  destruct (apply_envelope_unprojected p self) as [self' c']. rewrite fold_envelopes_flag. by apply IH.
Qed.

Lemma apply_envelopes_fold (l : list Payload) self :
  forallb (fun p => negb (opens_run_set p)) l = true -> no_run_sets self ->
  apply_envelopes l self = (fold_envelopes l self false).1.
Proof.
  intros Hl Hs. pose proof (fold_no_run_sets l self Hl Hs) as Hf. unfold apply_envelopes.
  destruct (fold_envelopes l self false) as [self' c]. simpl in *.
  destruct c; [by apply refresh_no_run_sets|done].
Qed.

(** on a journal that opens no run set, folding it in any two batches gives
    the projection of the whole journal: caches may continue from a prefix. *)
Theorem incremental_equals_batch (l k : list Payload) :
  forallb (fun p => negb (opens_run_set p)) (l ++ k) = true ->
  apply_envelopes k (reduce_graphs l) = reduce_graphs (l ++ k).
Proof.
  rewrite forallb_app, andb_true_iff. intros [Hl Hk]. unfold reduce_graphs.
  pose proof (fold_no_run_sets l reductions_default Hl (conj eq_refl eq_refl)) as Hs.
  rewrite (refresh_no_run_sets _ Hs), (apply_envelopes_fold _ _ Hk Hs), fold_envelopes_app.
  symmetry. apply refresh_no_run_sets. by apply fold_no_run_sets.
Qed.

Lemma reduce_graphs_reachable (l : list Payload) : graphs_reachable (reduce_graphs l).
Proof.
  apply gr_refresh. assert (graphs_reachable reductions_default) as Hs by constructor.
  revert Hs. generalize reductions_default. induction l as [|p l IH]; intros self Hs; simpl; [done|].
  unfold apply_envelope_unprojected. destruct (graph_reduction_payload p); simpl.
  - rewrite fold_envelopes_flag. apply IH. by apply gr_payload.
  - by apply IH.
Qed.
End Folds.

(** ** A sample journal *)

Module Journal.
#[export] Instance codec : GraphCodec EventPayload := {
  graph_payload_type := fun _ => Some "graph_event";
  decode_graph := Some
}.

Definition pin (g : string) (t : GraphTemplateSpec) : EventPayload :=
  PGraphPinned (mkPinned g (tpl_name t) "digest" (tpl_version t) (tpl_start_node t) (tpl_nodes t)).

Definition open (g node : string) (attempt : N) : EventPayload :=
  PGraphAttemptOpened (mkAttemptOpened g node attempt).

Definition green (g node : string) (attempt : N) (slot : option string) : EvidenceRecorded :=
  mkRecorded g node attempt Green "ok" "fp" slot None (SrcModel "run" "call").

Definition screenshot : EvidenceRecorded :=
  mkRecorded "root" "IMPLEMENT" 1 Green "shot" "fp" None None
    (SrcComputerObservation "run" "call" "eff" "args" Screenshot (mkImage "a" "image/png" 1 1 1) "rev").

Definition satisfied (g node : string) (attempt : N) : EventPayload :=
  PGraphGateSatisfied (mkGateSatisfied g node attempt).

(** A super-ship loop up to TESTS and CLEAN both open, TESTS half green. *)
Definition main : list EventPayload :=
  [pin "root" super_ship_loop_template; open "root" "IMPLEMENT" 1;
   PEvidenceRecorded (green "root" "IMPLEMENT" 1 None); satisfied "root" "IMPLEMENT" 1;
   open "root" "CLEAN" 1; open "root" "TESTS" 1;
   PEvidenceRecorded (green "root" "TESTS" 1 (Some "lint"))].

(** A run set over the root, and evidence against the root afterwards. *)
Definition with_run_set : list EventPayload :=
  [pin "root" super_ship_loop_template; open "root" "IMPLEMENT" 1;
   PGraphRunSetOpened (mkRunSetOpened "set" "root" "plan" "event" 1)].

Definition late : EventPayload := PEvidenceRecorded (green "root" "IMPLEMENT" 1 None).

Definition child : list EventPayload :=
  (with_run_set ++ [PTodoGraphAttached (mkTodoAttached "set" "plan" 7 None "child" 0);
    pin "child" implement_verify_child_template; PGraphCompleted (mkGraphCompleted "child")])%list.

Definition status_of (g : string) (r : GraphReductions) : GraphStatus :=
  default (initial_status (mkPinned "" "" "" 0 None [])) (by_graph r !! g ≫= gr_status).

Definition reduction_of (g : string) (r : GraphReductions) : GraphReduction :=
  default (mkReduction None [] [] [] []) (by_graph r !! g).

Definition evidence_count (g : string) (r : GraphReductions) : nat :=
  length (gr_evidence (reduction_of g r)).
End Journal.

Import Journal.

(** with a run set the two folds differ: one journal, whose evidence
    against the run-set root is kept by the batch fold and dropped by the
    incremental one, because reconciling after each envelope clears the root's
    ready nodes. *)
Theorem incremental_diverges_with_run_set :
  exists (l : list EventPayload) (p : EventPayload) (g : GraphId),
    evidence_count g (reduce_graphs (l ++ [p])) = 1 /\
    evidence_count g (apply_envelope p (reduce_graphs l)) = 0.
Proof.
  exists with_run_set, late, "root". split; vm_compute; reflexivity.
Qed.

(** ** Witnesses *)

Section Witnesses.

Lemma reducer_isolated_witness :
  touches (open "other" "IMPLEMENT" 2) "root" = false /\
  by_graph (apply_payload (open "other" "IMPLEMENT" 2) (reduce_graphs main)) !! "root" =
  by_graph (reduce_graphs main) !! "root".
Proof.
  split; [reflexivity|]. apply (reducer_isolated (open "other" "IMPLEMENT" 2)). reflexivity.
Defined.

Lemma observation_is_neutral_witness :
  gr_status <$> by_graph (apply_evidence screenshot (reduce_graphs main)) !! "root" =
  gr_status <$> by_graph (reduce_graphs main) !! "root".
Proof. apply (observation_is_neutral screenshot (reduce_graphs main) "root"). reflexivity. Defined.

Definition tests_node : GraphNodeStatus :=
  default (initial_node_status true (node_spec "TESTS" CommandGreen Inline [] []))
    (find_status (status_of "root" (reduce_graphs main)) "TESTS").

Lemma targeted_retry_witness :
  let s := status_of "root" (reduce_graphs main) in
  let s' := open_attempt_status (tpl_nodes super_ship_loop_template)
              (mkAttemptOpened "root" "TESTS" 2) s in
  find_status s' "CLEAN" = find_status s "CLEAN" /\ gs_attempt s' = 2%N.
Proof.
  intros s s'.
  destruct (targeted_retry (tpl_nodes super_ship_loop_template) (mkAttemptOpened "root" "TESTS" 2)
    s tests_node) as (Hkeep & _ & _ & _ & Ha).
  - apply validate_nodes. vm_compute. reflexivity.
  - vm_compute. reflexivity.
  - vm_compute. discriminate.
  - vm_compute. discriminate.
  - vm_compute. reflexivity.
  - vm_compute. reflexivity.
  - split; [|exact Ha]. apply Hkeep. rewrite <- descendants_inclusive_spec.
    + vm_compute. discriminate.
    + apply validate_nodes. vm_compute. reflexivity.
Defined.

Lemma projection_invariant_witness :
  gs_graph_id (status_of "root" (reduce_graphs main)) = "root" /\
  status_ok (gr_template_nodes (reduction_of "root" (reduce_graphs main)))
    (status_of "root" (reduce_graphs main)).
Proof.
  apply (projection_invariant (reduce_graphs main) "root" (reduction_of "root" (reduce_graphs main))
    (status_of "root" (reduce_graphs main)) (reduce_graphs_reachable main)); vm_compute; reflexivity.
Defined.

Lemma run_set_invariant_witness : run_sets_ok (reduce_graphs child).
Proof. apply (run_set_invariant (reduce_graphs child)), reduce_graphs_reachable. Defined.

Definition set_of (r : GraphReductions) : GraphRunSetStatus :=
  default (mkRunSetStatus "" "" "" "" 0 0 []) (run_sets r !! "set").

Lemma run_set_completes_exactly_witness :
  let rs := set_of (refresh_run_set_projections (reduce_graphs child)) in
  N.of_nat (length (rs_children rs)) = rs_required_children rs /\
  Forall (fun c => graph_phase_is_terminal (td_phase c) = true) (rs_children rs).
Proof.
  intros rs. apply (run_set_completes_exactly (reduce_graphs child) "set" rs
    (reduce_graphs_reachable child)).
  - vm_compute. reflexivity.
  - vm_compute. discriminate.
  - vm_compute. reflexivity.
Defined.

Lemma refresh_idempotent_witness :
  refresh_run_set_projections (refresh_run_set_projections (reduce_graphs child)) =
  refresh_run_set_projections (reduce_graphs child).
Proof.
  apply (refresh_idempotent (reduce_graphs child)). intros rs Hrs.
  assert (rs_root_graph_id <$> active_set (reduce_graphs child) = Some "root") as E
    by (vm_compute; reflexivity).
  rewrite Hrs in E. injection E as ->. vm_compute. reflexivity.
Defined.

Lemma incremental_equals_batch_witness :
  apply_envelopes (drop 3 main) (reduce_graphs (take 3 main)) = reduce_graphs main.
Proof. apply (incremental_equals_batch (take 3 main) (drop 3 main)). vm_compute. reflexivity. Defined.
End Witnesses.
