(* ===== verification/StrLaws.v ===== *)
(** * Laws of the string operations

    How code points, trimming, word splitting, line splitting and searching
    behave on concatenations: what a printer needs to be read back. *)

From S2P Require Import Prelude RustStr Digest.

Local Open Scope string_scope.

(** ** Code points *)

(** A group is one byte followed by continuation bytes; only the first group of
    a string may start with a continuation byte. *)
Definition wf_group (g : string) : bool :=
  match g with String _ t => all_bytes is_continuation t | "" => false end.

Definition wf_groups (gs : list string) : Prop :=
  Forall (fun g => wf_group g = true) gs /\
  Forall (fun g => starts_continuation g = false) (tail gs).

Lemma starts_continuation_app s t :
  s <> "" -> starts_continuation (s ++ t) = starts_continuation s.
Proof. by destruct s. Qed.

Lemma chars_cons c s : exists g gs, chars (String c s) = String c g :: gs.
Proof. simpl. destruct (chars s) as [|g gs]; [by eexists _, _|]. case_match; by eexists _, _. Qed.

Lemma chars_nil s : chars s = [] -> s = "".
Proof. intros E. by rewrite <- (concat_chars s), E. Qed.

Lemma chars_head s g gs : chars s = g :: gs -> starts_continuation g = starts_continuation s.
Proof.
  destruct s as [|c s]; [done|]. destruct (chars_cons c s) as (h & hs & ->). by intros [= <- <-].
Qed.

Lemma chars_wf s : wf_groups (chars s).
Proof.
  unfold wf_groups. induction s as [|c s [IH1 IH2]]; simpl; [by split; constructor|].
  destruct (chars s) as [|g gs] eqn:E; simpl in *; [by split; repeat constructor|].
  apply Forall_cons in IH1 as [Hg Hgs]. destruct (starts_continuation g) eqn:Hc; simpl.
  - split; [|done]. constructor; [|done]. destruct g; simpl in *; [done|]. by rewrite Hc, Hg.
  - split; [by repeat constructor|by constructor].
Qed.

Lemma chars_app s t : starts_continuation t = false -> chars (s ++ t) = (chars s ++ chars t)%list.
Proof.
  intros Ht. induction s as [|c s IH]; simpl; [done|]. rewrite IH.
  destruct (chars s) as [|g gs]; simpl; [|by destruct (starts_continuation g)].
  destruct (chars t) as [|h hs] eqn:E; [done|]. by rewrite (chars_head _ _ _ E), Ht.
Qed.

Lemma chars_group g : wf_group g = true -> chars g = [g].
Proof.
  destruct g as [|c t]; simpl; [done|]. revert c. induction t as [|d t IH]; intros c; simpl; [done|].
  intros [Hd Ht]%andb_true_iff. specialize (IH d Ht). simpl in IH. rewrite IH. simpl. by rewrite Hd.
Qed.

Lemma chars_concat gs : wf_groups gs -> chars (concat_str gs) = gs.
Proof.
  intros [Hw Hc]. induction gs as [|g gs IH]; simpl in *; [done|].
  apply Forall_cons in Hw as [Hg Hw]. rewrite chars_app.
  - rewrite chars_group by done. simpl. f_equal. apply IH; [done|]. destruct gs; [done|].
    by apply Forall_cons in Hc as [_ ?].
  - destruct gs as [|h gs]; [done|]. simpl. apply Forall_cons in Hw as [Hh _].
    apply Forall_cons in Hc as [Hc _]. by destruct h.
Qed.

Lemma wf_groups_app l k : wf_groups (l ++ k) -> wf_groups l /\ wf_groups k.
Proof.
  unfold wf_groups. intros [Hw Hc]. apply Forall_app in Hw as [Hl Hk]. split; split; [done| |done|].
  - destruct l; [done|]. simpl in *. by apply Forall_app in Hc as [? _].
  - destruct l as [|g l]; [done|]. simpl in Hc. apply Forall_app in Hc as [_ Hc].
    destruct k; [done|]. by apply Forall_cons in Hc as [_ ?].
Qed.

(** ** Trimming *)

Lemma drop_ws_split l : exists w, l = (w ++ drop_ws l)%list.
Proof.
  induction l as [|g l [w IH]]; simpl; [by exists []|]. destruct (is_whitespace g).
  - exists (g :: w). simpl. by rewrite <- IH.
  - by exists [].
Qed.

Lemma drop_ws_head l g : head (drop_ws l) = Some g -> is_whitespace g = false.
Proof. induction l as [|h l IH]; simpl; [done|]. case_match; naive_solver. Qed.

Lemma drop_ws_id l : (forall g, head l = Some g -> is_whitespace g = false) -> drop_ws l = l.
Proof. destruct l as [|g l]; [done|]. simpl. intros Hg. by rewrite Hg. Qed.

(** The groups [trim] keeps. *)
Definition trim_groups (l : list string) : list string := rev (drop_ws (rev (drop_ws l))).

Lemma trim_groups_split l : exists w v, l = (w ++ trim_groups l ++ v)%list.
Proof.
  destruct (drop_ws_split l) as [w Hw], (drop_ws_split (rev (drop_ws l))) as [v Hv].
  exists w, (rev v). rewrite Hw at 1. f_equal. unfold trim_groups.
  rewrite <- (rev_involutive (drop_ws l)), Hv at 1. by rewrite rev_app_distr.
Qed.

Lemma concat_str_app l k : concat_str (l ++ k) = concat_str l ++ concat_str k.
Proof. induction l as [|x l IH]; simpl; [done|]. by rewrite IH, str_app_assoc. Qed.

(** What is trimmed is a part of the string. *)
Lemma trim_split s : exists w v, s = w ++ trim s ++ v.
Proof.
  destruct (trim_groups_split (chars s)) as (w & v & E).
  exists (concat_str w), (concat_str v). unfold trim. fold (trim_groups (chars s)).
  by rewrite <- !concat_str_app, <- E, concat_chars.
Qed.

Lemma chars_trim s : chars (trim s) = trim_groups (chars s).
Proof.
  unfold trim. fold (trim_groups (chars s)). apply chars_concat.
  destruct (trim_groups_split (chars s)) as (w & v & E). pose proof (chars_wf s) as Hw.
  rewrite E in Hw. apply wf_groups_app in Hw as [_ Hw]. by apply wf_groups_app in Hw as [? _].
Qed.

(** Neither end is white space. *)
Definition tight_head (s : string) : Prop :=
  forall g, head (chars s) = Some g -> is_whitespace g = false.
Definition tight_last (s : string) : Prop :=
  forall g, last (chars s) = Some g -> is_whitespace g = false.

Lemma head_rev {A} (l : list A) : head (rev l) = last l.
Proof.
  induction l as [|x l IH] using rev_ind; [done|]. by rewrite rev_app_distr, last_snoc.
Qed.

Lemma trim_id s : tight_head s -> tight_last s -> trim s = s.
Proof.
  intros Hh Hl. unfold trim. rewrite (drop_ws_id (chars s)) by done.
  rewrite drop_ws_id; [by rewrite rev_involutive, concat_chars|]. intros g. rewrite head_rev. apply Hl.
Qed.

Lemma trim_tight_last s : tight_last (trim s).
Proof.
  intros g. rewrite chars_trim. unfold trim_groups. rewrite <- head_rev, rev_involutive.
  apply drop_ws_head.
Qed.

Lemma trim_groups_head l g :
  head l = Some g -> is_whitespace g = false -> head (trim_groups l) = Some g.
Proof.
  destruct l as [|h l]; [done|]. intros [= ->] Hg. unfold trim_groups. simpl. rewrite Hg.
  destruct (drop_ws_split (rev (g :: l))) as [w Hw]. simpl in Hw |- *.
  destruct (drop_ws (rev l ++ [g])) as [|x k _] eqn:E using rev_ind.
  - exfalso. rewrite app_nil_r in Hw. subst w.
    assert (forall l, drop_ws (l ++ [g]) <> []) as Hne; [|by eapply Hne].
    clear E. intros l'. induction l' as [|y l' IH]; simpl; [by rewrite Hg|]. by case_match.
  - rewrite rev_app_distr. simpl. rewrite app_assoc in Hw. by apply app_inj_tail in Hw as [_ <-].
Qed.

Lemma trim_tight_head s : tight_head (trim s).
Proof.
  intros g. rewrite chars_trim. destruct (drop_ws (chars s)) as [|h l] eqn:E.
  - unfold trim_groups. by rewrite E.
  - assert (is_whitespace h = false) as Hh by (apply (drop_ws_head (chars s)); by rewrite E).
    assert (trim_groups (chars s) = trim_groups (h :: l)) as ->.
    { unfold trim_groups. simpl. by rewrite E, Hh. }
    rewrite (trim_groups_head _ h) by done. by intros [= <-].
Qed.

Lemma trim_trim s : trim (trim s) = trim s.
Proof. apply trim_id; [apply trim_tight_head|apply trim_tight_last]. Qed.

Lemma trim_fixed s : trim s = s -> tight_head s /\ tight_last s.
Proof. intros <-. split; [apply trim_tight_head|apply trim_tight_last]. Qed.

Lemma trim_space_l s : starts_continuation s = false -> trim (" " ++ s) = trim s.
Proof. intros Hs. unfold trim. by rewrite chars_app. Qed.

Lemma drop_ws_snoc l g : is_whitespace g = true ->
  drop_ws (l ++ [g]) = [] /\ drop_ws l = [] \/ drop_ws (l ++ [g]) = (drop_ws l ++ [g])%list.
Proof.
  intros Hg. induction l as [|h l IH]; simpl; [rewrite Hg; by left|].
  destruct (is_whitespace h); [done|]. by right.
Qed.

Lemma trim_space_r s : trim (s ++ " ") = trim s.
Proof.
  unfold trim. rewrite chars_app by done. simpl.
  destruct (drop_ws_snoc (chars s) " " eq_refl) as [[-> ->]| ->]; [done|]. by rewrite rev_app_distr.
Qed.

(** ** Plain text

    Printable ASCII other than the space: never white space, never part of a
    longer code point. *)

Definition plain (c : ascii) : bool := ((33 <=? byte_val c) && (byte_val c <=? 126))%N.

Lemma plain_not_continuation c : plain c = true -> is_continuation c = false.
Proof.
  unfold plain, is_continuation. intros [H1 H2]%andb_true_iff. apply N.leb_le in H1, H2.
  by rewrite (proj2 (N.leb_gt _ _)) by lia.
Qed.

(** No white space starts with a plain byte. *)
Lemma plain_not_space c g : plain c = true -> is_whitespace (String c g) = false.
Proof.
  intros Hc. unfold is_whitespace. apply existsb_false. intros w Hw. apply String.eqb_neq. intros <-.
  assert (forallb (fun w => match w with String c _ => negb (plain c) | "" => true end) white_space
          = true) as Hall by (vm_compute; reflexivity).
  rewrite forallb_elem in Hall. specialize (Hall _ Hw). simpl in Hall. by rewrite Hc in Hall.
Qed.

(** A token: not empty, and no code point of it is white space. *)
Definition clean (t : string) : Prop :=
  t <> "" /\ starts_continuation t = false /\ Forall (fun g => is_whitespace g = false) (chars t).

Lemma plain_clean t : t <> "" -> all_bytes plain t = true -> clean t.
Proof.
  intros Hne Ht. split; [done|]. split.
  { destruct t; [done|]. simpl in *. apply andb_true_iff in Ht as [? _]. by apply plain_not_continuation. }
  clear Hne. induction t as [|c t IH]; [constructor|]. simpl in Ht. apply andb_true_iff in Ht as [Hc Ht].
  specialize (IH Ht). simpl. destruct (chars t) as [|g gs] eqn:E.
  { constructor; [by apply plain_not_space|constructor]. }
  case_match; [|constructor; [by apply plain_not_space|done]].
  apply Forall_cons in IH as [_ ?]. constructor; [by apply plain_not_space|done].
Qed.

Lemma str_app_nil_r s : s ++ "" = s.
Proof. induction s as [|c s IH]; simpl; [done|]. by rewrite IH. Qed.

Lemma clean_app s t : clean s -> t = "" \/ clean t -> clean (s ++ t).
Proof.
  intros (Hs & Hc & Hf) Ht. split_and!.
  - by destruct s.
  - by rewrite starts_continuation_app.
  - destruct Ht as [->|(Ht & Htc & Htf)].
    + by rewrite str_app_nil_r.
    + rewrite chars_app by done. by apply Forall_app.
Qed.

(** ** Words *)

Definition space : string := " ".

Lemma split_space s :
  starts_continuation s = false -> split_whitespace (space ++ s) = split_whitespace s.
Proof. intros Hs. unfold split_whitespace. by rewrite chars_app. Qed.

(** What may follow a word. *)
Definition gap (x : string) : Prop :=
  x = "" \/ exists y, x = space ++ y /\ starts_continuation y = false.

Lemma words_clean gs k :
  Forall (fun g => is_whitespace g = false) gs -> gs <> [] ->
  (k = [] \/ exists h k', k = h :: k' /\ is_whitespace h = true) ->
  words (gs ++ k) = concat_str gs :: words k.
Proof.
  intros Hf Hne Hk. induction gs as [|g gs IH]; [done|]. apply Forall_cons in Hf as [Hg Hf]. simpl.
  rewrite Hg. destruct gs as [|h gs]; simpl.
  - rewrite str_app_nil_r. destruct Hk as [->|(h & k' & -> & Hh)]; [done|]. by rewrite Hh.
  - apply Forall_cons in Hf as [Hh Hf']. rewrite Hh.
    assert (words (h :: gs ++ k) = concat_str (h :: gs) :: words k) as E
      by (apply IH; [by constructor|done]).
    simpl in E. rewrite Hh in E. rewrite E. done.
Qed.

Lemma gap_head x : gap x -> starts_continuation x = false.
Proof. intros [->|(y & -> & _)]; done. Qed.

Lemma split_word t x : clean t -> gap x -> split_whitespace (t ++ x) = t :: split_whitespace x.
Proof.
  intros (Hne & Hc & Hf) Hx. unfold split_whitespace.
  rewrite chars_app, words_clean, concat_chars; [done|done| | |by apply gap_head].
  - intros E. by apply chars_nil in E.
  - destruct Hx as [->|(y & -> & Hy)]; [by left|right]. rewrite chars_app by done.
    eexists _, _. split; done.
Qed.

(** Tokens printed with a space before each. *)
Definition render (toks : list string) : string := concat_str (map (String.append space) toks).

Lemma render_gap toks : Forall clean toks -> gap (render toks).
Proof.
  destruct toks as [|t toks]; [by left|]. intros [Ht _]%Forall_cons. right.
  exists (t ++ render toks). split; [done|]. destruct Ht as (Hne & Hc & _).
  by rewrite starts_continuation_app.
Qed.

Lemma gap_app toks x : Forall clean toks -> gap x -> gap (render toks ++ x).
Proof.
  intros Ht Hx. destruct toks as [|t toks]; [done|]. apply Forall_cons in Ht as [(Hne & Hc & _) _].
  right. exists (t ++ render toks ++ x). split.
  - unfold render. simpl. by rewrite !str_app_assoc.
  - by rewrite starts_continuation_app.
Qed.

Lemma split_render toks x :
  Forall clean toks -> gap x ->
  split_whitespace (render toks ++ x) = (toks ++ split_whitespace x)%list.
Proof.
  intros Ht Hx. induction Ht as [|t toks Ht Hts IH]; [done|].
  replace (render (t :: toks) ++ x) with (space ++ (t ++ (render toks ++ x)))
    by (unfold render; simpl; by rewrite !str_app_assoc).
  rewrite split_space, split_word, IH; [done|done|by apply gap_app|].
  destruct Ht as (Hne & Hc & _). by rewrite starts_continuation_app.
Qed.

(** ** Ends of a concatenation *)

Lemma tight_head_app s t : s <> "" -> starts_continuation t = false ->
  tight_head s -> tight_head (s ++ t).
Proof.
  intros Hs Ht Hh g. rewrite chars_app by done.
  destruct (chars s) as [|h l] eqn:E; [by apply chars_nil in E|]. simpl. intros [= <-].
  apply Hh. by rewrite E.
Qed.

Lemma tight_last_app s t : t <> "" -> starts_continuation t = false ->
  tight_last t -> tight_last (s ++ t).
Proof.
  intros Hs Ht Hh g. rewrite chars_app by done. rewrite last_app.
  destruct (last (chars t)) as [h|] eqn:E; [intros [= <-]; by apply Hh|].
  apply last_None in E. by apply chars_nil in E.
Qed.

Lemma clean_tight t : clean t -> tight_head t /\ tight_last t.
Proof.
  intros (_ & _ & Hf). rewrite Forall_forall in Hf. split; intros g Hg; apply Hf.
  - by apply head_Some_elem_of.
  - by apply last_Some_elem_of.
Qed.

(** A trimmed string does not end in a carriage return. *)
Lemma tight_last_cr s : tight_last s -> strip_cr s = s.
Proof.
  intros Hl. unfold strip_cr. destruct (strip_suffix _ s) as [r|] eqn:E; [|done].
  apply strip_suffix_some in E. subst s. exfalso.
  specialize (Hl (String CR "")). rewrite chars_app, last_app in Hl by done. by specialize (Hl eq_refl).
Qed.

(** ** Searching *)

Lemma split_once_some p s a b : split_once p s = Some (a, b) -> s = a ++ p ++ b.
Proof.
  revert a. induction s as [|c s IH]; intros a; simpl.
  - destruct (strip_prefix p "") as [r|] eqn:E; [|done]. intros [= <- <-]. by apply strip_prefix_some in E.
  - destruct (strip_prefix p (String c s)) as [r|] eqn:E.
    + intros [= <- <-]. by apply strip_prefix_some in E.
    + rewrite fmap_Some. intros ([a' b'] & Hs & [= -> ->]). simpl. f_equal. by apply IH.
Qed.

(** The byte [c] does not occur. *)
Definition no_byte (c : ascii) (s : string) : bool :=
  all_bytes (fun d => negb (bool_decide (c = d))) s.

(** One byte is found at its first occurrence. *)
Lemma split_once_byte c a b :
  no_byte c a = true -> split_once (String c "") (a ++ String c b) = Some (a, b).
Proof.
  unfold no_byte. induction a as [|d a IH]; simpl; [by rewrite bool_decide_true|].
  intros [Hd Ha]%andb_true_iff. apply negb_true_iff in Hd. by rewrite Hd, (IH Ha).
Qed.

Lemma split_once_byte_none c a :
  no_byte c a = true -> split_once (String c "") a = None.
Proof.
  unfold no_byte. induction a as [|d a IH]; simpl; [done|].
  intros [Hd Ha]%andb_true_iff. apply negb_true_iff in Hd. by rewrite Hd, (IH Ha).
Qed.

Lemma split_once_byte_some c s a b :
  split_once (String c "") s = Some (a, b) -> no_byte c a = true.
Proof.
  unfold no_byte. revert a. induction s as [|d s IH]; intros a; simpl; [done|].
  case_bool_decide as Hd.
  - by intros [= <- <-].
  - rewrite fmap_Some. intros ([a' b'] & Hs & [= -> ->]). simpl. rewrite bool_decide_false by done.
    simpl. by apply IH.
Qed.

(** ** Lines *)

Lemma no_byte_app c s t : no_byte c (s ++ t) = no_byte c s && no_byte c t.
Proof. apply all_bytes_app. Qed.

Lemma no_byte_trim c s : no_byte c s = true -> no_byte c (trim s) = true.
Proof.
  destruct (trim_split s) as (w & v & E). rewrite E at 1. rewrite !no_byte_app.
  by intros [_ [? _]%andb_true_iff]%andb_true_iff.
Qed.

Lemma split_char_no_byte c s : Forall (fun p => no_byte c p = true) (split_char c s).
Proof.
  unfold no_byte. induction s as [|d s IH]; simpl; [by repeat constructor|]. case_bool_decide as Hd.
  - by constructor.
  - destruct IH as [|w ws Hw Hws]; constructor; simpl; try rewrite bool_decide_false by done; done.
Qed.

Lemma split_char_app c a b :
  no_byte c a = true -> split_char c (a ++ String c b) = a :: split_char c b.
Proof.
  unfold no_byte. induction a as [|d a IH]; simpl; [by rewrite bool_decide_true|].
  intros [Hd Ha]%andb_true_iff. apply negb_true_iff in Hd. by rewrite Hd, (IH Ha).
Qed.

Lemma split_char_single c a : no_byte c a = true -> split_char c a = [a].
Proof.
  unfold no_byte. induction a as [|d a IH]; simpl; [done|].
  intros [Hd Ha]%andb_true_iff. apply negb_true_iff in Hd. by rewrite Hd, (IH Ha).
Qed.

(** Lines without a line feed, joined by line feeds, are read back. *)
Lemma lines_joined l x :
  Forall (fun s => no_byte LF s = true /\ strip_cr s = s) (x :: l) -> last (x :: l) <> Some "" ->
  lines (x ++ concat_str (map (String LF) l)) = x :: l.
Proof.
  unfold lines. revert x. induction l as [|y l IH]; intros x Hf Hl; simpl concat_str.
  - apply Forall_cons in Hf as [[Hx _] _]. rewrite str_app_nil_r, split_char_single by done.
    simpl. destruct x; [|done]. by destruct Hl.
  - apply Forall_cons in Hf as [[Hx Hcr] Hf]. rewrite split_char_app by done. simpl.
    assert (split_char LF (y ++ concat_str (map (String LF) l)) <> []) as Hne.
    { intros E. pose proof (join_split_char LF (y ++ concat_str (map (String LF) l))) as J.
      rewrite E in J. specialize (IH y Hf Hl). rewrite E in IH. done. }
    specialize (IH y Hf Hl). rewrite last_cons_cons in Hl.
    destruct (split_char LF (y ++ _)) as [|p ps]; [done|]. rewrite IH. by rewrite Hcr.
Qed.

Lemma strip_cr_no_byte c s : no_byte c s = true -> no_byte c (strip_cr s) = true.
Proof.
  unfold strip_cr. destruct (strip_suffix _ s) as [r|] eqn:E; [|done].
  apply strip_suffix_some in E. subst s. rewrite no_byte_app. by intros [? _]%andb_true_iff.
Qed.

Lemma lines_no_lf s : Forall (fun l => no_byte LF l = true) (lines s).
Proof.
  unfold lines. induction (split_char_no_byte LF s) as [|p ps Hp Hps IH]; [constructor|].
  simpl. destruct ps as [|q ps]; [|by constructor; [apply strip_cr_no_byte|]].
  destruct (is_empty p); by repeat constructor.
Qed.
