(* ===== verification/EvidenceText.v ===== *)
(** * Evidence text and derived identities

    What the normalization of testimony keeps of it, and that the identities
    derived for run sets and their child graphs bind what they are derived
    from. *)

From S2P Require Import Prelude RustStr Digest GraphTypes StrLaws GraphStatus.

Local Open Scope string_scope.

(** ** Truncation at a character boundary *)

Lemma substring_prefix k s :
  k <= String.length s ->
  exists rest, s = String.substring 0 k s ++ rest /\
    String.length (String.substring 0 k s) = k /\
    String.get k s = match rest with String c _ => Some c | "" => None end.
Proof.
  revert k. induction s as [|c s IH]; intros [|k] Hk; simpl in *; [by exists ""|lia|by exists (String c s)|].
  destruct (IH k ltac:(lia)) as (rest & E & Hl & Hg). exists rest. rewrite Hl, Hg. by rewrite <- E.
Qed.

Lemma boundary_at_most_ok value index :
  boundary_at_most value index <= index /\ is_char_boundary value (boundary_at_most value index) = true.
Proof.
  induction index as [|index [IH1 IH2]]; simpl; [done|].
  destruct (is_char_boundary value (S index)) eqn:E; [done|]. split; [lia|done].
Qed.

Lemma boundary_rest value rest k :
  is_char_boundary value k = true -> starts_continuation value = false -> value <> "" ->
  String.get k value = match rest with String c _ => Some c | "" => None end ->
  starts_continuation rest = false.
Proof.
  unfold is_char_boundary. destruct (k =? 0)%nat eqn:Hk.
  - apply Nat.eqb_eq in Hk as ->. destruct value as [|c value]; [done|]. simpl.
    intros _ Hc _ Hg. destruct rest as [|d rest]; [done|]. by injection Hg as <-.
  - intros Hb _ _ Hg. rewrite Hg in Hb. destruct rest; [done|]. by apply negb_true_iff in Hb.
Qed.

Lemma truncate_utf8_ok value max_bytes :
  starts_continuation value = false ->
  exists rest, value = truncate_utf8 value max_bytes ++ rest /\
    (len (truncate_utf8 value max_bytes) <= max_bytes)%N /\ starts_continuation rest = false /\
    ((len value <= max_bytes)%N -> rest = "").
Proof.
  intros Hc. unfold truncate_utf8. destruct (len value <=? max_bytes)%N eqn:Hl.
  { exists "". rewrite str_app_nil_r. apply N.leb_le in Hl. done. }
  apply N.leb_gt in Hl. unfold len in *.
  destruct (boundary_at_most_ok value (N.to_nat max_bytes)) as [Hle Hb].
  destruct (substring_prefix (boundary_at_most value (N.to_nat max_bytes)) value) as (rest & E & Hk & Hg);
    [lia|].
  exists rest. split; [done|]. rewrite Hk. split; [lia|]. split; [|lia].
  eapply boundary_rest; [exact Hb|done| |done]. intros ->. simpl in Hl. lia.
Qed.

(** ** Collapsing white space *)

Lemma group_clean g :
  wf_group g = true -> starts_continuation g = false -> is_whitespace g = false -> clean g.
Proof.
  intros Hw Hc Hs. split; [by destruct g|]. split; [done|]. rewrite chars_group by done.
  by repeat constructor.
Qed.

Lemma words_are_clean gs :
  Forall (fun g => wf_group g = true /\ starts_continuation g = false) gs -> Forall clean (words gs).
Proof.
  induction 1 as [|g gs [Hw Hc] Hgs IH]; [constructor|]. simpl. destruct (is_whitespace g) eqn:Hs; [done|].
  pose proof (group_clean g Hw Hc Hs) as Hg. destruct gs as [|h gs]; [by constructor|].
  destruct (is_whitespace h); [by constructor|].
  destruct (words (h :: gs)) as [|w ws]; [by constructor|].
  apply Forall_cons in IH as [Hcw Hws]. constructor; [|done]. apply clean_app; [done|by right].
Qed.

Lemma split_whitespace_clean s :
  starts_continuation s = false -> Forall clean (split_whitespace s).
Proof.
  intros Hs. apply words_are_clean. destruct (chars_wf s) as [Hw Hc].
  destruct (chars s) as [|g gs] eqn:E; [constructor|]. simpl in Hc.
  rewrite Forall_forall in Hw, Hc |- *. intros x Hx. split; [by apply Hw|].
  apply elem_of_cons in Hx as [->|Hx]; [by rewrite (chars_head _ _ _ E)|by apply Hc].
Qed.

Lemma join_space t ts : join " " (t :: ts) = t ++ render ts.
Proof.
  revert t. induction ts as [|u ts IH]; intros t; [by rewrite str_app_nil_r|].
  change (join " " (t :: u :: ts)) with (t ++ " " ++ join " " (u :: ts)). rewrite IH.
  change (render (u :: ts)) with ((" " ++ u) ++ render ts). by rewrite str_app_assoc.
Qed.

Lemma split_joined ws : Forall clean ws -> split_whitespace (join " " ws) = ws.
Proof.
  destruct ws as [|t ts]; [done|]. intros [Ht Hts]%Forall_cons. rewrite join_space.
  rewrite split_word by (done || by apply render_gap).
  rewrite <- (str_app_nil_r (render ts)), split_render by (done || by left).
  by rewrite app_nil_r.
Qed.

Lemma joined_head ws : Forall clean ws -> starts_continuation (join " " ws) = false.
Proof.
  destruct ws as [|t ts]; [done|]. intros [(Hne & Hc & _) _]%Forall_cons. rewrite join_space.
  by rewrite starts_continuation_app.
Qed.

(** normalized testimony is bounded and faithful.  Collapsing white space
    keeps the words; the stored detail is a prefix of the collapsed text of at
    most 1,024 bytes that ends between two characters, and it is the whole
    collapsed text whenever that fits, in which case normalizing it again
    changes nothing. *)
Theorem evidence_detail_normalized detail :
  starts_continuation detail = false ->
  let collapsed := join " " (split_whitespace detail) in
  let stored := normalize_evidence_detail detail in
  split_whitespace collapsed = split_whitespace detail /\
  (exists rest, collapsed = stored ++ rest /\ (len stored <= GRAPH_EVIDENCE_DETAIL_MAX_BYTES)%N /\
     starts_continuation rest = false) /\
  ((len collapsed <= GRAPH_EVIDENCE_DETAIL_MAX_BYTES)%N ->
     stored = collapsed /\ normalize_evidence_detail stored = stored).
Proof.
  intros Hd collapsed stored. pose proof (split_whitespace_clean detail Hd) as Hcl.
  assert (split_whitespace collapsed = split_whitespace detail) as Hs by (by apply split_joined).
  destruct (truncate_utf8_ok collapsed GRAPH_EVIDENCE_DETAIL_MAX_BYTES (joined_head _ Hcl))
    as (rest & E & Hl & Hr & Hfit).
  split; [done|]. split; [by exists rest|]. intros Hle. specialize (Hfit Hle). subst rest.
  rewrite str_app_nil_r in E. assert (stored = collapsed) as -> by done.
  split; [done|]. unfold normalize_evidence_detail. rewrite Hs. exact (eq_sym E).
Qed.

(** ** Derived identities *)

Section Identities.
Context `{Blake3}.

(** Framed parts followed by other bytes. *)
Lemma frames_app_inj l k x y :
  Forall fits l -> Forall fits k -> length l = length k ->
  frames l ++ x = frames k ++ y -> l = k /\ x = y.
Proof.
  intros Hl. revert k. induction Hl as [|a l Ha Hl IH]; intros [|b k] Hk; try done. intros [= Hlen] E.
  apply Forall_cons in Hk as [Hb Hk].
  change (frames (a :: l)) with (frame a ++ frames l) in E.
  change (frames (b :: k)) with (frame b ++ frames k) in E. rewrite !str_app_assoc in E.
  apply frame_app_inj in E as [-> E]; [|done..]. by destruct (IH k Hk Hlen E) as [-> ->].
Qed.

(** the identities of a todo run set and of its child graphs bind their
    coordinates: two child graphs with one identity have the same session, run
    set, plan item and todo, or BLAKE3 collides; likewise for run sets. *)
Theorem todo_identities_bind s p e s' p' e' r r' t t' :
  Forall fits [s; p; e; r; s'; p'; e'; r'] -> (t <= u32_max)%N -> (t' <= u32_max)%N ->
  (todo_run_set_id s p e = todo_run_set_id s' p' e' ->
     (s = s' /\ p = p' /\ e = e') \/ exists x y, x <> y /\ blake3_hex x = blake3_hex y) /\
  (todo_child_graph_id s r p t = todo_child_graph_id s' r' p' t' ->
     (s = s' /\ r = r' /\ p = p' /\ t = t') \/ exists x y, x <> y /\ blake3_hex x = blake3_hex y).
Proof.
  rewrite !Forall_cons. intros (?&?&?&?&?&?&?&?&_) Ht Ht'. split; intros E%str_append_inj_l;
    match goal with H : blake3_hex ?x = blake3_hex ?y |- _ => destruct (decide (x = y)) as [Hxy|Hxy];
      [left|right; by exists x, y] end; apply str_append_inj_l in Hxy.
  - apply frames_inj in Hxy; [by simplify_eq|by rewrite !Forall_cons..].
  - apply frames_app_inj in Hxy as [Hl Hn]; [|by rewrite !Forall_cons..|done].
    apply u32_be_inj in Hn; [by simplify_eq|done..].
Qed.
End Identities.

(** ** Witnesses *)

Lemma evidence_detail_normalized_witness :
  starts_continuation "cargo  test failed" = false /\
  normalize_evidence_detail "cargo  test failed" = "cargo test failed" /\
  split_whitespace (join " " (split_whitespace "cargo  test failed"))
    = split_whitespace "cargo  test failed".
Proof.
  split; [reflexivity|]. split; [vm_compute; reflexivity|].
  exact (proj1 (evidence_detail_normalized "cargo  test failed" eq_refl)).
Defined.

Lemma todo_identities_bind_witness :
  let h : Blake3 := id in
  todo_child_graph_id "s" "r" "p" 3 <> todo_child_graph_id "s" "r" "p" 4 /\
  ((("s" = "s" /\ "p" = "p" /\ "e" = "e") : Prop) \/ exists x y, x <> y /\ blake3_hex x = blake3_hex y).
Proof.
  intros h. split; [vm_compute; discriminate|].
  assert (Forall fits ["s"; "p"; "e"; "r"; "s"; "p"; "e"; "r"]) as Hf
    by (apply fits_all; vm_compute; reflexivity).
  assert ((3 <= u32_max)%N) as H3 by (apply N.leb_le; reflexivity).
  exact (proj1 (todo_identities_bind "s" "p" "e" "s" "p" "e" "r" "r" 3 3 Hf H3 H3) eq_refl).
Defined.
