(* ===== verification/Loom.v ===== *)
(** * The Loom pipe language (haider-protocol/src/loom.rs)

    pipe/v1 source is parsed line by line into an AST that carries every error
    it met; a clean AST compiles, against a registry of typed agents, into a
    workflow: its canonical source, a graph template and per-node metadata.
    The proofs are in LoomProps.v. *)

From S2P Require Import Prelude RustStr Digest GraphTypes TypeExpr GraphTemplate.

Local Open Scope string_scope.

Definition LOOM_PIPE_VERSION := "pipe/v1".
Definition LOOM_SOURCE_MAX_BYTES : N := 16 * 1024.
Definition LOOM_TASK_MAX_BYTES : N := 200.
Definition LOOM_WORK_MAX_ATTEMPTS : N := 4.
Definition LOOM_FANOUT_MAX_ATTEMPTS : N := 3.

(** ** Data *)

Record LoomAgentType := mkAgentType {
  la_id : string;
  la_name : string;
  la_job : string;
  la_in_type : string;
  la_out_type : string;
  la_clis : list string;
  la_apis : list string;
  la_denials : list string;
  la_skills : list string;
  la_scripts : list string;
  la_color : string;
  la_glyph : string;
  la_rev : N
}.

Record LoomTypeSig := mkTypeSig { sig_in_type : string; sig_out_type : string }.

Inductive LoomGate := Cmd | Ship | AllOf (n : N) | LHuman.

Record LoomNodeAst := mkLoomNode {
  ln_name : string;
  ln_agent_type : option string;
  ln_task : string;
  ln_gate : LoomGate;
  ln_depends_on : option (list string);
  ln_back : option string
}.

Record LoomAst := mkLoomAst {
  lo_name : option string;
  lo_in_type : string;
  lo_out_type : string;
  lo_nodes : list LoomNodeAst;
  lo_errors : list string
}.

Record LoomNodeMeta := mkNodeMeta {
  lm_source_name : string;
  lm_node : GraphNodeName;
  lm_agent_type : option string;
  lm_agent_type_rev : option N;
  lm_agent_type_digest : option string;
  lm_task : string;
  lm_in_type : option string;
  lm_out_type : option string;
  lm_back : option GraphNodeName
}.

Record LoomWorkflow := mkLoomWorkflow {
  lw_id : string;
  lw_pipe_version : string;
  lw_source : string;
  lw_in_type : string;
  lw_out_type : string;
  lw_template : GraphTemplateSpec;
  lw_meta : list LoomNodeMeta;
  lw_rev : N;
  lw_digest : string
}.

(** [LoomAgentType::signature]. *)
Definition signature (t : LoomAgentType) : LoomTypeSig := mkTypeSig (la_in_type t) (la_out_type t).

(** ** Digests *)

(** A list is its length, then its items. *)
Definition counted_parts (l : list string) : list string :=
  u64_le (u64_of_usize (length l)) :: l.

Definition agent_type_parts (t : LoomAgentType) : list string :=
  ([la_id t; la_name t; la_job t; la_in_type t; la_out_type t; la_color t; la_glyph t]
   ++ flat_map counted_parts [la_clis t; la_apis t; la_skills t; la_scripts t]
   ++ match la_denials t with [] => [] | denials => counted_parts denials end)%list.

Definition opt_part {A} (f : A -> string) (o : option A) : list string :=
  match o with Some a => [f a] | None => [] end.

Definition meta_parts (m : LoomNodeMeta) : list string :=
  ([lm_node m; default "" (lm_in_type m); default "" (lm_out_type m)]
   ++ opt_part u32_le (lm_agent_type_rev m)
   ++ opt_part id (lm_agent_type_digest m))%list.

Definition workflow_parts (w : LoomWorkflow) : list string :=
  lw_pipe_version w :: lw_source w :: flat_map meta_parts (lw_meta w).

(** [hasher.finalize().to_hex()[..32]] of length-prefixed parts. *)
Definition short_digest `{Blake3} (parts : list string) : string :=
  String.substring 0 32 (blake3_hex (frames_le parts)).

Definition agent_type_digest `{Blake3} (t : LoomAgentType) : string :=
  short_digest (agent_type_parts t).

(** [workflow_digest]; the field [workflow_digest] of the activation AST holds
    its value. *)
Definition loom_workflow_digest `{Blake3} (w : LoomWorkflow) : string :=
  short_digest (workflow_parts w).

(** ** Parsing one node line *)

Definition BACK_ARROW : string := bytes_of [226; 134; 186]%N.
Definition SELF_ARROW : string := bytes_of [226; 134; 187]%N.
Definition quote : string := String DQUOTE "".

(** Lifts the quoted task out of a line: the task and the rest. *)
Definition lift_task (line : string) : result (string * string) string :=
  match split_once quote line with
  | Some (before, after) =>
      match split_once quote after with
      | None => Err ("unterminated task quote: " ++ line)
      | Some (task, tail) =>
          if (LOOM_TASK_MAX_BYTES <? len task)%N
          then Err ("task on line `" ++ line ++ "` exceeds " ++ pretty LOOM_TASK_MAX_BYTES ++ " bytes")
          else Ok (task, before ++ " " ++ tail)
      end
  | None => Ok ("", line)
  end.

Definition with_agent_type (t : string) (n : LoomNodeAst) : LoomNodeAst :=
  mkLoomNode (ln_name n) (Some t) (ln_task n) (ln_gate n) (ln_depends_on n) (ln_back n).
Definition with_gate (g : LoomGate) (n : LoomNodeAst) : LoomNodeAst :=
  mkLoomNode (ln_name n) (ln_agent_type n) (ln_task n) g (ln_depends_on n) (ln_back n).
Definition with_depends_on (d : list string) (n : LoomNodeAst) : LoomNodeAst :=
  mkLoomNode (ln_name n) (ln_agent_type n) (ln_task n) (ln_gate n) (Some d) (ln_back n).
Definition with_back (b : string) (n : LoomNodeAst) : LoomNodeAst :=
  mkLoomNode (ln_name n) (ln_agent_type n) (ln_task n) (ln_gate n) (ln_depends_on n) (Some b).

Definition parse_gate (name gate : string) : result LoomGate string :=
  if String.eqb gate "cmd" then Ok Cmd
  else if String.eqb gate "ship" then Ok Ship
  else if String.eqb gate "human" then Ok LHuman
  else match strip_prefix "all-of-" gate with
       | Some digits =>
           if negb (is_empty digits) && all_bytes is_ascii_digit digits
           then match parse_u32 digits with
                | Some n =>
                    if (0 <? n)%N && (n <=? GRAPH_MAX_EVIDENCE_PER_ATTEMPT)%N then Ok (AllOf n)
                    else Err ("gate :all-of-" ++ digits ++ " on " ++ name ++ " must be 1..=" ++
                                pretty GRAPH_MAX_EVIDENCE_PER_ATTEMPT)
                | None => Err ("gate :all-of-" ++ digits ++ " on " ++ name ++ " must be 1..=" ++
                                 pretty GRAPH_MAX_EVIDENCE_PER_ATTEMPT)
                end
           else Err ("unknown gate :" ++ gate ++ " on " ++ name)
       | None => Err ("unknown gate :" ++ gate ++ " on " ++ name)
       end.

Fixpoint parse_dependencies (name : string) (parsed : list string) (l : list string)
    : result (list string) string :=
  match l with
  | [] => Ok parsed
  | dependency :: l =>
      if negb (is_ident dependency)
      then Err ("bad dependency target `" ++ dependency ++ "` on " ++ name)
      else if bool_decide (dependency ∈ parsed)
      then Err ("duplicate dependency " ++ dependency ++ " on " ++ name)
      else parse_dependencies name (parsed ++ [dependency])%list l
  end.

(** One token; the flag records whether a gate was seen. *)
Definition parse_token (st : LoomNodeAst * bool) (token : string)
    : result (LoomNodeAst * bool) string :=
  let '(node, saw_gate) := st in
  let name := ln_name node in
  match strip_prefix "@" token with
  | Some atype =>
      if negb (is_ident atype) then Err ("bad agent type `@" ++ atype ++ "` on " ++ name)
      else if bool_decide (is_Some (ln_agent_type node))
      then Err ("duplicate agent type on " ++ name)
      else Ok (with_agent_type atype node, saw_gate)
  | None =>
  match strip_prefix ":" token with
  | Some gate =>
      if saw_gate then Err ("duplicate gate on " ++ name)
      else result_bind (parse_gate name gate) (fun gate => Ok (with_gate gate node, true))
  | None =>
  match strip_prefix "<-" token with
  | Some dependencies =>
      if bool_decide (is_Some (ln_depends_on node))
      then Err ("duplicate dependency clause on " ++ name)
      else result_bind (parse_dependencies name [] (split_char "," dependencies)) (fun parsed =>
             Ok (with_depends_on parsed node, saw_gate))
  | None =>
  if String.eqb token SELF_ARROW
  then if bool_decide (is_Some (ln_back node)) then Err ("duplicate red traversal on " ++ name)
       else Ok (with_back name node, saw_gate)
  else
  match (match strip_prefix BACK_ARROW token with
         | Some back => Some back
         | None => strip_prefix "^" token
         end) with
  | Some back =>
      if negb (is_ident back) then Err ("bad back-edge target `" ++ back ++ "` on " ++ name)
      else if bool_decide (is_Some (ln_back node)) then Err ("duplicate red traversal on " ++ name)
      else Ok (with_back back node, saw_gate)
  | None => Err ("unexpected token `" ++ token ++ "` on " ++ name)
  end end end end.

Fixpoint parse_tokens (st : LoomNodeAst * bool) (tokens : list string)
    : result (LoomNodeAst * bool) string :=
  match tokens with
  | [] => Ok st
  | token :: tokens => result_bind (parse_token st token) (fun st => parse_tokens st tokens)
  end.

Definition parse_node_line (line : string) : result LoomNodeAst string :=
  (let? lifted := lift_task line in
   match split_whitespace lifted.2 with
   | [] => Err ("unparsable line: " ++ line)
   | name :: tokens =>
       if negb (is_ident name) then Err ("bad node name: " ++ name)
       else let? st := parse_tokens (mkLoomNode name None lifted.1 Cmd None None, false) tokens in
            Ok st.1
   end)%res.

(** ** Parsing a pipe *)

Definition push_error (e : string) (a : LoomAst) : LoomAst :=
  mkLoomAst (lo_name a) (lo_in_type a) (lo_out_type a) (lo_nodes a) (lo_errors a ++ [e]).
Definition push_node (n : LoomNodeAst) (a : LoomAst) : LoomAst :=
  mkLoomAst (lo_name a) (lo_in_type a) (lo_out_type a) (lo_nodes a ++ [n]) (lo_errors a).
Definition with_header (name in_type out_type : string) (a : LoomAst) : LoomAst :=
  mkLoomAst (Some name) in_type out_type (lo_nodes a) (lo_errors a).

(** The header of a line, before any node: name, input and output. *)
Definition header_of (a : LoomAst) (line : string) : option (string * string * string) :=
  if bool_decide (lo_name a = None) && bool_decide (lo_nodes a = nil)
  then match split_once ":" line with
       | Some (head, io) =>
           match split_once "->" io with
           | Some (input, output) =>
               if is_ident_chars (trim head) then Some (trim head, trim input, trim output)
               else None
           | None => None
           end
       | None => None
       end
  else None.

Definition apply_header (head input output : string) (a : LoomAst) : LoomAst :=
  let a := if (64 <? len head)%N
           then push_error ("workflow name `" ++ head ++ "` exceeds 64 bytes") a else a in
  let a := if contains "->" output then push_error "header declares more than one `->`" a
           else if negb (valid_type_expr input) || negb (valid_type_expr output)
           then push_error ("header types must be identifiers (optionally `A + B`): `" ++
                              input ++ "` -> `" ++ output ++ "`") a
           else a in
  with_header head input output a.

Definition parse_line (a : LoomAst) (raw : string) : LoomAst :=
  let line := trim raw in
  if is_empty line || starts_with "#" line then a
  else match header_of a line with
       | Some (head, input, output) => apply_header head input output a
       | None =>
           match parse_node_line line with
           | Ok node => push_node node a
           | Err error => push_error error a
           end
       end.

Definition name_position (nodes : list LoomNodeAst) (name : string) : option nat :=
  position (fun other => bool_decide (ln_name other = name)) nodes.

(** The ordering errors of one node. *)
Definition order_errors (nodes : list LoomNodeAst) (index : nat) (node : LoomNodeAst)
    : list string :=
  app
  (match ln_depends_on node with
   | None => []
   | Some dependencies =>
       filter_map (fun dependency =>
         match name_position nodes dependency with
         | None => Some ("dependency " ++ dependency ++ " on " ++ ln_name node ++ " targets no node")
         | Some target =>
             if (index <=? target)%nat
             then Some ("dependency " ++ dependency ++ " on " ++ ln_name node ++
                          " must target an earlier node")
             else None
         end) dependencies
   end)
  (match ln_back node with
      | None => []
      | Some back =>
          match name_position nodes back with
          | None => [BACK_ARROW ++ back ++ " on " ++ ln_name node ++ " targets no node"]
          | Some target =>
              if (index <? target)%nat
              then [BACK_ARROW ++ back ++ " on " ++ ln_name node ++ " must target an earlier node"]
              else []
          end
      end).

Definition parse_pipe (source : string) : LoomAst :=
  let ast := mkLoomAst None "" "" [] [] in
  if (LOOM_SOURCE_MAX_BYTES <? len source)%N
  then push_error ("pipe source exceeds " ++ pretty LOOM_SOURCE_MAX_BYTES ++ " bytes") ast
  else
    let ast := foldl parse_line ast (lines source) in
    let ast := match lo_name ast with
               | None => push_error "missing header line `name: InType -> OutType`" ast
               | Some _ => ast
               end in
    let ast := match lo_nodes ast with
               | [] => push_error "pipe declares no nodes" ast
               | _ => ast
               end in
    mkLoomAst (lo_name ast) (lo_in_type ast) (lo_out_type ast) (lo_nodes ast)
      (lo_errors ast ++ concat (imap (order_errors (lo_nodes ast)) (lo_nodes ast))).

(** ** Canonical source *)

Definition rebuild_node (node : LoomNodeAst) : string :=
  ln_name node
  ++ match ln_agent_type node with Some atype => " @" ++ atype | None => "" end
  ++ (if is_empty (ln_task node) then "" else " " ++ quote ++ ln_task node ++ quote)
  ++ match ln_gate node with
     | Cmd => ""
     | Ship => " :ship"
     | AllOf n => " :all-of-" ++ pretty n
     | LHuman => " :human"
     end
  ++ match ln_depends_on node with
     | Some dependencies => " <-" ++ join "," dependencies
     | None => ""
     end
  ++ match ln_back node with
     | Some back => if bool_decide (back = ln_name node) then " " ++ SELF_ARROW
                    else " " ++ BACK_ARROW ++ back
     | None => ""
     end.

Definition rebuild_source (ast : LoomAst) : string :=
  default "" (lo_name ast) ++ ": " ++ lo_in_type ast ++ " -> " ++ lo_out_type ast
  ++ concat_str (map (fun node => String LF (rebuild_node node)) (lo_nodes ast)).

(** ** Compilation *)

(** The locals of the loop over the nodes. *)
Record CompileState := mkCompile {
  cs_errors : list string;
  cs_meta : list LoomNodeMeta;
  cs_specs : list GraphNodeSpec;
  cs_previous : option GraphNodeName;
  cs_source_nodes : gmap string GraphNodeName;
  cs_node_outputs : gmap GraphNodeName string;
  cs_merged_outputs : gset GraphNodeName
}.

(** The authored dependencies, resolved, and the errors they raise. *)
Fixpoint resolve_dependencies (source_nodes : gmap string GraphNodeName) (name : string)
    (authored : list string) (resolved : list GraphNodeName) (errors : list string)
    : list GraphNodeName * list string :=
  match authored with
  | [] => (resolved, errors)
  | dependency :: authored =>
      match source_nodes !! dependency with
      | None => resolve_dependencies source_nodes name authored resolved
                  (app errors ["dependency " ++ dependency ++ " on " ++ name ++
                                " must target an earlier node"])
      | Some cg_dependency =>
          if bool_decide (cg_dependency ∈ resolved)
          then resolve_dependencies source_nodes name authored resolved
                 (app errors ["duplicate dependency " ++ dependency ++ " on " ++ name])
          else resolve_dependencies source_nodes name authored
                 (resolved ++ [cg_dependency])%list errors
      end
  end.

Definition gate_of (gate : LoomGate) : GraphGateKind * GraphExecutorShape * N :=
  match gate with
  | Cmd | Ship => (CommandGreen, Inline, LOOM_WORK_MAX_ATTEMPTS)
  | AllOf n => (AllOfN n, FanOut, LOOM_FANOUT_MAX_ATTEMPTS)
  | LHuman => (HumanConfirm, Human, GRAPH_MAX_ATTEMPTS)
  end.

(** The types arriving at a node. *)
Definition incoming_types (in_type : string) (outputs : gmap GraphNodeName string)
    (dependencies : list GraphNodeName) : list string :=
  match dependencies with
  | [] => [in_type]
  | _ => filter_map (fun dependency => outputs !! dependency) dependencies
  end.

(** The typed-edge law: what a specialist accepts. *)
Definition edge_accepted (carries_merge : bool) (expected carried : string) : bool :=
  if carries_merge then same_type_operands expected carried else accepts expected carried.

Section Compile.
Context `{Blake3} (lookup_type : string -> option LoomTypeSig).

Definition signature_of (node : LoomNodeAst) : option LoomTypeSig * list string :=
  match ln_agent_type node with
  | Some atype =>
      match lookup_type atype with
      | Some signature => (Some signature, [])
      | None => (None, ["node " ++ ln_name node ++ " references unregistered agent type @" ++ atype])
      end
  | None => (None, [])
  end.

Definition type_errors (node : LoomNodeAst) (signature : option LoomTypeSig)
    (carries_merge : bool) (carried : string) : list string :=
  match signature with
  | Some signature =>
      if negb (is_empty carried) && negb (edge_accepted carries_merge (sig_in_type signature) carried)
      then ["type mismatch at " ++ ln_name node ++ ": " ++
              (if carries_merge then "merged inputs" else "carries") ++ " `" ++ carried ++
              "` but @" ++ default "?" (ln_agent_type node) ++ " accepts `" ++
              sig_in_type signature ++ "`"]
      else []
  | None => []
  end.

Definition back_of (node : LoomNodeAst) : option GraphNodeName * list string :=
  match ln_back node with
  | Some target =>
      match graph_node_name_new (to_ascii_uppercase target) with
      | Ok cg => (Some cg, [])
      | Err error => (None, ["back target " ++ target ++ " on " ++ ln_name node ++ ": " ++ error])
      end
  | None => (None, [])
  end.

(** One iteration of the loop over the nodes. *)
Definition compile_node (in_type : string) (st : CompileState) (node : LoomNodeAst)
    : CompileState :=
  match graph_node_name_new (to_ascii_uppercase (ln_name node)) with
  | Err error =>
      mkCompile (cs_errors st ++ ["node " ++ ln_name node ++ ": " ++ error]) (cs_meta st)
        (cs_specs st) (cs_previous st) (cs_source_nodes st) (cs_node_outputs st)
        (cs_merged_outputs st)
  | Ok cg_name =>
      let '(dependencies, errors) :=
        match ln_depends_on node with
        | Some authored =>
            resolve_dependencies (cs_source_nodes st) (ln_name node) authored [] (cs_errors st)
        | None => (match cs_previous st with Some p => [p] | None => [] end, cs_errors st)
        end in
      let carried := merge_type_exprs (incoming_types in_type (cs_node_outputs st) dependencies) in
      let carries_merge := (1 <? length dependencies)%nat
        || existsb (fun dependency => bool_decide (dependency ∈ cs_merged_outputs st))
             dependencies in
      let '(signature, lookup_errors) := signature_of node in
      let '(back, back_errors) := back_of node in
      let '(gate, executor, max_attempts) := gate_of (ln_gate node) in
      let spec := mkGraphNodeSpec cg_name gate executor max_attempts
        (if is_human_gate gate then None else Some GRAPH_MAX_EVIDENCE_PER_ATTEMPT)
        dependencies back [] in
      let meta := mkNodeMeta (ln_name node) cg_name (ln_agent_type node) None None (ln_task node)
        (sig_in_type <$> signature) (sig_out_type <$> signature) back in
      let output := match signature with Some s => sig_out_type s | None => carried end in
      mkCompile
        (errors ++ lookup_errors ++ type_errors node signature carries_merge carried ++ back_errors)
        (cs_meta st ++ [meta]) (cs_specs st ++ [spec]) (Some cg_name)
        (<[ln_name node := cg_name]> (cs_source_nodes st))
        (<[cg_name := output]> (cs_node_outputs st))
        (match signature with
         | None => if carries_merge then {[cg_name]} ∪ cs_merged_outputs st else cs_merged_outputs st
         | Some _ => cs_merged_outputs st
         end)
  end.

Definition compile_nodes (ast : LoomAst) : CompileState :=
  foldl (compile_node (lo_in_type ast)) (mkCompile (lo_errors ast) [] [] None ∅ ∅ ∅) (lo_nodes ast).

(** Dependencies named by some node. *)
Definition depended_on (specs : list GraphNodeSpec) : list GraphNodeName :=
  flat_map spec_depends_on specs.

Definition terminal_specs (specs : list GraphNodeSpec) : list GraphNodeSpec :=
  filterb (fun spec => negb (bool_decide (spec_name spec ∈ depended_on specs))) specs.

(** The output law. *)
Definition output_errors (ast : LoomAst) (st : CompileState) : list string :=
  if bool_decide (cs_errors st = []) && negb (is_empty (lo_out_type ast))
  then
    let terminal_outputs :=
      filter_map (fun spec => cs_node_outputs st !! spec_name spec) (terminal_specs (cs_specs st)) in
    let produced := merge_type_exprs terminal_outputs in
    let output_is_merged := (1 <? length terminal_outputs)%nat
      || existsb (fun spec => bool_decide (spec_name spec ∈ cs_merged_outputs st))
           (terminal_specs (cs_specs st)) in
    if edge_accepted output_is_merged (lo_out_type ast) produced then []
    else ["pipe declares output `" ++ lo_out_type ast ++ "` but its nodes produce `" ++
            produced ++ "`"]
  else [].

Definition compile_pipe (ast : LoomAst) : result LoomWorkflow (list string) :=
  let st := compile_nodes ast in
  let name := default "" (lo_name ast) in
  let errors := (cs_errors st ++ output_errors ast st)%list in
  let template := mkGraphTemplateSpec name GRAPH_TEMPLATE_VERSION
    (spec_name <$> head (cs_specs st)) (cs_specs st) in
  let errors :=
    if bool_decide (errors = [])
    then match validate_graph_template template with
         | Err error => ["template rejected: " ++ te_message error]
         | Ok _ => []
         end
    else errors in
  if bool_decide (errors = [])
  then
    let workflow := mkLoomWorkflow name LOOM_PIPE_VERSION (rebuild_source ast) (lo_in_type ast)
      (lo_out_type ast) template (cs_meta st) 1 "" in
    Ok (mkLoomWorkflow name LOOM_PIPE_VERSION (rebuild_source ast) (lo_in_type ast)
          (lo_out_type ast) template (cs_meta st) 1 (loom_workflow_digest workflow))
  else Err errors.
End Compile.
