(* ===== verification/LoomRoundTrip.v ===== *)
(** * Canonical pipe source is read back

    [rebuild_source] prints an AST in one normal form, which the workflow
    record stores and other parts parse again.  For every source that parsed
    without errors the printed form parses to the same AST, as long as it stays
    within the size the parser accepts; a source near that size can outgrow it
    when it is printed. *)

From S2P Require Import Prelude RustStr Digest GraphTypes TypeExpr StrLaws Loom.

Local Open Scope string_scope.

(** ** What the parser produces *)

Definition gate_wf (g : LoomGate) : Prop :=
  match g with AllOf k => (0 < k <= GRAPH_MAX_EVIDENCE_PER_ATTEMPT)%N | _ => True end.

Record node_wf (n : LoomNodeAst) : Prop := {
  nw_name : is_ident (ln_name n) = true;
  nw_agent : forall a, ln_agent_type n = Some a -> is_ident a = true;
  nw_task_quote : no_byte DQUOTE (ln_task n) = true;
  nw_task_line : no_byte LF (ln_task n) = true;
  nw_task_len : (len (ln_task n) <= LOOM_TASK_MAX_BYTES)%N;
  nw_gate : gate_wf (ln_gate n);
  nw_deps : forall l, ln_depends_on n = Some l ->
    l <> [] /\ Forall (fun d => is_ident d = true) l /\ NoDup l;
  nw_back : forall b, ln_back n = Some b -> is_ident b = true
}.

Lemma ident_nonempty s : is_ident s = true -> s <> "".
Proof. by destruct s. Qed.

Lemma ident_bytes s : is_ident s = true -> all_bytes ident_byte s = true.
Proof. unfold is_ident, is_ident_chars. by intros [[_ ?]%andb_true_iff _]%andb_true_iff. Qed.

Lemma parse_gate_ok name gate g : parse_gate name gate = Ok g -> gate_wf g.
Proof.
  unfold parse_gate. intros Hp. repeat case_match; simplify_eq; try done.
  guards. done.
Qed.

Lemma parse_dependencies_ok name parsed l r :
  Forall (fun d => is_ident d = true) parsed -> NoDup parsed ->
  parse_dependencies name parsed l = Ok r ->
  r = (parsed ++ l)%list /\ Forall (fun d => is_ident d = true) r /\ NoDup r.
Proof.
  revert parsed. induction l as [|d l IH]; intros parsed Hf Hnd; simpl.
  { intros [= <-]. by rewrite app_nil_r. }
  destruct (is_ident d) eqn:Hd; [|done]. simpl. case_bool_decide as Hin; [done|].
  intros Hr%IH; [by rewrite <- app_assoc in Hr|..].
  - apply Forall_app. split; [done|by repeat constructor].
  - apply NoDup_app. split_and!; [done| |by apply NoDup_singleton].
    intros x Hx ->%list_elem_of_singleton. done.
Qed.

Lemma split_char_nonempty c s : split_char c s <> [].
Proof. destruct s; simpl; [done|]. case_bool_decide; [done|]. by destruct (split_char c s). Qed.

Lemma wf_agent_type a n : node_wf n -> is_ident a = true -> node_wf (with_agent_type a n).
Proof. intros [] Ha. split; try done. by intros ? [= <-]. Qed.

Lemma wf_gate g n : node_wf n -> gate_wf g -> node_wf (with_gate g n).
Proof. intros [] Hg. by split. Qed.

Lemma wf_depends_on l n :
  node_wf n -> l <> [] -> Forall (fun d => is_ident d = true) l -> NoDup l ->
  node_wf (with_depends_on l n).
Proof. intros [] ???. split; try done. by intros ? [= <-]. Qed.

Lemma wf_back b n : node_wf n -> is_ident b = true -> node_wf (with_back b n).
Proof. intros [] Hb. split; try done. by intros ? [= <-]. Qed.

(** Every token keeps the node well formed. *)
Lemma parse_token_wf st token st' :
  parse_token st token = Ok st' -> node_wf st.1 -> node_wf st'.1.
Proof.
  destruct st as [n saw]. unfold parse_token. cbn [fst snd]. intros Hp Hw.
  destruct (strip_prefix "@" token) as [a|].
  { destruct (is_ident a) eqn:Ha; cbn [negb] in Hp; [|done]. case_bool_decide; [done|].
    injection Hp as <-. by apply wf_agent_type. }
  destruct (strip_prefix ":" token) as [g|].
  { destruct saw; [done|]. res_invert. simplify_eq/=. apply wf_gate; [done|]. by eapply parse_gate_ok. }
  destruct (strip_prefix "<-" token) as [d|].
  { case_bool_decide; [done|]. res_invert. simplify_eq/=.
    apply parse_dependencies_ok in Hstep as (-> & ? & ?); [|constructor..].
    apply wf_depends_on; [done|apply split_char_nonempty|done..]. }
  destruct (String.eqb token SELF_ARROW).
  { case_bool_decide; [done|]. injection Hp as <-. apply wf_back; [done|apply Hw]. }
  destruct (match strip_prefix BACK_ARROW token with Some _ => _ | None => _ end) as [b|]; [|done].
  destruct (is_ident b) eqn:Hb; cbn [negb] in Hp; [|done]. case_bool_decide; [done|].
  injection Hp as <-. by apply wf_back.
Qed.

Lemma parse_tokens_wf st tokens st' :
  parse_tokens st tokens = Ok st' -> node_wf st.1 -> node_wf st'.1.
Proof.
  revert st. induction tokens as [|t l IH]; intros st; simpl; [by intros [= <-]|].
  intros Hp Hw. res_invert. eauto using parse_token_wf.
Qed.

Lemma parse_node_line_wf line n :
  no_byte LF line = true -> parse_node_line line = Ok n -> node_wf n.
Proof.
  intros Hline Hp. unfold parse_node_line in Hp. apply result_bind_ok in Hp as ([task rest] & Hl & Hp).
  simpl in Hp. destruct (split_whitespace rest) as [|name tokens]; [done|].
  destruct (is_ident name) eqn:Hn; simpl in Hp; [|done].
  apply result_bind_ok in Hp as (st & Hp & [= <-]). eapply parse_tokens_wf; [done|].
  unfold lift_task in Hl. destruct (split_once quote line) as [[before after]|] eqn:E1.
  - destruct (split_once quote after) as [[t tail]|] eqn:E2; [|done].
    destruct (LOOM_TASK_MAX_BYTES <? len t)%N eqn:Hlen; [done|]. injection Hl as <- <-.
    apply split_once_some in E1. pose proof (split_once_byte_some _ _ _ _ E2) as Hq.
    apply split_once_some in E2. subst line after. rewrite !no_byte_app in Hline.
    guards. split; simpl; done.
  - injection Hl as <- <-. by split.
Qed.

(** ** Printing a node as tokens *)

Definition gate_token (g : LoomGate) : list string :=
  match g with
  | Cmd => []
  | Ship => [":ship"]
  | AllOf n => [":all-of-" ++ pretty n]
  | LHuman => [":human"]
  end.

Definition back_token (name back : string) : string :=
  if bool_decide (back = name) then SELF_ARROW else BACK_ARROW ++ back.

Definition deps_token (l : list string) : string := "<-" ++ join "," l.

Definition agent_tokens (n : LoomNodeAst) : list string :=
  opt_part (String.append "@") (ln_agent_type n).

Definition rest_tokens (n : LoomNodeAst) : list string :=
  (gate_token (ln_gate n) ++ opt_part deps_token (ln_depends_on n)
   ++ opt_part (back_token (ln_name n)) (ln_back n))%list.

Definition task_text (task : string) : string :=
  if is_empty task then "" else space ++ quote ++ task ++ quote.

Lemma render_app l k : render (l ++ k) = render l ++ render k.
Proof. unfold render. by rewrite map_app, concat_str_app. Qed.

Lemma rebuild_node_tokens n :
  rebuild_node n =
  ln_name n ++ (render (agent_tokens n) ++ (task_text (ln_task n) ++ render (rest_tokens n))).
Proof.
  unfold rebuild_node, agent_tokens, rest_tokens, task_text. rewrite !render_app. unfold render.
  f_equal. f_equal; [destruct (ln_agent_type n); simpl; by rewrite ?str_app_nil_r|].
  f_equal. f_equal; [by destruct (ln_gate n); simpl; rewrite ?str_app_nil_r|].
  f_equal; [destruct (ln_depends_on n); simpl; by rewrite ?str_app_nil_r|].
  destruct (ln_back n); simpl; [|done]. unfold back_token. rewrite str_app_nil_r. by case_bool_decide.
Qed.

(** The tokens hold no white space, no quote and no line feed. *)
Lemma all_bytes_impl p q s :
  (forall c, p c = true -> q c = true) -> all_bytes p s = true -> all_bytes q s = true.
Proof.
  intros Hpq. induction s as [|c s IH]; simpl; [done|].
  intros [Hc Hs]%andb_true_iff. by rewrite (Hpq c Hc), IH.
Qed.

Lemma ident_byte_plain c : ident_byte c = true -> plain c = true.
Proof. destruct c as [[] [] [] [] [] [] [] []]; vm_compute; congruence. Qed.

Lemma ident_byte_no d c : ident_byte d = false -> ident_byte c = true ->
  negb (bool_decide (d = c)) = true.
Proof. intros Hd Hc. case_bool_decide; [congruence|done]. Qed.

Lemma ident_plain s : is_ident s = true -> all_bytes plain s = true.
Proof. intros Hs%ident_bytes. eapply all_bytes_impl, Hs. apply ident_byte_plain. Qed.

Lemma ident_no_byte d s : ident_byte d = false -> is_ident s = true -> no_byte d s = true.
Proof. intros Hd Hs%ident_bytes. eapply all_bytes_impl, Hs. intros c. by apply ident_byte_no. Qed.

Lemma ident_clean s : is_ident s = true -> clean s.
Proof. intros Hs. apply plain_clean; [by apply ident_nonempty|by apply ident_plain]. Qed.

Lemma join_plain l :
  Forall (fun d => is_ident d = true) l -> all_bytes plain (join "," l) = true.
Proof.
  induction 1 as [|d l Hd Hl IH]; [done|]. destruct l as [|e l]; [by apply ident_plain|].
  change (join "," (d :: e :: l)) with (d ++ "," ++ join "," (e :: l)).
  by rewrite !all_bytes_app, IH, (ident_plain d Hd).
Qed.

(** What a printed token is made of. *)
Definition token_ok (t : string) : Prop :=
  clean t /\ no_byte DQUOTE t = true /\ no_byte LF t = true.

Lemma plain_no_lf s : all_bytes plain s = true -> no_byte LF s = true.
Proof. apply all_bytes_impl. intros c Hc. case_bool_decide; [by subst c|done]. Qed.

Lemma plain_token t :
  negb (is_empty t) && all_bytes plain t && no_byte DQUOTE t = true -> token_ok t.
Proof.
  intros [[Hne Hp]%andb_true_iff Hq]%andb_true_iff. split.
  - apply plain_clean; [by destruct t|done].
  - split; [done|by apply plain_no_lf].
Qed.

Lemma ident_token s : is_ident s = true -> token_ok s.
Proof.
  intros Hs. apply plain_token. rewrite (ident_plain s Hs), (ident_no_byte DQUOTE s) by done.
  by destruct s.
Qed.

Lemma prefixed_token c s :
  plain c && negb (bool_decide (DQUOTE = c)) = true -> all_bytes plain s = true ->
  no_byte DQUOTE s = true -> token_ok (String c s).
Proof.
  intros [Hc Hd]%andb_true_iff Hs Hq. apply plain_token. unfold no_byte in *. simpl.
  by rewrite Hc, Hd, Hs, Hq.
Qed.

Lemma all_of_cases (P : N -> Prop) k :
  (0 < k <= GRAPH_MAX_EVIDENCE_PER_ATTEMPT)%N -> Forall P [1; 2; 3; 4; 5; 6; 7; 8]%N -> P k.
Proof.
  unfold GRAPH_MAX_EVIDENCE_PER_ATTEMPT. intros Hk Hf. rewrite Forall_forall in Hf. apply Hf.
  assert (k = 1 \/ k = 2 \/ k = 3 \/ k = 4 \/ k = 5 \/ k = 6 \/ k = 7 \/ k = 8)%N as Hc by lia.
  destruct_or? Hc; subst k; set_solver.
Qed.

Lemma gate_token_ok g : gate_wf g -> Forall token_ok (gate_token g).
Proof.
  destruct g as [| |k|]; simpl; [by constructor|..]; intros Hg; apply Forall_singleton;
    try (apply plain_token; reflexivity).
  apply (all_of_cases (fun k => token_ok (":all-of-" ++ pretty k)) k Hg).
  repeat (apply Forall_cons_2; [apply plain_token; vm_compute; reflexivity|]). apply Forall_nil_2.
Qed.

Lemma back_arrow_clean : clean BACK_ARROW.
Proof. split; [done|]. split; [reflexivity|]. vm_compute. repeat constructor. Qed.

Lemma back_token_ok name back : is_ident back = true -> token_ok (back_token name back).
Proof.
  intros Hb. unfold back_token. case_bool_decide.
  - split; [|by vm_compute]. split; [done|]. split; [reflexivity|]. vm_compute. repeat constructor.
  - destruct (ident_token _ Hb) as (Hc & Hq & Hl). split.
    + apply clean_app; [apply back_arrow_clean|by right].
    + by rewrite !no_byte_app, Hq, Hl.
Qed.

Lemma agent_tokens_ok n : node_wf n -> Forall token_ok (agent_tokens n).
Proof.
  intros Hw. unfold agent_tokens. destruct (ln_agent_type n) as [a|] eqn:E; [|constructor].
  pose proof (nw_agent n Hw a E) as Ha. apply Forall_singleton.
  apply prefixed_token; [done|by apply ident_plain|by apply ident_no_byte].
Qed.

Lemma join_no_quote l :
  Forall (fun d => is_ident d = true) l -> no_byte DQUOTE (join "," l) = true.
Proof.
  induction 1 as [|d l Hd Hl IH]; [done|]. destruct l as [|e l]; [by apply ident_no_byte|].
  change (join "," (d :: e :: l)) with (d ++ "," ++ join "," (e :: l)).
  by rewrite !no_byte_app, IH, (ident_no_byte DQUOTE d).
Qed.

Lemma rest_tokens_ok n : node_wf n -> Forall token_ok (rest_tokens n).
Proof.
  intros Hw. unfold rest_tokens. rewrite !Forall_app. split_and!.
  - apply gate_token_ok, Hw.
  - destruct (ln_depends_on n) as [l|] eqn:E; [|constructor]. apply Forall_singleton.
    destruct (nw_deps n Hw l E) as (_ & Hl & _). unfold deps_token. simpl.
    apply prefixed_token; [done|simpl; by rewrite join_plain|].
    change (no_byte DQUOTE ("-" ++ join "," l) = true). by rewrite no_byte_app, join_no_quote.
  - destruct (ln_back n) as [b|] eqn:E; [|constructor]. apply Forall_singleton.
    apply back_token_ok. by apply (nw_back n Hw).
Qed.

(** ** Reading the tokens back *)

Lemma split_join l :
  Forall (fun d => is_ident d = true) l -> l <> [] -> split_char "," (join "," l) = l.
Proof.
  induction 1 as [|d l Hd Hl IH]; [done|]. intros _.
  destruct l as [|e l]; [apply split_char_single; by apply ident_no_byte|].
  change (join "," (d :: e :: l)) with (d ++ String "," (join "," (e :: l))).
  rewrite split_char_app by (by apply ident_no_byte). f_equal. by apply IH.
Qed.

Lemma parse_dependencies_complete name parsed l :
  Forall (fun d => is_ident d = true) l -> NoDup (parsed ++ l) ->
  parse_dependencies name parsed l = Ok (parsed ++ l)%list.
Proof.
  revert parsed. induction l as [|d l IH]; intros parsed Hf Hnd; simpl; [by rewrite app_nil_r|].
  apply Forall_cons in Hf as [Hd Hf]. rewrite Hd. simpl.
  rewrite bool_decide_false.
  - rewrite IH, <- app_assoc; [done|done|]. by rewrite <- app_assoc.
  - apply NoDup_app in Hnd as (_ & Hdis & _). intros Hx. apply (Hdis d Hx). set_solver.
Qed.

Lemma parse_gate_pretty name k :
  (0 < k <= GRAPH_MAX_EVIDENCE_PER_ATTEMPT)%N -> parse_gate name ("all-of-" ++ pretty k) = Ok (AllOf k).
Proof.
  intros Hk. apply (all_of_cases (fun k => parse_gate name ("all-of-" ++ pretty k) = Ok (AllOf k)) k Hk).
  repeat (apply Forall_cons_2; [reflexivity|]). apply Forall_nil_2.
Qed.

(** The effect of each printed token on the node read so far. *)
Lemma read_agent n a saw :
  is_ident a = true -> ln_agent_type n = None ->
  parse_token (n, saw) ("@" ++ a) = Ok (with_agent_type a n, saw).
Proof. intros Ha Hn. unfold parse_token. by rewrite strip_prefix_app, Ha, Hn. Qed.

Lemma read_gate_token n s :
  parse_token (n, false) (String ":" s) =
  result_bind (parse_gate (ln_name n) s) (fun g => Ok (with_gate g n, true)).
Proof. reflexivity. Qed.

Lemma read_gate n g toks :
  gate_wf g -> ln_gate n = Cmd ->
  parse_tokens (n, false) (gate_token g ++ toks) =
  parse_tokens (with_gate g n, match g with Cmd => false | _ => true end) toks.
Proof.
  intros Hg Hn. destruct g as [| |k|]; simpl app.
  - unfold with_gate. rewrite <- Hn. by destruct n.
  - done.
  - change (gate_token (AllOf k) ++ toks)%list
      with (String ":" ("all-of-" ++ pretty k) :: toks).
    cbn [parse_tokens]. rewrite read_gate_token.
    pose proof (parse_gate_pretty (ln_name n) k Hg) as E. simpl String.append in E. by rewrite E.
  - done.
Qed.

Lemma read_deps n l saw :
  l <> [] -> Forall (fun d => is_ident d = true) l -> NoDup l -> ln_depends_on n = None ->
  parse_token (n, saw) (deps_token l) = Ok (with_depends_on l n, saw).
Proof.
  intros Hl Hf Hnd Hn. unfold parse_token, deps_token. simpl. rewrite Hn, split_join by done.
  by rewrite (parse_dependencies_complete _ [] l).
Qed.

Lemma read_back n b saw :
  is_ident b = true -> ln_back n = None ->
  parse_token (n, saw) (back_token (ln_name n) b) = Ok (with_back b n, saw).
Proof.
  intros Hb Hn. unfold back_token. case_bool_decide as E.
  - subst b. unfold parse_token. simpl. by rewrite Hn.
  - unfold parse_token. simpl. by rewrite Hb, Hn.
Qed.

Lemma read_tokens n :
  node_wf n ->
  exists saw, parse_tokens (mkLoomNode (ln_name n) None (ln_task n) Cmd None None, false)
                (agent_tokens n ++ rest_tokens n) = Ok (n, saw).
Proof.
  intros Hw. destruct n as [name agent task gate deps back].
  set (n1 := mkLoomNode name agent task Cmd None None).
  assert (forall toks, parse_tokens (mkLoomNode name None task Cmd None None, false)
            (opt_part (String.append "@") agent ++ toks) = parse_tokens (n1, false) toks) as Hagent.
  { intros toks. destruct agent as [a|]; [|done]. cbn [opt_part parse_tokens app].
    rewrite read_agent; [done| |done]. by apply (nw_agent _ Hw). }
  unfold agent_tokens, rest_tokens. simpl. rewrite Hagent, read_gate; [|apply (nw_gate _ Hw)|done].
  exists (match gate with Cmd => false | _ => true end). generalize (match gate with Cmd => false | _ => true end).
  intros saw. set (n3 := mkLoomNode name agent task gate deps None).
  assert (forall toks, parse_tokens (with_gate gate n1, saw) (opt_part deps_token deps ++ toks) =
            parse_tokens (n3, saw) toks) as Hdeps.
  { intros toks. destruct deps as [l|]; [|done]. cbn [opt_part parse_tokens app].
    destruct (nw_deps _ Hw l eq_refl) as (? & ? & ?). by rewrite read_deps. }
  rewrite Hdeps. destruct back as [b|]; [|done]. cbn [opt_part parse_tokens].
  change name with (ln_name n3). rewrite read_back; [done| |done]. by apply (nw_back _ Hw).
Qed.

(** ** A printed line *)

Lemma tokens_clean l : Forall token_ok l -> Forall clean l.
Proof. intros Hl. eapply Forall_impl; [done|]. by intros t []. Qed.

Lemma render_no_byte c l :
  c <> " "%char -> Forall (fun t => no_byte c t = true) l -> no_byte c (render l) = true.
Proof.
  intros Hc Hl. induction Hl as [|t l Ht Hl IH]; [done|].
  change (render (t :: l)) with ((space ++ t) ++ render l). rewrite !no_byte_app, Ht, IH.
  unfold no_byte. simpl. by rewrite bool_decide_false.
Qed.

Lemma tokens_no_byte c l :
  c = DQUOTE \/ c = LF -> Forall token_ok l -> no_byte c (render l) = true.
Proof.
  intros Hc Hl. apply render_no_byte; [by destruct Hc; subst c|].
  eapply Forall_impl; [done|]. intros t (_ & ? & ?). by destruct Hc; subst c.
Qed.

(** The line without its task is its tokens. *)
Lemma line_words n x :
  node_wf n -> x = "" \/ x = space ++ space ->
  split_whitespace (ln_name n ++ (render (agent_tokens n) ++ (x ++ render (rest_tokens n)))) =
  ln_name n :: (agent_tokens n ++ rest_tokens n)%list.
Proof.
  intros Hw Hx. pose proof (tokens_clean _ (agent_tokens_ok n Hw)) as Ha.
  pose proof (tokens_clean _ (rest_tokens_ok n Hw)) as Hr.
  pose proof (render_gap _ Hr) as Hg.
  assert (gap (x ++ render (rest_tokens n)) /\
          split_whitespace (x ++ render (rest_tokens n)) = rest_tokens n) as [Hgx Hsx].
  { assert (split_whitespace (render (rest_tokens n)) = rest_tokens n) as Hs.
    { rewrite <- (str_app_nil_r (render _)), split_render by (done || by left). apply app_nil_r. }
    destruct Hx as [->| ->]; [done|]. rewrite str_app_assoc. split.
    - right. eexists. split; [done|]. done.
    - rewrite !split_space; [done|by apply gap_head|done]. }
  rewrite split_word, split_render, Hsx; [done|done|done| |by apply gap_app].
  apply ident_clean, Hw.
Qed.

Lemma rebuild_node_parses n : node_wf n -> parse_node_line (rebuild_node n) = Ok n.
Proof.
  intros Hw. rewrite rebuild_node_tokens. unfold parse_node_line.
  assert (no_byte DQUOTE (ln_name n ++ render (agent_tokens n)) = true) as Hb.
  { rewrite no_byte_app, (ident_no_byte DQUOTE (ln_name n)) by (done || apply Hw).
    apply tokens_no_byte; [by left|by apply agent_tokens_ok]. }
  assert (exists x, (x = "" \/ x = space ++ space) /\
    lift_task (ln_name n ++ (render (agent_tokens n) ++ (task_text (ln_task n) ++ render (rest_tokens n))))
    = Ok (ln_task n, ln_name n ++ (render (agent_tokens n) ++ (x ++ render (rest_tokens n)))))
    as (x & Hx & Hl).
  { unfold task_text, lift_task, quote. destruct (is_empty (ln_task n)) eqn:Ht.
    - exists "". split; [by left|]. rewrite split_once_byte_none.
      + by destruct (ln_task n).
      + rewrite <- str_app_assoc, no_byte_app, Hb. apply tokens_no_byte; [by left|by apply rest_tokens_ok].
    - exists (space ++ space). split; [by right|].
      replace (ln_name n ++ _) with ((ln_name n ++ render (agent_tokens n) ++ space)
        ++ String DQUOTE (ln_task n ++ String DQUOTE (render (rest_tokens n))))
        by (unfold space; by rewrite !str_app_assoc).
      rewrite split_once_byte by (by rewrite <- str_app_assoc, no_byte_app, Hb).
      rewrite split_once_byte by apply Hw.
      rewrite (proj2 (N.ltb_ge _ _)) by apply Hw. do 2 f_equal. unfold space. by rewrite !str_app_assoc. }
  rewrite Hl. cbn [result_bind snd fst]. rewrite line_words by done.
  rewrite (nw_name n Hw). cbn [negb]. destruct (read_tokens n Hw) as [saw ->]. done.
Qed.

(** A piece of a line that may follow any other: nothing, or text that starts
    with a space and does not end in one. *)
Definition piece (t : string) : Prop :=
  t = "" \/ (exists y, t = String " " y) /\ tight_last t.

Lemma piece_app s t : piece s -> piece t -> piece (s ++ t).
Proof.
  intros [->|[[y ->] Hs]] Ht; [done|]. right. split; [by eexists|].
  destruct Ht as [->|[[z ->] Ht]]; [by rewrite str_app_nil_r|]. by apply tight_last_app.
Qed.

Lemma piece_head t : piece t -> starts_continuation t = false.
Proof. by intros [->|[[y ->] _]]. Qed.

Lemma piece_after s t : tight_last s -> piece t -> tight_last (s ++ t).
Proof.
  intros Hs [->|[[y ->] Ht]]; [by rewrite str_app_nil_r|]. by apply tight_last_app.
Qed.

Lemma render_piece l : Forall clean l -> piece (render l).
Proof.
  induction 1 as [|t l Ht Hl IH]; [by left|].
  change (render (t :: l)) with ((space ++ t) ++ render l). apply piece_app; [|done].
  right. split; [by eexists|]. pose proof (clean_tight t Ht) as [_ Hlast]. destruct Ht as (? & ? & _).
  by apply tight_last_app.
Qed.

Lemma task_piece task : piece (task_text task).
Proof.
  unfold task_text. destruct (is_empty task); [by left|]. right. split; [by eexists|].
  rewrite <- !str_app_assoc. apply tight_last_app; [done|done|]. by intros g [= <-].
Qed.

(** A printed line is trimmed, holds no line feed, and starts with the name. *)
Lemma rebuild_node_line n :
  node_wf n ->
  trim (rebuild_node n) = rebuild_node n /\ no_byte LF (rebuild_node n) = true /\
  exists c s, rebuild_node n = String c s /\ ident_byte c = true.
Proof.
  intros Hw. rewrite rebuild_node_tokens.
  pose proof (tokens_clean _ (agent_tokens_ok n Hw)) as Ha.
  pose proof (tokens_clean _ (rest_tokens_ok n Hw)) as Hr.
  pose proof (clean_tight _ (ident_clean _ (nw_name n Hw))) as [Hh Hl].
  assert (piece (render (agent_tokens n) ++ (task_text (ln_task n) ++ render (rest_tokens n)))) as Hp.
  { apply piece_app; [by apply render_piece|]. apply piece_app; [apply task_piece|by apply render_piece]. }
  split_and!.
  - apply trim_id; [|by apply piece_after].
    apply tight_head_app; [apply ident_nonempty, Hw|by apply piece_head|done].
  - rewrite !no_byte_app, (ident_no_byte LF (ln_name n)) by (done || apply Hw).
    rewrite !tokens_no_byte by (by right || by apply agent_tokens_ok || by apply rest_tokens_ok).
    unfold task_text. destruct (is_empty (ln_task n)); [done|].
    rewrite !no_byte_app, (nw_task_line n Hw). done.
  - pose proof (ident_bytes _ (nw_name n Hw)) as Hb. pose proof (ident_nonempty _ (nw_name n Hw)).
    destruct (ln_name n) as [|c s]; [done|]. simpl in Hb. apply andb_true_iff in Hb as [Hc _].
    by eexists _, _.
Qed.

(** ** The header *)

(** What an accepted header holds. *)
Record header_wf (name input output : string) : Prop := {
  hw_name : is_ident_chars name = true;
  hw_name_len : (len name <= 64)%N;
  hw_input : valid_type_expr input = true;
  hw_output : valid_type_expr output = true;
  hw_input_trim : trim input = input;
  hw_output_trim : trim output = output;
  hw_input_line : no_byte LF input = true;
  hw_output_line : no_byte LF output = true;
  hw_input_arrow : contains "->" input = false;
  hw_output_arrow : contains "->" output = false
}.

Lemma contains_false p s : contains p s = false <-> split_once p s = None.
Proof. unfold contains. by rewrite bool_decide_eq_false, <- eq_None_not_Some. Qed.

(** The arrow is found where it is, when the text before it holds none. *)
Lemma split_once_arrow a b :
  contains "->" a = false -> split_once "->" (a ++ "->" ++ b) = Some (a, b).
Proof.
  rewrite contains_false. induction a as [|c a IH]; [done|]. intros Ha.
  destruct (strip_prefix "->" (String c a)) eqn:E; [by simpl in Ha, E; rewrite E in Ha|].
  assert (split_once "->" a = None) as Hn.
  { simpl in Ha, E. rewrite E in Ha. by destruct (split_once "->" a). }
  specialize (IH Hn). simpl String.append at 1.
  assert (strip_prefix "->" (String c (a ++ "->" ++ b)) = None) as E'.
  { destruct a as [|d a]; simpl in E |- *; by repeat case_bool_decide. }
  change (match strip_prefix "->" (String c (a ++ "->" ++ b)) with
          | Some rest => Some ("", rest)
          | None => (fun ab => (String c ab.1, ab.2)) <$> split_once "->" (a ++ "->" ++ b)
          end = Some (String c a, b)).
  by rewrite E', IH.
Qed.

Lemma contains_tail p c s : contains p (String c s) = false -> contains p s = false.
Proof.
  rewrite !contains_false. simpl. destruct (strip_prefix p (String c s)); [done|].
  by destruct (split_once p s).
Qed.

Lemma contains_suffix p s t : contains p (s ++ t) = false -> contains p t = false.
Proof. induction s as [|c s IH]; [done|]. intros Hc%contains_tail. by apply IH. Qed.

Lemma strip_prefix_app_none p s t : strip_prefix p (s ++ t) = None -> strip_prefix p s = None.
Proof.
  revert s. induction p as [|a p IH]; intros [|b s]; simpl; try done. case_bool_decide; [apply IH|done].
Qed.

Lemma contains_prefix p s t : contains p (s ++ t) = false -> contains p s = false.
Proof.
  induction s as [|c s IH]; intros Hc.
  - rewrite contains_false in Hc |- *. simpl in *. destruct (strip_prefix p "") eqn:E; [|done].
    apply strip_prefix_some in E. destruct p; [|done]. simpl in Hc. by destruct t.
  - pose proof (IH (contains_tail _ _ _ Hc)) as Hs. rewrite contains_false in Hc, Hs |- *. simpl in *.
    destruct (strip_prefix p (String c (s ++ t))) eqn:E; [done|].
    rewrite (strip_prefix_app_none p (String c s) t E), Hs. done.
Qed.

Lemma contains_trim p s : contains p s = false -> contains p (trim s) = false.
Proof.
  destruct (trim_split s) as (w & v & E). rewrite E at 1. intros Hc%contains_suffix.
  by apply contains_prefix in Hc.
Qed.

Lemma arrow_before_space s : contains "->" s = false -> contains "->" (s ++ " ") = false.
Proof.
  rewrite !contains_false. induction s as [|c s IH]; [done|]. intros Hs.
  assert (split_once "->" s = None) as Hn
    by (apply contains_false, (contains_tail _ c), contains_false, Hs).
  specialize (IH Hn). simpl in Hs, IH |- *. rewrite IH.
  destruct s as [|d s]; simpl in *; by repeat case_bool_decide.
Qed.

Lemma split_once_first p s a b : p <> "" -> split_once p s = Some (a, b) -> contains p a = false.
Proof.
  intros Hp. revert a. induction s as [|c s IH]; intros a; simpl.
  - destruct (strip_prefix p "") eqn:E; [|done]. intros [= <- _]. by destruct p.
  - destruct (strip_prefix p (String c s)) eqn:E.
    + intros [= <- _]. by destruct p.
    + rewrite fmap_Some. intros ([a' b'] & Hs & [= -> ->]). simpl.
      pose proof (IH _ Hs) as Ha. apply split_once_some in Hs. subst s.
      rewrite contains_false in Ha |- *. simpl.
      change (String c (a' ++ p ++ b')) with (String c a' ++ (p ++ b')) in E.
      by rewrite (strip_prefix_app_none p (String c a') _ E), Ha.
Qed.

(** A trimmed type expression starts with a whole code point. *)
Lemma valid_type_expr_head v :
  valid_type_expr v = true -> trim v = v -> starts_continuation v = false.
Proof.
  intros Hv Ht. destruct (starts_continuation v) eqn:Hc; [|done]. exfalso.
  unfold valid_type_expr in Hv. apply andb_true_iff in Hv as [_ Hv].
  pose proof (join_split_char "+" v) as Hj.
  destruct (split_char "+" v) as [|p ps] eqn:E; [by apply split_char_nonempty in E|].
  simpl in Hv. apply andb_true_iff in Hv as [Hp _].
  assert (exists rest, v = p ++ rest /\ starts_continuation rest = false) as (rest & -> & Hr).
  { destruct ps; simpl in Hj; [exists ""; by rewrite str_app_nil_r|]. by eexists. }
  apply trim_fixed in Ht as [Hh _].
  destruct p as [|c p]; [done|]. destruct (chars_cons c p) as (g & gs & Eg).
  assert (is_whitespace (String c g) = false) as Hg.
  { apply Hh. rewrite chars_app by done. by rewrite Eg. }
  pose proof (trim_groups_head (chars (String c p)) (String c g)) as Hhead.
  rewrite <- chars_trim, Eg in Hhead. specialize (Hhead eq_refl Hg).
  pose proof (ident_clean _ Hp) as (_ & Hcont & _).
  destruct (chars (trim (String c p))) as [|h hs] eqn:Et; [done|]. injection Hhead as ->.
  apply chars_head in Et. rewrite Hcont in Et. simpl in Et, Hc. congruence.
Qed.

Definition header_line (name input output : string) : string :=
  name ++ ": " ++ input ++ " -> " ++ output.

Lemma ident_chars_bytes s : is_ident_chars s = true -> all_bytes ident_byte s = true.
Proof. unfold is_ident_chars. by intros [_ ?]%andb_true_iff. Qed.

Lemma valid_nonempty v : valid_type_expr v = true -> v <> "".
Proof. by destruct v. Qed.

(** The printed header is one trimmed line that starts with the name. *)
Lemma header_line_ok name i o :
  header_wf name i o ->
  trim (header_line name i o) = header_line name i o /\ no_byte LF (header_line name i o) = true /\
  exists c s, header_line name i o = String c s /\ ident_byte c = true.
Proof.
  intros Hw. pose proof (ident_chars_bytes _ (hw_name _ _ _ Hw)) as Hb.
  pose proof (valid_type_expr_head o (hw_output _ _ _ Hw) (hw_output_trim _ _ _ Hw)) as Ho.
  pose proof (trim_fixed _ (hw_output_trim _ _ _ Hw)) as [_ Hl].
  assert (exists c s, name = String c s /\ ident_byte c = true) as (c & s & -> & Hc).
  { destruct name; [by destruct Hw|]. simpl in Hb. apply andb_true_iff in Hb as [? _]. eauto. }
  unfold header_line. split_and!.
  - apply trim_id.
    + intros g. destruct (chars_cons c (s ++ ": " ++ i ++ " -> " ++ o)) as (g' & gs & E).
      change (String c s ++ (": " ++ i ++ " -> " ++ o))
        with (String c (s ++ ": " ++ i ++ " -> " ++ o)). rewrite E. intros [= <-]. by apply plain_not_space, ident_byte_plain.
    + rewrite <- !str_app_assoc. apply tight_last_app; [|done|done].
      by apply valid_nonempty, (hw_output _ _ _ Hw).
  - rewrite !no_byte_app, (hw_input_line _ _ _ Hw), (hw_output_line _ _ _ Hw).
    rewrite (proj2 (andb_true_iff _ _)); [done|]. split; [|done].
    eapply all_bytes_impl, Hb. intros d. by apply ident_byte_no.
  - by eexists _, _.
Qed.

(** The printed header is read back. *)
Lemma header_line_parses name i o errs :
  header_wf name i o ->
  header_of (mkLoomAst None "" "" [] errs) (header_line name i o) = Some (name, i, o).
Proof.
  intros Hw. unfold header_of, header_line. simpl lo_name. simpl lo_nodes.
  rewrite !bool_decide_true by done. cbn [andb].
  pose proof (ident_chars_bytes _ (hw_name _ _ _ Hw)) as Hb.
  change (name ++ ": " ++ i ++ " -> " ++ o) with (name ++ String ":" (" " ++ i ++ " -> " ++ o)).
  rewrite split_once_byte by (eapply all_bytes_impl, Hb; intros d; by apply ident_byte_no).
  replace (" " ++ i ++ " -> " ++ o) with ((" " ++ i ++ " ") ++ "->" ++ (" " ++ o))
    by (by rewrite !str_app_assoc).
  pose proof (valid_type_expr_head i (hw_input _ _ _ Hw) (hw_input_trim _ _ _ Hw)) as Hi.
  pose proof (valid_type_expr_head o (hw_output _ _ _ Hw) (hw_output_trim _ _ _ Hw)) as Ho.
  rewrite split_once_arrow.
  - assert (trim name = name) as ->.
    { destruct (clean_tight name) as [Hh Hl]; [|by apply trim_id]. apply plain_clean.
      - by destruct name; [destruct Hw|].
      - eapply all_bytes_impl, Hb. apply ident_byte_plain. }
    rewrite (hw_name _ _ _ Hw). rewrite !trim_space_l, trim_space_r; [|done| ].
    + by rewrite (hw_input_trim _ _ _ Hw), (hw_output_trim _ _ _ Hw).
    + rewrite starts_continuation_app; [done|]. apply valid_nonempty, Hw.
  - rewrite <- str_app_assoc. apply arrow_before_space.
    rewrite contains_false. simpl. rewrite (proj1 (contains_false _ _) (hw_input_arrow _ _ _ Hw)). done.
Qed.

Lemma apply_header_ok name i o a :
  header_wf name i o -> apply_header name i o a = with_header name i o a.
Proof.
  intros Hw. unfold apply_header. rewrite (proj2 (N.ltb_ge _ _)) by apply Hw.
  by rewrite (hw_output_arrow _ _ _ Hw), (hw_input _ _ _ Hw), (hw_output _ _ _ Hw).
Qed.

(** ** The invariant of parsing *)

Definition ast_wf (a : LoomAst) : Prop :=
  Forall node_wf (lo_nodes a) /\
  match lo_name a with
  | Some name => header_wf name (lo_in_type a) (lo_out_type a)
  | None => lo_in_type a = "" /\ lo_out_type a = ""
  end.

Lemma push_error_some e a : lo_errors (push_error e a) <> [].
Proof. simpl. by destruct (lo_errors a). Qed.

Lemma header_of_wf a line name i o :
  no_byte LF line = true -> header_of a line = Some (name, i, o) ->
  lo_errors (apply_header name i o a) = [] -> header_wf name i o.
Proof.
  intros Hlf Hh He. unfold header_of in Hh. case_match; [|done].
  destruct (split_once ":" line) as [[head io]|] eqn:E1; [|done].
  destruct (split_once "->" io) as [[input output]|] eqn:E2; [|done].
  destruct (is_ident_chars (trim head)) eqn:Hid; [|done]. injection Hh as <- <- <-.
  pose proof (split_once_first "->" _ _ _ ltac:(done) E2) as Harrow.
  apply split_once_some in E1, E2. subst line io. rewrite !no_byte_app in Hlf. guards.
  unfold apply_header in He. destruct (64 <? len (trim head))%N eqn:Hlen.
  { exfalso. destruct (contains "->" (trim output)); [|destruct (_ || _)];
      by apply push_error_some in He. }
  destruct (contains "->" (trim output)) eqn:Hout; [by apply push_error_some in He|].
  destruct (valid_type_expr (trim input)) eqn:Hvi; [|by apply push_error_some in He].
  destruct (valid_type_expr (trim output)) eqn:Hvo; [|by apply push_error_some in He].
  split; try done; try apply trim_trim; try by apply no_byte_trim.
  - by apply N.ltb_ge.
  - by apply contains_trim.
Qed.

(** Errors only accumulate. *)
Lemma parse_line_errors a raw : lo_errors (parse_line a raw) = [] -> lo_errors a = [].
Proof.
  unfold parse_line. case_match; [done|]. destruct (header_of a (trim raw)) as [[[h i] o]|].
  - unfold apply_header. intros He. destruct (64 <? len h)%N.
    { exfalso. destruct (contains "->" o);
        [|destruct (negb (valid_type_expr i) || negb (valid_type_expr o))]; by apply push_error_some in He. }
    destruct (contains "->" o); [by apply push_error_some in He|].
    destruct (negb (valid_type_expr i) || negb (valid_type_expr o)); [by apply push_error_some in He|done].
  - destruct (parse_node_line _); [done|]. by intros ?%push_error_some.
Qed.

Lemma parse_line_wf a raw :
  no_byte LF raw = true -> lo_errors (parse_line a raw) = [] -> ast_wf a -> ast_wf (parse_line a raw).
Proof.
  intros Hraw%no_byte_trim. unfold parse_line. case_match; [done|].
  destruct (header_of a (trim raw)) as [[[h i] o]|] eqn:Hh.
  - intros He [Hn _]. pose proof (header_of_wf _ _ _ _ _ Hraw Hh He) as Hw.
    rewrite apply_header_ok by done. by split.
  - destruct (parse_node_line (trim raw)) as [n|e] eqn:Hp; [|by intros ?%push_error_some].
    intros _ [Hn Hm]. split; [|done]. simpl. apply Forall_app. split; [done|].
    apply Forall_singleton. by eapply parse_node_line_wf.
Qed.

Lemma parse_lines_wf l a :
  Forall (fun s => no_byte LF s = true) l -> lo_errors (foldl parse_line a l) = [] ->
  (lo_errors a = [] -> ast_wf a) -> ast_wf (foldl parse_line a l) /\ lo_errors a = [].
Proof.
  intros Hl. revert a. induction Hl as [|raw l Hraw Hl IH]; intros a He Ha; simpl in *; [auto|].
  destruct (IH _ He) as [Hw Ha'].
  - intros Hp. apply parse_line_wf; [done|done|]. apply Ha. by eapply parse_line_errors.
  - split; [done|]. by eapply parse_line_errors.
Qed.

(** A source that parses without errors gives a well-formed AST with a header,
    at least one node, and no ordering error. *)
Lemma parse_pipe_wf source :
  lo_errors (parse_pipe source) = [] ->
  let ast := parse_pipe source in
  ast_wf ast /\ (exists name, lo_name ast = Some name) /\ lo_nodes ast <> [] /\
  concat (imap (order_errors (lo_nodes ast)) (lo_nodes ast)) = [].
Proof.
  unfold parse_pipe. destruct (LOOM_SOURCE_MAX_BYTES <? len source)%N; [by intros ?%push_error_some|].
  set (a0 := foldl parse_line _ _). simpl.
  destruct (lo_name a0) as [name|] eqn:Hname.
  2:{ destruct (lo_nodes (push_error _ a0)); intros [He _]%app_nil; by apply push_error_some in He. }
  destruct (lo_nodes a0) as [|n l] eqn:Hnodes; intros [He Ho]%app_nil;
    [by apply push_error_some in He|].
  assert (ast_wf a0) as Hw.
  { apply parse_lines_wf; [apply lines_no_lf|done|]. intros _. split; [constructor|done]. }
  rewrite He, Ho, Hname, Hnodes. simpl. split; [|by eauto].
  destruct Hw as [Hw1 Hw2]. rewrite Hnodes in Hw1. rewrite Hname in Hw2. by split.
Qed.

(** ** Printing and parsing again *)

Lemma ident_line_start c s : ident_byte c = true ->
  is_empty (String c s) || starts_with "#" (String c s) = false.
Proof.
  intros Hc. cbn [is_empty orb]. unfold starts_with. apply bool_decide_eq_false.
  intros [r Hr%strip_prefix_some]. injection Hr as -> _. done.
Qed.

Lemma parse_node_printed a n name :
  node_wf n -> lo_name a = Some name -> parse_line a (rebuild_node n) = push_node n a.
Proof.
  intros Hw Hname. destruct (rebuild_node_line n Hw) as (Ht & _ & c & s & E & Hc).
  unfold parse_line. rewrite Ht. rewrite E at 1 2. rewrite ident_line_start by done.
  unfold header_of. rewrite Hname. simpl. by rewrite rebuild_node_parses.
Qed.

Lemma parse_nodes_printed ns a name :
  Forall node_wf ns -> lo_name a = Some name ->
  foldl parse_line a (map rebuild_node ns) =
  mkLoomAst (lo_name a) (lo_in_type a) (lo_out_type a) (lo_nodes a ++ ns) (lo_errors a).
Proof.
  intros Hw. revert a. induction Hw as [|n ns Hn Hns IH]; intros a Ha; simpl.
  { rewrite app_nil_r. by destruct a. }
  rewrite (parse_node_printed a n name) by done. rewrite IH by done. simpl. by rewrite <- app_assoc.
Qed.

Lemma parse_header_printed name i o :
  header_wf name i o ->
  parse_line (mkLoomAst None "" "" [] []) (header_line name i o) = mkLoomAst (Some name) i o [] [].
Proof.
  intros Hw. destruct (header_line_ok name i o Hw) as (Ht & _ & c & s & E & Hc).
  unfold parse_line. rewrite Ht. rewrite E at 1 2. rewrite ident_line_start by done.
  by rewrite header_line_parses, apply_header_ok.
Qed.

Lemma rebuild_lines ast name :
  ast_wf ast -> lo_name ast = Some name ->
  lines (rebuild_source ast) =
  header_line name (lo_in_type ast) (lo_out_type ast) :: map rebuild_node (lo_nodes ast).
Proof.
  intros [Hn Hh] Hname. rewrite Hname in Hh. unfold rebuild_source. rewrite Hname. simpl default.
  replace (name ++ _) with (header_line name (lo_in_type ast) (lo_out_type ast) ++
      concat_str (map (String LF) (map rebuild_node (lo_nodes ast))))
    by (unfold header_line; by rewrite map_map, !str_app_assoc).
  assert (Forall (fun s => (no_byte LF s = true /\ strip_cr s = s) /\ s <> "")
            (header_line name (lo_in_type ast) (lo_out_type ast) :: map rebuild_node (lo_nodes ast)))
    as Hall.
  { constructor.
    - destruct (header_line_ok _ _ _ Hh) as (Ht & Hl & c & s & E & _). apply trim_fixed in Ht as [_ Ht].
      split; [split; [done|by apply tight_last_cr]|by rewrite E].
    - apply Forall_map. eapply Forall_impl; [exact Hn|]. intros n Hw.
      destruct (rebuild_node_line n Hw) as (Ht & Hl & c & s & E & _). apply trim_fixed in Ht as [_ Ht].
      split; [split; [done|by apply tight_last_cr]|by rewrite E]. }
  apply lines_joined.
  - eapply Forall_impl; [exact Hall|]. by intros s [? _].
  - intros Hl%last_Some_elem_of. rewrite Forall_forall in Hall. by destruct (Hall _ Hl).
Qed.

Lemma parse_rebuilt ast name :
  ast_wf ast -> lo_name ast = Some name -> lo_nodes ast <> [] -> lo_errors ast = [] ->
  concat (imap (order_errors (lo_nodes ast)) (lo_nodes ast)) = [] ->
  (len (rebuild_source ast) <= LOOM_SOURCE_MAX_BYTES)%N -> parse_pipe (rebuild_source ast) = ast.
Proof.
  intros Hw Hname Hne He Ho Hlen. unfold parse_pipe. rewrite (proj2 (N.ltb_ge _ _)) by done.
  rewrite (rebuild_lines ast name) by done. cbn [foldl]. destruct Hw as [Hn Hh]. rewrite Hname in Hh.
  rewrite parse_header_printed by done.
  rewrite (parse_nodes_printed _ _ name) by done. destruct ast as [nm i o ns es].
  cbn [lo_name lo_in_type lo_out_type lo_nodes lo_errors] in *. subst nm es.
  destruct ns as [|n ns]; [done|].
  cbn [lo_name lo_in_type lo_out_type lo_nodes lo_errors app]. by rewrite Ho.
Qed.

(** C31: canonical source round trip.  For every source that parses without
    errors, the canonical form a workflow record stores parses to the very same
    AST, provided it is within the size the parser accepts. *)
Theorem canonical_source_round_trip source :
  lo_errors (parse_pipe source) = [] ->
  (len (rebuild_source (parse_pipe source)) <= LOOM_SOURCE_MAX_BYTES)%N ->
  parse_pipe (rebuild_source (parse_pipe source)) = parse_pipe source.
Proof.
  intros He Hlen. destruct (parse_pipe_wf source He) as (Hw & [name Hname] & Hne & Ho).
  by eapply parse_rebuilt.
Qed.

Module Canonical.
(** Any hash will do: the digest of the record plays no part here. *)
#[export] Instance flat_blake3 : Blake3 := fun _ => concat_str (replicate 64 "0").

Definition newline : string := String LF "".

(** Untidy but correct source: comments, stray spaces, an ASCII back arrow. *)
Definition untidy : string :=
  "# a comment" ++ newline ++ "  flow :  Task->Report + Log " ++ newline ++ newline ++
  "plan  @planner  " ++ quote ++ "draft a  plan" ++ quote ++ newline ++
  "code :all-of-03 <-plan ^plan" ++ newline ++ "  ship :human" ++ newline.

(** A chain of eighty nodes with long tasks; the last four have an ASCII back
    arrow. *)
Definition long_line (k : nat) : string :=
  let task n := quote ++ concat_str (replicate n "t") ++ quote in
  newline ++ "n" ++ pretty k ++ " " ++ (if (k <=? 76)%nat then task 197 else task 193 ++ " ^n0").

Definition long_source : string :=
  concat_str (replicate 59 "w") ++ ": A -> A" ++ newline ++ "n0" ++
  concat_str (map long_line (seq 1 80)).

(** The source a registered record keeps. *)
Definition stored_source (source : string) : option string :=
  match compile_pipe (fun _ => None) (parse_pipe source) with
  | Ok w => Some (lw_source w)
  | Err _ => None
  end.
End Canonical.

Section CanonicalWitnesses.
Import Canonical.

Lemma canonical_source_round_trip_witness :
  lo_errors (parse_pipe untidy) = [] /\ length (lo_nodes (parse_pipe untidy)) = 3 /\
  rebuild_source (parse_pipe untidy) <> untidy /\
  parse_pipe (rebuild_source (parse_pipe untidy)) = parse_pipe untidy.
Proof.
  split; [vm_compute; reflexivity|]. split; [vm_compute; reflexivity|].
  split; [vm_compute; discriminate|].
  apply (canonical_source_round_trip untidy); [vm_compute; reflexivity|].
  apply N.leb_le. vm_compute. reflexivity.
Defined.

(** a record can be stored whose source no longer parses.  The source below
    is within the parser's bound and compiles; printing spells each [^] with the
    three bytes of the arrow, and the canonical source exceeds the bound, so
    parsing it again yields an error and no node. *)
Theorem canonical_source_can_outgrow_parser :
  (len long_source <= LOOM_SOURCE_MAX_BYTES)%N /\
  parse_pipe <$> stored_source long_source =
    Some (mkLoomAst None "" "" [] ["pipe source exceeds 16384 bytes"]).
Proof. split; [apply N.leb_le; vm_compute; reflexivity|vm_compute; reflexivity]. Qed.
End CanonicalWitnesses.
