(* ===== verification/FromLoom.v ===== *)
(** * Materializing a compiled workflow (haider-protocol/src/graph.rs)

    [workflow_activation_ast_from_loom] turns the record the Loom compiler
    produced into the activation AST the engine runs. *)

From S2P Require Import Prelude RustStr Digest GraphTypes TypeExpr GraphTemplate.
From S2P Require Import Activation Loom.

Local Open Scope string_scope.

(** The locals of the first loop. *)
Record BuildState := mkBuild {
  bs_next_edge_id : N;
  bs_edges : list WorkflowActivationEdge;
  bs_nodes : list WorkflowActivationNode;
  bs_output_types : gmap GraphNodeName string
}.

Definition invalid_workflow_ast (message : string) : WorkflowGraphReductionError :=
  InvalidAst message.

(** The typed edges into a node, before they have ids. *)
Fixpoint dependency_inputs (output_types : gmap GraphNodeName string)
    (dependencies : list GraphNodeName) : ast_result (list (option GraphNodeName * string)) :=
  match dependencies with
  | [] => Ok []
  | dependency :: dependencies =>
      (let? evidence_type := ok_or (output_types !! dependency)
           (invalid_workflow_ast "compiled workflow dependency is not in topological order") in
       let? rest := dependency_inputs output_types dependencies in
       Ok ((Some dependency, evidence_type) :: rest))%res
  end.

Definition node_incoming (in_type : string) (output_types : gmap GraphNodeName string)
    (spec : GraphNodeSpec) : ast_result (list (option GraphNodeName * string)) :=
  match spec_depends_on spec with
  | [] => Ok [(None, in_type)]
  | dependencies => dependency_inputs output_types dependencies
  end.

Definition next_id (id : N) : ast_result N :=
  ok_or (checked_add_u32 id 1) (invalid_workflow_ast "workflow edge id space is exhausted").

(** Numbers the incoming edges of one node: the next id, and the edges. *)
Fixpoint number_edges (to : GraphNodeName) (id : N) (incoming : list (option GraphNodeName * string))
    : ast_result (N * list WorkflowActivationEdge) :=
  match incoming with
  | [] => Ok (id, [])
  | (from, evidence_type) :: incoming =>
      (let? next := next_id id in
       let? rest := number_edges to next incoming in
       Ok (rest.1, mkEdge id (match from with Some _ => Forward | None => GraphInput end)
                     from to evidence_type :: rest.2))%res
  end.

(** Human decisions and terminal nodes carry a convergence stamp. *)
Definition convergence_of (specs : list GraphNodeSpec) (spec : GraphNodeSpec) : bool :=
  is_human_gate (spec_gate spec)
  || negb (existsb (fun candidate => bool_decide (spec_name spec ∈ spec_depends_on candidate)) specs).

(** One iteration of the loop over the template's nodes. *)
Definition build_node_step (workflow : LoomWorkflow) (st : BuildState) (spec : GraphNodeSpec)
    : ast_result BuildState :=
  (let? meta := ok_or (find (fun meta => bool_decide (lm_node meta = spec_name spec))
                         (lw_meta workflow))
       (invalid_workflow_ast "compiled workflow node metadata is missing") in
   let? incoming := node_incoming (lw_in_type workflow) (bs_output_types st) spec in
   let carried := merge_workflow_types (map snd incoming) in
   let input_type := default carried (lm_in_type meta) in
   let output_type := default carried (lm_out_type meta) in
   let? numbered := number_edges (spec_name spec) (bs_next_edge_id st) incoming in
   let node := mkActivationNode (spec_name spec) input_type output_type
     (mkJoin (map edge_id numbered.2) [])
     (convergence_of (tpl_nodes (lw_template workflow)) spec) in
   Ok (mkBuild numbered.1 (bs_edges st ++ numbered.2) (bs_nodes st ++ [node])
         (<[spec_name spec := output_type]> (bs_output_types st))))%res.

Fixpoint build_nodes (workflow : LoomWorkflow) (st : BuildState) (specs : list GraphNodeSpec)
    : ast_result BuildState :=
  match specs with
  | [] => Ok st
  | spec :: specs =>
      (let? st := build_node_step workflow st spec in build_nodes workflow st specs)%res
  end.

Definition push_reactivate (id : N) (node : WorkflowActivationNode) : WorkflowActivationNode :=
  mkActivationNode (wan_node node) (wan_input_type node) (wan_output_type node)
    (mkJoin (initial_all (wan_join node)) (reactivate_any (wan_join node) ++ [id]))
    (wan_convergence_gate node).

(** One iteration of the loop over the non-human nodes: a back edge. *)
Definition back_edge_step (start : GraphNodeName) (st : BuildState) (spec : GraphNodeSpec)
    : ast_result BuildState :=
  let target := default start (spec_red_target spec) in
  (let? target_index := ok_or (position (fun node => bool_decide (wan_node node = target))
                                 (bs_nodes st))
       (invalid_workflow_ast "workflow back edge has no target node") in
   let evidence_type := match bs_nodes st !! target_index with
                        | Some node => wan_input_type node
                        | None => ""
                        end in
   let id := bs_next_edge_id st in
   let? next := next_id id in
   Ok (mkBuild next (bs_edges st ++ [mkEdge id Back (Some (spec_name spec)) target evidence_type])
         (alter (push_reactivate id) target_index (bs_nodes st)) (bs_output_types st)))%res.

Fixpoint build_back_edges (start : GraphNodeName) (st : BuildState) (specs : list GraphNodeSpec)
    : ast_result BuildState :=
  match specs with
  | [] => Ok st
  | spec :: specs =>
      (let? st := back_edge_step start st spec in build_back_edges start st specs)%res
  end.

Definition workflow_activation_ast_from_loom (workflow : LoomWorkflow)
    : ast_result WorkflowActivationAst :=
  let specs := tpl_nodes (lw_template workflow) in
  (reject_if (negb (length specs =? length (lw_meta workflow))%nat)
     (invalid_workflow_ast "compiled workflow metadata does not cover every template node") ?;
   let? start := ok_or (tpl_start_node (lw_template workflow))
       (invalid_workflow_ast "compiled workflow has no activation start node") in
   let? st := build_nodes workflow (mkBuild 1 [] [] ∅) specs in
   let? st := build_back_edges start st
                (filterb (fun spec => negb (is_human_gate (spec_gate spec))) specs) in
   let ast := mkActivationAst (lw_id workflow) (lw_digest workflow) (lw_in_type workflow)
     (lw_out_type workflow) (bs_nodes st) (bs_edges st) GRAPH_MAX_CONDITIONAL_HOPS in
   validate_workflow_activation_ast ast ?;
   Ok ast)%res.
