(* ===== verification/LoomProps.v ===== *)
(** * What a compiled pipe guarantees

    The compiler reports every parse error, and what it accepts is a valid
    template whose dependencies follow declaration order and whose artifact
    types satisfy the typed-edge law; the record can still be refused when it
    is materialized for the activation engine. *)

From S2P Require Import Prelude RustStr Digest Worklist GraphTypes TypeExpr Evidence.
From S2P Require Import GraphTemplate TemplateOrder TemplateProps Activation Fixtures Loom FromLoom.

Local Open Scope string_scope.

Section Compiler.
Context `{Blake3} (lookup_type : string -> option LoomTypeSig).

(** ** One step of the compiler *)

Lemma resolve_dependencies_spec src name authored res errs res' errs' :
  resolve_dependencies src name authored res errs = (res', errs') ->
  (exists more, errs' = (errs ++ more)%list) /\
  (forall x, x ∈ res' -> x ∈ res \/ exists k, src !! k = Some x).
Proof.
  revert res errs. induction authored as [|d l IH]; intros res errs; simpl.
  - intros [= -> ->]. split; [exists []; by rewrite app_nil_r|auto].
  - destruct (src !! d) as [x|] eqn:Hd; [case_bool_decide|]; intros [[more ->] Hin]%IH.
    + split; [|done]. eexists. by rewrite <- app_assoc.
    + split; [eauto|]. intros y [Hy|Hy]%Hin; [|auto].
      apply elem_of_app in Hy as [?|Hy]; [auto|]. apply list_elem_of_singleton in Hy as ->. eauto.
    + split; [|done]. eexists. by rewrite <- app_assoc.
Qed.

(** What arrives over some dependencies is a merge: there are several, or one
    of them passes a merge on. *)
Definition merges (merged : gset GraphNodeName) (dependencies : list GraphNodeName) : Prop :=
  1 < length dependencies \/ exists d, d ∈ dependencies /\ d ∈ merged.

(** The typed-edge law: a merge must carry exactly the operands expected; an
    unmerged edge carries the expected expression, or one operand of it. *)
Definition edge_law (merge : Prop) (expected carried : string) : Prop :=
  (merge -> forall operand, operand ∈ operands expected <-> operand ∈ operands carried) /\
  (~ merge -> expected = carried \/ carried ∈ trimmed_operands expected).

Lemma merges_iff merged dependencies :
  ((1 <? length dependencies)%nat || existsb (fun d => bool_decide (d ∈ merged)) dependencies) = true
  <-> merges merged dependencies.
Proof.
  unfold merges. rewrite orb_true_iff, Nat.ltb_lt, existsb_exists.
  setoid_rewrite <- list_elem_of_In. by setoid_rewrite bool_decide_eq_true.
Qed.

Lemma elem_of_insert_sorted x y l : x ∈ insert_sorted y l <-> x = y \/ x ∈ l.
Proof.
  induction l as [|z l IH]; cbn; [set_solver|]. destruct (_ : bool); [set_solver|].
  rewrite !elem_of_cons, IH. tauto.
Qed.
Lemma elem_of_sort x l : x ∈ sort_strings l <-> x ∈ l.
Proof. induction l as [|y l IH]; cbn; [done|]. rewrite elem_of_insert_sorted, IH, elem_of_cons. done. Qed.
Lemma elem_of_dedup x l : x ∈ dedup l <-> x ∈ l.
Proof.
  induction l as [|y l IH]; cbn; [done|]. rewrite elem_of_cons, <- IH.
  destruct (dedup l) as [|z r]; [set_solver|]. destruct (String.eqb_spec y z); set_solver.
Qed.

Lemma edge_accepted_law merge (P : Prop) expected carried :
  (merge = true <-> P) -> edge_accepted merge expected carried = true -> edge_law P expected carried.
Proof.
  unfold edge_accepted, edge_law, same_type_operands, accepts. intros Hm. destruct merge.
  - intros E%bool_decide_eq_true. split; [intros _ o|by intros []; apply Hm].
    rewrite <- (elem_of_sort o (operands expected)), <- elem_of_dedup.
    fold (normalized_type_operands expected). rewrite E. unfold normalized_type_operands.
    by rewrite elem_of_dedup, elem_of_sort.
  - intros Ha. split; [by intros ?%Hm|intros _].
    apply orb_true_iff in Ha as [?%bool_decide_eq_true|Ha]; [by left|right].
    apply existsb_exists in Ha as (o & Ho & ->%bool_decide_eq_true). by apply list_elem_of_In.
Qed.

(** The law the loop enforces at one node: its signature is the registered one,
    its output is recorded, it passes a merge on exactly when it is a control
    node at which one arrives, and a specialist accepts what arrives. *)
Definition node_law (in_type : string) (outputs : gmap GraphNodeName string)
    (merged : gset GraphNodeName) (spec : GraphNodeSpec) (meta : LoomNodeMeta) : Prop :=
  let carried := merge_type_exprs (incoming_types in_type outputs (spec_depends_on spec)) in
  outputs !! spec_name spec = Some (default carried (lm_out_type meta)) /\
  match lm_agent_type meta with
  | Some atype => exists sg, lookup_type atype = Some sg /\
      lm_in_type meta = Some (sig_in_type sg) /\ lm_out_type meta = Some (sig_out_type sg)
  | None => lm_in_type meta = None /\ lm_out_type meta = None
  end /\
  (spec_name spec ∈ merged <-> lm_agent_type meta = None /\ merges merged (spec_depends_on spec)) /\
  forall t, lm_in_type meta = Some t ->
    carried = "" \/ edge_law (merges merged (spec_depends_on spec)) t carried.

(** What the loop knows about the nodes it has emitted. *)
Record compile_inv (in_type : string) (st : CompileState) : Prop := {
  ci_meta : map lm_node (cs_meta st) = map spec_name (cs_specs st);
  ci_previous : cs_previous st = spec_name <$> last (cs_specs st);
  ci_source : forall k x, cs_source_nodes st !! k = Some x -> x ∈ map spec_name (cs_specs st);
  ci_deps : forall i spec d, cs_specs st !! i = Some spec -> d ∈ spec_depends_on spec ->
    exists j spec', j < i /\ cs_specs st !! j = Some spec' /\ spec_name spec' = d;
  ci_merged : forall x, x ∈ cs_merged_outputs st -> x ∈ map spec_name (cs_specs st);
  ci_law : cs_errors st = [] -> NoDup (map spec_name (cs_specs st)) ->
    forall i spec meta, cs_specs st !! i = Some spec -> cs_meta st !! i = Some meta ->
    node_law in_type (cs_node_outputs st) (cs_merged_outputs st) spec meta
}.

(** The effect of emitting one node. *)
Definition emitted (in_type : string) (st st' : CompileState) (node : LoomNodeAst) : Prop :=
  exists spec meta, let carried := merge_type_exprs
      (incoming_types in_type (cs_node_outputs st) (spec_depends_on spec)) in
    cs_specs st' = (cs_specs st ++ [spec])%list /\ cs_meta st' = (cs_meta st ++ [meta])%list /\
    cs_previous st' = Some (spec_name spec) /\
    cs_source_nodes st' = <[ln_name node := spec_name spec]> (cs_source_nodes st) /\
    lm_node meta = spec_name spec /\
    (forall d, d ∈ spec_depends_on spec -> d ∈ map spec_name (cs_specs st)) /\
    cs_node_outputs st' =
      <[spec_name spec := default carried (lm_out_type meta)]> (cs_node_outputs st) /\
    (cs_merged_outputs st' = cs_merged_outputs st \/
     cs_merged_outputs st' = {[spec_name spec]} ∪ cs_merged_outputs st) /\
    (cs_errors st' = [] ->
       node_law in_type (<[spec_name spec := default carried (lm_out_type meta)]>
                           (cs_node_outputs st)) (cs_merged_outputs st') spec meta \/
       spec_name spec ∈ map spec_name (cs_specs st)).

Lemma incoming_types_insert in_type outputs x t deps :
  x ∉ deps -> incoming_types in_type (<[x := t]> outputs) deps = incoming_types in_type outputs deps.
Proof.
  intros Hx. destruct deps as [|d l]; [done|]. unfold incoming_types.
  induction (d :: l) as [|d' l' IH]; [done|]. cbn [filter_map].
  rewrite lookup_insert_ne by set_solver. rewrite IH by set_solver. done.
Qed.

Lemma signature_of_ok node :
  (signature_of lookup_type node).2 = [] ->
  match ln_agent_type node with
  | Some atype => exists sg, lookup_type atype = Some sg /\
      (signature_of lookup_type node).1 = Some sg
  | None => (signature_of lookup_type node).1 = None
  end.
Proof.
  unfold signature_of. destruct (ln_agent_type node) as [a|]; [|done].
  destruct (lookup_type a); simpl; [eauto|done].
Qed.

Lemma type_errors_nil node sg merge carried :
  type_errors node (Some sg) merge carried = [] ->
  carried = "" \/ edge_accepted merge (sig_in_type sg) carried = true.
Proof.
  unfold type_errors. destruct carried as [|c carried]; [auto|].
  simpl negb. destruct (edge_accepted _ _ _); [auto|done].
Qed.

Lemma compile_node_step in_type st node :
  compile_inv in_type st ->
  (exists more, cs_errors (compile_node lookup_type in_type st node) = (cs_errors st ++ more)%list) /\
  ((cs_errors (compile_node lookup_type in_type st node) <> [] /\
    compile_inv in_type (compile_node lookup_type in_type st node)) \/
   emitted in_type st (compile_node lookup_type in_type st node) node).
Proof.
  intros Hi. unfold compile_node. destruct (graph_node_name_new _) as [cg|error] eqn:Hcg.
  2:{ split; [by eexists|]. left.
      assert ((cs_errors st ++ [("node " ++ ln_name node ++ ": " ++ error)%string])%list <> [])
        by (by destruct (cs_errors st)).
      split; [done|]. destruct Hi. by split. }
  destruct (match ln_depends_on node with Some _ => _ | None => _ end) as [deps errs] eqn:Hdeps.
  assert ((exists more, errs = (cs_errors st ++ more)%list) /\
    forall x, x ∈ deps -> x ∈ map spec_name (cs_specs st)) as [[more ->] Hin].
  { destruct (ln_depends_on node) as [authored|].
    - apply resolve_dependencies_spec in Hdeps as [Hm Hin]. split; [done|].
      intros x [Hx|[k Hk]]%Hin; [set_solver|]. by eapply ci_source.
    - injection Hdeps as <- <-. split; [exists []; by rewrite app_nil_r|].
      rewrite (ci_previous in_type st Hi). intros x Hx.
      destruct (last (cs_specs st)) as [s|] eqn:E; simpl in Hx; [|set_solver].
      apply list_elem_of_singleton in Hx as ->. apply list_elem_of_fmap.
      exists s. split; [done|]. by apply last_Some_elem_of. }
  pose proof (signature_of_ok node) as Hsig.
  destruct (signature_of lookup_type node) as [sig lerrs]. simpl in Hsig.
  destruct (back_of node) as [back berrs].
  destruct (gate_of (ln_gate node)) as [[gate ex] att].
  split; [eexists; simpl; by rewrite <- app_assoc|]. right. unfold emitted. simpl.
  eexists (mkGraphNodeSpec cg gate ex att _ deps back []), (mkNodeMeta _ cg _ _ _ _ _ _ back).
  split_and!; try done; simpl; [by destruct sig| |].
  { destruct sig; [by left|]. destruct (_ || _); auto. }
  intros He. rewrite !app_nil in He. destruct He as (_ & Hl & He & _). specialize (Hsig Hl).
  destruct (decide (cg ∈ map spec_name (cs_specs st))) as [|Hfresh]; [by right|left].
  unfold node_law. simpl. rewrite incoming_types_insert by naive_solver.
  split; [by rewrite lookup_insert_eq|]. split.
  { destruct (ln_agent_type node); [|by rewrite Hsig].
    destruct Hsig as (sg & Hsg & ->). exists sg. done. }
  assert (Hold : cg ∉ cs_merged_outputs st) by (by intros ?%(ci_merged _ _ Hi)).
  assert (Hnew : cg ∉ deps) by naive_solver.
  pose proof (merges_iff (cs_merged_outputs st) deps) as Hm. destruct sig as [sg|].
  - split.
    { destruct (ln_agent_type node); [|done]. split; [done|by intros [? _]]. }
    intros t [= <-]. apply type_errors_nil in He as [He|He]; [by left|right].
    by eapply edge_accepted_law.
  - split; [|done]. assert (Ha : ln_agent_type node = None)
      by (destruct (ln_agent_type node); [by destruct Hsig as (? & ? & ?)|done]).
    rewrite Ha. destruct (_ || _) eqn:E in *.
    + assert (merges ({[cg]} ∪ cs_merged_outputs st) deps).
      { destruct (proj1 Hm eq_refl) as [?|(d & ? & ?)]; [by left|right; exists d; set_solver]. }
      split; [done|set_solver].
    + split; [done|]. intros [_ ?%Hm]. done.
Qed.

Lemma node_law_insert in_type outputs merged merged' x t spec meta :
  x ∉ spec_depends_on spec -> x <> spec_name spec ->
  (merged' = merged \/ merged' = {[x]} ∪ merged) ->
  node_law in_type outputs merged spec meta -> node_law in_type (<[x := t]> outputs) merged' spec meta.
Proof.
  intros Hd Hn Hm. unfold node_law. rewrite incoming_types_insert by done.
  rewrite lookup_insert_ne by done.
  assert (Hms : merges merged' (spec_depends_on spec) <-> merges merged (spec_depends_on spec)).
  { unfold merges. destruct Hm as [->| ->]; [done|]. set_solver. }
  assert (Hin : spec_name spec ∈ merged' <-> spec_name spec ∈ merged) by set_solver.
  rewrite Hin. unfold edge_law. by setoid_rewrite Hms.
Qed.

Lemma lookup_snoc_inv {A} (l : list A) x i y :
  (l ++ [x])%list !! i = Some y -> l !! i = Some y /\ i < length l \/ i = length l /\ y = x.
Proof.
  intros [Hl|[Hlen Hl]]%lookup_app_Some; [left; split; [done|by eapply lookup_lt_Some]|].
  right. apply list_lookup_singleton_Some in Hl as [? ->]. split; [lia|done].
Qed.

Lemma emitted_inv in_type st st' node :
  compile_inv in_type st -> (cs_errors st' = [] -> cs_errors st = []) ->
  emitted in_type st st' node -> compile_inv in_type st'.
Proof.
  intros Hi Herr (spec & meta & Hspecs & Hmeta & Hprev & Hsrc & Hn & Hin & Hout & Hmg & Hlaw).
  pose proof (f_equal length (ci_meta _ _ Hi)) as Hlen. rewrite !length_map in Hlen.
  assert (forall x, x ∈ map spec_name (cs_specs st) ->
            exists j s, j < length (cs_specs st) /\ cs_specs st !! j = Some s /\ spec_name s = x)
    as Hpos.
  { intros x (s & -> & Hs)%list_elem_of_fmap. apply list_elem_of_lookup in Hs as [j Hj].
    exists j, s. eauto using lookup_lt_Some. }
  split.
  - rewrite Hspecs, Hmeta, !map_app, (ci_meta _ _ Hi). simpl. by rewrite Hn.
  - by rewrite Hspecs, Hprev, last_snoc.
  - intros k x. rewrite Hsrc, Hspecs, map_app. intros [[_ <-]|[_ Hx]]%lookup_insert_Some; [set_solver|].
    apply elem_of_app. left. by eapply ci_source.
  - intros i s d. rewrite Hspecs. intros [[Hs Hl]|[-> ->]]%lookup_snoc_inv Hd.
    + destruct (ci_deps _ _ Hi i s d Hs Hd) as (j & s' & ? & Hj & ?). exists j, s'.
      rewrite lookup_app_l by eauto using lookup_lt_Some. done.
    + destruct (Hpos d (Hin d Hd)) as (j & s & ? & Hj & ?). exists j, s. by rewrite lookup_app_l.
  - intros x Hx. rewrite Hspecs, map_app. apply elem_of_app.
    assert (x ∈ cs_merged_outputs st \/ x = spec_name spec) as [?| ->] by set_solver.
    + left. by eapply ci_merged.
    + right. set_solver.
  - intros He Hnd i s m. rewrite Hspecs, map_app in Hnd. apply NoDup_app in Hnd as (Hnd & Hdis & _).
    assert (spec_name spec ∉ map spec_name (cs_specs st)) as Hfresh
      by (intros Hx; apply (Hdis _ Hx); simpl; set_solver).
    rewrite Hspecs, Hmeta, Hout. intros [[Hs Hl]|[-> ->]]%lookup_snoc_inv [[Hm Hl']|[? ->]]%lookup_snoc_inv;
      [|lia|lia|by destruct (Hlaw He)].
    apply (node_law_insert _ _ (cs_merged_outputs st)); [| |done|].
    + intros Hd. destruct (ci_deps _ _ Hi i s _ Hs Hd) as (j & s' & _ & Hj & Hx).
      apply Hfresh. rewrite <- Hx. apply list_elem_of_fmap. eauto using list_elem_of_lookup_2.
    + intros Heq. apply Hfresh. rewrite Heq. apply list_elem_of_fmap. eauto using list_elem_of_lookup_2.
    + apply (ci_law _ _ Hi (Herr He) Hnd i); done.
Qed.

Lemma compile_nodes_inv in_type nodes st :
  compile_inv in_type st ->
  compile_inv in_type (foldl (compile_node lookup_type in_type) st nodes) /\
  exists more, cs_errors (foldl (compile_node lookup_type in_type) st nodes)
                 = (cs_errors st ++ more)%list.
Proof.
  revert st. induction nodes as [|n nodes IH]; intros st Hi; simpl.
  { split; [done|]. exists []. by rewrite app_nil_r. }
  destruct (compile_node_step in_type st n Hi) as [[more Hmore] Hstep].
  assert (compile_inv in_type (compile_node lookup_type in_type st n)) as Hi'.
  { destruct Hstep as [[_ Hc]|He]; [done|]. eapply emitted_inv; [done| |done].
    rewrite Hmore. intros [? _]%app_nil. done. }
  destruct (IH _ Hi') as [Hj [more' Hm]]. split; [done|].
  rewrite Hm, Hmore, <- app_assoc. by eexists.
Qed.

Lemma compile_init_inv in_type errors :
  compile_inv in_type (mkCompile errors [] [] None ∅ ∅ ∅).
Proof. split; simpl; intros; simplify_map_eq; done. Qed.

(** What an accepted compilation went through. *)
Lemma compile_pipe_ok ast w :
  compile_pipe lookup_type ast = Ok w ->
  let st := compile_nodes lookup_type ast in
  cs_errors st = [] /\ output_errors ast st = [] /\ lw_meta w = cs_meta st /\
  lw_in_type w = lo_in_type ast /\ lw_out_type w = lo_out_type ast /\
  lw_template w = mkGraphTemplateSpec (default "" (lo_name ast)) GRAPH_TEMPLATE_VERSION
    (spec_name <$> head (cs_specs st)) (cs_specs st) /\
  validate_graph_template (lw_template w) = Ok tt /\ lo_errors ast = [].
Proof.
  unfold compile_pipe. cbv zeta.
  destruct (compile_nodes_inv (lo_in_type ast) (lo_nodes ast) _
              (compile_init_inv (lo_in_type ast) (lo_errors ast))) as [_ [more Hmore]].
  fold (compile_nodes lookup_type ast) in Hmore. simpl in Hmore.
  set (st := compile_nodes lookup_type ast) in *.
  destruct (decide ((cs_errors st ++ output_errors ast st)%list = [])) as [He|He];
    [rewrite (bool_decide_true _ He)|by rewrite !(bool_decide_false _ He)].
  apply app_nil in He as [He Ho]. rewrite He in Hmore. symmetry in Hmore.
  apply app_nil in Hmore as [Hp _].
  destruct (validate_graph_template _) as [[]|error] eqn:Hv; [|done].
  rewrite bool_decide_true by done. intros [= <-]. simpl. done.
Qed.
Lemma compile_nodes_ok ast : compile_inv (lo_in_type ast) (compile_nodes lookup_type ast).
Proof. apply compile_nodes_inv, compile_init_inv. Qed.

(** C27: what the compiler accepts is a valid template in declaration order: the
    metadata names the template's nodes one by one, the start is the first
    node, and every dependency is a node declared earlier. *)
Theorem compiled_template ast w :
  compile_pipe lookup_type ast = Ok w ->
  let nodes := tpl_nodes (lw_template w) in
  template_ok (lw_template w) /\
  map lm_node (lw_meta w) = map spec_name nodes /\
  tpl_start_node (lw_template w) = spec_name <$> head nodes /\
  forall i spec d, nodes !! i = Some spec -> d ∈ spec_depends_on spec ->
    exists j spec', j < i /\ nodes !! j = Some spec' /\ spec_name spec' = d.
Proof.
  intros (_ & _ & Hmeta & _ & _ & Ht & Hv & _)%compile_pipe_ok.
  pose proof (compile_nodes_ok ast) as Hi. rewrite Ht in *. rewrite Hmeta. simpl.
  split_and!; [by apply validate_graph_template_ok|apply Hi|done|apply Hi].
Qed.

(** the compiler loses no parse error: a source with errors is refused, and
    the refusal starts with all of them, in order. *)
Theorem compile_keeps_parse_errors ast :
  lo_errors ast <> [] ->
  exists more, compile_pipe lookup_type ast = Err (lo_errors ast ++ more)%list.
Proof.
  intros Hne. unfold compile_pipe. cbv zeta.
  destruct (compile_nodes_inv (lo_in_type ast) (lo_nodes ast) _
              (compile_init_inv (lo_in_type ast) (lo_errors ast))) as [_ [more Hmore]].
  fold (compile_nodes lookup_type ast) in Hmore. simpl in Hmore. rewrite Hmore.
  assert (((lo_errors ast ++ more) ++ output_errors ast (compile_nodes lookup_type ast))%list <> [])
    as He by (by destruct (lo_errors ast)).
  rewrite !(bool_decide_false _ He), <- app_assoc. by eexists.
Qed.

Lemma filter_map_names (outputs : gmap GraphNodeName string) specs :
  (forall spec, spec ∈ specs -> is_Some (outputs !! spec_name spec)) ->
  filter_map (fun spec => outputs !! spec_name spec) specs
    = filter_map (fun name => outputs !! name) (map spec_name specs) /\
  length (filter_map (fun spec => outputs !! spec_name spec) specs) = length (map spec_name specs).
Proof.
  induction specs as [|spec specs IH]; intros Hs; [done|]. cbn.
  destruct (Hs spec) as [t ->]; [set_solver|]. destruct IH as [E1 E2]; [set_solver|]. cbn. by rewrite E1, <- E1, E2.
Qed.

Lemma existsb_map {A B} (f : A -> B) p l : existsb p (map f l) = existsb (fun x => p (f x)) l.
Proof. induction l as [|x l IH]; [done|]. cbn. by rewrite IH. Qed.

(** C30: the typed-edge law.  An accepted pipe has an assignment of output types
    to its nodes, and a set of nodes that pass a merge on (exactly the control
    nodes with several dependencies, or with one that passes a merge on), such
    that every specialist is registered with the recorded signature, a
    specialist's output is its declared type and a control node's what it
    carries, and every specialist accepts what its dependencies carry, and the
    declared output what the terminal nodes produce: where that is a merge, the
    operands must be the same as a set; over an unmerged edge it must be the
    declared expression, or a single operand of it.  A node at which nothing
    typed arrives and a pipe that declares no output are exempt. *)
Theorem compiled_types ast w :
  compile_pipe lookup_type ast = Ok w ->
  let nodes := tpl_nodes (lw_template w) in
  exists outputs merged,
    (forall i spec meta, nodes !! i = Some spec -> lw_meta w !! i = Some meta ->
       node_law (lw_in_type w) outputs merged spec meta) /\
    (lw_out_type w = "" \/
     let terminal := map spec_name (terminal_specs nodes) in
     edge_law (merges merged terminal) (lw_out_type w)
       (merge_type_exprs (filter_map (fun name => outputs !! name) terminal))).
Proof.
  intros (He & Ho & Hmeta & Hin & Hout & Ht & Hv & _)%compile_pipe_ok.
  pose proof (compile_nodes_ok ast) as Hi. apply validate_graph_template_ok in Hv.
  pose proof (to_names _ Hv) as Hnd. rewrite Ht in *. rewrite Hmeta, Hin, Hout. simpl in *.
  set (st := compile_nodes lookup_type ast) in *.
  exists (cs_node_outputs st), (cs_merged_outputs st). split.
  { apply (ci_law _ _ Hi He Hnd). }
  unfold output_errors in Ho. rewrite bool_decide_true in Ho by done.
  destruct (lo_out_type ast) as [|c out] eqn:Eo; [by left|right]. simpl negb in Ho. simpl andb in Ho.
  pose proof (f_equal length (ci_meta _ _ Hi)) as Hlen. rewrite !length_map in Hlen.
  destruct (filter_map_names (cs_node_outputs st) (terminal_specs (cs_specs st))) as [Hf Hl].
  { intros spec Hs. assert (Hin' : spec ∈ cs_specs st).
    { by apply filterb_elem in Hs as [? _]. }
    apply list_elem_of_lookup in Hin' as [i Hsp].
    destruct (lookup_lt_is_Some_2 (cs_meta st) i) as [meta Hm]; [rewrite Hlen; by eapply lookup_lt_Some|].
    destruct (ci_law _ _ Hi He Hnd i spec meta Hsp Hm) as [-> _]. done. }
  destruct (edge_accepted _ _ _) eqn:Ha; [|done]. rewrite Hf in Ha.
  eapply edge_accepted_law; [|exact Ha]. rewrite <- Hf, Hl, <- merges_iff, existsb_map. done.
Qed.
End Compiler.

(** ** Identity of an agent type *)

Section AgentDigest.
Context `{Blake3}.

(** The fields the digest covers: all but the registry revision. *)
Definition agent_content (t : LoomAgentType) : LoomAgentType :=
  mkAgentType (la_id t) (la_name t) (la_job t) (la_in_type t) (la_out_type t) (la_clis t)
    (la_apis t) (la_denials t) (la_skills t) (la_scripts t) (la_color t) (la_glyph t) 0.

(** Every value fits the address space. *)
Definition agent_fits (t : LoomAgentType) : Prop :=
  Forall fits (agent_type_parts t) /\
  Forall (fun l => N.of_nat (length l) <= u64_max)%N
    [la_clis t; la_apis t; la_skills t; la_scripts t; la_denials t].

Lemma counted_parts_app_inj l l' r r' :
  (N.of_nat (length l) <= u64_max)%N -> (N.of_nat (length l') <= u64_max)%N ->
  (counted_parts l ++ r)%list = (counted_parts l' ++ r')%list -> l = l' /\ r = r'.
Proof.
  intros Hl Hl'. unfold counted_parts. simpl. intros [E Hr]%cons_eq_inj.
  apply rev_str_inj, u64_of_usize_inj in E; [|done..]. by apply app_inj_1.
Qed.

Lemma seven_heads {A} (a b c d e f g a' b' c' d' e' f' g' : A) l l' :
  a :: b :: c :: d :: e :: f :: g :: l = a' :: b' :: c' :: d' :: e' :: f' :: g' :: l' ->
  a = a' /\ b = b' /\ c = c' /\ d = d' /\ e = e' /\ f = f' /\ g = g' /\ l = l'.
Proof. intros [=]. done. Qed.

Lemma agent_type_parts_inj t t' :
  agent_fits t -> agent_fits t' -> agent_type_parts t = agent_type_parts t' ->
  agent_content t = agent_content t'.
Proof.
  unfold agent_fits, agent_type_parts. intros [_ Hf] [_ Hf']. rewrite !Forall_cons in Hf, Hf'.
  destruct Hf as (?&?&?&?&Hd&_), Hf' as (?&?&?&?&Hd'&_).
  cbn [flat_map app]. rewrite !app_nil_r, <- !app_assoc.
  intros (Hid & Hn & Hj & Hin & Hout & Hc & Hg & E)%seven_heads.
  repeat (apply counted_parts_app_inj in E as [? E]; [|done..]).
  assert (la_denials t = la_denials t') as Hden.
  { destruct (la_denials t) as [|d l], (la_denials t') as [|d' l']; try done.
    rewrite <- (app_nil_r (counted_parts (d :: l))), <- (app_nil_r (counted_parts (d' :: l'))) in E.
    by apply counted_parts_app_inj in E as [? _]. }
  unfold agent_content. f_equal; done.
Qed.

(** the digest of an agent type binds its whole content.  Two agent types
    with one digest have equal fields (the registry revision apart), or the
    32-digit prefix of BLAKE3 collides on two different inputs. *)
Theorem agent_type_digest_binds t t' :
  agent_fits t -> agent_fits t' -> agent_type_digest t = agent_type_digest t' ->
  agent_content t = agent_content t' \/
  exists x y, x <> y /\
    String.substring 0 32 (blake3_hex x) = String.substring 0 32 (blake3_hex y).
Proof.
  intros Hf Hf' E. destruct (decide (agent_type_parts t = agent_type_parts t')) as [Hp|Hp].
  { left. by apply agent_type_parts_inj. }
  right. exists (frames_le (agent_type_parts t)), (frames_le (agent_type_parts t')).
  split; [|exact E]. intros Heq%frames_le_inj; [done|apply Hf|apply Hf'].
Qed.
End AgentDigest.

(** ** The shape of a materialized workflow *)

Section Materialized.
(** The edges a template induces, in order: one per dependency, or the graph
    input, then one back edge per node whose gate is not human. *)
Definition endpoints (e : WorkflowActivationEdge) :
    WorkflowEdgeKind * option GraphNodeName * GraphNodeName :=
  (edge_kind e, edge_from e, edge_to e).

Definition spec_edges (spec : GraphNodeSpec) :
    list (WorkflowEdgeKind * option GraphNodeName * GraphNodeName) :=
  match spec_depends_on spec with
  | [] => [(GraphInput, None, spec_name spec)]
  | deps => map (fun d => (Forward, Some d, spec_name spec)) deps
  end.

Definition back_edge (start : GraphNodeName) (spec : GraphNodeSpec) :
    WorkflowEdgeKind * option GraphNodeName * GraphNodeName :=
  (Back, Some (spec_name spec), default start (spec_red_target spec)).

(** Ids are consecutive from 1, and the counter is the next one. *)
Definition numbered (st : BuildState) : Prop :=
  bs_next_edge_id st = (1 + N.of_nat (length (bs_edges st)))%N /\
  forall i e, bs_edges st !! i = Some e -> edge_id e = (1 + N.of_nat i)%N.

Lemma number_edges_ok to id incoming next edges :
  number_edges to id incoming = Ok (next, edges) ->
  next = (id + N.of_nat (length edges))%N /\
  (forall i e, edges !! i = Some e -> edge_id e = (id + N.of_nat i)%N) /\
  map endpoints edges =
    map (fun p => (match p.1 with Some _ => Forward | None => GraphInput end, p.1, to)) incoming.
Proof.
  revert id next edges. induction incoming as [|[from t] l IH]; intros id next edges; simpl.
  { intros [= <- <-]. split_and!; [simpl; lia|intros i e He; by rewrite lookup_nil in He|done]. }
  intros (id' & Hid & ([next' edges'] & Hr & [= <- <-])%result_bind_ok)%result_bind_ok.
  apply ok_or_ok, checked_add_u32_some in Hid as [-> _]. apply IH in Hr as (-> & Hids & Hends).
  simpl. split_and!; [lia| |by rewrite Hends].
  intros [|i] e; simpl; [intros [= <-]; simpl; lia|]. intros ->%Hids. lia.
Qed.

Lemma node_incoming_ok in_type outputs spec incoming :
  node_incoming in_type outputs spec = Ok incoming ->
  map (fun p => (match p.1 with Some _ => Forward | None => GraphInput end, p.1, spec_name spec))
    incoming = spec_edges spec.
Proof.
  unfold node_incoming, spec_edges. destruct (spec_depends_on spec) as [|d l]; [by intros [= <-]|].
  revert incoming. induction (d :: l) as [|x l' IH]; intros incoming; simpl; [by intros [= <-]|].
  intros Hn. res_invert. simplify_eq. simpl. f_equal. by apply IH.
Qed.

Lemma numbered_app st edges next nodes outputs :
  numbered st -> next = (bs_next_edge_id st + N.of_nat (length edges))%N ->
  (forall i e, edges !! i = Some e -> edge_id e = (bs_next_edge_id st + N.of_nat i)%N) ->
  numbered (mkBuild next (bs_edges st ++ edges) nodes outputs).
Proof.
  intros [Hn Hi] -> He. split; simpl; [rewrite length_app; lia|].
  intros i e [Hl|[Hle Hl]]%lookup_app_Some; [by apply Hi|]. apply He in Hl. lia.
Qed.

Lemma build_nodes_ok w specs st st' :
  build_nodes w st specs = Ok st' -> numbered st ->
  numbered st' /\
  map endpoints (bs_edges st') = (map endpoints (bs_edges st) ++ flat_map spec_edges specs)%list /\
  map wan_node (bs_nodes st') = (map wan_node (bs_nodes st) ++ map spec_name specs)%list.
Proof.
  revert st. induction specs as [|spec specs IH]; intros st; simpl.
  { intros [= <-]. by rewrite !app_nil_r. }
  intros (st1 & Hb & Hrest)%result_bind_ok Hn. unfold build_node_step in Hb.
  apply result_bind_ok in Hb as (meta & _ & Hb). apply result_bind_ok in Hb as (inc & Hinc & Hb).
  apply result_bind_ok in Hb as ([next edges] & He & [= <-]).
  apply node_incoming_ok in Hinc. apply number_edges_ok in He as (Hnext & Hids & Hends).
  rewrite Hinc in Hends. apply IH in Hrest as (Hn' & -> & ->); [|by apply numbered_app].
  simpl. rewrite !map_app, Hends, <- !app_assoc. done.
Qed.

Lemma map_alter_wan_node f i (l : list WorkflowActivationNode) :
  (forall n, wan_node (f n) = wan_node n) -> map wan_node (alter f i l) = map wan_node l.
Proof.
  intros Hf. revert i. induction l as [|n l IH]; intros [|i]; simpl; [done..|by rewrite Hf|].
  f_equal. apply IH.
Qed.

Lemma build_back_edges_ok start specs st st' :
  build_back_edges start st specs = Ok st' -> numbered st ->
  numbered st' /\
  map endpoints (bs_edges st') =
    (map endpoints (bs_edges st) ++ map (back_edge start) specs)%list /\
  map wan_node (bs_nodes st') = map wan_node (bs_nodes st).
Proof.
  revert st. induction specs as [|spec specs IH]; intros st; simpl.
  { intros [= <-]. by rewrite app_nil_r. }
  intros (st1 & Hb & Hrest)%result_bind_ok Hn. unfold back_edge_step in Hb.
  apply result_bind_ok in Hb as (target & _ & Hb).
  apply result_bind_ok in Hb as (next & Hnext & [= <-]).
  apply ok_or_ok, checked_add_u32_some in Hnext as [-> _].
  apply IH in Hrest as (Hn' & -> & ->).
  - simpl. rewrite map_app, <- app_assoc, map_alter_wan_node; done.
  - apply numbered_app; [done|simpl; lia|].
    intros [|i] e; simpl; [intros [= <-]; simpl; lia|by rewrite lookup_nil].
Qed.

(** the materialized workflow is the template's graph.  Its nodes are the
    template's, its edges are numbered 1, 2, 3, ..., and they are exactly the
    graph inputs of the roots, one forward edge per dependency in template
    order, and one back edge per node whose gate is not human, to the authored
    red target or else to the start; the result passes the engine's own check. *)
Theorem materialized_shape w ast :
  workflow_activation_ast_from_loom w = Ok ast ->
  let specs := tpl_nodes (lw_template w) in
  exists start, tpl_start_node (lw_template w) = Some start /\
  validate_workflow_activation_ast ast = Ok tt /\
  map wan_node (ast_nodes ast) = map spec_name specs /\
  (forall i e, ast_edges ast !! i = Some e -> edge_id e = (1 + N.of_nat i)%N) /\
  map endpoints (ast_edges ast) =
    (flat_map spec_edges specs ++
     map (back_edge start) (filterb (fun spec => negb (is_human_gate (spec_gate spec))) specs))%list.
Proof.
  unfold workflow_activation_ast_from_loom. intros Hf. res_invert. simplify_eq. simpl.
  assert (numbered (mkBuild 1 [] [] ∅)) as Hn by (split; [done|]; by intros [|i] e).
  match goal with H : build_nodes _ _ _ = _ |- _ =>
    apply build_nodes_ok in H as (Hn1 & He1 & Hw1); [|done] end.
  match goal with H : build_back_edges _ _ _ = _ |- _ =>
    apply build_back_edges_ok in H as (Hn2 & He2 & Hw2); [|done] end.
  eexists. split_and!; [done| | |apply Hn2|].
  - by match goal with u : unit |- _ => destruct u end.
  - by rewrite Hw2, Hw1.
  - by rewrite He2, He1.
Qed.
End Materialized.

(** ** Witnesses *)

Module Pipes.
Import Sample.

Definition pipe_lines (l : list string) : string :=
  match l with
  | [] => ""
  | line :: l => line ++ concat_str (map (String LF) l)
  end.

(** A review loop with two specialists and a join. *)
Definition review_source : string :=
  pipe_lines ["review: Task -> Report"; "plan @planner"; "code @coder <-plan"; "test @tester <-plan";
            "sum @summary <-code,test " ++ BACK_ARROW ++ "plan"].

Definition lookup (name : string) : option LoomTypeSig :=
  if String.eqb name "planner" then Some (mkTypeSig "Task" "Plan")
  else if String.eqb name "coder" then Some (mkTypeSig "Plan" "Patch")
  else if String.eqb name "tester" then Some (mkTypeSig "Plan" "Log")
  else if String.eqb name "summary" then Some (mkTypeSig "Log + Patch" "Report")
  else if String.eqb name "reorder" then Some (mkTypeSig "Log + Patch" "Report")
  else None.

Definition review : LoomAst := parse_pipe review_source.

(** The same fan-out, merged by a control node before the specialist. *)
Definition detour_source : string :=
  pipe_lines ["detour: Plan -> Report"; "root"; "code @coder <-root"; "test @tester <-root";
            "merge <-code,test"; "sum @reorder <-merge"].

Definition broken_source : string :=
  pipe_lines ["review: Task -> Report"; "plan @planner <-later"; "code :nonsense"].

Definition compiled (source : string) : option LoomWorkflow :=
  match compile_pipe lookup (parse_pipe source) with Ok w => Some w | Err _ => None end.
End Pipes.

Section PipeWitnesses.
Import Sample Pipes.

Lemma compiled_sound source w :
  compiled source = Some w -> compile_pipe lookup (parse_pipe source) = Ok w.
Proof. unfold compiled. by destruct (compile_pipe _ _) eqn:E; intros [= ->]. Qed.

Lemma compiled_review : is_Some (compiled review_source).
Proof. eexists. vm_compute. reflexivity. Qed.

Lemma compiled_template_witness :
  exists w, compile_pipe lookup review = Ok w /\ template_ok (lw_template w).
Proof.
  destruct compiled_review as [w Hw%compiled_sound]. exists w. split; [exact Hw|].
  apply (compiled_template lookup review w Hw).
Defined.

Lemma compile_keeps_parse_errors_witness :
  length (lo_errors (parse_pipe broken_source)) = 2 /\
  exists more, compile_pipe lookup (parse_pipe broken_source)
    = Err (lo_errors (parse_pipe broken_source) ++ more)%list.
Proof.
  split; [vm_compute; reflexivity|].
  apply (compile_keeps_parse_errors lookup (parse_pipe broken_source)). vm_compute. discriminate.
Defined.

Lemma compiled_types_witness :
  exists w, compile_pipe lookup review = Ok w /\
  exists outputs merged, forall i spec meta, tpl_nodes (lw_template w) !! i = Some spec ->
    lw_meta w !! i = Some meta -> node_law lookup (lw_in_type w) outputs merged spec meta.
Proof.
  destruct compiled_review as [w Hw%compiled_sound]. exists w. split; [exact Hw|].
  destruct (compiled_types lookup review w Hw) as (outputs & merged & Hl & _). exists outputs, merged. exact Hl.
Defined.

(** The review loop, materialized. *)
Definition review_ast : option WorkflowActivationAst :=
  match compiled review_source with
  | Some w => match workflow_activation_ast_from_loom w with Ok a => Some a | Err _ => None end
  | None => None
  end.

Lemma materialized_shape_witness :
  exists w ast, workflow_activation_ast_from_loom w = Ok ast /\
    length (ast_edges ast) = 9 /\ exists start, tpl_start_node (lw_template w) = Some start.
Proof.
  destruct (compiled review_source) as [w|] eqn:Hw; [|exfalso; vm_compute in Hw; discriminate].
  destruct (workflow_activation_ast_from_loom w) as [a|e] eqn:Ha.
  - exists w, a. split; [exact Ha|].
    assert (review_ast = Some a) as Hr by (unfold review_ast; rewrite Hw, Ha; reflexivity).
    split; [vm_compute in Hr; injection Hr as <-; reflexivity|].
    destruct (materialized_shape w a Ha) as (start & Hs & _). exists start. exact Hs.
  - exfalso. assert (review_ast = None) as Hr by (unfold review_ast; rewrite Hw, Ha; reflexivity).
    vm_compute in Hr. discriminate.
Defined.

Definition specialist (rev : N) : LoomAgentType :=
  mkAgentType "coder" "Coder" "writes code" "Plan" "Patch" ["git"] [] ["rm"] [] ["fmt"] "red" "C" rev.

Lemma agent_type_digest_binds_witness :
  agent_fits (specialist 1) /\ agent_fits (specialist 2) /\
  (agent_content (specialist 1) = agent_content (specialist 2) \/
   exists x y, x <> y /\
     String.substring 0 32 (blake3_hex x) = String.substring 0 32 (blake3_hex y)).
Proof.
  assert (forall r, agent_fits (specialist r)) as Hf.
  { intros r. split; [apply fits_all; vm_compute; reflexivity|].
    repeat apply Forall_cons_2; try apply Forall_nil_2; simpl; vm_compute; discriminate. }
  assert (agent_type_digest (specialist 1) = agent_type_digest (specialist 2)) as E
    by (unfold agent_type_digest; f_equal).
  split; [exact (Hf 1%N)|]. split; [exact (Hf 2%N)|].
  exact (agent_type_digest_binds (specialist 1) (specialist 2) (Hf 1%N) (Hf 2%N) E).
Defined.

(** the compiler and the materializer disagree on a control join.  The pipe
    below compiles, because the merge flag makes the compiler compare operands
    as sets, and the same record is refused when it is materialized, because
    the engine sees one input and compares the expressions as text. *)
Theorem accepted_pipe_refused_at_start :
  match compiled detour_source with
  | Some w => validate_graph_template (lw_template w) = Ok tt /\
      workflow_activation_ast_from_loom w
        = Err (InvalidAst "workflow node join or typed signature is invalid")
  | None => False
  end.
Proof. vm_compute. split; reflexivity. Qed.
End PipeWitnesses.
