(* ===== verification/ByteBuf.v ===== *)
(** * Byte buffers

    The wire code works on [&[u8]] and [Vec<u8>]: lists of bytes here (one
    [ascii] per byte, the byte type of [RustStr]).  Indexing, slicing and
    [usize] subtraction can panic in Rust, so they return in the result monad
    with [Panic] as the error; a loop that is run with fuel returns
    [OutOfFuel] when the fuel ends.  The theorems about the wire code show
    that neither happens. *)

From S2P Require Import Prelude RustStr Digest.

Abbreviation bytes := (list ascii).

(** ** Panics *)

Inductive Stuck := Panic | OutOfFuel.

(** [a - b] on [usize]. *)
Definition sub_usize (a b : nat) : result nat Stuck :=
  if decide (b <= a) then Ok (a - b) else Err Panic.

(** [buffer[i]]. *)
Definition index (buffer : bytes) (i : nat) : result ascii Stuck := ok_or (buffer !! i) Panic.

(** [buffer[i] = v]. *)
Definition store (buffer : bytes) (i : nat) (v : ascii) : result bytes Stuck :=
  if decide (i < length buffer) then Ok (<[i := v]> buffer) else Err Panic.

(** [&buffer[from..to]]. *)
Definition slice (buffer : bytes) (from to : nat) : result bytes Stuck :=
  if decide (from <= to /\ to <= length buffer)
  then Ok (take (to - from) (drop from buffer)) else Err Panic.

(** [buffer[from..to].copy_from_slice(src)]. *)
Definition copy_from_slice (buffer : bytes) (from to : nat) (src : bytes) : result bytes Stuck :=
  if decide (from <= to /\ to <= length buffer /\ length src = to - from)
  then Ok (take from buffer ++ src ++ drop to buffer) else Err Panic.

(** ** Numbers and lengths *)

Definition usize_max : N := u64_max.

Definition blen (b : bytes) : N := N.of_nat (length b).

Definition as_bytes (s : string) : bytes := String.list_ascii_of_string s.
Definition as_str (b : bytes) : string := String.string_of_list_ascii b.

(** The number that big-endian bytes stand for ([u32::from_be_bytes],
    [u64::from_be_bytes]). *)
Fixpoint from_be_acc (acc : N) (b : bytes) : N :=
  match b with
  | [] => acc
  | c :: b => from_be_acc (acc * 256 + byte_val c) b
  end.
Definition from_be (b : bytes) : N := from_be_acc 0 b.

Definition to_be (k : nat) (n : N) : bytes := as_bytes (be_bytes k n).

#[global] Arguments to_be : simpl never.
#[global] Arguments from_be : simpl never.

(** ** UTF-8 *)

Definition in_range (lo hi : N) (c : ascii) : bool := ((lo <=? byte_val c) && (byte_val c <=? hi))%N.

(** [std::str::from_utf8]: the well-formed byte sequences of the Unicode
    standard (no overlong form, no surrogate, nothing above U+10FFFF). *)
Fixpoint utf8_valid (b : bytes) : bool :=
  match b with
  | [] => true
  | c0 :: b0 =>
      if in_range 0 127 c0 then utf8_valid b0
      else if in_range 194 223 c0 then
        match b0 with
        | c1 :: b1 => in_range 128 191 c1 && utf8_valid b1
        | _ => false
        end
      else if in_range 224 239 c0 then
        match b0 with
        | c1 :: c2 :: b2 =>
            in_range (if in_range 224 224 c0 then 160 else 128)
                     (if in_range 237 237 c0 then 159 else 191) c1
            && in_range 128 191 c2 && utf8_valid b2
        | _ => false
        end
      else if in_range 240 244 c0 then
        match b0 with
        | c1 :: c2 :: c3 :: b3 =>
            in_range (if in_range 240 240 c0 then 144 else 128)
                     (if in_range 244 244 c0 then 143 else 191) c1
            && in_range 128 191 c2 && in_range 128 191 c3 && utf8_valid b3
        | _ => false
        end
      else false
  end.

Definition from_utf8 (b : bytes) : option string :=
  if utf8_valid b then Some (as_str b) else None.

(** ** Laws *)

(** [injection] would compute the bytes of a literal. *)
Lemma ok_inj {A E} (a b : A) : Ok (E := E) a = Ok b -> a = b.
Proof. congruence. Qed.

Lemma byte_val_lt c : (byte_val c < 256)%N.
Proof. apply N_ascii_bounded. Qed.

Lemma byte_val_inj c d : byte_val c = byte_val d -> c = d.
Proof.
  intros E. apply (f_equal ascii_of_N) in E. unfold byte_val in E.
  by rewrite !ascii_N_embedding in E.
Qed.

Lemma as_str_as_bytes s : as_str (as_bytes s) = s.
Proof. apply String.string_of_list_ascii_of_string. Qed.
Lemma as_bytes_as_str b : as_bytes (as_str b) = b.
Proof. apply String.list_ascii_of_string_of_list_ascii. Qed.

Lemma as_bytes_app s t : as_bytes (s ++ t)%string = as_bytes s ++ as_bytes t.
Proof. induction s as [|c s IH]; simpl; [done|]. by f_equal. Qed.

Lemma as_bytes_length s : length (as_bytes s) = String.length s.
Proof. induction s; simpl; auto. Qed.

Lemma to_be_length k n : length (to_be k n) = k.
Proof. unfold to_be. by rewrite as_bytes_length, be_bytes_length. Qed.

Lemma blen_app a b : blen (a ++ b) = (blen a + blen b)%N.
Proof. unfold blen. rewrite length_app. lia. Qed.

Lemma blen_nil b : blen b = 0%N <-> b = [].
Proof. unfold blen. destruct b; simpl; split; intros; [done|done|lia|done]. Qed.

Lemma from_be_acc_bound acc b :
  (from_be_acc acc b < (acc + 1) * 256 ^ N.of_nat (length b))%N.
Proof.
  revert acc. induction b as [|c b IH]; intros acc; simpl from_be_acc; simpl length.
  { rewrite N.pow_0_r. lia. }
  rewrite Nat2N.inj_succ, N.pow_succ_r'.
  pose proof (IH (acc * 256 + byte_val c)%N) as H. pose proof (byte_val_lt c) as Hc.
  eapply N.lt_le_trans; [exact H|].
  rewrite N.mul_assoc. apply N.mul_le_mono_r. lia.
Qed.

Lemma from_be_bound b : (from_be b < 256 ^ N.of_nat (length b))%N.
Proof. pose proof (from_be_acc_bound 0 b). unfold from_be. lia. Qed.

Lemma from_be_acc_to_be k acc n :
  from_be_acc acc (to_be k n) = (acc * 256 ^ N.of_nat k + n mod 256 ^ N.of_nat k)%N.
Proof.
  revert acc. induction k as [|k IH]; intros acc.
  { rewrite N.pow_0_r, N.mod_1_r. unfold to_be. simpl. lia. }
  unfold to_be in *. cbn [be_bytes as_bytes String.list_ascii_of_string from_be_acc].
  fold (as_bytes (be_bytes k n)). rewrite IH. unfold byte_val.
  rewrite N_ascii_embedding by (apply N.mod_lt; lia).
  rewrite Nat2N.inj_succ, N.pow_succ_r', (N.mul_comm 256), N.Div0.mod_mul_r. lia.
Qed.

(** [from_be_bytes] reads back what [to_be_bytes] wrote. *)
Lemma from_be_to_be k n : (n < 256 ^ N.of_nat k)%N -> from_be (to_be k n) = n.
Proof.
  intros H. unfold from_be. rewrite from_be_acc_to_be. rewrite N.mod_small by done. lia.
Qed.

Lemma index_ok b i c : index b i = Ok c <-> b !! i = Some c.
Proof. apply ok_or_ok. Qed.

Lemma slice_ok b from to r :
  slice b from to = Ok r <->
  from <= to /\ to <= length b /\ r = take (to - from) (drop from b).
Proof.
  unfold slice. case_decide as H; split; [intros [= <-]; tauto|intros (?&?&->)|done|tauto].
  done.
Qed.

Lemma slice_prefix b from to : from <= to -> to <= length b ->
  slice b from to = Ok (take (to - from) (drop from b)).
Proof. intros. by apply slice_ok. Qed.

Lemma sub_usize_le a b : b <= a -> sub_usize a b = Ok (a - b).
Proof. intros. unfold sub_usize. by rewrite decide_True. Qed.

Lemma store_lt b i v : i < length b -> store b i v = Ok (<[i := v]> b).
Proof. intros. unfold store. by rewrite decide_True. Qed.

Lemma from_be_acc_split acc b :
  from_be_acc acc b = (acc * 256 ^ N.of_nat (length b) + from_be b)%N.
Proof.
  revert acc. induction b as [|c b IH]; intros acc; unfold from_be; cbn [from_be_acc length].
  { rewrite N.pow_0_r. lia. }
  rewrite (IH (acc * 256 + byte_val c)%N), (IH (0 * 256 + byte_val c)%N).
  rewrite Nat2N.inj_succ, N.pow_succ_r'. lia.
Qed.

Lemma to_be_add k q n : to_be k (q * 256 ^ N.of_nat k + n) = to_be k n.
Proof.
  unfold to_be. f_equal. revert q. induction k as [|k IH]; intros q; [done|].
  cbn [be_bytes]. rewrite Nat2N.inj_succ, N.pow_succ_r'.
  replace (q * (256 * 256 ^ N.of_nat k) + n)%N with ((q * 256) * 256 ^ N.of_nat k + n)%N by lia.
  rewrite IH. f_equal. f_equal.
  rewrite N.div_add_l by (apply N.pow_nonzero; lia).
  rewrite N.add_comm, N.Div0.mod_add. done.
Qed.

(** [to_be_bytes] restores the bytes [from_be_bytes] read. *)
Lemma to_be_from_be b : to_be (length b) (from_be b) = b.
Proof.
  induction b as [|c b IH]; [done|].
  unfold from_be. cbn [from_be_acc length]. rewrite N.mul_0_l, N.add_0_l, from_be_acc_split.
  pose proof (from_be_bound b) as Hb.
  assert (E : to_be (S (length b)) (byte_val c * 256 ^ N.of_nat (length b) + from_be b)
    = ascii_of_N (byte_val c) :: to_be (length b) (byte_val c * 256 ^ N.of_nat (length b) + from_be b)).
  { unfold to_be. cbn [be_bytes as_bytes String.list_ascii_of_string]. f_equal. f_equal.
    rewrite N.div_add_l by (apply N.pow_nonzero; lia). rewrite N.div_small by done.
    rewrite N.add_0_r. apply N.mod_small, byte_val_lt. }
  rewrite E, to_be_add, IH. unfold byte_val. by rewrite ascii_N_embedding.
Qed.

Lemma from_utf8_some b s : from_utf8 b = Some s <-> utf8_valid b = true /\ b = as_bytes s.
Proof.
  unfold from_utf8. case_match; split; try done.
  - intros [= <-]. by rewrite as_bytes_as_str.
  - intros [_ ->]. by rewrite as_str_as_bytes.
  - by intros [? _].
Qed.
