(* ===== verification/RpcCodec.v ===== *)
(** * Wire codec support (haider-rpc codec.rs, ws_codec.rs)

    The bounded writer that serialization goes through and the two body
    codecs.  [serde_json] and [rmp_serde] are third-party crates and the
    [Serialize]/[Deserialize] implementations of the frames are derived by
    their macros: they are the parameter [Serde], which says which
    writes a serializer issues for a value, whether it then fails of itself,
    and what a body deserializes to.  The allocator is the parameter
    [Allocator]. *)

From S2P Require Import Prelude RustStr Digest ByteBuf.

Local Open Scope st_scope.
Local Open Scope res_scope.

(** ** Data *)

Inductive WireEncoding := Json | MessagePack.
#[export] Instance WireEncoding_eq_dec : EqDecision WireEncoding.
Proof. solve_decision. Defined.

(** [CodecError]; the errors of the serializer crates are their messages, and
    the position inside a [Utf8Error] is not kept. *)
Inductive CodecError :=
  | InvalidBinaryFrame
  | FrameLimitExceeded (frame_limit : N) (announced_len : option N)
  | EmptyFrame
  | InvalidUtf8
  | JsonError (error : string)
  | MessagePackEncode (error : string)
  | MessagePackDecode (error : string)
  | AllocationFailed (requested : N)
  | DecoderPoisoned
  | LengthPrefixOverflow (body_len : N).
#[export] Instance CodecError_eq_dec : EqDecision CodecError.
Proof. solve_decision. Defined.

(** Whether a reservation of that many bytes succeeds. *)
Class Allocator := try_reserve : N -> bool.

(** One [write] call: the address of the slice and its bytes. *)
Record Slice := { sl_addr : N; sl_bytes : bytes }.

(** What a serializer does for one value: the slices it writes, in order, and
    its own error after them, if it has one. *)
Record Serialization := { writes : list Slice; failure : option string }.

Class Serde (T : Type) := {
  serialize : WireEncoding -> T -> Serialization;
  deserialize : WireEncoding -> bytes -> result T string
}.

(** The bytes a serialization stands for. *)
Definition written (s : Serialization) : bytes := concat (map sl_bytes s.(writes)).

Definition serde_error (encoding : WireEncoding) (error : string) : CodecError :=
  match encoding with Json => JsonError error | MessagePack => MessagePackEncode error end.

(** ** [LimitedWriter] *)

Record LimitedWriter := {
  lw_bytes : bytes;
  lw_capacity : N;
  lw_frame_limit : N;
  lw_exceeded : bool;
  lw_allocation_failed : option N
}.

Definition LimitedWriter_new (frame_limit : N) : LimitedWriter :=
  {| lw_bytes := []; lw_capacity := 0; lw_frame_limit := frame_limit;
     lw_exceeded := false; lw_allocation_failed := None |}.

Section Writer.
Context `{Allocator}.

(** [Vec::try_reserve_exact]: the capacity is at least the length plus the
    additional bytes, and only a growth asks the allocator. *)
Definition try_reserve_exact (length_now capacity additional : N) : option N :=
  if (length_now + additional <=? capacity)%N then Some capacity
  else if try_reserve (length_now + additional) then Some (length_now + additional)%N else None.

Definition limited_write (buffer : bytes) : ST LimitedWriter string unit := fun w =>
  let next_len := (blen w.(lw_bytes) + blen buffer)%N in
  let exceeded := {| lw_bytes := w.(lw_bytes); lw_capacity := w.(lw_capacity);
                     lw_frame_limit := w.(lw_frame_limit); lw_exceeded := true;
                     lw_allocation_failed := w.(lw_allocation_failed) |} in
  if (usize_max <? next_len)%N then (Err "wire frame limit exceeded"%string, exceeded)
  else if (w.(lw_frame_limit) <? next_len)%N then (Err "wire frame limit exceeded"%string, exceeded)
  else
    let extend capacity :=
      (Ok tt, {| lw_bytes := w.(lw_bytes) ++ buffer; lw_capacity := capacity;
                 lw_frame_limit := w.(lw_frame_limit); lw_exceeded := w.(lw_exceeded);
                 lw_allocation_failed := w.(lw_allocation_failed) |}) in
    if (w.(lw_capacity) <? next_len)%N then
      let ceiling := N.max w.(lw_frame_limit) next_len in
      let target := N.min (N.max (N.min (w.(lw_capacity) * 2) usize_max) next_len) ceiling in
      let additional := (target - blen w.(lw_bytes))%N in
      match try_reserve_exact (blen w.(lw_bytes)) w.(lw_capacity) additional with
      | Some capacity => extend capacity
      | None =>
          (Err "wire frame allocation failed"%string,
           {| lw_bytes := w.(lw_bytes); lw_capacity := w.(lw_capacity);
              lw_frame_limit := w.(lw_frame_limit); lw_exceeded := w.(lw_exceeded);
              lw_allocation_failed := Some next_len |})
      end
    else extend w.(lw_capacity).
End Writer.

(** [Write::write_all] over a [write] that takes the whole buffer, for each
    slice the serializer issues: an error stops the serializer at once. *)
Fixpoint run_writes {W} (write : Slice -> ST W string unit) (slices : list Slice)
  : ST W string unit :=
  match slices with
  | [] => st_ret tt
  | s :: slices =>
      (if bool_decide (s.(sl_bytes) = []) then st_ret tt else write s) ;;;
      run_writes write slices
  end.

(** [serde_json::to_writer] and [Serialize::serialize]. *)
Definition run_serializer {W} (write : Slice -> ST W string unit) (s : Serialization)
  : ST W string unit :=
  run_writes write s.(writes) ;;;
  st_lift (match s.(failure) with Some error => Err error | None => Ok tt end).

Section Codec.
Context `{Allocator} {T : Type} `{Serde T}.

(** [encode_json_value] and [encode_msgpack_value] differ only in the
    serializer and in the constructor of its error. *)
Definition encode_value (encoding : WireEncoding) (value : T) (frame_limit : N)
  : result bytes CodecError :=
  match run_serializer (fun s => limited_write s.(sl_bytes)) (serialize encoding value)
          (LimitedWriter_new frame_limit) with
  | (Err error, w) =>
      if w.(lw_exceeded) then Err (FrameLimitExceeded frame_limit None)
      else match w.(lw_allocation_failed) with
           | Some requested => Err (AllocationFailed requested)
           | None => Err (serde_error encoding error)
           end
  | (Ok _, w) => Ok w.(lw_bytes)
  end.

Definition encode_json_value : T -> N -> result bytes CodecError := encode_value Json.
Definition encode_msgpack_value : T -> N -> result bytes CodecError := encode_value MessagePack.

Definition decode_json (body : bytes) (frame_limit : N) : result T CodecError :=
  reject_if (frame_limit <? blen body)%N (FrameLimitExceeded frame_limit (Some (blen body))) ?;
  reject_if (bool_decide (body = [])) EmptyFrame ?;
  map_err JsonError (deserialize Json body).

Definition decode_msgpack (body : bytes) (frame_limit : N) : result T CodecError :=
  reject_if (frame_limit <? blen body)%N (FrameLimitExceeded frame_limit (Some (blen body))) ?;
  reject_if (bool_decide (body = [])) EmptyFrame ?;
  map_err MessagePackDecode (deserialize MessagePack body).

(** ** WebSocket messages *)

Definition ws_encode (frame : T) (frame_limit : N) : result string CodecError :=
  let? body := encode_json_value frame frame_limit in ok_or (from_utf8 body) InvalidUtf8.

Definition ws_decode (message : string) (frame_limit : N) : result T CodecError :=
  decode_json (as_bytes message) frame_limit.

Definition ws_encode_binary : T -> N -> result bytes CodecError := encode_msgpack_value.
Definition ws_decode_binary : bytes -> N -> result T CodecError := decode_msgpack.
End Codec.

(** ** Laws *)

Section CodecFacts.
Context `{Allocator} {T : Type} `{Serde T}.

(** The writer holds exactly what was written, within the limit, and its
    capacity never passes the limit either. *)
Definition writer_ok (w : LimitedWriter) (content : bytes) : Prop :=
  w.(lw_bytes) = content /\ (blen content <= w.(lw_frame_limit))%N /\
  (blen content <= usize_max)%N /\ (w.(lw_capacity) <= w.(lw_frame_limit))%N /\
  w.(lw_exceeded) = false /\ w.(lw_allocation_failed) = None.

Lemma limited_write_ok buffer w content u w' :
  writer_ok w content -> limited_write buffer w = (Ok u, w') ->
  writer_ok w' (content ++ buffer) /\ w'.(lw_frame_limit) = w.(lw_frame_limit).
Proof.
  intros (<-&Hl&Hu&Hc&He&Ha). unfold limited_write, try_reserve_exact.
  rewrite <- blen_app.
  repeat (case_match; try done); intros [= <-]; simplify_eq; unfold writer_ok; simpl; guards;
    repeat split; try done; lia.
Qed.

Lemma limited_write_progress buffer w content :
  (forall n, (n <= w.(lw_frame_limit))%N -> try_reserve n = true) ->
  writer_ok w content -> (blen (content ++ buffer) <= w.(lw_frame_limit))%N ->
  (blen (content ++ buffer) <= usize_max)%N ->
  exists w', limited_write buffer w = (Ok tt, w').
Proof.
  intros Hres (<-&Hl&Hu&Hc&He&Ha) Hlim Hmax. unfold limited_write. rewrite <- blen_app.
  rewrite (proj2 (N.ltb_ge _ _) Hmax), (proj2 (N.ltb_ge _ _) Hlim).
  case_match eqn:Hcap; [|by eauto].
  case_match eqn:Hfit; [by eauto|]. exfalso. revert Hfit. unfold try_reserve_exact.
  case_match; [done|]. rewrite Hres; [done|].
  apply N.ltb_lt in Hcap. rewrite blen_app in *. lia.
Qed.

Lemma run_limited_ok slices w content u w' :
  writer_ok w content ->
  run_writes (fun s => limited_write s.(sl_bytes)) slices w = (Ok u, w') ->
  writer_ok w' (content ++ concat (map sl_bytes slices)) /\
  w'.(lw_frame_limit) = w.(lw_frame_limit).
Proof.
  revert w content. induction slices as [|s slices IH]; intros w content Hw; simpl.
  { intros [= _ <-]. by rewrite app_nil_r. }
  intros (v & w1 & Hs & Hr)%st_bind_ok. case_bool_decide as He.
  - injection Hs as _ <-. rewrite He. simpl. by eapply IH.
  - destruct (limited_write_ok _ _ _ _ _ Hw Hs) as [Hw1 El].
    destruct (IH _ _ Hw1 Hr) as [? ?]. rewrite app_assoc. split; congruence.
Qed.

Lemma run_limited_progress slices w content :
  (forall n, (n <= w.(lw_frame_limit))%N -> try_reserve n = true) ->
  writer_ok w content ->
  (blen (content ++ concat (map sl_bytes slices)) <= w.(lw_frame_limit))%N ->
  (blen (content ++ concat (map sl_bytes slices)) <= usize_max)%N ->
  exists w', run_writes (fun s => limited_write s.(sl_bytes)) slices w = (Ok tt, w').
Proof.
  revert w content. induction slices as [|s slices IH]; intros w content Hres Hw Hl Hm; simpl in *.
  { by eexists. }
  rewrite app_assoc in *. case_bool_decide as He.
  - rewrite He, app_nil_r in *. unfold st_bind, st_ret. eauto.
  - destruct (limited_write_progress s.(sl_bytes) w content) as [w1 Hs]; try done;
      [rewrite !blen_app in *; lia..|].
    destruct (limited_write_ok _ _ _ _ _ Hw Hs) as [Hw1 El].
    unfold st_bind. rewrite Hs. rewrite <- El in *. by eapply IH.
Qed.

Lemma writer_ok_new limit : writer_ok (LimitedWriter_new limit) [].
Proof. unfold writer_ok, blen; simpl. repeat split; try done; lia. Qed.

(** A body that is encoded is the serializer's output, within the limit. *)
Lemma encode_value_ok encoding (value : T) limit body :
  encode_value encoding value limit = Ok body ->
  (serialize encoding value).(failure) = None /\ body = written (serialize encoding value) /\
  (blen body <= limit)%N /\ (blen body <= usize_max)%N.
Proof.
  unfold encode_value, run_serializer.
  destruct (st_bind _ _ _) as [[u|e] w] eqn:E; [|by repeat case_match].
  intros [= <-]. apply st_bind_ok in E as (v & w1 & Hr & Hf).
  apply st_lift_ok in Hf as [Hf <-].
  destruct (run_limited_ok _ _ _ _ _ (writer_ok_new limit) Hr) as [(->&Hl&Hu&_) El].
  simpl in *. split; [by destruct failure|]. split; [done|]. rewrite El in Hl. done.
Qed.

(** When memory is available, every value whose serialization fits is encoded. *)
Lemma encode_value_complete encoding (value : T) limit :
  (forall n, (n <= limit)%N -> try_reserve n = true) ->
  (serialize encoding value).(failure) = None ->
  (blen (written (serialize encoding value)) <= limit)%N ->
  (blen (written (serialize encoding value)) <= usize_max)%N ->
  encode_value encoding value limit = Ok (written (serialize encoding value)).
Proof.
  intros Hres Hf Hl Hm.
  destruct (run_limited_progress (serialize encoding value).(writes) (LimitedWriter_new limit) [])
    as [w Hw]; [done|apply writer_ok_new|done..|].
  destruct (run_limited_ok _ _ _ _ _ (writer_ok_new limit) Hw) as [(E&_) _].
  unfold encode_value, run_serializer, st_bind. rewrite Hw, Hf. cbn. by rewrite E.
Qed.

(** Streaming serialization refuses an oversized value with the limit. *)
Lemma limited_write_err buffer w content e w' :
  (forall n, (n <= w.(lw_frame_limit))%N -> try_reserve n = true) ->
  writer_ok w content -> limited_write buffer w = (Err e, w') -> w'.(lw_exceeded) = true.
Proof.
  intros Hres Hw Hr. destruct (decide (blen (content ++ buffer) <= w.(lw_frame_limit))%N);
    [destruct (decide (blen (content ++ buffer) <= usize_max)%N)|].
  - destruct (limited_write_progress buffer w content) as [w1 E]; try done. congruence.
  - revert Hr. unfold limited_write. destruct Hw as (->&_). rewrite <- blen_app.
    rewrite (proj2 (N.ltb_lt _ _)) by lia. by intros [= _ <-].
  - revert Hr. unfold limited_write. destruct Hw as (->&_). rewrite <- blen_app.
    case_match; [by intros [= _ <-]|].
    rewrite (proj2 (N.ltb_lt _ _)) by lia. by intros [= _ <-].
Qed.

Lemma run_limited_err slices w content e w' :
  (forall n, (n <= w.(lw_frame_limit))%N -> try_reserve n = true) ->
  writer_ok w content ->
  run_writes (fun s => limited_write s.(sl_bytes)) slices w = (Err e, w') ->
  w'.(lw_exceeded) = true.
Proof.
  revert w content. induction slices as [|s slices IH]; intros w content Hres Hw; simpl; [done|].
  intros [Hs|(v & w1 & Hs & Hr)]%st_bind_err; case_bool_decide as He.
  - done.
  - by eapply limited_write_err.
  - injection Hs as _ <-. eauto.
  - destruct (limited_write_ok _ _ _ _ _ Hw Hs) as [Hw1 El].
    eapply IH; [|done..]. by rewrite El.
Qed.

Lemma encode_value_too_long encoding (value : T) limit :
  (forall n, (n <= limit)%N -> try_reserve n = true) ->
  (limit < blen (written (serialize encoding value)))%N ->
  (serialize encoding value).(failure) = None ->
  encode_value encoding value limit = Err (FrameLimitExceeded limit None).
Proof.
  intros Hres Hl Hf. destruct (encode_value encoding value limit) as [body|e] eqn:E.
  { apply encode_value_ok in E as (_&->&?&_). lia. }
  revert E. unfold encode_value, run_serializer.
  destruct (st_bind _ _ _) as [[u|e'] w] eqn:E; [done|].
  apply st_bind_err in E as [Hs|(v & w1 & _ & Hs)].
  - rewrite (run_limited_err _ (LimitedWriter_new limit) [] _ _ Hres (writer_ok_new limit) Hs). by intros [= <-].
  - rewrite Hf in Hs. done.
Qed.
End CodecFacts.
