(* ===== verification/BinaryArtifact.v ===== *)
(** * Binary artifact frames (haider-rpc binary_artifact.rs)

    The additive upload transport: a body is the request id, one tag byte and
    the fields of the tag; the high bit of the length prefix marks it. *)

From S2P Require Import Prelude RustStr Digest ByteBuf RpcCodec.

Local Open Scope res_scope.

Definition MAX_BYTES : N := 512 * 1024 * 1024.
Definition CHUNK_BYTES : N := 64 * 1024.
Definition MAX_FRAME_BYTES : N := CHUNK_BYTES + 138.
Definition PREFIX_FLAG : N := 2147483648.

Inductive BinaryFrame :=
  | Begin (request_id : string) (size : N) (digest : string)
  | Chunk (request_id : string) (offset : N) (content : bytes)
  | Finish (request_id : string).
#[export] Instance BinaryFrame_eq_dec : EqDecision BinaryFrame.
Proof. solve_decision. Defined.

Definition frame_request_id (frame : BinaryFrame) : string :=
  match frame with Begin id _ _ | Chunk id _ _ | Finish id => id end.

Definition byte_of (n : N) : ascii := ascii_of_N n.

Definition BLAKE3_PREFIX : string := "blake3:".

(** [hash.bytes().all(|b| b.is_ascii_digit() || (b'a'..=b'f').contains(&b))]. *)
Definition all_lower_hex (hash : string) : bool := all_bytes is_lower_hex hash.

(** The tag byte and the fields after the request id. *)
Definition encode_fields (frame : BinaryFrame) : result bytes CodecError :=
  let id := as_bytes (frame_request_id frame) in
  match frame with
  | Begin _ size digest =>
      let? hash := ok_or (strip_prefix BLAKE3_PREFIX digest) InvalidBinaryFrame in
      reject_if (bool_decide (id = []) || (128 <? blen id)%N || (MAX_BYTES <? size)%N
                 || negb (len hash =? 64)%N || negb (all_lower_hex hash)) InvalidBinaryFrame ?;
      Ok (byte_of 1 :: to_be 8 size ++ as_bytes hash)
  | Chunk _ offset content =>
      reject_if (bool_decide (content = []) || (CHUNK_BYTES <? blen content)%N)
        InvalidBinaryFrame ?;
      Ok (byte_of 2 :: to_be 8 offset ++ content)
  | Finish _ => Ok [byte_of 3]
  end.

(** [encode]: the framed bytes. *)
Definition binary_encode (frame : BinaryFrame) (limit : N) : result bytes CodecError :=
  let id := as_bytes (frame_request_id frame) in
  reject_if (bool_decide (id = []) || (128 <? blen id)%N) InvalidBinaryFrame ?;
  let? fields := encode_fields frame in
  let body := byte_of (blen id) :: id ++ fields in
  let cap := N.min limit MAX_FRAME_BYTES in
  reject_if (cap <? blen body)%N (FrameLimitExceeded cap (Some (blen body))) ?;
  Ok (to_be 4 (N.lor (blen body) PREFIX_FLAG) ++ body).

(** The fields after the request id, by tag. *)
Definition decode_fields (request_id : string) (body : bytes) : result BinaryFrame CodecError :=
  match body with
  | tag :: rest =>
      if (byte_val tag =? 1)%N && (blen body =? 73)%N then
        let size := from_be (take 8 rest) in
        let? hash := ok_or (from_utf8 (take 64 (drop 8 rest))) InvalidBinaryFrame in
        reject_if ((MAX_BYTES <? size)%N || negb (all_lower_hex hash)) InvalidBinaryFrame ?;
        Ok (Begin request_id size (BLAKE3_PREFIX ++ hash)%string)
      else if (byte_val tag =? 2)%N && (10 <=? blen body)%N && (blen body <=? CHUNK_BYTES + 9)%N then
        Ok (Chunk request_id (from_be (take 8 rest)) (drop 8 rest))
      else if (byte_val tag =? 3)%N && (blen body =? 1)%N then Ok (Finish request_id)
      else Err InvalidBinaryFrame
  | [] => Err InvalidBinaryFrame
  end.

(** [decode]: one complete body. *)
Definition binary_decode (body : bytes) : result BinaryFrame CodecError :=
  match body with
  | [] => Err InvalidBinaryFrame
  | first :: rest =>
      let id_len := byte_val first in
      reject_if ((id_len =? 0)%N || (128 <? id_len)%N || (blen body <=? 1 + id_len)%N)
        InvalidBinaryFrame ?;
      let? request_id := ok_or (from_utf8 (take (N.to_nat id_len) rest)) InvalidBinaryFrame in
      decode_fields request_id (drop (N.to_nat id_len) rest)
  end.

(** ** Laws *)

(** A frame whose fields have the widths of their Rust types and whose
    request id is a Rust string. *)
Definition frame_typed (frame : BinaryFrame) : Prop :=
  utf8_valid (as_bytes (frame_request_id frame)) = true /\
  match frame with
  | Begin _ size _ => (size <= u64_max)%N
  | Chunk _ offset _ => (offset <= u64_max)%N
  | Finish _ => True
  end.

Lemma lower_hex_ascii c : is_lower_hex c = true -> in_range 0 127 c = true.
Proof.
  unfold is_lower_hex, is_ascii_digit, in_range. intros H.
  apply orb_true_iff in H as [H|H]; apply andb_true_iff in H as [H1 H2];
    apply N.leb_le in H1, H2; apply andb_true_iff; split; apply N.leb_le; lia.
Qed.

Lemma lower_hex_utf8 s : all_lower_hex s = true -> utf8_valid (as_bytes s) = true.
Proof.
  induction s as [|c s IH]; [done|].
  unfold all_lower_hex in *. cbn [all_bytes]. intros [Hc Hs]%andb_true_iff.
  cbn [as_bytes String.list_ascii_of_string utf8_valid].
  rewrite (lower_hex_ascii _ Hc). by apply IH.
Qed.

Lemma from_utf8_as_bytes s : utf8_valid (as_bytes s) = true -> from_utf8 (as_bytes s) = Some s.
Proof. intros H. unfold from_utf8. by rewrite H, as_str_as_bytes. Qed.

Lemma byte_val_of n : (n < 256)%N -> byte_val (byte_of n) = n.
Proof. apply N_ascii_embedding. Qed.

Lemma len_blen s : blen (as_bytes s) = len s.
Proof. unfold blen, len. by rewrite as_bytes_length. Qed.

Lemma take_app_bytes (a b : bytes) n : n = length a -> take n (a ++ b) = a.
Proof. intros ->. apply take_app_length. Qed.
Lemma drop_app_bytes (a b : bytes) n : n = length a -> drop n (a ++ b) = b.
Proof. intros ->. apply drop_app_length. Qed.

Lemma from_be_u64 n rest : (n <= u64_max)%N -> from_be (take 8 (to_be 8 n ++ rest)) = n.
Proof.
  intros H. rewrite take_app_bytes by (by rewrite to_be_length).
  apply from_be_to_be. change (256 ^ N.of_nat 8)%N with 18446744073709551616%N.
  unfold u64_max in H. lia.
Qed.

(** The fields of every tag are read back. *)
Lemma decode_encode_fields frame fields :
  frame_typed frame -> encode_fields frame = Ok fields ->
  decode_fields (frame_request_id frame) fields = Ok frame.
Proof.
  intros [_ Hf]. destruct frame as [id size digest|id offset content|id];
    cbn [encode_fields frame_request_id]; intros E.
  - apply result_bind_ok in E as (hash & Hh & E). apply ok_or_ok, strip_prefix_some in Hh as ->.
    apply result_bind_ok in E as (u & Hg & E). apply ok_inj in E as <-. apply reject_if_ok in Hg.
    apply orb_false_iff in Hg as [Hg Hhex]. apply orb_false_iff in Hg as [Hg Hlen].
    apply orb_false_iff in Hg as [_ Hsz]. apply negb_false_iff in Hhex, Hlen.
    apply N.eqb_eq in Hlen. cbn [decode_fields].
    rewrite from_be_u64 by done. rewrite drop_app_bytes by (by rewrite to_be_length).
    rewrite take_ge by (rewrite as_bytes_length; unfold len in Hlen; lia).
    replace (blen _) with 73%N; [|unfold blen; cbn [length]; rewrite length_app, to_be_length;
      fold (as_bytes hash); rewrite as_bytes_length; unfold len in Hlen; lia].
    rewrite byte_val_of by lia. cbn [N.eqb Pos.eqb andb].
    rewrite from_utf8_as_bytes by (by apply lower_hex_utf8). cbn [ok_or result_bind].
    by rewrite Hsz, Hhex.
  - apply result_bind_ok in E as (u & Hg & E). apply ok_inj in E as <-. apply reject_if_ok in Hg.
    apply orb_false_iff in Hg as [Hne Hl]. apply bool_decide_eq_false in Hne.
    apply N.ltb_ge in Hl. cbn [decode_fields].
    assert (Hb : blen (byte_of 2 :: to_be 8 offset ++ content) = (9 + blen content)%N).
    { unfold blen. cbn [length]. rewrite length_app, to_be_length. lia. }
    rewrite Hb. rewrite byte_val_of by lia. cbn [N.eqb Pos.eqb andb].
    assert (0 < blen content)%N by (destruct content; [done|unfold blen; simpl; lia]).
    rewrite (proj2 (N.leb_le 10 _)), (proj2 (N.leb_le _ (CHUNK_BYTES + 9)%N)) by lia.
    cbn [andb]. rewrite from_be_u64 by done. by rewrite drop_app_bytes by (by rewrite to_be_length).
  - injection E as <-. reflexivity.
Qed.

(** What [binary_encode] returns: a flagged prefix and a bounded body that
    decodes to the frame. *)
Lemma binary_encode_ok frame limit framed :
  frame_typed frame -> binary_encode frame limit = Ok framed ->
  exists body, framed = to_be 4 (N.lor (blen body) PREFIX_FLAG) ++ body /\
    (0 < blen body <= N.min limit MAX_FRAME_BYTES)%N /\ binary_decode body = Ok frame.
Proof.
  intros Ht E. unfold binary_encode in E.
  apply result_bind_ok in E as (u & Hid & E). apply reject_if_ok in Hid.
  apply orb_false_iff in Hid as [Hne Hid]. apply bool_decide_eq_false in Hne.
  apply N.ltb_ge in Hid.
  apply result_bind_ok in E as (fields & Hfields & E).
  apply result_bind_ok in E as (v & Hcap & E). apply ok_inj in E as <-. apply reject_if_ok, N.ltb_ge in Hcap.
  eexists. split; [reflexivity|]. split; [split; [|exact Hcap]; unfold blen; simpl; lia|].
  set (id := as_bytes (frame_request_id frame)) in *.
  assert (Hpos : (0 < blen id)%N) by (destruct id; [done|unfold blen; simpl; lia]).
  pose proof (decode_encode_fields _ _ Ht Hfields) as Hd.
  assert (Hf : 0 < length fields) by (destruct fields; [by simpl in Hd|simpl; lia]).
  cbn [binary_decode]. rewrite byte_val_of by lia.
  rewrite (proj2 (N.eqb_neq _ 0)) by lia. rewrite (proj2 (N.ltb_ge 128 _)) by done.
  rewrite (proj2 (N.leb_gt _ _)); [|unfold blen in *; cbn [length]; rewrite length_app; lia].
  cbn [orb reject_if result_bind].
  rewrite take_app_bytes, drop_app_bytes by (unfold blen; lia).
  unfold id. rewrite from_utf8_as_bytes by apply Ht. exact Hd.
Qed.

Lemma to_be_u64 (b : bytes) : 8 <= length b -> to_be 8 (from_be (take 8 b)) ++ drop 8 b = b.
Proof.
  intros H. rewrite <- (take_drop 8 b) at 3. f_equal.
  rewrite <- (to_be_from_be (take 8 b)) at 2. by rewrite length_take_le.
Qed.

Lemma from_be_u64_bound b : (from_be (take 8 b) <= u64_max)%N.
Proof.
  pose proof (from_be_bound (take 8 b)) as H.
  assert (256 ^ N.of_nat (length (take 8 b)) <= 256 ^ 8)%N.
  { apply N.pow_le_mono_r; [lia|]. rewrite length_take. lia. }
  change (256 ^ 8)%N with (u64_max + 1)%N in *. lia.
Qed.

(** The decoder accepts no second spelling of a frame's fields. *)
Lemma encode_decode_fields id body frame :
  id <> ""%string -> (len id <= 128)%N -> decode_fields id body = Ok frame ->
  frame_request_id frame = id /\ encode_fields frame = Ok body /\
  match frame with
  | Begin _ n _ | Chunk _ n _ => (n <= u64_max)%N
  | Finish _ => True
  end.
Proof.
  intros Hne Hid. unfold decode_fields. destruct body as [|tag rest]; [done|].
  assert (Hb : as_bytes id <> []) by (by destruct id).
  case_match eqn:H1.
  - apply andb_true_iff in H1 as [Ht Hl]. apply N.eqb_eq in Ht, Hl. unfold blen in Hl. simpl in Hl.
    intros E. apply result_bind_ok in E as (hash & Hh & E).
    apply ok_or_ok, from_utf8_some in Hh as [_ Hh].
    apply result_bind_ok in E as (u & Hg & E). apply ok_inj in E as <-.
    apply reject_if_ok, orb_false_iff in Hg as [Hsz Hhex].
    rewrite take_ge in Hh by (rewrite length_drop; lia).
    assert (Hlen : len hash = 64%N).
    { rewrite <- len_blen, <- Hh. unfold blen. rewrite length_drop. lia. }
    split; [done|]. split; [|apply from_be_u64_bound]. cbn [encode_fields frame_request_id].
    rewrite strip_prefix_app. cbn [ok_or result_bind].
    rewrite bool_decide_eq_false_2, len_blen, (proj2 (N.ltb_ge 128 _)), Hsz, Hlen by done.
    apply negb_false_iff in Hhex. rewrite Hhex. cbn [N.eqb Pos.eqb negb orb reject_if result_bind].
    rewrite <- Hh, to_be_u64 by (done || lia). f_equal. f_equal. apply byte_val_inj. by rewrite Ht.
  - case_match eqn:H2.
    + apply andb_true_iff in H2 as [H2 Hhi]. apply andb_true_iff in H2 as [Ht Hlo].
      apply N.eqb_eq in Ht. apply N.leb_le in Hhi, Hlo. unfold blen in Hhi, Hlo. simpl in Hhi, Hlo.
      intros E. apply ok_inj in E as <-. split; [done|]. split; [|apply from_be_u64_bound].
      cbn [encode_fields]. rewrite bool_decide_eq_false_2.
      2:{ intros E%(f_equal length). rewrite length_drop in E. simpl in E. lia. }
      rewrite (proj2 (N.ltb_ge _ _)).
      2:{ unfold blen. rewrite length_drop. lia. }
      cbn [orb reject_if result_bind]. rewrite to_be_u64 by (done || lia).
      f_equal. f_equal. apply byte_val_inj. by rewrite Ht.
    + case_match eqn:H3; [|done]. apply andb_true_iff in H3 as [Ht Hl].
      apply N.eqb_eq in Ht, Hl. unfold blen in Hl. simpl in Hl.
      destruct rest; [|simpl in Hl; lia]. intros E. apply ok_inj in E as <-.
      split; [done|]. split; [|done]. cbn [encode_fields]. f_equal. f_equal.
      apply byte_val_inj. by rewrite Ht.
Qed.

(** the binary artifact codec is a bijection between accepted bodies and
    well-typed frames: a body decodes to a frame exactly when encoding that
    frame yields the flagged length prefix followed by that very body, so
    there is one spelling per frame and neither direction loses anything. *)
Theorem binary_frames_bijective (frame : BinaryFrame) (body : bytes) (limit : N) :
  (blen body <= N.min limit MAX_FRAME_BYTES)%N ->
  binary_decode body = Ok frame <->
  frame_typed frame /\
  binary_encode frame limit = Ok (to_be 4 (N.lor (blen body) PREFIX_FLAG) ++ body).
Proof.
  intros Hcap. split.
  - unfold binary_decode. destruct body as [|first rest]; [done|]. intros E.
    apply result_bind_ok in E as (u & Hg & E). apply reject_if_ok in Hg.
    apply orb_false_iff in Hg as [Hg Hlen]. apply orb_false_iff in Hg as [Hz Hid].
    apply N.eqb_neq in Hz. apply N.ltb_ge in Hid. apply N.leb_gt in Hlen.
    apply result_bind_ok in E as (id & Hs & E). apply ok_or_ok, from_utf8_some in Hs as [Hu Hs].
    assert (Hl : len id = byte_val first).
    { rewrite <- len_blen, <- Hs. unfold blen in *. rewrite length_take. simpl in Hlen. lia. }
    apply encode_decode_fields in E as (Ei & Ef & Ew); [|by intros ->|lia].
    split. { split; [by rewrite Ei, <- Hs|done]. }
    unfold binary_encode. rewrite Ei, Ef, len_blen, Hl.
    rewrite bool_decide_eq_false_2 by (destruct id; [done|by intros [=]]).
    rewrite (proj2 (N.ltb_ge 128 _)) by done. cbn [orb reject_if result_bind].
    assert (Eb : byte_of (byte_val first) :: as_bytes id ++ drop (N.to_nat (byte_val first)) rest
                 = first :: rest).
    { rewrite <- Hs, take_drop. f_equal. apply ascii_N_embedding. }
    rewrite Eb. by rewrite (proj2 (N.ltb_ge _ _)) by done.
  - intros [Ht E]. destruct (binary_encode_ok _ _ _ Ht E) as (body' & Eb & _ & Hd).
    apply app_inj_1 in Eb as [_ ->]; [done|]. by rewrite !to_be_length.
Qed.

Lemma binary_frames_bijective_witness :
  binary_decode (byte_of 2 :: as_bytes "r1" ++ byte_of 2 :: to_be 8 7 ++ as_bytes "abc")
    = Ok (Chunk "r1" 7 (as_bytes "abc")).
Proof.
  apply (binary_frames_bijective _ _ 4096%N); [by vm_compute|].
  by vm_compute; repeat split.
Defined.
