(* ===== verification/RpcBase64.v ===== *)
(** * In-place base64 (haider-rpc uds_codec.rs)

    The daemon decodes the base64 field of an [artifact.put] request into the
    very buffer it was received in: the loop reads four characters at [input]
    and writes up to three bytes at [output] of the same vector.  The buffer
    is modelled as one list that the loop updates, and the reference is the
    RFC 4648 encoder [b64_encode]. *)

From S2P Require Import Prelude RustStr Digest ByteBuf.

Local Open Scope res_scope.

(** ** The code *)

Definition EQUALS : ascii := "="%char.

Definition standard_base64_value (byte : ascii) : option N :=
  let b := byte_val byte in
  if in_range 65 90 byte then Some (b - 65)%N
  else if in_range 97 122 byte then Some (b - 97 + 26)%N
  else if in_range 48 57 byte then Some (b - 48 + 52)%N
  else if (b =? 43)%N then Some 62%N
  else if (b =? 47)%N then Some 63%N
  else None.

(** [encoded.iter().rev().take_while(|byte| **byte == b'=').count()]. *)
Fixpoint count_while (p : ascii -> bool) (l : bytes) : nat :=
  match l with
  | c :: l => if p c then S (count_while p l) else 0
  | [] => 0
  end.

Definition is_padding (c : ascii) : bool := bool_decide (c = EQUALS).

(** [.is_none_or(|value| value & mask != 0)] on the value of the character
    before the padding. *)
Definition dirty_tail (encoded : bytes) (content_len : nat) (mask : N) : bool :=
  match content_len with
  | 0 => true
  | S i =>
      match (encoded !! i) ≫= standard_base64_value with
      | Some value => negb (N.land value mask =? 0)%N
      | None => true
      end
  end.

Definition validated_standard_base64_len (encoded : bytes) : option nat :=
  if negb (Nat.modulo (length encoded) 4 =? 0) then None
  else
    let padding := count_while is_padding (rev encoded) in
    if 2 <? padding then None
    else
      let content_len := length encoded - padding in
      let content := take content_len encoded in
      if existsb (fun byte => bool_decide (standard_base64_value byte = None)) content
         || existsb is_padding content then None
      else if (padding =? 2) && dirty_tail encoded content_len 15 then None
      else if (padding =? 1) && dirty_tail encoded content_len 3 then None
      else if padding <=? length encoded / 4 * 3 then Some (length encoded / 4 * 3 - padding)
      else None.

(** How the decode loop can end early: [?] on [None], which leaves the buffer
    as it then is, or stuck. *)
Inductive LoopExit := ReturnNone (body : bytes) | LoopStuck (stuck : Stuck).

Definition panics {A} (r : result A Stuck) : result A LoopExit := map_err LoopStuck r.

(** The wrapping [u8] shift to the left. *)
Definition shl_u8 (v n : N) : N := N.land (N.shiftl v n) 255.

Definition u8 (n : N) : ascii := ascii_of_N n.

(** One round: four characters in, up to three bytes out. *)
Definition decode_quad (body : bytes) (input output : nat) : result (bytes * nat) LoopExit :=
  let? c0 := panics (index body input) in
  let? first := ok_or (standard_base64_value c0) (ReturnNone body) in
  let? c1 := panics (index body (input + 1)) in
  let? second := ok_or (standard_base64_value c1) (ReturnNone body) in
  let? c2 := panics (index body (input + 2)) in
  let? c3 := panics (index body (input + 3)) in
  let third_padding := is_padding c2 in
  let fourth_padding := is_padding c3 in
  let? third := (if third_padding then Ok 0%N else ok_or (standard_base64_value c2) (ReturnNone body)) in
  let? fourth := (if fourth_padding then Ok 0%N else ok_or (standard_base64_value c3) (ReturnNone body)) in
  let? body1 := panics (store body output (u8 (N.lor (shl_u8 first 2) (N.shiftr second 4)))) in
  let? step2 := (if third_padding then Ok (body1, output + 1)
                 else let? b := panics (store body1 (output + 1)
                                  (u8 (N.lor (shl_u8 second 4) (N.shiftr third 2)))) in
                      Ok (b, output + 2)) in
  if fourth_padding then Ok step2
  else let? b := panics (store step2.1 step2.2 (u8 (N.lor (shl_u8 third 6) fourth))) in
       Ok (b, S step2.2).

(** [while input < input_end]. *)
Fixpoint decode_loop (fuel : nat) (body : bytes) (input input_end output : nat)
  : result (bytes * nat) LoopExit :=
  if input_end <=? input then Ok (body, output)
  else
    match fuel with
    | 0 => Err (LoopStuck OutOfFuel)
    | S fuel =>
        let? r := decode_quad body input output in
        decode_loop fuel r.1 (input + 4) input_end r.2
    end.

(** ** The reference: RFC 4648 with padding *)

Definition b64_char (v : N) : ascii :=
  u8 (if v <? 26 then v + 65 else if v <? 52 then v - 26 + 97
      else if v <? 62 then v - 52 + 48 else if v =? 62 then 43 else 47)%N.

Fixpoint b64_encode (payload : bytes) : bytes :=
  match payload with
  | a :: b :: c :: rest =>
      let '(x, y, z) := (byte_val a, byte_val b, byte_val c) in
      b64_char (x / 4) :: b64_char (x mod 4 * 16 + y / 16) ::
      b64_char (y mod 16 * 4 + z / 64) :: b64_char (z mod 64) :: b64_encode rest
  | [a; b] =>
      let '(x, y) := (byte_val a, byte_val b) in
      [b64_char (x / 4); b64_char (x mod 4 * 16 + y / 16); b64_char (y mod 16 * 4); EQUALS]
  | [a] =>
      let x := byte_val a in
      [b64_char (x / 4); b64_char (x mod 4 * 16); EQUALS; EQUALS]
  | [] => []
  end%N.

(** ** Laws of the alphabet *)

Lemma base64_value_spec c v :
  standard_base64_value c = Some v -> (v < 64)%N /\ c = b64_char v.
Proof.
  assert (H : match standard_base64_value c with
              | Some v => (v < 64)%N /\ c = b64_char v | None => True end).
  { destruct c as [[] [] [] [] [] [] [] []]; vm_compute; auto. }
  intros E. by rewrite E in H.
Qed.

Definition below (n : nat) : list N := map N.of_nat (seq 0 n).

Lemma below_elem n v : (v < N.of_nat n)%N -> v ∈ below n.
Proof.
  intros H. unfold below. apply list_elem_of_fmap. exists (N.to_nat v).
  split; [lia|]. apply elem_of_seq. lia.
Qed.

Lemma base64_char_value v : (v < 64)%N -> standard_base64_value (b64_char v) = Some v.
Proof.
  intros H. assert (Hb : forallb (fun v => bool_decide (standard_base64_value (b64_char v) = Some v))
    (below 64) = true) by (by vm_compute).
  rewrite forallb_elem in Hb. by eapply bool_decide_eq_true, Hb, (below_elem 64).
Qed.

Lemma base64_char_padding v : (v < 64)%N -> is_padding (b64_char v) = false.
Proof.
  intros H. apply bool_decide_eq_false. intros E.
  pose proof (base64_char_value v H) as Hv. by rewrite E in Hv.
Qed.

(** The shifts of one round, as arithmetic on the values of the characters. *)
Lemma pack_bits v w : (v < 64)%N -> (w < 64)%N ->
  N.lor (shl_u8 v 2) (N.shiftr w 4) = (v * 4 + w / 16)%N /\
  N.lor (shl_u8 v 4) (N.shiftr w 2) = (v mod 16 * 16 + w / 4)%N /\
  N.lor (shl_u8 v 6) w = (v mod 4 * 64 + w)%N.
Proof.
  intros Hv Hw.
  assert (Hb : forallb (fun v => forallb (fun w =>
    (N.lor (shl_u8 v 2) (N.shiftr w 4) =? v * 4 + w / 16)%N &&
    (N.lor (shl_u8 v 4) (N.shiftr w 2) =? v mod 16 * 16 + w / 4)%N &&
    (N.lor (shl_u8 v 6) w =? v mod 4 * 64 + w)%N) (below 64)) (below 64) = true) by (by vm_compute).
  rewrite forallb_elem in Hb. specialize (Hb v (below_elem 64 v Hv)).
  rewrite forallb_elem in Hb. specialize (Hb w (below_elem 64 w Hw)).
  rewrite !andb_true_iff, !N.eqb_eq in Hb. tauto.
Qed.

(** ** The loop decodes over its own input *)

(** The buffer after [bs] was written at [o]. *)
Definition overwrite (o : nat) (bs body : bytes) : bytes :=
  take o body ++ bs ++ drop (o + length bs) body.

Lemma overwrite_length o bs body :
  o + length bs <= length body -> length (overwrite o bs body) = length body.
Proof.
  intros H. unfold overwrite. rewrite !length_app, length_take, length_drop. lia.
Qed.

Lemma overwrite_store o bs body b :
  o + length bs < length body ->
  store (overwrite o bs body) (o + length bs) b = Ok (overwrite o (bs ++ [b]) body).
Proof.
  intros H. rewrite store_lt by (rewrite overwrite_length; lia). f_equal.
  unfold overwrite. rewrite app_assoc.
  assert (E : length (take o body ++ bs) = o + length bs) by (rewrite length_app, length_take; lia).
  rewrite insert_app_r_alt by lia. rewrite E, Nat.sub_diag, !length_app. simpl.
  destruct (drop (o + length bs) body) as [|d rest] eqn:Ed.
  { apply (f_equal length) in Ed. rewrite length_drop in Ed. simpl in Ed. lia. }
  simpl. rewrite <- !app_assoc. simpl. do 3 f_equal.
  rewrite Nat.add_1_r, Nat.add_succ_r. change rest with (drop 1 (d :: rest)).
  rewrite <- Ed, drop_drop. f_equal. lia.
Qed.

Lemma overwrite_nil o body : overwrite o [] body = body.
Proof. unfold overwrite. simpl. by rewrite Nat.add_0_r, take_drop. Qed.

Lemma overwrite_take o bs body k :
  o + length bs <= length body -> k = o + length bs ->
  take k (overwrite o bs body) = take o body ++ bs.
Proof.
  intros H ->. unfold overwrite. rewrite app_assoc. apply take_app_length'.
  rewrite length_app, length_take. lia.
Qed.

Lemma overwrite_drop o bs body k :
  o + length bs <= k -> o <= length body -> drop k (overwrite o bs body) = drop k body.
Proof.
  intros H Ho. unfold overwrite. rewrite app_assoc, drop_app_ge.
  - rewrite length_app, length_take, drop_drop. f_equal. lia.
  - rewrite length_app, length_take. lia.
Qed.

Lemma first_store o body b :
  o < length body -> store body o b = Ok (overwrite o [b] body).
Proof.
  intros H. pose proof (overwrite_store o [] body b) as E. rewrite overwrite_nil in E.
  simpl in E. rewrite Nat.add_0_r in E. by apply E.
Qed.

Lemma index_drop body i k c : drop i body !! k = Some c -> index body (i + k) = Ok c.
Proof. rewrite lookup_drop. apply index_ok. Qed.

Lemma at_input body i (q rest : bytes) k c :
  drop i body = q ++ rest -> q !! k = Some c -> index body (i + k) = Ok c.
Proof. intros E Hk. apply index_drop. rewrite E. by apply lookup_app_l_Some. Qed.

Lemma at_input_0 body i (q rest : bytes) c :
  drop i body = q ++ rest -> q !! 0 = Some c -> index body i = Ok c.
Proof. intros E H. rewrite <- (Nat.add_0_r i). by eapply at_input. Qed.

(** The group of characters that stands for one to three payload bytes. *)
Definition is_group (q p : bytes) : Prop := q = b64_encode p /\ 1 <= length p <= 3.

Lemma byte_arith_3 x y z : (x < 256 -> y < 256 -> z < 256 ->
  x / 4 * 4 + (x mod 4 * 16 + y / 16) / 16 = x /\
  (x mod 4 * 16 + y / 16) mod 16 * 16 + (y mod 16 * 4 + z / 64) / 4 = y /\
  (y mod 16 * 4 + z / 64) mod 4 * 64 + z mod 64 = z /\
  x / 4 < 64 /\ x mod 4 * 16 + y / 16 < 64 /\ y mod 16 * 4 + z / 64 < 64 /\ z mod 64 < 64)%N.
Proof.
  intros Hx Hy Hz.
  assert (y / 16 < 16)%N by (apply N.Div0.div_lt_upper_bound; lia).
  assert (z / 64 < 4)%N by (apply N.Div0.div_lt_upper_bound; lia).
  assert (x / 4 < 64)%N by (apply N.Div0.div_lt_upper_bound; lia).
  pose proof (N.mod_lt x 4 ltac:(done)). pose proof (N.mod_lt y 16 ltac:(done)).
  pose proof (N.mod_lt z 64 ltac:(done)).
  rewrite !N.div_add_l by done. rewrite (N.div_small (y / 16)), (N.div_small (z / 64)) by done.
  rewrite !(N.add_comm (_ * _) (_ / _)), !N.Div0.mod_add, (N.mod_small (y / 16)), (N.mod_small (z / 64)) by done.
  pose proof (N.div_mod x 4 ltac:(done)). pose proof (N.div_mod y 16 ltac:(done)).
  pose proof (N.div_mod z 64 ltac:(done)). repeat split; lia.
Qed.

Ltac read_four E :=
  rewrite (at_input_0 _ _ _ _ _ E eq_refl), (at_input _ _ _ _ 1 _ E eq_refl),
    (at_input _ _ _ _ 2 _ E eq_refl), (at_input _ _ _ _ 3 _ E eq_refl); cbn [panics map_err result_bind].

Lemma padding_equals : is_padding EQUALS = true.
Proof. done. Qed.

Lemma u8_byte_val c : u8 (byte_val c) = c.
Proof. apply ascii_N_embedding. Qed.

(** One round replaces the bytes at [output] by the payload of the group. *)
Lemma decode_quad_group q p body input output rest :
  is_group q p -> drop input body = q ++ rest -> output <= input ->
  decode_quad body input output = Ok (overwrite output p body, output + length p).
Proof.
  intros [-> Hp] E Ho.
  assert (Hl : input + 4 <= length body).
  { apply (f_equal length) in E. rewrite length_drop, length_app in E.
    destruct p as [|a [|b [|c [|]]]]; simpl in Hp, E; lia. }
  destruct p as [|a [|b [|c [|]]]]; simpl in Hp; try lia; unfold decode_quad; cbn [b64_encode] in E;
    read_four E.
  - destruct (byte_arith_3 (byte_val a) 0 0) as (Ex&_&_&H1&H2&_); [apply byte_val_lt|done..|].
    rewrite N.Div0.div_0_l, N.add_0_r in *.
    rewrite !base64_char_value by done. cbn [ok_or result_bind].
    rewrite padding_equals. cbn [result_bind].
    rewrite first_store by lia. cbn [map_err result_bind panics].
    rewrite (proj1 (pack_bits _ _ H1 H2)), Ex, u8_byte_val. done.
  - destruct (byte_arith_3 (byte_val a) (byte_val b) 0) as (Ex&Ey&_&H1&H2&H3&_);
      [apply byte_val_lt..|done|].
    rewrite (N.Div0.div_0_l 64), N.add_0_r in *.
    rewrite base64_char_padding, !base64_char_value by done. cbn [ok_or result_bind].
    rewrite padding_equals. cbn [result_bind].
    rewrite first_store by lia. cbn [map_err result_bind panics].
    rewrite (overwrite_store _ [_]) by (simpl; lia). cbn [map_err result_bind panics app].
    rewrite (proj1 (pack_bits _ _ H1 H2)), (proj1 (proj2 (pack_bits _ _ H2 H3))), Ex, Ey, !u8_byte_val.
    done.
  - destruct (byte_arith_3 (byte_val a) (byte_val b) (byte_val c)) as (Ex&Ey&Ez&H1&H2&H3&H4);
      [apply byte_val_lt..|].
    rewrite !base64_char_padding, !base64_char_value by done. cbn [ok_or result_bind].
    rewrite first_store by lia. cbn [map_err result_bind panics].
    rewrite (overwrite_store _ [_]) by (simpl; lia). cbn [map_err result_bind panics app fst snd].
    rewrite (overwrite_store _ [_; _]) by (simpl; lia). cbn [map_err result_bind panics app].
    rewrite (proj1 (pack_bits _ _ H1 H2)), (proj1 (proj2 (pack_bits _ _ H2 H3))),
      (proj2 (proj2 (pack_bits _ _ H3 H4))), Ex, Ey, Ez, !u8_byte_val.
    simpl. do 2 f_equal. lia.
Qed.

Lemma b64_encode_split p :
  p = [] \/ exists q r, p = q ++ r /\ 1 <= length q <= 3 /\ length r < length p /\
    b64_encode p = b64_encode q ++ b64_encode r /\ length (b64_encode q) = 4.
Proof.
  destruct p as [|a [|b [|c r]]]; [by left|right..].
  - exists [a], []. simpl. repeat split; lia.
  - exists [a; b], []. simpl. repeat split; lia.
  - exists [a; b; c], r. simpl. repeat split; lia.
Qed.

(** The loop, run over a whole encoding, leaves the payload at the front of
    the buffer: no round overwrites a character that is still to be read. *)
Lemma decode_loop_encoded p : forall fuel body input output rest,
  drop input body = b64_encode p ++ rest -> output <= input -> input <= length body ->
  length p <= fuel ->
  exists body',
    decode_loop fuel body input (input + length (b64_encode p)) output
      = Ok (body', output + length p) /\
    length body' = length body /\ take (output + length p) body' = take output body ++ p.
Proof.
  induction p as [p IH] using (induction_ltof1 _ (@length ascii)). unfold ltof in IH.
  intros fuel body input output rest E Ho Hi Hf.
  destruct (b64_encode_split p) as [->|(q & r & -> & Hq & Hr & Ee & El)].
  { exists body. simpl. rewrite !Nat.add_0_r, app_nil_r.
    unfold decode_loop. destruct fuel; rewrite (proj2 (Nat.leb_le _ _)) by lia; done. }
  rewrite Ee, <- app_assoc in E. rewrite length_app in Hr, Hf.
  assert (Hb : length body = input + 4 + length (b64_encode r ++ rest)).
  { apply (f_equal length) in E. rewrite length_drop, length_app in E. lia. }
  destruct fuel as [|fuel]; [lia|]. cbn [decode_loop].
  rewrite Ee, length_app, (proj2 (Nat.leb_gt _ _)) by lia.
  rewrite (decode_quad_group _ q _ _ _ _ (conj eq_refl Hq) E Ho). cbn [result_bind fst snd].
  destruct (IH r ltac:(rewrite length_app; lia) fuel (overwrite output q body) (input + 4)
    (output + length q) rest) as (body' & Hd & Hl & Ht).
  - rewrite overwrite_drop, <- drop_drop, E by lia. by rewrite drop_app_length' by lia.
  - lia.
  - rewrite overwrite_length; lia.
  - lia.
  - exists body'. rewrite El, length_app, Nat.add_assoc, (Nat.add_assoc output) in *.
    split; [exact Hd|]. rewrite overwrite_length in Hl by lia. split; [done|].
    rewrite Ht, overwrite_take by lia. by rewrite <- app_assoc.
Qed.

(** ** Validation accepts exactly the encodings *)

Definition clean_tail (vs : list N) (pad : nat) : Prop :=
  match pad with
  | 0 => True
  | 1 => exists v, last vs = Some v /\ N.land v 3 = 0%N
  | _ => exists v, last vs = Some v /\ N.land v 15 = 0%N
  end.

Definition shape (data : bytes) (vs : list N) (pad k : nat) : Prop :=
  data = map b64_char vs ++ repeat EQUALS pad /\ Forall (fun v => v < 64)%N vs /\
  length vs + pad = 4 * k /\ pad <= 2 /\ clean_tail vs pad.

Lemma land_low v : N.land v 3 = (v mod 4)%N /\ N.land v 15 = (v mod 16)%N.
Proof. split; [apply (N.land_ones v 2)|apply (N.land_ones v 4)]. Qed.

Lemma sextets v1 v2 v3 v4 : (v1 < 64 -> v2 < 64 -> v3 < 64 -> v4 < 64 ->
  let x := v1 * 4 + v2 / 16 in let y := v2 mod 16 * 16 + v3 / 4 in let z := v3 mod 4 * 64 + v4 in
  x < 256 /\ y < 256 /\ z < 256 /\ x / 4 = v1 /\ x mod 4 * 16 + y / 16 = v2 /\
  y mod 16 * 4 + z / 64 = v3 /\ z mod 64 = v4)%N.
Proof.
  intros H1 H2 H3 H4 x y z. unfold x, y, z.
  assert (v2 / 16 < 4)%N by (apply N.Div0.div_lt_upper_bound; lia).
  assert (v3 / 4 < 16)%N by (apply N.Div0.div_lt_upper_bound; lia).
  pose proof (N.mod_lt v2 16 ltac:(done)). pose proof (N.mod_lt v3 4 ltac:(done)).
  rewrite !N.div_add_l by done.
  rewrite (N.div_small (v2 / 16)), (N.div_small (v3 / 4)), (N.div_small v4) by done.
  rewrite !(N.add_comm (_ * 4) (_ / _)), !(N.add_comm (_ * 16) (_ / 4)),
    !(N.add_comm (_ * 64) v4), !N.Div0.mod_add.
  rewrite (N.mod_small (v2 / 16)), (N.mod_small (v3 / 4)), (N.mod_small v4) by done.
  pose proof (N.div_mod v2 16 ltac:(done)). pose proof (N.div_mod v3 4 ltac:(done)).
  repeat split; lia.
Qed.

Lemma byte_val_u8 n : (n < 256)%N -> byte_val (u8 n) = n.
Proof. apply N_ascii_embedding. Qed.

(** Every canonical sequence of characters encodes some payload. *)
Lemma shape_encodes k : forall data vs pad,
  shape data vs pad k -> exists p, data = b64_encode p /\ length p + pad = 3 * k.
Proof.
  induction k as [|k IH]; intros data vs pad (->&Hv&Hl&Hp&Ht).
  { destruct vs; [|simpl in Hl; lia]. destruct pad; [|simpl in Hl; lia]. by exists []. }
  destruct vs as [|v1 [|v2 [|v3 [|v4 vs]]]]; simpl in Hl; try lia.
  - destruct pad as [|[|[|]]]; try lia. destruct Ht as (v & [= <-] & Hv2).
    apply Forall_cons in Hv as [H1 Hv]. apply Forall_cons in Hv as [H2 _].
    rewrite (proj2 (land_low v2)) in Hv2.
    destruct (sextets v1 v2 0 0 H1 H2) as (Hx & _ & _ & E1 & E2 & _ & _); [done..|].
    exists [u8 (v1 * 4 + v2 / 16)]. split; [|simpl; lia]. cbn [b64_encode].
    rewrite byte_val_u8 by done. rewrite Hv2, N.mul_0_l, N.add_0_l in E2.
    rewrite !N.Div0.div_0_l, N.add_0_r in E2. by rewrite E1, E2.
  - destruct pad as [|[|]]; try lia. destruct Ht as (v & [= <-] & Hv3).
    rewrite !Forall_cons in Hv. destruct Hv as (H1 & H2 & H3 & _).
    rewrite (proj1 (land_low v3)) in Hv3.
    destruct (sextets v1 v2 v3 0 H1 H2 H3) as (Hx & Hy & _ & E1 & E2 & E3 & _); [done|].
    exists [u8 (v1 * 4 + v2 / 16); u8 (v2 mod 16 * 16 + v3 / 4)]. split; [|simpl; lia].
    cbn [b64_encode]. rewrite !byte_val_u8 by done.
    rewrite Hv3 in E3. rewrite N.mul_0_l, N.add_0_l, N.Div0.div_0_l, N.add_0_r in E3.
    by rewrite E1, E2, E3.
  - rewrite !Forall_cons in Hv. destruct Hv as (H1 & H2 & H3 & H4 & Hv).
    destruct (IH (map b64_char vs ++ repeat EQUALS pad) vs pad) as (p & Ep & Hlp).
    { split; [done|]. split; [done|]. split; [lia|]. split; [done|].
      destruct pad as [|[|pad]]; [done|..]; destruct vs; simpl in Hl; try lia; apply Ht. }
    destruct (sextets v1 v2 v3 v4 H1 H2 H3 H4) as (Hx & Hy & Hz & E1 & E2 & E3 & E4).
    exists (u8 (v1 * 4 + v2 / 16) :: u8 (v2 mod 16 * 16 + v3 / 4) :: u8 (v3 mod 4 * 64 + v4) :: p).
    split; [|simpl; lia]. cbn [b64_encode map app]. rewrite !byte_val_u8 by done.
    by rewrite E1, E2, E3, E4, Ep.
Qed.

Lemma encode_shape p : exists vs pad k, shape (b64_encode p) vs pad k /\ length p + pad = 3 * k.
Proof.
  induction p as [p IH] using (induction_ltof1 _ (@length ascii)). unfold ltof in IH.
  destruct p as [|a [|b [|c p]]].
  - exists [], 0, 0. repeat split; simpl; try lia. by constructor.
  - destruct (byte_arith_3 (byte_val a) 0 0) as (_&_&_&H1&H2&_); [apply byte_val_lt|done..|].
    rewrite N.Div0.div_0_l, N.add_0_r in H2.
    exists [byte_val a / 4; byte_val a mod 4 * 16]%N, 2, 1. repeat split; simpl; try lia.
    { by repeat constructor. }
    eexists. split; [done|]. by rewrite (proj2 (land_low _)), N.Div0.mod_mul.
  - destruct (byte_arith_3 (byte_val a) (byte_val b) 0) as (_&_&_&H1&H2&H3&_); [apply byte_val_lt..|done|].
    rewrite (N.Div0.div_0_l 64), N.add_0_r in H3.
    exists [byte_val a / 4; byte_val a mod 4 * 16 + byte_val b / 16; byte_val b mod 16 * 4]%N, 1, 1.
    repeat split; simpl; try lia.
    { by repeat constructor. }
    eexists. split; [done|]. by rewrite (proj1 (land_low _)), N.Div0.mod_mul.
  - destruct (byte_arith_3 (byte_val a) (byte_val b) (byte_val c)) as (_&_&_&H1&H2&H3&H4);
      [apply byte_val_lt..|].
    destruct (IH p ltac:(simpl; lia)) as (vs & pad & k & (E & Hv & Hl & Hp & Ht) & Hk).
    eexists (_ :: _ :: _ :: _ :: vs), pad, (S k). cbn [b64_encode]. rewrite E.
    split; [|simpl; lia]. split; [reflexivity|]. split; [by repeat constructor|].
    split; [simpl; lia|]. split; [done|].
    destruct pad as [|[|pad]]; [done|..]; destruct Ht as (v & Hlast & Hm); exists v;
      (split; [|done]); destruct vs; try done.
Qed.

Lemma count_while_split data : exists c,
  data = c ++ repeat EQUALS (count_while is_padding (rev data)) /\
  forall d, last c = Some d -> is_padding d = false.
Proof.
  induction data as [|x data IH] using rev_ind; [by exists []|].
  rewrite rev_app_distr. simpl. destruct (is_padding x) eqn:Hx.
  - apply bool_decide_eq_true in Hx as ->. destruct IH as (c & E & Hc). exists c. split; [|done].
    rewrite E at 1. rewrite <- app_assoc. f_equal. by rewrite <- repeat_cons.
  - exists (data ++ [x]). split; [by rewrite app_nil_r|].
    intros d. rewrite last_snoc. by intros [= <-].
Qed.

Lemma count_while_repeat n l : count_while is_padding (repeat EQUALS n ++ l) = n + count_while is_padding l.
Proof. induction n; simpl; [done|]. by rewrite IHn. Qed.

Lemma rev_repeat {A} (x : A) n : rev (repeat x n) = repeat x n.
Proof. induction n; simpl; [done|]. by rewrite IHn, <- repeat_cons. Qed.

Lemma count_while_chars vs :
  Forall (fun v => v < 64)%N vs -> count_while is_padding (rev (map b64_char vs)) = 0.
Proof.
  intros Hv. destruct vs as [|v vs _] using rev_ind; [done|].
  rewrite map_app, rev_app_distr. simpl. apply Forall_app in Hv as [_ Hv].
  apply Forall_cons in Hv as [Hv _]. by rewrite base64_char_padding.
Qed.

Lemma last_lookup_pred {A} (l : list A) n : S n = length l -> l !! n = last l.
Proof. intros H. rewrite last_lookup, <- H. done. Qed.

Lemma dirty_tail_shape vs pad mask :
  Forall (fun v => v < 64)%N vs ->
  dirty_tail (map b64_char vs ++ repeat EQUALS pad) (length vs) mask = false <->
  exists v, last vs = Some v /\ N.land v mask = 0%N.
Proof.
  intros Hv. unfold dirty_tail. destruct (length vs) as [|n] eqn:E.
  { destruct vs; [|done]. split; [done|]. by intros (?&?&_). }
  rewrite lookup_app_l by (rewrite length_map; lia).
  rewrite list_lookup_fmap, (last_lookup_pred vs n) by done.
  destruct (last vs) as [v|] eqn:El; cbn [fmap option_fmap option_map mbind option_bind].
  2:{ apply last_None in El. by subst. }
  assert (v < 64)%N. { rewrite Forall_forall in Hv. apply Hv. by apply last_Some_elem_of. }
  rewrite base64_char_value, negb_false_iff, N.eqb_eq by done.
  split; [by eauto|]. by intros (?&[= <-]&?).
Qed.

Lemma values_of content :
  existsb (fun byte => bool_decide (standard_base64_value byte = None)) content = false ->
  exists vs, content = map b64_char vs /\ Forall (fun v => v < 64)%N vs.
Proof.
  induction content as [|c content IH]; [by exists []|]. cbn [existsb].
  intros [Hc Hr]%orb_false_iff. apply bool_decide_eq_false in Hc.
  destruct (IH Hr) as (vs & -> & Hv).
  destruct (standard_base64_value c) as [v|] eqn:Ev; [|done].
  apply base64_value_spec in Ev as [Hlt ->]. exists (v :: vs). split; [done|by constructor].
Qed.

Lemma chars_valid vs : Forall (fun v => v < 64)%N vs ->
  existsb (fun byte => bool_decide (standard_base64_value byte = None)) (map b64_char vs)
  || existsb is_padding (map b64_char vs) = false.
Proof.
  intros Hv. apply orb_false_iff. split; apply existsb_false; intros c (v & -> & Hin)%list_elem_of_fmap;
    rewrite Forall_forall in Hv; specialize (Hv v Hin).
  - by rewrite base64_char_value.
  - by apply base64_char_padding.
Qed.

Lemma div_mul_4 k : 4 * k / 4 = k.
Proof. rewrite Nat.mul_comm. by apply Nat.div_mul. Qed.

(** Validation is the canonical shape. *)
Lemma validated_shape data n :
  validated_standard_base64_len data = Some n <->
  exists vs pad k, shape data vs pad k /\ n = 3 * k - pad.
Proof.
  split.
  - unfold validated_standard_base64_len. intros E.
    destruct (negb _) eqn:Hm; [done|]. apply negb_false_iff, Nat.eqb_eq in Hm.
    destruct (count_while_split data) as (c & Ed & Hc).
    set (pad := count_while is_padding (rev data)) in *.
    destruct (2 <? pad) eqn:Hpad; [done|]. apply Nat.ltb_ge in Hpad.
    assert (Hlen : length data = length c + pad) by (rewrite Ed at 1; by rewrite length_app, repeat_length).
    replace (length data - pad) with (length c) in E by lia.
    assert (Etake : take (length c) data = c) by (rewrite Ed; apply take_app_length).
    rewrite Etake in E. destruct (_ || _) eqn:Hvalid in E; [done|].
    apply orb_false_iff in Hvalid as [Hvalid _].
    destruct (values_of c Hvalid) as (vs & -> & Hv). rewrite length_map in *.
    destruct (_ && _) eqn:H2 in E; [done|]. destruct (_ && _) eqn:H1 in E; [done|].
    destruct (_ <=? _) eqn:Hle in E; [|done]. apply (inj Some) in E as <-.
    destruct (proj1 (Nat.Div0.mod_divides _ _) Hm) as [k Hk].
    exists vs, pad, k. rewrite Hk, div_mul_4. split; [|lia].
    split; [done|]. split; [done|]. split; [lia|]. split; [done|].
    destruct pad as [|[|[|]]]; [done|..|lia]; rewrite Ed in H1, H2;
      [apply andb_false_iff in H1 as [Hd|Hd]|apply andb_false_iff in H2 as [Hd|Hd]];
      try done; by apply dirty_tail_shape in Hd.
  - intros (vs & pad & k & (->&Hv&Hl&Hp&Ht) & ->). unfold validated_standard_base64_len.
    rewrite length_app, length_map, repeat_length, Hl, Nat.mul_comm, Nat.Div0.mod_mul. cbn [Nat.eqb negb].
    rewrite rev_app_distr, rev_repeat, count_while_repeat, count_while_chars, Nat.add_0_r by done.
    rewrite (proj2 (Nat.ltb_ge _ _)) by lia.
    replace (k * 4 - pad) with (length vs) by lia.
    rewrite take_app_length' by (by rewrite length_map). rewrite chars_valid by done.
    rewrite Nat.div_mul, (proj2 (Nat.leb_le _ _)) by lia.
    assert (Hd : forall b, ((pad =? (if b : bool then 2 else 1))
      && dirty_tail (map b64_char vs ++ repeat EQUALS pad) (length vs) (if b then 15 else 3)%N) = false).
    { intros b. apply andb_false_iff. destruct pad as [|[|[|]]]; destruct b; simpl; try tauto; try lia;
        right; by apply (dirty_tail_shape _ 1) || by apply (dirty_tail_shape _ 2). }
    rewrite (Hd true), (Hd false). f_equal. lia.
Qed.

(** Validation accepts exactly the padded RFC 4648 encodings, and announces
    the length of the payload. *)
Lemma validated_iff data n :
  validated_standard_base64_len data = Some n <-> exists p, data = b64_encode p /\ length p = n.
Proof.
  rewrite validated_shape. split.
  - intros (vs & pad & k & Hs & ->). destruct (shape_encodes _ _ _ _ Hs) as (p & -> & Hp).
    exists p. split; [done|lia].
  - intros (p & -> & <-). destruct (encode_shape p) as (vs & pad & k & Hs & Hp).
    exists vs, pad, k. split; [done|]. lia.
Qed.

Lemma b64_encode_length p : length p <= length (b64_encode p).
Proof.
  induction p as [p IH] using (induction_ltof1 _ (@length ascii)). unfold ltof in IH.
  destruct p as [|a [|b [|c p]]]; simpl; try lia.
  specialize (IH p ltac:(simpl; lia)). lia.
Qed.
