(* ===== verification/RpcDecoder.v ===== *)
(** * The streaming frame decoder (haider-rpc uds_codec.rs)

    The decoder of the Unix-socket transport: a state machine over arbitrary
    read chunks that collects a four-byte prefix, then a body of the announced
    length, and hands each completed body to the negotiated codec.  A violation
    poisons it for good.  The connection loops are [push] (clients) and the
    daemon's own loop over [push_one] ([drain]).

    [zeroize] of a buffer that is dropped at once has no effect on the values
    modelled here and is left out; so is the branch of [push_one] after
    [mem::replace] that the pattern of its own [match] excludes. *)

From S2P Require Import Prelude RustStr Digest ByteBuf RpcCodec BinaryArtifact RpcBase64.

Local Open Scope res_scope.

Definition PREFIX_LEN : nat := 4.
Definition WIRE_PROTOCOL_VERSION : N := 1.

(** ** Data *)

Inductive DecodeState :=
  | Prefix (buffer : bytes) (filled : nat)
  | Body (announced_len : N) (buffer : bytes)
  | Poisoned.

Record InPlaceArtifactPut := { ap_request_id : string; ap_bytes : bytes }.
#[export] Instance InPlaceArtifactPut_eq_dec : EqDecision InPlaceArtifactPut.
Proof. solve_decision. Defined.

(** [BorrowedDecodedArtifactPutRequest] and its body: the strings it borrows
    from the input; for [data_base64] the address relative to the start of the
    input, and the length. *)
Record ArtifactPutView := {
  v_version : N;
  v_kind : string;
  v_request_id : string;
  v_method : string;
  v_data_offset : Z;
  v_data_len : nat
}.

(** The derived borrowing deserializer. *)
Class ArtifactPutReader := read_artifact_put : WireEncoding -> bytes -> option ArtifactPutView.

Record Decoder := {
  d_frame_limit : N;
  d_state : DecodeState;
  d_zeroize_bodies : bool;
  d_encoding : WireEncoding;
  d_in_place : bool;
  d_binary_enabled : bool;
  d_binary_body : bool
}.

(** [[0; PREFIX_LEN]] with nothing filled. *)
Definition at_boundary : DecodeState := Prefix (repeat "000"%char PREFIX_LEN) 0.

Definition set_state (d : Decoder) (s : DecodeState) : Decoder :=
  {| d_frame_limit := d.(d_frame_limit); d_state := s; d_zeroize_bodies := d.(d_zeroize_bodies);
     d_encoding := d.(d_encoding); d_in_place := d.(d_in_place);
     d_binary_enabled := d.(d_binary_enabled); d_binary_body := d.(d_binary_body) |}.

Definition set_binary_body (d : Decoder) (b : bool) : Decoder :=
  {| d_frame_limit := d.(d_frame_limit); d_state := d.(d_state);
     d_zeroize_bodies := d.(d_zeroize_bodies); d_encoding := d.(d_encoding);
     d_in_place := d.(d_in_place); d_binary_enabled := d.(d_binary_enabled); d_binary_body := b |}.

(** ** Construction *)

Definition Decoder_make (frame_limit : N) (zeroize in_place : bool) (encoding : WireEncoding) : Decoder :=
  {| d_frame_limit := frame_limit; d_state := at_boundary; d_zeroize_bodies := zeroize;
     d_encoding := encoding; d_in_place := in_place;
     d_binary_enabled := false; d_binary_body := false |}.

Definition Decoder_new (limit : N) : Decoder := Decoder_make limit false false Json.
Definition Decoder_new_zeroizing (limit : N) : Decoder := Decoder_make limit true false Json.
Definition Decoder_new_zeroizing_artifact_put (limit : N) : Decoder := Decoder_make limit true true Json.
Definition Decoder_new_with_encoding (limit : N) (encoding : WireEncoding) : Decoder :=
  Decoder_make limit false false encoding.
Definition Decoder_new_zeroizing_with_encoding (limit : N) (encoding : WireEncoding) : Decoder :=
  Decoder_make limit true false encoding.

Definition is_poisoned (d : Decoder) : bool :=
  match d.(d_state) with Poisoned => true | _ => false end.

Definition poison (d : Decoder) : Decoder := set_state d Poisoned.

(** [matches!(&self.state, DecodeState::Prefix { filled: 0, .. })]. *)
Definition is_boundary (d : Decoder) : bool :=
  match d.(d_state) with Prefix _ 0 => true | _ => false end.

Definition set_encoding (d : Decoder) (encoding : WireEncoding) : Decoder :=
  if is_boundary d then
    {| d_frame_limit := d.(d_frame_limit); d_state := d.(d_state);
       d_zeroize_bodies := d.(d_zeroize_bodies); d_encoding := encoding;
       d_in_place := d.(d_in_place); d_binary_enabled := d.(d_binary_enabled);
       d_binary_body := d.(d_binary_body) |}
  else poison d.

Definition set_binary_artifacts (d : Decoder) (enabled : bool) : Decoder :=
  if is_boundary d then
    {| d_frame_limit := d.(d_frame_limit); d_state := d.(d_state);
       d_zeroize_bodies := d.(d_zeroize_bodies); d_encoding := d.(d_encoding);
       d_in_place := d.(d_in_place); d_binary_enabled := enabled;
       d_binary_body := d.(d_binary_body) |}
  else poison d.

(** ** [artifact.put] in place *)

(** The request id, where the base64 data starts and how long it is, and the
    length it decodes to. *)
Definition locate_artifact_put `{ArtifactPutReader} (body : bytes) (encoding : WireEncoding)
  : option (string * nat * nat * nat) :=
  match read_artifact_put encoding body with
  | None => None
  | Some request =>
      if negb (request.(v_version) =? WIRE_PROTOCOL_VERSION)%N
         || negb (String.eqb request.(v_kind) "request"%string)
         || negb (String.eqb request.(v_method) "artifact.put"%string)
      then None
      else if (request.(v_data_offset) <? 0)%Z then None
      else
        let data_start := Z.to_nat request.(v_data_offset) in
        let data_len := request.(v_data_len) in
        if length body <? data_start + data_len then None
        else
          match validated_standard_base64_len (take data_len (drop data_start body)) with
          | None => None
          | Some decoded_len => Some (request.(v_request_id), data_start, data_len, decoded_len)
          end
  end.

(** The returned buffer is what [&mut Vec<u8>] holds afterwards. *)
Definition decode_artifact_put_in_place `{ArtifactPutReader} (body : bytes) (encoding : WireEncoding)
  : result (option InPlaceArtifactPut * bytes) Stuck :=
  match locate_artifact_put body encoding with
  | None => Ok (None, body)
  | Some (request_id, data_start, data_len, decoded_len) =>
      match decode_loop (S data_len) body data_start (data_start + data_len) 0 with
      | Err (LoopStuck stuck) => Err stuck
      | Err (ReturnNone body) => Ok (None, body)
      | Ok (body, output) =>
          if negb (output =? decoded_len) then Ok (None, body)
          else Ok (Some {| ap_request_id := request_id; ap_bytes := take decoded_len body |}, [])
      end
  end.

Section Decoding.
Context `{Allocator} {WireFrame : Type} `{Serde WireFrame} `{ArtifactPutReader}.

Record DecodeStep := {
  s_frame : option WireFrame;
  s_artifact_put : option InPlaceArtifactPut;
  s_binary_artifact : option BinaryFrame;
  s_consumed : nat;
  s_error : option CodecError
}.

Record DecodeBatch := {
  b_frames : list WireFrame;
  b_artifact_puts : list InPlaceArtifactPut;
  b_binary_artifacts : list BinaryFrame;
  b_error : option CodecError
}.

Definition step_none (consumed : nat) : DecodeStep := {| s_frame := None; s_artifact_put := None;
  s_binary_artifact := None; s_consumed := consumed; s_error := None |}.
Definition step_frame (f : WireFrame) (consumed : nat) : DecodeStep := {| s_frame := Some f;
  s_artifact_put := None; s_binary_artifact := None; s_consumed := consumed; s_error := None |}.
Definition step_artifact (a : InPlaceArtifactPut) (consumed : nat) : DecodeStep := {| s_frame := None;
  s_artifact_put := Some a; s_binary_artifact := None; s_consumed := consumed; s_error := None |}.
Definition step_binary (b : BinaryFrame) (consumed : nat) : DecodeStep := {| s_frame := None;
  s_artifact_put := None; s_binary_artifact := Some b; s_consumed := consumed; s_error := None |}.
Definition step_error (e : CodecError) (consumed : nat) : DecodeStep := {| s_frame := None;
  s_artifact_put := None; s_binary_artifact := None; s_consumed := consumed; s_error := Some e |}.

(** ** One step *)

Definition start_body (announced_len : N) : ST Decoder CodecError unit := fun d =>
  let binary := negb (N.land announced_len PREFIX_FLAG =? 0)%N in
  let d := set_binary_body d binary in
  if binary && negb d.(d_binary_enabled) then (Err InvalidBinaryFrame, poison d)
  else
    let announced_len := N.ldiff announced_len PREFIX_FLAG in
    if binary && (MAX_FRAME_BYTES <? announced_len)%N
    then (Err (FrameLimitExceeded MAX_FRAME_BYTES (Some announced_len)), poison d)
    else if (announced_len =? 0)%N then (Err EmptyFrame, set_state d Poisoned)
    else if (d.(d_frame_limit) <? announced_len)%N
    then (Err (FrameLimitExceeded d.(d_frame_limit) (Some announced_len)), set_state d Poisoned)
    else if negb (try_reserve announced_len)
    then (Err (AllocationFailed announced_len), set_state d Poisoned)
    else (Ok tt, set_state d (Body announced_len [])).

(** The typed decode of a complete body. *)
Definition decode_frame (d : Decoder) (body : bytes) : result WireFrame CodecError :=
  match d.(d_encoding) with
  | Json => if utf8_valid body then decode_json body d.(d_frame_limit) else Err InvalidUtf8
  | MessagePack => decode_msgpack body d.(d_frame_limit)
  end.

(** The tail of the [Body] arm: [d] is already back at the prefix boundary. *)
Definition complete_body (d : Decoder) (body : bytes) (consumed : nat)
  : result (DecodeStep * Decoder) Stuck :=
  if d.(d_binary_body) then
    match binary_decode body with
    | Ok frame => Ok (step_binary frame consumed, d)
    | Err error => Ok (step_error error consumed, poison d)
    end
  else
    let? in_place := (if d.(d_in_place) then decode_artifact_put_in_place body d.(d_encoding)
                      else Ok (None, body)) in
    match in_place with
    | (Some artifact_put, _) => Ok (step_artifact artifact_put consumed, d)
    | (None, body) =>
        match decode_frame d body with
        | Ok frame => Ok (step_frame frame consumed, d)
        | Err error => Ok (step_error error consumed, poison d)
        end
    end.

Inductive Iteration := Continue (d : Decoder) (consumed : nat) | Return (step : DecodeStep) (d : Decoder).

(** One round of [while consumed < chunk.len()]. *)
Definition push_round (d : Decoder) (chunk : bytes) (consumed : nat) : result Iteration Stuck :=
  match d.(d_state) with
  | Prefix buffer filled =>
      let? remaining := sub_usize PREFIX_LEN filled in
      let? available := sub_usize (length chunk) consumed in
      let count := Nat.min remaining available in
      let? part := slice chunk consumed (consumed + count) in
      let? buffer := copy_from_slice buffer filled (filled + count) part in
      let filled := filled + count in
      let consumed := consumed + count in
      let d := set_state d (Prefix buffer filled) in
      if filled =? PREFIX_LEN then
        match start_body (from_be buffer) d with
        | (Err error, d) => Ok (Return (step_error error consumed) d)
        | (Ok _, d) => Ok (Continue d consumed)
        end
      else Ok (Continue d consumed)
  | Body announced_len buffer =>
      if (announced_len <? blen buffer)%N then Err Panic else
      let remaining := (announced_len - blen buffer)%N in
      let? available := sub_usize (length chunk) consumed in
      let count := N.to_nat (N.min remaining (N.of_nat available)) in
      let? part := slice chunk consumed (consumed + count) in
      let buffer := (buffer ++ part)%list in
      let consumed := consumed + count in
      if (blen buffer =? announced_len)%N then
        let? r := complete_body (set_state d at_boundary) buffer consumed in
        Ok (Return r.1 r.2)
      else Ok (Continue (set_state d (Body announced_len buffer)) consumed)
  | Poisoned => Ok (Return (step_error DecoderPoisoned consumed) d)
  end.

Fixpoint push_rounds (fuel : nat) (d : Decoder) (chunk : bytes) (consumed : nat)
  : result (DecodeStep * Decoder) Stuck :=
  if length chunk <=? consumed then Ok (step_none consumed, d)
  else
    match fuel with
    | 0 => Err OutOfFuel
    | S fuel =>
        let? r := push_round d chunk consumed in
        match r with
        | Return step d => Ok (step, d)
        | Continue d consumed => push_rounds fuel d chunk consumed
        end
    end.

Definition push_one (d : Decoder) (chunk : bytes) : result (DecodeStep * Decoder) Stuck :=
  if is_poisoned d then Ok (step_error DecoderPoisoned 0, d)
  else push_rounds (length chunk) d chunk 0.

(** ** The loops over it *)

Definition finish_batch (d : Decoder) (frames : list WireFrame) (binary : list BinaryFrame) : DecodeBatch :=
  if is_poisoned d
  then {| b_frames := frames; b_artifact_puts := []; b_binary_artifacts := [];
          b_error := Some DecoderPoisoned |}
  else {| b_frames := frames; b_artifact_puts := []; b_binary_artifacts := binary; b_error := None |}.

Fixpoint push_loop (fuel : nat) (d : Decoder) (chunk : bytes)
    (frames : list WireFrame) (binary : list BinaryFrame) : result (DecodeBatch * Decoder) Stuck :=
  if bool_decide (chunk = []) then Ok (finish_batch d frames binary, d)
  else
    match fuel with
    | 0 => Err OutOfFuel
    | S fuel =>
        let? r := push_one d chunk in
        let step := r.1 in
        let d := r.2 in
        let? chunk := slice chunk step.(s_consumed) (length chunk) in
        let frames := (frames ++ option_list step.(s_frame))%list in
        let binary := (binary ++ option_list step.(s_binary_artifact))%list in
        match step.(s_artifact_put), step.(s_error) with
        | Some artifact_put, error =>
            Ok ({| b_frames := frames; b_artifact_puts := [artifact_put];
                   b_binary_artifacts := binary; b_error := error |}, d)
        | None, Some error =>
            Ok ({| b_frames := frames; b_artifact_puts := [];
                   b_binary_artifacts := binary; b_error := Some error |}, d)
        | None, None =>
            if step.(s_consumed) =? 0 then Ok (finish_batch d frames binary, d)
            else push_loop fuel d chunk frames binary
        end
    end.

Definition push (d : Decoder) (chunk : bytes) : result (DecodeBatch * Decoder) Stuck :=
  push_loop (length chunk) d chunk [] [].
(** ** The daemon's read loop (haider-daemon connection.rs)

    [serve_io_with_peer_exit] waits in a [select!] for whatever comes first: a
    read, whose bytes the inner loop [drain] takes apart, or one of the five
    other branches, a [SelectEvent].  A liveness tick carries the clock's
    verdict ([liveness_breach]).  What the connection does with an item or an
    event, whether it then leaves the loop, and the negotiated encoding and
    binary feature are the operations of a [Handler] on the connection's
    state; the pending binary job is part of that state, so a handler may
    treat a binary frame before [JobFinished] unlike one after it, as the
    guard on [binary_job] does. *)
Inductive SelectEvent :=
| JobFinished
| PeerExited
| DrainChanged
| HandshakeDeadline
| LivenessTick (breach : bool).

Inductive Turn := Read (read : bytes) | Other (event : SelectEvent).

Record Handler (S : Type) := {
  on_event : S -> SelectEvent -> S;
  on_binary : S -> BinaryFrame -> S;
  on_artifact : S -> InPlaceArtifactPut -> S;
  on_frame : S -> WireFrame -> S;
  closed : S -> bool;
  negotiated : S -> WireEncoding * bool
}.
Arguments on_event {S}. Arguments on_binary {S}. Arguments on_artifact {S}. Arguments on_frame {S}.
Arguments closed {S}. Arguments negotiated {S}.

Fixpoint drain {S} (h : Handler S) (fuel : nat) (d : Decoder) (st : S) (unread : bytes)
  : result (Decoder * S * option CodecError) Stuck :=
  if bool_decide (unread = []) || h.(closed) st then Ok (d, st, None)
  else
    match fuel with
    | 0 => Err OutOfFuel
    | Datatypes.S fuel =>
        let? r := push_one d unread in
        let step := r.1 in
        let d := r.2 in
        let? unread := slice unread step.(s_consumed) (length unread) in
        let st := match step.(s_binary_artifact) with
                  | Some frame => h.(on_binary) st frame
                  | None => st
                  end in
        let '(st, d) := match step.(s_artifact_put) with
                        | Some put =>
                            let st := h.(on_artifact) st put in
                            (st, if h.(closed) st then d else set_encoding d (h.(negotiated) st).1)
                        | None => (st, d)
                        end in
        let '(st, d) := match step.(s_frame) with
                        | Some frame =>
                            let st := h.(on_frame) st frame in
                            (st, set_binary_artifacts (set_encoding d (h.(negotiated) st).1)
                                   (h.(negotiated) st).2)
                        | None => (st, d)
                        end in
        match step.(s_error) with
        | Some error => Ok (d, st, Some error)
        | None => if step.(s_consumed) =? 0 then Ok (d, st, None) else drain h fuel d st unread
        end
    end.

(** The turns of the [select!] loop, while the connection is not closed; an
    empty read is the end of the input, and a decoding error closes. *)
Fixpoint serve {S} (h : Handler S) (d : Decoder) (st : S) (turns : list Turn)
  : result (Decoder * S * option CodecError) Stuck :=
  if h.(closed) st then Ok (d, st, None)
  else
    match turns with
    | [] | Read [] :: _ => Ok (d, st, None)
    | Read read :: turns =>
        let? r := drain h (length read) d st read in
        let '(d, st, error) := r in
        match error with
        | Some error => Ok (d, st, Some error)
        | None => serve h d st turns
        end
    | Other event :: turns => serve h d (h.(on_event) st event) turns
    end.
End Decoding.

Arguments Handler : clear implicits.
Arguments on_event {WireFrame S}. Arguments on_binary {WireFrame S}. Arguments on_artifact {WireFrame S}. Arguments on_frame {WireFrame S}.
Arguments closed {WireFrame S}. Arguments negotiated {WireFrame S}.
Arguments DecodeStep : clear implicits.
Arguments DecodeBatch : clear implicits.
