(* ===== verification/RpcStream.v ===== *)
(** * The byte stream behind the decoder

    What the streaming decoder promises: it is a parser of the concatenation
    of all chunks it was given, whatever the read boundaries are.  [parse1]
    takes one frame off the front of a byte stream, [parse] all of them; they
    know no partial state.  The decoder is shown to simulate them. *)

From S2P Require Import Prelude RustStr Digest ByteBuf RpcCodec BinaryArtifact RpcBase64 RpcDecoder.

Local Open Scope res_scope.

(** ** Base64, by groups of four over immutable input *)

Definition sextet (c : ascii) : N := default 0%N (standard_base64_value c).

Definition group_bytes (c0 c1 c2 c3 : ascii) : bytes :=
  u8 (sextet c0 * 4 + sextet c1 / 16) ::
  (if is_padding c2 then []
   else u8 (sextet c1 mod 16 * 16 + sextet c2 / 4) ::
        (if is_padding c3 then [] else [u8 (sextet c2 mod 4 * 64 + sextet c3)])).

Fixpoint b64_decode (data : bytes) : bytes :=
  match data with
  | c0 :: c1 :: c2 :: c3 :: rest => group_bytes c0 c1 c2 c3 ++ b64_decode rest
  | _ => []
  end.

Lemma sextet_char v : (v < 64)%N -> sextet (b64_char v) = v.
Proof. intros. unfold sextet. by rewrite base64_char_value. Qed.

(** Decoding inverts the encoder. *)
Lemma b64_decode_encode p : b64_decode (b64_encode p) = p.
Proof.
  induction p as [p IH] using (induction_ltof1 _ (@length ascii)). unfold ltof in IH.
  destruct p as [|a [|b [|c p]]]; [done|..]; cbn [b64_encode b64_decode]; unfold group_bytes.
  - destruct (byte_arith_3 (byte_val a) 0 0) as (Ex&_&_&H1&H2&_); [apply byte_val_lt|done..|].
    rewrite N.Div0.div_0_l, N.add_0_r in *. rewrite padding_equals, !sextet_char, Ex, u8_byte_val by done.
    done.
  - destruct (byte_arith_3 (byte_val a) (byte_val b) 0) as (Ex&Ey&_&H1&H2&H3&_);
      [apply byte_val_lt..|done|].
    rewrite (N.Div0.div_0_l 64), N.add_0_r in *.
    by rewrite padding_equals, base64_char_padding, !sextet_char, Ex, Ey, !u8_byte_val by done.
  - destruct (byte_arith_3 (byte_val a) (byte_val b) (byte_val c)) as (Ex&Ey&Ez&H1&H2&H3&H4);
      [apply byte_val_lt..|].
    rewrite !base64_char_padding, !sextet_char, Ex, Ey, Ez, !u8_byte_val by done.
    rewrite IH; [done|]. simpl. lia.
Qed.

Section Stream.
Context `{Allocator} {WireFrame : Type} `{Serde WireFrame} `{ArtifactPutReader}.

(** What a completed body is delivered as. *)
Inductive Item :=
  | ItemFrame (frame : WireFrame)
  | ItemArtifact (put : InPlaceArtifactPut)
  | ItemBinary (frame : BinaryFrame).


(** The settings of a decoder that stay fixed between negotiations. *)
Record Config := { c_limit : N; c_encoding : WireEncoding; c_in_place : bool; c_binary : bool }.

Definition config (d : Decoder) : Config :=
  {| c_limit := d.(d_frame_limit); c_encoding := d.(d_encoding);
     c_in_place := d.(d_in_place); c_binary := d.(d_binary_enabled) |}.

(** Is it a binary body, and how long is it. *)
Definition header (c : Config) (n : N) : result (bool * N) CodecError :=
  let binary := negb (N.land n PREFIX_FLAG =? 0)%N in
  let size := N.ldiff n PREFIX_FLAG in
  reject_if (binary && negb c.(c_binary)) InvalidBinaryFrame ?;
  reject_if (binary && (MAX_FRAME_BYTES <? size)%N)
    (FrameLimitExceeded MAX_FRAME_BYTES (Some size)) ?;
  reject_if (size =? 0)%N EmptyFrame ?;
  reject_if (c.(c_limit) <? size)%N (FrameLimitExceeded c.(c_limit) (Some size)) ?;
  reject_if (negb (try_reserve size)) (AllocationFailed size) ?;
  Ok (binary, size).

Definition artifact_reference (body : bytes) (encoding : WireEncoding) : option InPlaceArtifactPut :=
  match locate_artifact_put body encoding with
  | None => None
  | Some (request_id, data_start, data_len, _) =>
      Some {| ap_request_id := request_id;
              ap_bytes := b64_decode (take data_len (drop data_start body)) |}
  end.

Definition frame_reference (c : Config) (body : bytes) : result WireFrame CodecError :=
  match c.(c_encoding) with
  | Json => if utf8_valid body then decode_json body c.(c_limit) else Err InvalidUtf8
  | MessagePack => decode_msgpack body c.(c_limit)
  end.

Definition item_of (c : Config) (binary : bool) (body : bytes) : result Item CodecError :=
  if binary then let? frame := binary_decode body in Ok (ItemBinary frame)
  else
    match (if c.(c_in_place) then artifact_reference body c.(c_encoding) else None) with
    | Some put => Ok (ItemArtifact put)
    | None => let? frame := frame_reference c body in Ok (ItemFrame frame)
    end.

Inductive Parsed := Wait | Bad (error : CodecError) | Got (item : Item) (rest : bytes).

Definition parse1 (c : Config) (s : bytes) : Parsed :=
  if length s <? PREFIX_LEN then Wait
  else
    match header c (from_be (take PREFIX_LEN s)) with
    | Err error => Bad error
    | Ok (binary, size) =>
        let rest := drop PREFIX_LEN s in
        if (blen rest <? size)%N then Wait
        else match item_of c binary (take (N.to_nat size) rest) with
             | Err error => Bad error
             | Ok item => Got item (drop (N.to_nat size) rest)
             end
    end.

(** ** The in-place decoder against the reference *)

(** It never panics and never runs out of rounds, it decodes what the
    reference decodes, and when it declines, the buffer is untouched. *)
Lemma in_place_reference body encoding :
  decode_artifact_put_in_place body encoding =
  Ok (match artifact_reference body encoding with
      | Some put => (Some put, [])
      | None => (None, body)
      end).
Proof.
  unfold decode_artifact_put_in_place, artifact_reference.
  destruct (locate_artifact_put body encoding) as [[[[rid ds] dl] n]|] eqn:E; [|done].
  unfold locate_artifact_put in E.
  destruct (read_artifact_put encoding body) as [view|]; [|done].
  destruct (_ || _ || _); [done|]. destruct (_ <? _)%Z; [done|].
  destruct (_ <? _) eqn:Hlen; [done|]. apply Nat.ltb_ge in Hlen.
  destruct (validated_standard_base64_len _) as [k|] eqn:Hv; [|done].
  simplify_eq. apply validated_iff in Hv as (p & Ep & <-).
  assert (Hd : drop (Z.to_nat (v_data_offset view)) body
    = b64_encode p ++ drop (v_data_len view) (drop (Z.to_nat (v_data_offset view)) body)).
  { rewrite <- Ep. by rewrite take_drop. }
  assert (El : length (b64_encode p) = v_data_len view).
  { rewrite <- Ep, length_take, length_drop. lia. }
  pose proof (b64_encode_length p) as Hp.
  destruct (decode_loop_encoded p (S (v_data_len view)) body _ 0 _ Hd ltac:(lia) ltac:(lia) ltac:(lia))
    as (body' & Hl & _ & Ht).
  rewrite El in Hl. rewrite Hl. rewrite Nat.add_0_l, Nat.eqb_refl in *. cbn [negb].
  by rewrite Ht, Ep, b64_decode_encode.
Qed.

(** ** Simulation *)

(** The decoder holds the unfinished input [s]: at most three bytes of a
    prefix, or an accepted prefix and less than its body. *)
Definition holds (d : Decoder) (s : bytes) : Prop :=
  match d.(d_state) with
  | Prefix buffer filled => length buffer = PREFIX_LEN /\ filled < PREFIX_LEN /\ s = take filled buffer
  | Body n buffer =>
      exists h, length h = PREFIX_LEN /\ s = h ++ buffer /\ (blen buffer < n)%N /\
        header (config d) (from_be h) = Ok (d.(d_binary_body), n)
  | Poisoned => False
  end.

(** [start_body] is [header] with its effect on the state. *)
Lemma start_body_header d n :
  match header (config d) n with
  | Ok (binary, size) =>
      start_body n d = (Ok tt, set_state (set_binary_body d binary) (Body size []))
  | Err e => exists b, start_body n d = (Err e, poison (set_binary_body d b))
  end.
Proof.
  unfold start_body, header, reject_if, result_bind. cbn [config c_binary c_limit].
  cbn [set_binary_body d_binary_enabled d_frame_limit].
  repeat case_match; simplify_eq; try done; eauto.
Qed.

Lemma header_size c n binary size : header c n = Ok (binary, size) -> (0 < size <= c.(c_limit))%N.
Proof.
  unfold header. intros E. repeat (apply result_bind_ok in E as (? & ?%reject_if_ok & E)).
  simplify_eq. guards. lia.
Qed.

Lemma parse1_item c h body more binary size :
  length h = PREFIX_LEN -> header c (from_be h) = Ok (binary, size) -> blen body = size ->
  parse1 c ((h ++ body) ++ more) =
  match item_of c binary body with Err e => Bad e | Ok item => Got item more end.
Proof.
  intros Hh Eh Hb. unfold parse1. rewrite <- app_assoc.
  rewrite (proj2 (Nat.ltb_ge _ _)) by (rewrite !length_app; lia).
  rewrite take_app_bytes, drop_app_bytes by done. rewrite Eh.
  rewrite (proj2 (N.ltb_ge _ _)) by (rewrite blen_app; lia).
  assert (N.to_nat size = length body) by (unfold blen in Hb; lia).
  by rewrite take_app_bytes, drop_app_bytes by done.
Qed.

Lemma parse1_bad_header c h more e :
  length h = PREFIX_LEN -> header c (from_be h) = Err e -> parse1 c (h ++ more) = Bad e.
Proof.
  intros Hh Eh. unfold parse1. rewrite (proj2 (Nat.ltb_ge _ _)) by (rewrite length_app; lia).
  by rewrite take_app_bytes, Eh by done.
Qed.

Lemma holds_waits d s : holds d s -> parse1 (config d) s = Wait.
Proof.
  unfold holds. destruct (d_state d) as [buffer filled|n buffer|]; [| |done].
  - intros (Hb & Hf & ->). unfold parse1. rewrite (proj2 (Nat.ltb_lt _ _)); [done|].
    rewrite length_take. lia.
  - intros (h & Hh & -> & Hl & Eh). unfold parse1.
    rewrite (proj2 (Nat.ltb_ge _ _)) by (rewrite length_app; lia).
    rewrite take_app_bytes, drop_app_bytes, Eh by done.
    by rewrite (proj2 (N.ltb_lt _ _)).
Qed.

Definition step_item (item : Item) (consumed : nat) : DecodeStep WireFrame :=
  match item with
  | ItemFrame f => step_frame f consumed
  | ItemArtifact a => step_artifact a consumed
  | ItemBinary b => step_binary b consumed
  end.

(** What a completed body is handed on as. *)
Lemma complete_body_item d body consumed :
  complete_body d body consumed =
  Ok (match item_of (config d) d.(d_binary_body) body with
      | Ok item => (step_item item consumed, d)
      | Err e => (step_error e consumed, poison d)
      end).
Proof.
  unfold complete_body, item_of. destruct (d_binary_body d).
  { by destruct (binary_decode body). }
  cbn [config c_in_place c_encoding]. destruct (d_in_place d); cbn [result_bind].
  - rewrite in_place_reference. cbn [result_bind].
    destruct (artifact_reference body (d_encoding d)); [done|].
    change (decode_frame d body) with (frame_reference (config d) body).
    by destruct (frame_reference (config d) body).
  - change (decode_frame d body) with (frame_reference (config d) body).
    by destruct (frame_reference (config d) body).
Qed.

(** A round either keeps collecting or ends with what [parse1] says of the
    bytes it has then seen, whatever follows them. *)
Definition round_ok (d : Decoder) (s part : bytes) (r : Iteration) (k : nat) : Prop :=
  match r with
  | Continue d' k' => k' = k /\ config d' = config d /\ holds d' (s ++ part)
  | Return step d' =>
      config d' = config d /\
      ((exists e, step = step_error e k /\ is_poisoned d' = true /\
          forall more, parse1 (config d) ((s ++ part) ++ more) = Bad e) \/
       (exists item, step = step_item item k /\ d'.(d_state) = at_boundary /\
          forall more, parse1 (config d) ((s ++ part) ++ more) = Got item more))
  end.

Lemma fill_prefix buffer filled part count :
  length buffer = PREFIX_LEN -> filled + count <= PREFIX_LEN -> length part = count ->
  copy_from_slice buffer filled (filled + count) part
    = Ok (take filled buffer ++ part ++ drop (filled + count) buffer) /\
  take (filled + count) (take filled buffer ++ part ++ drop (filled + count) buffer)
    = take filled buffer ++ part /\
  length (take filled buffer ++ part ++ drop (filled + count) buffer) = PREFIX_LEN.
Proof.
  intros Hb Hc Hp. unfold copy_from_slice. rewrite decide_True by (split_and!; lia).
  split; [done|]. split.
  - rewrite app_assoc. apply take_app_length'. rewrite length_app, length_take. lia.
  - rewrite !length_app, length_take, length_drop. lia.
Qed.

Lemma slice_part (chunk : bytes) consumed count :
  consumed + count <= length chunk ->
  slice chunk consumed (consumed + count) = Ok (take count (drop consumed chunk)) /\
  length (take count (drop consumed chunk)) = count.
Proof.
  intros Hc. split.
  - rewrite slice_prefix by lia. do 2 f_equal. lia.
  - rewrite length_take, length_drop. lia.
Qed.

Lemma prefix_round d s chunk consumed buffer filled :
  d.(d_state) = Prefix buffer filled -> holds d s -> consumed < length chunk ->
  exists r k, push_round d chunk consumed = Ok r /\ consumed < k <= length chunk /\
    round_ok d s (take (k - consumed) (drop consumed chunk)) r k.
Proof.
  intros Es Hs Hc. unfold holds in Hs. rewrite Es in Hs. destruct Hs as (Hb & Hf & ->).
  unfold push_round. rewrite Es, !sub_usize_le by lia. cbn [result_bind].
  set (count := Nat.min (PREFIX_LEN - filled) (length chunk - consumed)).
  assert (Hcount : 0 < count <= length chunk - consumed /\ filled + count <= PREFIX_LEN) by lia.
  destruct (slice_part chunk consumed count ltac:(lia)) as [-> Hp]. cbn [result_bind].
  set (part := take count (drop consumed chunk)) in *.
  destruct (fill_prefix buffer filled part count Hb ltac:(lia) Hp) as (-> & Ht & Hl). cbn [result_bind].
  set (buffer' := take filled buffer ++ part ++ drop (filled + count) buffer) in *.
  destruct (filled + count =? PREFIX_LEN) eqn:Efull.
  - apply Nat.eqb_eq in Efull. rewrite take_ge in Ht by lia.
    pose proof (start_body_header (set_state d (Prefix buffer' (filled + count))) (from_be buffer')) as Hh.
    change (config (set_state d _)) with (config d) in Hh.
    destruct (header (config d) (from_be buffer')) as [[binary size]|e] eqn:Eh.
    + rewrite Hh. eexists _, (consumed + count). split; [reflexivity|]. split; [lia|].
      replace (consumed + count - consumed) with count by lia. fold part. unfold round_ok. rewrite <- Ht.
      split; [done|]. split; [done|]. exists buffer'. rewrite app_nil_r. split; [done|]. split; [done|].
      split; [|done]. apply header_size in Eh. unfold blen; simpl; lia.
    + destruct Hh as [b Hh]. rewrite Hh. eexists _, (consumed + count). split; [reflexivity|].
      split; [lia|]. replace (consumed + count - consumed) with count by lia. fold part. unfold round_ok. rewrite <- Ht.
      split; [done|]. left. exists e. split; [done|]. split; [done|].
      intros more. by apply parse1_bad_header.
  - apply Nat.eqb_neq in Efull. eexists _, (consumed + count). split; [reflexivity|]. split; [lia|].
    replace (consumed + count - consumed) with count by lia. fold part. unfold round_ok. rewrite <- Ht.
    split; [done|]. split; [done|]. split; [done|]. split; [lia|done].
Qed.

Lemma body_round d s chunk consumed n buffer :
  d.(d_state) = Body n buffer -> holds d s -> consumed < length chunk ->
  exists r k, push_round d chunk consumed = Ok r /\ consumed < k <= length chunk /\
    round_ok d s (take (k - consumed) (drop consumed chunk)) r k.
Proof.
  intros Es Hs Hc. unfold holds in Hs. rewrite Es in Hs. destruct Hs as (h & Hh & -> & Hl & Eh).
  unfold push_round. rewrite Es, sub_usize_le by lia. rewrite (proj2 (N.ltb_ge _ _)) by lia.
  cbn [result_bind].
  set (count := N.to_nat (N.min (n - blen buffer) (N.of_nat (length chunk - consumed)))).
  assert (Hcount : 0 < count <= length chunk - consumed) by lia.
  destruct (slice_part chunk consumed count ltac:(lia)) as [-> Hp]. cbn [result_bind].
  set (part := take count (drop consumed chunk)) in *.
  destruct (blen (buffer ++ part) =? n)%N eqn:Efull.
  - apply N.eqb_eq in Efull. rewrite complete_body_item. cbn [result_bind].
    eexists _, (consumed + count). split; [reflexivity|]. split; [lia|].
    replace (consumed + count - consumed) with count by lia. fold part.
    change (config (set_state d at_boundary)) with (config d).
    change (d_binary_body (set_state d at_boundary)) with (d_binary_body d).
    assert (Hparse : forall more, parse1 (config d) (((h ++ buffer) ++ part) ++ more) =
      match item_of (config d) d.(d_binary_body) (buffer ++ part) with
      | Err e => Bad e | Ok item => Got item more end).
    { intros more. rewrite <- (app_assoc h). by eapply parse1_item. }
    destruct (item_of (config d) (d_binary_body d) (buffer ++ part)) as [item|e];
      (split; [done|]); [right; exists item|left; exists e]; done.
  - apply N.eqb_neq in Efull. eexists _, (consumed + count). split; [reflexivity|]. split; [lia|].
    replace (consumed + count - consumed) with count by lia. fold part.
    split; [done|]. split; [done|]. exists h. split; [done|]. split; [by rewrite app_assoc|].
    split; [|done]. rewrite blen_app in *. unfold blen in *. rewrite Hp in *. lia.
Qed.

Lemma push_round_ok d s chunk consumed :
  holds d s -> consumed < length chunk ->
  exists r k, push_round d chunk consumed = Ok r /\ consumed < k <= length chunk /\
    round_ok d s (take (k - consumed) (drop consumed chunk)) r k.
Proof.
  intros Hs Hc. destruct (d_state d) as [buffer filled|n buffer|] eqn:Es.
  - by eapply prefix_round.
  - by eapply body_round.
  - unfold holds in Hs. by rewrite Es in Hs.
Qed.

(** What [push_one] says of the input [s] held before and the chunk offered. *)
Definition step_ok (d d' : Decoder) (s chunk : bytes) (consumed : nat) (step : DecodeStep WireFrame) : Prop :=
  config d' = config d /\
  match parse1 (config d) (s ++ drop consumed chunk) with
  | Wait => step = step_none (length chunk) /\ holds d' (s ++ drop consumed chunk)
  | Bad e => exists k, consumed < k <= length chunk /\ step = step_error e k /\ is_poisoned d' = true
  | Got item rest =>
      exists k, consumed < k <= length chunk /\ step = step_item item k /\
        d'.(d_state) = at_boundary /\ rest = drop k chunk
  end.

Lemma holds_not_poisoned d s : holds d s -> is_poisoned d = false.
Proof. unfold holds, is_poisoned. by destruct (d_state d). Qed.

Lemma push_rounds_ok chunk fuel : forall d s consumed,
  holds d s -> consumed <= length chunk -> length chunk - consumed <= fuel ->
  exists step d', push_rounds fuel d chunk consumed = Ok (step, d') /\ step_ok d d' s chunk consumed step.
Proof.
  induction fuel as [|fuel IH]; intros d s consumed Hs Hc Hf; cbn [push_rounds].
  all: destruct (length chunk <=? consumed) eqn:E;
    [apply Nat.leb_le in E|apply Nat.leb_gt in E; try lia].
  1,2: exists (step_none consumed), d; (split; [done|]); (split; [done|]);
    rewrite drop_ge, app_nil_r by lia; rewrite (holds_waits d s Hs); split; [by f_equal; lia|done].
  destruct (push_round_ok d s chunk consumed Hs E) as (r & k & -> & Hk & Hr). cbn [result_bind].
  set (part := take (k - consumed) (drop consumed chunk)) in *.
  assert (Ed : s ++ drop consumed chunk = (s ++ part) ++ drop k chunk).
  { rewrite <- app_assoc. f_equal. rewrite <- (take_drop (k - consumed) (drop consumed chunk)).
    fold part. f_equal. rewrite drop_drop. f_equal. lia. }
  unfold step_ok. rewrite Ed. destruct r as [d' k'|step d'].
  - destruct Hr as (-> & Hcfg & Hs'). rewrite <- Hcfg.
    destruct (IH d' _ k Hs' ltac:(lia) ltac:(lia)) as (step & d'' & -> & Hcfg' & Hok).
    exists step, d''. split; [done|]. split; [done|].
    destruct (parse1 _ _); try done.
    + destruct Hok as (j & ? & ?). exists j. split; [lia|done].
    + destruct Hok as (j & ? & ?). exists j. split; [lia|done].
  - destruct Hr as [Hcfg [(e & -> & Hp & Hparse)|(item & -> & Hb & Hparse)]];
      rewrite Hparse; eexists _, d'; (split; [reflexivity|]); (split; [done|]); by exists k.
Qed.

Lemma push_one_ok d s chunk :
  holds d s ->
  exists step d', push_one d chunk = Ok (step, d') /\ step_ok d d' s chunk 0 step.
Proof.
  intros Hs. unfold push_one. rewrite (holds_not_poisoned d s Hs).
  apply push_rounds_ok; [done|lia..].
Qed.

(** ** The whole stream *)

Lemma parse1_got_shorter c s item rest : parse1 c s = Got item rest -> length rest < length s.
Proof.
  unfold parse1. repeat case_match; try done. intros [= _ <-].
  rewrite !length_drop. apply Nat.ltb_ge in H2. unfold PREFIX_LEN in *. lia.
Qed.

Lemma parse1_extend c s more :
  match parse1 c s with
  | Wait => True
  | Bad e => parse1 c (s ++ more) = Bad e
  | Got item rest => parse1 c (s ++ more) = Got item (rest ++ more)
  end.
Proof.
  unfold parse1. destruct (length s <? PREFIX_LEN) eqn:E; [done|].
  apply Nat.ltb_ge in E. rewrite (proj2 (Nat.ltb_ge (length (s ++ more)) _)) by (rewrite length_app; lia).
  rewrite take_app_le, drop_app_le by lia.
  destruct (header c _) as [[binary size]|e]; [|done].
  destruct (blen (drop PREFIX_LEN s) <? size)%N eqn:Eb; [done|]. apply N.ltb_ge in Eb.
  rewrite (proj2 (N.ltb_ge (blen (drop PREFIX_LEN s ++ more)) _)) by (rewrite blen_app; lia).
  unfold blen in Eb. rewrite take_app_le, drop_app_le by lia.
  by destruct (item_of c binary _).
Qed.

(** How a byte stream ends: an unfinished rest, a violation, or the reader
    closed the connection. *)
Inductive Ending := Pending (rest : bytes) | Violation (error : CodecError) | Hangup.

(** A reader of the stream: it handles each item, may close, and settles the
    configuration that the next frame is read with. *)
Section Reader.
Context {S : Type} (handle : S -> Item -> S) (closed : S -> bool) (next : Config -> S -> Item -> Config).

Fixpoint stream_fuel (fuel : nat) (c : Config) (st : S) (s : bytes) : S * Config * Ending :=
  if closed st then (st, c, Hangup)
  else
    match fuel with
    | 0 => (st, c, Pending s)
    | Datatypes.S fuel =>
        match parse1 c s with
        | Wait => (st, c, Pending s)
        | Bad error => (st, c, Violation error)
        | Got item rest => let st := handle st item in stream_fuel fuel (next c st item) st rest
        end
    end.

(** Every frame takes at least one byte, so a unit of fuel per byte is enough. *)
Definition stream (c : Config) (st : S) (s : bytes) : S * Config * Ending :=
  stream_fuel (length s) c st s.

Lemma stream_fuel_enough fuel : forall fuel' c st s,
  length s <= fuel -> length s <= fuel' -> stream_fuel fuel c st s = stream_fuel fuel' c st s.
Proof.
  assert (Hnil : forall f c st, stream_fuel f c st [] = if closed st then (st, c, Hangup) else (st, c, Pending [])).
  { by intros [|f] c st; simpl; destruct (closed st). }
  induction fuel as [|fuel IH]; intros fuel' c st s Hf Hf'.
  { destruct s; [by rewrite !Hnil|simpl in Hf; lia]. }
  destruct fuel' as [|fuel']; [destruct s; [by rewrite !Hnil|simpl in Hf'; lia]|].
  cbn [stream_fuel]. destruct (closed st); [done|].
  destruct (parse1 c s) as [|e|item rest] eqn:E; [done..|].
  apply parse1_got_shorter in E. apply IH; lia.
Qed.

(** The equation of [stream]. *)
Lemma stream_eq c st s :
  stream c st s =
  if closed st then (st, c, Hangup)
  else match parse1 c s with
       | Wait => (st, c, Pending s)
       | Bad error => (st, c, Violation error)
       | Got item rest => stream (next c (handle st item) item) (handle st item) rest
       end.
Proof.
  destruct s as [|b s]. { unfold stream. simpl. by destruct (closed st). }
  unfold stream at 1. cbn [length stream_fuel]. destruct (closed st); [done|].
  destruct (parse1 c (b :: s)) as [|e|item rest] eqn:E; [done..|].
  apply parse1_got_shorter in E. simpl in E. apply stream_fuel_enough; lia.
Qed.

(** More input continues where the stream was left. *)
Lemma stream_app c st s more :
  stream c st (s ++ more) =
  match stream c st s with
  | (st', c', Pending rest) => stream c' st' (rest ++ more)
  | other => other
  end.
Proof.
  revert c st. induction s as [s IH] using (induction_ltof1 _ (@length ascii)); unfold ltof in IH.
  intros c st. rewrite (stream_eq c st s). destruct (closed st) eqn:Hcl.
  { by rewrite stream_eq, Hcl. }
  pose proof (parse1_extend c s more) as Hx.
  destruct (parse1 c s) as [|e|item rest] eqn:E; [done|..]; rewrite stream_eq, Hcl, Hx; [done|].
  apply parse1_got_shorter in E. by apply IH.
Qed.
End Reader.

(** ** The daemon's loop *)

Section Serve.
Context {S : Type} (h : Handler WireFrame S).

Definition handle (st : S) (item : Item) : S :=
  match item with
  | ItemFrame f => on_frame h st f
  | ItemArtifact a => on_artifact h st a
  | ItemBinary b => on_binary h st b
  end.

(** A frame settles encoding and binary feature, an artifact only the encoding. *)
Definition renegotiate (c : Config) (st : S) (item : Item) : Config :=
  match item with
  | ItemFrame _ =>
      {| c_limit := c.(c_limit); c_encoding := (negotiated h st).1; c_in_place := c.(c_in_place);
         c_binary := (negotiated h st).2 |}
  | ItemArtifact _ =>
      {| c_limit := c.(c_limit);
         c_encoding := if closed h st then c.(c_encoding) else (negotiated h st).1;
         c_in_place := c.(c_in_place); c_binary := c.(c_binary) |}
  | ItemBinary _ => c
  end.

Abbreviation connection := (stream handle (closed h) renegotiate).

(** The state a read loop is left in, against the stream's ending. *)
Definition left_in (d : Decoder) (st : S) (error : option CodecError) (r : S * Config * Ending) : Prop :=
  let '(st', c, ending) := r in
  st = st' /\
  match ending with
  | Pending rest => error = None /\ closed h st = false /\ config d = c /\ holds d rest
  | Violation e => error = Some e /\ is_poisoned d = true
  | Hangup => error = None /\ closed h st = true
  end.

Lemma holds_boundary d : d.(d_state) = at_boundary -> holds d [].
Proof. intros E. unfold holds. rewrite E. split; [done|]. split; [unfold PREFIX_LEN; lia|done]. Qed.

(** Handling an item at the boundary. *)
Definition after_item (d : Decoder) (st : S) (item : Item) : Decoder :=
  match item with
  | ItemFrame _ => set_binary_artifacts (set_encoding d (negotiated h st).1) (negotiated h st).2
  | ItemArtifact _ => if closed h st then d else set_encoding d (negotiated h st).1
  | ItemBinary _ => d
  end.

Lemma after_item_ok d st item :
  d.(d_state) = at_boundary ->
  (after_item d st item).(d_state) = at_boundary /\
  config (after_item d st item) = renegotiate (config d) st item.
Proof.
  intros E. unfold after_item, set_binary_artifacts, set_encoding, is_boundary, renegotiate, config.
  destruct d as [? s ? ? ? ? ?]. cbn in E. subst s.
  destruct item; cbn; [done| |done]. by destruct (closed h st).
Qed.

Lemma drain_ok fuel : forall d s st unread,
  holds d s -> length unread <= fuel ->
  exists d' st' error, drain h fuel d st unread = Ok (d', st', error) /\
    left_in d' st' error (connection (config d) st (s ++ unread)).
Proof.
  induction fuel as [|fuel IH]; intros d s st unread Hs Hf.
  all: rewrite stream_eq; cbn [drain]; destruct (closed h st) eqn:Hcl;
    [rewrite orb_true_r; by exists d, st, None|rewrite orb_false_r].
  { destruct unread; [|simpl in Hf; lia]. exists d, st, None.
    by rewrite app_nil_r, (holds_waits d s Hs). }
  case_bool_decide as Hnil.
  { subst. exists d, st, None. by rewrite app_nil_r, (holds_waits d s Hs). }
  destruct (push_one_ok d s unread Hs) as (step & d' & -> & Hcfg & Hstep). cbn [result_bind fst snd].
  rewrite drop_0 in Hstep. destruct (parse1 (config d) (s ++ unread)) as [|e|item rest] eqn:E.
  - destruct Hstep as [-> Hs']. cbn [step_none s_consumed s_binary_artifact s_artifact_put s_frame s_error].
    rewrite slice_prefix by lia. cbn [result_bind]. rewrite Nat.sub_diag.
    rewrite (proj2 (Nat.eqb_neq _ _)) by (destruct unread; [done|simpl; lia]).
    exists d', st, None. split; [|by rewrite <- Hcfg].
    destruct fuel; cbn [drain]; by rewrite bool_decide_eq_true_2.
  - destruct Hstep as (k & Hk & -> & Hp). cbn [step_error s_consumed s_binary_artifact s_artifact_put s_frame s_error].
    rewrite slice_prefix by lia. cbn [result_bind]. by exists d', st, (Some e).
  - destruct Hstep as (k & Hk & -> & Hb & ->).
    destruct (after_item_ok d' (handle st item) item Hb) as [Hb' Hc'].
    destruct (IH (after_item d' (handle st item) item) [] (handle st item) (drop k unread)
      (holds_boundary _ Hb') ltac:(rewrite length_drop; lia)) as (d2 & st2 & err & Hd & Hl).
    exists d2, st2, err. rewrite Hc', Hcfg, app_nil_l in Hl. split; [|done].
    rewrite <- Hd. destruct item; cbn -[drain slice set_encoding set_binary_artifacts];
      rewrite slice_prefix by lia; cbn [result_bind];
      rewrite take_ge by (rewrite length_drop; lia);
      by rewrite (proj2 (Nat.eqb_neq k 0)) by lia.
Qed.

(** The turns of a connection without the cuts of its reads: the bytes that
    come before each event, and those after the last. *)
Fixpoint spans (turns : list Turn) : list (bytes * SelectEvent) * bytes :=
  match turns with
  | [] | Read [] :: _ => ([], [])
  | Read read :: turns =>
      match spans turns with
      | ((more, event) :: spans, tail) => ((read ++ more, event) :: spans, tail)
      | ([], tail) => ([], read ++ tail)
      end
  | Other event :: turns => let '(spans, tail) := spans turns in (([], event) :: spans, tail)
  end.

(** The stream up to each event, then the event, then the stream again. *)
Fixpoint replay (c : Config) (st : S) (held : bytes) (spans : list (bytes * SelectEvent)) (tail : bytes)
  : S * Config * Ending :=
  match spans with
  | [] => connection c st (held ++ tail)
  | (input, event) :: spans =>
      match connection c st (held ++ input) with
      | (st, c, Pending rest) => replay c (on_event h st event) rest spans tail
      | other => other
      end
  end.

Abbreviation replayed c st held s := (replay c st held s.1 s.2).

(** A read in front of the next span. *)
Lemma replay_read c st held read turns :
  read <> [] ->
  replayed c st held (spans (Read read :: turns)) =
  match connection c st (held ++ read) with
  | (st', c', Pending rest) => replayed c' st' rest (spans turns)
  | other => other
  end.
Proof.
  destruct read as [|b read]; [done|intros _]. cbn [spans].
  destruct (spans turns) as [[|[more event] segs] tail]; cbn [replay fst snd].
  all: rewrite app_assoc, stream_app; by destruct (connection c st _) as [[? ?] [| |]].
Qed.

Lemma replay_closed c st held s : closed h st = true -> replayed c st held s = (st, c, Hangup).
Proof.
  intros E. destruct s as [[|[more event] segs] tail]; cbn [replay fst snd]; by rewrite stream_eq, E.
Qed.

Lemma serve_ok turns : forall d s st,
  holds d s ->
  exists d' st' error, serve h d st turns = Ok (d', st', error) /\
    left_in d' st' error (replayed (config d) st s (spans turns)).
Proof.
  assert (Hidle : forall d s st, holds d s -> closed h st = false ->
    left_in d st None (connection (config d) st s)).
  { intros d s st Hs Hcl. by rewrite stream_eq, Hcl, (holds_waits d s Hs). }
  induction turns as [|[read|event] turns IH]; intros d s st Hs; cbn [serve].
  all: destruct (closed h st) eqn:Hcl;
    [exists d, st, None; by rewrite replay_closed|].
  { exists d, st, None. cbn. rewrite app_nil_r. eauto. }
  - destruct read as [|b read].
    { exists d, st, None. cbn. rewrite app_nil_r. eauto. }
    destruct (drain_ok (length (b :: read)) d s st (b :: read) Hs ltac:(done)) as (d1 & st1 & err & -> & Hl).
    cbn [result_bind]. rewrite replay_read by done.
    destruct (connection (config d) st (s ++ b :: read)) as [[st' c'] [rest|e|]]; destruct Hl as [<- Hl].
    + destruct Hl as (-> & _ & <- & Hr). by apply IH.
    + destruct Hl as (-> & Hp). by exists d1, st1, (Some e).
    + destruct Hl as (-> & Hcl'). exists d1, st1, None. split; [|done].
      destruct turns; cbn [serve]; by rewrite Hcl'.
  - cbn [spans]. destruct (IH d s (on_event h st event) Hs) as (d' & st' & error & -> & Hl).
    exists d', st', error. split; [done|].
    destruct (spans turns) as [segs tail]; cbn [replay fst snd] in *.
    by rewrite app_nil_r, stream_eq, Hcl, (holds_waits d s Hs).
Qed.
End Serve.

(** ** The clients' loop *)

(** The frames on a stream that is never renegotiated: the reader that logs. *)
Definition parse (c : Config) (s : bytes) : list Item * Config * Ending :=
  stream (fun log item => log ++ [item]) (fun _ => false) (fun c _ _ => c) c [] s.

Lemma log_prefix c log s :
  stream (fun log item => log ++ [item]) (fun _ => false) (fun c _ _ => c) c log s =
  (log ++ (parse c s).1.1, c, (parse c s).2).
Proof.
  unfold parse. revert c log.
  induction s as [s IH] using (induction_ltof1 _ (@length ascii)); unfold ltof in IH.
  intros c log. rewrite !stream_eq. destruct (parse1 c s) as [|e|item rest] eqn:E;
    cbn [fst snd]; try by rewrite app_nil_r.
  apply parse1_got_shorter in E. rewrite (IH rest E c (log ++ [item])), (IH rest E c ([] ++ [item])).
  cbn [fst snd]. by rewrite <- app_assoc.
Qed.

Lemma parse_eq c s :
  parse c s =
  match parse1 c s with
  | Wait => ([], c, Pending s)
  | Bad e => ([], c, Violation e)
  | Got item rest => (item :: (parse c rest).1.1, c, (parse c rest).2)
  end.
Proof.
  unfold parse at 1. rewrite stream_eq. destruct (parse1 c s); [done..|]. by rewrite log_prefix.
Qed.

Lemma parse_app c s more :
  parse c (s ++ more) =
  match (parse c s).2 with
  | Pending rest => ((parse c s).1.1 ++ (parse c (rest ++ more)).1.1, c, (parse c (rest ++ more)).2)
  | ending => ((parse c s).1.1, c, ending)
  end.
Proof.
  unfold parse at 1. rewrite stream_app, log_prefix.
  destruct (parse c s).2 as [rest|e|]; [|done..]. by rewrite log_prefix.
Qed.

Lemma parse_no_hangup c s : (parse c s).2 <> Hangup.
Proof.
  induction s as [s IH] using (induction_ltof1 _ (@length ascii)); unfold ltof in IH.
  rewrite parse_eq. destruct (parse1 c s) as [|e|item rest] eqn:E; [done..|].
  apply parse1_got_shorter in E. cbn [snd]. by apply IH.
Qed.

Definition frames_of (items : list Item) : list WireFrame :=
  filter_map (fun i => match i with ItemFrame f => Some f | _ => None end) items.
Definition binaries_of (items : list Item) : list BinaryFrame :=
  filter_map (fun i => match i with ItemBinary b => Some b | _ => None end) items.
Definition artifacts_of (items : list Item) : list InPlaceArtifactPut :=
  filter_map (fun i => match i with ItemArtifact a => Some a | _ => None end) items.

(** The decoder after the stream's ending. *)
Definition ends_in (d : Decoder) (error : option CodecError) (ending : Ending) : Prop :=
  match ending with
  | Pending rest => error = None /\ holds d rest
  | Violation e => error = Some e /\ is_poisoned d = true
  | Hangup => False
  end.

Lemma item_not_artifact c s item rest :
  c.(c_in_place) = false -> parse1 c s = Got item rest -> forall put, item <> ItemArtifact put.
Proof.
  intros Hi E put ->. revert E. unfold parse1.
  destruct (_ <? _); [done|]. destruct (header c _) as [[b n]|e]; [|done].
  destruct (_ <? _)%N; [done|]. unfold item_of. rewrite Hi.
  destruct b; [by destruct (binary_decode _)|]. by destruct (frame_reference c _).
Qed.

Lemma push_loop_ok fuel : forall d s chunk frames binary,
  holds d s -> d.(d_in_place) = false -> length chunk <= fuel ->
  exists batch d', push_loop fuel d chunk frames binary = Ok (batch, d') /\ config d' = config d /\
    b_frames batch = frames ++ frames_of (parse (config d) (s ++ chunk)).1.1 /\
    b_artifact_puts batch = [] /\
    b_binary_artifacts batch = binary ++ binaries_of (parse (config d) (s ++ chunk)).1.1 /\
    ends_in d' (b_error batch) (parse (config d) (s ++ chunk)).2.
Proof.
  assert (Hdone : forall d s (frames : list WireFrame) binary, holds d s ->
    b_frames (finish_batch d frames binary) = frames /\
    b_artifact_puts (finish_batch d frames binary) = [] /\
    b_binary_artifacts (finish_batch d frames binary) = binary /\
    b_error (finish_batch d frames binary) = None).
  { intros d s frames binary Hs. unfold finish_batch. by rewrite (holds_not_poisoned d s Hs). }
  induction fuel as [|fuel IH]; intros d s chunk frames binary Hs Hi Hf; rewrite parse_eq; cbn [push_loop].
  all: case_bool_decide as Hnil; [subst; rewrite app_nil_r, (holds_waits d s Hs);
    destruct (Hdone d s frames binary Hs) as (E1 & E2 & E3 & E4); eexists _, d;
    (split; [reflexivity|]); rewrite E1, E2, E3, E4; by rewrite !app_nil_r|].
  { by destruct chunk; [|simpl in Hf; lia]. }
  destruct (push_one_ok d s chunk Hs) as (step & d' & -> & Hcfg & Hstep). cbn [result_bind fst snd].
  rewrite drop_0 in Hstep. destruct (parse1 (config d) (s ++ chunk)) as [|e|item rest] eqn:E.
  - destruct Hstep as [-> Hs']. cbn -[slice push_loop finish_batch].
    rewrite slice_prefix by lia. cbn [result_bind]. rewrite Nat.sub_diag, !app_nil_r.
    rewrite (proj2 (Nat.eqb_neq _ _)) by (destruct chunk; [done|simpl; lia]).
    destruct (Hdone d' _ frames binary Hs') as (E1 & E2 & E3 & E4). exists (finish_batch d' frames binary), d'.
    rewrite E1, E2, E3, E4. split; [|done]. by destruct fuel.
  - destruct Hstep as (k & Hk & -> & Hp). cbn -[slice push_loop finish_batch].
    rewrite slice_prefix by lia. cbn [result_bind]. rewrite !app_nil_r. by eexists _, d'.
  - destruct Hstep as (k & Hk & -> & Hb & ->).
    pose proof (item_not_artifact (config d) _ _ _ Hi E) as Hna.
    assert (Hi' : d_in_place d' = false) by (change (d_in_place d') with (c_in_place (config d')); by rewrite Hcfg).
    destruct item as [f|put|b]; [|by destruct (Hna put)|];
      cbn -[slice push_loop]; rewrite slice_prefix by lia; cbn [result_bind];
      rewrite take_ge by (rewrite length_drop; lia); rewrite (proj2 (Nat.eqb_neq k 0)) by lia;
      [destruct (IH d' [] (drop k chunk) (frames ++ [f]) (binary ++ []) (holds_boundary d' Hb) Hi'
         ltac:(rewrite length_drop; lia)) as (batch & d2 & -> & Hc2 & E1 & E2 & E3 & E4)
      |destruct (IH d' [] (drop k chunk) (frames ++ []) (binary ++ [b]) (holds_boundary d' Hb) Hi'
         ltac:(rewrite length_drop; lia)) as (batch & d2 & -> & Hc2 & E1 & E2 & E3 & E4)];
      exists batch, d2; rewrite Hcfg, app_nil_l in *; rewrite E1, E2, E3, <- !app_assoc; done.
Qed.
End Stream.
