(* ===== verification/RpcEncode.v ===== *)
(** * Frame encoders (haider-rpc uds_codec.rs)

    The contiguous encoders, and the segmented encoder of [artifact.put] that
    leaves the caller's base64 string where it is: a counting pass fixes the
    announced length, a second pass sorts the serializer's writes into head
    and tail by comparing their addresses with the string's. *)

From S2P Require Import Prelude RustStr Digest ByteBuf RpcCodec BinaryArtifact RpcDecoder.

Local Open Scope st_scope.
Local Open Scope res_scope.

Section Encode.
Context `{Allocator}.

(** ** Contiguous frames *)

Record EncodedFrame := { ef_prefix : bytes; ef_body : bytes }.

(** [u32::try_from(len)] for the prefix. *)
Definition body_prefix (body_len : N) : result bytes CodecError :=
  reject_if (u32_max <? body_len)%N (LengthPrefixOverflow body_len) ?;
  Ok (to_be PREFIX_LEN body_len).

(** Prefix and body copied into one exactly reserved buffer. *)
Definition assemble (prefix body : bytes) : result bytes CodecError :=
  let total_len := (N.of_nat PREFIX_LEN + blen body)%N in
  reject_if (usize_max <? total_len)%N (AllocationFailed (blen body)) ?;
  reject_if (negb (try_reserve total_len)) (AllocationFailed total_len) ?;
  Ok (prefix ++ body).

Section Frames.
Context {T : Type} `{Serde T}.

Definition encode_with (frame : T) (frame_limit : N) (encoding : WireEncoding) : result bytes CodecError :=
  let? body := encode_value encoding frame frame_limit in
  let? prefix := body_prefix (blen body) in
  assemble prefix body.

Definition encode (frame : T) (frame_limit : N) : result bytes CodecError :=
  encode_with frame frame_limit Json.

Definition encode_zeroizing_parts_with (frame : T) (frame_limit : N) (encoding : WireEncoding)
  : result EncodedFrame CodecError :=
  let? body := encode_value encoding frame frame_limit in
  let? prefix := body_prefix (blen body) in
  Ok {| ef_prefix := prefix; ef_body := body |}.

Definition encode_zeroizing_with (frame : T) (frame_limit : N) (encoding : WireEncoding)
  : result bytes CodecError :=
  let? parts := encode_zeroizing_parts_with frame frame_limit encoding in
  assemble parts.(ef_prefix) parts.(ef_body).

Definition encode_zeroizing (frame : T) (frame_limit : N) : result bytes CodecError :=
  encode_zeroizing_with frame frame_limit Json.
End Frames.

Definition framed_len (f : EncodedFrame) : N := (N.of_nat PREFIX_LEN + blen f.(ef_body))%N.

(** ** [CountingWriter] *)

Record CountingWriter := { cw_len : N; cw_frame_limit : N; cw_exceeded : bool }.

Definition counting_write (buffer : bytes) : ST CountingWriter string unit := fun w =>
  let next := (w.(cw_len) + blen buffer)%N in
  let exceeded := {| cw_len := w.(cw_len); cw_frame_limit := w.(cw_frame_limit); cw_exceeded := true |} in
  if (usize_max <? next)%N then (Err "wire frame length overflow"%string, exceeded)
  else if (w.(cw_frame_limit) <? next)%N then (Err "wire frame limit exceeded"%string, exceeded)
  else (Ok tt, {| cw_len := next; cw_frame_limit := w.(cw_frame_limit); cw_exceeded := w.(cw_exceeded) |}).

(** ** [SegmentingWriter] *)

Inductive SegmentPhase := PhaseHead | PhaseData | PhaseTail.
#[export] Instance SegmentPhase_eq_dec : EqDecision SegmentPhase.
Proof. solve_decision. Defined.

Record SegmentingWriter := {
  sw_head : bytes;
  sw_tail : bytes;
  sw_data_start : N;
  sw_data_len : N;
  sw_data_written : N;
  sw_overhead_limit : N;
  sw_phase : SegmentPhase;
  sw_allocation_failed : option N;
  sw_invalid_data_write : bool
}.

Definition saturating_add_usize (a b : N) : N := N.min (a + b) usize_max.

Definition sw_fail_allocation (w : SegmentingWriter) (n : N) : SegmentingWriter :=
  {| sw_head := w.(sw_head); sw_tail := w.(sw_tail); sw_data_start := w.(sw_data_start);
     sw_data_len := w.(sw_data_len); sw_data_written := w.(sw_data_written);
     sw_overhead_limit := w.(sw_overhead_limit); sw_phase := w.(sw_phase);
     sw_allocation_failed := Some n; sw_invalid_data_write := w.(sw_invalid_data_write) |}.

Definition sw_fail_data (w : SegmentingWriter) : SegmentingWriter :=
  {| sw_head := w.(sw_head); sw_tail := w.(sw_tail); sw_data_start := w.(sw_data_start);
     sw_data_len := w.(sw_data_len); sw_data_written := w.(sw_data_written);
     sw_overhead_limit := w.(sw_overhead_limit); sw_phase := w.(sw_phase);
     sw_allocation_failed := w.(sw_allocation_failed); sw_invalid_data_write := true |}.

Definition sw_put (w : SegmentingWriter) (head tail : bytes) (written : N) (phase : SegmentPhase)
  : SegmentingWriter :=
  {| sw_head := head; sw_tail := tail; sw_data_start := w.(sw_data_start);
     sw_data_len := w.(sw_data_len); sw_data_written := written;
     sw_overhead_limit := w.(sw_overhead_limit); sw_phase := phase;
     sw_allocation_failed := w.(sw_allocation_failed);
     sw_invalid_data_write := w.(sw_invalid_data_write) |}.

(** Both vectors grow by [try_reserve_exact] of the bytes appended. *)
Definition segmenting_append (buffer : bytes) : ST SegmentingWriter string unit := fun w =>
  let overhead := (blen w.(sw_head) + blen w.(sw_tail) + blen buffer)%N in
  if (usize_max <? overhead)%N
  then (Err "wire frame allocation overflow"%string, sw_fail_allocation w usize_max)
  else if (w.(sw_overhead_limit) <? overhead)%N
  then (Err "serializer copied artifact data instead of borrowing it"%string, sw_fail_data w)
  else
    match w.(sw_phase) with
    | PhaseHead =>
        if try_reserve (blen w.(sw_head) + blen buffer)
        then (Ok tt, sw_put w (w.(sw_head) ++ buffer) w.(sw_tail) w.(sw_data_written) w.(sw_phase))
        else (Err "wire frame allocation failed"%string, sw_fail_allocation w overhead)
    | PhaseData | PhaseTail =>
        if try_reserve (blen w.(sw_tail) + blen buffer)
        then (Ok tt, sw_put w w.(sw_head) (w.(sw_tail) ++ buffer) w.(sw_data_written) w.(sw_phase))
        else (Err "wire frame allocation failed"%string, sw_fail_allocation w overhead)
    end.

Definition segmenting_write (s : Slice) : ST SegmentingWriter string unit := fun w =>
  if bool_decide (s.(sl_bytes) = []) then (Ok tt, w)
  else
    let address := s.(sl_addr) in
    let data_end := saturating_add_usize w.(sw_data_start) w.(sw_data_len) in
    let bytes_end := saturating_add_usize address (blen s.(sl_bytes)) in
    if (w.(sw_data_start) <=? address)%N && (bytes_end <=? data_end)%N then
      let offset := (address - w.(sw_data_start))%N in
      if bool_decide (w.(sw_phase) = PhaseTail) || negb (offset =? w.(sw_data_written))%N
      then (Err "serializer emitted artifact data out of order"%string, sw_fail_data w)
      else (Ok tt, sw_put w w.(sw_head) w.(sw_tail)
                     (saturating_add_usize w.(sw_data_written) (blen s.(sl_bytes))) PhaseData)
    else
      segmenting_append s.(sl_bytes)
        (if bool_decide (w.(sw_phase) = PhaseData)
         then sw_put w w.(sw_head) w.(sw_tail) w.(sw_data_written) PhaseTail else w).

(** ** [encode_artifact_put_request_parts_with] *)

Record EncodedArtifactPut := { ep_prefix : bytes; ep_head : bytes; ep_data : bytes; ep_tail : bytes }.

(** The request whose [data_base64] field is a string at [data_addr]; its
    derived serializer is the argument [request]. *)
Definition encode_artifact_put_request_parts_with (request : WireEncoding -> Serialization)
    (data_addr : N) (data : bytes) (frame_limit : N) (encoding : WireEncoding)
  : result EncodedArtifactPut CodecError :=
  match run_serializer (fun s => counting_write s.(sl_bytes)) (request encoding)
          {| cw_len := 0; cw_frame_limit := frame_limit; cw_exceeded := false |} with
  | (Err error, counter) =>
      if counter.(cw_exceeded) then Err (FrameLimitExceeded frame_limit None)
      else Err (serde_error encoding error)
  | (Ok _, counter) =>
      let? prefix := body_prefix counter.(cw_len) in
      reject_if (counter.(cw_len) <? blen data)%N (LengthPrefixOverflow counter.(cw_len)) ?;
      let overhead_limit := (counter.(cw_len) - blen data)%N in
      match run_serializer segmenting_write (request encoding)
              {| sw_head := []; sw_tail := []; sw_data_start := data_addr; sw_data_len := blen data;
                 sw_data_written := 0; sw_overhead_limit := overhead_limit; sw_phase := PhaseHead;
                 sw_allocation_failed := None; sw_invalid_data_write := false |} with
      | (Err error, writer) =>
          match writer.(sw_allocation_failed) with
          | Some requested => Err (AllocationFailed requested)
          | None => Err (serde_error encoding error)
          end
      | (Ok _, writer) =>
          reject_if (writer.(sw_invalid_data_write)
                     || negb (writer.(sw_data_written) =? blen data)%N
                     || negb (saturating_add_usize (blen writer.(sw_head)) (blen writer.(sw_tail))
                              =? overhead_limit)%N)
            (AllocationFailed counter.(cw_len)) ?;
          Ok {| ep_prefix := prefix; ep_head := writer.(sw_head); ep_data := data;
                ep_tail := writer.(sw_tail) |}
      end
  end.

Definition artifact_framed_len (f : EncodedArtifactPut) : N :=
  saturating_add_usize (saturating_add_usize
    (saturating_add_usize (N.of_nat PREFIX_LEN) (blen f.(ep_head))) (blen f.(ep_data))) (blen f.(ep_tail)).
End Encode.

(** ** Laws *)

Section EncodeFacts.
Context `{Allocator}.

(** [encode_zeroizing] promises the bytes of [encode]. *)
Lemma encode_zeroizing_same {T} `{Serde T} (frame : T) limit encoding :
  encode_zeroizing_with frame limit encoding = encode_with frame limit encoding.
Proof.
  unfold encode_zeroizing_with, encode_zeroizing_parts_with, encode_with.
  destruct (encode_value encoding frame limit) as [body|e]; [cbn [result_bind]|done].
  by destruct (body_prefix (blen body)).
Qed.

(** What a framed buffer is. *)
Lemma encode_with_ok {T} `{Serde T} (frame : T) limit encoding framed :
  encode_with frame limit encoding = Ok framed ->
  let body := written (serialize encoding frame) in
  (serialize encoding frame).(failure) = None /\ framed = to_be PREFIX_LEN (blen body) ++ body /\
  (blen body <= limit)%N /\ (blen body <= u32_max)%N.
Proof.
  unfold encode_with, body_prefix, assemble. intros E.
  apply result_bind_ok in E as (body & Hb & E).
  apply encode_value_ok in Hb as (Hf & -> & Hl & _).
  apply result_bind_ok in E as (p & Hp & E). apply result_bind_ok in Hp as (u & Hg & Hp).
  apply reject_if_ok, N.ltb_ge in Hg. apply ok_inj in Hp as <-.
  apply result_bind_ok in E as (v & _ & E). apply result_bind_ok in E as (v' & _ & E).
  by apply ok_inj in E as <-.
Qed.

(** The counting pass measures the serializer's output. *)
Lemma run_counting_ok slices : forall w u w',
  run_writes (fun s => counting_write s.(sl_bytes)) slices w = (Ok u, w') ->
  (w.(cw_len) <= w.(cw_frame_limit))%N ->
  w'.(cw_len) = (w.(cw_len) + blen (concat (map sl_bytes slices)))%N /\
  (w'.(cw_len) <= w.(cw_frame_limit))%N.
Proof.
  induction slices as [|s slices IH]; intros w u w' E Hl; simpl in E |- *.
  { injection E as _ <-. split; [unfold blen; simpl; lia|exact Hl]. }
  apply st_bind_ok in E as (v & w1 & Hs & Hr). rewrite blen_app. case_bool_decide as Hn.
  - injection Hs as _ <-. rewrite Hn. destruct (IH _ _ _ Hr Hl) as [-> ?]. split; [unfold blen; simpl; lia|done].
  - unfold counting_write in Hs. destruct (_ <? _)%N; [done|].
    destruct (_ <? _)%N eqn:El in Hs; [done|]. apply N.ltb_ge in El. injection Hs as _ <-.
    destruct (IH _ _ _ Hr El) as [-> ?]. simpl in *. split; [lia|done].
Qed.

(** A write whose address range lies inside the string writes that part of it. *)
Definition coherent (data_addr : N) (data : bytes) (s : Slice) : Prop :=
  (s.(sl_addr) + blen s.(sl_bytes) <= usize_max)%N /\
  ((data_addr <= s.(sl_addr))%N -> (s.(sl_addr) + blen s.(sl_bytes) <= data_addr + blen data)%N ->
   s.(sl_bytes) = take (length s.(sl_bytes)) (drop (N.to_nat (s.(sl_addr) - data_addr)) data)).

(** What the two vectors and the part of the string passed so far stand for. *)
Definition segmented (data_addr : N) (data : bytes) (w : SegmentingWriter) (content : bytes) : Prop :=
  w.(sw_data_start) = data_addr /\ w.(sw_data_len) = blen data /\
  (w.(sw_data_written) <= blen data)%N /\
  w.(sw_head) ++ take (N.to_nat w.(sw_data_written)) data ++ w.(sw_tail) = content /\
  match w.(sw_phase) with
  | PhaseHead => w.(sw_data_written) = 0%N /\ w.(sw_tail) = []
  | PhaseData => w.(sw_tail) = []
  | PhaseTail => True
  end.

Lemma segmenting_append_ok data_addr data w content buffer u w' :
  w.(sw_phase) <> PhaseData -> segmented data_addr data w content ->
  segmenting_append buffer w = (Ok u, w') -> segmented data_addr data w' (content ++ buffer).
Proof.
  intros Hp (E1 & E2 & Hd & Ec & Hph). unfold segmenting_append.
  destruct (_ <? _)%N; [done|]. destruct (_ <? _)%N; [done|].
  destruct (sw_phase w) eqn:Eph; [|done|]; (destruct (try_reserve _); [|done]); intros [= _ <-];
    unfold segmented, sw_put; simpl; rewrite ?Eph; repeat (split; [done|]).
  - destruct Hph as [E0 Et]. rewrite Et, E0 in *. simpl in *. rewrite !app_nil_r in *. by rewrite Ec.
  - rewrite <- Ec, <- !app_assoc. done.
Qed.

Lemma take_extend (data : bytes) n k : take (n + k) data = take n data ++ take k (drop n data).
Proof.
  revert data. induction n as [|n IH]; intros data; [done|].
  destruct data; simpl; [by rewrite take_nil|]. by rewrite IH.
Qed.

Lemma segmenting_write_ok data_addr data s w content u w' :
  (data_addr + blen data <= usize_max)%N -> coherent data_addr data s ->
  segmented data_addr data w content -> segmenting_write s w = (Ok u, w') ->
  segmented data_addr data w' (content ++ s.(sl_bytes)).
Proof.
  intros Hm [Hsm Hcoh] Hw. unfold segmenting_write. case_bool_decide as Hn.
  { intros [= _ <-]. by rewrite Hn, app_nil_r. }
  pose proof Hw as (E1 & E2 & Hd & Ec & Hph). unfold saturating_add_usize. rewrite E1, E2.
  rewrite !N.min_l by done. destruct (_ && _)%N eqn:Hin.
  - apply andb_true_iff in Hin as [H1 H2]. apply N.leb_le in H1, H2.
    destruct (_ || _) eqn:Ho; [done|]. apply orb_false_iff in Ho as [Hnt Ho].
    apply bool_decide_eq_false in Hnt. apply negb_false_iff, N.eqb_eq in Ho.
    assert (Et : sw_tail w = []) by (destruct (sw_phase w); [apply Hph|done|done]).
    intros [= _ <-]. specialize (Hcoh H1 H2). rewrite Ho in Hcoh.
    rewrite N.min_l by lia. unfold segmented, sw_put; simpl.
    split; [done|]. split; [done|]. split; [lia|]. split; [|done].
    rewrite <- Ec, Et, !app_nil_r, <- app_assoc. f_equal.
    rewrite N2Nat.inj_add, take_extend. f_equal. rewrite Hcoh at 2. unfold blen. f_equal. lia.
  - intros Ha. eapply segmenting_append_ok; [| |exact Ha].
    + by case_bool_decide as Hp.
    + case_bool_decide as Hp; [|done]. unfold segmented, sw_put; simpl. done.
Qed.

Lemma run_segmenting_ok data_addr data slices : forall w content u w',
  (data_addr + blen data <= usize_max)%N -> Forall (coherent data_addr data) slices ->
  segmented data_addr data w content -> run_writes segmenting_write slices w = (Ok u, w') ->
  segmented data_addr data w' (content ++ concat (map sl_bytes slices)).
Proof.
  intros w content u w' Hm Hall. revert w content.
  induction Hall as [|s slices Hs Hall IH]; intros w content Hw; simpl.
  { intros [= _ <-]. by rewrite app_nil_r. }
  intros (v & w1 & Hr & Hrest)%st_bind_ok. rewrite app_assoc. eapply IH; [|done].
  case_bool_decide as Hn; [|by eapply segmenting_write_ok].
  injection Hr as _ <-. by rewrite Hn, app_nil_r.
Qed.

(** the segmented encoder of [artifact.put] writes the bytes of the
    contiguous one: if it succeeds, head, the caller's base64 string and tail,
    in this order, are the serializer's output for the request, and the prefix
    announces exactly their length, within the frame limit.  The serializer is
    any sequence of writes in which a write that lies inside the string's
    memory carries that part of the string. *)
Theorem segmented_artifact_put_exact request data_addr data limit encoding f :
  (data_addr + blen data <= usize_max)%N ->
  Forall (coherent data_addr data) (request encoding).(writes) ->
  encode_artifact_put_request_parts_with request data_addr data limit encoding = Ok f ->
  (request encoding).(failure) = None /\ f.(ep_data) = data /\
  f.(ep_head) ++ f.(ep_data) ++ f.(ep_tail) = written (request encoding) /\
  f.(ep_prefix) = to_be PREFIX_LEN (blen (written (request encoding))) /\
  (blen (written (request encoding)) <= limit)%N /\
  (blen (written (request encoding)) <= u32_max)%N.
Proof.
  intros Hm Hcoh. unfold encode_artifact_put_request_parts_with, run_serializer.
  destruct (st_bind _ _ _) as [[u|e] cw] eqn:Hc; [|by destruct (cw_exceeded cw)].
  apply st_bind_ok in Hc as (v & cw1 & Hc & Hf). apply st_lift_ok in Hf as [Hf <-].
  apply run_counting_ok in Hc as [Hlen Hlim]; [|simpl; lia]. simpl in Hlen, Hlim.
  fold (written (request encoding)) in Hlen.
  intros E. apply result_bind_ok in E as (prefix & Hp & E).
  apply result_bind_ok in Hp as (x & Hmax & Hp). apply ok_inj in Hp as <-.
  apply reject_if_ok, N.ltb_ge in Hmax. rewrite N.add_0_l in Hlen. rewrite Hlen in *.
  apply result_bind_ok in E as (y & _ & E).
  destruct (st_bind _ _ _) as [[u2|e2] sw] eqn:Hs in E; [|by destruct (sw_allocation_failed sw)].
  apply result_bind_ok in E as (z & Hg & E). apply ok_inj in E as <-. cbn [ep_head ep_data ep_tail ep_prefix].
  apply reject_if_ok, orb_false_iff in Hg as [Hg _]. apply orb_false_iff in Hg as [_ Hw].
  apply negb_false_iff, N.eqb_eq in Hw.
  apply st_bind_ok in Hs as (v2 & sw1 & Hs & Hf2). apply st_lift_ok in Hf2 as [_ <-].
  apply (run_segmenting_ok data_addr data _ _ []) in Hs as (_ & _ & _ & Ec & _); [|done..|].
  - rewrite Hw in Ec. unfold blen in Ec at 1. rewrite Nat2N.id, firstn_all, app_nil_l in Ec.
    split; [by destruct failure|]. done.
  - split; [done|]. split; [done|]. simpl. split; [lia|]. done.
Qed.
End EncodeFacts.
