(* ===== verification/RpcProps.v ===== *)
(** * What the wire codec guarantees

    The daemon's read loop and the clients' [push] against the byte stream,
    the encoders against the decoder, the decoder's invariant, and the
    in-place upload. *)

From S2P Require Import Prelude RustStr Digest ByteBuf RpcCodec BinaryArtifact.
From S2P Require Import RpcBase64 RpcDecoder RpcStream RpcEncode.

Local Open Scope res_scope.

(** ** A concrete wire

    Frames are short strings that stand for themselves; an upload is a body
    [put:<base64>]; memory is unlimited. *)
Module SampleWire.
#[export] Instance alloc : Allocator := fun _ => true.

#[export] Instance serde : Serde string := {
  serialize _ f := {| writes := [{| sl_addr := 0; sl_bytes := as_bytes f |}]; failure := None |};
  deserialize _ b := Ok (as_str b)
}.

#[export] Instance reader : ArtifactPutReader := fun _ body =>
  match strip_prefix "put:" (as_str body) with
  | Some data => Some {| v_version := 1; v_kind := "request"; v_request_id := "r1";
      v_method := "artifact.put"; v_data_offset := 4; v_data_len := String.length data |}
  | None => None
  end.

(** A connection that keeps what it was sent and closes on ["bye"], or when
    one of its other branches says so. *)
Definition log : Handler string (list string) := {|
  on_event st e := match e with JobFinished | LivenessTick false => st | _ => st ++ ["bye"] end;
  on_binary st b := st ++ [frame_request_id b];
  on_artifact st a := st ++ [as_str a.(ap_bytes)];
  on_frame st f := st ++ [f];
  closed st := bool_decide ("bye"%string ∈ st);
  negotiated _ := (Json, true)
|}.

(** A connection that takes one binary frame at a time: the running job, the
    request ids taken, and whether the connection is closed. *)
Definition one_job : Handler string (bool * list string * bool) := {|
  on_event st e :=
    let '(job, taken, close) := st in
    match e with
    | JobFinished => (false, taken, close)
    | LivenessTick false => st
    | _ => (job, taken, true)
    end;
  on_binary st b :=
    let '(job, taken, close) := st in
    if job then (job, taken, true) else (true, taken ++ [frame_request_id b], close);
  on_artifact st _ := st;
  on_frame st _ := st;
  closed st := st.2;
  negotiated _ := (Json, true)
|}.

Definition framed (body : string) : bytes := to_be 4 (len body) ++ as_bytes body.
End SampleWire.

Section Claims.
Context `{Allocator} {WireFrame : Type} `{Serde WireFrame} `{ArtifactPutReader}.

(** C5: the daemon's connection loop is a reader of the byte stream.  Whatever
    the connection does with an item or with another branch of its [select!]
    (a finished binary job, a peer's exit, a drain, the handshake deadline, a
    liveness tick), and although each frame may renegotiate the encoding and
    the binary feature for what follows, the result depends only on the bytes
    that arrive between two such events, not on how the reads cut them: every
    run with the same [spans] gives the same connection state and error,
    namely those of the byte stream over the held and the new bytes up to each
    event ([replay]); the loop never panics, and the decoder is left holding
    the unfinished rest, or poisoned. *)
Theorem serve_refines_stream {S} (h : Handler WireFrame S) (d : Decoder) (held : bytes) (st : S)
    (segments : list (bytes * SelectEvent)) (tail : bytes) :
  holds d held ->
  exists st' error, forall turns, spans turns = (segments, tail) ->
    exists d', serve h d st turns = Ok (d', st', error) /\
      left_in h d' st' error (replay h (config d) st held segments tail).
Proof.
  intros Hs.
  destruct (replay h (config d) st held segments tail) as [[st' c'] ending] eqn:E.
  exists st', (match ending with Violation e => Some e | _ => None end). intros turns Ht.
  destruct (serve_ok h turns d held st Hs) as (d' & st2 & error & Hsv & Hl).
  rewrite Ht in Hl. cbn [fst snd] in Hl. rewrite E in Hl. exists d'. rewrite Hsv. destruct Hl as [-> Hl].
  assert (Ee : error = match ending with Violation e => Some e | _ => None end)
    by (destruct ending; naive_solver).
  by rewrite <- Ee.
Qed.

(** ** [push] *)

(** A client's reads, until the first error. *)
Fixpoint push_all (d : Decoder) (chunks : list bytes)
  : result (list WireFrame * list BinaryFrame * option CodecError * Decoder) Stuck :=
  match chunks with
  | [] => Ok ([], [], None, d)
  | chunk :: chunks =>
      let? r := push d chunk in
      let '(batch, d) := r in
      match batch.(b_error) with
      | Some error => Ok (batch.(b_frames), batch.(b_binary_artifacts), Some error, d)
      | None =>
          let? r := push_all d chunks in
          let '(frames, binary, error, d) := r in
          Ok (batch.(b_frames) ++ frames, batch.(b_binary_artifacts) ++ binary, error, d)
      end
  end.

Lemma push_all_ok chunks : forall d s,
  holds d s -> d.(d_in_place) = false ->
  exists d' error, push_all d chunks =
      Ok (frames_of (parse (config d) (s ++ concat chunks)).1.1,
          binaries_of (parse (config d) (s ++ concat chunks)).1.1, error, d') /\
    ends_in d' error (parse (config d) (s ++ concat chunks)).2.
Proof.
  induction chunks as [|chunk chunks IH]; intros d s Hs Hi; cbn [push_all concat].
  { exists d, None. rewrite app_nil_r, parse_eq, (holds_waits d s Hs). done. }
  destruct (push_loop_ok (length chunk) d s chunk [] [] Hs Hi ltac:(done))
    as (batch & d1 & Hp & Hc & E1 & _ & E3 & He).
  unfold push. rewrite Hp. cbn [result_bind]. rewrite app_assoc, parse_app, E1, E3, !app_nil_l.
  destruct (parse (config d) (s ++ chunk)) as [[items c] [rest|e|]]; cbn [fst snd] in *; [..|done].
  - destruct He as [-> Hr].
    destruct (IH d1 rest Hr) as (d2 & error & -> & He2).
    { change (c_in_place (config d1) = false). by rewrite Hc. }
    cbn [result_bind]. rewrite Hc in *. exists d2, error. unfold frames_of, binaries_of.
    by rewrite !filter_map_app.
  - destruct He as [-> Hpo]. by exists d1, (Some e).
Qed.

(** for a decoder that does not decode uploads in place, as the clients
    use it, the transcript that [push] delivers is that of the byte stream:
    the frames, the binary frames and the terminal error are the same for
    every way of cutting the input into chunks. *)
Theorem push_refines_stream (d : Decoder) (held input : bytes) :
  holds d held -> d.(d_in_place) = false ->
  let '(items, _, ending) := parse (config d) (held ++ input) in
  exists error, forall chunks, concat chunks = input ->
    exists d', push_all d chunks = Ok (frames_of items, binaries_of items, error, d') /\
      ends_in d' error ending.
Proof.
  intros Hs Hi. destruct (parse (config d) (held ++ input)) as [[items c] ending] eqn:E.
  exists (match ending with Violation e => Some e | _ => None end). intros chunks Hc.
  destruct (push_all_ok chunks d held Hs Hi) as (d' & error & Hp & He).
  rewrite Hc, E in Hp, He. cbn [fst snd] in *. exists d'. rewrite Hp.
  assert (Ee : error = match ending with Violation e => Some e | _ => None end)
    by (destruct ending; naive_solver).
  by rewrite <- Ee.
Qed.

(** ** Sender and receiver *)

(** The serializer crates round-trip this frame: a value is read back from
    what was written for it, JSON output is UTF-8, and no value is written as
    nothing. *)
Definition serde_faithful (encoding : WireEncoding) (f : WireFrame) : Prop :=
  let body := written (serialize encoding f) in
  deserialize encoding body = Ok f /\ utf8_valid body || bool_decide (encoding <> Json) = true /\
  body <> [].

(** [bs] is what a peer with the settings [c] writes for the item. *)
Definition sent (c : Config) (item : Item) (bs : bytes) : Prop :=
  match item with
  | ItemFrame f => encode_with f c.(c_limit) c.(c_encoding) = Ok bs /\ serde_faithful c.(c_encoding) f
  | ItemBinary b => c.(c_binary) = true /\ frame_typed b /\ binary_encode b c.(c_limit) = Ok bs
  | ItemArtifact _ => False
  end.

Lemma flag_clear n : (n < PREFIX_FLAG)%N -> N.land n PREFIX_FLAG = 0%N.
Proof.
  intros Hn. change PREFIX_FLAG with (2 ^ 31)%N in *. apply N.bits_inj_0. intros i.
  rewrite N.land_spec, N.pow2_bits_eqb. destruct (N.eqb_spec 31 i) as [<-|_]; [|apply andb_false_r].
  rewrite N.testbit_eqb, N.div_small by done. done.
Qed.

Lemma flag_ldiff n : (n < PREFIX_FLAG)%N -> N.ldiff n PREFIX_FLAG = n.
Proof.
  intros Hn. change PREFIX_FLAG with (2 ^ 31)%N in *. apply N.bits_inj. intros i.
  rewrite N.ldiff_spec, N.pow2_bits_eqb. destruct (N.eqb_spec 31 i) as [<-|_]; [|apply andb_true_r].
  rewrite N.testbit_eqb, N.div_small by done. done.
Qed.

Lemma flag_set n : (n < PREFIX_FLAG)%N ->
  N.land (N.lor n PREFIX_FLAG) PREFIX_FLAG = PREFIX_FLAG /\ N.ldiff (N.lor n PREFIX_FLAG) PREFIX_FLAG = n /\
  (N.lor n PREFIX_FLAG < 256 ^ N.of_nat PREFIX_LEN)%N.
Proof.
  intros Hn. split; [apply N.bits_inj; intros i;
    rewrite N.land_spec, N.lor_spec; by destruct (N.testbit n i), (N.testbit PREFIX_FLAG i)|].
  split.
  - rewrite <- (flag_ldiff n Hn) at 2. apply N.bits_inj. intros i.
    rewrite !N.ldiff_spec, N.lor_spec. by destruct (N.testbit n i), (N.testbit PREFIX_FLAG i).
  - rewrite <- N.lxor_lor, <- N.add_nocarry_lxor by (by apply flag_clear).
    change (256 ^ N.of_nat PREFIX_LEN)%N with (PREFIX_FLAG * 2)%N. lia.
Qed.

(** A prefix of either kind is read back. *)
Lemma header_plain c n :
  (0 < n <= c.(c_limit))%N -> (n < PREFIX_FLAG)%N -> try_reserve n = true ->
  header c (from_be (to_be PREFIX_LEN n)) = Ok (false, n).
Proof.
  intros Hn Hf Hr. rewrite from_be_to_be.
  2:{ change (256 ^ N.of_nat PREFIX_LEN)%N with (PREFIX_FLAG * 2)%N. lia. }
  unfold header. rewrite flag_clear, flag_ldiff, Hr by done. cbn [N.eqb negb andb reject_if result_bind].
  rewrite (proj2 (N.eqb_neq _ _)), (proj2 (N.ltb_ge _ _)) by lia. done.
Qed.

Lemma header_binary c n :
  (0 < n <= N.min c.(c_limit) MAX_FRAME_BYTES)%N -> c.(c_binary) = true -> try_reserve n = true ->
  header c (from_be (to_be PREFIX_LEN (N.lor n PREFIX_FLAG))) = Ok (true, n).
Proof.
  intros Hn Hb Hr. assert (Hf : (n < PREFIX_FLAG)%N) by (unfold MAX_FRAME_BYTES, CHUNK_BYTES, PREFIX_FLAG in *; lia).
  destruct (flag_set n Hf) as (E1 & E2 & E3). rewrite from_be_to_be by done.
  unfold header. rewrite E1, E2, Hb, Hr. cbn [N.eqb negb andb reject_if result_bind].
  rewrite (proj2 (N.eqb_neq PREFIX_FLAG 0)) by done. cbn [negb andb].
  rewrite (proj2 (N.ltb_ge MAX_FRAME_BYTES n)) by lia. cbn [reject_if result_bind].
  rewrite (proj2 (N.eqb_neq _ _)), (proj2 (N.ltb_ge _ _)) by lia. done.
Qed.

Lemma parse1_sent c item bs more :
  c.(c_in_place) = false -> (c.(c_limit) < PREFIX_FLAG)%N ->
  (forall n, (n <= c.(c_limit))%N -> try_reserve n = true) ->
  sent c item bs -> parse1 c (bs ++ more) = Got item more.
Proof.
  intros Hi Hlim Hres Hs. destruct item as [f|put|b]; cbn [sent] in Hs; [|done|].
  - destruct Hs as [He (Hd & Hu & Hne)]. apply encode_with_ok in He as (_ & -> & Hl & _).
    set (body := written (serialize (c_encoding c) f)) in *.
    assert (Hb : (0 < blen body)%N) by (destruct body; [done|unfold blen; simpl; lia]).
    erewrite parse1_item; [|apply to_be_length|apply header_plain; auto; lia|done].
    unfold item_of, frame_reference, decode_json, decode_msgpack. rewrite Hi.
    rewrite bool_decide_eq_false_2, (proj2 (N.ltb_ge (c_limit c) _)) by done.
    cbn [reject_if result_bind]. destruct (c_encoding c) eqn:Ee.
    + rewrite bool_decide_eq_false_2, orb_false_r in Hu by naive_solver. by rewrite Hu, Hd.
    + by rewrite Hd.
  - destruct Hs as (Hb & Ht & He). destruct (binary_encode_ok _ _ _ Ht He) as (body & -> & Hl & Hd).
    erewrite parse1_item; [|apply to_be_length|apply header_binary; [done|done|apply Hres; lia]|done].
    unfold item_of. by rewrite Hd.
Qed.

Lemma parse_sent c items bss :
  c.(c_in_place) = false -> (c.(c_limit) < PREFIX_FLAG)%N ->
  (forall n, (n <= c.(c_limit))%N -> try_reserve n = true) ->
  Forall2 (sent c) items bss -> parse c (concat bss) = (items, c, Pending []).
Proof.
  intros Hi Hlim Hres Hall. induction Hall as [|item bs items bss Hs Hall IH]; cbn [concat].
  { by rewrite parse_eq. }
  rewrite parse_eq, (parse1_sent c item bs) by done. by rewrite IH.
Qed.

(** C38: what a peer sends to a client arrives.  A sequence of wire frames and
    binary artifact frames, encoded by the sender and read in chunks of any
    size by a decoder at a frame boundary, is delivered by [push] complete, in
    order within each kind and without an error, and the decoder is back at a
    frame boundary.  It is assumed that the decoder does not take artifact
    uploads in place (as only the daemon's does; with them [push] drops the
    rest of a chunk after an upload), that reserving memory succeeds up to the
    frame limit, that this limit is below the flag bit of the prefix, and that
    the serializer crates round-trip the frames sent. *)
Theorem wire_round_trip (d : Decoder) (items : list Item) (encoded chunks : list bytes) :
  d.(d_state) = at_boundary -> d.(d_in_place) = false -> (d.(d_frame_limit) < PREFIX_FLAG)%N ->
  (forall n, (n <= d.(d_frame_limit))%N -> try_reserve n = true) ->
  Forall2 (sent (config d)) items encoded -> concat chunks = concat encoded ->
  exists d', push_all d chunks = Ok (frames_of items, binaries_of items, None, d') /\ holds d' [].
Proof.
  intros Hb Hi Hlim Hres Hall Hc.
  destruct (push_all_ok chunks d [] (holds_boundary d Hb) Hi) as (d' & error & Hp & He).
  rewrite app_nil_l, Hc, (parse_sent (config d) items encoded) in Hp, He by done.
  cbn [fst snd ends_in] in *. destruct He as [-> ?]. by exists d'.
Qed.

(** ** The decoder's invariant *)

(** What a connection can do with its decoder. *)
Inductive reachable (limit : N) : Decoder -> Prop :=
  | reach_new zeroize in_place encoding : reachable limit (Decoder_make limit zeroize in_place encoding)
  | reach_push d chunk batch d' :
      reachable limit d -> push d chunk = Ok (batch, d') -> reachable limit d'
  | reach_push_one d chunk step d' :
      reachable limit d -> push_one d chunk = Ok (step, d') -> reachable limit d'
  | reach_encoding d encoding : reachable limit d -> reachable limit (set_encoding d encoding)
  | reach_binary d enabled : reachable limit d -> reachable limit (set_binary_artifacts d enabled).

Definition healthy (d : Decoder) : Prop := is_poisoned d = true \/ exists s, holds d s.

(** The bytes a decoder buffers. *)
Definition buffered (d : Decoder) : N :=
  match d.(d_state) with
  | Prefix _ filled => N.of_nat filled
  | Body _ buffer => blen buffer
  | Poisoned => 0
  end.

Lemma healthy_boundary d : d.(d_state) = at_boundary -> healthy d.
Proof. intros. right. exists []. by apply holds_boundary. Qed.

Lemma push_one_healthy d chunk :
  healthy d ->
  exists step d', push_one d chunk = Ok (step, d') /\ healthy d' /\ config d' = config d /\
    step.(s_consumed) <= length chunk /\
    (chunk <> [] -> s_consumed step = 0 -> step = step_error DecoderPoisoned 0) /\
    (is_poisoned d = true -> step = step_error DecoderPoisoned 0 /\ d' = d).
Proof.
  intros [Hp|[s Hs]].
  - unfold push_one. rewrite Hp. eexists _, d. split; [done|]. split; [by left|]. simpl.
    repeat split; auto; lia.
  - destruct (push_one_ok d s chunk Hs) as (step & d' & E & Hc & Hstep). exists step, d'.
    split; [done|]. rewrite drop_0 in Hstep. pose proof (holds_not_poisoned _ _ Hs) as Hnp.
    destruct (parse1 (config d) (s ++ chunk)) as [|e|item rest].
    + destruct Hstep as [-> Hs']. split; [right; eauto|]. split; [done|]. simpl. split; [done|].
      split; [|congruence]. destruct chunk; [done|by simpl].
    + destruct Hstep as (k & Hk & -> & Hp). split; [by left|]. split; [done|]. simpl.
      split; [lia|]. split; [lia|congruence].
    + destruct Hstep as (k & Hk & -> & Hb & _). split; [by apply healthy_boundary|]. split; [done|].
      destruct item; simpl; (split; [lia|]); (split; [lia|congruence]).
Qed.

Lemma push_loop_healthy fuel : forall d chunk frames binary,
  healthy d -> length chunk <= fuel ->
  exists batch d', push_loop fuel d chunk frames binary = Ok (batch, d') /\ healthy d' /\
    config d' = config d /\ (is_poisoned d = true -> d' = d /\ b_error batch = Some DecoderPoisoned /\
      b_frames batch = frames /\ b_artifact_puts batch = [] /\ (binary = [] -> b_binary_artifacts batch = [])).
Proof.
  induction fuel as [|fuel IH]; intros d chunk frames binary Hd Hf; cbn [push_loop].
  all: case_bool_decide as Hn; [eexists _, d; (split; [reflexivity|]); (split; [done|]); (split; [done|]);
    intros Hp; unfold finish_batch; by rewrite Hp|].
  { by destruct chunk; [|simpl in Hf; lia]. }
  destruct (push_one_healthy d chunk Hd) as (step & d1 & -> & Hd1 & Hc1 & Hk & Hz & Hp1).
  cbn [result_bind fst snd]. rewrite slice_prefix by lia. cbn [result_bind].
  rewrite take_ge by (rewrite length_drop; lia).
  destruct (is_poisoned d) eqn:Hp.
  { destruct (Hp1 eq_refl) as [-> ->]. cbn. rewrite !app_nil_r. eexists _, d. split; [reflexivity|].
    split; [done|]. split; [done|]. simpl. done. }
  destruct (s_artifact_put step) as [put|]; [by eexists _, d1|].
  destruct (s_error step) as [e|] eqn:He; [by eexists _, d1|].
  destruct (s_consumed step =? 0) eqn:E0.
  { apply Nat.eqb_eq in E0. specialize (Hz Hn E0). by rewrite Hz in He. }
  apply Nat.eqb_neq in E0.
  destruct (IH d1 (drop (s_consumed step) chunk) (frames ++ option_list (s_frame step))
    (binary ++ option_list (s_binary_artifact step)) Hd1 ltac:(rewrite length_drop; lia))
    as (batch & d2 & -> & Hd2 & Hc2 & _).
  exists batch, d2. split; [done|]. split; [done|]. split; [congruence|done].
Qed.

Lemma set_encoding_healthy d encoding :
  healthy d -> healthy (set_encoding d encoding) /\
  (set_encoding d encoding).(d_frame_limit) = d.(d_frame_limit).
Proof.
  intros Hd. unfold set_encoding, is_boundary. destruct (d_state d) as [b [|f]|n b|] eqn:E;
    try (split; [by left|done]).
  destruct Hd as [Hp|[s Hs]]; [unfold is_poisoned in Hp; by rewrite E in Hp|].
  split; [|done]. right. exists s. unfold holds in *. by rewrite E in *.
Qed.

Lemma set_binary_healthy d enabled :
  healthy d -> healthy (set_binary_artifacts d enabled) /\
  (set_binary_artifacts d enabled).(d_frame_limit) = d.(d_frame_limit).
Proof.
  intros Hd. unfold set_binary_artifacts, is_boundary. destruct (d_state d) as [b [|f]|n b|] eqn:E;
    try (split; [by left|done]).
  destruct Hd as [Hp|[s Hs]]; [unfold is_poisoned in Hp; by rewrite E in Hp|].
  split; [|done]. right. exists s. unfold holds in *. by rewrite E in *.
Qed.

Lemma reachable_healthy limit d : reachable limit d -> healthy d /\ d.(d_frame_limit) = limit.
Proof.
  induction 1 as [z i e|d chunk batch d' _ [Hd Hl] E|d chunk step d' _ [Hd Hl] E|d e _ [Hd Hl]|d b _ [Hd Hl]].
  - split; [by apply healthy_boundary|done].
  - destruct (push_loop_healthy (length chunk) d chunk [] [] Hd ltac:(done)) as (b & d2 & E2 & Hd2 & Hc & _).
    unfold push in E. rewrite E2 in E. apply (f_equal c_limit) in Hc. simplify_eq. by split.
  - destruct (push_one_healthy d chunk Hd) as (st & d2 & E2 & Hd2 & Hc & _).
    rewrite E2 in E. apply (f_equal c_limit) in Hc. simplify_eq. by split.
  - destruct (set_encoding_healthy d e Hd) as [? ->]. done.
  - destruct (set_binary_healthy d b Hd) as [? ->]. done.
Qed.

(** C40: a decoder in use never panics, never loops and never buffers more than
    its limit.  From every state that reads and codec switches can reach, at
    any point in a frame, both entry points return for every chunk; what is
    buffered is at most three prefix bytes or less than a body whose announced
    length was checked against the frame limit before a byte of it was kept. *)
Theorem decoder_invariant (limit : N) (d : Decoder) :
  reachable limit d ->
  (forall chunk, exists step d', push_one d chunk = Ok (step, d')) /\
  (forall chunk, exists batch d', push d chunk = Ok (batch, d')) /\
  match d.(d_state) with
  | Prefix _ filled => filled < PREFIX_LEN
  | Body announced_len _ => (buffered d < announced_len <= limit)%N
  | Poisoned => True
  end.
Proof.
  intros [Hd Hl]%reachable_healthy. split_and!.
  - intros chunk. destruct (push_one_healthy d chunk Hd) as (? & ? & ? & _). eauto.
  - intros chunk. destruct (push_loop_healthy (length chunk) d chunk [] [] Hd ltac:(done))
      as (? & ? & ? & _). eauto.
  - destruct Hd as [Hp|[s Hs]]; unfold is_poisoned in *; unfold holds, buffered in *.
    { by destruct (d_state d). }
    destruct (d_state d) as [b f|n b|]; [apply Hs| |done].
    destruct Hs as (h & _ & _ & Hb & Hh). apply header_size in Hh. simpl in Hh. rewrite Hl in Hh. lia.
Qed.

(** poisoning is final: after a violation nothing is delivered any more,
    by either entry point, no byte is consumed, and no codec switch revives
    the decoder. *)
Theorem poison_is_final (d : Decoder) (chunk : bytes) (encoding : WireEncoding) (enabled : bool) :
  is_poisoned d = true ->
  push_one d chunk = Ok (step_error DecoderPoisoned 0, d) /\
  push d chunk = Ok ({| b_frames := []; b_artifact_puts := []; b_binary_artifacts := [];
                        b_error := Some DecoderPoisoned |}, d) /\
  set_encoding d encoding = d /\ set_binary_artifacts d enabled = d.
Proof.
  intros Hp. split_and!.
  - unfold push_one. by rewrite Hp.
  - destruct (push_loop_healthy (length chunk) d chunk [] [] (or_introl Hp) ltac:(done))
      as (batch & d' & E & _ & _ & H3). destruct (H3 Hp) as (-> & He & Hf & Ha & Hb).
    unfold push. rewrite E. specialize (Hb eq_refl). destruct batch. simpl in *. by subst.
  - unfold set_encoding, is_boundary, poison, set_state. unfold is_poisoned in Hp.
    destruct d as [? [] ? ? ? ? ?]; simpl in *; done.
  - unfold set_binary_artifacts, is_boundary, poison, set_state. unfold is_poisoned in Hp.
    destruct d as [? [] ? ? ? ? ?]; simpl in *; done.
Qed.

(** every read makes progress: while a decoder in use is not poisoned, a
    step over a non-empty chunk consumes at least one byte, so a loop over
    [push_one] ends after at most as many steps as the chunk has bytes. *)
Theorem push_one_progress (limit : N) (d : Decoder) (chunk : bytes) step d' :
  reachable limit d -> is_poisoned d = false -> chunk <> [] ->
  push_one d chunk = Ok (step, d') -> 0 < step.(s_consumed) <= length chunk.
Proof.
  intros [[Hp|[s Hs]] _]%reachable_healthy Hnp Hn E; [congruence|].
  destruct (push_one_ok d s chunk Hs) as (st & d2 & E2 & _ & Hstep). rewrite E2 in E. simplify_eq.
  rewrite drop_0 in Hstep. destruct (parse1 (config d) (s ++ chunk)) as [|e|item rest].
  - destruct Hstep as [-> _]. simpl. destruct chunk; [done|simpl; lia].
  - destruct Hstep as (k & Hk & -> & _). simpl. lia.
  - destruct Hstep as (k & Hk & -> & _). by destruct item.
Qed.

(** ** Uploads in place *)

(** [body] is an [artifact.put] request with this id, whose base64 field is
    these bytes of [body]. *)
Definition carries_upload (body : bytes) (encoding : WireEncoding) (request_id : string) (data : bytes) : Prop :=
  exists view, read_artifact_put encoding body = Some view /\
    view.(v_version) = WIRE_PROTOCOL_VERSION /\ view.(v_kind) = "request"%string /\
    view.(v_method) = "artifact.put"%string /\ view.(v_request_id) = request_id /\
    (0 <= view.(v_data_offset))%Z /\
    Z.to_nat view.(v_data_offset) + view.(v_data_len) <= length body /\
    data = take view.(v_data_len) (drop (Z.to_nat view.(v_data_offset)) body).

Lemma locate_some body encoding rid ds dl n :
  locate_artifact_put body encoding = Some (rid, ds, dl, n) <->
  exists p, carries_upload body encoding rid (b64_encode p) /\ length p = n /\
    exists view, read_artifact_put encoding body = Some view /\
      ds = Z.to_nat view.(v_data_offset) /\ dl = view.(v_data_len).
Proof.
  unfold locate_artifact_put, carries_upload. split.
  - destruct (read_artifact_put encoding body) as [view|] eqn:Er; [|done].
    destruct (_ || _ || _) eqn:Hg; [done|]. destruct (_ <? _)%Z eqn:Hz; [done|].
    destruct (_ <? _) eqn:Hl; [done|]. apply Nat.ltb_ge in Hl. apply Z.ltb_ge in Hz.
    destruct (validated_standard_base64_len _) as [k|] eqn:Hv; [|done]. intros [= <- <- <- <-].
    apply validated_iff in Hv as (p & Ep & Hp). exists p.
    apply orb_false_iff in Hg as [Hg Hm]. apply orb_false_iff in Hg as [Hver Hk].
    apply negb_false_iff in Hm, Hver, Hk. apply String.eqb_eq in Hm, Hk. apply N.eqb_eq in Hver.
    split; [|by eauto]. exists view. rewrite <- Ep. auto 10.
  - intros (p & (view & Er & Hver & Hk & Hm & <- & Hz & Hl & Ed) & <- & view' & Er' & -> & ->).
    rewrite Er in *. injection Er' as <-. rewrite Hver, Hk, Hm. cbn [negb orb].
    rewrite N.eqb_refl, !String.eqb_refl. cbn [negb orb].
    rewrite (proj2 (Z.ltb_ge _ _)), (proj2 (Nat.ltb_ge _ _)) by lia.
    rewrite <- Ed. by rewrite (proj2 (validated_iff (b64_encode p) (length p)) (ex_intro _ p (conj eq_refl eq_refl))).
Qed.

(** C39: the in-place upload decoder is exact.  It yields an upload exactly when
    the body is an [artifact.put] request whose base64 field is the canonical
    padded encoding of the bytes it yields, although it writes them over the
    field it is still reading; in every other case it leaves the body untouched
    for the ordinary decoder, and it never panics. *)
Theorem in_place_upload_exact (body : bytes) (encoding : WireEncoding) :
  (forall put rest, decode_artifact_put_in_place body encoding = Ok (Some put, rest) <->
     rest = [] /\ carries_upload body encoding put.(ap_request_id) (b64_encode put.(ap_bytes))) /\
  ((exists put, decode_artifact_put_in_place body encoding = Ok (Some put, [])) \/
   decode_artifact_put_in_place body encoding = Ok (None, body)).
Proof.
  rewrite in_place_reference. unfold artifact_reference. split.
  - intros put rest. destruct (locate_artifact_put body encoding) as [[[[rid ds] dl] n]|] eqn:E.
    + apply locate_some in E as (p & (view & Er & Hver & Hk & Hm & Hrid & Hz & Hl & Ed) & _ & view' & Er' & -> & ->).
      rewrite Er in Er'. injection Er' as <-. rewrite <- Ed, b64_decode_encode. split.
      * intros [= <- <-]. split; [done|]. simpl. exists view. auto 10.
      * intros (-> & (v2 & Er2 & _ & _ & _ & Hrid2 & _ & _ & Ed2)). rewrite Er in Er2. injection Er2 as <-.
        do 3 f_equal. destruct put as [rid' bs]; simpl in *. rewrite <- Ed2 in Ed.
        apply (f_equal b64_decode) in Ed. rewrite !b64_decode_encode in Ed. by subst.
    + split; [done|]. intros (-> & Hc). exfalso.
      pose proof Hc as (view & Er & _).
      assert (Hs : locate_artifact_put body encoding =
        Some (ap_request_id put, Z.to_nat view.(v_data_offset), view.(v_data_len), length (ap_bytes put))).
      { apply locate_some. exists (ap_bytes put). split; [done|]. split; [done|]. eauto. }
      congruence.
  - destruct (locate_artifact_put body encoding) as [[[[rid ds] dl] n]|]; [left; by eexists|by right].
Qed.

(** [push] on a decoder that decodes uploads in place is not invariant to
    read boundaries: when a chunk completes an upload, [push] returns it alone
    and leaves the decoder at a clean frame boundary, so the bytes of the chunk
    after the upload are neither delivered nor kept. *)
Theorem push_drops_after_upload (d : Decoder) (held chunk rest : bytes) (put : InPlaceArtifactPut) :
  holds d held -> parse1 (config d) (held ++ chunk) = Got (ItemArtifact put) rest ->
  exists d', push d chunk = Ok ({| b_frames := []; b_artifact_puts := [put];
                                   b_binary_artifacts := []; b_error := None |}, d') /\
    d'.(d_state) = at_boundary /\ config d' = config d.
Proof.
  intros Hs E. destruct (push_one_ok d held chunk Hs) as (step & d' & Hp & Hc & Hstep).
  rewrite drop_0, E in Hstep. destruct Hstep as (k & Hk & -> & Hb & _).
  exists d'. split; [|done]. unfold push.
  destruct chunk as [|b chunk]; [simpl in Hk; lia|]. cbn [length push_loop].
  rewrite bool_decide_eq_false_2, Hp by done. cbn [result_bind fst snd].
  rewrite slice_prefix; [done|..]; simpl in *; lia.
Qed.
End Claims.

(** ** The claims at concrete inputs *)
Module WireWitness.
Import SampleWire.

Definition clients : Decoder := Decoder_new 64.
Definition daemon : Decoder := Decoder_new_zeroizing_artifact_put 64.

Lemma daemon_holds : holds daemon [].
Proof. by apply holds_boundary. Defined.
Lemma clients_hold : holds clients [].
Proof. by apply holds_boundary. Defined.

(** A frame, an upload and half a frame, whatever the reads. *)
Definition input : bytes := framed "hi" ++ framed "put:YWJj" ++ take 5 (framed "later").

Lemma serve_refines_stream_witness :
  exists error, forall turns, spans turns = ([(take 4 input, LivenessTick false)], drop 4 input) ->
    exists d', serve log daemon [] turns = Ok (d', ["hi"; "abc"]%string, error).
Proof.
  destruct (serve_refines_stream log daemon [] [] [(take 4 input, LivenessTick false)] (drop 4 input)
    daemon_holds) as (st & error & Hall).
  assert (Est : st = ["hi"; "abc"]%string).
  { destruct (Hall [Read (take 4 input); Other (LivenessTick false); Read (drop 4 input)])
      as (d' & _ & Hl); [by vm_compute|].
    assert (Es : replay log (config daemon) [] [] [(take 4 input, LivenessTick false)] (drop 4 input)
      = (["hi"; "abc"]%string,
         {| c_limit := 64; c_encoding := Json; c_in_place := true; c_binary := true |},
         Pending (take 5 (framed "later")))) by (by vm_compute).
    rewrite Es in Hl. by destruct Hl as [-> _]. }
  exists error. intros turns Ht. destruct (Hall turns Ht) as (d' & Hs & _). subst st. by exists d'.
Defined.

(** Two binary frames in one read find the first one's job still running and
    close the connection; when the job ends between them both are taken. *)
Definition finish : bytes :=
  match binary_encode (Finish "r1") 64 with Ok b => b | Err _ => [] end.

Lemma job_order_matters :
  (exists d', serve one_job (set_binary_artifacts daemon true) (false, [], false)
     [Read (finish ++ finish)] = Ok (d', (true, ["r1"]%string, true), None)) /\
  (exists d', serve one_job (set_binary_artifacts daemon true) (false, [], false)
     [Read finish; Other JobFinished; Read finish] = Ok (d', (true, ["r1"; "r1"]%string, false), None)).
Proof. split; eexists; by vm_compute. Qed.

Lemma push_refines_stream_witness :
  exists d', push_all clients [take 3 (framed "hi"); drop 3 (framed "hi") ++ framed ""]
    = Ok (["hi"%string], [], Some EmptyFrame, d').
Proof.
  pose proof (push_refines_stream clients [] (framed "hi" ++ framed "") clients_hold eq_refl) as H.
  assert (Ep : parse (config clients) ([] ++ framed "hi" ++ framed "")
    = ([ItemFrame "hi"%string], config clients, Violation EmptyFrame)) by (by vm_compute).
  rewrite Ep in H. destruct H as (error & Hall).
  destruct (Hall [take 3 (framed "hi"); drop 3 (framed "hi") ++ framed ""] eq_refl) as (d' & E & [-> _]).
  exists d'. exact E.
Defined.

Lemma wire_round_trip_witness :
  exists d', push_all (set_binary_artifacts clients true)
      [take 2 (framed "hi"); drop 2 (framed "hi") ++ default [] (Some (framed "yo"))]
    = Ok (["hi"; "yo"]%string, [], None, d') /\ holds d' [].
Proof.
  apply (wire_round_trip (set_binary_artifacts clients true) [ItemFrame "hi"%string; ItemFrame "yo"%string]
    [framed "hi"; framed "yo"]); try done.
  repeat constructor; vm_compute; try done; by intros [=].
Defined.

Lemma decoder_invariant_witness :
  exists step d', push_one (set_encoding clients MessagePack) (framed "hi") = Ok (step, d').
Proof.
  exact (proj1 (decoder_invariant 64 (set_encoding clients MessagePack)
    (reach_encoding 64 clients MessagePack (reach_new 64 false false Json))) (framed "hi")).
Defined.

Lemma poison_is_final_witness :
  set_encoding (poison clients) MessagePack = poison clients.
Proof. exact (proj1 (proj2 (proj2 (poison_is_final (poison clients) [] MessagePack true eq_refl)))). Defined.

Lemma push_one_progress_witness :
  exists step d', push_one clients (framed "hi") = Ok (step, d') /\ 0 < s_consumed step <= 6.
Proof.
  destruct (push_one clients (framed "hi")) as [[step d']|] eqn:E; [|by vm_compute in E].
  exists step, d'. split; [done|].
  by apply (push_one_progress 64 clients (framed "hi") step d' (reach_new 64 false false Json)).
Defined.

Lemma push_drops_after_upload_witness :
  exists d', push daemon (framed "put:YWJj" ++ framed "hi")
    = Ok ({| b_frames := []; b_artifact_puts := [{| ap_request_id := "r1"; ap_bytes := as_bytes "abc" |}];
             b_binary_artifacts := []; b_error := None |}, d') /\ d'.(d_state) = at_boundary.
Proof.
  destruct (push_drops_after_upload daemon [] (framed "put:YWJj" ++ framed "hi") (framed "hi")
    {| ap_request_id := "r1"; ap_bytes := as_bytes "abc" |} daemon_holds) as (d' & E & Hb & _).
  - by vm_compute.
  - by exists d'.
Defined.

(** The segmented encoder on a request whose string lies at address 1000. *)
Definition put_request (_ : WireEncoding) : Serialization := {|
  writes := [{| sl_addr := 10; sl_bytes := as_bytes "put:" |};
             {| sl_addr := 1000; sl_bytes := as_bytes "YWJj" |};
             {| sl_addr := 20; sl_bytes := as_bytes "!" |}];
  failure := None |}.

Lemma segmented_artifact_put_exact_witness :
  exists f, encode_artifact_put_request_parts_with put_request 1000 (as_bytes "YWJj") 64 Json = Ok f /\
    f.(ep_head) ++ f.(ep_data) ++ f.(ep_tail) = as_bytes "put:YWJj!".
Proof.
  destruct (encode_artifact_put_request_parts_with put_request 1000 (as_bytes "YWJj") 64 Json)
    as [f|e] eqn:E; [|by vm_compute in E].
  exists f. split; [done|].
  assert (Hm : (1000 + blen (as_bytes "YWJj") <= usize_max)%N) by (by vm_compute).
  assert (Hc : Forall (coherent 1000 (as_bytes "YWJj")) (writes (put_request Json))).
  { apply Forall_cons; split; [|apply Forall_cons; split; [|apply Forall_cons; split; [|done]]];
      (split; [by vm_compute|intros H1 H2]); [by destruct H1|by vm_compute|by destruct H1]. }
  destruct (segmented_artifact_put_exact put_request 1000 (as_bytes "YWJj") 64 Json f Hm Hc E)
    as (_ & _ & Ew & _). by rewrite Ew.
Defined.
End WireWitness.
