(* ===== verification/RpcNegotiate.v ===== *)
(** * Handshake negotiation (haider-rpc negotiation.rs, frame.rs) *)

From S2P Require Import Prelude RustStr Digest ByteBuf RpcCodec RpcDecoder.

Local Open Scope res_scope.
Local Open Scope string_scope.

Inductive Capability := View | Control | UnknownCapability.
#[export] Instance Capability_eq_dec : EqDecision Capability.
Proof. solve_decision. Defined.
#[export] Instance Capability_countable : Countable Capability.
Proof.
  refine (inj_countable' (fun c => match c with View => 0 | Control => 1 | UnknownCapability => 2 end)
    (fun n => match n with 0 => View | 1 => Control | _ => UnknownCapability end) _).
  by intros [].
Defined.

(** [BTreeSet<Capability>]. *)
Abbreviation CapabilitySet := (gset Capability).

Inductive ClientKind := Cli | Tui | Gui | Headless | UnknownClient.

Record Hello := {
  h_protocol_min : N;
  h_protocol_max : N;
  h_client_name : string;
  h_client_version : string;
  h_client_instance_id : string;
  h_client_kind : ClientKind;
  h_capabilities_requested : CapabilitySet;
  h_max_receive_frame : N;
  h_encodings : list string
}.

Record ServerRange := {
  r_protocol_min : N;
  r_protocol_max : N;
  r_capabilities : CapabilitySet;
  r_supports_msgpack : bool
}.

Record Negotiated := {
  n_protocol : N;
  n_capabilities_granted : CapabilitySet;
  n_encoding : option string
}.

(** [ProtocolError]; negotiation leaves its presentation and write ids empty. *)
Record ProtocolError := { e_code : string; e_message : string; e_fatal : bool }.

Definition protocol_error (code message : string) : ProtocolError :=
  {| e_code := code; e_message := message; e_fatal := true |}.

Definition exceeds (who : string) (lo hi : N) : string :=
  who ++ " protocol minimum " ++ pretty lo ++ " exceeds maximum " ++ pretty hi.

Definition negotiate (client : Hello) (server : ServerRange) : result Negotiated ProtocolError :=
  reject_if (client.(h_protocol_max) <? client.(h_protocol_min))%N
    (protocol_error "invalid_client_protocol_range"
       (exceeds "client" client.(h_protocol_min) client.(h_protocol_max))) ?;
  reject_if (server.(r_protocol_max) <? server.(r_protocol_min))%N
    (protocol_error "invalid_server_protocol_range"
       (exceeds "server" server.(r_protocol_min) server.(r_protocol_max))) ?;
  let overlap_min := N.max (N.max client.(h_protocol_min) server.(r_protocol_min)) WIRE_PROTOCOL_VERSION in
  let overlap_max := N.min (N.min client.(h_protocol_max) server.(r_protocol_max)) WIRE_PROTOCOL_VERSION in
  reject_if (overlap_max <? overlap_min)%N
    (protocol_error "protocol_version_mismatch"
       ("client range " ++ pretty client.(h_protocol_min) ++ "..=" ++ pretty client.(h_protocol_max)
        ++ " does not overlap server range " ++ pretty server.(r_protocol_min) ++ "..="
        ++ pretty server.(r_protocol_max))) ?;
  let capabilities_granted :=
    filter (fun c => c <> UnknownCapability) (client.(h_capabilities_requested) ∩ server.(r_capabilities)) in
  Ok {| n_protocol := overlap_max; n_capabilities_granted := capabilities_granted;
        n_encoding := if existsb (fun e => server.(r_supports_msgpack) && String.eqb e "msgpack")
                           client.(h_encodings)
                      then Some "msgpack" else None |}.

(** Version [v] lies in both ranges. *)
Definition both_speak (client : Hello) (server : ServerRange) (v : N) : Prop :=
  (client.(h_protocol_min) <= v <= client.(h_protocol_max))%N /\
  (server.(r_protocol_min) <= v <= server.(r_protocol_max))%N.

Definition ranges_valid (client : Hello) (server : ServerRange) : Prop :=
  (client.(h_protocol_min) <= client.(h_protocol_max))%N /\
  (server.(r_protocol_min) <= server.(r_protocol_max))%N.

(** the laws of the handshake.  It succeeds exactly when both sides speak
    the version this crate implements, and selects that version; a version
    they share beyond it does not help.  A capability is granted exactly when
    it was requested, is offered and is known, and the compact encoding is
    chosen exactly when the client lists it and the server serves it.  A
    failure is fatal and names the side whose range is empty before it names a
    mismatch. *)
Theorem negotiation_laws (client : Hello) (server : ServerRange) :
  match negotiate client server with
  | Ok n =>
      both_speak client server WIRE_PROTOCOL_VERSION /\ n.(n_protocol) = WIRE_PROTOCOL_VERSION /\
      (forall c, c ∈ n.(n_capabilities_granted) <->
         c ∈ client.(h_capabilities_requested) /\ c ∈ server.(r_capabilities) /\ c <> UnknownCapability) /\
      n.(n_encoding) = (if bool_decide ("msgpack" ∈ client.(h_encodings)) && server.(r_supports_msgpack)
                        then Some "msgpack" else None)
  | Err e =>
      ~ both_speak client server WIRE_PROTOCOL_VERSION /\ e.(e_fatal) = true /\
      (e.(e_code) = "invalid_client_protocol_range"
         <-> (client.(h_protocol_max) < client.(h_protocol_min))%N) /\
      (e.(e_code) = "protocol_version_mismatch" <-> ranges_valid client server)
  end.
Proof.
  unfold negotiate, both_speak, ranges_valid, WIRE_PROTOCOL_VERSION.
  destruct (_ <? _)%N eqn:Hc; cbn [reject_if result_bind].
  { apply N.ltb_lt in Hc. split; [lia|]. split; [done|]. cbn. split; split; intros; try done; lia. }
  apply N.ltb_ge in Hc. destruct (_ <? _)%N eqn:Hs; cbn [reject_if result_bind].
  { apply N.ltb_lt in Hs. split; [lia|]. split; [done|]. cbn. split; split; intros; try done; lia. }
  apply N.ltb_ge in Hs. destruct (_ <? _)%N eqn:Ho; cbn [reject_if result_bind].
  { apply N.ltb_lt in Ho. split; [lia|]. split; [done|]. cbn. split; split; intros; try done; lia. }
  apply N.ltb_ge in Ho. cbn [n_protocol n_capabilities_granted n_encoding].
  split; [lia|]. split; [lia|]. split; [set_solver|].
  destruct (r_supports_msgpack server); cbn [andb].
  - rewrite andb_true_r.
    match goal with |- (if ?a then _ else _) = (if ?b then _ else _) => assert (a = b) as -> end; [|done].
    apply eq_true_iff_eq. rewrite bool_decide_eq_true, existsb_elem.
    split; [by intros (x & Hx & ->%String.eqb_eq)|]. intros Hin. eexists. split; [exact Hin|]. apply String.eqb_refl.
  - rewrite andb_false_r. destruct (existsb _ _) eqn:E; [|done].
    apply existsb_elem in E as (? & ? & ?). done.
Qed.
