(* ===== verification/FileSystem.v ===== *)
(** * A file system with faults, concurrent publishers and crashes

    The part of the operating system the content store relies on (POSIX
    directory entries, hard links, [fsync]).  A path is its components below
    the store's root; the root holds shard directories, and both hold files.
    Three layers are kept apart: what processes see, what was handed to the
    device by a sync, and what is on stable storage; a plain sync reaches the
    device, a full one empties the device's cache, and on hosts other than
    Apple's every sync is stable at once ([plain_durable]).

    Every system call consumes one [Event]: other processes may act first, and
    the call may then fail, a [write] after a prefix.  Another writer of this
    store creates shards and publishes complete objects; a process that is not
    the store's may put any bytes under an object's name, replacing what is
    there, or remove it.  Nobody else touches the staging files, whose names
    carry the process id and a counter.  Theorems quantify over all event
    sequences. *)

From S2P Require Import Prelude RustStr Digest ByteBuf.

Local Open Scope st_scope.

Abbreviation Path := (list string).

Definition parent (p : Path) : Path := removelast p.

(** ** Errors *)

Inductive IoKind := NotFound | AlreadyExists | PermissionDenied | StorageFull | ReadOnlyFilesystem | OtherIo.
#[export] Instance IoKind_eq_dec : EqDecision IoKind.
Proof. solve_decision. Defined.

Record IoError := { io_kind : IoKind; io_text : string }.

(** ** State *)

(** One layer below the page cache: directory entries, shard directories and
    file contents. *)
Record Disk := {
  dk_entries : gmap Path nat;
  dk_shards : gset string;
  dk_contents : gmap nat bytes
}.

(** What another process does: two kinds of acts of this store's writers, and
    one of a process outside it, which leaves arbitrary bytes under a name, or
    nothing, and syncs neither. *)
Inductive EnvAct :=
  | EnvShard (shard : string)
  | EnvPublish (content : bytes)
  | EnvForeign (hex : string) (content : option bytes).

Record Event := { ev_env : list EnvAct; ev_fault : option (IoError * nat) }.

Record Fs := {
  fs_dir : gmap Path nat;
  fs_shards : gset string;
  fs_inodes : gmap nat bytes;
  fs_next : nat;
  fs_device : Disk;
  fs_stable : Disk;
  fs_temps : gset Path;
  fs_counter : N;
  fs_events : list Event
}.

(** The host: does a plain [fsync] reach stable storage, does publication fall
    back to a no-replace rename, and the process id. *)
Class Platform := { plain_durable : bool; rename_fallback : bool; process_id : N }.

Inductive SyncPolicy := Full | Barrier | Plain.
#[export] Instance SyncPolicy_eq_dec : EqDecision SyncPolicy.
Proof. solve_decision. Defined.

Definition with_dir (fs : Fs) (dir : gmap Path nat) : Fs :=
  {| fs_dir := dir; fs_shards := fs.(fs_shards); fs_inodes := fs.(fs_inodes); fs_next := fs.(fs_next);
     fs_device := fs.(fs_device); fs_stable := fs.(fs_stable); fs_temps := fs.(fs_temps);
     fs_counter := fs.(fs_counter); fs_events := fs.(fs_events) |}.
Definition with_shards (fs : Fs) (shards : gset string) : Fs :=
  {| fs_dir := fs.(fs_dir); fs_shards := shards; fs_inodes := fs.(fs_inodes); fs_next := fs.(fs_next);
     fs_device := fs.(fs_device); fs_stable := fs.(fs_stable); fs_temps := fs.(fs_temps);
     fs_counter := fs.(fs_counter); fs_events := fs.(fs_events) |}.
Definition with_inode (fs : Fs) (i : nat) (content : bytes) : Fs :=
  {| fs_dir := fs.(fs_dir); fs_shards := fs.(fs_shards); fs_inodes := <[i := content]> fs.(fs_inodes);
     fs_next := fs.(fs_next); fs_device := fs.(fs_device); fs_stable := fs.(fs_stable);
     fs_temps := fs.(fs_temps); fs_counter := fs.(fs_counter); fs_events := fs.(fs_events) |}.
Definition with_new_file (fs : Fs) (p : Path) (content : bytes) : Fs :=
  {| fs_dir := <[p := fs.(fs_next)]> fs.(fs_dir); fs_shards := fs.(fs_shards);
     fs_inodes := <[fs.(fs_next) := content]> fs.(fs_inodes); fs_next := S fs.(fs_next);
     fs_device := fs.(fs_device); fs_stable := fs.(fs_stable); fs_temps := fs.(fs_temps);
     fs_counter := fs.(fs_counter); fs_events := fs.(fs_events) |}.
Definition with_temps (fs : Fs) (temps : gset Path) : Fs :=
  {| fs_dir := fs.(fs_dir); fs_shards := fs.(fs_shards); fs_inodes := fs.(fs_inodes); fs_next := fs.(fs_next);
     fs_device := fs.(fs_device); fs_stable := fs.(fs_stable); fs_temps := temps;
     fs_counter := fs.(fs_counter); fs_events := fs.(fs_events) |}.
Definition with_counter (fs : Fs) (counter : N) : Fs :=
  {| fs_dir := fs.(fs_dir); fs_shards := fs.(fs_shards); fs_inodes := fs.(fs_inodes); fs_next := fs.(fs_next);
     fs_device := fs.(fs_device); fs_stable := fs.(fs_stable); fs_temps := fs.(fs_temps);
     fs_counter := counter; fs_events := fs.(fs_events) |}.
Definition with_events (fs : Fs) (events : list Event) : Fs :=
  {| fs_dir := fs.(fs_dir); fs_shards := fs.(fs_shards); fs_inodes := fs.(fs_inodes); fs_next := fs.(fs_next);
     fs_device := fs.(fs_device); fs_stable := fs.(fs_stable); fs_temps := fs.(fs_temps);
     fs_counter := fs.(fs_counter); fs_events := events |}.

Section Ops.
Context `{Platform} `{Blake3}.

(** ** Object paths *)

(** The two-digit shard and the digest. *)
Definition object_path (hex : string) : Path := [String.substring 0 2 hex; hex].
Definition shard_of (hex : string) : string := String.substring 0 2 hex.
Definition valid_hex (hex : string) : bool := (len hex =? 64)%N && all_bytes is_lower_hex hex.
Definition hash_hex (content : bytes) : string := blake3_hex (as_str content).

(** ** Syncs *)

(** After a sync: does the device's cache reach stable storage. *)
Definition with_device (fs : Fs) (policy : SyncPolicy) (device : Disk) : Fs :=
  {| fs_dir := fs.(fs_dir); fs_shards := fs.(fs_shards); fs_inodes := fs.(fs_inodes); fs_next := fs.(fs_next);
     fs_device := device;
     fs_stable := if bool_decide (policy = Full) || plain_durable then device else fs.(fs_stable);
     fs_temps := fs.(fs_temps); fs_counter := fs.(fs_counter); fs_events := fs.(fs_events) |}.

Definition flush_file (policy : SyncPolicy) (i : nat) (fs : Fs) : Fs :=
  with_device fs policy
    {| dk_entries := fs.(fs_device).(dk_entries); dk_shards := fs.(fs_device).(dk_shards);
       dk_contents := match fs.(fs_inodes) !! i with
                      | Some content => <[i := content]> fs.(fs_device).(dk_contents)
                      | None => fs.(fs_device).(dk_contents)
                      end |}.

(** A directory's entries replace the device's; the root's include the shards. *)
Definition flush_directory (policy : SyncPolicy) (d : Path) (fs : Fs) : Fs :=
  with_device fs policy
    {| dk_entries := filter (fun kv => parent kv.1 <> d) fs.(fs_device).(dk_entries)
                     ∪ filter (fun kv => parent kv.1 = d) fs.(fs_dir);
       dk_shards := if bool_decide (d = []) then fs.(fs_shards) else fs.(fs_device).(dk_shards);
       dk_contents := fs.(fs_device).(dk_contents) |}.

(** ** Other processes *)

(** A concurrent writer of the store syncs its file before it links it; its
    directory entries may still be in memory. *)
Definition env_step (fs : Fs) (act : EnvAct) : Fs :=
  match act with
  | EnvShard shard => with_shards fs ({[shard]} ∪ fs.(fs_shards))
  | EnvPublish content =>
      let p := object_path (hash_hex content) in
      let fs := with_shards fs ({[shard_of (hash_hex content)]} ∪ fs.(fs_shards)) in
      match fs.(fs_dir) !! p with
      | Some _ => fs
      | None => flush_file Plain fs.(fs_next) (with_new_file fs p content)
      end
  | EnvForeign hex content =>
      if negb (valid_hex hex) then fs
      else match content with
           | Some content =>
               with_new_file (with_shards fs ({[shard_of hex]} ∪ fs.(fs_shards))) (object_path hex) content
           | None => with_dir fs (delete (object_path hex) fs.(fs_dir))
           end
  end.

(** The next event: what the others did, and whether this call fails. *)
Definition tick (fs : Fs) : option (IoError * nat) * Fs :=
  match fs.(fs_events) with
  | [] => (None, fs)
  | e :: events => (e.(ev_fault), foldl env_step (with_events fs events) e.(ev_env))
  end.

Definition syscall {A} (op : ST Fs IoError A) : ST Fs IoError A := fun fs =>
  match tick fs with
  | (Some (e, _), fs) => (Err e, fs)
  | (None, fs) => op fs
  end.

Definition io_fail (kind : IoKind) (text : string) : IoError := {| io_kind := kind; io_text := text |}.

Definition directory_exists (fs : Fs) (d : Path) : bool :=
  match d with
  | [] => true
  | [shard] => bool_decide (shard ∈ fs.(fs_shards))
  | _ => false
  end.

(** [OpenOptions::new().write(true).create_new(true).open(p)]. *)
Definition create_new (p : Path) : ST Fs IoError nat := syscall (fun fs =>
  if negb (directory_exists fs (parent p)) then (Err (io_fail NotFound "no such directory"), fs)
  else match fs.(fs_dir) !! p with
       | Some _ => (Err (io_fail AlreadyExists "file exists"), fs)
       | None => (Ok fs.(fs_next), with_new_file fs p [])
       end).

Definition write_all (i : nat) (content : bytes) : ST Fs IoError unit := fun fs =>
  let append fs b := with_inode fs i (default [] (fs.(fs_inodes) !! i) ++ b) in
  match tick fs with
  | (Some (e, k), fs) => (Err e, append fs (take k content))
  | (None, fs) => (Ok tt, append fs content)
  end.

Definition fsync_file (i : nat) (policy : SyncPolicy) : ST Fs IoError unit :=
  syscall (fun fs => (Ok tt, flush_file policy i fs)).

Definition fsync_directory (d : Path) (policy : SyncPolicy) : ST Fs IoError unit :=
  syscall (fun fs => (Ok tt, flush_directory policy d fs)).

(** [File::open]; the handle is the inode. *)
Definition open_file (p : Path) : ST Fs IoError nat := syscall (fun fs =>
  match fs.(fs_dir) !! p with
  | Some i => (Ok i, fs)
  | None => (Err (io_fail NotFound "no such file"), fs)
  end).

Definition read_handle (i : nat) : ST Fs IoError bytes :=
  syscall (fun fs => (Ok (default [] (fs.(fs_inodes) !! i)), fs)).

(** [File::rewind]. *)
Definition rewind (i : nat) : ST Fs IoError unit := syscall (fun fs => (Ok tt, fs)).

(** [Path::exists]: an error reads as absent. *)
Definition path_exists (d : Path) : ST Fs IoError bool := fun fs =>
  match tick fs with
  | (Some _, fs) => (Ok false, fs)
  | (None, fs) => (Ok (directory_exists fs d), fs)
  end.

Definition create_dir_all (d : Path) : ST Fs IoError unit := syscall (fun fs =>
  match d with
  | [shard] => (Ok tt, with_shards fs ({[shard]} ∪ fs.(fs_shards)))
  | _ => (Ok tt, fs)
  end).

Definition hard_link (source target : Path) : ST Fs IoError unit := syscall (fun fs =>
  match fs.(fs_dir) !! source, fs.(fs_dir) !! target with
  | None, _ => (Err (io_fail NotFound "no such file"), fs)
  | Some _, Some _ => (Err (io_fail AlreadyExists "file exists"), fs)
  | Some i, None =>
      if directory_exists fs (parent target) then (Ok tt, with_dir fs (<[target := i]> fs.(fs_dir)))
      else (Err (io_fail NotFound "no such directory"), fs)
  end).

Definition rename_noreplace (source target : Path) : ST Fs IoError unit := syscall (fun fs =>
  match fs.(fs_dir) !! source, fs.(fs_dir) !! target with
  | None, _ => (Err (io_fail NotFound "no such file"), fs)
  | Some _, Some _ => (Err (io_fail AlreadyExists "file exists"), fs)
  | Some i, None =>
      if directory_exists fs (parent target)
      then (Ok tt, with_dir fs (<[target := i]> (delete source fs.(fs_dir))))
      else (Err (io_fail NotFound "no such directory"), fs)
  end).

Definition remove_file (p : Path) : ST Fs IoError unit := syscall (fun fs =>
  match fs.(fs_dir) !! p with
  | Some _ => (Ok tt, with_dir fs (delete p fs.(fs_dir)))
  | None => (Err (io_fail NotFound "no such file"), fs)
  end).

(** ** Crashes *)

(** What may be found after a power loss: an entry that memory and stable
    storage agree on is there if its shard is, and a file whose content is
    stable holds it; everything else may be in either state. *)
Record Crash (fs fs' : Fs) : Prop := {
  crash_shards : forall s, s ∈ fs.(fs_stable).(dk_shards) -> s ∈ fs'.(fs_shards);
  crash_entries : forall p i,
    fs.(fs_dir) !! p = Some i -> fs.(fs_stable).(dk_entries) !! p = Some i ->
    directory_exists fs' (parent p) = true -> fs'.(fs_dir) !! p = Some i;
  crash_contents : forall i content,
    fs.(fs_inodes) !! i = Some content -> fs.(fs_stable).(dk_contents) !! i = Some content ->
    fs'.(fs_inodes) !! i = Some content;
  crash_no_new : forall p i, fs'.(fs_dir) !! p = Some i ->
    directory_exists fs' (parent p) = true /\
    (fs.(fs_dir) !! p = Some i \/ fs.(fs_stable).(dk_entries) !! p = Some i)
}.
End Ops.
