(* ===== verification/Cas.v ===== *)
(** * Content-addressed storage (haider-store cas.rs)

    The store of immutable artifacts: an object's name is the digest of its
    bytes.  Writers stage bytes in a temporary file, sync it, publish it by a
    link that replaces nothing, and sync the directories; readers check the
    digest.  [CasUpload] is the streaming writer behind binary uploads,
    [put_reader] copies a source while hashing it, and [put_batched_stream]
    writes a source under an address its caller computed.

    Temporary names owned by a live [TemporaryPath] are kept in the file
    system's state ([fs_temps]); leaving the scope of one removes its file.
    A source that is read or streamed is the list of the pieces it delivers and
    the error it ends with.  Image validation and the creation of the root are
    not modelled. *)

From S2P Require Import Prelude RustStr Digest ByteBuf FileSystem.

Local Open Scope st_scope.

(** ** Errors *)

Inductive StoreCode := StoreFull | StoreReadOnly | StoreUnavailable | StoreCorrupt | InvalidArgument | Internal.
#[export] Instance StoreCode_eq_dec : EqDecision StoreCode.
Proof. solve_decision. Defined.

Record HaiderError := { he_code : StoreCode; he_message : string; he_retryable : bool }.

Definition store_error (code : StoreCode) (message : string) (retryable : bool) : HaiderError :=
  {| he_code := code; he_message := message; he_retryable := retryable |}.

Abbreviation StoreM A := (ST Fs HaiderError A).

(** [path.display()], below the root. *)
Definition display (p : Path) : string := join "/" ("cas"%string :: p).

Definition io_error_at (action shown : string) (error : IoError) : HaiderError :=
  store_error
    match error.(io_kind) with
    | StorageFull => StoreFull
    | PermissionDenied | ReadOnlyFilesystem => StoreReadOnly
    | _ => StoreUnavailable
    end
    (action ++ " " ++ shown ++ ": " ++ error.(io_text))%string true.

Definition io_error (action : string) (p : Path) : IoError -> HaiderError := io_error_at action (display p).

Definition corrupt_object (p : Path) : HaiderError :=
  store_error StoreCorrupt ("CAS object does not match its address: " ++ display p)%string false.

(** [m.map_err(|error| io_error(action, path, error))?]. *)
Definition or_io_error {A} (action : string) (p : Path) (m : ST Fs IoError A) : StoreM A := fun fs =>
  let '(r, fs) := m fs in (map_err (io_error action p) r, fs).

(** The result of a call as a value, to be matched on. *)
Definition attempt {A E E'} (m : ST Fs E A) : ST Fs E' (result A E) := fun fs =>
  let '(r, fs) := m fs in (Ok r, fs).

Definition fail {A} (e : HaiderError) : StoreM A := st_lift (Err e).

(** ** References *)

Definition ARTIFACT_PREFIX : string := "blake3:".

Definition invalid_artifact_ref (artifact : string) : HaiderError :=
  store_error InvalidArgument ("invalid BLAKE3 artifact reference: " ++ artifact)%string false.

Definition parse_artifact_ref (artifact : string) : result string HaiderError :=
  match strip_prefix ARTIFACT_PREFIX artifact with
  | None => Err (invalid_artifact_ref artifact)
  | Some hex =>
      if negb (len hex =? 64)%N || negb (all_bytes is_lower_hex hex)
      then Err (invalid_artifact_ref artifact) else Ok hex
  end.

Section Cas.
Context `{Platform} `{Blake3}.

Definition artifact_for (content : bytes) : string := (ARTIFACT_PREFIX ++ hash_hex content)%string.

Definition path_for (artifact : string) : StoreM Path :=
  hex <- st_lift (parse_artifact_ref artifact) ;; st_ret (object_path hex).

(** ** Building blocks *)

Definition sync_file (i : nat) (p : Path) (policy : SyncPolicy) : StoreM unit :=
  or_io_error "sync file" p (fsync_file i policy).
Definition sync_directory (d : Path) (policy : SyncPolicy) : StoreM unit :=
  or_io_error "sync directory" d (fsync_directory d policy).

(** Opens and hashes: missing is [false], unreadable an error. *)
Definition verify_existing (artifact : string) (p : Path) : StoreM bool :=
  opened <- attempt (open_file p) ;;
  match opened with
  | Ok i =>
      content <- or_io_error "hash CAS object" p (read_handle i) ;;
      st_ret (String.eqb (artifact_for content) artifact)
  | Err error =>
      if bool_decide (error.(io_kind) = NotFound) then st_ret false
      else fail (io_error "read CAS object" p error)
  end.

Definition temporary_name (counter : N) : string :=
  (".tmp-" ++ pretty process_id ++ "-" ++ pretty counter)%string.

(** [TEMP_FILE_COUNTER.fetch_add(1)]. *)
Definition next_counter : StoreM N := fun fs =>
  (Ok fs.(fs_counter), with_counter fs (N.modulo (fs.(fs_counter) + 1) (u64_max + 1))).

(** [TemporaryPath::new]. *)
Definition own_temporary (p : Path) : StoreM unit := st_modify (fun fs => with_temps fs ({[p]} ∪ fs.(fs_temps))).
Definition disown_temporary (p : Path) : StoreM unit :=
  st_modify (fun fs => with_temps fs (fs.(fs_temps) ∖ {[p]})).

Fixpoint create_temporary (attempts : nat) (d : Path) : StoreM (Path * nat) :=
  match attempts with
  | 0 => fail (store_error Internal
           ("cannot allocate a unique temporary CAS object in " ++ display d)%string true)
  | S attempts =>
      counter <- next_counter ;;
      let p := d ++ [temporary_name counter] in
      created <- attempt (create_new p) ;;
      match created with
      | Ok i => own_temporary p ;;; st_ret (p, i)
      | Err error =>
          if bool_decide (error.(io_kind) = AlreadyExists) then create_temporary attempts d
          else fail (io_error "create temporary CAS object" p error)
      end
  end.

(** [TemporaryPath::remove]. *)
Definition remove_temporary (p : Path) : StoreM unit :=
  fs <- st_get ;;
  if negb (bool_decide (p ∈ fs.(fs_temps))) then st_ret tt
  else
    removed <- attempt (remove_file p) ;;
    match removed with
    | Ok _ => disown_temporary p
    | Err error =>
        if bool_decide (error.(io_kind) = NotFound) then disown_temporary p
        else fail (io_error "remove temporary CAS object" p error)
    end.

(** The directory sync is attempted even if the removal fails. *)
Definition cleanup_temporary (p d : Path) (policy : SyncPolicy) : StoreM unit :=
  removed <- attempt (remove_temporary p) ;;
  synced <- attempt (sync_directory d policy) ;;
  st_lift removed ;;; st_lift synced.

(** [impl Drop for TemporaryPath]. *)
Definition drop_temporary (p : Path) (fs : Fs) : Fs :=
  if bool_decide (p ∈ fs.(fs_temps)) then
    let '(_, fs) := remove_file p fs in with_temps fs (fs.(fs_temps) ∖ {[p]})
  else fs.

(** The rest of a function that owns a temporary path. *)
Definition scoped_temporary {A} (p : Path) (m : StoreM A) : StoreM A := fun fs =>
  let '(r, fs) := m fs in (r, drop_temporary p fs).

Definition publish_temporary (source target : Path) : ST Fs IoError unit := fun fs =>
  match hard_link source target fs with
  | (Err error, fs) =>
      if rename_fallback && bool_decide (error.(io_kind) = PermissionDenied)
      then rename_noreplace source target fs else (Err error, fs)
  | r => r
  end.

(** A racing writer won: its bytes are checked before the content counts as stored. *)
Definition accept_winner (artifact : string) (p : Path) (valid : result bool HaiderError)
    (on_valid : StoreM unit) : StoreM string :=
  ok <- st_lift valid ;;
  if ok : bool then on_valid ;;; st_ret artifact else fail (corrupt_object p).

(** ** [put_bytes] *)

(** A staged file in its shard: written by [write], then published. *)
Definition publish_staged (artifact : string) (p : Path) (policy : SyncPolicy) (t : Path)
    (write : StoreM unit) : StoreM string :=
  let d := parent p in
  written <- attempt write ;;
  match written with
  | Err error => cleanup_temporary t d policy ;;; fail error
  | Ok _ =>
      published <- attempt (publish_temporary t p) ;;
      match published with
      | Ok _ => cleanup_temporary t d policy ;;; st_ret artifact
      | Err error =>
          if bool_decide (error.(io_kind) = AlreadyExists) then
            valid <- attempt (verify_existing artifact p) ;;
            cleanup_temporary t d policy ;;;
            accept_winner artifact p valid (st_ret tt)
          else cleanup_temporary t d policy ;;; fail (io_error "publish CAS object" p error)
      end
  end.

(** The part that owns the temporary file: write, sync, publish, clean up. *)
Definition put_staged (artifact : string) (content : bytes) (p : Path) (policy : SyncPolicy)
    (t : Path) (i : nat) : StoreM string :=
  publish_staged artifact p policy t
    (or_io_error "persist temporary CAS object" t (write_all i content) ;;; sync_file i t policy).

Definition put_bytes (content : bytes) (policy : SyncPolicy) (defer_shard_sync : bool) : StoreM string :=
  let artifact := artifact_for content in
  p <- path_for artifact ;;
  let d := parent p in
  existing <- verify_existing artifact p ;;
  if existing : bool then
    (if defer_shard_sync then st_ret tt else sync_directory d policy) ;;; st_ret artifact
  else
    shard_exists <- or_io_error "" d (path_exists d) ;;
    or_io_error "create CAS shard" d (create_dir_all d) ;;;
    (if negb shard_exists && negb defer_shard_sync then sync_directory [] policy else st_ret tt) ;;;
    temporary <- create_temporary 32 d ;;
    scoped_temporary temporary.1 (put_staged artifact content p policy temporary.1 temporary.2).

Definition put (content : bytes) : StoreM string := put_bytes content Full false.

Definition put_batched (content : bytes) : StoreM string := put_bytes content Plain true.

Definition finish_batched_puts : StoreM unit := sync_directory [] Full.
Definition finish_ordered_batched_puts : StoreM unit := sync_directory [] Barrier.

Fixpoint put_each (blobs : list bytes) : StoreM (list string) :=
  match blobs with
  | [] => st_ret []
  | content :: blobs =>
      artifact <- put_batched content ;; artifacts <- put_each blobs ;; st_ret (artifact :: artifacts)
  end.

Definition put_batch (blobs : list bytes) : StoreM (list string) :=
  artifacts <- put_each blobs ;;
  (if bool_decide (blobs = []) then st_ret tt else finish_batched_puts) ;;;
  st_ret artifacts.

(** ** [put_batched_stream] *)

(** What the caller's closure writes, and how it ends if not well. *)
Record Source := { so_pieces : list bytes; so_error : option IoError }.

(** [CountingWriter], driven by a closure that stops at the first error. *)
Fixpoint stream_pieces (i : nat) (pieces : list bytes) (byte_len : N) : ST Fs IoError N :=
  match pieces with
  | [] => st_ret byte_len
  | content :: pieces =>
      write_all i content ;;;
      total <- st_lift (ok_or (checked_add_u64 byte_len (blen content))
                          (io_fail OtherIo "streamed CAS byte length overflow")) ;;
      stream_pieces i pieces total
  end.

Definition write_source (i : nat) (source : Source) : ST Fs IoError N :=
  byte_len <- stream_pieces i source.(so_pieces) 0%N ;;
  match source.(so_error) with Some error => st_lift (Err error) | None => st_ret byte_len end.

(** The address is the caller's: the bytes are counted, not hashed. *)
Definition put_batched_stream (expected : string) (expected_len : N) (source : Source) : StoreM string :=
  p <- path_for expected ;;
  existing <- verify_existing expected p ;;
  if existing : bool then st_ret expected
  else
    let d := parent p in
    or_io_error "create CAS shard" d (create_dir_all d) ;;;
    temporary <- create_temporary 32 d ;;
    let '(t, i) := temporary in
    scoped_temporary t (publish_staged expected p Plain t (
      actual_len <- or_io_error "persist temporary CAS object" t (write_source i source) ;;
      st_reject_if (negb (actual_len =? expected_len)%N)
        (store_error InvalidArgument
           "streamed CAS bytes do not match their provider-view byte length" false) ;;;
      sync_file i t Plain)).

(** ** Readers *)

Definition get (artifact : string) : StoreM bytes :=
  p <- path_for artifact ;;
  read <- attempt (i <- open_file p ;; read_handle i) ;;
  match read with
  | Ok content =>
      if String.eqb (artifact_for content) artifact then st_ret content else fail (corrupt_object p)
  | Err error =>
      if bool_decide (error.(io_kind) = NotFound)
      then fail (store_error InvalidArgument
             ("cannot read CAS object " ++ display p ++ ": " ++ error.(io_text))%string false)
      else fail (io_error "read CAS object" p error)
  end.

(** The handle that was hashed, rewound. *)
Definition open_verified (artifact : string) : StoreM nat :=
  p <- path_for artifact ;;
  opened <- attempt (open_file p) ;;
  match opened with
  | Err error =>
      if bool_decide (error.(io_kind) = NotFound)
      then fail (store_error InvalidArgument
             ("cannot read CAS object " ++ display p ++ ": " ++ error.(io_text))%string false)
      else fail (io_error "open CAS object" p error)
  | Ok i =>
      content <- or_io_error "hash CAS object" p (read_handle i) ;;
      if negb (String.eqb (artifact_for content) artifact) then fail (corrupt_object p)
      else or_io_error "rewind CAS object" p (rewind i) ;;; st_ret i
  end.

Definition verify (artifact : string) (fs : Fs) : bool * Fs :=
  match (p <- path_for artifact ;; verify_existing artifact p) fs with
  | (Ok b, fs) => (b, fs)
  | (Err _, fs) => (false, fs)
  end.

(** Reference-index garbage collection. *)
Definition remove (artifact : string) : StoreM unit :=
  p <- path_for artifact ;;
  removed <- attempt (remove_file p) ;;
  match removed with
  | Ok _ => sync_directory (parent p) Full
  | Err error =>
      if bool_decide (error.(io_kind) = NotFound) then st_ret tt
      else fail (io_error "remove CAS object" p error)
  end.

(** ** [CasUpload] *)

Record CasUpload := {
  up_temporary : option nat;
  up_path : Path;
  up_hashed : bytes;
  up_expected_len : N;
  up_received_len : N;
  up_failed : bool
}.

Definition begin_put (expected_len : N) : StoreM CasUpload :=
  temporary <- create_temporary 32 [] ;;
  st_ret {| up_temporary := Some temporary.2; up_path := temporary.1; up_hashed := [];
            up_expected_len := expected_len; up_received_len := 0; up_failed := false |}.

Definition fail_upload (u : CasUpload) : CasUpload :=
  {| up_temporary := u.(up_temporary); up_path := u.(up_path); up_hashed := u.(up_hashed);
     up_expected_len := u.(up_expected_len); up_received_len := u.(up_received_len); up_failed := true |}.

(** [write_chunk(&mut self, bytes)]: the result and the upload afterwards. *)
Definition write_chunk (u : CasUpload) (content : bytes) (fs : Fs)
  : result unit HaiderError * CasUpload * Fs :=
  let next_len := checked_add_u64 u.(up_received_len) (blen content) in
  if u.(up_failed) || match next_len with
                      | None => true
                      | Some length => (u.(up_expected_len) <? length)%N
                      end
  then (Err (store_error InvalidArgument
               "CAS upload exceeds its declared length or was previously aborted" false), fail_upload u, fs)
  else
    match u.(up_temporary) with
    | None => (Err (store_error Internal "CAS upload is closed" false), fail_upload u, fs)
    | Some i =>
        match write_all i content fs with
        | (Err error, fs) => (Err (io_error "write CAS upload" u.(up_path) error), fail_upload u, fs)
        | (Ok _, fs) =>
            (Ok tt, {| up_temporary := u.(up_temporary); up_path := u.(up_path);
                       up_hashed := u.(up_hashed) ++ content; up_expected_len := u.(up_expected_len);
                       up_received_len := default u.(up_received_len) next_len;
                       up_failed := u.(up_failed) |}, fs)
        end
    end.

(** The publication of a complete and synced file staged at the root;
    [abandon] is what an unexpected failure to link does first. *)
Definition publish_from_root (action : string) (abandon : StoreM unit) (expected : string) (t : Path)
  : StoreM string :=
  p <- path_for expected ;;
  let d := parent p in
  existing <- verify_existing expected p ;;
  if existing : bool then
    cleanup_temporary t [] Full ;;; sync_directory d Full ;;; st_ret expected
  else
    shard_exists <- or_io_error "" d (path_exists d) ;;
    or_io_error "create CAS shard" d (create_dir_all d) ;;;
    (if negb shard_exists then sync_directory [] Full else st_ret tt) ;;;
    published <- attempt (publish_temporary t p) ;;
    match published with
    | Ok _ => cleanup_temporary t [] Full ;;; sync_directory d Full ;;; st_ret expected
    | Err error =>
        if bool_decide (error.(io_kind) = AlreadyExists) then
          valid <- attempt (verify_existing expected p) ;;
          cleanup_temporary t [] Full ;;;
          accept_winner expected p valid (sync_directory d Full)
        else abandon ;;; fail (io_error action p error)
    end.

Definition publish_upload : string -> Path -> StoreM string := publish_from_root "publish CAS upload" (st_ret tt).

(** [finish(mut self, expected)]: the upload is dropped when it returns. *)
Definition finish (u : CasUpload) (expected : string) : StoreM string :=
  let t := u.(up_path) in
  scoped_temporary t (
    st_lift (parse_artifact_ref expected) ;;;
    st_reject_if (u.(up_failed) || negb (u.(up_received_len) =? u.(up_expected_len))%N
                  || negb (String.eqb (artifact_for u.(up_hashed)) expected))
      (store_error InvalidArgument
         "CAS upload length or BLAKE3 digest does not match its declaration" false) ;;;
    i <- st_lift (ok_or u.(up_temporary) (store_error Internal "CAS upload is closed" false)) ;;
    sync_file i t Full ;;; publish_upload expected t).

Definition finish_computed (u : CasUpload) : StoreM string := finish u (artifact_for u.(up_hashed)).

(** An upload that is dropped without [finish]. *)
Definition drop_upload (u : CasUpload) (fs : Fs) : Fs := drop_temporary u.(up_path) fs.

(** ** [put_file] *)

(** Reads until an empty one; hashed is what was written. *)
Fixpoint copy_reader (source_path : string) (t : Path) (i : nat) (reads : list (result bytes IoError))
    (hashed : bytes) : StoreM bytes :=
  match reads with
  | [] | Ok [] :: _ => st_ret hashed
  | Err error :: _ => fail (io_error_at "read CAS source" source_path error)
  | Ok content :: reads =>
      or_io_error "persist temporary CAS object" t (write_all i content) ;;;
      copy_reader source_path t i reads (hashed ++ content)
  end.

Definition put_reader (reads : list (result bytes IoError)) (source_path : string) : StoreM string :=
  temporary <- create_temporary 32 [] ;;
  let '(t, i) := temporary in
  scoped_temporary t (
    copied <- attempt (hashed <- copy_reader source_path t i reads [] ;;
                       sync_file i t Full ;;; st_ret (artifact_for hashed)) ;;
    match copied with
    | Err error => cleanup_temporary t [] Full ;;; fail error
    | Ok artifact => publish_from_root "publish CAS object" (cleanup_temporary t [] Full) artifact t
    end).

(** [source] is what opening the file gives. *)
Definition put_file (source : result (list (result bytes IoError)) IoError) (source_path : string) : StoreM string :=
  match source with
  | Err error => fail (io_error_at "open CAS source" source_path error)
  | Ok reads => put_reader reads source_path
  end.
End Cas.
