(* ===== verification/CasInv.v ===== *)
(** * Invariant of the content store

    What holds of the file system at every moment, whatever fails and whatever
    other processes do: every visible object whose name nobody outside the store
    tampered with is complete, matches its name and was handed to the device
    before it became visible; a temporary file belongs to its owner alone. *)

From S2P Require Import Prelude RustStr Digest ByteBuf FileSystem Cas.

Local Open Scope st_scope.

Definition is_object (p : Path) : Prop := exists hex, valid_hex hex = true /\ p = object_path hex.

(** The names under which something outside the store may leave what it likes. *)
Class Tampering := tampered : string -> Prop.

Definition touched `{Tampering} (p : Path) : Prop :=
  exists hex, valid_hex hex = true /\ tampered hex /\ p = object_path hex.

(** An act of another process stays within them. *)
Definition announced `{Tampering} (act : EnvAct) : Prop :=
  match act with
  | EnvForeign hex _ => tampered hex
  | EnvShard _ | EnvPublish _ => True
  end.

Section Inv.
Context `{Platform} `{Blake3} `{!Blake3Hex _} `{Tam : Tampering}.

Record Inv (fs : Fs) : Prop := {
  inv_inodes : forall p i, fs.(fs_dir) !! p = Some i -> i < fs.(fs_next) /\ is_Some (fs.(fs_inodes) !! i);
  inv_objects : forall hex i, valid_hex hex = true -> ~ tampered hex -> fs.(fs_dir) !! object_path hex = Some i ->
    exists b, fs.(fs_inodes) !! i = Some b /\ hash_hex b = hex /\
      fs.(fs_device).(dk_contents) !! i = Some b /\ shard_of hex ∈ fs.(fs_shards);
  inv_shards : fs.(fs_device).(dk_shards) ⊆ fs.(fs_shards);
  inv_stable : plain_durable = true -> fs.(fs_stable) = fs.(fs_device);
  inv_temps : forall t, t ∈ fs.(fs_temps) -> ~ is_object t;
  inv_events : Forall (fun e => Forall announced e.(ev_env)) fs.(fs_events)
}.

(** [t] is a live temporary file of inode [i] with content [b], and no other
    name leads to it. *)
Definition owned (fs : Fs) (t : Path) (i : nat) (b : bytes) : Prop :=
  t ∈ fs.(fs_temps) /\ fs.(fs_dir) !! t = Some i /\ fs.(fs_inodes) !! i = Some b /\
  forall p, fs.(fs_dir) !! p = Some i -> p = t.

(** Calls that leave every existing file alone, as do the other processes but
    for the names they tamper with. *)
Record neutral (fs fs' : Fs) : Prop := {
  n_dir : forall p i, ~ touched p -> fs.(fs_dir) !! p = Some i -> fs'.(fs_dir) !! p = Some i;
  n_new : forall p i, fs'.(fs_dir) !! p = Some i ->
    fs.(fs_dir) !! p = Some i \/ (fs.(fs_next) <= i /\ is_object p);
  n_inodes : forall i b, i < fs.(fs_next) -> fs.(fs_inodes) !! i = Some b -> fs'.(fs_inodes) !! i = Some b;
  n_contents : forall i b, i < fs.(fs_next) -> fs.(fs_inodes) !! i = Some b ->
    fs.(fs_device).(dk_contents) !! i = Some b -> fs'.(fs_device).(dk_contents) !! i = Some b;
  n_device_shards : fs.(fs_device).(dk_shards) ⊆ fs'.(fs_device).(dk_shards);
  n_shards : fs.(fs_shards) ⊆ fs'.(fs_shards);
  n_next : fs.(fs_next) <= fs'.(fs_next);
  n_temps : fs'.(fs_temps) = fs.(fs_temps)
}.

#[export] Instance neutral_preorder : PreOrder neutral.
Proof.
  split.
  - intros fs. split; eauto; done.
  - intros a b c H1 H2. split.
    + intros. apply H2; [done|]. by apply H1.
    + intros p i Hp. destruct (n_new _ _ H2 p i Hp) as [Hb|[Hn Ho]].
      * destruct (n_new _ _ H1 p i Hb) as [?|[? ?]]; eauto.
      * right. split; [|done]. pose proof (n_next _ _ H1). lia.
    + intros i b' Hi Hb. apply (n_inodes _ _ H2); [|by apply H1]. pose proof (n_next _ _ H1). lia.
    + intros i b' Hi Hb Hd. apply (n_contents _ _ H2); [pose proof (n_next _ _ H1); lia|by apply H1|].
      by eapply (n_contents _ _ H1).
    + etrans; [apply H1|apply H2].
    + etrans; [apply H1|apply H2].
    + etrans; [apply H1|apply H2].
    + etrans; [apply H2|apply H1].
Qed.

Lemma neutral_owned fs fs' t i b : Inv fs -> neutral fs fs' -> owned fs t i b -> owned fs' t i b.
Proof.
  intros Hi Hn (Ht & Hd & Hb & Hx). pose proof (inv_inodes _ Hi t i Hd) as [Hlt _].
  assert (~ touched t) by (intros (hex & ? & _ & ->); apply (inv_temps _ Hi _ Ht); by exists hex).
  split; [rewrite (n_temps _ _ Hn); done|]. split; [by apply Hn|]. split; [by apply Hn|].
  intros p Hp. destruct (n_new _ _ Hn p i Hp) as [?|[? _]]; [by apply Hx|lia].
Qed.

Lemma hash_valid content : valid_hex (hash_hex content) = true.
Proof.
  unfold valid_hex, hash_hex. rewrite blake3_hex_len, blake3_hex_digits. done.
Qed.

Lemma object_path_inj hex hex' : object_path hex = object_path hex' -> hex = hex'.
Proof. unfold object_path. by intros [= _ ->]. Qed.

Lemma untouched hex : ~ tampered hex -> ~ touched (object_path hex).
Proof. intros Hn (hex' & _ & Ht & ->%object_path_inj). done. Qed.

(** ** Other processes *)

(** An outside process puts a file of its own under a name, or removes what is there. *)
Lemma foreign_inv fs hex content : Inv fs -> tampered hex ->
  Inv (env_step fs (EnvForeign hex content)) /\ neutral fs (env_step fs (EnvForeign hex content)).
Proof.
  intros [H1 H2 H3 H4 H5 H6] Ht. cbn [env_step]. destruct (valid_hex hex) eqn:Hv; [|by split].
  assert (Hne : forall p, ~ touched p -> object_path hex <> p) by (intros p Hp <-; apply Hp; by exists hex).
  destruct content as [content|]; cbn [negb].
  - split; split; simpl; try done; try (by apply union_subseteq_r'); try (by apply union_subseteq_r).
    + intros p i. rewrite lookup_insert_Some. intros [[<- <-]|[_ Hp]].
      * split; [lia|]. rewrite lookup_insert_eq. eauto.
      * destruct (H1 p i Hp). split; [lia|]. by rewrite lookup_insert_ne by lia.
    + intros hex' i Hv' Hn. rewrite lookup_insert_ne by by apply Hne, untouched. intros Hp.
      destruct (H1 _ i Hp) as [? _]. rewrite lookup_insert_ne by lia.
      destruct (H2 hex' i Hv' Hn Hp) as (b & ? & ? & ? & ?). exists b.
      split; [done|]. split; [done|]. split; [done|]. apply elem_of_union. by right.
    + intros p i Hp. by rewrite lookup_insert_ne by by apply Hne.
    + intros p i. rewrite lookup_insert_Some. intros [[<- <-]|[_ Hp]]; [|by left].
      right. split; [done|]. by exists hex.
    + intros i b Hlt. by rewrite lookup_insert_ne by lia.
    + lia.
  - split; split; simpl; try done.
    + intros p i [_ Hp]%lookup_delete_Some. by apply (H1 p).
    + intros hex' i Hv' Hn [_ Hp]%lookup_delete_Some. by apply H2.
    + intros p i Hp. by rewrite lookup_delete_ne by by apply Hne.
    + intros p i [_ Hp]%lookup_delete_Some. by left.
Qed.

Lemma env_step_inv fs act : Inv fs -> announced act -> Inv (env_step fs act) /\ neutral fs (env_step fs act).
Proof.
  intros Hi Hann. assert (Hsh : forall s, Inv (with_shards fs ({[s]} ∪ fs.(fs_shards)))
    /\ neutral fs (with_shards fs ({[s]} ∪ fs.(fs_shards)))).
  { intros s. destruct Hi as [H1 H2 H3 H4 H5 H6]. split; split; simpl; try done; try (by apply union_subseteq_r'); try (by apply union_subseteq_r); eauto.
    intros hex i Hv Hn Hd. destruct (H2 hex i Hv Hn Hd) as (b & ? & ? & ? & ?). exists b.
    split; [done|]. split; [done|]. split; [done|]. apply elem_of_union. by right. }
  destruct act as [s|content|hex content]; [apply Hsh| |by apply foreign_inv]. cbn [env_step].
  destruct (Hsh (shard_of (hash_hex content))) as [Hi1 Hn1].
  set (fs1 := with_shards fs _) in *.
  destruct (fs_dir fs1 !! object_path (hash_hex content)) as [j|] eqn:Hd; [done|].
  assert (Hsin : shard_of (hash_hex content) ∈ fs_shards fs1) by (unfold fs1; simpl; set_solver).
  clearbody fs1. destruct Hi1 as [H1 H2 H3 H4 H5 H6].
  assert (Hin : forall i, i <> fs_next fs1 -> fs_inodes fs1 !! i = (<[fs_next fs1:=content]> (fs_inodes fs1)) !! i)
    by (intros; by rewrite lookup_insert_ne).
  split.
  - split; unfold flush_file, with_new_file, with_device; simpl; rewrite ?lookup_insert_eq.
    + intros p i. rewrite lookup_insert_Some. intros [[<- <-]|[_ Hp]].
      * split; [lia|]. rewrite lookup_insert_eq. eauto.
      * destruct (H1 p i Hp) as [? ?]. split; [lia|]. by rewrite lookup_insert_ne by lia.
    + intros hex i Hv Hn. rewrite lookup_insert_Some. intros [[Hp <-]|[_ Hp]].
      * apply object_path_inj in Hp as <-. exists content. rewrite !lookup_insert_eq. done.
      * destruct (H1 _ i Hp) as [? _]. destruct (H2 hex i Hv Hn Hp) as (b & ? & ? & ? & ?).
        exists b. rewrite !lookup_insert_ne by lia. done.
    + done.
    + intros Hp. rewrite Hp, ?orb_true_r. done.
    + done.
    + done.
  - etrans; [exact Hn1|]. split; unfold flush_file, with_new_file, with_device; simpl; rewrite ?lookup_insert_eq.
    + intros p i _ Hp. rewrite lookup_insert_ne; [done|]. intros <-. congruence.
    + intros p i. rewrite lookup_insert_Some. intros [[<- <-]|[_ Hp]]; [|by left].
      right. split; [done|]. exists (hash_hex content). split; [apply hash_valid|done].
    + intros i b Hlt Hb. by rewrite lookup_insert_ne by lia.
    + intros i b Hlt Hb Hc. by rewrite lookup_insert_ne by lia.
    + done.
    + done.
    + lia.
    + done.
Qed.

Lemma env_steps_inv acts : forall fs, Inv fs -> Forall announced acts ->
  Inv (foldl env_step fs acts) /\ neutral fs (foldl env_step fs acts).
Proof.
  induction acts as [|act acts IH]; intros fs Hi Hall; simpl; [by split|].
  apply Forall_cons in Hall as [Ha Hall].
  destruct (env_step_inv fs act Hi Ha) as [Hi1 Hn1]. destruct (IH _ Hi1 Hall) as [Hi2 Hn2].
  split; [done|]. by etrans.
Qed.

Lemma tick_inv fs fault fs' : Inv fs -> tick fs = (fault, fs') -> Inv fs' /\ neutral fs fs'.
Proof.
  intros Hi. pose proof (inv_events _ Hi) as Hev. unfold tick.
  destruct (fs_events fs) as [|e events]; [intros [= _ <-]; by split|]. apply Forall_cons in Hev as [He Hev].
  intros [= _ <-]. assert (Hi' : Inv (with_events fs events) /\ neutral fs (with_events fs events)).
  { destruct Hi. split; split; simpl; eauto; done. }
  destruct Hi' as [Hi1 Hn1]. destruct (env_steps_inv (ev_env e) _ Hi1 He) as [Hi2 Hn2].
  split; [done|]. by etrans.
Qed.

(** ** Calls that touch no existing file *)

Definition neutral_op {E A} (m : ST Fs E A) : Prop :=
  forall fs r fs', Inv fs -> m fs = (r, fs') -> Inv fs' /\ neutral fs fs'.

Lemma neutral_ret {E A} (a : A) : neutral_op (st_ret a : ST Fs E A).
Proof. intros fs r fs' Hi [= _ <-]. by split. Qed.
Lemma neutral_lift {E A} (v : result A E) : neutral_op (st_lift v).
Proof. intros fs r fs' Hi [= _ <-]. by split. Qed.

Lemma neutral_bind {E A B} (m : ST Fs E A) (k : A -> ST Fs E B) :
  neutral_op m -> (forall a, neutral_op (k a)) -> neutral_op (st_bind m k).
Proof.
  intros Hm Hk fs r fs' Hi. unfold st_bind. destruct (m fs) as [[a|e] fs1] eqn:E1.
  - intros E2. destruct (Hm _ _ _ Hi E1) as [Hi1 Hn1]. destruct (Hk a _ _ _ Hi1 E2) as [Hi2 Hn2].
    split; [done|]. by etrans.
  - intros [= _ <-]. by eapply Hm.
Qed.

Lemma neutral_attempt {E E' A} (m : ST Fs E A) : neutral_op m -> neutral_op (attempt m : ST Fs E' _).
Proof.
  intros Hm fs r fs' Hi. unfold attempt. destruct (m fs) as [v fs1] eqn:E1. intros [= _ <-]. by eapply Hm.
Qed.

Lemma neutral_or_io {A} action p (m : ST Fs IoError A) : neutral_op m -> neutral_op (or_io_error action p m).
Proof.
  intros Hm fs r fs' Hi. unfold or_io_error. destruct (m fs) as [v fs1] eqn:E1. intros [= _ <-]. by eapply Hm.
Qed.

Lemma neutral_syscall {A} (op : ST Fs IoError A) : neutral_op op -> neutral_op (syscall op).
Proof.
  intros Hm fs r fs' Hi. unfold syscall. destruct (tick fs) as [[[e k]|] fs1] eqn:E1;
    destruct (tick_inv _ _ _ Hi E1) as [Hi1 Hn1].
  - intros [= _ <-]. done.
  - intros E2. destruct (Hm _ _ _ Hi1 E2). split; [done|]. by etrans.
Qed.

Lemma flush_file_inv policy i fs : Inv fs -> Inv (flush_file policy i fs) /\ neutral fs (flush_file policy i fs).
Proof.
  intros [H1 H2 H3 H4 H5 H6]. unfold flush_file, with_device. split; split; simpl; eauto; try done.
  - intros hex j Hv Hn Hd. destruct (H2 hex j Hv Hn Hd) as (b & Hb & Hh & Hc & Hs). exists b.
    split; [done|]. split; [done|]. split; [|done]. destruct (fs_inodes fs !! i) as [c|] eqn:Ei; [|done].
    rewrite lookup_insert_Some. destruct (decide (i = j)) as [->|]; [left; split; congruence|right; done].
  - intros Hp. rewrite Hp, orb_true_r. done.
  - intros j b _ Hb Hc. destruct (fs_inodes fs !! i) as [c|] eqn:Ei; [|done].
    rewrite lookup_insert_Some. destruct (decide (i = j)) as [->|]; [left; split; congruence|right; done].
Qed.

Lemma flush_directory_inv policy d fs :
  Inv fs -> Inv (flush_directory policy d fs) /\ neutral fs (flush_directory policy d fs).
Proof.
  intros [H1 H2 H3 H4 H5 H6]. unfold flush_directory, with_device. split; split; simpl; eauto; try done.
  - by case_bool_decide.
  - intros Hp. rewrite Hp, orb_true_r. done.
  - by case_bool_decide.
Qed.

Lemma neutral_fsync_file i policy : neutral_op (fsync_file i policy).
Proof. apply neutral_syscall. intros fs r fs' Hi [= _ <-]. by apply flush_file_inv. Qed.
Lemma neutral_sync_directory d policy : neutral_op (sync_directory d policy).
Proof.
  apply neutral_or_io, neutral_syscall. intros fs r fs' Hi [= _ <-]. by apply flush_directory_inv.
Qed.
Lemma neutral_sync_file i p policy : neutral_op (sync_file i p policy).
Proof. apply neutral_or_io, neutral_fsync_file. Qed.

Lemma neutral_pure {E A} (m : ST Fs E A) : (forall fs, exists v, m fs = (v, fs)) -> neutral_op m.
Proof. intros Hm fs r fs' Hi Hr. destruct (Hm fs) as [v Hv]. rewrite Hv in Hr. simplify_eq. by split. Qed.

Lemma neutral_open p : neutral_op (open_file p).
Proof. apply neutral_syscall, neutral_pure. intros fs. destruct (fs_dir fs !! p); eauto. Qed.
Lemma neutral_read i : neutral_op (read_handle i).
Proof. apply neutral_syscall, neutral_pure. eauto. Qed.
Lemma neutral_rewind i : neutral_op (rewind i).
Proof. apply neutral_syscall, neutral_pure. eauto. Qed.

Lemma neutral_path_exists d : neutral_op (path_exists d).
Proof.
  intros fs r fs' Hi. unfold path_exists. destruct (tick fs) as [[[e k]|] fs1] eqn:E1;
    destruct (tick_inv _ _ _ Hi E1) as [Hi1 Hn1]; by intros [= _ <-].
Qed.

Lemma neutral_create_dir_all d : neutral_op (create_dir_all d).
Proof.
  apply neutral_syscall. intros fs r fs' Hi. destruct d as [|s [|]]; intros [= _ <-]; try by split.
  exact (env_step_inv fs (EnvShard s) Hi I).
Qed.

Lemma neutral_path_for artifact : neutral_op (path_for artifact).
Proof. apply neutral_bind; [apply neutral_lift|intros; apply neutral_ret]. Qed.

Lemma neutral_verify_existing artifact p : neutral_op (verify_existing artifact p).
Proof.
  apply neutral_bind; [apply neutral_attempt, neutral_open|]. intros [i|e].
  - apply neutral_bind; [apply neutral_or_io, neutral_read|intros; apply neutral_ret].
  - case_bool_decide; [apply neutral_ret|apply neutral_lift].
Qed.

(** A handle keeps the file it was opened on, whatever happens to the name. *)
Lemma open_file_ok p fs i fs' : Inv fs -> open_file p fs = (Ok i, fs') ->
  fs'.(fs_dir) !! p = Some i /\ i < fs'.(fs_next) /\ exists b, fs'.(fs_inodes) !! i = Some b.
Proof.
  intros Hi Eo. destruct (neutral_open p _ _ _ Hi Eo) as [Hi1 _].
  assert (Hd : fs_dir fs' !! p = Some i).
  { revert Eo. unfold open_file, syscall. destruct (tick fs) as [[[e k]|] fs2]; [done|].
    destruct (fs_dir fs2 !! p) eqn:Ed; intros [= <- <-]. done. }
  split; [done|]. exact (inv_inodes _ Hi1 p i Hd).
Qed.

Lemma read_handle_ok i content fs fs' : Inv fs -> i < fs.(fs_next) -> is_Some (fs.(fs_inodes) !! i) ->
  read_handle i fs = (Ok content, fs') -> fs'.(fs_inodes) !! i = Some content.
Proof.
  intros Hi Hlt [b Hb]. unfold read_handle, syscall. destruct (tick fs) as [[[e k]|] fs1] eqn:Et; [done|].
  intros [= <- <-]. destruct (tick_inv _ _ _ Hi Et) as [_ Hn]. by rewrite (n_inodes _ _ Hn i b Hlt Hb).
Qed.

(** What a positive verification means afterwards. *)
Lemma verify_existing_true artifact p fs fs' :
  Inv fs -> ~ touched p -> verify_existing artifact p fs = (Ok true, fs') ->
  exists i b, fs'.(fs_dir) !! p = Some i /\ fs'.(fs_inodes) !! i = Some b /\ artifact_for b = artifact.
Proof.
  intros Hi Hp. unfold verify_existing. intros (opened & fs1 & Ho & E)%st_bind_ok.
  unfold attempt in Ho. destruct (open_file p fs) as [v fs0] eqn:Eo. injection Ho as <- <-.
  destruct (neutral_open p _ _ _ Hi Eo) as [Hi0 Hn0].
  destruct v as [i|e]; [|by destruct (bool_decide _)].
  destruct (open_file_ok _ _ _ _ Hi Eo) as (Hd & Hlt & Hs).
  apply st_bind_ok in E as (content & fs2 & Hr & E). injection E as E <-.
  assert (Hr' : read_handle i fs0 = (Ok content, fs2)).
  { revert Hr. unfold or_io_error. destruct (read_handle i fs0) as [[c|e] fs3]; simpl; congruence. }
  destruct (neutral_read i _ _ _ Hi0 Hr') as [Hi2 Hn2]. exists i, content.
  split; [by apply Hn2|]. split; [|by apply String.eqb_eq]. exact (read_handle_ok _ _ _ _ Hi0 Hlt Hs Hr').
Qed.

(** ** A function that owns one temporary file *)

(** Objects stay, and so do the temporary files of everyone but [t]. *)
Record step (t : Path) (fs fs' : Fs) : Prop := {
  s_objects : forall p i b, is_object p -> ~ touched p -> fs.(fs_dir) !! p = Some i -> fs.(fs_inodes) !! i = Some b ->
    fs'.(fs_dir) !! p = Some i /\ fs'.(fs_inodes) !! i = Some b;
  s_device_shards : fs.(fs_device).(dk_shards) ⊆ fs'.(fs_device).(dk_shards);
  s_shards : fs.(fs_shards) ⊆ fs'.(fs_shards);
  s_owned : forall t' i b, t' <> t -> owned fs t' i b -> owned fs' t' i b
}.

#[export] Instance step_preorder t : PreOrder (step t).
Proof.
  split.
  - intros fs. split; eauto; done.
  - intros a b c H1 H2. split.
    + intros p i x Ho Hu Hd Hb. destruct (s_objects _ _ _ H1 p i x Ho Hu Hd Hb) as [? ?]. by apply H2.
    + etrans; [apply H1|apply H2].
    + etrans; [apply H1|apply H2].
    + intros t' i x Ht Hx. apply (s_owned _ _ _ H2); [done|]. by apply H1.
Qed.

Lemma neutral_step t fs fs' : Inv fs -> neutral fs fs' -> step t fs fs'.
Proof.
  intros Hi Hn. split.
  - intros p i b _ Hu Hd Hb. pose proof (inv_inodes _ Hi p i Hd) as [? _]. split; by apply Hn.
  - apply Hn.
  - apply Hn.
  - intros t' i b _. by apply neutral_owned.
Qed.

Lemma temporary_not_object d counter : ~ is_object (d ++ [temporary_name counter]).
Proof.
  intros (hex & Hv & E). unfold object_path in E.
  assert (Eh : temporary_name counter = hex).
  { destruct d as [|s [|s' [|s'' d]]]; simpl in E; by simplify_eq. }
  rewrite <- Eh in Hv. unfold valid_hex, temporary_name in Hv. by rewrite andb_comm in Hv.
Qed.

Lemma with_counter_inv fs c : Inv fs -> Inv (with_counter fs c) /\ neutral fs (with_counter fs c).
Proof. intros []. split; split; simpl; eauto; done. Qed.

Lemma create_new_ok p fs i fs' :
  Inv fs -> ~ is_object p -> create_new p fs = (Ok i, fs') ->
  exists fs1, Inv fs1 /\ neutral fs fs1 /\ fs1.(fs_dir) !! p = None /\ i = fs1.(fs_next) /\
    fs' = with_new_file fs1 p [].
Proof.
  intros Hi Hp. unfold create_new, syscall. destruct (tick fs) as [[[e k]|] fs1] eqn:Et; [done|].
  destruct (tick_inv _ _ _ Hi Et) as [Hi1 Hn1].
  destruct (negb _); [done|]. destruct (fs_dir fs1 !! p) eqn:Ed; [done|]. intros [= <- <-].
  exists fs1. done.
Qed.

Lemma create_new_err p fs e fs' : Inv fs -> create_new p fs = (Err e, fs') -> Inv fs' /\ neutral fs fs'.
Proof.
  intros Hi. unfold create_new, syscall. destruct (tick fs) as [[[e' k]|] fs1] eqn:Et;
    destruct (tick_inv _ _ _ Hi Et) as [Hi1 Hn1]; [by intros [= _ <-]|].
  destruct (negb _); [by intros [= _ <-]|]. destruct (fs_dir fs1 !! p) eqn:Ed; by intros [= _ <-].
Qed.

(** A fresh temporary file. *)
Lemma new_file_inv fs p :
  Inv fs -> ~ is_object p -> fs.(fs_dir) !! p = None ->
  let fs' := with_temps (with_new_file fs p []) ({[p]} ∪ fs.(fs_temps)) in
  Inv fs' /\ step p fs fs' /\ owned fs' p fs.(fs_next) [] /\ forall t i b, owned fs t i b -> t <> p.
Proof.
  intros [H1 H2 H3 H4 H5 H6] Hp Hd fs'.
  assert (Hne : forall q i, fs_dir fs !! q = Some i -> i <> fs_next fs /\ q <> p).
  { intros q i Hq. destruct (H1 q i Hq) as [? _]. split; [lia|]. intros ->. congruence. }
  split; [split; simpl|split; [split; simpl|split]].
  - intros q i. rewrite lookup_insert_Some. intros [[<- <-]|[_ Hq]].
    + split; [lia|]. rewrite lookup_insert_eq. eauto.
    + destruct (H1 q i Hq). split; [lia|]. by rewrite lookup_insert_ne by lia.
  - intros hex i Hv Hn. rewrite lookup_insert_Some. intros [[-> _]|[_ Hq]]; [destruct Hp; by exists hex|].
    destruct (Hne _ _ Hq) as [? _]. rewrite lookup_insert_ne by done. by apply H2.
  - done.
  - done.
  - intros t [->%elem_of_singleton|Ht]%elem_of_union; [done|by apply H5].
  - done.
  - intros q i b _ _ Hq Hb. destruct (Hne q i Hq) as [? ?]. by rewrite !lookup_insert_ne by done.
  - done.
  - done.
  - intros t i b Ht (Ht1 & Ht2 & Ht3 & Ht4). destruct (Hne t i Ht2) as [? ?]. split; simpl; [set_solver|].
    rewrite !lookup_insert_ne by done. split; [done|]. split; [done|].
    intros q. rewrite lookup_insert_Some. intros [[_ ?]|[_ ?]]; [done|by apply Ht4].
  - split; simpl; [set_solver|]. rewrite !lookup_insert_eq. split; [done|]. split; [done|].
    intros q. rewrite lookup_insert_Some. intros [[<- _]|[_ Hq]]; [done|]. by destruct (Hne q _ Hq).
  - intros t i b (_ & Ht & _). by apply (Hne t i).
Qed.

Lemma create_temporary_ok attempts d : forall fs r fs',
  Inv fs -> create_temporary attempts d fs = (r, fs') ->
  Inv fs' /\
  match r with
  | Ok (t, i) => step t fs fs' /\ owned fs' t i [] /\ parent t = d /\ forall t' i' b', owned fs t' i' b' -> t' <> t
  | Err _ => neutral fs fs'
  end.
Proof.
  induction attempts as [|attempts IH]; intros fs r fs' Hi; cbn [create_temporary].
  { intros [= <- <-]. by split. }
  unfold st_bind at 1, next_counter. set (c := fs_counter fs). set (fs0 := with_counter fs _).
  destruct (with_counter_inv fs (N.modulo (c + 1) (u64_max + 1)) Hi) as [Hi0 Hn0].
  fold fs0 in Hi0, Hn0. clearbody fs0.
  pose proof (temporary_not_object d c) as Hp.
  set (p := d ++ [temporary_name c]) in *.
  unfold st_bind, attempt. destruct (create_new p fs0) as [[i|e] fs1] eqn:Ec.
  - destruct (create_new_ok p fs0 i fs1 Hi0 Hp Ec) as (fs2 & Hi2 & Hn2 & Hd & -> & ->).
    unfold own_temporary, st_modify, st_ret. intros [= <- <-].
    destruct (new_file_inv fs2 p Hi2 Hp Hd) as (Ha & Hb & Hc & Hx). simpl in Ha, Hb, Hc.
    assert (Hn : neutral fs fs2) by (by etrans).
    split; [exact Ha|]. split; [etrans; [exact (neutral_step _ _ _ Hi Hn)|exact Hb]|]. split; [exact Hc|].
    split; [unfold p, parent; apply removelast_last|].
    intros t' i' b' Ht. exact (Hx _ _ _ (neutral_owned _ _ _ _ _ Hi Hn Ht)).
  - destruct (create_new_err p fs0 e fs1 Hi0 Ec) as [Hi1 Hn1]. case_bool_decide.
    + intros E. destruct (IH _ _ _ Hi1 E) as [Hi3 Hr]. split; [done|].
      assert (Hn : neutral fs fs1) by (by etrans). destruct r as [[t i]|e'].
      * destruct Hr as (Hs & Ho & Hpar & Hx). split; [etrans; [exact (neutral_step _ _ _ Hi Hn)|done]|].
        split; [done|]. split; [done|]. intros t' i' b' Ht. exact (Hx _ _ _ (neutral_owned _ _ _ _ _ Hi Hn Ht)).
      * by etrans.
    + intros [= <- <-]. split; [done|]. by etrans.
Qed.

(** Appending to one's own file. *)
Lemma append_inv fs t i b c :
  Inv fs -> owned fs t i b ->
  Inv (with_inode fs i c) /\ step t fs (with_inode fs i c) /\ owned (with_inode fs i c) t i c.
Proof.
  intros [H1 H2 H3 H4 H5 H6] (Ht & Hd & Hb & Hx).
  assert (Hne : forall p j, p <> t -> fs_dir fs !! p = Some j -> j <> i) by (intros p j Hp Hj ->; by apply Hp, Hx).
  assert (Hto : ~ is_object t) by (by apply H5).
  split; [split; simpl|split; [split; simpl|]].
  - intros p j Hp. destruct (H1 p j Hp) as [? Hs]. split; [done|].
    destruct (decide (j = i)) as [->|]; [rewrite lookup_insert_eq; eauto|by rewrite lookup_insert_ne].
  - intros hex j Hv Hn Hj. rewrite lookup_insert_ne; [by apply H2|]. symmetry. eapply Hne; [|done].
    intros <-. destruct Hto. by exists hex.
  - done.
  - done.
  - done.
  - done.
  - intros p j x Ho _ Hj Hxx. split; [done|]. rewrite lookup_insert_ne; [done|]. symmetry.
    eapply Hne; [|done]. by intros ->.
  - done.
  - done.
  - intros t' j x Ht' (Ha & Hb' & Hc & Hd'). split; [done|]. split; [done|]. split; [|done]. simpl.
    rewrite lookup_insert_ne; [done|]. symmetry. by eapply Hne.
  - split; [done|]. split; [done|]. split; [simpl; by rewrite lookup_insert_eq|done].
Qed.

Lemma write_all_ok fs t i b content r fs' :
  Inv fs -> owned fs t i b -> write_all i content fs = (r, fs') ->
  Inv fs' /\ step t fs fs' /\
  match r with Ok _ => owned fs' t i (b ++ content) | Err _ => exists b', owned fs' t i b' end.
Proof.
  intros Hi Ho. unfold write_all. destruct (tick fs) as [[[e k]|] fs1] eqn:Et;
    destruct (tick_inv _ _ _ Hi Et) as [Hi1 Hn1];
    pose proof (neutral_owned _ _ _ _ _ Hi Hn1 Ho) as Ho1; pose proof Ho1 as (_ & _ & Hb & _);
    pose proof (neutral_step t _ _ Hi Hn1) as Hs1; rewrite Hb; intros [= <- <-]; cbn [default].
  - destruct (append_inv fs1 t i b (b ++ take k content) Hi1 Ho1) as (? & ? & ?).
    split; [done|]. split; [by etrans|]. eauto.
  - destruct (append_inv fs1 t i b (b ++ content) Hi1 Ho1) as (? & ? & ?).
    split; [done|]. split; [by etrans|]. done.
Qed.

(** Making a complete, synced temporary file visible under its digest. *)
Lemma link_inv fs t i b hex (keep : bool) :
  Inv fs -> owned fs t i b -> fs.(fs_device).(dk_contents) !! i = Some b -> valid_hex hex = true ->
  hash_hex b = hex \/ tampered hex ->
  fs.(fs_dir) !! object_path hex = None -> shard_of hex ∈ fs.(fs_shards) ->
  let fs' := with_dir fs (<[object_path hex := i]> (if keep then fs.(fs_dir) else delete t fs.(fs_dir))) in
  Inv fs' /\ step t fs fs' /\ fs'.(fs_dir) !! object_path hex = Some i /\
  fs'.(fs_inodes) !! i = Some b /\ t ∈ fs'.(fs_temps).
Proof.
  intros [H1 H2 H3 H4 H5 H6] (Ht & Hd & Hb & Hx) Hc Hv0 Hh Hn Hs fs'.
  set (o := object_path hex) in *.
  assert (Hold : forall p j, (if keep then fs_dir fs else delete t (fs_dir fs)) !! p = Some j -> fs_dir fs !! p = Some j).
  { intros p j. destruct keep; [done|]. rewrite lookup_delete_Some. tauto. }
  assert (Hoo : is_object o) by (by exists hex).
  assert (Hkeep : forall p j, p <> t -> p <> o -> fs_dir fs !! p = Some j -> fs_dir fs' !! p = Some j).
  { intros p j Hp1 Hp2 Hp. simpl. rewrite lookup_insert_ne by done. destruct keep; [done|].
    by rewrite lookup_delete_ne. }
  split; [split; simpl|split; [split; simpl|]].
  - intros p j. rewrite lookup_insert_Some. intros [[_ <-]|[_ Hp%Hold]]; [by apply (H1 t)|by apply (H1 p)].
  - intros hex' j Hv Hnt. rewrite lookup_insert_Some. intros [[Hp <-]|[_ Hp%Hold]]; [|by apply H2].
    apply object_path_inj in Hp as <-. destruct Hh as [Hh|]; [|done]. exists b. done.
  - done.
  - done.
  - done.
  - done.
  - intros p j x Ho _ Hj Hxx. split; [|done]. apply Hkeep; [|by intros ->; congruence|done].
    intros ->. by apply (H5 t).
  - done.
  - done.
  - intros t' j x Ht' (Ha & Hb' & Hc' & Hd'). split; [done|].
    assert (t' <> o) by (intros ->; by apply (H5 o)).
    split; [by apply Hkeep|]. split; [done|]. intros p. simpl. rewrite lookup_insert_Some.
    intros [[<- <-]|[_ Hp%Hold]]; [|by apply Hd']. exfalso. apply Ht'. by apply Hx.
  - simpl. rewrite lookup_insert_eq. done.
Qed.

Definition visible (fs : Fs) (hex : string) : Prop :=
  exists i b, fs.(fs_dir) !! object_path hex = Some i /\ fs.(fs_inodes) !! i = Some b /\ hash_hex b = hex.

Definition linked (fs : Fs) (keep : bool) (t : Path) (i : nat) (hex : string) : Fs :=
  with_dir fs (<[object_path hex := i]> (if keep then fs.(fs_dir) else delete t fs.(fs_dir))).

(** What a successful publication leaves. *)
Definition published (fs : Fs) (t : Path) (b : bytes) (hex : string) : Prop :=
  (hash_hex b = hex -> visible fs hex) /\ t ∈ fs.(fs_temps).

Section Publish.
(** A complete file of one's own that was synced, and the name it is published
    under: its digest, unless the name is tampered with anyway. *)
Context (t : Path) (i : nat) (b : bytes) (hex : string).
Context (Hv : valid_hex hex = true) (Hh : hash_hex b = hex \/ tampered hex).

Lemma link_call fs (keep : bool) r fs' :
  Inv fs -> owned fs t i b -> fs.(fs_device).(dk_contents) !! i = Some b ->
  (if keep then hard_link t (object_path hex) else rename_noreplace t (object_path hex)) fs = (r, fs') ->
  Inv fs' /\ step t fs fs' /\ match r with Ok _ => published fs' t b hex | Err _ => neutral fs fs' end.
Proof.
  intros Hi Ho Hc. set (o := object_path hex).
  assert (Hcall : (if keep then hard_link t o else rename_noreplace t o) fs =
    syscall (fun fs => match fs.(fs_dir) !! t, fs.(fs_dir) !! o with
      | None, _ => (Err (io_fail NotFound "no such file"), fs)
      | Some _, Some _ => (Err (io_fail AlreadyExists "file exists"), fs)
      | Some j, None => if directory_exists fs (parent o) then (Ok tt, linked fs keep t j hex)
                        else (Err (io_fail NotFound "no such directory"), fs)
      end) fs) by (by destruct keep).
  rewrite Hcall. clear Hcall. unfold syscall.
  destruct (tick fs) as [[[e k]|] fs1] eqn:Et; destruct (tick_inv _ _ _ Hi Et) as [Hi1 Hn1];
    pose proof (neutral_step t _ _ Hi Hn1) as Hs1; [by intros [= <- <-]|].
  pose proof (neutral_owned _ _ _ _ _ Hi Hn1 Ho) as Ho1. pose proof Ho1 as (_ & Hd1 & _ & _).
  assert (Hc1 : dk_contents (fs_device fs1) !! i = Some b).
  { destruct Ho as (_ & Hd & Hb & _). apply (n_contents _ _ Hn1); [by apply (inv_inodes _ Hi t)|done..]. }
  rewrite Hd1. destruct (fs_dir fs1 !! o) eqn:Eo; [by intros [= <- <-]|].
  destruct (directory_exists fs1 (parent o)) eqn:Ed; [|by intros [= <- <-]]. intros [= <- <-].
  assert (Hsh : shard_of hex ∈ fs_shards fs1).
  { unfold o, object_path, parent in Ed. simpl in Ed. by apply bool_decide_eq_true in Ed. }
  destruct (link_inv fs1 t i b hex keep Hi1 Ho1 Hc1 Hv Hh Eo Hsh) as (Ha & Hb & Hvis & Hin & Ht).
  split; [exact Ha|]. split; [etrans; [exact Hs1|exact Hb]|].
  split; [intros Hb'; exists i, b; auto|exact Ht].
Qed.

Lemma publish_ok fs r fs' :
  Inv fs -> owned fs t i b -> fs.(fs_device).(dk_contents) !! i = Some b ->
  publish_temporary t (object_path hex) fs = (r, fs') ->
  Inv fs' /\ step t fs fs' /\ match r with Ok _ => published fs' t b hex | Err _ => neutral fs fs' end.
Proof.
  intros Hi Ho Hc. unfold publish_temporary.
  destruct (hard_link t _ fs) as [[u|e] fs1] eqn:E1;
    pose proof (link_call fs true _ _ Hi Ho Hc E1) as (Hi1 & Hs1 & Hr1).
  - intros [= <- <-]. done.
  - destruct (_ && _); [|by intros [= <- <-]]. intros E2.
    pose proof (neutral_owned _ _ _ _ _ Hi Hr1 Ho) as Ho1.
    assert (Hc1 : dk_contents (fs_device fs1) !! i = Some b).
    { destruct Ho as (_ & Hd & Hb & _). apply (n_contents _ _ Hr1); [by apply (inv_inodes _ Hi t)|done..]. }
    pose proof (link_call fs1 false _ _ Hi1 Ho1 Hc1 E2) as (Hi2 & Hs2 & Hr2).
    split; [done|]. split; [by etrans|]. destruct r; [done|]. by etrans.
Qed.
End Publish.

(** Removing a temporary name. *)
Lemma delete_inv fs t : Inv fs -> t ∈ fs.(fs_temps) ->
  Inv (with_dir fs (delete t fs.(fs_dir))) /\ step t fs (with_dir fs (delete t fs.(fs_dir))).
Proof.
  intros [H1 H2 H3 H4 H5 H6] Ht. split; split; simpl.
  - intros p i [_ Hp]%lookup_delete_Some. by apply (H1 p).
  - intros hex i Hv Hn [_ Hp]%lookup_delete_Some. by apply H2.
  - done.
  - done.
  - done.
  - done.
  - intros p i b Ho _ Hd Hb. split; [|done]. rewrite lookup_delete_ne; [done|]. intros <-. by apply (H5 t).
  - done.
  - done.
  - intros t' i b Ht' (Ha & Hb & Hc & Hd). split; [done|]. split; [simpl; by rewrite lookup_delete_ne|].
    split; [done|]. intros p. simpl. intros [_ Hp]%lookup_delete_Some. by apply Hd.
Qed.

Lemma disown_inv fs t : Inv fs -> step t fs (with_temps fs (fs.(fs_temps) ∖ {[t]})) /\
  Inv (with_temps fs (fs.(fs_temps) ∖ {[t]})).
Proof.
  intros [H1 H2 H3 H4 H5 H6]. split; split; simpl; eauto; try done.
  - intros t' i b Ht' (Ha & Hb). split; simpl; [set_solver|done].
  - intros t' Ht'. apply H5. set_solver.
Qed.

Lemma remove_file_ok fs t r fs' :
  Inv fs -> t ∈ fs.(fs_temps) -> remove_file t fs = (r, fs') ->
  Inv fs' /\ step t fs fs' /\ fs'.(fs_temps) = fs.(fs_temps).
Proof.
  intros Hi Ht. unfold remove_file, syscall. destruct (tick fs) as [[[e k]|] fs1] eqn:Et;
    destruct (tick_inv _ _ _ Hi Et) as [Hi1 Hn1]; pose proof (neutral_step t _ _ Hi Hn1) as Hs1;
    pose proof (n_temps _ _ Hn1) as Hte; [by intros [= _ <-]|].
  destruct (fs_dir fs1 !! t); [|by intros [= _ <-]]. intros [= _ <-].
  destruct (delete_inv fs1 t Hi1) as [? ?]; [by rewrite Hte|]. split; [done|]. split; [by etrans|done].
Qed.

Lemma drop_temporary_ok fs t : Inv fs -> Inv (drop_temporary t fs) /\ step t fs (drop_temporary t fs).
Proof.
  intros Hi. unfold drop_temporary. case_bool_decide as Ht; [|by split].
  destruct (remove_file t fs) as [r fs1] eqn:Er. destruct (remove_file_ok _ _ _ _ Hi Ht Er) as (Hi1 & Hs1 & _).
  destruct (disown_inv fs1 t Hi1) as [? ?]. split; [done|]. by etrans.
Qed.

Lemma remove_temporary_ok fs t r fs' :
  Inv fs -> remove_temporary t fs = (r, fs') ->
  Inv fs' /\ step t fs fs' /\ (r = Ok tt -> t ∉ fs'.(fs_temps)).
Proof.
  intros Hi. unfold remove_temporary. rewrite st_run_get. case_bool_decide as Ht; cbn [negb].
  2:{ intros [= <- <-]. by split. }
  unfold st_bind, attempt. destruct (remove_file t fs) as [v fs1] eqn:Er.
  destruct (remove_file_ok _ _ _ _ Hi Ht Er) as (Hi1 & Hs1 & Hte).
  destruct (disown_inv fs1 t Hi1) as [Hs2 Hi2].
  unfold disown_temporary, st_modify.
  destruct v as [u|e]; [|case_bool_decide]; intros [= <- <-]; try done;
    (split; [done|]); (split; [by etrans|]); intros _; simpl; set_solver.
Qed.

(** After a directory sync the device agrees with memory about it. *)
Definition settled (fs : Fs) (d : Path) : Prop :=
  (forall p i, parent p = d -> fs.(fs_dir) !! p = Some i -> fs.(fs_device).(dk_entries) !! p = Some i) /\
  (d = [] -> fs.(fs_device).(dk_shards) = fs.(fs_shards)).

Lemma sync_directory_ok fs d policy u fs' :
  Inv fs -> sync_directory d policy fs = (Ok u, fs') ->
  settled fs' d /\ (policy = Full -> fs'.(fs_stable) = fs'.(fs_device)).
Proof.
  intros Hi. unfold sync_directory, or_io_error, fsync_directory, syscall.
  destruct (tick fs) as [[[e k]|] fs1] eqn:Et; [done|]. intros [= _ <-].
  unfold settled, flush_directory, with_device; simpl. split; [split|].
  - intros p i Hp Hd. rewrite lookup_union_r.
    + by apply map_lookup_filter_Some_2.
    + apply map_lookup_filter_None_2. right. intros j _. simpl. intros Hn. by apply Hn.
  - intros ->. by rewrite bool_decide_eq_true_2.
  - intros ->. by rewrite bool_decide_eq_true_2.
Qed.

Lemma cleanup_ok fs t d policy r fs' :
  Inv fs -> cleanup_temporary t d policy fs = (r, fs') ->
  Inv fs' /\ step t fs fs' /\
  (r = Ok tt -> (t ∉ fs'.(fs_temps)) /\ settled fs' d /\ (policy = Full -> fs'.(fs_stable) = fs'.(fs_device))).
Proof.
  intros Hi. unfold cleanup_temporary, st_bind, attempt, st_lift.
  destruct (remove_temporary t fs) as [v1 fs1] eqn:E1.
  destruct (remove_temporary_ok _ _ _ _ Hi E1) as (Hi1 & Hs1 & Ht1).
  destruct (sync_directory d policy fs1) as [v2 fs2] eqn:E2.
  destruct (neutral_sync_directory d policy _ _ _ Hi1 E2) as [Hi2 Hn2].
  intros E. assert (fs' = fs2) as -> by (by destruct v1, v2; simplify_eq).
  split; [done|]. split; [etrans; [exact Hs1|exact (neutral_step _ _ _ Hi1 Hn2)]|].
  intros ->. destruct v1 as [[]|], v2 as [[]|]; simplify_eq. split; [rewrite (n_temps _ _ Hn2); auto|].
  exact (sync_directory_ok _ _ _ _ _ Hi1 E2).
Qed.

(** What a whole function leaves intact: every object and every temporary file
    that was there before. *)
Definition evolves (fs fs' : Fs) : Prop := forall t, step t fs fs'.

#[export] Instance evolves_preorder : PreOrder evolves.
Proof.
  split; [by intros fs t|]. intros a b c H1 H2 t. by etrans; [apply H1|apply H2].
Qed.

Lemma neutral_evolves fs fs' : Inv fs -> neutral fs fs' -> evolves fs fs'.
Proof. intros Hi Hn t. by apply neutral_step. Qed.

Lemma step_evolves t0 fs fs' :
  (forall i b, ~ owned fs t0 i b) -> step t0 fs fs' -> evolves fs fs'.
Proof.
  intros Hno Hs t. split; [apply Hs..|]. intros t' i b _ Ho. destruct (decide (t' = t0)) as [->|Hne].
  - by destruct (Hno i b).
  - by apply (s_owned _ _ _ Hs).
Qed.

Lemma step_visible t fs fs' hex :
  step t fs fs' -> valid_hex hex = true -> ~ tampered hex -> visible fs hex -> visible fs' hex.
Proof.
  intros Hs Hv Hn (i & b & Hd & Hb & Hh). exists i, b.
  destruct (s_objects _ _ _ Hs (object_path hex) i b) as [? ?]; [by exists hex|by apply untouched|done..|done].
Qed.

Lemma evolves_visible fs fs' hex :
  evolves fs fs' -> valid_hex hex = true -> ~ tampered hex -> visible fs hex -> visible fs' hex.
Proof. intros He. exact (step_visible [] _ _ _ (He [])). Qed.

(** On stable storage: a power loss cannot take it away. *)
Definition durable (fs : Fs) (hex : string) : Prop :=
  exists i b, fs.(fs_dir) !! object_path hex = Some i /\ fs.(fs_inodes) !! i = Some b /\ hash_hex b = hex /\
    fs.(fs_stable).(dk_entries) !! object_path hex = Some i /\
    fs.(fs_stable).(dk_contents) !! i = Some b /\ shard_of hex ∈ fs.(fs_stable).(dk_shards).

Lemma settled_durable fs hex :
  Inv fs -> valid_hex hex = true -> ~ tampered hex -> visible fs hex -> settled fs (parent (object_path hex)) ->
  fs.(fs_stable) = fs.(fs_device) -> shard_of hex ∈ fs.(fs_device).(dk_shards) -> durable fs hex.
Proof.
  intros Hi Hv Hn (i & b & Hd & Hb & Hh) [Hs _] Est Hsh. exists i, b. rewrite Est.
  destruct (inv_objects _ Hi hex i Hv Hn Hd) as (b' & Hb' & _ & Hc & _). rewrite Hb in Hb'. injection Hb' as <-.
  split; [done|]. split; [done|]. split; [done|]. split; [by apply Hs|]. done.
Qed.
End Inv.

(** ** The writers of the content store *)

Section Writers.
Context `{Platform} `{Blake3} `{!Blake3Hex _} `{Tam : Tampering}.

Lemma attempt_run {A E E'} (m : ST Fs E A) fs v fs' :
  m fs = (v, fs') -> (attempt m : ST Fs E' _) fs = (Ok v, fs').
Proof. intros Hm. unfold attempt. by rewrite Hm. Qed.

Lemma parse_artifact_for content : parse_artifact_ref (artifact_for content) = Ok (hash_hex content).
Proof.
  unfold parse_artifact_ref, artifact_for. rewrite strip_prefix_app.
  pose proof (hash_valid content) as Hv. apply andb_true_iff in Hv as [-> ->]. done.
Qed.

Lemma parse_artifact_ref_ok artifact hex :
  parse_artifact_ref artifact = Ok hex <-> artifact = (ARTIFACT_PREFIX ++ hex)%string /\ valid_hex hex = true.
Proof.
  unfold parse_artifact_ref, valid_hex. destruct (strip_prefix ARTIFACT_PREFIX artifact) as [h|] eqn:E.
  - apply strip_prefix_some in E as ->. split.
    + destruct (len h =? 64)%N eqn:E1; [|done]. destruct (all_bytes is_lower_hex h) eqn:E2; [|done].
      cbn [negb orb]. intros Eh%ok_inj. subst. by rewrite E1, E2.
    + intros [Eh Hv]. apply str_append_inj_l in Eh as ->. apply andb_true_iff in Hv as [-> ->]. done.
  - split; [done|]. intros [-> _]. by rewrite strip_prefix_app in E.
Qed.

Lemma path_for_content content fs :
  path_for (artifact_for content) fs = (Ok (object_path (hash_hex content)), fs).
Proof. unfold path_for, st_bind, st_lift. by rewrite parse_artifact_for. Qed.

Lemma artifact_for_inj b content : artifact_for b = artifact_for content -> hash_hex b = hash_hex content.
Proof. unfold artifact_for. apply str_append_inj_l. Qed.

(** A synced file of one's own: content and device agree. *)
Lemma sync_own fs t i b p policy u fs' :
  Inv fs -> owned fs t i b -> sync_file i p policy fs = (Ok u, fs') ->
  owned fs' t i b /\ fs'.(fs_device).(dk_contents) !! i = Some b.
Proof.
  intros Hi Ho. unfold sync_file, or_io_error, fsync_file, syscall.
  destruct (tick fs) as [[[e k]|] fs1] eqn:Et; [done|]. destruct (tick_inv _ _ _ Hi Et) as [Hi1 Hn1].
  pose proof (neutral_owned _ _ _ _ _ Hi Hn1 Ho) as Ho1. intros [= _ <-].
  destruct (flush_file_inv policy i fs1 Hi1) as [_ Hn2].
  split; [exact (neutral_owned _ _ _ _ _ Hi1 Hn2 Ho1)|].
  destruct Ho1 as (_ & _ & Hb & _). unfold flush_file, with_device; simpl. rewrite Hb. by rewrite lookup_insert_eq.
Qed.

Lemma visible_winner fs hex fs' :
  Inv fs -> ~ tampered hex ->
  verify_existing (ARTIFACT_PREFIX ++ hex)%string (object_path hex) fs = (Ok true, fs') -> visible fs' hex.
Proof.
  intros Hi Hn E. destruct (verify_existing_true _ _ _ _ Hi (untouched _ Hn) E) as (i & b & Hd & Hb & Ha).
  exists i, b. split; [done|]. split; [done|]. by apply str_append_inj_l in Ha.
Qed.

(** What is known once a writer has cleaned up. *)
Definition cleaned (fs : Fs) (t d : Path) (policy : SyncPolicy) : Prop :=
  (t ∉ fs.(fs_temps)) /\ settled fs d /\ (policy = Full -> fs.(fs_stable) = fs.(fs_device)).

(** A writer that either leaves [b] in its file and on the device, or fails. *)
Definition writes (t : Path) (i : nat) (b : bytes) (m : StoreM unit) : Prop :=
  forall fs r fs', Inv fs -> owned fs t i [] -> m fs = (r, fs') ->
  Inv fs' /\ step t fs fs' /\
  forall u, r = Ok u -> owned fs' t i b /\ fs'.(fs_device).(dk_contents) !! i = Some b.

Lemma publish_staged_ok fs hex b policy t i m r fs' :
  Inv fs -> owned fs t i [] -> valid_hex hex = true -> writes t i b m ->
  hash_hex b = hex \/ tampered hex ->
  publish_staged (ARTIFACT_PREFIX ++ hex)%string (object_path hex) policy t m fs = (r, fs') ->
  Inv fs' /\ step t fs fs' /\
  forall a, r = Ok a -> a = (ARTIFACT_PREFIX ++ hex)%string /\ (~ tampered hex -> visible fs' hex) /\
    cleaned fs' t (parent (object_path hex)) policy.
Proof.
  intros Hi Ho Hval Hm Hh. unfold publish_staged. set (p := object_path hex). set (d := parent p).
  unfold st_bind at 1, attempt at 1. destruct (m fs) as [w fs2] eqn:Ew.
  destruct (Hm _ _ _ Hi Ho Ew) as (Hi2 & Hs2 & Hok). destruct w as [u|e].
  2:{ unfold st_bind.
      destruct (cleanup_temporary t d policy fs2) as [v fs3] eqn:E3.
      destruct (cleanup_ok _ _ _ _ _ _ Hi2 E3) as (Hi3 & Hs3 & _).
      destruct v; intros [= <- <-]; (split; [done|]); (split; [by etrans|done]). }
  destruct (Hok u eq_refl) as [Ho2 Hc2]. unfold st_bind at 1, attempt at 1.
  destruct (publish_temporary t p fs2) as [v fs3] eqn:E3.
  destruct (publish_ok t i b hex Hval Hh fs2 v fs3 Hi2 Ho2 Hc2 E3) as (Hi3 & Hs3 & Hr3). destruct v as [u3|e3].
  - destruct Hr3 as [Hv3 Ht3]. unfold st_bind at 1.
    destruct (cleanup_temporary t d policy fs3) as [v4 fs4] eqn:E4.
    destruct (cleanup_ok _ _ _ _ _ _ Hi3 E4) as (Hi4 & Hs4 & Hr4).
    assert (Hs : step t fs fs4) by (etrans; [done|etrans; done]).
    destruct v4 as [[]|e4]; intros [= <- <-]; (split; [done|]); (split; [done|]); [|done].
    intros a [= <-]. split; [done|]. split; [|by apply Hr4]. intros Hn. destruct Hh as [Hh|]; [|done].
    exact (step_visible _ _ _ _ Hs4 Hval Hn (Hv3 Hh)).
  - case_bool_decide as Hk.
    + unfold st_bind at 1, attempt at 1. destruct (verify_existing _ p fs3) as [v4 fs4] eqn:E4.
      destruct (neutral_verify_existing _ _ _ _ _ Hi3 E4) as [Hi4 Hn4]. unfold st_bind at 1.
      destruct (cleanup_temporary t d policy fs4) as [v5 fs5] eqn:E5.
      destruct (cleanup_ok _ _ _ _ _ _ Hi4 E5) as (Hi5 & Hs5 & Hr5).
      assert (Hs : step t fs fs5).
      { etrans; [done|]. etrans; [done|]. etrans; [exact (neutral_step _ _ _ Hi3 Hn4)|done]. }
      destruct v5 as [[]|e5].
      2:{ intros [= <- <-]. by split. }
      unfold accept_winner, st_bind, st_lift, st_ret, fail, st_lift.
      destruct v4 as [[]|e4]; intros [= <- <-]; (split; [done|]); (split; [done|]); try done.
      intros a [= <-]. split; [done|]. split; [|by apply Hr5]. intros Hn.
      exact (step_visible _ _ _ _ Hs5 Hval Hn (visible_winner _ _ _ Hi3 Hn E4)).
    + unfold st_bind. destruct (cleanup_temporary t d policy fs3) as [v4 fs4] eqn:E4.
      destruct (cleanup_ok _ _ _ _ _ _ Hi3 E4) as (Hi4 & Hs4 & _).
      assert (Hs : step t fs fs4) by (etrans; [done|etrans; done]).
      destruct v4; intros [= <- <-]; by split.
Qed.

(** Writing all of one buffer and syncing. *)
Lemma write_sync_ok t i content policy :
  writes t i content (or_io_error "persist temporary CAS object" t (write_all i content) ;;; sync_file i t policy).
Proof.
  intros fs r fs' Hi Ho. unfold st_bind at 1, or_io_error at 1.
  destruct (write_all i content fs) as [v fs1] eqn:E1.
  destruct (write_all_ok fs t i [] content v fs1 Hi Ho E1) as (Hi1 & Hs1 & Hv). destruct v as [u|e].
  - intros E2. destruct (neutral_sync_file i t policy _ _ _ Hi1 E2) as [Hi2 Hn2].
    split; [done|]. split; [etrans; [done|exact (neutral_step _ _ _ Hi1 Hn2)]|].
    intros u' ->. exact (sync_own _ _ _ _ _ _ _ _ Hi1 Hv E2).
  - intros [= <- <-]. split; [done|]. split; [done|]. done.
Qed.

(** ** A single writer *)

(** No other process is active. *)
Definition quiet (fs : Fs) : Prop := Forall (fun e => e.(ev_env) = []) fs.(fs_events).

Definition quiet_op {E A} (m : ST Fs E A) : Prop :=
  forall fs r fs', quiet fs -> m fs = (r, fs') -> quiet fs' /\ fs'.(fs_shards) = fs.(fs_shards).

Lemma tick_quiet fs fault fs' : quiet fs -> tick fs = (fault, fs') ->
  quiet fs' /\ fs'.(fs_shards) = fs.(fs_shards).
Proof.
  unfold quiet, tick. destruct (fs_events fs) as [|e events] eqn:E; [intros Hq [= _ <-]; by rewrite E|].
  intros [He Hq]%Forall_cons. rewrite He. by intros [= _ <-].
Qed.

Lemma quiet_bind {E A B} (m : ST Fs E A) (k : A -> ST Fs E B) :
  quiet_op m -> (forall a, quiet_op (k a)) -> quiet_op (st_bind m k).
Proof.
  intros Hm Hk fs r fs' Hq. unfold st_bind. destruct (m fs) as [[a|e] fs1] eqn:E1;
    destruct (Hm _ _ _ Hq E1) as [Hq1 Es1].
  - intros E2. destruct (Hk a _ _ _ Hq1 E2) as [? ->]. done.
  - by intros [= _ <-].
Qed.

Lemma quiet_pure {E A} (m : ST Fs E A) : (forall fs, exists v, m fs = (v, fs)) -> quiet_op m.
Proof. intros Hm fs r fs' Hq Hr. destruct (Hm fs) as [v Hv]. rewrite Hv in Hr. by simplify_eq. Qed.

Lemma quiet_syscall {A} (op : ST Fs IoError A) : (forall fs, exists v, op fs = (v, fs)) -> quiet_op (syscall op).
Proof.
  intros Hm fs r fs' Hq. unfold syscall. destruct (tick fs) as [[[e k]|] fs1] eqn:Et;
    destruct (tick_quiet _ _ _ Hq Et) as [Hq1 Es1]; [by intros [= _ <-]|].
  destruct (Hm fs1) as [v Hv]. rewrite Hv. by intros [= _ <-].
Qed.

Lemma quiet_verify artifact p : quiet_op (verify_existing artifact p).
Proof.
  unfold verify_existing. apply quiet_bind.
  - intros fs r fs' Hq. unfold attempt. destruct (open_file p fs) as [v fs1] eqn:E. intros [= _ <-].
    eapply quiet_syscall; [|done|exact E].  intros fs0. cbv beta. destruct (fs_dir fs0 !! p); by eexists.
  - intros [i|e]; [|case_bool_decide; apply quiet_pure; unfold st_ret, fail, st_lift; eauto].
    apply quiet_bind; [|intros; apply quiet_pure; unfold st_ret; eauto].
    intros fs r fs' Hq. unfold or_io_error. destruct (read_handle i fs) as [v fs1] eqn:E. intros [= _ <-].
    eapply quiet_syscall; [|done|exact E]. by eexists.
Qed.

(** ** [put_bytes] *)

Lemma shard_parent hex : parent (object_path hex) = [shard_of hex].
Proof. done. Qed.

Lemma ensure_shard fs hex policy (v : bool) u fs1 fs2 fs3 :
  Inv fs -> path_exists [shard_of hex] fs = (Ok v, fs1) ->
  create_dir_all [shard_of hex] fs1 = (Ok u, fs2) ->
  sync_directory [] policy fs2 = (Ok u, fs3) -> shard_of hex ∈ fs3.(fs_device).(dk_shards).
Proof.
  intros Hi E1 E2 E3. destruct (neutral_path_exists _ _ _ _ Hi E1) as [Hi1 _].
  destruct (neutral_create_dir_all _ _ _ _ Hi1 E2) as [Hi2 Hn2].
  destruct (neutral_sync_directory _ _ _ _ _ Hi2 E3) as [Hi3 Hn3].
  destruct (sync_directory_ok _ _ _ _ _ Hi2 E3) as [[_ Hs] _]. rewrite (Hs eq_refl).
  apply (n_shards _ _ Hn3). revert E2. unfold create_dir_all, syscall.
  destruct (tick fs1) as [[[e k]|] fs4]; [done|]. intros [= _ <-]. simpl. set_solver.
Qed.

(** What a returning [put_bytes] has done. *)
Record put_done (fs fs' : Fs) (content : bytes) (policy : SyncPolicy) (defer : bool) : Prop := {
  pd_visible : ~ tampered (hash_hex content) -> visible fs' (hash_hex content);
  pd_settled : defer = false -> settled fs' (parent (object_path (hash_hex content)));
  pd_stable : defer = false -> policy = Full -> fs'.(fs_stable) = fs'.(fs_device);
  pd_shard : ~ tampered (hash_hex content) -> defer = false -> quiet fs -> shard_of (hash_hex content) ∉ fs.(fs_shards) ->
    shard_of (hash_hex content) ∈ fs'.(fs_device).(dk_shards)
}.

(** The staged half, from the state in which the shard exists. *)
Lemma put_rest_ok fs0 fs content policy defer r fs' :
  Inv fs -> evolves fs0 fs ->
  (defer = false -> quiet fs0 -> shard_of (hash_hex content) ∉ fs0.(fs_shards) ->
     shard_of (hash_hex content) ∈ fs.(fs_device).(dk_shards)) ->
  (temporary <- create_temporary 32 (parent (object_path (hash_hex content))) ;;
   scoped_temporary temporary.1 (put_staged (artifact_for content) content
     (object_path (hash_hex content)) policy temporary.1 temporary.2)) fs = (r, fs') ->
  Inv fs' /\ evolves fs0 fs' /\
  forall a, r = Ok a -> a = artifact_for content /\ put_done fs0 fs' content policy defer.
Proof.
  intros Hi He Hsh. unfold st_bind. destruct (create_temporary 32 _ fs) as [[[t i]|e] fs1] eqn:E1;
    destruct (create_temporary_ok _ _ _ _ _ Hi E1) as [Hi1 Hr1].
  2:{ intros [= <- <-]. split; [done|]. split; [|done]. etrans; [done|]. by apply neutral_evolves. }
  destruct Hr1 as (Hs1 & Ho1 & Hpar & Hx). unfold scoped_temporary. cbn [fst snd].
  destruct (put_staged _ _ _ _ _ _ fs1) as [v fs2] eqn:E2.
  destruct (publish_staged_ok _ (hash_hex content) content _ _ _ _ _ _ Hi1 Ho1 (hash_valid _)
    (write_sync_ok t i content policy) (or_introl eq_refl) E2) as (Hi2 & Hs2 & Hr2). intros [= <- <-].
  destruct (drop_temporary_ok fs2 t Hi2) as [Hi3 Hs3].
  assert (Hev : evolves fs (drop_temporary t fs2)).
  { apply (step_evolves t); [intros j b Hj; by apply (Hx t j b Hj)|]. etrans; [done|]. by etrans. }
  split; [done|]. split; [by etrans|]. intros a Ha. destruct (Hr2 a Ha) as (-> & Hv & Ht & Hse & Hst).
  split; [done|].
  assert (Ed : drop_temporary t fs2 = fs2) by (unfold drop_temporary; by rewrite bool_decide_eq_false_2).
  rewrite Ed in *. split; try done.
  - intros _ Hd Hq Hn. apply (s_device_shards _ _ _ (Hev t)). by apply Hsh.
Qed.

Lemma put_bytes_ok fs content policy defer r fs' :
  Inv fs -> put_bytes content policy defer fs = (r, fs') ->
  Inv fs' /\ evolves fs fs' /\
  forall a, r = Ok a -> a = artifact_for content /\ put_done fs fs' content policy defer.
Proof.
  intros Hi. unfold put_bytes. rewrite (st_run_bind _ _ _ _ _ (path_for_content content fs)).
  set (p := object_path (hash_hex content)).
  destruct (verify_existing (artifact_for content) p fs) as [v fs1] eqn:E1.
  destruct (neutral_verify_existing _ _ _ _ _ Hi E1) as [Hi1 Hn1].
  pose proof (neutral_evolves _ _ Hi Hn1) as He1. unfold st_bind at 1. rewrite E1.
  destruct v as [[|]|e]; [| |by intros [= <- <-]].
  - assert (Hv1 : ~ tampered (hash_hex content) -> visible fs1 (hash_hex content))
      by (intros Hn; exact (visible_winner _ _ _ Hi Hn E1)).
    assert (Hnoshard : ~ tampered (hash_hex content) -> quiet fs -> shard_of (hash_hex content) ∉ fs_shards fs -> False).
    { intros Hn Hq Hns. destruct (Hv1 Hn) as (i & b & Hd & _). destruct (quiet_verify _ _ _ _ _ Hq E1) as [_ Es].
      destruct (inv_objects _ Hi1 _ _ (hash_valid content) Hn Hd) as (_ & _ & _ & _ & Hs). rewrite Es in Hs. done. }
    destruct defer.
    { intros [= <- <-]. split; [done|]. split; [done|]. intros a [= <-]. split; [done|]. by split. }
    unfold st_bind. destruct (sync_directory (parent p) policy fs1) as [v2 fs2] eqn:E2.
    destruct (neutral_sync_directory _ _ _ _ _ Hi1 E2) as [Hi2 Hn2].
    pose proof (neutral_evolves _ _ Hi1 Hn2) as He2.
    destruct v2 as [u|e]; intros [= <- <-]; (split; [done|]); (split; [by etrans|]); [|done].
    intros a [= <-]. destruct (sync_directory_ok _ _ _ _ _ Hi1 E2) as [Hse Hst]. split; [done|]. split.
    + intros Hn. exact (evolves_visible _ _ _ He2 (hash_valid _) Hn (Hv1 Hn)).
    + done.
    + done.
    + intros Hn _ Hq Hns. by destruct (Hnoshard Hn Hq Hns).
  - change (parent p) with [shard_of (hash_hex content)].
    unfold st_bind at 1, or_io_error at 1.
    destruct (path_exists [shard_of (hash_hex content)] fs1) as [v2 fs2] eqn:E2.
    destruct (neutral_path_exists _ _ _ _ Hi1 E2) as [Hi2 Hn2].
    pose proof (neutral_evolves _ _ Hi1 Hn2) as He2.
    destruct v2 as [ex|e2]; [|intros [= <- <-]; split; [done|]; split; [by etrans|done]].
    cbn [map_err]. unfold st_bind at 1, or_io_error at 1.
    destruct (create_dir_all [shard_of (hash_hex content)] fs2) as [v3 fs3] eqn:E3.
    destruct (neutral_create_dir_all _ _ _ _ Hi2 E3) as [Hi3 Hn3].
    pose proof (neutral_evolves _ _ Hi2 Hn3) as He3.
    assert (He03 : evolves fs fs3) by (etrans; [done|]; by etrans).
    destruct v3 as [u|e3]; [|intros [= <- <-]; split; [done|]; split; [done|done]].
    cbn [map_err]. unfold st_bind at 1.
    destruct (negb ex && negb defer) eqn:Ecase.
    + destruct (sync_directory [] policy fs3) as [v4 fs4] eqn:E4.
      destruct (neutral_sync_directory _ _ _ _ _ Hi3 E4) as [Hi4 Hn4].
      assert (He04 : evolves fs fs4) by (etrans; [done|]; by apply neutral_evolves).
      destruct v4 as [[]|e4]; [|intros [= <- <-]; split; [done|]; split; [done|done]].
      destruct u. intros E5. eapply put_rest_ok; [exact Hi4|exact He04| |exact E5].
      intros _ _ _. exact (ensure_shard _ _ _ _ _ _ _ _ Hi1 E2 E3 E4).
    + intros E5. eapply put_rest_ok; [exact Hi3|exact He03| |exact E5].
      intros -> Hq Hns. exfalso. destruct ex; [|done]. apply Hns.
      destruct (quiet_verify _ _ _ _ _ Hq E1) as [Hq1 Es1]. rewrite <- Es1.
      revert E2. unfold path_exists. destruct (tick fs1) as [[[e k]|] fs6] eqn:Et; [done|].
      destruct (tick_quiet _ _ _ Hq1 Et) as [_ Es6]. intros [= Hex _].
      apply bool_decide_eq_true in Hex. by rewrite <- Es6.
Qed.
End Writers.

(** ** What the content store guarantees

    Uploads, crash durability and the integrity of every visible object. *)

Section Uploads.
Context `{Platform} `{Blake3} `{!Blake3Hex _} `{Tam : Tampering}.

(** ** Publication of an upload *)

(** The common end: clean up at the root, sync the shard. *)
Definition conclude (t d : Path) (artifact : string) : StoreM string :=
  cleanup_temporary t [] Full ;;; sync_directory d Full ;;; st_ret artifact.

Lemma conclude_ok fs t hex artifact r fs' :
  Inv fs -> valid_hex hex = true -> (~ tampered hex -> visible fs hex) ->
  conclude t (parent (object_path hex)) artifact fs = (r, fs') ->
  Inv fs' /\ step t fs fs' /\
  forall a, r = Ok a -> a = artifact /\ (t ∉ fs'.(fs_temps)) /\ (~ tampered hex -> durable fs' hex).
Proof.
  intros Hi Hv Hvis. unfold conclude, st_bind.
  destruct (cleanup_temporary t [] Full fs) as [v1 fs1] eqn:E1.
  destruct (cleanup_ok _ _ _ _ _ _ Hi E1) as (Hi1 & Hs1 & Hr1).
  destruct v1 as [[]|e]; [|by intros [= <- <-]].
  destruct (Hr1 eq_refl) as (Ht1 & [_ Hsh] & _). specialize (Hsh eq_refl).
  destruct (sync_directory _ Full fs1) as [v2 fs2] eqn:E2.
  destruct (neutral_sync_directory _ _ _ _ _ Hi1 E2) as [Hi2 Hn2].
  pose proof (neutral_step t _ _ Hi1 Hn2) as Hs2.
  destruct v2 as [u|e]; intros [= <- <-]; (split; [done|]); (split; [by etrans|]); [|done].
  intros a [= <-]. split; [done|]. split; [by rewrite (n_temps _ _ Hn2)|]. intros Hn.
  destruct (sync_directory_ok _ _ _ _ _ Hi1 E2) as [Hse Hst].
  pose proof (step_visible _ _ _ _ Hs1 Hv Hn (Hvis Hn)) as Hv1.
  apply settled_durable; [done|done|done|exact (step_visible _ _ _ _ Hs2 Hv Hn Hv1)|done|by apply Hst|].
  apply (n_device_shards _ _ Hn2). rewrite Hsh.
  destruct Hv1 as (i & b & Hd & _). by destruct (inv_objects _ Hi1 hex i Hv Hn Hd) as (_ & _ & _ & _ & ?).
Qed.

Lemma accept_winner_conclude artifact p t valid fs :
  (cleanup_temporary t [] Full ;;; accept_winner artifact p valid (sync_directory (parent p) Full)) fs =
  match valid with
  | Ok true => conclude t (parent p) artifact fs
  | _ => (cleanup_temporary t [] Full ;;; fail match valid with Err e => e | _ => corrupt_object p end) fs
  end.
Proof.
  unfold conclude, accept_winner, st_bind, st_lift, fail, st_lift.
  destruct (cleanup_temporary t [] Full fs) as [[u|e] fs1]; destruct valid as [[]|]; done.
Qed.

Lemma cleanup_fail_ok fs t e r fs' :
  Inv fs -> (cleanup_temporary t [] Full ;;; fail e : StoreM string) fs = (r, fs') ->
  Inv fs' /\ step t fs fs' /\ forall a, r <> Ok a.
Proof.
  intros Hi. unfold st_bind. destruct (cleanup_temporary t [] Full fs) as [v1 fs1] eqn:E1.
  destruct (cleanup_ok _ _ _ _ _ _ Hi E1) as (Hi1 & Hs1 & _). by destruct v1; intros [= <- <-].
Qed.

(** What may be done before a failure is reported. *)
Definition harmless (t : Path) (m : StoreM unit) : Prop :=
  forall fs r fs', Inv fs -> m fs = (r, fs') -> Inv fs' /\ step t fs fs'.

Lemma publish_from_root_ok action abandon fs t i b r fs' :
  Inv fs -> owned fs t i b -> fs.(fs_device).(dk_contents) !! i = Some b -> harmless t abandon ->
  publish_from_root action abandon (artifact_for b) t fs = (r, fs') ->
  Inv fs' /\ step t fs fs' /\
  forall a, r = Ok a -> a = artifact_for b /\ (t ∉ fs'.(fs_temps)) /\
    (~ tampered (hash_hex b) -> durable fs' (hash_hex b)).
Proof.
  intros Hi Ho Hc Hab. unfold publish_from_root. rewrite (st_run_bind _ _ _ _ _ (path_for_content b fs)).
  set (p := object_path (hash_hex b)). set (d := parent p).
  destruct (verify_existing (artifact_for b) p fs) as [v fs1] eqn:E1.
  destruct (neutral_verify_existing _ _ _ _ _ Hi E1) as [Hi1 Hn1].
  pose proof (neutral_step t _ _ Hi Hn1) as Hs1. unfold st_bind at 1. rewrite E1.
  destruct v as [[|]|e]; [| |by intros [= <- <-]].
  { intros E. destruct (conclude_ok _ _ _ _ _ _ Hi1 (hash_valid b) (fun Hn => visible_winner _ _ _ Hi Hn E1) E) as (? & ? & ?).
    split; [done|]. split; [by etrans|done]. }
  unfold st_bind at 1, or_io_error at 1. destruct (path_exists d fs1) as [v2 fs2] eqn:E2.
  destruct (neutral_path_exists _ _ _ _ Hi1 E2) as [Hi2 Hn2].
  assert (Hn02 : neutral fs fs2) by (by etrans). pose proof (neutral_step t _ _ Hi Hn02) as Hs2.
  destruct v2 as [ex|e2]; [cbn [map_err]|by intros [= <- <-]].
  unfold st_bind at 1, or_io_error at 1. destruct (create_dir_all d fs2) as [v3 fs3] eqn:E3.
  destruct (neutral_create_dir_all _ _ _ _ Hi2 E3) as [Hi3 Hn3].
  assert (Hn03 : neutral fs fs3) by (by etrans). pose proof (neutral_step t _ _ Hi Hn03) as Hs3.
  destruct v3 as [u3|e3]; [cbn [map_err]|by intros [= <- <-]].
  unfold st_bind at 1. destruct ((if negb ex then sync_directory [] Full else st_ret tt) fs3) as [v4 fs4] eqn:E4.
  assert (Hneu : neutral_op (if negb ex then sync_directory [] Full else st_ret tt))
    by (destruct (negb ex); [apply neutral_sync_directory|apply neutral_ret]).
  destruct (Hneu _ _ _ Hi3 E4) as [Hi4 Hn4].
  assert (Hn04 : neutral fs fs4) by (by etrans). pose proof (neutral_step t _ _ Hi Hn04) as Hs4.
  destruct v4 as [u4|e4]; [|by intros [= <- <-]].
  pose proof (neutral_owned _ _ _ _ _ Hi Hn04 Ho) as Ho4.
  assert (Hc4 : dk_contents (fs_device fs4) !! i = Some b).
  { destruct Ho as (_ & Hd & Hb & _). apply (n_contents _ _ Hn04); [by apply (inv_inodes _ Hi t)|done..]. }
  unfold st_bind at 1, attempt at 1. destruct (publish_temporary t p fs4) as [v5 fs5] eqn:E5.
  destruct (publish_ok t i b _ (hash_valid b) (or_introl eq_refl) _ _ _ Hi4 Ho4 Hc4 E5) as (Hi5 & Hs5 & Hr5).
  assert (Hs05 : step t fs fs5) by (by etrans). destruct v5 as [u5|e5].
  - intros E. destruct (conclude_ok _ _ _ _ _ _ Hi5 (hash_valid b) (fun _ => proj1 Hr5 eq_refl) E) as (? & ? & ?).
    split; [done|]. split; [by etrans|done].
  - case_bool_decide.
    2:{ unfold st_bind. destruct (abandon fs5) as [v6 fs6] eqn:E6. destruct (Hab _ _ _ Hi5 E6) as [Hi6 Hs6].
        destruct v6; intros [= <- <-]; (split; [done|]); (split; [by etrans|done]). }
    unfold st_bind at 1, attempt at 1. destruct (verify_existing (artifact_for b) p fs5) as [v6 fs6] eqn:E6.
    destruct (neutral_verify_existing _ _ _ _ _ Hi5 E6) as [Hi6 Hn6].
    assert (Hs06 : step t fs fs6) by (etrans; [done|exact (neutral_step _ _ _ Hi5 Hn6)]).
    unfold d. rewrite accept_winner_conclude. destruct v6 as [[|]|e6].
    + intros E. destruct (conclude_ok _ _ _ _ _ _ Hi6 (hash_valid b) (fun Hn => visible_winner _ _ _ Hi5 Hn E6) E) as (? & ? & ?).
      split; [done|]. split; [by etrans|done].
    + intros E. destruct (cleanup_fail_ok _ _ _ _ _ Hi6 E) as (? & ? & Hno).
      split; [done|]. split; [by etrans|]. intros a Ha. by destruct (Hno a).
    + intros E. destruct (cleanup_fail_ok _ _ _ _ _ Hi6 E) as (? & ? & Hno).
      split; [done|]. split; [by etrans|]. intros a Ha. by destruct (Hno a).
Qed.
(** ** Uploads in progress *)

(** The staging file is the upload's own, and holds exactly what was hashed. *)
Definition upload_ok (fs : Fs) (u : CasUpload) : Prop :=
  exists i b, u.(up_temporary) = Some i /\ owned fs u.(up_path) i b /\
    (u.(up_failed) = false -> b = u.(up_hashed) /\ u.(up_received_len) = blen b /\
       (u.(up_received_len) <= u.(up_expected_len))%N).

Lemma begin_put_ok fs n r fs' :
  Inv fs -> begin_put n fs = (r, fs') ->
  Inv fs' /\ evolves fs fs' /\
  forall u, r = Ok u -> upload_ok fs' u /\ u.(up_hashed) = [] /\ u.(up_expected_len) = n /\
    u.(up_failed) = false /\ forall i b, ~ owned fs u.(up_path) i b.
Proof.
  intros Hi. unfold begin_put, st_bind. destruct (create_temporary 32 [] fs) as [[[t i]|e] fs1] eqn:E1;
    destruct (create_temporary_ok _ _ _ _ _ Hi E1) as [Hi1 Hr1].
  - destruct Hr1 as (Hs & Ho & _ & Hx). intros [= <- <-].
    assert (Hno : forall j b, ~ owned fs t j b) by (intros j b Hj; by apply (Hx t j b)).
    split; [done|]. split; [exact (step_evolves t _ _ Hno Hs)|]. intros u [= <-]. cbn.
    split; [|done]. exists i, []. split; [done|]. split; [done|]. intros _. repeat split; simpl; lia.
  - intros [= <- <-]. split; [done|]. split; [by apply neutral_evolves|done].
Qed.

Lemma write_chunk_ok fs u content r u' fs' :
  Inv fs -> upload_ok fs u -> write_chunk u content fs = (r, u', fs') ->
  Inv fs' /\ step u.(up_path) fs fs' /\ upload_ok fs' u' /\ u'.(up_path) = u.(up_path) /\
  u'.(up_expected_len) = u.(up_expected_len) /\
  match r with
  | Ok _ => u'.(up_failed) = false /\ u.(up_failed) = false /\ u'.(up_hashed) = u.(up_hashed) ++ content
  | Err _ => u'.(up_failed) = true
  end.
Proof.
  intros Hi (i & b & Et & Ho & Hok). unfold write_chunk. rewrite Et.
  assert (Hfail : forall fs1, owned fs1 u.(up_path) i b -> upload_ok fs1 (fail_upload u))
    by (intros fs1 Ho1; exists i, b; done).
  destruct (up_failed u || _) eqn:Eg.
  { intros [= <- <- <-]. split; [done|]. split; [done|]. split; [by apply Hfail|done]. }
  apply orb_false_iff in Eg as [Ef Eg]. destruct (Hok Ef) as (-> & Hlen & Hle).
  destruct (checked_add_u64 _ _) as [n|] eqn:Ea; [|done]. apply N.ltb_ge in Eg.
  apply checked_add_u64_some in Ea as [-> _].
  destruct (write_all i content fs) as [v fs1] eqn:Ew.
  destruct (write_all_ok _ _ _ _ _ _ _ Hi Ho Ew) as (Hi1 & Hs1 & Hv).
  destruct v as [x|e]; intros [= <- <- <-]; (split; [done|]); (split; [done|]).
  - split; [|rewrite Ef; done]. exists i, (up_hashed u ++ content). split; [done|]. split; [done|].
    intros _. cbn. rewrite blen_app. repeat split; lia.
  - destruct Hv as [b' Ho']. split; [|done]. exists i, b'. split; [done|]. split; [done|]. done.
Qed.

Lemma finish_ok fs u expected r fs' :
  Inv fs -> upload_ok fs u -> finish u expected fs = (r, fs') ->
  Inv fs' /\ step u.(up_path) fs fs' /\
  forall a, r = Ok a -> a = expected /\ u.(up_failed) = false /\ u.(up_received_len) = u.(up_expected_len) /\
    expected = artifact_for u.(up_hashed) /\
    (~ tampered (hash_hex u.(up_hashed)) -> durable fs' (hash_hex u.(up_hashed))).
Proof.
  intros Hi (i & b & Et & Ho & Hok). unfold finish, scoped_temporary. set (t := up_path u) in *.
  destruct (st_bind _ _ fs) as [v fs1] eqn:E1.
  assert (Hmain : Inv fs1 /\ step t fs fs1 /\ forall a, v = Ok a -> a = expected /\ up_failed u = false /\
    up_received_len u = up_expected_len u /\ expected = artifact_for (up_hashed u) /\
    (t ∉ fs_temps fs1) /\ (~ tampered (hash_hex (up_hashed u)) -> durable fs1 (hash_hex (up_hashed u)))).
  { revert E1. unfold st_bind at 1, st_lift at 1. destruct (parse_artifact_ref expected) as [hex0|e0]; [|by intros [= <- <-]].
    unfold st_bind at 1, st_reject_if, st_lift at 1.
    destruct (up_failed u || _ || _) eqn:Eg; cbn [reject_if]; [by intros [= <- <-]|].
    apply orb_false_iff in Eg as [Eg Ed]. apply orb_false_iff in Eg as [Ef El].
    apply negb_false_iff in Ed, El. apply String.eqb_eq in Ed. apply N.eqb_eq in El.
    destruct (Hok Ef) as (-> & _ & _). rewrite Et. unfold st_bind at 1, st_lift at 1. cbn [ok_or].
    unfold st_bind at 1. destruct (sync_file i t Full fs) as [v2 fs2] eqn:E2.
    destruct (neutral_sync_file _ _ _ _ _ _ Hi E2) as [Hi2 Hn2].
    pose proof (neutral_step t _ _ Hi Hn2) as Hs2. destruct v2 as [x|e]; [|by intros [= <- <-]].
    destruct (sync_own _ _ _ _ _ _ _ _ Hi Ho E2) as [Ho2 Hc2]. rewrite <- Ed. intros E3.
    assert (Hnone : harmless t (st_ret tt)) by (intros fs0 r0 fs0' Hi0 [= _ <-]; done).
    destruct (publish_from_root_ok _ _ _ _ _ _ _ _ Hi2 Ho2 Hc2 Hnone E3) as (Hi3 & Hs3 & Hr3).
    split; [done|]. split; [by etrans|]. intros a Ha. destruct (Hr3 a Ha) as (-> & ? & ?). done. }
  destruct Hmain as (Hi1 & Hs1 & Hr1). destruct (drop_temporary_ok fs1 t Hi1) as [Hi2 Hs2].
  intros [= <- <-]. split; [done|]. split; [by etrans|]. intros a Ha.
  destruct (Hr1 a Ha) as (-> & ? & ? & ? & Ht & Hd).
  assert (Edr : drop_temporary t fs1 = fs1) by (unfold drop_temporary; by rewrite bool_decide_eq_false_2).
  by rewrite Edr.
Qed.

(** ** Crashes *)

(** A durable object is read back after any power loss. *)
Lemma durable_survives fs fs' hex :
  valid_hex hex = true -> durable fs hex -> Crash fs fs' -> fs'.(fs_events) = [] ->
  exists b fs2, get (ARTIFACT_PREFIX ++ hex)%string fs' = (Ok b, fs2) /\ hash_hex b = hex.
Proof.
  intros Hv (i & b & Hd & Hb & Hh & Hse & Hsc & Hsh) Hc Hev.
  assert (Hd' : fs_dir fs' !! object_path hex = Some i).
  { apply (crash_entries _ _ Hc); [done|done|]. simpl. apply bool_decide_eq_true. by apply (crash_shards _ _ Hc). }
  pose proof (crash_contents _ _ Hc i b Hb Hsc) as Hb'. exists b, fs'. split; [|done].
  assert (Htick : tick fs' = (None, fs')) by (unfold tick; by rewrite Hev).
  unfold get, path_for, st_bind, attempt, open_file, read_handle, syscall, st_lift, st_ret.
  rewrite (proj2 (parse_artifact_ref_ok _ hex) (conj eq_refl Hv)). rewrite Htick, Hd', Htick, Hb'. change (default [] (Some b)) with b.
  unfold artifact_for. by rewrite Hh, String.eqb_refl.
Qed.
End Uploads.
