(* ===== verification/CasClaims.v ===== *)
(** * Claims about the content store *)

From S2P Require Import Prelude RustStr Digest ByteBuf FileSystem Cas CasInv Fixtures.

Local Open Scope st_scope.

Section Claims.
Context `{Platform} `{Blake3} `{!Blake3Hex _} `{Tam : Tampering}.

(** ** Integrity at every moment *)

(** One process: its store operations in any order, with any number of uploads
    open.  The file system's events make each of them fail anywhere and
    interleave with other processes.  A stream is written under the address its
    caller computed: it names the bytes, or is one that is tampered with. *)
Inductive cas_step : Fs * list CasUpload -> Fs * list CasUpload -> Prop :=
  | step_put fs ups content r fs' : put content fs = (r, fs') -> cas_step (fs, ups) (fs', ups)
  | step_batched fs ups content r fs' : put_batched content fs = (r, fs') -> cas_step (fs, ups) (fs', ups)
  | step_stream fs ups hex n source r fs' :
      hash_hex (concat source.(so_pieces)) = hex \/ tampered hex ->
      put_batched_stream (ARTIFACT_PREFIX ++ hex)%string n source fs = (r, fs') -> cas_step (fs, ups) (fs', ups)
  | step_close_batch fs ups r fs' : finish_batched_puts fs = (r, fs') -> cas_step (fs, ups) (fs', ups)
  | step_order_batch fs ups r fs' : finish_ordered_batched_puts fs = (r, fs') -> cas_step (fs, ups) (fs', ups)
  | step_file fs ups source shown r fs' : put_file source shown fs = (r, fs') -> cas_step (fs, ups) (fs', ups)
  | step_batch fs ups blobs r fs' : put_batch blobs fs = (r, fs') -> cas_step (fs, ups) (fs', ups)
  | step_begin fs ups n u fs' : begin_put n fs = (Ok u, fs') -> cas_step (fs, ups) (fs', u :: ups)
  | step_begin_failed fs ups n e fs' : begin_put n fs = (Err e, fs') -> cas_step (fs, ups) (fs', ups)
  | step_write fs pre u post content r u' fs' :
      write_chunk u content fs = (r, u', fs') -> cas_step (fs, pre ++ u :: post) (fs', pre ++ u' :: post)
  | step_finish fs pre u post expected r fs' :
      finish u expected fs = (r, fs') -> cas_step (fs, pre ++ u :: post) (fs', pre ++ post)
  | step_drop fs pre u post : cas_step (fs, pre ++ u :: post) (drop_upload u fs, pre ++ post)
  | step_remove fs ups artifact r fs' : remove artifact fs = (r, fs') -> cas_step (fs, ups) (fs', ups)
  | step_get fs ups artifact r fs' : get artifact fs = (r, fs') -> cas_step (fs, ups) (fs', ups)
  | step_open fs ups artifact r fs' : open_verified artifact fs = (r, fs') -> cas_step (fs, ups) (fs', ups)
  | step_verify fs ups artifact b fs' : verify artifact fs = (b, fs') -> cas_step (fs, ups) (fs', ups).

Definition sys_inv (s : Fs * list CasUpload) : Prop :=
  Inv s.1 /\ Forall (upload_ok s.1) s.2 /\ NoDup (map up_path s.2).

Lemma upload_owned fs u : upload_ok fs u -> exists i b, owned fs u.(up_path) i b.
Proof. intros (i & b & _ & Ho & _). eauto. Qed.

Lemma step_upload t fs fs' u : step t fs fs' -> u.(up_path) <> t -> upload_ok fs u -> upload_ok fs' u.
Proof.
  intros Hs Hne (i & b & Et & Ho & Hok). exists i, b. split; [done|]. split; [by apply (s_owned _ _ _ Hs)|done].
Qed.

Lemma evolves_uploads fs fs' ups :
  evolves fs fs' -> Forall (upload_ok fs) ups -> Forall (upload_ok fs') ups.
Proof.
  intros He Hall. eapply Forall_impl; [exact Hall|]. intros u (i & b & Et & Ho & Hok). exists i, b. split; [done|].
  split; [|done]. destruct (decide (u.(up_path) = [])) as [E|E].
  - apply (s_owned _ _ _ (He [""%string])); [by rewrite E|done].
  - by apply (s_owned _ _ _ (He [])).
Qed.

Lemma step_uploads t fs fs' ups :
  step t fs fs' -> t ∉ map up_path ups -> Forall (upload_ok fs) ups -> Forall (upload_ok fs') ups.
Proof.
  intros Hs Hn Hall. apply Forall_forall. intros u Hu. rewrite Forall_forall in Hall.
  apply (step_upload t fs); [done| |by apply Hall]. intros <-. apply Hn. apply list_elem_of_fmap. eauto.
Qed.

Lemma split_nodup (pre post : list CasUpload) u :
  NoDup (map up_path (pre ++ u :: post)) ->
  (u.(up_path) ∉ map up_path (pre ++ post)) /\ NoDup (map up_path (pre ++ post)).
Proof.
  rewrite map_app. cbn [map]. intros Hn. apply NoDup_app in Hn as (H1 & H2 & H3).
  apply NoDup_cons in H3 as [H4 H5]. rewrite map_app. split.
  - rewrite elem_of_app. intros [Hi|Hi]; [|done]. apply (H2 _ Hi). by left.
  - apply NoDup_app. split; [done|]. split; [|done]. intros x Hx Hy. apply (H2 x Hx). by right.
Qed.

Lemma put_each_ok blobs : forall fs r fs', Inv fs -> put_each blobs fs = (r, fs') ->
  Inv fs' /\ evolves fs fs' /\
  forall l, r = Ok l -> l = map artifact_for blobs /\ Forall (fun c => ~ tampered (hash_hex c) -> visible fs' (hash_hex c)) blobs.
Proof.
  induction blobs as [|c blobs IH]; intros fs r fs' Hi; cbn [put_each].
  { intros [= <- <-]. split; [done|]. split; [done|]. by intros l [= <-]. }
  unfold st_bind. destruct (put_batched c fs) as [v fs1] eqn:E1.
  destruct (put_bytes_ok _ _ _ _ _ _ Hi E1) as (Hi1 & He1 & Hr1).
  destruct v as [a|e]; [|by intros [= <- <-]]. destruct (Hr1 a eq_refl) as [-> Hd].
  destruct (put_each blobs fs1) as [v2 fs2] eqn:E2. destruct (IH _ _ _ Hi1 E2) as (Hi2 & He2 & Hr2).
  assert (He : evolves fs fs2) by (by etrans).
  destruct v2 as [l|e]; intros [= <- <-]; (split; [done|]); (split; [done|]); [|done].
  intros l' [= <-]. destruct (Hr2 l eq_refl) as [-> Hall]. split; [done|]. constructor; [|done].
  intros Hn. exact (evolves_visible _ _ _ He2 (hash_valid _) Hn (pd_visible _ _ _ _ _ Hd Hn)).
Qed.

Lemma put_batch_ok fs blobs r fs' : Inv fs -> put_batch blobs fs = (r, fs') -> Inv fs' /\ evolves fs fs'.
Proof.
  intros Hi. unfold put_batch, st_bind. destruct (put_each blobs fs) as [v fs1] eqn:E1.
  destruct (put_each_ok _ _ _ _ Hi E1) as (Hi1 & He1 & _). destruct v as [l|e]; [|by intros [= <- <-]].
  case_bool_decide; [by intros [= <- <-]|].
  unfold finish_batched_puts. destruct (sync_directory [] Full fs1) as [v2 fs2] eqn:E2.
  destruct (neutral_sync_directory _ _ _ _ _ Hi1 E2) as [Hi2 Hn2].
  pose proof (neutral_evolves _ _ Hi1 Hn2). destruct v2; intros [= <- <-]; (split; [done|by etrans]).
Qed.

Lemma neutral_get artifact : neutral_op (get artifact).
Proof.
  apply neutral_bind; [apply neutral_path_for|]. intros p. apply neutral_bind.
  - apply neutral_attempt, neutral_bind; [apply neutral_open|intros; apply neutral_read].
  - intros [c|e]; case_match; apply neutral_ret || apply neutral_lift.
Qed.

Lemma neutral_open_verified artifact : neutral_op (open_verified artifact).
Proof.
  apply neutral_bind; [apply neutral_path_for|]. intros p. apply neutral_bind.
  - apply neutral_attempt, neutral_open.
  - intros [i|e]; [|case_match; apply neutral_lift]. apply neutral_bind; [apply neutral_or_io, neutral_read|].
    intros content. case_match; [apply neutral_lift|].
    apply neutral_bind; [apply neutral_or_io, neutral_rewind|intros; apply neutral_ret].
Qed.

(** ** Streams and files *)

Lemma stream_pieces_ok t i pieces : forall n b fs r fs', Inv fs -> owned fs t i b ->
  stream_pieces i pieces n fs = (r, fs') ->
  Inv fs' /\ step t fs fs' /\
  match r with Ok _ => owned fs' t i (b ++ concat pieces) | Err _ => exists b', owned fs' t i b' end.
Proof.
  induction pieces as [|c pieces IH]; intros n b fs r fs' Hi Ho; cbn [stream_pieces concat].
  { intros [= <- <-]. rewrite app_nil_r. done. }
  unfold st_bind at 1. destruct (write_all i c fs) as [v fs1] eqn:E1.
  destruct (write_all_ok _ _ _ _ _ _ _ Hi Ho E1) as (Hi1 & Hs1 & Hv).
  destruct v as [u|e]; [|intros [= <- <-]; done]. unfold st_bind at 1, st_lift.
  destruct (checked_add_u64 n (blen c)) as [m|]; cbn [ok_or]; [|intros [= <- <-]; eauto].
  intros E2. destruct (IH _ _ _ _ _ Hi1 Hv E2) as (Hi2 & Hs2 & Hr). rewrite <- app_assoc in Hr.
  split; [done|]. split; [by etrans|done].
Qed.

Lemma stream_writes t i source n :
  writes t i (concat source.(so_pieces))
    (actual_len <- or_io_error "persist temporary CAS object" t (write_source i source) ;;
     st_reject_if (negb (actual_len =? n)%N)
       (store_error InvalidArgument "streamed CAS bytes do not match their provider-view byte length" false) ;;;
     sync_file i t Plain).
Proof.
  intros fs r fs' Hi Ho. unfold st_bind at 1, or_io_error at 1, write_source at 1, st_bind at 1.
  destruct (stream_pieces i (so_pieces source) 0 fs) as [v fs1] eqn:E1.
  destruct (stream_pieces_ok t i _ _ _ _ _ _ Hi Ho E1) as (Hi1 & Hs1 & Hv).
  destruct v as [m|e]; [|by intros [= <- <-]]. destruct (so_error source); [by intros [= <- <-]|].
  cbn [map_err st_ret]. unfold st_bind at 1, st_reject_if, st_lift at 1.
  destruct (negb _); cbn [reject_if]; [by intros [= <- <-]|]. intros E2.
  destruct (neutral_sync_file i t Plain _ _ _ Hi1 E2) as [Hi2 Hn2].
  split; [done|]. split; [etrans; [done|exact (neutral_step _ _ _ Hi1 Hn2)]|].
  intros u' ->. exact (sync_own _ _ _ _ _ _ _ _ Hi1 Hv E2).
Qed.

Lemma path_for_hex hex fs : valid_hex hex = true ->
  path_for (ARTIFACT_PREFIX ++ hex)%string fs = (Ok (object_path hex), fs).
Proof.
  intros Hv. unfold path_for, st_bind, st_lift. by rewrite (proj2 (parse_artifact_ref_ok _ hex) (conj eq_refl Hv)).
Qed.

Lemma put_stream_ok fs hex n source r fs' :
  Inv fs -> hash_hex (concat source.(so_pieces)) = hex \/ tampered hex ->
  put_batched_stream (ARTIFACT_PREFIX ++ hex)%string n source fs = (r, fs') -> Inv fs' /\ evolves fs fs'.
Proof.
  intros Hi Hh. unfold put_batched_stream. destruct (valid_hex hex) eqn:Hv.
  2:{ unfold path_for. unfold st_bind at 1, st_bind at 1, st_lift at 1.
      destruct (parse_artifact_ref _) as [hex'|e] eqn:Ep; [|by intros [= _ <-]].
      apply parse_artifact_ref_ok in Ep as [Eq%str_append_inj_l Hv']. congruence. }
  rewrite (st_run_bind _ _ _ _ _ (path_for_hex hex fs Hv)). unfold st_bind at 1.
  destruct (verify_existing _ _ fs) as [v fs1] eqn:E1.
  destruct (neutral_verify_existing _ _ _ _ _ Hi E1) as [Hi1 Hn1]. pose proof (neutral_evolves _ _ Hi Hn1) as He1.
  destruct v as [[|]|e]; [by intros [= _ <-]| |by intros [= _ <-]]. unfold st_bind at 1, or_io_error at 1.
  destruct (create_dir_all _ fs1) as [v2 fs2] eqn:E2.
  destruct (neutral_create_dir_all _ _ _ _ Hi1 E2) as [Hi2 Hn2].
  assert (He2 : evolves fs fs2) by (etrans; [done|by apply neutral_evolves]).
  destruct v2 as [u|e]; cbn [map_err]; [|by intros [= _ <-]]. unfold st_bind at 1.
  destruct (create_temporary 32 _ fs2) as [[[t i]|e] fs3] eqn:E3;
    destruct (create_temporary_ok _ _ _ _ _ Hi2 E3) as [Hi3 Hr3].
  2:{ intros [= _ <-]. split; [done|]. etrans; [done|by apply neutral_evolves]. }
  destruct Hr3 as (Hs3 & Ho3 & _ & Hx). unfold scoped_temporary.
  destruct (publish_staged _ _ _ _ _ fs3) as [v4 fs4] eqn:E4.
  destruct (publish_staged_ok _ _ _ _ _ _ _ _ _ Hi3 Ho3 Hv (stream_writes t i source n) Hh E4) as (Hi4 & Hs4 & _).
  intros [= _ <-]. destruct (drop_temporary_ok fs4 t Hi4) as [Hi5 Hs5]. split; [done|]. etrans; [done|].
  apply (step_evolves t); [intros j b Hj; by apply (Hx t j b Hj)|]. etrans; [done|]. by etrans.
Qed.

Lemma copy_reader_ok shown t i reads : forall b fs r fs', Inv fs -> owned fs t i b ->
  copy_reader shown t i reads b fs = (r, fs') ->
  Inv fs' /\ step t fs fs' /\ forall b', r = Ok b' -> owned fs' t i b'.
Proof.
  induction reads as [|[c|e] reads IH]; intros b fs r fs' Hi Ho; cbn [copy_reader].
  { intros [= <- <-]. split; [done|]. split; [done|]. by intros b' [= <-]. }
  2:{ intros [= <- <-]. done. }
  destruct c as [|x c]; [intros [= <- <-]; split; [done|]; split; [done|]; by intros b' [= <-]|].
  unfold st_bind, or_io_error. destruct (write_all i (x :: c) fs) as [v fs1] eqn:E1.
  destruct (write_all_ok _ _ _ _ _ _ _ Hi Ho E1) as (Hi1 & Hs1 & Hv).
  destruct v as [u|e]; cbn [map_err]; [|by intros [= <- <-]]. intros E2.
  destruct (IH _ _ _ _ Hi1 Hv E2) as (? & ? & ?). split; [done|]. split; [by etrans|done].
Qed.

(** A file that was put is durable under the digest of what was copied. *)
Lemma put_reader_ok fs reads shown r fs' : Inv fs -> put_reader reads shown fs = (r, fs') ->
  Inv fs' /\ evolves fs fs' /\
  forall a, r = Ok a -> exists b, a = artifact_for b /\ (~ tampered (hash_hex b) -> durable fs' (hash_hex b)).
Proof.
  intros Hi. unfold put_reader, st_bind at 1. destruct (create_temporary 32 [] fs) as [[[t i]|e] fs1] eqn:E1;
    destruct (create_temporary_ok _ _ _ _ _ Hi E1) as [Hi1 Hr1].
  2:{ intros [= <- <-]. split; [done|]. split; [by apply neutral_evolves|done]. }
  destruct Hr1 as (Hs1 & Ho1 & _ & Hx). unfold scoped_temporary.
  destruct (st_bind _ _ fs1) as [v fs2] eqn:E2.
  assert (Hmain : Inv fs2 /\ step t fs1 fs2 /\ forall a, v = Ok a -> exists b, a = artifact_for b /\
    (t ∉ fs_temps fs2) /\ (~ tampered (hash_hex b) -> durable fs2 (hash_hex b))).
  { revert E2. unfold st_bind at 1, attempt at 1. unfold st_bind at 1.
    destruct (copy_reader shown t i reads [] fs1) as [w fs3] eqn:E3.
    destruct (copy_reader_ok _ _ _ _ _ _ _ _ Hi1 Ho1 E3) as (Hi3 & Hs3 & Hw).
    assert (Hcl : forall e fs4, Inv fs4 -> step t fs1 fs4 -> forall r5 fs5,
      (cleanup_temporary t [] Full ;;; fail e : StoreM string) fs4 = (r5, fs5) ->
      Inv fs5 /\ step t fs1 fs5 /\ forall a, r5 = Ok a -> exists b, a = artifact_for b /\
      (t ∉ fs_temps fs5) /\ (~ tampered (hash_hex b) -> durable fs5 (hash_hex b))).
    { intros e fs4 Hi4 Hs4 r5 fs5 E5. destruct (cleanup_fail_ok _ _ _ _ _ Hi4 E5) as (? & ? & Hno).
      split; [done|]. split; [by etrans|]. intros a Ha. by destruct (Hno a). }
    destruct w as [b|e]; [|exact (Hcl e fs3 Hi3 Hs3 v fs2)]. unfold st_bind at 1.
    destruct (sync_file i t Full fs3) as [w fs4] eqn:E4.
    destruct (neutral_sync_file _ _ _ _ _ _ Hi3 E4) as [Hi4 Hn4].
    assert (Hs4 : step t fs1 fs4) by (etrans; [done|exact (neutral_step _ _ _ Hi3 Hn4)]).
    destruct w as [u|e]; [|exact (Hcl e fs4 Hi4 Hs4 v fs2)]. unfold st_ret at 1.
    destruct (sync_own _ _ _ _ _ _ _ _ Hi3 (Hw b eq_refl) E4) as [Ho4 Hc4]. intros E5.
    assert (Hab : harmless t (cleanup_temporary t [] Full))
      by (intros fs0 r0 fs0' Hi0 E0; by destruct (cleanup_ok _ _ _ _ _ _ Hi0 E0) as (? & ? & _)).
    destruct (publish_from_root_ok _ _ _ _ _ _ _ _ Hi4 Ho4 Hc4 Hab E5) as (? & ? & Hr).
    split; [done|]. split; [by etrans|]. intros a Ha. exists b. by apply Hr. }
  destruct Hmain as (Hi2 & Hs2 & Hr2). destruct (drop_temporary_ok fs2 t Hi2) as [Hi3 Hs3]. intros [= <- <-].
  split; [done|]. split.
  - apply (step_evolves t); [intros j b Hj; by apply (Hx t j b Hj)|]. etrans; [done|]. by etrans.
  - intros a Ha. destruct (Hr2 a Ha) as (b & -> & Ht & Hd). exists b. split; [done|].
    unfold drop_temporary. by rewrite bool_decide_eq_false_2.
Qed.

Lemma put_file_ok fs source shown r fs' : Inv fs -> put_file source shown fs = (r, fs') -> Inv fs' /\ evolves fs fs'.
Proof.
  intros Hi. destruct source as [reads|e]; cbn [put_file]; [|by intros [= _ <-]]. intros E.
  by destruct (put_reader_ok _ _ _ _ _ Hi E) as (? & ? & _).
Qed.

Lemma remove_ok fs artifact r fs' ups :
  sys_inv (fs, ups) -> remove artifact fs = (r, fs') -> sys_inv (fs', ups).
Proof.
  intros (Hi & Hall & Hnd). unfold remove, path_for. unfold st_bind at 1, st_bind at 1, st_lift at 1.
  destruct (parse_artifact_ref artifact) as [hex|e] eqn:Ep; [|by intros [= _ <-]].
  apply parse_artifact_ref_ok in Ep as [_ Hv]. unfold st_ret at 1, st_bind, attempt.
  assert (Hdel : forall fs1, Inv fs1 -> Forall (upload_ok fs1) ups ->
    Inv (with_dir fs1 (delete (object_path hex) (fs_dir fs1))) /\
    Forall (upload_ok (with_dir fs1 (delete (object_path hex) (fs_dir fs1)))) ups).
  { intros fs1 [H1 H2 H3 H4 H5 H6] Hall1. split.
    - split; simpl; try done.
      + intros p i [_ Hp]%lookup_delete_Some. by apply (H1 p).
      + intros hex' i Hv' Hn [_ Hp]%lookup_delete_Some. by apply H2.
    - eapply Forall_impl; [exact Hall1|]. intros u (i & b & Et & (Ha & Hb & Hc & Hx) & Hok). exists i, b.
      split; [done|]. split; [|done]. split; [done|]. simpl. split; [|split; [done|]].
      + rewrite lookup_delete_ne; [done|]. intros E. apply (H5 _ Ha). by exists hex.
      + intros p [_ Hp]%lookup_delete_Some. by apply Hx. }
  unfold remove_file, syscall. destruct (tick fs) as [[[e k]|] fs1] eqn:Et;
    destruct (tick_inv _ _ _ Hi Et) as [Hi1 Hn1];
    pose proof (evolves_uploads _ _ _ (neutral_evolves _ _ Hi Hn1) Hall) as Hall1.
  { case_bool_decide; by intros [= _ <-]. }
  destruct (fs_dir fs1 !! object_path hex); [|case_bool_decide; by intros [= _ <-]].
  destruct (Hdel fs1 Hi1 Hall1) as [Hi2 Hall2]. intros E3.
  destruct (neutral_sync_directory _ _ _ _ _ Hi2 E3) as [Hi3 Hn3].
  split; [done|]. split; [|done]. exact (evolves_uploads _ _ _ (neutral_evolves _ _ Hi2 Hn3) Hall2).
Qed.

Lemma evolves_sys fs fs' ups : Inv fs' -> evolves fs fs' -> sys_inv (fs, ups) -> sys_inv (fs', ups).
Proof. intros Hi He (_ & Hall & Hnd). split; [done|]. split; [by eapply evolves_uploads|done]. Qed.

Lemma cas_step_inv s s' : sys_inv s -> cas_step s s' -> sys_inv s'.
Proof.
  intros Hs Hstep. pose proof Hs as (Hi & Hall & Hnd).
  destruct Hstep as [fs ups c r fs' E|fs ups c r fs' E|fs ups hex n source r fs' Hh E|fs ups r fs' E|fs ups r fs' E
    |fs ups source shown r fs' E|fs ups blobs r fs' E|fs ups n u fs' E|fs ups n e fs' E
    |fs pre u post c r u' fs' E|fs pre u post ex r fs' E|fs pre u post|fs ups a r fs' E|fs ups a r fs' E
    |fs ups a r fs' E|fs ups a b fs' E]; cbn [fst snd] in *.
  - destruct (put_bytes_ok _ _ _ _ _ _ Hi E) as (? & ? & _). by eapply evolves_sys.
  - destruct (put_bytes_ok _ _ _ _ _ _ Hi E) as (? & ? & _). by eapply evolves_sys.
  - destruct (put_stream_ok _ _ _ _ _ _ Hi Hh E) as (? & ?). by eapply evolves_sys.
  - destruct (neutral_sync_directory _ _ _ _ _ Hi E). eapply evolves_sys; [done| |done]. by apply neutral_evolves.
  - destruct (neutral_sync_directory _ _ _ _ _ Hi E). eapply evolves_sys; [done| |done]. by apply neutral_evolves.
  - destruct (put_file_ok _ _ _ _ _ Hi E) as (? & ?). by eapply evolves_sys.
  - destruct (put_batch_ok _ _ _ _ Hi E) as (? & ?). by eapply evolves_sys.
  - destruct (begin_put_ok _ _ _ _ Hi E) as (Hi' & He & Hr). destruct (Hr u eq_refl) as (Hu & _ & _ & _ & Hno).
    split; [done|]. split; [constructor; [done|by eapply evolves_uploads]|]. cbn [map].
    constructor; [|done]. intros (v & Ev & Hv)%list_elem_of_fmap. rewrite Forall_forall in Hall.
    destruct (upload_owned _ _ (Hall v Hv)) as (i & b & Ho). rewrite <- Ev in Ho. by apply (Hno i b).
  - destruct (begin_put_ok _ _ _ _ Hi E) as (? & ? & _). by eapply evolves_sys.
  - destruct (split_nodup _ _ _ Hnd) as [Hx _]. apply Forall_app in Hall as [Ha Hb].
    apply Forall_cons in Hb as [Hu Hb].
    destruct (write_chunk_ok _ _ _ _ _ _ Hi Hu E) as (Hi' & Hst & Hu' & Ep & _).
    rewrite map_app, elem_of_app in Hx.
    split; [done|]. cbn [fst snd]. split.
    + apply Forall_app. split; [eapply step_uploads; [done| |done]; tauto|].
      constructor; [done|]. eapply step_uploads; [done| |done]. tauto.
    + rewrite map_app in *. cbn [map] in *. by rewrite Ep.
  - destruct (split_nodup _ _ _ Hnd) as [Hx Hnd']. apply Forall_app in Hall as [Ha Hb].
    apply Forall_cons in Hb as [Hu Hb]. destruct (finish_ok _ _ _ _ _ Hi Hu E) as (Hi' & Hst & _).
    split; [done|]. split; [|done]. eapply step_uploads; [done|done|]. by apply Forall_app.
  - destruct (split_nodup _ _ _ Hnd) as [Hx Hnd']. apply Forall_app in Hall as [Ha Hb].
    apply Forall_cons in Hb as [Hu Hb]. destruct (drop_temporary_ok fs (up_path u) Hi) as (Hi' & Hst).
    split; [done|]. split; [|done]. eapply step_uploads; [done|done|]. by apply Forall_app.
  - by eapply remove_ok.
  - destruct (neutral_get _ _ _ _ Hi E) as [? ?]. eapply evolves_sys; [done| |done]. by apply neutral_evolves.
  - destruct (neutral_open_verified _ _ _ _ Hi E). eapply evolves_sys; [done| |done]. by apply neutral_evolves.
  - revert E. unfold verify. destruct (st_bind _ _ fs) as [v fs1] eqn:E1. intros E.
    assert (fs' = fs1) as -> by (by destruct v; simplify_eq).
    assert (Hn : neutral_op (p <- path_for a ;; verify_existing a p))
      by (apply neutral_bind; [apply neutral_path_for|intros; apply neutral_verify_existing]).
    destruct (Hn _ _ _ Hi E1) as [? ?]. eapply evolves_sys; [done| |done]. by apply neutral_evolves.
Qed.

(** A store that was just created. *)
Definition no_disk : Disk := {| dk_entries := ∅; dk_shards := ∅; dk_contents := ∅ |}.
Definition empty_store (counter : N) (events : list Event) : Fs :=
  {| fs_dir := ∅; fs_shards := ∅; fs_inodes := ∅; fs_next := 0; fs_device := no_disk; fs_stable := no_disk;
     fs_temps := ∅; fs_counter := counter; fs_events := events |}.

(** From a new store, with outside processes confined to the tampered names. *)
Definition reachable (s : Fs * list CasUpload) : Prop :=
  exists counter events, Forall (fun e => Forall announced e.(ev_env)) events /\
    rtc cas_step (empty_store counter events, []) s.

Lemma reachable_inv s : reachable s -> sys_inv s.
Proof.
  intros (counter & events & Hev & Hr). assert (Hinit : sys_inv (empty_store counter events, [])).
  { split; [|split; [constructor|constructor]]. split; cbn; try done; set_solver. }
  revert Hinit. induction Hr as [s|s1 s2 s3 Hst _ IH]; [done|]. intros Hi. apply IH. by eapply cas_step_inv.
Qed.

Lemma reachable_step s s' : reachable s -> cas_step s s' -> reachable s'.
Proof. intros (counter & events & Hev & Hr) Hs. exists counter, events. split; [done|]. by eapply rtc_r. Qed.

Lemma io_error_not_corrupt action p e : he_code (io_error action p e) <> StoreCorrupt.
Proof. unfold io_error. cbn. by destruct (io_kind e). Qed.

(** ** Readers *)

(** What a reference that was asked for may fail with. *)
Definition not_corrupt (artifact : string) (e : HaiderError) : Prop :=
  forall hex, artifact = (ARTIFACT_PREFIX ++ hex)%string -> ~ tampered hex -> he_code e <> StoreCorrupt.

(** An object nobody tampered with reads as its name says. *)
Lemma read_untampered fs hex i fs1 content fs2 : Inv fs -> valid_hex hex = true -> ~ tampered hex ->
  open_file (object_path hex) fs = (Ok i, fs1) -> read_handle i fs1 = (Ok content, fs2) -> hash_hex content = hex.
Proof.
  intros Hi Hv Hn Eo Er. destruct (neutral_open _ _ _ _ Hi Eo) as [Hi1 _].
  destruct (open_file_ok _ _ _ _ Hi Eo) as (Hd & Hlt & Hs). destruct (neutral_read _ _ _ _ Hi1 Er) as [_ Hn2].
  destruct (inv_objects _ Hi1 hex i Hv Hn Hd) as (b & Hb & Hh & _).
  pose proof (read_handle_ok _ _ _ _ Hi1 Hlt Hs Er) as Hc. rewrite (n_inodes _ _ Hn2 i b Hlt Hb) in Hc. congruence.
Qed.

Lemma parse_not_corrupt artifact e : parse_artifact_ref artifact = Err e -> he_code e <> StoreCorrupt.
Proof. unfold parse_artifact_ref. destruct (strip_prefix _ _); [destruct (_ || _)|]; by intros [= <-]. Qed.

Lemma get_reads fs artifact r fs' : Inv fs -> get artifact fs = (r, fs') ->
  match r with Ok b => artifact_for b = artifact | Err e => not_corrupt artifact e end.
Proof.
  intros Hi. unfold get, path_for. unfold st_bind at 1, st_bind at 1, st_lift at 1.
  destruct (parse_artifact_ref artifact) as [hex|e0] eqn:Ep.
  2: { intros [= <- _] h _ _. exact (parse_not_corrupt _ _ Ep). }
  apply parse_artifact_ref_ok in Ep as [-> Hv]. unfold st_ret at 1, st_bind at 1, attempt, st_bind at 1.
  destruct (open_file (object_path hex) fs) as [[i|e1] fs1] eqn:Eo.
  2: { case_bool_decide; intros [= <- _] h _ _; [done|apply io_error_not_corrupt]. }
  destruct (read_handle i fs1) as [[c|e2] fs2] eqn:Er.
  2: { case_bool_decide; intros [= <- _] h _ _; [done|apply io_error_not_corrupt]. }
  destruct (String.eqb _ _) eqn:Eq; intros [= <- _]; [by apply String.eqb_eq|].
  intros h <-%str_append_inj_l Hn. pose proof (read_untampered _ _ _ _ _ _ Hi Hv Hn Eo Er) as Hh.
  revert Eq. unfold artifact_for. by rewrite Hh, String.eqb_refl.
Qed.

Lemma open_verified_reads fs artifact r fs' : Inv fs -> open_verified artifact fs = (r, fs') ->
  match r with
  | Ok i => exists b, fs'.(fs_inodes) !! i = Some b /\ artifact_for b = artifact
  | Err e => not_corrupt artifact e
  end.
Proof.
  intros Hi. unfold open_verified, path_for. unfold st_bind at 1, st_bind at 1, st_lift at 1.
  destruct (parse_artifact_ref artifact) as [hex|e0] eqn:Ep.
  2: { intros [= <- _] h _ _. exact (parse_not_corrupt _ _ Ep). }
  apply parse_artifact_ref_ok in Ep as [-> Hv]. unfold st_ret at 1, st_bind at 1, attempt.
  destruct (open_file (object_path hex) fs) as [[i|e1] fs1] eqn:Eo.
  2: { case_bool_decide; intros [= <- _] h _ _; [done|apply io_error_not_corrupt]. }
  destruct (neutral_open _ _ _ _ Hi Eo) as [Hi1 _]. destruct (open_file_ok _ _ _ _ Hi Eo) as (_ & Hlt & Hs).
  unfold st_bind at 1, or_io_error at 1. destruct (read_handle i fs1) as [[c|e2] fs2] eqn:Er; cbn [map_err].
  2: { intros [= <- _] h _ _. apply io_error_not_corrupt. }
  pose proof (read_handle_ok _ _ _ _ Hi1 Hlt Hs Er) as Hc. destruct (neutral_read _ _ _ _ Hi1 Er) as [Hi2 Hn2].
  destruct (String.eqb _ _) eqn:Eq; cbn [negb].
  2: { intros [= <- _] h <-%str_append_inj_l Hn. pose proof (read_untampered _ _ _ _ _ _ Hi Hv Hn Eo Er) as Hh.
       revert Eq. unfold artifact_for. by rewrite Hh, String.eqb_refl. }
  apply String.eqb_eq in Eq. unfold st_bind, or_io_error. destruct (rewind i fs2) as [[u|e3] fs3] eqn:E3; cbn [map_err].
  2: { intros [= <- _] h _ _. apply io_error_not_corrupt. }
  intros [= <- <-]. destruct (neutral_rewind _ _ _ _ Hi2 E3) as [_ Hn3]. exists c. split; [|done].
  apply (n_inodes _ _ Hn3); [|done]. pose proof (n_next _ _ Hn2). lia.
Qed.

(** C6: Take any sequence of this process's store operations on a new store
    (puts, batches, streams, files, uploads, reads, removals), whatever calls
    fail or stop half way, with other writers of the store publishing complete
    objects in between and processes outside it putting any bytes under the
    names in [tampered], or removing them, at any moment; a stream's address is
    that of its bytes or in [tampered].  Then every visible object whose name
    is not in [tampered] is complete, hashes to its name and was handed to the
    device before it was linked; an open upload's staging file is linked from
    nowhere else, and holds exactly the bytes hashed so far unless the upload
    failed; what [get] returns, and the file [open_verified] returns a handle
    to, hash to the reference that was asked for, tampered with or not; and
    neither reports corruption of an object nobody tampered with.  Staging
    files are assumed not to be tampered with. *)
Theorem cas_integrity fs ups : reachable (fs, ups) ->
  (forall hex i, valid_hex hex = true -> ~ tampered hex -> fs.(fs_dir) !! object_path hex = Some i ->
     exists b, fs.(fs_inodes) !! i = Some b /\ hash_hex b = hex /\ fs.(fs_device).(dk_contents) !! i = Some b) /\
  (forall u, u ∈ ups -> exists i b, fs.(fs_dir) !! u.(up_path) = Some i /\ fs.(fs_inodes) !! i = Some b /\
     (forall p, fs.(fs_dir) !! p = Some i -> p = u.(up_path)) /\
     (u.(up_failed) = false -> b = u.(up_hashed) /\ (blen b <= u.(up_expected_len))%N)) /\
  (forall artifact r fs', get artifact fs = (r, fs') ->
     match r with Ok b => artifact_for b = artifact | Err e => not_corrupt artifact e end) /\
  (forall artifact r fs', open_verified artifact fs = (r, fs') ->
     match r with
     | Ok i => exists b, fs'.(fs_inodes) !! i = Some b /\ artifact_for b = artifact
     | Err e => not_corrupt artifact e
     end).
Proof.
  intros (Hi & Hall & _)%reachable_inv. cbn in *. split; [|split; [|split]].
  - intros hex i Hv Hn Hd. destruct (inv_objects _ Hi hex i Hv Hn Hd) as (b & ? & ? & ? & _). eauto.
  - intros u Hu. rewrite Forall_forall in Hall. destruct (Hall u Hu) as (i & b & _ & (_ & Hd & Hb & Hx) & Hok).
    exists i, b. split; [done|]. split; [done|]. split; [done|]. intros Hf. destruct (Hok Hf) as (? & <- & ?). done.
  - intros artifact r fs'. by apply get_reads.
  - intros artifact r fs'. by apply open_verified_reads.
Qed.

(** ** Durability *)

(** [put] is durable when it returns: unless its name is tampered with, the
    content is read back by its reference after a power loss at any later moment
    before the next operation, if the shard directory is on the device already,
    or does not exist yet and no other writer is active. *)
Theorem put_durable fs ups content a fs1 :
  reachable (fs, ups) -> put content fs = (Ok a, fs1) -> ~ tampered (hash_hex content) ->
  shard_of (hash_hex content) ∈ fs.(fs_device).(dk_shards) \/
    (quiet fs /\ shard_of (hash_hex content) ∉ fs.(fs_shards)) ->
  a = artifact_for content /\
  forall fs2, Crash fs1 fs2 -> fs2.(fs_events) = [] ->
    exists b fs3, get a fs2 = (Ok b, fs3) /\ hash_hex b = hash_hex content.
Proof.
  intros (Hi & _)%reachable_inv E Hn Hsh. destruct (put_bytes_ok _ _ _ _ _ _ Hi E) as (Hi1 & He & Hr).
  destruct (Hr a eq_refl) as [-> Hd]. split; [done|]. intros fs2 Hc Hev.
  apply (durable_survives fs1 fs2); [apply hash_valid| |done|done].
  apply settled_durable; [done|apply hash_valid|done|by apply Hd|by apply Hd|by apply Hd|].
  destruct Hsh as [Hin|[Hq Hns]]; [|by apply (pd_shard _ _ _ _ _ Hd)].
  by apply (s_device_shards _ _ _ (He [])).
Qed.

(** A finished upload is durable: if [finish] accepts, the upload never failed,
    received exactly its declared length, its bytes hash to the declared digest,
    and unless that name is tampered with they are read back by it after any
    power loss. *)
Theorem upload_durable fs pre u post expected a fs1 :
  reachable (fs, pre ++ u :: post) -> finish u expected fs = (Ok a, fs1) ->
  a = expected /\ expected = artifact_for u.(up_hashed) /\ u.(up_failed) = false /\
  blen u.(up_hashed) = u.(up_expected_len) /\
  (~ tampered (hash_hex u.(up_hashed)) -> forall fs2, Crash fs1 fs2 -> fs2.(fs_events) = [] ->
    exists b fs3, get expected fs2 = (Ok b, fs3) /\ hash_hex b = hash_hex u.(up_hashed)).
Proof.
  intros (Hi & Hall & _)%reachable_inv E. cbn in *. apply Forall_app in Hall as [_ [Hu _]%Forall_cons].
  destruct (finish_ok _ _ _ _ _ Hi Hu E) as (_ & _ & Hr).
  destruct (Hr a eq_refl) as (-> & Hf & Hl & -> & Hd). split; [done|]. split; [done|]. split; [done|].
  destruct Hu as (i & b & _ & _ & Hok). destruct (Hok Hf) as (-> & Hlen & _).
  split; [congruence|]. intros Hn fs2 Hc Hev. exact (durable_survives _ _ _ (hash_valid _) (Hd Hn) Hc Hev).
Qed.
End Claims.

(** ** Concrete runs *)

Module CasWitness.
Import Sample.
#[export] Instance linux : Platform := {| plain_durable := true; rename_fallback := false; process_id := 7 |}.

Definition note : bytes := as_bytes "note".
Definition silent (fault : option (IoError * nat)) : Event := {| ev_env := []; ev_fault := fault |}.
Definition io_down : IoError := io_fail OtherIo "input/output error".

(** The name of one object that is tampered with. *)
Definition bad : bytes := as_bytes "bad".
#[export] Instance one_tampered : Tampering := fun hex => hex = hash_hex bad.

Definition fresh : Fs := empty_store 0 [].
Definition stored : Fs := (put note fresh).2.

Lemma reachable_refl : reachable (fresh, []).
Proof. exists 0%N, []. split; [constructor|]. apply rtc_refl. Qed.

Lemma note_untampered : ~ tampered (hash_hex note).
Proof. vm_compute. discriminate. Qed.

Lemma reachable_stored : reachable (stored, []).
Proof.
  eapply reachable_step; [exact reachable_refl|]. eapply step_put. apply surjective_pairing.
Qed.

(** A store in which a process outside it leaves other bytes under the name of
    an object just before that object is linked. *)
Definition raced : Event := {| ev_env := [EnvForeign (hash_hex bad) (Some note)]; ev_fault := None |}.
Definition racing : Fs :=
  empty_store 0 [silent None; silent None; silent None; silent None; silent None; silent None; silent None; raced].
Definition lost : Fs := (put bad racing).2.
Definition both : Fs := (put note lost).2.

Lemma reachable_both : reachable (both, []).
Proof.
  apply (reachable_step (lost, [])); [apply (reachable_step (racing, []))|].
  - exists 0%N, (fs_events racing). split; [|apply rtc_refl]. repeat constructor.
  - eapply step_put. apply surjective_pairing.
  - eapply step_put. apply surjective_pairing.
Qed.

(** The writer that lost the race reports it and leaves the winner in place; the
    other object is visible, and reads of both are answered truthfully. *)
Lemma cas_integrity_witness :
  (exists e, put bad racing = (Err e, lost) /\ he_code e = StoreCorrupt) /\
  (exists i, fs_dir both !! object_path (hash_hex bad) = Some i /\ fs_inodes both !! i = Some note) /\
  (exists i, fs_dir both !! object_path (hash_hex note) = Some i) /\
  forall artifact r fs', get artifact both = (r, fs') ->
    match r with Ok b => artifact_for b = artifact | Err e => not_corrupt artifact e end.
Proof.
  split; [eexists; split; [unfold lost; apply (run_pair (put bad)); vm_compute; reflexivity|reflexivity]|].
  split; [eexists; split; vm_compute; reflexivity|]. split; [eexists; vm_compute; reflexivity|].
  exact (proj1 (proj2 (proj2 (cas_integrity _ _ reachable_both)))).
Defined.

Lemma put_durable_witness :
  put note fresh = (Ok (artifact_for note), stored) /\
  forall fs2, Crash stored fs2 -> fs2.(fs_events) = [] ->
    exists b fs3, get (artifact_for note) fs2 = (Ok b, fs3) /\ hash_hex b = hash_hex note.
Proof.
  assert (E : put note fresh = (Ok (artifact_for note), stored)) by (unfold stored; apply (run_pair (put note)); vm_compute; reflexivity).
  split; [exact E|].
  refine (proj2 (put_durable fresh [] note _ _ reachable_refl E note_untampered _)).
  right. split; [constructor|]. apply not_elem_of_empty.
Defined.

Definition opened : CasUpload :=
  {| up_temporary := Some 0; up_path := [temporary_name 0]; up_hashed := []; up_expected_len := 4;
     up_received_len := 0; up_failed := false |}.
Definition filled : CasUpload :=
  {| up_temporary := Some 0; up_path := [temporary_name 0]; up_hashed := note; up_expected_len := 4;
     up_received_len := 4; up_failed := false |}.
Definition begun : Fs := (begin_put 4 fresh).2.
Definition staged : Fs := (write_chunk opened note begun).2.

Lemma reachable_staged : reachable (staged, [filled]).
Proof.
  apply (reachable_step (begun, [opened])).
  - eapply reachable_step; [exact reachable_refl|]. apply (step_begin fresh [] 4 opened begun).
    vm_compute. reflexivity.
  - apply (step_write begun [] opened [] note (Ok tt) filled staged). vm_compute. reflexivity.
Qed.

Lemma upload_durable_witness :
  blen note = 4%N /\
  forall fs2, Crash (finish filled (artifact_for note) staged).2 fs2 -> fs2.(fs_events) = [] ->
    exists b fs3, get (artifact_for note) fs2 = (Ok b, fs3) /\ hash_hex b = hash_hex note.
Proof.
  assert (E : finish filled (artifact_for note) staged =
    (Ok (artifact_for note), (finish filled (artifact_for note) staged).2)) by (apply (run_pair (finish filled (artifact_for note))); vm_compute; reflexivity).
  destruct (upload_durable staged [] filled [] (artifact_for note) _ _ reachable_staged E) as (_ & _ & _ & Hl & Hd).
  exact (conj Hl (Hd note_untampered)).
Defined.

(** Everything not on stable storage is lost. *)
Definition lose_shards (fs : Fs) : Fs :=
  {| fs_dir := ∅; fs_shards := ∅; fs_inodes := fs.(fs_inodes); fs_next := fs.(fs_next);
     fs_device := no_disk; fs_stable := no_disk; fs_temps := ∅; fs_counter := 0; fs_events := [] |}.

Lemma lose_shards_crash fs :
  bool_decide (fs.(fs_stable).(dk_shards) = ∅) = true ->
  bool_decide (map_Forall (fun p (_ : nat) => parent p <> []) fs.(fs_dir)) = true ->
  Crash fs (lose_shards fs).
Proof.
  intros Hs%bool_decide_eq_true Hd%bool_decide_eq_true. split; cbn.
  - rewrite Hs. set_solver.
  - intros p i Hp _. specialize (Hd p i Hp). cbn in Hd. destruct (parent p) as [|s [|]]; cbn; done.
  - done.
  - done.
Qed.

(** The root sync of a first [put] fails, and the caller retries. *)
Definition failing : Fs := empty_store 0 [silent None; silent None; silent None; silent (Some (io_down, 0))].
Definition failed : Fs := (put note failing).2.
Definition retried : Fs := (put note failed).2.

(** A retried [put] can return success without being durable: the first
    attempt creates the shard directory and reports a retryable failure of the
    root directory's sync; the retry finds the shard present, skips that sync
    and returns the reference, and after a power loss the object is gone. *)
Theorem put_retry_not_durable :
  (exists e, put note failing = (Err e, failed) /\ e.(he_retryable) = true) /\
  put note failed = (Ok (artifact_for note), retried) /\
  Crash retried (lose_shards retried) /\
  exists e fs, get (artifact_for note) (lose_shards retried) = (Err e, fs) /\ e.(he_code) = InvalidArgument.
Proof.
  split.
  { eexists. split; [unfold failed; apply (run_pair (put note)); vm_compute; reflexivity|reflexivity]. }
  split; [unfold retried; apply (run_pair (put note)); vm_compute; reflexivity|].
  split; [apply lose_shards_crash; vm_compute; reflexivity|].
  eexists _, _. split; [apply (run_pair (get (artifact_for note))); vm_compute; reflexivity|reflexivity].
Qed.
End CasWitness.
