(* ===== verification/BinaryUpload.v ===== *)
(** * Binary uploads of a connection (haider-daemon binary_upload.rs)

    The daemon's side of the binary artifact frames: at most one upload per
    connection, each frame applied to the content store and answered before the
    next one is read.  The store handle's write-health latch
    (haider-core sqlite_store.rs) is part of the state: a storage failure sets
    it.  The texts of its presentation are kept as they are passed to
    [ErrorPresentation::new]. *)

From S2P Require Import Prelude RustStr Digest ByteBuf RpcCodec BinaryArtifact.
From S2P Require Import FileSystem Cas CasInv CasClaims Fixtures.

Local Open Scope st_scope.

(** ** The store handle *)

Record ProfileStoreFault := {
  pf_subcode : string;
  pf_title : string;
  pf_detail : string;
  pf_failed_write_ids : list string
}.

(** [store: Mutex<Option<Store>>] and [fault]. *)
Record StoreOwner := { ow_fs : Fs; ow_open : bool; ow_fault : option ProfileStoreFault }.

Definition with_fs (ow : StoreOwner) (fs : Fs) : StoreOwner :=
  {| ow_fs := fs; ow_open := ow.(ow_open); ow_fault := ow.(ow_fault) |}.

Definition as_subcode (code : StoreCode) : string :=
  match code with
  | StoreFull => "store-full"
  | StoreReadOnly => "store-read-only"
  | StoreUnavailable => "store-unavailable"
  | StoreCorrupt => "store-corrupt"
  | InvalidArgument => "invalid-argument"
  | Internal => "internal"
  end.

Definition unwritable_reason (code : StoreCode) : option string :=
  match code with
  | StoreFull => Some "profile disk is full"
  | StoreReadOnly => Some "profile filesystem is read-only"
  | StoreUnavailable => Some "profile storage is unavailable"
  | _ => None
  end%string.

Definition push_failed_id (ids : list string) (id : string) : list string :=
  if (length ids <? 32) && negb (bool_decide (id ∈ ids)) then ids ++ [id] else ids.

Definition note_failed_write (error : HaiderError) (failed_write_ids : list string) (ow : StoreOwner) : StoreOwner :=
  match unwritable_reason error.(he_code) with
  | None => ow
  | Some reason =>
      let current := match ow.(ow_fault) with Some fault => fault.(pf_failed_write_ids) | None => [] end in
      let ids := foldl push_failed_id current failed_write_ids in
      let detail :=
        if bool_decide (ids = [])
        then ("Store unwritable — " ++ reason ++ ". Free space or restore write access, then retry.")%string
        else ("Store unwritable — " ++ reason ++ ". Not committed: " ++ join ", " ids
              ++ ". Free space or restore write access, then retry.")%string in
      {| ow_fs := ow.(ow_fs); ow_open := ow.(ow_open);
         ow_fault := Some {| pf_subcode := as_subcode error.(he_code); pf_title := "Store unwritable";
                             pf_detail := detail; pf_failed_write_ids := ids |} |}
  end.

Definition note_cas_write_error (error : HaiderError) (ow : StoreOwner) : StoreOwner := note_failed_write error [] ow.

Definition closed_error : HaiderError := store_error Internal "SQLite store handle is closed" false.

(** [with_store], for an operation on the content store. *)
Definition with_store {A} (operation : StoreM A) (ow : StoreOwner) : result A HaiderError * StoreOwner :=
  if ow.(ow_open) then
    match operation ow.(ow_fs) with
    | (Ok a, fs) => (Ok a, with_fs ow fs)
    | (Err error, fs) => (Err error, note_failed_write error [] (with_fs ow fs))
    end
  else (Err closed_error, ow).

Section Upload.
Context `{Platform} `{Blake3}.

Definition begin_cas_put (expected_len : N) : StoreOwner -> result CasUpload HaiderError * StoreOwner :=
  with_store (begin_put expected_len).

(** ** [apply] *)

Record Upload := { sink : CasUpload; digest : string }.

Inductive ResponseBody :=
  | ArtifactPutProgress (bytes : N)
  | ArtifactPut (artifact : string) (bytes : N)
  | Error (code message : string) (retryable : bool).

Definition ERROR_CODE_INVALID_ARGUMENT : string := "invalid_argument".

Definition error (message : string) : ResponseBody := Error ERROR_CODE_INVALID_ARGUMENT message false.
Definition store_error_body (e : HaiderError) : ResponseBody :=
  Error ERROR_CODE_INVALID_ARGUMENT e.(he_message) e.(he_retryable).

(** [None] in place of an upload drops it. *)
Definition drop_sink (upload : Upload) (ow : StoreOwner) : StoreOwner :=
  with_fs ow (drop_upload upload.(sink) ow.(ow_fs)).

Definition apply_chunk (upload : Upload) (offset : N) (content : bytes) (ow : StoreOwner)
  : option Upload * ResponseBody * StoreOwner :=
  if negb (upload.(sink).(up_received_len) =? offset)%N
  then (None, error "binary upload offset mismatch", drop_sink upload ow)
  else
    match write_chunk upload.(sink) content ow.(ow_fs) with
    | (Ok _, sink', fs) =>
        (Some {| sink := sink'; digest := upload.(digest) |}, ArtifactPutProgress sink'.(up_received_len), with_fs ow fs)
    | (Err e, sink', fs) =>
        (None, store_error_body e,
         drop_sink {| sink := sink'; digest := upload.(digest) |} (note_cas_write_error e (with_fs ow fs)))
    end.

Definition apply_finish (upload : Upload) (ow : StoreOwner) : option Upload * ResponseBody * StoreOwner :=
  let size := upload.(sink).(up_received_len) in
  match finish upload.(sink) upload.(digest) ow.(ow_fs) with
  | (Ok artifact, fs) => (None, ArtifactPut artifact size, with_fs ow fs)
  | (Err e, fs) => (None, store_error_body e, note_cas_write_error e (with_fs ow fs))
  end.

(** The outcome's request id is the frame's. *)
Definition apply (frame : BinaryFrame) (upload : option Upload) (ow : StoreOwner)
  : option Upload * string * ResponseBody * StoreOwner :=
  let request_id := frame_request_id frame in
  let '(upload, body, ow) :=
    match frame, upload with
    | Begin _ _ _, Some upload => (None, error "binary upload already active", drop_sink upload ow)
    | Begin _ size digest, None =>
        match begin_cas_put size ow with
        | (Ok sink, ow) => (Some {| sink := sink; digest := digest |}, ArtifactPutProgress 0, ow)
        | (Err e, ow) => (None, store_error_body e, ow)
        end
    | _, None => (None, error "no binary upload active", ow)
    | Chunk _ offset content, Some upload => apply_chunk upload offset content ow
    | Finish _, Some upload => apply_finish upload ow
    end in
  (upload, request_id, body, ow).

(** The connection's loop: one frame at a time, each answered. *)
Fixpoint apply_all (frames : list BinaryFrame) (upload : option Upload) (ow : StoreOwner)
  : option Upload * list (string * ResponseBody) * StoreOwner :=
  match frames with
  | [] => (upload, [], ow)
  | frame :: frames =>
      let '(upload, request_id, body, ow) := apply frame upload ow in
      let '(upload, responses, ow) := apply_all frames upload ow in
      (upload, (request_id, body) :: responses, ow)
  end.
End Upload.

(** ** What a connection's frames achieve *)

Section Trace.
Context `{Platform} `{Blake3} `{!Blake3Hex _} `{Tam : Tampering}.

Definition sinks (upload : option Upload) : list CasUpload :=
  match upload with Some upload => [upload.(sink)] | None => [] end.

(** Consecutive chunks and the bytes they carry. *)
Inductive carries : list BinaryFrame -> bytes -> Prop :=
  | carries_nil : carries [] []
  | carries_chunk frames b id content :
      carries frames b -> carries (frames ++ [Chunk id (blen b) content]) (b ++ content).

(** The frames that built the upload in progress. *)
Definition traced (frames : list BinaryFrame) (upload : Upload) : Prop :=
  exists pre id chunks,
    frames = pre ++ Begin id upload.(sink).(up_expected_len) upload.(digest) :: chunks /\
    carries chunks upload.(sink).(up_hashed) /\ upload.(sink).(up_failed) = false.

Lemma apply_all_app frames frames' upload ow :
  apply_all (frames ++ frames') upload ow =
  let '(upload, responses, ow) := apply_all frames upload ow in
  let '(upload, responses', ow) := apply_all frames' upload ow in
  (upload, responses ++ responses', ow).
Proof.
  revert upload ow. induction frames as [|frame frames IH]; intros upload ow; cbn [apply_all app].
  - by destruct (apply_all frames' upload ow) as [[? ?] ?].
  - destruct (apply frame upload ow) as [[[u id] body] ow1]. rewrite IH.
    destruct (apply_all frames u ow1) as [[? ?] ?]. by destruct (apply_all frames' _ _) as [[? ?] ?].
Qed.

Lemma note_fs error ids ow : ow_fs (note_failed_write error ids ow) = ow_fs ow.
Proof. unfold note_failed_write. by destruct (unwritable_reason _). Qed.

Lemma reachable_drop fs u ups : reachable (fs, u :: ups) -> reachable (drop_upload u fs, ups).
Proof. intros Hr. exact (reachable_step _ _ Hr (step_drop fs [] u ups)). Qed.

(** One frame: the store stays in a reachable state, and an upload that remains
    open carries the frames since its [Begin]. *)
Lemma apply_traced frames frame upload ow ups upload' id body ow' :
  reachable (ow.(ow_fs), sinks upload ++ ups) -> (forall u, upload = Some u -> traced frames u) ->
  apply frame upload ow = (upload', id, body, ow') ->
  reachable (ow'.(ow_fs), sinks upload' ++ ups) /\
  (forall u, upload' = Some u -> traced (frames ++ [frame]) u) /\
  (forall artifact size, body = ArtifactPut artifact size ->
     exists pre id0 chunks b id1, frames ++ [frame] = pre ++ Begin id0 size artifact :: chunks ++ [Finish id1] /\
       carries chunks b /\ artifact = artifact_for b /\ size = blen b /\
       (~ tampered (hash_hex b) -> durable ow'.(ow_fs) (hash_hex b))).
Proof.
  intros Hr Ht. unfold apply. destruct frame as [rid size dg|rid offset content|rid], upload as [up|].
  - intros [= <- _ <- <-]. cbn. split; [by apply reachable_drop|done].
  - unfold begin_cas_put, with_store. destruct (ow_open ow); [|by intros [= <- _ <- <-]].
    pose proof (proj1 (reachable_inv _ Hr)) as Hi. cbn in Hi.
    destruct (begin_put size (ow_fs ow)) as [[u|e] fs1] eqn:E; intros [= <- _ <- <-]; cbn.
    + split; [exact (reachable_step _ _ Hr (step_begin _ _ _ _ _ E))|]. split; [|done].
      intros u' [= <-]. destruct (begin_put_ok _ _ _ _ Hi E) as (_ & _ & Hu).
      destruct (Hu u eq_refl) as (_ & Eh & El & Ef & _). exists frames, rid, []. cbn.
      rewrite Eh, El. split; [done|]. split; [constructor|done].
    + rewrite note_fs. split; [exact (reachable_step _ _ Hr (step_begin_failed _ _ _ _ _ E))|done].
  - pose proof (reachable_inv _ Hr) as (Hi & Hall & _). cbn in Hi, Hall. apply Forall_cons in Hall as [Hu _].
    unfold apply_chunk. destruct (up_received_len (sink up) =? offset)%N eqn:Eo; cbn [negb].
    2: { intros [= <- _ <- <-]. cbn. split; [by apply reachable_drop|done]. }
    apply N.eqb_eq in Eo. destruct (write_chunk (sink up) content (ow_fs ow)) as [[v s'] fs1] eqn:E.
    destruct (write_chunk_ok _ _ _ _ _ _ Hi Hu E) as (_ & _ & _ & _ & El & Hv).
    pose proof (reachable_step _ _ Hr (step_write _ [] _ ups _ _ _ _ E)) as Hr1.
    destruct v as [[]|e]; intros [= <- _ <- <-]; cbn.
    + split; [done|]. split; [|done]. intros u [= <-]. destruct Hv as (Ef & _ & Eh).
      destruct (Ht up eq_refl) as (pre & id0 & chunks & -> & Hc & Hf).
      destruct Hu as (i & b & _ & _ & Hok). destruct (Hok Hf) as (-> & Hlen & _).
      exists pre, id0, (chunks ++ [Chunk rid offset content]). cbn. rewrite Eh, El, <- Eo, Hlen.
      split; [by rewrite <- app_assoc|]. split; [by constructor|done].
    + unfold note_cas_write_error. rewrite note_fs. split; [by apply reachable_drop|done].
  - by intros [= <- _ <- <-].
  - pose proof (reachable_inv _ Hr) as (Hi & Hall & _). cbn in Hi, Hall. apply Forall_cons in Hall as [Hu _].
    unfold apply_finish. destruct (finish (sink up) (digest up) (ow_fs ow)) as [v fs1] eqn:E.
    destruct (finish_ok _ _ _ _ _ Hi Hu E) as (_ & _ & Hv).
    pose proof (reachable_step _ _ Hr (step_finish _ [] _ ups _ _ _ E)) as Hr1.
    destruct v as [a|e]; intros [= <- _ <- <-]; cbn.
    + split; [done|]. split; [done|]. intros a' size' [= <- <-].
      destruct (Hv a eq_refl) as (-> & Hf & Hl & Ea & Hd).
      destruct (Ht up eq_refl) as (pre & id0 & chunks & -> & Hc & _).
      destruct Hu as (i & b & _ & _ & Hok). destruct (Hok Hf) as (-> & Hlen & _).
      exists pre, id0, chunks, (up_hashed (sink up)), rid. rewrite Hl, <- app_assoc. cbn.
      split; [done|]. split; [done|]. split; [done|]. split; [congruence|done].
    + unfold note_cas_write_error. rewrite note_fs. split; [done|done].
  - by intros [= <- _ <- <-].
Qed.

Lemma apply_all_traced frames : forall ow ups upload responses ow',
  reachable (ow.(ow_fs), ups) -> apply_all frames None ow = (upload, responses, ow') ->
  reachable (ow'.(ow_fs), sinks upload ++ ups) /\ forall u, upload = Some u -> traced frames u.
Proof.
  induction frames as [|frame frames IH] using rev_ind; intros ow ups upload responses ow' Hr.
  { intros [= <- <- <-]. done. }
  rewrite apply_all_app. destruct (apply_all frames None ow) as [[u1 rs1] ow1] eqn:E1.
  destruct (IH _ _ _ _ _ Hr E1) as [Hr1 Ht1]. cbn [apply_all].
  destruct (apply frame u1 ow1) as [[[u2 id] body] ow2] eqn:E2. intros [= <- _ <-].
  destruct (apply_traced _ _ _ _ _ _ _ _ _ Hr1 Ht1 E2) as (? & ? & _). done.
Qed.

(** C7: An upload is acknowledged only for what was sent: whatever frames a
    connection sends, in whatever order and with whatever failures, if the last
    one is answered with an artifact of some size, then the frames end with a
    [Begin] that declared exactly that digest and size, chunks at consecutive
    offsets, and a [Finish]; the chunks' bytes have that size and hash to that
    digest; and the object is read back after a power loss, unless a process
    outside the store tampers with its name. *)
Theorem upload_acknowledged_exact frames frame ow ups upload responses id artifact size ow' :
  reachable (ow.(ow_fs), ups) ->
  apply_all (frames ++ [frame]) None ow = (upload, responses ++ [(id, ArtifactPut artifact size)], ow') ->
  (exists pre id0 chunks b id1,
     frames ++ [frame] = pre ++ Begin id0 size artifact :: chunks ++ [Finish id1] /\
     carries chunks b /\ artifact = artifact_for b /\ size = blen b /\
     (~ tampered (hash_hex b) -> forall fs2, Crash ow'.(ow_fs) fs2 -> fs2.(fs_events) = [] ->
       exists b' fs3, get artifact fs2 = (Ok b', fs3) /\ artifact_for b' = artifact)) /\
  upload = None /\ reachable (ow'.(ow_fs), ups).
Proof.
  intros Hr. rewrite apply_all_app. destruct (apply_all frames None ow) as [[u1 rs1] ow1] eqn:E1.
  destruct (apply_all_traced _ _ _ _ _ _ Hr E1) as [Hr1 Ht1]. cbn [apply_all].
  destruct (apply frame u1 ow1) as [[[u2 id'] body] ow2] eqn:E2. intros [= <- Eb <-].
  apply app_inj_tail in Eb as [_ [= -> ->]].
  destruct (apply_traced _ _ _ _ _ _ _ _ _ Hr1 Ht1 E2) as (Hr2 & _ & Hput).
  destruct (Hput _ _ eq_refl) as (pre & id0 & chunks & b & id1 & Ef & Hc & -> & -> & Hd). split.
  - exists pre, id0, chunks, b, id1. split; [done|]. split; [done|]. split; [done|]. split; [done|].
    intros Hn fs2 Hcr Hev. destruct (durable_survives _ _ _ (hash_valid b) (Hd Hn) Hcr Hev) as (b' & fs3 & Eg & Eh).
    exists b', fs3. split; [done|]. unfold artifact_for. by rewrite Eh.
  - assert (u2 = None) as ->; [|done]. revert E2. unfold apply.
    destruct frame, u1; try (by intros [= <- _ _ _]); try done.
    + destruct (begin_cas_put _ _) as [[?|?] ?]; by intros [= _ _ ? _].
    + unfold apply_chunk. destruct (negb _); [by intros [= <- _ _ _]|].
      destruct (write_chunk _ _ _) as [[[?|?] ?] ?]; by intros [= <- _ ? _].
    + unfold apply_finish. destruct (finish _ _ _) as [[?|?] ?]; by intros [= <- _ _ _].
Qed.
End Trace.

(** ** Uploads complete *)

Section Live.
Context `{Platform} `{Blake3} `{!Blake3Hex _} `{Tam : Tampering}.

(** No failure and no other writer from here on. *)
Definition calm (fs : Fs) : Prop := fs.(fs_events) = [].

Lemma tick_calm fs : calm fs -> tick fs = (None, fs).
Proof. unfold tick. by intros ->. Qed.

Lemma syscall_calm {A} (op : ST Fs IoError A) fs : calm fs -> syscall op fs = op fs.
Proof. intros Hc. unfold syscall. by rewrite (tick_calm _ Hc). Qed.

Lemma sync_directory_calm d policy fs : calm fs -> sync_directory d policy fs = (Ok tt, flush_directory policy d fs).
Proof. intros Hc. unfold sync_directory, or_io_error, fsync_directory. by rewrite syscall_calm. Qed.

Lemma sync_file_calm i p policy fs : calm fs -> sync_file i p policy fs = (Ok tt, flush_file policy i fs).
Proof. intros Hc. unfold sync_file, or_io_error, fsync_file. by rewrite syscall_calm. Qed.

Lemma cleanup_calm t d policy fs i : calm fs -> t ∈ fs.(fs_temps) -> fs.(fs_dir) !! t = Some i ->
  exists fs', cleanup_temporary t d policy fs = (Ok tt, fs') /\ calm fs'.
Proof.
  intros Hc Ht Hd. unfold cleanup_temporary, remove_temporary, attempt, st_bind, st_get, st_lift.
  rewrite bool_decide_eq_true_2 by done. cbn [negb]. unfold remove_file. rewrite syscall_calm by done.
  rewrite Hd. unfold disown_temporary, st_modify. rewrite sync_directory_calm by done. eauto.
Qed.

Lemma verify_calm b fs : Inv fs -> ~ tampered (hash_hex b) -> calm fs ->
  verify_existing (artifact_for b) (object_path (hash_hex b)) fs =
  (Ok (bool_decide (is_Some (fs.(fs_dir) !! object_path (hash_hex b)))), fs).
Proof.
  intros Hi Hn Hc. unfold verify_existing, st_bind, attempt, open_file. rewrite syscall_calm by done.
  destruct (fs_dir fs !! object_path (hash_hex b)) as [j|] eqn:Ed.
  - destruct (inv_objects _ Hi _ _ (hash_valid b) Hn Ed) as (c & Hj & Hh & _).
    unfold or_io_error, read_handle. rewrite syscall_calm by done. rewrite Hj.
    change (default [] (Some c)) with c. cbn [map_err]. rewrite bool_decide_eq_true_2 by eauto.
    unfold artifact_for. by rewrite Hh, String.eqb_refl.
  - rewrite bool_decide_eq_true_2 by done. by rewrite bool_decide_eq_false_2 by apply is_Some_None.
Qed.

Lemma conclude_calm t d artifact fs i : calm fs -> t ∈ fs.(fs_temps) -> fs.(fs_dir) !! t = Some i ->
  exists fs', conclude t d artifact fs = (Ok artifact, fs').
Proof.
  intros Hc Ht Hd. destruct (cleanup_calm t [] Full fs i Hc Ht Hd) as (fs1 & E1 & Hc1).
  unfold conclude, st_bind. rewrite E1, sync_directory_calm by done. unfold st_ret. eauto.
Qed.

Lemma publish_upload_calm fs t i b : Inv fs -> ~ tampered (hash_hex b) -> calm fs -> owned fs t i b ->
  exists fs', publish_upload (artifact_for b) t fs = (Ok (artifact_for b), fs').
Proof.
  intros Hi Hn Hc (Ht & Hd & Hb & Hx). unfold publish_upload, publish_from_root. rewrite (st_run_bind _ _ _ _ _ (path_for_content b fs)).
  rewrite (st_run_bind _ _ _ _ _ (verify_calm b fs Hi Hn Hc)).
  destruct (fs_dir fs !! object_path (hash_hex b)) as [j|] eqn:Ed.
  { rewrite bool_decide_eq_true_2 by eauto. by apply (conclude_calm t _ (artifact_for b) fs i). }
  rewrite bool_decide_eq_false_2 by apply is_Some_None.
  set (s := shard_of (hash_hex b)). change (parent (object_path (hash_hex b))) with [s].
  unfold st_bind at 1, or_io_error at 1, path_exists at 1. rewrite tick_calm by done. cbn [map_err].
  unfold st_bind at 1, or_io_error at 1, create_dir_all at 1. rewrite syscall_calm by done. cbn [map_err].
  set (fs1 := with_shards fs _).
  assert (Hmid : exists fs2, (if negb (directory_exists fs [s]) then sync_directory [] Full else st_ret tt) fs1
    = (Ok tt, fs2) /\ calm fs2 /\ fs_dir fs2 = fs_dir fs /\ fs_temps fs2 = fs_temps fs /\ fs_shards fs2 = fs_shards fs1).
  { destruct (negb _); [rewrite sync_directory_calm by done|]; eexists; split; done. }
  destruct Hmid as (fs2 & E2 & Hc2 & Ed2 & Et2 & Es2). rewrite (st_run_bind _ _ _ _ _ E2).
  assert (Hpub : publish_temporary t (object_path (hash_hex b)) fs2 =
    (Ok tt, with_dir fs2 (<[object_path (hash_hex b) := i]> (fs_dir fs2)))).
  { unfold publish_temporary, hard_link. rewrite syscall_calm by done. rewrite Ed2, Hd, Ed.
    change (parent (object_path (hash_hex b))) with [s]. unfold directory_exists. rewrite Es2.
    rewrite bool_decide_eq_true_2; [done|]. unfold fs1. cbn. set_solver. }
  unfold st_bind at 1, attempt at 1. rewrite Hpub.
  apply (conclude_calm t _ (artifact_for b) _ i); [done|by cbn; rewrite Et2|].
  cbn. rewrite Ed2. destruct (decide (object_path (hash_hex b) = t)) as [<-|]; [congruence|].
  by rewrite lookup_insert_ne.
Qed.

Lemma finish_calm fs u : Inv fs -> ~ tampered (hash_hex u.(up_hashed)) -> calm fs -> upload_ok fs u -> u.(up_failed) = false ->
  u.(up_received_len) = u.(up_expected_len) ->
  exists fs', finish u (artifact_for u.(up_hashed)) fs = (Ok (artifact_for u.(up_hashed)), fs').
Proof.
  intros Hi Hn Hc (i & b & Et & Ho & Hok) Hf Hl. destruct (Hok Hf) as (-> & _ & _).
  unfold finish, scoped_temporary. unfold st_bind at 1, st_lift at 1. rewrite parse_artifact_for.
  unfold st_bind at 1, st_reject_if, st_lift at 1. rewrite Hf, Hl, N.eqb_refl, String.eqb_refl. cbn [orb negb reject_if].
  rewrite Et. unfold st_bind at 1, st_lift at 1. cbn [ok_or].
  rewrite (st_run_bind _ _ _ _ _ (sync_file_calm i _ _ fs Hc)).
  destruct (flush_file_inv Full i fs Hi) as [Hi1 Hn1].
  destruct (publish_upload_calm _ _ _ _ Hi1 Hn Hc (neutral_owned _ _ _ _ _ Hi Hn1 Ho)) as [fs' E]. rewrite E. eauto.
Qed.

Lemma write_chunk_calm fs u content : calm fs -> upload_ok fs u -> u.(up_failed) = false ->
  (u.(up_received_len) + blen content <= u.(up_expected_len))%N -> (u.(up_expected_len) <= u64_max)%N ->
  exists u' fs', write_chunk u content fs = (Ok tt, u', fs') /\ calm fs' /\
    u'.(up_received_len) = (u.(up_received_len) + blen content)%N.
Proof.
  intros Hc (i & b & Et & _) Hf Hle Hmax. unfold write_chunk. rewrite Hf, Et. cbn [orb].
  assert (Ea : checked_add_u64 (up_received_len u) (blen content) = Some (up_received_len u + blen content)%N)
    by (apply checked_add_u64_some; lia).
  rewrite Ea. rewrite (proj2 (N.ltb_ge _ _) Hle). unfold write_all. rewrite tick_calm by done. eauto.
Qed.

Lemma begin_put_calm fs n : calm fs -> fs.(fs_dir) !! [temporary_name fs.(fs_counter)] = None ->
  exists u fs', begin_put n fs = (Ok u, fs') /\ calm fs' /\ u.(up_received_len) = 0%N.
Proof.
  intros Hc Hd. unfold begin_put, st_bind at 1. cbn [create_temporary].
  unfold st_bind at 1, next_counter, st_bind at 1, attempt, create_new. rewrite syscall_calm by done. cbn [app].
  change (directory_exists _ (parent [temporary_name (fs_counter fs)])) with true. cbn [negb].
  cbn [fs_dir with_counter]. rewrite Hd. eexists _, _. split; [reflexivity|]. done.
Qed.

(** The frames of one upload. *)
Fixpoint chunk_frames (id : string) (offset : N) (pieces : list bytes) : list BinaryFrame :=
  match pieces with
  | [] => []
  | content :: pieces => Chunk id offset content :: chunk_frames id (offset + blen content)%N pieces
  end.

Definition upload_frames (id : string) (pieces : list bytes) : list BinaryFrame :=
  Begin id (blen (concat pieces)) (artifact_for (concat pieces)) :: chunk_frames id 0 pieces ++ [Finish id].

(** From an open upload: the rest of the chunks and the end. *)
Lemma chunks_calm id pieces : forall ow ups u,
  reachable (ow.(ow_fs), sinks (Some u) ++ ups) -> calm ow.(ow_fs) -> u.(sink).(up_failed) = false ->
  u.(sink).(up_expected_len) = (u.(sink).(up_received_len) + blen (concat pieces))%N ->
  (u.(sink).(up_expected_len) <= u64_max)%N ->
  u.(digest) = artifact_for (u.(sink).(up_hashed) ++ concat pieces) ->
  ~ tampered (hash_hex (u.(sink).(up_hashed) ++ concat pieces)) ->
  exists responses ow',
    apply_all (chunk_frames id u.(sink).(up_received_len) pieces ++ [Finish id]) (Some u) ow =
    (None, responses ++ [(id, ArtifactPut u.(digest) u.(sink).(up_expected_len))], ow').
Proof.
  induction pieces as [|c pieces IH]; intros ow ups u Hr Hc Hf Hel Hmax Hdg Hnt;
    pose proof (reachable_inv _ Hr) as (Hi & Hall & _); cbn in Hi, Hall; apply Forall_cons in Hall as [Hu _].
  - cbn [concat app] in *. change (blen []) with 0%N in Hel. rewrite N.add_0_r in Hel. rewrite app_nil_r in Hdg, Hnt.
    destruct (finish_calm _ _ Hi Hnt Hc Hu Hf (eq_sym Hel)) as [fs' E].
    cbn [chunk_frames app apply_all]. unfold apply, apply_finish. cbn [frame_request_id]. rewrite Hdg, E.
    exists [], (with_fs ow fs'). cbn. by rewrite Hel.
  - cbn [concat] in *. rewrite blen_app in Hel.
    destruct (write_chunk_calm _ _ c Hc Hu Hf ltac:(lia) Hmax) as (u' & fs' & E & Hc' & Er).
    destruct (write_chunk_ok _ _ _ _ _ _ Hi Hu E) as (_ & _ & _ & _ & El & Hv). destruct Hv as (Hf' & _ & Eh).
    cbn [chunk_frames app apply_all]. unfold apply at 1, apply_chunk. cbn [frame_request_id]. rewrite N.eqb_refl. cbn [negb].
    rewrite E. rewrite <- Er.
    destruct (IH (with_fs ow fs') ups {| sink := u'; digest := digest u |}) as (rs & ow' & Eall); cbn.
    + exact (reachable_step _ _ Hr (step_write _ [] _ ups _ _ _ _ E)).
    + done.
    + done.
    + rewrite El, Er, Hel. lia.
    + by rewrite El.
    + by rewrite Hdg, Eh, <- app_assoc.
    + by rewrite Eh, <- app_assoc.
    + cbn in Eall. rewrite Eall, El. by exists ((id, ArtifactPutProgress (up_received_len u')) :: rs), ow'.
Qed.

(** C37: An upload completes: on a store that does not fail, the frames of any
    content, cut in any pieces, are all accepted and the last one is answered
    with the digest and the size of the content, if no process outside the store
    has left something else under that digest. *)
Theorem upload_completes id pieces ow ups :
  reachable (ow.(ow_fs), ups) -> calm ow.(ow_fs) -> ow.(ow_open) = true ->
  ow.(ow_fs).(fs_dir) !! [temporary_name ow.(ow_fs).(fs_counter)] = None ->
  (blen (concat pieces) <= u64_max)%N -> ~ tampered (hash_hex (concat pieces)) ->
  exists responses ow',
    apply_all (upload_frames id pieces) None ow =
    (None, responses ++ [(id, ArtifactPut (artifact_for (concat pieces)) (blen (concat pieces)))], ow').
Proof.
  intros Hr Hc Hopen Hd Hmax Hnt. pose proof (proj1 (reachable_inv _ Hr)) as Hi. cbn in Hi.
  destruct (begin_put_calm (ow_fs ow) (blen (concat pieces)) Hc Hd) as (u & fs' & E & Hc' & Er).
  destruct (begin_put_ok _ _ _ _ Hi E) as (_ & _ & Hu). destruct (Hu u eq_refl) as (_ & Eh & El & Ef & _).
  unfold upload_frames. cbn [apply_all]. unfold apply at 1. cbn [frame_request_id].
  unfold begin_cas_put, with_store. rewrite Hopen, E.
  pose proof (reachable_step _ _ Hr (step_begin _ _ _ _ _ E)) as Hr1.
  destruct (chunks_calm id pieces (with_fs ow fs') ups {| sink := u; digest := artifact_for (concat pieces) |})
    as (rs & ow' & Eall); cbn.
  - done.
  - done.
  - done.
  - by rewrite El, Er.
  - by rewrite El.
  - by rewrite Eh.
  - by rewrite Eh.
  - cbn in Eall. rewrite Er in Eall. rewrite Eall, El. by exists ((id, ArtifactPutProgress 0) :: rs), ow'.
Qed.
End Live.

Module UploadWitness.
Import Sample CasWitness.

Definition owner : StoreOwner := {| ow_fs := fresh; ow_open := true; ow_fault := None |}.
Definition pieces : list bytes := [as_bytes "no"; as_bytes "te"].

Lemma upload_completes_witness :
  exists responses ow',
    apply_all (upload_frames "r1" pieces) None owner =
    (None, responses ++ [("r1"%string, ArtifactPut (artifact_for note) 4)], ow').
Proof.
  apply (upload_completes "r1" pieces owner [] reachable_refl);
    [done|done|apply lookup_empty|vm_compute; discriminate|exact note_untampered].
Defined.

Lemma upload_acknowledged_exact_witness :
  exists pre id0 chunks b id1,
    upload_frames "r1" pieces = pre ++ Begin id0 4 (artifact_for note) :: chunks ++ [Finish id1] /\
    carries chunks b /\ artifact_for note = artifact_for b /\ 4%N = blen b.
Proof.
  set (frames := [Begin "r1" 4 (artifact_for note)] ++ chunk_frames "r1" 0 pieces).
  assert (E : apply_all (frames ++ [Finish "r1"]) None owner =
      (None, [("r1"%string, ArtifactPutProgress 0); ("r1"%string, ArtifactPutProgress 2);
              ("r1"%string, ArtifactPutProgress 4)] ++ [("r1"%string, ArtifactPut (artifact_for note) 4)],
       (apply_all (frames ++ [Finish "r1"]) None owner).2))
    by (apply (run_pair (apply_all (frames ++ [Finish "r1"]) None) owner); vm_compute; reflexivity).
  destruct (upload_acknowledged_exact _ _ owner [] _ _ _ _ _ _ reachable_refl E)
    as [(pre & id0 & chunks & b & id1 & H1 & H2 & H3 & H4 & _) _].
  exists pre, id0, chunks, b, id1. exact (conj H1 (conj H2 (conj H3 H4))).
Defined.
End UploadWitness.
