(* ===== verification/EffectTypes.v ===== *)
(** * Effects and menus (haider-protocol effect.rs and menu.rs, haider-tools error.rs)

    What an operation touches, the four-phase life of an effect as it is
    journaled, the menu through which a user is asked, and the errors of the
    broker.  [OtherToolError] stands for the variants of [ToolError] that the
    broker only passes on; it carries their printed text. *)

From S2P Require Import Prelude RustStr.

Local Open Scope string_scope.

Abbreviation EffectId := string (only parsing).
Abbreviation MenuId := string (only parsing).

(** ** Effects *)

Inductive EffectClass :=
  | FsRead | FsWrite | ProcessExec | RemoteExecution | Network (host : string) | GitOp | AgentSpawn
  | PeerMessage | CredentialAccess | GuiAct | ScreenObserve | ScreenControl | MobileObserve
  | MobileControl | ReadSms.
#[export] Instance EffectClass_eq_dec : EqDecision EffectClass.
Proof. solve_decision. Defined.

Record EffectIntent := mkIntent {
  in_effect : EffectId;
  in_class : EffectClass;
  in_summary : string;
  in_args_digest : string;
  in_workspace_revision : option string
}.
#[export] Instance EffectIntent_eq_dec : EqDecision EffectIntent.
Proof. solve_decision. Defined.

Inductive AuthorizationSource := UserTyped.
#[export] Instance AuthorizationSource_eq_dec : EqDecision AuthorizationSource.
Proof. solve_decision. Defined.

Inductive AuthorizationVerdict :=
  | VAllow
  | VPreAuthorized (source : AuthorizationSource)
  | VAsk (menu : MenuId)
  | VDeny (reason : string).
#[export] Instance AuthorizationVerdict_eq_dec : EqDecision AuthorizationVerdict.
Proof. solve_decision. Defined.

Record FileFreshness := { ff_path : string; ff_digest : string }.
#[export] Instance FileFreshness_eq_dec : EqDecision FileFreshness.
Proof. solve_decision. Defined.

Record WorkspaceMutation := {
  wm_effect_id : EffectId;
  wm_mutation_digest : string;
  wm_workspace_revision : option string;
  wm_subject_digest : option string
}.
#[export] Instance WorkspaceMutation_eq_dec : EqDecision WorkspaceMutation.
Proof. solve_decision. Defined.

Inductive EffectOutcome :=
  | OutcomeOk
  | Cancelled
  | CancelledEscalated (note : string)
  | Failed (error : string)
  | Unknown.
#[export] Instance EffectOutcome_eq_dec : EqDecision EffectOutcome.
Proof. solve_decision. Defined.

Inductive EffectPhase :=
  | Intent (intent : EffectIntent)
  | Authorized (effect : EffectId) (verdict : AuthorizationVerdict)
  | Dispatched (effect : EffectId)
  | Outcome (effect : EffectId) (outcome : EffectOutcome) (freshness : option FileFreshness)
      (workspace_mutation : option WorkspaceMutation).
#[export] Instance EffectPhase_eq_dec : EqDecision EffectPhase.
Proof. solve_decision. Defined.

(** The effect a phase belongs to. *)
Definition phase_effect (phase : EffectPhase) : EffectId :=
  match phase with
  | Intent intent => intent.(in_effect)
  | Authorized effect _ | Dispatched effect | Outcome effect _ _ _ => effect
  end.

(** ** Menus *)

Inductive EffectRecoveryAction := Probe | MarkDone | Retry | Abandon.

(** [RecoveryMenu] without its presentation; [OtherMenu] stands for the kinds
    neither the broker nor recovery looks at. *)
Inductive MenuKind :=
  | Permission (effect_summary : string)
  | RecoveryMenu (effect : EffectId) (option_actions : list EffectRecoveryAction)
  | OtherMenu.

Inductive DecisionKind := AllowOnce | AllowAlways | RejectOnce | RejectAlways.
#[export] Instance DecisionKind_eq_dec : EqDecision DecisionKind.
Proof. solve_decision. Defined.

Record MenuOption := {
  opt_key : string;
  opt_label : string;
  opt_detail : option string;
  opt_decision : option DecisionKind
}.

Inductive MenuScope := ScopeSession | ScopeSubagent (agent : string) | ScopeHarness.

Record Menu := {
  menu_id : MenuId;
  menu_kind : MenuKind;
  menu_title : string;
  menu_body : list string;
  menu_options : list MenuOption;
  menu_blocking : bool;
  menu_scope : MenuScope;
  menu_origin : string;
  menu_ttl_ms : option N;
  menu_timeout_option : option N
}.

Record MenuAnswer := {
  ans_menu : MenuId;
  ans_option_key : option string;
  ans_option_index : N;
  ans_value : option string
}.

(** The standard four-choice card, its body's first line. *)
Definition effect_recovery_menu (id : MenuId) (effect : EffectId) (summary : string) : Menu :=
  let option key label detail :=
    {| opt_key := key; opt_label := label; opt_detail := Some detail; opt_decision := None |} in
  {| menu_id := id;
     menu_kind := RecoveryMenu effect [Probe; MarkDone; Retry; Abandon];
     menu_title := "Effect outcome unknown";
     menu_body := ["Dispatched effect: " ++ summary];
     menu_options :=
       [option "probe" "Probe" "Re-check whether the effect completed.";
        option "mark_done" "Mark done" "Record that it completed.";
        option "retry" "Retry" "Settle this attempt and retry once.";
        option "abandon" "Abandon" "Record it abandoned and close the run."];
     menu_blocking := true; menu_scope := ScopeSession; menu_origin := "effect-recovery";
     menu_ttl_ms := None; menu_timeout_option := None |}.

(** ** Errors *)

(** File effects are kept as texts. *)
Inductive ToolError :=
  | Applied (source : ToolError) (effects : list string)
  | RefusedByLockdown (tool reason : string)
  | InvalidArgument (message : string)
  | PermissionDenied (reason : string)
  | AuthorizationRequired (menu : MenuId)
  | InvalidMenuAnswer (menu : MenuId) (message : string)
  | Journal (message : string)
  | Runtime (message : string)
  | Lifecycle (message : string)
  | OtherToolError (text : string).
#[export] Instance ToolError_eq_dec : EqDecision ToolError.
Proof. solve_decision. Defined.

(** [impl Display for ToolError]. *)
Fixpoint tool_error_display (e : ToolError) : string :=
  match e with
  | Applied source _ => tool_error_display source
  | RefusedByLockdown tool reason => "RefusedByLockdown { tool: " ++ tool ++ ", reason: " ++ reason ++ " }"
  | InvalidArgument message => message
  | PermissionDenied reason => "effect denied by policy: " ++ reason
  | AuthorizationRequired menu => "effect requires authorization through menu " ++ menu
  | InvalidMenuAnswer menu message => "invalid answer for menu " ++ menu ++ ": " ++ message
  | Journal message => "effect journal failed: " ++ message
  | Runtime message => "tool runtime failed: " ++ message
  | Lifecycle message => "invalid effect lifecycle: " ++ message
  | OtherToolError text => text
  end.

Definition with_applied_effects (effects : list string) (e : ToolError) : ToolError :=
  if bool_decide (effects = []) then e
  else match e with
       | Applied source _ => Applied source effects
       | _ => Applied e effects
       end.

Lemma applied_display effects e : tool_error_display (with_applied_effects effects e) = tool_error_display e.
Proof. unfold with_applied_effects. case_bool_decide; [done|]. by destruct e. Qed.
