(* ===== verification/Policy.v ===== *)
(** * Permission policy (haider-tools broker.rs: PermissionPolicy)

    Which effects may run, keyed by normalized effect class.  Theorems: the
    decision's order of authority, and that no sequence of policy operations
    can make an execution grant class-wide. *)

From S2P Require Import Prelude RustStr EffectTypes.

Local Open Scope string_scope.

Inductive PolicyDecision := DAllow | DAsk | DDeny (reason : string).
#[export] Instance PolicyDecision_eq_dec : EqDecision PolicyDecision.
Proof. solve_decision. Defined.

Record AlwaysAllowRule := { aa_class : EffectClass; aa_args_digest : string }.
#[export] Instance AlwaysAllowRule_eq_dec : EqDecision AlwaysAllowRule.
Proof. solve_decision. Defined.

Inductive SessionGrantScope := ClassScope | CommandShape (args_digest : string).
#[export] Instance SessionGrantScope_eq_dec : EqDecision SessionGrantScope.
Proof. solve_decision. Defined.

Record SessionGrant := { sg_class : EffectClass; sg_scope : SessionGrantScope }.
#[export] Instance SessionGrant_eq_dec : EqDecision SessionGrant.
Proof. solve_decision. Defined.

(** [matches!(class, ProcessExec | RemoteExecution)]. *)
Definition is_execution (class : EffectClass) : bool :=
  match class with ProcessExec | RemoteExecution => true | _ => false end.

(** [SessionGrant::for_effect]. *)
Definition grant_for_effect (class : EffectClass) (args_digest : string) : SessionGrant :=
  {| sg_class := class; sg_scope := if is_execution class then CommandShape args_digest else ClassScope |}.

(** [SessionGrant::for_computer_name]. *)
Definition grant_for_computer_name (name : string) : result SessionGrant ToolError :=
  if String.eqb name "allow_screen" then Ok {| sg_class := ScreenObserve; sg_scope := ClassScope |}
  else if String.eqb name "allow_screen_control" then Ok {| sg_class := ScreenControl; sg_scope := ClassScope |}
  else Err (InvalidArgument ("unknown computer session grant `" ++ name ++ "`")).

(** [SessionGrant::matches]. *)
Definition grant_matches (grant : SessionGrant) (intent : EffectIntent) : bool :=
  bool_decide (grant.(sg_class) = intent.(in_class)) &&
  match grant.(sg_scope) with
  | ClassScope => true
  | CommandShape args_digest => String.eqb args_digest intent.(in_args_digest)
  end.

Record DenyRule := { dr_class : EffectClass; dr_reason : string }.

Record PermissionPolicy := mkPolicy {
  hard_denylist : list DenyRule;
  allowlist : list EffectClass;
  asklist : list EffectClass;
  denylist : list DenyRule;
  always_allow_rules : list AlwaysAllowRule;
  session_allow : list SessionGrant;
  auto_allow_asks_on : bool
}.

Definition default_policy : PermissionPolicy := mkPolicy [] [] [] [] [] [] false.

(** A [Network] rule with an empty host covers every host. *)
Definition class_rule_matches (rule intent : EffectClass) : bool :=
  bool_decide (rule = intent) ||
  match rule, intent with
  | Network host, Network _ => is_empty host
  | _, _ => false
  end.

Definition rule_covers (intent : EffectIntent) (rule : DenyRule) : bool :=
  class_rule_matches rule.(dr_class) intent.(in_class).

(** [PermissionPolicy::decision]. *)
Definition decision (policy : PermissionPolicy) (intent : EffectIntent) : PolicyDecision :=
  match find (rule_covers intent) policy.(hard_denylist) with
  | Some rule => DDeny rule.(dr_reason)
  | None =>
      match find (rule_covers intent) policy.(denylist) with
      | Some rule => DDeny rule.(dr_reason)
      | None =>
          if existsb (fun rule => bool_decide (rule.(aa_class) = intent.(in_class)) &&
                                  String.eqb rule.(aa_args_digest) intent.(in_args_digest))
               policy.(always_allow_rules)
             || existsb (fun grant => grant_matches grant intent) policy.(session_allow)
             || existsb (fun listed => class_rule_matches listed intent.(in_class)) policy.(allowlist)
          then DAllow
          else if policy.(auto_allow_asks_on) then DAllow else DAsk
      end
  end.

Definition hard_denies (policy : PermissionPolicy) (intent : EffectIntent) : bool :=
  existsb (rule_covers intent) policy.(hard_denylist).

(** ** Changes *)

Definition remove_class (class : EffectClass) (p : PermissionPolicy) : PermissionPolicy :=
  mkPolicy p.(hard_denylist)
    (filter (fun listed => listed <> class) p.(allowlist))
    (filter (fun listed => listed <> class) p.(asklist))
    (filter (fun rule => rule.(dr_class) <> class) p.(denylist))
    p.(always_allow_rules) p.(session_allow) p.(auto_allow_asks_on).

Definition set (class : EffectClass) (d : PolicyDecision) (p : PermissionPolicy) : PermissionPolicy :=
  let p := remove_class class p in
  match d with
  | DAllow => mkPolicy p.(hard_denylist) (p.(allowlist) ++ [class]) p.(asklist) p.(denylist)
                p.(always_allow_rules) p.(session_allow) p.(auto_allow_asks_on)
  | DAsk => mkPolicy p.(hard_denylist) p.(allowlist) (p.(asklist) ++ [class]) p.(denylist)
              p.(always_allow_rules) p.(session_allow) p.(auto_allow_asks_on)
  | DDeny reason =>
      mkPolicy p.(hard_denylist) p.(allowlist) p.(asklist)
        (p.(denylist) ++ [{| dr_class := class; dr_reason := reason |}])
        p.(always_allow_rules) p.(session_allow) p.(auto_allow_asks_on)
  end.

Definition allow (class : EffectClass) : PermissionPolicy -> PermissionPolicy := set class DAllow.
Definition ask (class : EffectClass) : PermissionPolicy -> PermissionPolicy := set class DAsk.
Definition deny (class : EffectClass) (reason : string) : PermissionPolicy -> PermissionPolicy :=
  set class (DDeny reason).

(** [PermissionPolicy::new]. *)
Definition policy_new (allowed asked denied : list EffectClass) : PermissionPolicy :=
  foldl (fun p class => deny class "denied by policy" p) (mkPolicy [] allowed asked [] [] [] false) denied.

Definition hard_deny (class : EffectClass) (reason : string) (p : PermissionPolicy) : PermissionPolicy :=
  mkPolicy (filter (fun rule => rule.(dr_class) <> class) p.(hard_denylist)
            ++ [{| dr_class := class; dr_reason := reason |}])
    p.(allowlist) p.(asklist) p.(denylist) p.(always_allow_rules) p.(session_allow) p.(auto_allow_asks_on).

Definition auto_allow_asks (p : PermissionPolicy) : PermissionPolicy :=
  mkPolicy p.(hard_denylist) p.(allowlist) p.(asklist) p.(denylist) p.(always_allow_rules) p.(session_allow) true.

Definition push_unique `{EqDecision A} (x : A) (l : list A) : list A :=
  if bool_decide (x ∈ l) then l else l ++ [x].

Definition always_allow (intent : EffectIntent) (p : PermissionPolicy) : PermissionPolicy :=
  mkPolicy p.(hard_denylist) p.(allowlist) p.(asklist) p.(denylist)
    (push_unique {| aa_class := intent.(in_class); aa_args_digest := intent.(in_args_digest) |} p.(always_allow_rules))
    p.(session_allow) p.(auto_allow_asks_on).

(** A control grant brings the observation grant with it. *)
Definition allow_session_grant (grant : SessionGrant) (p : PermissionPolicy) : result PermissionPolicy ToolError :=
  if is_execution grant.(sg_class) && bool_decide (grant.(sg_scope) = ClassScope)
  then Err (InvalidArgument "class-wide local or remote execution session grants are forbidden")
  else
    let session := push_unique grant p.(session_allow) in
    let session :=
      if bool_decide (grant.(sg_class) = ScreenControl)
      then push_unique {| sg_class := ScreenObserve; sg_scope := ClassScope |} session else session in
    Ok (mkPolicy p.(hard_denylist) p.(allowlist) p.(asklist) p.(denylist) p.(always_allow_rules) session
          p.(auto_allow_asks_on)).

Definition allow_for_session (class : EffectClass) : PermissionPolicy -> result PermissionPolicy ToolError :=
  allow_session_grant {| sg_class := class; sg_scope := ClassScope |}.

(** [denied_effect_error]. *)
Definition lockdown_tool (class : EffectClass) : string :=
  match class with
  | FsRead => "fs_read" | FsWrite => "fs_write" | ProcessExec => "process_exec" | RemoteExecution => "ssh_shell"
  | Network _ => "network" | GitOp => "git" | AgentSpawn => "spawn_subagent" | CredentialAccess => "credentials"
  | GuiAct => "gui" | ScreenObserve => "screen_observe" | ScreenControl => "screen_control"
  | MobileObserve => "mobile_observe" | MobileControl => "mobile_control" | ReadSms => "read_sms"
  | PeerMessage => "peer_send"
  end.

Definition denied_effect_error (p : PermissionPolicy) (intent : EffectIntent) (reason : string) : ToolError :=
  if hard_denies p intent then RefusedByLockdown (lockdown_tool intent.(in_class)) reason
  else PermissionDenied reason.

(** ** Laws *)

(** Every way the code changes a policy. *)
Inductive policy_step : PermissionPolicy -> PermissionPolicy -> Prop :=
  | ps_set class d p : policy_step p (set class d p)
  | ps_hard_deny class reason p : policy_step p (hard_deny class reason p)
  | ps_auto p : policy_step p (auto_allow_asks p)
  | ps_always intent p : policy_step p (always_allow intent p)
  | ps_grant grant p p' : allow_session_grant grant p = Ok p' -> policy_step p p'.

Lemma elem_of_push_unique `{EqDecision A} (x g : A) l : g ∈ push_unique x l <-> g ∈ l \/ g = x.
Proof.
  unfold push_unique. case_bool_decide as Hx.
  - split; [intros; by left|]. by intros [?| ->].
  - by rewrite elem_of_app, list_elem_of_singleton.
Qed.

Lemma allow_session_grant_ok grant p p' : allow_session_grant grant p = Ok p' ->
  ~ (is_execution grant.(sg_class) = true /\ grant.(sg_scope) = ClassScope) /\
  p' = mkPolicy p.(hard_denylist) p.(allowlist) p.(asklist) p.(denylist) p.(always_allow_rules)
         p'.(session_allow) p.(auto_allow_asks_on) /\
  forall g, g ∈ p'.(session_allow) <->
    g ∈ p.(session_allow) \/ g = grant \/
    (grant.(sg_class) = ScreenControl /\ g = {| sg_class := ScreenObserve; sg_scope := ClassScope |}).
Proof.
  unfold allow_session_grant. destruct (is_execution _ && _) eqn:E; [done|]. intros [= <-]. split; [|split].
  - intros [H1 H2]. by rewrite H1, bool_decide_eq_true_2 in E.
  - done.
  - intros g. clear E. cbn. destruct (bool_decide_reflect (sg_class grant = ScreenControl)); rewrite ?elem_of_push_unique; tauto.
Qed.

Lemma policy_step_hard p p' intent : policy_step p p' -> hard_denies p intent = true -> hard_denies p' intent = true.
Proof.
  unfold hard_denies. rewrite !existsb_elem. intros Hs (rule & Hin & Hc).
  destruct Hs as [class d p|class reason p|p|i p|grant p p' E].
  - exists rule. by destruct d.
  - destruct (decide (dr_class rule = class)) as [<-|Hne].
    + exists {| dr_class := dr_class rule; dr_reason := reason |}. cbn. split; [|exact Hc].
      rewrite elem_of_app. right. by left.
    + exists rule. cbn. split; [|done]. rewrite elem_of_app. left. by apply list_elem_of_filter.
  - by exists rule.
  - by exists rule.
  - destruct (allow_session_grant_ok _ _ _ E) as (_ & -> & _). by exists rule.
Qed.

Lemma hard_denies_decision p intent : hard_denies p intent = true -> exists reason, decision p intent = DDeny reason.
Proof.
  unfold hard_denies, decision. rewrite existsb_elem. intros (rule & Hin & Hc).
  destruct (find _ (hard_denylist p)) eqn:E; [eauto|]. rewrite find_none_iff in E. by rewrite (E rule Hin) in Hc.
Qed.

(** A lockdown cannot be lifted: once a hard deny covers an effect, no
    sequence of policy changes (allow, ask, deny, always-allow, session grants,
    autonomous mode, further hard denies) makes the decision on it anything but
    a denial. *)
Theorem lockdown_is_permanent p p' intent :
  hard_denies p intent = true -> rtc policy_step p p' -> exists reason, decision p' intent = DDeny reason.
Proof.
  intros Hd Hs. apply hard_denies_decision. induction Hs as [p|p1 p2 p3 Hst _ IH]; [done|].
  apply IH. by eapply policy_step_hard.
Qed.

Lemma lockdown_is_permanent_witness :
  let p := hard_deny (Network "") "lockdown" default_policy in
  let intent := mkIntent "e1" (Network "example.org") "fetch" "d" None in
  exists reason, decision (auto_allow_asks (allow (Network "example.org") p)) intent = DDeny reason.
Proof.
  cbv zeta. apply (lockdown_is_permanent (hard_deny (Network "") "lockdown" default_policy)); [reflexivity|].
  eapply rtc_l; [apply (ps_set (Network "example.org") DAllow)|]. apply rtc_once. constructor.
Defined.

(** The decision is monotone in the session grants. *)
Lemma decision_session p session intent :
  let p' := mkPolicy p.(hard_denylist) p.(allowlist) p.(asklist) p.(denylist) p.(always_allow_rules) session
              p.(auto_allow_asks_on) in
  (forall g, g ∈ p.(session_allow) -> g ∈ session) -> decision p' intent <> decision p intent ->
  decision p intent = DAsk /\ decision p' intent = DAllow /\
  exists g, g ∈ session /\ (g ∉ p.(session_allow)) /\ grant_matches g intent = true.
Proof.
  cbv zeta. intros Hsub. unfold decision. cbn.
  destruct (find _ (hard_denylist p)); [done|]. destruct (find _ (denylist p)); [done|].
  destruct (existsb (fun rule => _ && _) (always_allow_rules p)); [done|].
  destruct (existsb (fun listed => class_rule_matches _ _) (allowlist p)); [by rewrite !orb_true_r|].
  rewrite !orb_false_r, !orb_false_l. destruct (auto_allow_asks_on p).
  { by destruct (existsb _ session), (existsb _ (session_allow p)). }
  destruct (existsb (fun grant => grant_matches grant intent) session) eqn:E1;
    destruct (existsb _ (session_allow p)) eqn:E2; try done.
  - intros _. split; [done|]. split; [done|]. apply existsb_elem in E1 as (g & Hg & Hm). exists g.
    split; [done|]. split; [|done]. intros Hin. rewrite existsb_false in E2. by rewrite (E2 g Hin) in Hm.
  - apply existsb_elem in E2 as (g & Hg & Hm). rewrite existsb_false in E1. by rewrite (E1 g (Hsub g Hg)) in Hm.
Qed.

(** Approving an effect for the session is accepted, and lifts exactly the
    asks it should: a decision it changes was an ask and becomes an allow, and
    the effect is of the approved class; of a local or remote command only with
    the approved command's own argument digest; approving screen control also
    lifts the asks of screen observation.  Denials are never lifted. *)
Theorem session_approval_scope class args_digest p other :
  exists p', allow_session_grant (grant_for_effect class args_digest) p = Ok p' /\
  (decision p' other <> decision p other ->
   decision p other = DAsk /\ decision p' other = DAllow /\
   ((other.(in_class) = class /\ (is_execution class = true -> other.(in_args_digest) = args_digest)) \/
    (class = ScreenControl /\ other.(in_class) = ScreenObserve))).
Proof.
  assert (E : exists p', allow_session_grant (grant_for_effect class args_digest) p = Ok p').
  { unfold allow_session_grant, grant_for_effect. cbn. destruct (is_execution class) eqn:Ec; cbn; [|eauto].
    rewrite bool_decide_eq_false_2 by done. eauto. }
  destruct E as [p' E]. exists p'. split; [done|]. intros Hne.
  destruct (allow_session_grant_ok _ _ _ E) as (_ & Ep & Hs).
  assert (Hne' := Hne). rewrite Ep in Hne'. apply decision_session in Hne' as (H1 & H2 & g & Hg & Hn & Hm).
  2: { intros g Hg. apply Hs. by left. }
  rewrite <- Ep in H2. split; [done|]. split; [done|]. unfold grant_matches in Hm. apply andb_true_iff in Hm as [Hc Hm].
  apply bool_decide_eq_true in Hc. apply Hs in Hg as [Hg|[->|[Hsc ->]]]; [done| |right; cbn in *; by split].
  left. cbn in *. split; [done|]. intros Hx. rewrite Hx in Hm. by apply String.eqb_eq in Hm as ->.
Qed.
