(* ===== verification/Json.v ===== *)
(** * Canonical arguments (haider-tools broker.rs: canonicalize)

    JSON values as the code sees them: an object is its entries in some order.
    [canonicalize] sorts the keys recursively, so that the digest of an
    operation's arguments does not depend on how they were written. *)

From S2P Require Import Prelude RustStr EffectTypes.
From stdpp Require Import sorting.

#[warnings="-register-all"]
Inductive Value :=
  | Null
  | Bool (b : bool)
  | Number (text : string)
  | Str (s : string)
  | Array (values : list Value)
  | Object (entries : list (string * Value)).

(** Induction with the induction hypothesis for the members. *)
Section ValueInd.
Variable P : Value -> Prop.
Hypothesis (HNull : P Null) (HBool : forall b, P (Bool b)) (HNumber : forall t, P (Number t))
  (HStr : forall s, P (Str s)) (HArray : forall vs, Forall P vs -> P (Array vs))
  (HObject : forall es, Forall (fun kv => P kv.2) es -> P (Object es)).

Fixpoint value_ind' (v : Value) : P v :=
  match v with
  | Null => HNull
  | Bool b => HBool b
  | Number t => HNumber t
  | Str s => HStr s
  | Array vs => HArray vs ((fix go vs : Forall P vs :=
      match vs with [] => List.Forall_nil P | v :: vs => List.Forall_cons P v vs (value_ind' v) (go vs) end) vs)
  | Object es => HObject es ((fix go es : Forall (fun kv => P kv.2) es :=
      match es with
      | [] => List.Forall_nil _
      | kv :: es => List.Forall_cons (fun kv => P kv.2) kv es (value_ind' kv.2) (go es)
      end) es)
  end.
End ValueInd.

Definition key_le (a b : string * Value) : Prop := String.le a.1 b.1.
#[export] Instance key_le_dec : RelDecision key_le.
Proof. intros a b. unfold key_le. apply _. Defined.

(** The code sorts the entries and then rewrites their values; the order is by
    key alone, so the other way round is the same. *)
Fixpoint canonicalize (v : Value) : Value :=
  match v with
  | Array values => Array (map canonicalize values)
  | Object entries => Object (merge_sort key_le (map (fun kv => (kv.1, canonicalize kv.2)) entries))
  | scalar => scalar
  end.

(** ** Equal up to the order of keys *)

#[warnings="-register-all"]
Inductive json_eq : Value -> Value -> Prop :=
  | je_null : json_eq Null Null
  | je_bool b : json_eq (Bool b) (Bool b)
  | je_number t : json_eq (Number t) (Number t)
  | je_str s : json_eq (Str s) (Str s)
  | je_array vs ws : Forall2 json_eq vs ws -> json_eq (Array vs) (Array ws)
  | je_object es es' fs :
      es ≡ₚ es' -> Forall2 (fun kv kw => kv.1 = kw.1 /\ json_eq kv.2 kw.2) es' fs ->
      json_eq (Object es) (Object fs).

(** No object has a key twice, as in a [serde_json::Map]. *)
#[warnings="-register-all"]
Inductive keys_unique : Value -> Prop :=
  | ku_null : keys_unique Null
  | ku_bool b : keys_unique (Bool b)
  | ku_number t : keys_unique (Number t)
  | ku_str s : keys_unique (Str s)
  | ku_array vs : Forall keys_unique vs -> keys_unique (Array vs)
  | ku_object es : NoDup es.*1 -> Forall (fun kv => keys_unique kv.2) es -> keys_unique (Object es).

Definition canon_entry (kv : string * Value) : string * Value := (kv.1, canonicalize kv.2).

#[export] Instance key_le_total : Total key_le.
Proof. intros a b. apply String.le_total. Qed.
#[export] Instance key_le_trans : Transitive key_le.
Proof. intros a b c. unfold key_le. apply transitivity. Qed.

(** Keys survive, and members with them. *)
Lemma canon_keys es : (map canon_entry es).*1 = es.*1.
Proof. induction es as [|[k v] es IH]; cbn; [done|]. by f_equal. Qed.

Lemma same_key_same_entry (es : list (string * Value)) a b : NoDup es.*1 -> a ∈ es -> b ∈ es -> a.1 = b.1 -> a = b.
Proof.
  intros Hn (i & Hi)%list_elem_of_lookup (j & Hj)%list_elem_of_lookup Hk.
  assert (i = j) as <-; [|congruence].
  apply (NoDup_lookup es.*1 i j a.1); [done|by rewrite list_lookup_fmap, Hi|by rewrite list_lookup_fmap, Hj, Hk].
Qed.

Lemma sorted_entries_eq es fs :
  NoDup es.*1 -> es ≡ₚ fs -> merge_sort key_le es = merge_sort key_le fs.
Proof.
  intros Hn Hp. apply (StronglySorted_unique_strong key_le).
  - intros a b. rewrite !merge_sort_Permutation, <- Hp. intros Ha Hb H1 H2.
    apply (same_key_same_entry es); [done..|]. by apply (anti_symm String.le).
  - apply StronglySorted_merge_sort; apply _.
  - apply StronglySorted_merge_sort; apply _.
  - by rewrite !merge_sort_Permutation.
Qed.

Lemma canon_json_eq v : forall w, canonicalize v = canonicalize w -> json_eq v w.
Proof.
  induction v as [|b|t|s|vs IH|es IH] using value_ind'; intros w; destruct w as [|b'|t'|s'|ws|fs]; cbn;
    change (fun kv : string * Value => (kv.1, canonicalize kv.2)) with canon_entry;
    intros E; simplify_eq; try constructor.
  - revert ws E. induction IH as [|v vs Hv _ IHvs]; intros [|w ws] E; cbn in E; simplify_eq; constructor; eauto.
  - assert (Hp : map canon_entry fs ≡ₚ map canon_entry es).
    { rewrite <- (merge_sort_Permutation key_le (map _ es)), E, merge_sort_Permutation. done. }
    apply Permutation_map_inv in Hp as (es' & Em & Hp). apply (je_object _ es'); [done|].
    assert (IH' : Forall (fun kv => forall w, canonicalize kv.2 = canonicalize w -> json_eq kv.2 w) es').
    { by rewrite <- Hp. }
    clear -IH' Em. revert fs Em. induction IH' as [|[k v] es Hv _ IHes]; intros [|[k' w] fs] E; cbn in *;
      simplify_eq; constructor; cbn; eauto.
Qed.

Lemma json_eq_canon v : forall w, keys_unique v -> json_eq v w -> canonicalize v = canonicalize w.
Proof.
  induction v as [|b|t|s|vs IH|es IH] using value_ind'; intros w Hu He; inversion He as [| | | |? ws Hall|? es' fs Hp Hall];
    subst; try done; cbn;
    change (fun kv : string * Value => (kv.1, canonicalize kv.2)) with canon_entry; f_equal; inversion Hu as [| | | |? Huv|? Hn Hue]; subst.
  - clear He Hu. revert ws Hall. induction vs as [|v vs IHvs]; intros ws Hall; inversion Hall as [|? w ? ws' Hvw Hrest]; subst; [done|].
    apply Forall_cons in IH as [IHv IH]. apply Forall_cons in Huv as [Hv Huv]. cbn. f_equal; [by apply IHv|by apply IHvs].
  - assert (E : map canon_entry es' = map canon_entry fs).
    { rewrite Hp in IH, Hue. clear -IH Hue Hall. induction Hall as [|[k v] [k' w] es fs [Hk Hv] _ IHes]; [done|].
      apply Forall_cons in IH as [IHv IH]. apply Forall_cons in Hue as [Huv Hue]. cbn in *. subst.
      f_equal; [unfold canon_entry; cbn; by rewrite (IHv w Huv Hv)|by apply IHes]. }
    rewrite <- E. apply sorted_entries_eq; [by rewrite canon_keys|]. by apply Permutation_map.
Qed.

(** Approvals bind to the arguments and not to their spelling: two argument
    values have the same canonical form exactly when they are equal up to the
    order of the keys of their objects, at every depth. *)
Theorem canonical_form_exact v w :
  keys_unique v -> (canonicalize v = canonicalize w <-> json_eq v w).
Proof. intros Hu. split; [apply canon_json_eq|by apply json_eq_canon]. Qed.

Lemma canonical_form_exact_witness :
  let v := Object [("b", Array [Null; Object [("y", Str "1"); ("x", Bool true)]]); ("a", Number "2")]%string in
  let w := Object [("a", Number "2"); ("b", Array [Null; Object [("x", Bool true); ("y", Str "1")]])]%string in
  json_eq v w.
Proof.
  cbv zeta. apply canonical_form_exact; [|reflexivity].
  repeat (constructor; cbn); apply (bool_decide_unpack _); reflexivity.
Defined.
