(* ===== verification/Broker.v ===== *)
(** * Effect broker (haider-tools broker.rs: EffectBroker and BrokerJournal)

    Every side effect of a tool goes through the broker: its intent is
    journaled, a verdict is journaled, [Dispatched] is journaled only after a
    permitting verdict, and exactly one writer may journal its outcome.

    The journal sink is external: an append either commits one phase (with its
    checkpoint) or fails without a trace, which is its documented contract; the
    answers it will give are part of the state.

    The broker's task set holds two kinds of tasks.  An operation's task (a file
    mutation or a supervised process) runs the operation, takes the terminal
    claim when it is over and appends its outcome; one of [dispatch_terminal]
    holds its claim from the start.  A task without a claim is an element of
    [js_operations], one that holds a claim and has not appended yet of
    [br_finalizers], so that other calls may come between its start, claim and
    append; [js_ended] are the tasks that ended, with the error they returned or
    the failure of one that was aborted or unwound, and have not been joined.

    Counters are [u64]s that count operations of one broker.  The process
    registry, workspace receipts and checkpoint freezing are not modelled; what
    closing learns from the registry (leaked processes) is an argument, as are
    the order in which the tasks proceed while it waits, how they end, and which
    tasks of its own fail. *)

From S2P Require Import Prelude RustStr Digest EffectTypes Policy Json.
From stdpp Require Import sorting.

Local Open Scope st_scope.

(** ** State *)

Inductive LifecycleState :=
  | LIntent | AuthorizedAllow | AuthorizedBlocked | LDispatched | Terminalizing | TerminalJournalFailed | LOutcome.
#[export] Instance LifecycleState_eq_dec : EqDecision LifecycleState.
Proof. solve_decision. Defined.

Record LifecycleRecord := mkRecord { lr_intent : EffectIntent; lr_state : LifecycleState }.

Record PendingPermission := { pp_menu : Menu; pp_class : EffectClass; pp_args_digest : string }.

Record OneShotRule := { os_class : EffectClass; os_args_digest : string; os_decision : PolicyDecision }.

(** A checkpoint record, as the text it is journaled with. *)
Abbreviation CheckpointRecorded := string (only parsing).

(** The journal behind the sink, and the answers of its next appends. *)
Record Sink := {
  sk_log : list (EffectPhase * option CheckpointRecorded);
  sk_checkpoint_batches : bool;
  sk_answers : list (option ToolError)
}.

Record BrokerJournal := mkJournal {
  bj_sink : Sink;
  bj_lifecycles : gmap EffectId LifecycleRecord;
  bj_phases : list EffectPhase;
  bj_terminal_errors : gmap EffectId ToolError;
  bj_freshness : gmap string string
}.

(** A claim whose append has not run, and what its task returns afterwards: the
    operation's own error, or the append's with the file effects attached. *)
Record Finalizer := {
  fz_effect : EffectId;
  fz_outcome : EffectOutcome;
  fz_freshness : option FileFreshness;
  fz_mutation : option WorkspaceMutation;
  fz_checkpoint : option CheckpointRecorded;
  fz_task : N;
  fz_own_error : option ToolError;
  fz_applied : list string
}.

(** A registered task whose operation is running. *)
Record OperationTask := { ot_id : N; ot_intent : EffectIntent }.

(** How an operation ends. *)
Record OperationResult := {
  or_outcome : EffectOutcome;
  or_error : option ToolError;
  or_freshness : option FileFreshness;
  or_mutation : option WorkspaceMutation;
  or_checkpoint : option CheckpointRecorded;
  or_applied : list string
}.

(** [JoinSet<(u64, Option<ToolError>)>], its ids and the observed ones. *)
Record JoinSet := {
  js_next_finalizer : N;
  js_operations : list OperationTask;
  js_ended : list (result (N * option ToolError) string);
  js_observed_finalizers : gset N
}.

Definition no_tasks : JoinSet :=
  {| js_next_finalizer := 0; js_operations := []; js_ended := []; js_observed_finalizers := ∅ |}.

(** [br_identity] is "{session}-{generation}-{started_at_ms}". *)
Record EffectBroker := mkBroker {
  br_journal : BrokerJournal;
  br_identity : string;
  br_next_effect : N;
  br_next_menu : N;
  br_pending_permissions : gmap MenuId PendingPermission;
  br_approval_previews : gmap EffectId (list string);
  br_one_shot_rules : list OneShotRule;
  br_finalizers : list Finalizer;
  br_computer_cancellations : gmap EffectId bool;
  br_mobile_cancellations : gmap EffectId bool;
  br_tasks : JoinSet
}.

Abbreviation JournalM A := (ST BrokerJournal ToolError A).
Abbreviation BrokerM A := (ST EffectBroker ToolError A).

Definition with_sink (sink : Sink) (j : BrokerJournal) : BrokerJournal :=
  mkJournal sink j.(bj_lifecycles) j.(bj_phases) j.(bj_terminal_errors) j.(bj_freshness).
Definition with_lifecycles (m : gmap EffectId LifecycleRecord) (j : BrokerJournal) : BrokerJournal :=
  mkJournal j.(bj_sink) m j.(bj_phases) j.(bj_terminal_errors) j.(bj_freshness).
Definition with_terminal_errors (m : gmap EffectId ToolError) (j : BrokerJournal) : BrokerJournal :=
  mkJournal j.(bj_sink) j.(bj_lifecycles) j.(bj_phases) m j.(bj_freshness).
Definition with_freshness (m : gmap string string) (j : BrokerJournal) : BrokerJournal :=
  mkJournal j.(bj_sink) j.(bj_lifecycles) j.(bj_phases) j.(bj_terminal_errors) m.

Definition with_journal (j : BrokerJournal) (b : EffectBroker) : EffectBroker :=
  mkBroker j b.(br_identity) b.(br_next_effect) b.(br_next_menu) b.(br_pending_permissions)
    b.(br_approval_previews) b.(br_one_shot_rules) b.(br_finalizers) b.(br_computer_cancellations)
    b.(br_mobile_cancellations) b.(br_tasks).
Definition with_counters (effect menu : N) (b : EffectBroker) : EffectBroker :=
  mkBroker b.(br_journal) b.(br_identity) effect menu b.(br_pending_permissions) b.(br_approval_previews)
    b.(br_one_shot_rules) b.(br_finalizers) b.(br_computer_cancellations) b.(br_mobile_cancellations) b.(br_tasks).
Definition with_pending (pending : gmap MenuId PendingPermission) (b : EffectBroker) : EffectBroker :=
  mkBroker b.(br_journal) b.(br_identity) b.(br_next_effect) b.(br_next_menu) pending b.(br_approval_previews)
    b.(br_one_shot_rules) b.(br_finalizers) b.(br_computer_cancellations) b.(br_mobile_cancellations) b.(br_tasks).
Definition with_previews (previews : gmap EffectId (list string)) (b : EffectBroker) : EffectBroker :=
  mkBroker b.(br_journal) b.(br_identity) b.(br_next_effect) b.(br_next_menu) b.(br_pending_permissions) previews
    b.(br_one_shot_rules) b.(br_finalizers) b.(br_computer_cancellations) b.(br_mobile_cancellations) b.(br_tasks).
Definition with_one_shot (rules : list OneShotRule) (b : EffectBroker) : EffectBroker :=
  mkBroker b.(br_journal) b.(br_identity) b.(br_next_effect) b.(br_next_menu) b.(br_pending_permissions)
    b.(br_approval_previews) rules b.(br_finalizers) b.(br_computer_cancellations) b.(br_mobile_cancellations) b.(br_tasks).
Definition with_finalizers (finalizers : list Finalizer) (b : EffectBroker) : EffectBroker :=
  mkBroker b.(br_journal) b.(br_identity) b.(br_next_effect) b.(br_next_menu) b.(br_pending_permissions)
    b.(br_approval_previews) b.(br_one_shot_rules) finalizers b.(br_computer_cancellations) b.(br_mobile_cancellations) b.(br_tasks).
Definition with_cancellations (computer mobile : gmap EffectId bool) (b : EffectBroker) : EffectBroker :=
  mkBroker b.(br_journal) b.(br_identity) b.(br_next_effect) b.(br_next_menu) b.(br_pending_permissions)
    b.(br_approval_previews) b.(br_one_shot_rules) b.(br_finalizers) computer mobile b.(br_tasks).
Definition with_tasks (tasks : JoinSet) (b : EffectBroker) : EffectBroker :=
  mkBroker b.(br_journal) b.(br_identity) b.(br_next_effect) b.(br_next_menu) b.(br_pending_permissions)
    b.(br_approval_previews) b.(br_one_shot_rules) b.(br_finalizers) b.(br_computer_cancellations)
    b.(br_mobile_cancellations) tasks.

(** A method of the journal, called on a broker. *)
Definition on_journal {A} (m : JournalM A) : BrokerM A := fun b =>
  let '(r, j) := m b.(br_journal) in (r, with_journal j b).

(** ** The journal *)

(** [JournalSink::append] and [append_checkpointed]. *)
Definition sink_append (phase : EffectPhase) (checkpoint : option CheckpointRecorded) (sink : Sink)
  : result unit ToolError * Sink :=
  let commit answers :=
    {| sk_log := sink.(sk_log) ++ [(phase, checkpoint)]; sk_checkpoint_batches := sink.(sk_checkpoint_batches);
       sk_answers := answers |} in
  if negb (bool_decide (checkpoint = None)) && negb sink.(sk_checkpoint_batches)
  then (Err (Journal "journal sink does not support atomic checkpoint batches"), sink)
  else
    match sink.(sk_answers) with
    | [] => (Ok tt, commit [])
    | None :: answers => (Ok tt, commit answers)
    | Some e :: answers =>
        (Err e, {| sk_log := sink.(sk_log); sk_checkpoint_batches := sink.(sk_checkpoint_batches);
                   sk_answers := answers |})
    end.

(** [append_phase] and [append_phase_with_checkpoint]. *)
Definition append_phase (phase : EffectPhase) (checkpoint : option CheckpointRecorded) : JournalM unit := fun j =>
  match sink_append phase checkpoint j.(bj_sink) with
  | (Err e, sink) => (Err e, with_sink sink j)
  | (Ok _, sink) =>
      (Ok tt, mkJournal sink j.(bj_lifecycles) (j.(bj_phases) ++ [phase]) j.(bj_terminal_errors)
                match phase with
                | Outcome _ _ (Some f) _ => <[f.(ff_path) := f.(ff_digest)]> j.(bj_freshness)
                | _ => j.(bj_freshness)
                end)
  end.

Definition restore_freshness (records : list FileFreshness) (j : BrokerJournal) : BrokerJournal :=
  with_freshness (foldl (fun m f => <[f.(ff_path) := f.(ff_digest)]> m) j.(bj_freshness) records) j.

Definition insert_intent (intent : EffectIntent) : JournalM unit :=
  st_modify (fun j => with_lifecycles (<[intent.(in_effect) := mkRecord intent LIntent]> j.(bj_lifecycles)) j).

(** [{:?}] of a lifecycle state and of an optional one. *)
Definition lifecycle_debug (s : LifecycleState) : string :=
  match s with
  | LIntent => "Intent" | AuthorizedAllow => "AuthorizedAllow" | AuthorizedBlocked => "AuthorizedBlocked"
  | LDispatched => "Dispatched" | Terminalizing => "Terminalizing"
  | TerminalJournalFailed => "TerminalJournalFailed" | LOutcome => "Outcome"
  end.
Definition lifecycle_opt_debug (s : option LifecycleState) : string :=
  match s with Some s => "Some(" ++ lifecycle_debug s ++ ")" | None => "None" end.

Definition require_state (effect : EffectId) (expected : LifecycleState) : JournalM unit := fun j =>
  let actual := lr_state <$> j.(bj_lifecycles) !! effect in
  (reject_if (negb (bool_decide (actual = Some expected)))
     (Lifecycle ("effect " ++ effect ++ " is " ++ lifecycle_opt_debug actual ++ ", expected "
                 ++ lifecycle_debug expected)), j).

Definition no_intent_error (effect : EffectId) : ToolError :=
  Lifecycle ("effect " ++ effect ++ " has no journaled intent").
Definition mismatch_error (intent recorded : EffectIntent) : ToolError :=
  Lifecycle ("effect " ++ intent.(in_effect) ++ " does not match its journaled intent (expected digest "
             ++ recorded.(in_args_digest) ++ ", received " ++ intent.(in_args_digest) ++ ")").

Definition require_recorded_intent (intent : EffectIntent) : JournalM EffectIntent := fun j =>
  (match j.(bj_lifecycles) !! intent.(in_effect) with
   | None => Err (no_intent_error intent.(in_effect))
   | Some record =>
       if bool_decide (record.(lr_intent) = intent) then Ok record.(lr_intent)
       else Err (mismatch_error intent record.(lr_intent))
   end, j).

Definition put_state (effect : EffectId) (record : LifecycleRecord) (s : LifecycleState) (j : BrokerJournal)
  : BrokerJournal :=
  with_lifecycles (<[effect := mkRecord record.(lr_intent) s]> j.(bj_lifecycles)) j.

Definition set_state (effect : EffectId) (s : LifecycleState) : JournalM unit := fun j =>
  match j.(bj_lifecycles) !! effect with
  | None => (Err (no_intent_error effect), j)
  | Some record => (Ok tt, put_state effect record s j)
  end.

(** The claim is the effect it was taken for. *)
Definition claim_terminal (intent : EffectIntent) : JournalM (option EffectId) := fun j =>
  let effect := intent.(in_effect) in
  match j.(bj_lifecycles) !! effect with
  | None => (Err (no_intent_error effect), j)
  | Some record =>
      if negb (bool_decide (record.(lr_intent) = intent)) then (Err (mismatch_error intent record.(lr_intent)), j)
      else match record.(lr_state) with
           | LDispatched => (Ok (Some effect), put_state effect record Terminalizing j)
           | Terminalizing | TerminalJournalFailed | LOutcome => (Ok None, j)
           | s => (Err (Lifecycle ("effect " ++ effect ++ " is " ++ lifecycle_debug s ++ ", expected Dispatched")), j)
           end
  end.

Definition mark_outcome (effect : EffectId) (j : BrokerJournal) : BrokerJournal :=
  match j.(bj_lifecycles) !! effect with
  | Some record => put_state effect record LOutcome j
  | None => j
  end.

Definition mark_terminal_journal_failed (effect : EffectId) (error : ToolError) (j : BrokerJournal) : BrokerJournal :=
  match j.(bj_lifecycles) !! effect with
  | Some record =>
      with_terminal_errors (<[effect := error]> j.(bj_terminal_errors)) (put_state effect record TerminalJournalFailed j)
  | None => j
  end.

(** [Drop for TerminalClaim] before the first poll. *)
Definition abandon_terminal (effect : EffectId) (j : BrokerJournal) : BrokerJournal :=
  match j.(bj_lifecycles) !! effect with
  | Some record =>
      if bool_decide (record.(lr_state) = Terminalizing) then put_state effect record LDispatched j else j
  | None => j
  end.

(** [TerminalClaim::append]. *)
Definition claim_append (f : Finalizer) : JournalM unit := fun j =>
  match append_phase (Outcome f.(fz_effect) f.(fz_outcome) f.(fz_freshness) f.(fz_mutation)) f.(fz_checkpoint) j with
  | (Ok _, j) => (Ok tt, mark_outcome f.(fz_effect) j)
  | (Err e, j) => (Err e, mark_terminal_journal_failed f.(fz_effect) e j)
  end.

Definition intent_le (a b : EffectIntent) : Prop := String.le a.(in_effect) b.(in_effect).
#[export] Instance intent_le_dec : RelDecision intent_le.
Proof. intros a b. unfold intent_le. apply _. Defined.

Definition rearmed (record : LifecycleRecord) : LifecycleRecord :=
  if bool_decide (record.(lr_state) = Terminalizing) then mkRecord record.(lr_intent) LDispatched else record.

(** Every dispatch without a terminal fact, re-armed, in the order of its id. *)
Definition close_sweep_candidates (j : BrokerJournal) : list EffectIntent * BrokerJournal :=
  let lifecycles := rearmed <$> j.(bj_lifecycles) in
  (merge_sort intent_le
     (map lr_intent (filter (fun r => r.(lr_state) = LDispatched) (map snd (map_to_list lifecycles)))),
   with_lifecycles lifecycles j).

(** ** Authorization *)

(** [serde_json::to_vec] of a canonical value, and [{:?}] of a string. *)
Class JsonText := json_to_vec : Value -> result string string.
Class DebugText := debug_str : string -> string.

(** What an [EffectOperation] tells the broker; its arguments are those after
    [canonical_arguments] resolved workspace paths. *)
Record EffectOperation := {
  op_class : EffectClass;
  op_summary : string;
  op_arguments : result Value ToolError;
  op_preview : list string;
  op_revision : option string
}.

Section Broker.
Context {blake3 : Blake3} {json : JsonText} {debug : DebugText}.

Definition canonical_json (v : Value) : result string ToolError :=
  map_err (fun e => InvalidArgument ("effect arguments are not canonicalizable JSON: " ++ e)) (json_to_vec (canonicalize v)).

(** [format!("blake3:{}", blake3::hash(&canonical).to_hex())] of the arguments. *)
Definition args_digest_of (op : EffectOperation) : result string ToolError :=
  (let? args := op.(op_arguments) in
   let? canonical := canonical_json args in
   Ok (("blake3:" ++ blake3_hex canonical)%string))%res.

Definition effect_id (identity : string) (n : N) : EffectId := "effect-" ++ identity ++ "-" ++ pretty n.
Definition permission_menu_id (identity : string) (n : N) : MenuId := "permission-" ++ identity ++ "-" ++ pretty n.

Definition normalize (op : EffectOperation) : BrokerM EffectIntent :=
  args_digest <- st_lift (args_digest_of op) ;;
  st_modify (fun b => with_counters (b.(br_next_effect) + 1) b.(br_next_menu) b) ;;;
  b <- st_get ;;
  let intent := mkIntent (effect_id b.(br_identity) b.(br_next_effect)) op.(op_class) op.(op_summary) args_digest
                  op.(op_revision) in
  on_journal (append_phase (Intent intent) None) ;;;
  on_journal (insert_intent intent) ;;;
  st_modify (fun b => with_previews (<[intent.(in_effect) := op.(op_preview)]> b.(br_approval_previews)) b) ;;;
  st_ret intent.

(** [{:?}] of an effect class. *)
Definition class_debug (class : EffectClass) : string :=
  match class with
  | FsRead => "FsRead" | FsWrite => "FsWrite" | ProcessExec => "ProcessExec" | RemoteExecution => "RemoteExecution"
  | Network host => "Network { host: " ++ debug_str host ++ " }" | GitOp => "GitOp" | AgentSpawn => "AgentSpawn"
  | PeerMessage => "PeerMessage" | CredentialAccess => "CredentialAccess" | GuiAct => "GuiAct"
  | ScreenObserve => "ScreenObserve" | ScreenControl => "ScreenControl" | MobileObserve => "MobileObserve"
  | MobileControl => "MobileControl" | ReadSms => "ReadSms"
  end.

Definition permission_option (key label : string) (d : DecisionKind) : MenuOption :=
  {| opt_key := key; opt_label := label; opt_detail := None; opt_decision := Some d |}.

(** What the menu says approving for the session will allow. *)
Definition session_rule_text (class : EffectClass) : string :=
  if bool_decide (class = ProcessExec)
  then "Approve for this session allows only this exact command shape (shell program, canonical cwd, and environment allowlist)."
  else "Approve for this session allows the " ++ class_debug class ++ " class until the session ends.".

Definition permission_menu_for (intent : EffectIntent) (b : EffectBroker) : Menu * EffectBroker :=
  let b := with_counters b.(br_next_effect) (b.(br_next_menu) + 1) b in
  ({| menu_id := permission_menu_id b.(br_identity) b.(br_next_menu);
      menu_kind := Permission intent.(in_summary);
      menu_title := "Allow " ++ intent.(in_summary) ++ "?";
      menu_body := default [intent.(in_summary)] (b.(br_approval_previews) !! intent.(in_effect))
                   ++ [("Effect class: " ++ class_debug intent.(in_class))%string; session_rule_text intent.(in_class)];
      menu_options := [permission_option "approve_once" "Approve once" AllowOnce;
                       permission_option "approve_for_session" "Approve for this session" AllowAlways;
                       permission_option "deny" "Deny" RejectOnce];
      menu_blocking := true; menu_scope := ScopeSession; menu_origin := "effect_broker";
      menu_ttl_ms := None; menu_timeout_option := None |}, b).

Definition rule_fits (intent : EffectIntent) (rule : OneShotRule) : bool :=
  bool_decide (rule.(os_class) = intent.(in_class)) && String.eqb rule.(os_args_digest) intent.(in_args_digest).

(** Removes the first rule that fits. *)
Fixpoint take_rule (intent : EffectIntent) (rules : list OneShotRule) : option PolicyDecision * list OneShotRule :=
  match rules with
  | [] => (None, [])
  | rule :: rules =>
      if rule_fits intent rule then (Some rule.(os_decision), rules)
      else let '(d, rest) := take_rule intent rules in (d, rule :: rest)
  end.

Definition take_one_shot_decision (intent : EffectIntent) : BrokerM (option PolicyDecision) := fun b =>
  let '(d, rules) := take_rule intent b.(br_one_shot_rules) in (Ok d, with_one_shot rules b).

(** The decision that a current denial, then a committed answer, then the
    policy makes. *)
Definition settle_decision (policy : PermissionPolicy) (intent : EffectIntent) : BrokerM PolicyDecision :=
  match decision policy intent with
  | DDeny reason => st_ret (DDeny reason)
  | d => one_shot <- take_one_shot_decision intent ;; st_ret (default d one_shot)
  end.

Definition permits (verdict : AuthorizationVerdict) : bool :=
  match verdict with VAllow | VPreAuthorized _ => true | _ => false end.

(** The verdict for a decision, and the menu if the user is asked. *)
Definition judge (d : PolicyDecision) (intent : EffectIntent) : BrokerM (AuthorizationVerdict * option Menu) := fun b =>
  match d with
  | DAllow => (Ok (VAllow, None), b)
  | DAsk => let '(menu, b) := permission_menu_for intent b in (Ok (VAsk menu.(menu_id), Some menu), b)
  | DDeny reason => (Ok (VDeny reason, None), b)
  end.

Definition authorize (intent : EffectIntent) (policy : PermissionPolicy) : BrokerM AuthorizationVerdict :=
  on_journal (require_state intent.(in_effect) LIntent) ;;;
  recorded <- on_journal (require_recorded_intent intent) ;;
  d <- settle_decision policy recorded ;;
  judged <- judge d recorded ;;
  let '(verdict, asked) := judged in
  on_journal (append_phase (Authorized intent.(in_effect) verdict) None) ;;;
  st_modify (fun b => match asked with
                      | Some menu =>
                          with_pending (<[menu.(menu_id) := {| pp_menu := menu; pp_class := recorded.(in_class);
                                                               pp_args_digest := recorded.(in_args_digest) |}]>
                                          b.(br_pending_permissions)) b
                      | None => b
                      end) ;;;
  on_journal (set_state intent.(in_effect) (if permits verdict then AuthorizedAllow else AuthorizedBlocked)) ;;;
  st_ret verdict.

(** ** Menu answers *)

Definition selected_decision (menu : Menu) (answer : MenuAnswer) : result DecisionKind ToolError :=
  (let? option := match answer.(ans_option_key) with
                  | Some key =>
                      ok_or (find (fun option => String.eqb option.(opt_key) key) menu.(menu_options))
                        (InvalidMenuAnswer menu.(menu_id) ("unknown option key `" ++ key ++ "`"))
                  | None =>
                      ok_or (menu.(menu_options) !! N.to_nat answer.(ans_option_index))
                        (InvalidMenuAnswer menu.(menu_id)
                           ("option index " ++ pretty answer.(ans_option_index) ++ " is out of range"))
                  end in
   ok_or option.(opt_decision)
     (InvalidMenuAnswer menu.(menu_id) ("option `" ++ option.(opt_key) ++ "` has no decision")))%res.

Definition apply_permission_decision (class : EffectClass) (args_digest : string) (d : DecisionKind)
    (policy : PermissionPolicy) : BrokerM PermissionPolicy :=
  let push once := st_modify (fun b => with_one_shot
    (b.(br_one_shot_rules) ++ [{| os_class := class; os_args_digest := args_digest; os_decision := once |}]) b) in
  match d with
  | AllowOnce => push DAllow ;;; st_ret policy
  | AllowAlways => st_lift (allow_session_grant (grant_for_effect class args_digest) policy)
  | RejectOnce => push (DDeny "rejected once by user") ;;; st_ret policy
  | RejectAlways => st_ret (deny class "rejected always by user" policy)
  end.

(** Both return the policy afterwards. *)
Definition resolve_permission (answer : MenuAnswer) (policy : PermissionPolicy) : BrokerM PermissionPolicy :=
  b <- st_get ;;
  pending <- st_lift (ok_or (b.(br_pending_permissions) !! answer.(ans_menu))
               (InvalidArgument ("unknown permission menu " ++ answer.(ans_menu)))) ;;
  d <- st_lift (selected_decision pending.(pp_menu) answer) ;;
  st_modify (fun b => with_pending (delete answer.(ans_menu) b.(br_pending_permissions)) b) ;;;
  apply_permission_decision pending.(pp_class) pending.(pp_args_digest) d policy.

Definition restore_permission (menu : Menu) (answer : MenuAnswer) (class : EffectClass) (args_digest : string)
    (policy : PermissionPolicy) : BrokerM PermissionPolicy :=
  st_reject_if (negb (String.eqb answer.(ans_menu) menu.(menu_id)))
    (InvalidMenuAnswer answer.(ans_menu)
       ("answer targets " ++ answer.(ans_menu) ++ ", but durable permission menu is " ++ menu.(menu_id))) ;;;
  st_reject_if (match menu.(menu_kind) with Permission _ => false | _ => true end)
    (InvalidArgument ("menu " ++ menu.(menu_id) ++ " is not a permission menu")) ;;;
  d <- st_lift (selected_decision menu answer) ;;
  apply_permission_decision class args_digest d policy.

(** ** Dispatch *)

Definition journal_dispatched (intent : EffectIntent) : BrokerM unit :=
  on_journal (require_recorded_intent intent) ;;;
  on_journal (require_state intent.(in_effect) AuthorizedAllow) ;;;
  on_journal (append_phase (Dispatched intent.(in_effect)) None) ;;;
  on_journal (set_state intent.(in_effect) LDispatched).

Definition begin_user_typed (op : EffectOperation) : BrokerM EffectIntent :=
  intent <- normalize op ;;
  on_journal (append_phase (Authorized intent.(in_effect) (VPreAuthorized UserTyped)) None) ;;;
  on_journal (set_state intent.(in_effect) AuthorizedAllow) ;;;
  journal_dispatched intent ;;;
  st_ret intent.

(** [authorize_computer] and [authorize_mobile]; also the first half of [begin]. *)
Definition authorize_operation (op : EffectOperation) (policy : PermissionPolicy) : BrokerM EffectIntent :=
  intent <- normalize op ;;
  verdict <- authorize intent policy ;;
  match verdict with
  | VAllow | VPreAuthorized _ => st_ret intent
  | VAsk menu => st_lift (Err (AuthorizationRequired menu))
  | VDeny reason => st_lift (Err (denied_effect_error policy intent reason))
  end.

(** [begin]. *)
Definition begin_effect (op : EffectOperation) (policy : PermissionPolicy) : BrokerM EffectIntent :=
  intent <- authorize_operation op policy ;; journal_dispatched intent ;;; st_ret intent.

Definition dispatch_computer (intent : EffectIntent) : BrokerM unit :=
  journal_dispatched intent ;;;
  st_modify (fun b => with_cancellations (<[intent.(in_effect) := false]> b.(br_computer_cancellations))
                        b.(br_mobile_cancellations) b).
Definition dispatch_mobile (intent : EffectIntent) : BrokerM unit :=
  journal_dispatched intent ;;;
  st_modify (fun b => with_cancellations b.(br_computer_cancellations)
                        (<[intent.(in_effect) := false]> b.(br_mobile_cancellations)) b).

(** The tokens of every computer, or mobile, action in flight. *)
Definition cancel_computer_actions (b : EffectBroker) : EffectBroker :=
  with_cancellations ((fun _ => true) <$> b.(br_computer_cancellations)) b.(br_mobile_cancellations) b.
Definition cancel_mobile_actions (b : EffectBroker) : EffectBroker :=
  with_cancellations b.(br_computer_cancellations) ((fun _ => true) <$> b.(br_mobile_cancellations)) b.

(** ** Outcomes *)

Definition terminal (effect : EffectId) (outcome : EffectOutcome) (freshness : option FileFreshness)
    (mutation : option WorkspaceMutation) (checkpoint : option CheckpointRecorded) (task : N) : Finalizer :=
  {| fz_effect := effect; fz_outcome := outcome; fz_freshness := freshness; fz_mutation := mutation;
     fz_checkpoint := checkpoint; fz_task := task; fz_own_error := None; fz_applied := [] |}.

(** A fresh id, and the set that will hold the task. *)
Definition register_finalizer (tasks : JoinSet) : N * JoinSet :=
  let id := (tasks.(js_next_finalizer) + 1)%N in
  (id, {| js_next_finalizer := id; js_operations := tasks.(js_operations); js_ended := tasks.(js_ended);
          js_observed_finalizers := tasks.(js_observed_finalizers) |}).

Definition with_operations (operations : list OperationTask) (b : EffectBroker) : EffectBroker :=
  with_tasks {| js_next_finalizer := b.(br_tasks).(js_next_finalizer); js_operations := operations;
                js_ended := b.(br_tasks).(js_ended);
                js_observed_finalizers := b.(br_tasks).(js_observed_finalizers) |} b.

(** A task is over. *)
Definition end_task (ended : result (N * option ToolError) string) (b : EffectBroker) : EffectBroker :=
  with_tasks {| js_next_finalizer := b.(br_tasks).(js_next_finalizer);
                js_operations := b.(br_tasks).(js_operations);
                js_ended := b.(br_tasks).(js_ended) ++ [ended];
                js_observed_finalizers := b.(br_tasks).(js_observed_finalizers) |} b.

Definition observe_finalizer (id : N) (b : EffectBroker) : EffectBroker :=
  with_tasks {| js_next_finalizer := b.(br_tasks).(js_next_finalizer);
                js_operations := b.(br_tasks).(js_operations); js_ended := b.(br_tasks).(js_ended);
                js_observed_finalizers := {[id]} ∪ b.(br_tasks).(js_observed_finalizers) |} b.

(** Takes the claim and registers the task that will append. *)
Definition register_terminal (intent : EffectIntent) (outcome : EffectOutcome) (freshness : option FileFreshness)
    (mutation : option WorkspaceMutation) (checkpoint : option CheckpointRecorded) : BrokerM (option Finalizer) :=
  claim <- on_journal (claim_terminal intent) ;;
  match claim with
  | None => st_ret None
  | Some effect =>
      b <- st_get ;;
      let '(id, tasks) := register_finalizer b.(br_tasks) in
      let f := terminal effect outcome freshness mutation checkpoint id in
      st_modify (fun b => with_tasks tasks (with_finalizers (b.(br_finalizers) ++ [f]) b)) ;;; st_ret (Some f)
  end.

(** The task runs: [n] is its place among the registered ones. *)
Definition run_finalizer (n : nat) : BrokerM unit := fun b =>
  match b.(br_finalizers) !! n with
  | None => (Ok tt, b)
  | Some f =>
      let '(r, b) := on_journal (claim_append f) (with_finalizers (delete n b.(br_finalizers)) b) in
      (r, end_task (Ok (f.(fz_task), match r with
                                     | Ok _ => f.(fz_own_error)
                                     | Err e => Some (with_applied_effects f.(fz_applied) e)
                                     end)) b)
  end.

(** The task is dropped before its first poll, or its append unwinds; the task
    set keeps the failure's text. *)
Definition drop_finalizer (n : nat) (failure : string) (b : EffectBroker) : EffectBroker :=
  match b.(br_finalizers) !! n with
  | None => b
  | Some f => end_task (Err failure)
      (with_journal (abandon_terminal f.(fz_effect) b.(br_journal)) (with_finalizers (delete n b.(br_finalizers)) b))
  end.
Definition unwind_finalizer (n : nat) (failure : string) (b : EffectBroker) : EffectBroker :=
  match b.(br_finalizers) !! n with
  | None => b
  | Some _ => end_task (Err failure) (with_finalizers (delete n b.(br_finalizers)) b)
  end.

(** *** Tasks that run an operation *)

(** The [register_finalizer] of a file mutation or a process. *)
Definition register_operation (intent : EffectIntent) : BrokerM N := fun b =>
  let '(id, tasks) := register_finalizer b.(br_tasks) in
  let b := with_tasks tasks b in
  (Ok id, with_operations (b.(br_tasks).(js_operations) ++ [{| ot_id := id; ot_intent := intent |}]) b).

(** [EffectFinish::finish_with_checkpoint] up to the append: the operation is
    over and its task takes the claim. *)
Definition end_operation (n : nat) (r : OperationResult) (b : EffectBroker) : EffectBroker :=
  match b.(br_tasks).(js_operations) !! n with
  | None => b
  | Some task =>
      let b := with_operations (delete n b.(br_tasks).(js_operations)) b in
      match claim_terminal task.(ot_intent) b.(br_journal) with
      | (Err e, j) => end_task (Ok (task.(ot_id), Some (with_applied_effects r.(or_applied) e))) (with_journal j b)
      | (Ok None, j) => end_task (Ok (task.(ot_id), r.(or_error))) (with_journal j b)
      | (Ok (Some effect), j) =>
          with_finalizers (b.(br_finalizers) ++
            [{| fz_effect := effect; fz_outcome := r.(or_outcome); fz_freshness := r.(or_freshness);
                fz_mutation := r.(or_mutation); fz_checkpoint := r.(or_checkpoint); fz_task := task.(ot_id);
                fz_own_error := r.(or_error); fz_applied := r.(or_applied) |}]) (with_journal j b)
      end
  end.

(** The operation was withdrawn before it started, or its task fails; the
    effect is left without an outcome. *)
Definition leave_operation (n : nat) (ended : N -> result (N * option ToolError) string) (b : EffectBroker)
  : EffectBroker :=
  match b.(br_tasks).(js_operations) !! n with
  | None => b
  | Some task => end_task (ended task.(ot_id)) (with_operations (delete n b.(br_tasks).(js_operations)) b)
  end.
Definition withdraw_operation (n : nat) : EffectBroker -> EffectBroker := leave_operation n (fun id => Ok (id, None)).
Definition fail_operation (n : nat) (failure : string) : EffectBroker -> EffectBroker :=
  leave_operation n (fun _ => Err failure).

(** [dispatch_terminal], awaited to its end. *)
Definition dispatch_terminal (intent : EffectIntent) (outcome : EffectOutcome) (freshness : option FileFreshness)
    (mutation : option WorkspaceMutation) : BrokerM unit :=
  registered <- register_terminal intent outcome freshness mutation None ;;
  match registered with
  | None => st_ret tt
  | Some f => fun b =>
      let '(r, b) := run_finalizer (pred (length b.(br_finalizers))) b in (r, observe_finalizer f.(fz_task) b)
  end.

Definition journal_outcome (intent : EffectIntent) (outcome : EffectOutcome) : BrokerM unit :=
  dispatch_terminal intent outcome None None.
Definition journal_unknown (intent : EffectIntent) : BrokerM unit := journal_outcome intent Unknown.
Definition journal_computer_outcome (intent : EffectIntent) (outcome : EffectOutcome) : BrokerM unit :=
  st_modify (fun b => with_cancellations (delete intent.(in_effect) b.(br_computer_cancellations))
                        b.(br_mobile_cancellations) b) ;;;
  dispatch_terminal intent outcome None None.
Definition journal_mobile_outcome (intent : EffectIntent) (outcome : EffectOutcome) : BrokerM unit :=
  st_modify (fun b => with_cancellations b.(br_computer_cancellations)
                        (delete intent.(in_effect) b.(br_mobile_cancellations)) b) ;;;
  dispatch_terminal intent outcome None None.

(** The outcome that matches a result. *)
Definition outcome_of {A} (r : result A ToolError) : EffectOutcome :=
  match r with Ok _ => OutcomeOk | Err e => Failed (tool_error_display e) end.

(** [finish] and [finish_with_freshness]. *)
Definition finish_with_freshness {A} (intent : EffectIntent) (r : result A ToolError)
    (freshness : option FileFreshness) : BrokerM A :=
  dispatch_terminal intent (outcome_of r) freshness None ;;; st_lift r.
Definition finish_effect {A} (intent : EffectIntent) (r : result A ToolError) : BrokerM A :=
  finish_with_freshness intent r None.

(** ** Closing *)

Record EffectBrokerCloseReport := { cr_reconciled_effects : list EffectId; cr_leaked_processes : list string }.

(** What happens to one task, named by its id. *)
Inductive TaskEvent :=
  | Ended (id : N) (r : OperationResult)
  | Withdrawn (id : N)
  | OperationFailed (id : N) (failure : string)
  | Appended (id : N)
  | Dropped (id : N) (failure : string)
  | Unwound (id : N) (failure : string).

Definition at_operation (id : N) (step : nat -> EffectBroker -> EffectBroker) (b : EffectBroker) : EffectBroker :=
  match list_find (fun task => task.(ot_id) = id) b.(br_tasks).(js_operations) with
  | Some (n, _) => step n b
  | None => b
  end.
Definition at_finalizer (id : N) (step : nat -> EffectBroker -> EffectBroker) (b : EffectBroker) : EffectBroker :=
  match list_find (fun f => f.(fz_task) = id) b.(br_finalizers) with
  | Some (n, _) => step n b
  | None => b
  end.

Definition task_event (event : TaskEvent) : EffectBroker -> EffectBroker :=
  match event with
  | Ended id r => at_operation id (fun n => end_operation n r)
  | Withdrawn id => at_operation id withdraw_operation
  | OperationFailed id failure => at_operation id (fun n => fail_operation n failure)
  | Appended id => at_finalizer id (fun n b => (run_finalizer n b).2)
  | Dropped id failure => at_finalizer id (fun n => drop_finalizer n failure)
  | Unwound id failure => at_finalizer id (fun n => unwind_finalizer n failure)
  end.

Definition run_tasks (schedule : list TaskEvent) (b : EffectBroker) : EffectBroker :=
  foldl (fun b event => task_event event b) b schedule.

Definition task_failure (failure : string) : ToolError := Runtime ("effect finalizer task failed: " ++ failure).

(** What joining a task adds to the errors. *)
Definition joined_error (observed : gset N) (ended : result (N * option ToolError) string) : option ToolError :=
  match ended with
  | Ok (id, Some e) => if bool_decide (id ∈ observed) then None else Some e
  | Ok (_, None) => None
  | Err failure => Some (task_failure failure)
  end.

(** The ids that are observed when their tasks are joined: [late] are those
    whose observer acts while the broker is being closed. *)
Definition observed_by (late : gset N) (b : EffectBroker) : gset N := b.(br_tasks).(js_observed_finalizers) ∪ late.

(** Joins every task, which proceed as [schedule] says; nothing while one of
    them is not over. *)
Definition drain_finalizers (schedule : list TaskEvent) (late : gset N) (errors : list ToolError) (b : EffectBroker)
  : option (list ToolError * BrokerJournal) :=
  let b := run_tasks schedule b in
  match b.(br_finalizers), b.(br_tasks).(js_operations) with
  | [], [] => Some (errors ++ omap (joined_error (observed_by late b)) b.(br_tasks).(js_ended), b.(br_journal))
  | _, _ => None
  end.

Definition fallback_outcome (cancelled : bool) (b : EffectBroker) (effect : EffectId) : EffectOutcome :=
  if cancelled || bool_decide (b.(br_computer_cancellations) !! effect = Some true)
     || bool_decide (b.(br_mobile_cancellations) !! effect = Some true)
  then Cancelled else Unknown.

(** How the task of a sweep's append fails, if it does: dropped before its first
    poll, or unwound in the append, with the failure's text. *)
Inductive SweepFault := SweepDropped (failure : string) | SweepUnwound (failure : string).
Definition fault_text (fault : SweepFault) : string :=
  match fault with SweepDropped failure | SweepUnwound failure => failure end.

(** The sweep over the residual dispatches, and the failures that the second
    drain joins. *)
Fixpoint sweep (outcome : EffectId -> EffectOutcome) (faults : EffectId -> option SweepFault)
    (candidates : list EffectIntent) (errors failed : list ToolError) (reconciled : list EffectId) (j : BrokerJournal)
  : list ToolError * list ToolError * list EffectId * BrokerJournal :=
  match candidates with
  | [] => (errors, failed, reconciled, j)
  | intent :: candidates =>
      match claim_terminal intent j with
      | (Err e, j) => sweep outcome faults candidates (errors ++ [e]) failed reconciled j
      | (Ok None, j) => sweep outcome faults candidates errors failed reconciled j
      | (Ok (Some effect), j) =>
          match faults effect with
          | Some fault =>
              sweep outcome faults candidates errors (failed ++ [task_failure (fault_text fault)]) reconciled
                match fault with SweepDropped _ => abandon_terminal effect j | SweepUnwound _ => j end
          | None =>
              match claim_append (terminal effect (outcome intent.(in_effect)) None None None 0) j with
              | (Ok _, j) => sweep outcome faults candidates errors failed (reconciled ++ [intent.(in_effect)]) j
              | (Err _, j) => sweep outcome faults candidates errors failed reconciled j
              end
          end
      end
  end.

Definition error_le (a b : EffectId * ToolError) : Prop := String.le a.1 b.1.
#[export] Instance error_le_dec : RelDecision error_le.
Proof. intros a b. unfold error_le. apply _. Defined.

Definition take_terminal_errors (j : BrokerJournal) : list (EffectId * ToolError) * BrokerJournal :=
  (merge_sort error_le (map_to_list j.(bj_terminal_errors)), with_terminal_errors ∅ j).

Definition push_distinct (unique : list ToolError) (e : ToolError) : list ToolError :=
  if existsb (fun existing => String.eqb (tool_error_display existing) (tool_error_display e)) unique
  then unique else unique ++ [e].

Definition finish_close (report : EffectBrokerCloseReport) (errors : list ToolError)
    (terminal_errors : list (EffectId * ToolError))
  : EffectBrokerCloseReport * list ToolError :=
  (report, foldl push_distinct [] (errors ++ map (fun te =>
     Runtime ("effect " ++ te.1 ++ " terminal journal append failed: " ++ tool_error_display te.2)) terminal_errors)).

(** [close_with_fallback]: the report, the errors ([Ok] when there are none)
    and the journal as it was left; nothing while a task is still running. *)
Definition close_with_fallback (cancelled : bool) (leaked : list string) (schedule : list TaskEvent) (late : gset N)
    (faults : EffectId -> option SweepFault) (b : EffectBroker)
  : option (EffectBrokerCloseReport * list ToolError * BrokerJournal) :=
  '(errors, j) ← drain_finalizers schedule late [] b;
  let '(candidates, j) := close_sweep_candidates j in
  let '(errors, failed, reconciled, j) := sweep (fallback_outcome cancelled b) faults candidates errors [] [] j in
  let errors := errors ++ failed in
  let '(terminal_errors, j) := take_terminal_errors j in
  let errors := filter (fun e => e ∉ map snd terminal_errors) errors in
  let errors := errors ++ map (fun call_id =>
    Runtime ("process `" ++ call_id ++ "` leaked after process-group termination escalation")) leaked in
  Some (finish_close {| cr_reconciled_effects := reconciled; cr_leaked_processes := leaked |} errors terminal_errors, j).

Definition close := close_with_fallback false.
Definition cancel := close_with_fallback true.
End Broker.
