(* ===== verification/BrokerInv.v ===== *)
(** * Invariant of the effect broker

    The broker as a transition system: calls of its methods in any order, with
    any policy, and the tasks it registered run, are dropped or unwind at any
    time.  The invariant ties each effect's lifecycle state to its journaled
    phases and gives a terminal claim to one task only. *)

From S2P Require Import Prelude RustStr Digest EffectTypes Policy Json Broker.
From stdpp Require Import sorting.

Local Open Scope st_scope.

(** The journaled phases of one effect. *)
Definition history (e : EffectId) (phases : list EffectPhase) : list EffectPhase :=
  filter (fun p => phase_effect p = e) phases.
Arguments history : simpl never.

(** A lifecycle state and the phases it stands for. *)
Inductive life (e : EffectId) : option LifecycleRecord -> list EffectPhase -> Prop :=
  | life_none : life e None []
  | life_intent i : i.(in_effect) = e -> life e (Some (mkRecord i LIntent)) [Intent i]
  | life_allowed i v : i.(in_effect) = e -> permits v = true ->
      life e (Some (mkRecord i AuthorizedAllow)) [Intent i; Authorized e v]
  | life_blocked i v : i.(in_effect) = e -> permits v = false ->
      life e (Some (mkRecord i AuthorizedBlocked)) [Intent i; Authorized e v]
  | life_dispatched i v s : i.(in_effect) = e -> permits v = true ->
      s ∈ [LDispatched; Terminalizing; TerminalJournalFailed] ->
      life e (Some (mkRecord i s)) [Intent i; Authorized e v; Dispatched e]
  | life_outcome i v o f m : i.(in_effect) = e -> permits v = true ->
      life e (Some (mkRecord i LOutcome)) [Intent i; Authorized e v; Dispatched e; Outcome e o f m].

(** The same without the state: what a reader of the journal may find. *)
Definition legal_history (e : EffectId) (l : list EffectPhase) : Prop :=
  l = [] \/ exists i v, i.(in_effect) = e /\
    (l = [Intent i] \/ l = [Intent i; Authorized e v] \/
     permits v = true /\ (l = [Intent i; Authorized e v; Dispatched e] \/
                          exists o f m, l = [Intent i; Authorized e v; Dispatched e; Outcome e o f m])).

Lemma life_legal e r l : life e r l -> legal_history e l.
Proof.
  intros [|i Hi|i v Hi Hv|i v Hi Hv|i v s Hi Hv Hs|i v o f m Hi Hv]; [by left|right..].
  1: exists i, VAllow.
  2-5: exists i, v.
  all: split; [done|].
  1: by left.
  1-2: right; by left.
  1: right; right; split; [done|]; by left.
  right; right. split; [done|]. right. eauto.
Qed.

Lemma life_none_inv e l : life e None l -> l = [].
Proof. inversion 1. done. Qed.

Lemma life_intent_inv e i l : life e (Some (mkRecord i LIntent)) l -> i.(in_effect) = e /\ l = [Intent i].
Proof. inversion 1 as [|? Hi| | |? ? ? Hi Hv Hs|]; subst; [done|]. set_solver. Qed.

Lemma life_allowed_inv e i l : life e (Some (mkRecord i AuthorizedAllow)) l ->
  i.(in_effect) = e /\ exists v, permits v = true /\ l = [Intent i; Authorized e v].
Proof. inversion 1 as [| |? v Hi Hv| |? ? ? Hi Hv Hs|]; subst; [eauto|]. set_solver. Qed.

Lemma life_dispatched_inv e i s l : life e (Some (mkRecord i s)) l -> s ∈ [LDispatched; Terminalizing; TerminalJournalFailed] ->
  i.(in_effect) = e /\ exists v, permits v = true /\ l = [Intent i; Authorized e v; Dispatched e].
Proof. inversion 1 as [| | | |? v ? Hi Hv Hs|]; subst; intros Hin; by eauto || set_solver. Qed.

Section Inv.
Context {blake3 : Blake3} {json : JsonText} {debug : DebugText}.

Record JInv (j : BrokerJournal) : Prop := {
  ji_life : forall e, life e (j.(bj_lifecycles) !! e) (history e j.(bj_phases));
  ji_log : j.(bj_phases) = map fst j.(bj_sink).(sk_log);
  ji_errors : forall e, is_Some (j.(bj_terminal_errors) !! e) <->
    (lr_state <$> j.(bj_lifecycles) !! e) = Some TerminalJournalFailed
}.

Record BInv (b : EffectBroker) : Prop := {
  bi_journal : JInv b.(br_journal);
  bi_ids : forall e, is_Some (b.(br_journal).(bj_lifecycles) !! e) ->
    exists n, e = effect_id b.(br_identity) n /\ (n <= b.(br_next_effect))%N;
  bi_claims : forall f, f ∈ b.(br_finalizers) ->
    (lr_state <$> b.(br_journal).(bj_lifecycles) !! f.(fz_effect)) = Some Terminalizing;
  bi_nodup : NoDup (map fz_effect b.(br_finalizers))
}.

(** ** Histories *)

Lemma history_snoc e phases p :
  history e (phases ++ [p]) = history e phases ++ (if decide (phase_effect p = e) then [p] else []).
Proof. unfold history. rewrite filter_app. by case_decide as Hp; cbn; case_decide. Qed.

Lemma history_snoc_ne e phases p : phase_effect p <> e -> history e (phases ++ [p]) = history e phases.
Proof. intros Hne. rewrite history_snoc. case_decide; [done|]. by rewrite app_nil_r. Qed.

Lemma history_snoc_eq phases p : history (phase_effect p) (phases ++ [p]) = history (phase_effect p) phases ++ [p].
Proof. rewrite history_snoc. by case_decide. Qed.

(** ** One append *)

(** A phase is committed, with its record's new state, or nothing happens to
    the journal but the sink's answer. *)
Lemma append_phase_cases phase checkpoint j r j' :
  append_phase phase checkpoint j = (r, j') ->
  match r with
  | Ok _ => j'.(bj_lifecycles) = j.(bj_lifecycles) /\ j'.(bj_phases) = j.(bj_phases) ++ [phase] /\
            j'.(bj_sink).(sk_log) = j.(bj_sink).(sk_log) ++ [(phase, checkpoint)] /\
            j'.(bj_terminal_errors) = j.(bj_terminal_errors)
  | Err _ => exists sink, j' = with_sink sink j /\ sink.(sk_log) = j.(bj_sink).(sk_log)
  end.
Proof.
  unfold append_phase, sink_append. destruct (_ && _); [intros [= <- <-]; by eexists|].
  destruct (sk_answers (bj_sink j)) as [|[e|] answers]; intros [= <- <-]; try (by eexists); done.
Qed.

Lemma append_err_inv j sink : JInv j -> sink.(sk_log) = j.(bj_sink).(sk_log) -> JInv (with_sink sink j).
Proof. intros [H1 H2 H3] E. split; cbn; [done| |done]. by rewrite E. Qed.

(** A committed phase together with the state it leads to. *)
Lemma commit_inv j j1 phase checkpoint record :
  JInv j -> append_phase phase checkpoint j = (Ok tt, j1) ->
  life (phase_effect phase) (Some record) (history (phase_effect phase) j.(bj_phases) ++ [phase]) ->
  (lr_state <$> j.(bj_lifecycles) !! phase_effect phase) <> Some TerminalJournalFailed ->
  record.(lr_state) <> TerminalJournalFailed ->
  JInv (with_lifecycles (<[phase_effect phase := record]> j1.(bj_lifecycles)) j1).
Proof.
  intros [H1 H2 H3] E Hl Hs1 Hs2. destruct (append_phase_cases _ _ _ _ _ E) as (El & Ep & Eg & Et). split; cbn.
  - intros e. rewrite Ep, El. destruct (decide (phase_effect phase = e)) as [<-|Hne].
    + by rewrite lookup_insert_eq, history_snoc_eq.
    + by rewrite lookup_insert_ne, history_snoc_ne.
  - rewrite Ep, Eg, map_app. by rewrite H2.
  - intros e. rewrite Et, El, H3. destruct (decide (phase_effect phase = e)) as [<-|Hne].
    + rewrite lookup_insert_eq. cbn. split; [done|]. by intros [= ?].
    + by rewrite lookup_insert_ne.
Qed.

(** A state change without a phase. *)
Lemma restate_inv j e i s s' :
  JInv j -> j.(bj_lifecycles) !! e = Some (mkRecord i s) ->
  s ∈ [LDispatched; Terminalizing] -> s' ∈ [LDispatched; Terminalizing] ->
  JInv (with_lifecycles (<[e := mkRecord i s']> j.(bj_lifecycles)) j).
Proof.
  intros [H1 H2 H3] Er Hs Hs'. split; cbn; [|done|].
  - intros e'. destruct (decide (e = e')) as [<-|Hne]; [|by rewrite lookup_insert_ne].
    rewrite lookup_insert_eq. specialize (H1 e). rewrite Er in H1. inversion H1 as [| | | |? v ? Hi Hp Hin|]; subst;
      try set_solver. apply life_dispatched; [done|done|]. set_solver.
  - intros e'. rewrite H3. destruct (decide (e = e')) as [<-|Hne]; [|by rewrite lookup_insert_ne].
    rewrite lookup_insert_eq, Er. cbn. split; intros [= ->]; set_solver.
Qed.

(** ** Broker states *)

(** Fields the invariant reads. *)
Definition same_core (b b' : EffectBroker) : Prop :=
  b'.(br_journal) = b.(br_journal) /\ b'.(br_identity) = b.(br_identity) /\
  (b.(br_next_effect) <= b'.(br_next_effect))%N /\ b'.(br_finalizers) = b.(br_finalizers).

Lemma same_core_inv b b' : same_core b b' -> BInv b -> BInv b'.
Proof.
  intros (Ej & Ei & Hn & Ef) [H1 H2 H3 H4]. split; rewrite ?Ej, ?Ei, ?Ef; try done.
  intros e He. destruct (H2 e He) as (n & -> & Hle). exists n. split; [done|lia].
Qed.

Lemma sink_inv b sink : BInv b -> sink.(sk_log) = b.(br_journal).(bj_sink).(sk_log) ->
  BInv (with_journal (with_sink sink b.(br_journal)) b).
Proof. intros [H1 H2 H3 H4] E. split; cbn; try done. by apply append_err_inv. Qed.

(** A phase is committed and the effect's record advances with it. *)
Lemma advance_inv b j1 phase checkpoint record :
  BInv b -> append_phase phase checkpoint b.(br_journal) = (Ok tt, j1) ->
  life (phase_effect phase) (Some record) (history (phase_effect phase) b.(br_journal).(bj_phases) ++ [phase]) ->
  (lr_state <$> b.(br_journal).(bj_lifecycles) !! phase_effect phase) ∉ [Some Terminalizing; Some TerminalJournalFailed] ->
  record.(lr_state) <> TerminalJournalFailed ->
  (exists n, phase_effect phase = effect_id b.(br_identity) n /\ (n <= b.(br_next_effect))%N) ->
  BInv (with_journal (with_lifecycles (<[phase_effect phase := record]> j1.(bj_lifecycles)) j1) b).
Proof.
  intros [H1 H2 H3 H4] E Hl Hs Hs2 Hid. pose proof (append_phase_cases _ _ _ _ _ E) as (El & _).
  split; cbn; [|intros e|intros f Hf|done].
  - apply (commit_inv b.(br_journal) _ _ checkpoint); [done|done|done|set_solver|done].
  - rewrite El. destruct (decide (phase_effect phase = e)) as [<-|Hne]; [done|]. rewrite lookup_insert_ne by done. apply H2.
  - rewrite El. specialize (H3 f Hf). rewrite lookup_insert_ne; [done|]. intros Eq. rewrite <- Eq in H3. set_solver.
Qed.

Lemma recorded_id b e r : BInv b -> b.(br_journal).(bj_lifecycles) !! e = Some r ->
  exists n, e = effect_id b.(br_identity) n /\ (n <= b.(br_next_effect))%N.
Proof. intros Hb He. apply (bi_ids _ Hb). eauto. Qed.

Lemma effect_id_inj identity n m : effect_id identity n = effect_id identity m -> n = m.
Proof.
  unfold effect_id. intros E. apply str_append_inj_l in E. apply str_append_inj_l in E.
  apply str_append_inj_l in E. by apply (inj pretty) in E.
Qed.

Lemma fresh_id b : BInv b -> b.(br_journal).(bj_lifecycles) !! effect_id b.(br_identity) (b.(br_next_effect) + 1) = None.
Proof.
  intros Hb. destruct (_ !! _) as [r|] eqn:E; [|done]. destruct (recorded_id _ _ _ Hb E) as (n & En & Hle).
  apply effect_id_inj in En. lia.
Qed.

(** ** The operations *)

Lemma on_journal_run {A} (m : JournalM A) b : on_journal m b = let '(r, j) := m b.(br_journal) in (r, with_journal j b).
Proof. done. Qed.

Lemma normalize_ok op b r b' : BInv b -> normalize op b = (r, b') ->
  BInv b' /\ forall i, r = Ok i ->
    b'.(br_journal).(bj_lifecycles) !! i.(in_effect) = Some (mkRecord i LIntent).
Proof.
  intros Hb. unfold normalize. unfold st_bind at 1, st_lift at 1.
  destruct (args_digest_of op) as [d|e]; [|by intros [= <- <-]].
  unfold st_bind at 1, st_modify at 1, st_bind at 1, st_get at 1. cbn [br_identity br_next_effect with_counters].
  set (b1 := with_counters _ _ b). set (i := mkIntent _ _ _ _ _).
  assert (Hb1 : BInv b1) by (apply (same_core_inv b); [|done]; repeat split; cbn; lia).
  unfold st_bind at 1, on_journal at 1. destruct (append_phase (Intent i) None (br_journal b1)) as [v j1] eqn:E.
  destruct v as [[]|e].
  2: { intros [= <- <-]. destruct (append_phase_cases _ _ _ _ _ E) as (sink & -> & Es).
       split; [by apply sink_inv|done]. }
  cbn. intros [= <- <-]. cbn. split; [|intros i' [= <-]; by rewrite lookup_insert_eq].
  pose proof (fresh_id b Hb) as Hf. change (effect_id _ _) with (phase_effect (Intent i)) in Hf.
  pose proof (ji_life _ (bi_journal _ Hb) (phase_effect (Intent i))) as Hl. rewrite Hf in Hl. apply life_none_inv in Hl as Eh.
  eapply same_core_inv; [|apply (advance_inv b1 j1 (Intent i) None (mkRecord i LIntent))].
  - done.
  - done.
  - done.
  - cbn [br_journal with_counters b1]. rewrite Eh. by apply life_intent.
  - cbn [br_journal with_counters b1]. rewrite Hf. set_solver.
  - done.
  - eexists. split; [done|]. cbn. lia.
Qed.

(** The verdict a decision becomes. *)
Definition verdict_of (d : PolicyDecision) (menu : MenuId) : AuthorizationVerdict :=
  match d with DAllow => VAllow | DAsk => VAsk menu | DDeny reason => VDeny reason end.

Lemma judge_ok d i b r b' : judge d i b = (r, b') ->
  same_core b b' /\ exists v asked, r = Ok (v, asked) /\ exists menu, v = verdict_of d menu.
Proof.
  destruct d; cbn; intros [= <- <-]; split; try (repeat split; cbn; lia); eexists _, _; (split; [done|]); first [by exists ""%string | by eexists].
Qed.

Lemma settle_ok policy i b r b' : settle_decision policy i b = (r, b') ->
  same_core b b' /\ exists d, r = Ok d /\
  match decision policy i with
  | DDeny reason => d = DDeny reason /\ b'.(br_one_shot_rules) = b.(br_one_shot_rules)
  | d0 => (Some d = fst (take_rule i b.(br_one_shot_rules)) \/ (fst (take_rule i b.(br_one_shot_rules)) = None /\ d = d0)) /\
          b'.(br_one_shot_rules) = snd (take_rule i b.(br_one_shot_rules))
  end.
Proof.
  unfold settle_decision, st_bind, take_one_shot_decision, st_ret.
  destruct (decision policy i) as [| |reason].
  3: { intros [= <- <-]. split; [repeat split; lia|]. eauto. }
  all: destruct (take_rule i (br_one_shot_rules b)) as [[d|] rules]; intros [= <- <-];
    (split; [repeat split; cbn; lia|]); eexists; (split; [done|]); cbn; auto.
Qed.

Lemma require_state_ok e s j r j' : require_state e s j = (r, j') ->
  j' = j /\ forall u, r = Ok u -> (lr_state <$> j.(bj_lifecycles) !! e) = Some s.
Proof.
  unfold require_state. intros [= <- <-]. split; [done|]. intros u Hu%reject_if_ok.
  by apply negb_false_iff, bool_decide_eq_true in Hu.
Qed.

Lemma require_recorded_ok i j r j' : require_recorded_intent i j = (r, j') ->
  j' = j /\ forall i', r = Ok i' -> i' = i /\ exists s, j.(bj_lifecycles) !! i.(in_effect) = Some (mkRecord i s).
Proof.
  unfold require_recorded_intent. intros [= <- <-]. split; [done|].
  destruct (_ !! _) as [[i0 s]|]; [|done]. cbn. case_bool_decide as Hi; [|done]. intros i' [= <-]. subst. eauto.
Qed.

Lemma with_journal_same b : with_journal b.(br_journal) b = b.
Proof. by destruct b. Qed.

(** Append a phase for a recorded effect and set its state. *)
Lemma append_set_ok b (i : EffectIntent) s0 phase s1 (k : BrokerM unit) r b' :
  BInv b -> phase_effect phase = i.(in_effect) ->
  b.(br_journal).(bj_lifecycles) !! i.(in_effect) = Some (mkRecord i s0) ->
  s0 ∉ [Terminalizing; TerminalJournalFailed] -> s1 <> TerminalJournalFailed ->
  life i.(in_effect) (Some (mkRecord i s1)) (history i.(in_effect) b.(br_journal).(bj_phases) ++ [phase]) ->
  (forall b1, exists b2, k b1 = (Ok tt, b2) /\ same_core b1 b2) ->
  (on_journal (append_phase phase None) ;;; k ;;; on_journal (set_state i.(in_effect) s1)) b = (r, b') ->
  BInv b' /\ forall u, r = Ok u -> b'.(br_journal).(bj_lifecycles) !! i.(in_effect) = Some (mkRecord i s1).
Proof.
  intros Hb He Hr Hs0 Hs1 Hl Hk. unfold st_bind at 1, on_journal at 1.
  destruct (append_phase phase None (br_journal b)) as [v j1] eqn:E.
  pose proof (append_phase_cases _ _ _ _ _ E) as Hc. destruct v as [[]|e].
  2: { intros [= <- <-]. destruct Hc as (sink & -> & Es). split; [by apply sink_inv|done]. }
  destruct Hc as (El & _). unfold st_bind at 1. destruct (Hk (with_journal j1 b)) as (b2 & Ek & Hsame). rewrite Ek.
  pose proof Hsame as (Ej & _). cbn [br_journal with_journal] in Ej.
  unfold on_journal at 1. rewrite Ej. unfold set_state. rewrite El, Hr. cbn.
  intros [= <- <-]. cbn. split; [|intros u _; by rewrite El, lookup_insert_eq].
  eapply same_core_inv; [|apply (advance_inv b j1 phase None (mkRecord i s1)); rewrite ?He, ?Hr; try done].
  - destruct Hsame as (_ & Ei & Hn & Ef). unfold put_state. cbn in *. rewrite He. repeat split; done.
  - cbn. set_solver.
  - by eapply recorded_id.
Qed.

Lemma authorize_ok b i policy r b' : BInv b -> authorize i policy b = (r, b') ->
  BInv b' /\ forall v, r = Ok v ->
    b'.(br_journal).(bj_lifecycles) !! i.(in_effect) =
    Some (mkRecord i (if permits v then AuthorizedAllow else AuthorizedBlocked)).
Proof.
  intros Hb. unfold authorize. unfold st_bind at 1, on_journal at 1.
  destruct (require_state _ LIntent (br_journal b)) as [v1 j1] eqn:E1.
  destruct (require_state_ok _ _ _ _ _ E1) as [-> H1]. rewrite with_journal_same.
  destruct v1 as [u|e]; [|by intros [= <- <-]]. specialize (H1 u eq_refl).
  unfold st_bind at 1, on_journal at 1. destruct (require_recorded_intent i (br_journal b)) as [v2 j2] eqn:E2.
  destruct (require_recorded_ok _ _ _ _ E2) as [-> H2]. rewrite with_journal_same.
  destruct v2 as [i'|e]; [|by intros [= <- <-]]. destruct (H2 i' eq_refl) as (-> & s & Hr).
  rewrite Hr in H1. cbn in H1. injection H1 as ->.
  unfold st_bind at 1. destruct (settle_decision policy i b) as [v3 b3] eqn:E3.
  destruct (settle_ok _ _ _ _ _ E3) as (Hs3 & d & -> & _).
  unfold st_bind at 1. destruct (judge d i b3) as [v4 b4] eqn:E4.
  destruct (judge_ok _ _ _ _ _ E4) as (Hs4 & v & asked & -> & _).
  pose proof (same_core_inv _ _ Hs4 (same_core_inv _ _ Hs3 Hb)) as Hb4.
  destruct Hs3 as (Ej3 & _), Hs4 as (Ej4 & _).
  intros E5. unfold st_bind in E5 at 1. rewrite Ej3 in Ej4.
  match type of E5 with context [on_journal (append_phase ?ph _)] => set (phase := ph) in E5 end.
  pose proof (ji_life _ (bi_journal _ Hb) (in_effect i)) as Hl. rewrite Hr in Hl. apply life_intent_inv in Hl as [_ Eh].
  set (s1 := if permits v then AuthorizedAllow else AuthorizedBlocked) in *.
  set (k := st_modify _) in E5.
  destruct ((on_journal (append_phase phase None) ;;; k ;;; on_journal (set_state i.(in_effect) s1)) b4) as [r5 b5] eqn:E6.
  destruct (append_set_ok b4 i LIntent phase s1 k r5 b5) as [Hb5 H5]; try done.
  - by rewrite Ej4.
  - set_solver.
  - subst s1. by destruct (permits v).
  - rewrite Ej4, Eh. subst s1 phase. cbn. destruct (permits v) eqn:Ep; [by apply life_allowed|by apply life_blocked].
  - intros b1. eexists. split; [done|]. destruct asked; repeat split; cbn; lia.
  - revert E5 E6. unfold st_bind, st_ret.
    destruct (on_journal (append_phase phase None) b4) as [[x|e] b6]; [|intros [= <- <-] [= <- <-]; by split].
    destruct (k b6) as [[y|e] b7]; [|intros [= <- <-] [= <- <-]; by split].
    destruct (on_journal (set_state _ s1) b7) as [[z|e] b8]; intros [= <- <-] [= <- <-]; (split; [done|]); [|done].
    intros v' [= <-]. by apply (H5 z).
Qed.

Lemma st_bind_ret_unit (m : BrokerM unit) (n : BrokerM unit) b : (m ;;; n) b = (m ;;; st_ret tt ;;; n) b.
Proof. unfold st_bind, st_ret. by destruct (m b) as [[]]. Qed.

Lemma skip_core : forall b1 : EffectBroker, exists b2, (st_ret tt : BrokerM unit) b1 = (Ok tt, b2) /\ same_core b1 b2.
Proof. intros b1. exists b1. split; [done|]. repeat split; lia. Qed.

Lemma dispatched_ok b i r b' : BInv b -> journal_dispatched i b = (r, b') ->
  BInv b' /\ forall u, r = Ok u -> b'.(br_journal).(bj_lifecycles) !! i.(in_effect) = Some (mkRecord i LDispatched).
Proof.
  intros Hb. unfold journal_dispatched. unfold st_bind at 1, on_journal at 1.
  destruct (require_recorded_intent i (br_journal b)) as [v2 j2] eqn:E2.
  destruct (require_recorded_ok _ _ _ _ E2) as [-> H2]. rewrite with_journal_same.
  destruct v2 as [i'|e]; [|by intros [= <- <-]]. destruct (H2 i' eq_refl) as (_ & s & Hr).
  unfold st_bind at 1, on_journal at 1.
  destruct (require_state _ AuthorizedAllow (br_journal b)) as [v1 j1] eqn:E1.
  destruct (require_state_ok _ _ _ _ _ E1) as [-> H1]. rewrite with_journal_same.
  destruct v1 as [u|e]; [|by intros [= <- <-]]. specialize (H1 u eq_refl). rewrite Hr in H1. injection H1 as ->.
  pose proof (ji_life _ (bi_journal _ Hb) (in_effect i)) as Hl. rewrite Hr in Hl.
  apply life_allowed_inv in Hl as (_ & v & Hv & Eh).
  rewrite st_bind_ret_unit. apply (append_set_ok b i AuthorizedAllow); try done.
  - set_solver.
  - rewrite Eh. cbn. apply life_dispatched; [done|done|set_solver].
  - apply skip_core.
Qed.

Lemma user_typed_ok b op r b' : BInv b -> begin_user_typed op b = (r, b') -> BInv b'.
Proof.
  intros Hb. unfold begin_user_typed. unfold st_bind at 1. destruct (normalize op b) as [v1 b1] eqn:E1.
  destruct (normalize_ok _ _ _ _ Hb E1) as [Hb1 H1]. destruct v1 as [i|e]; [|by intros [= _ <-]].
  specialize (H1 i eq_refl). pose proof (ji_life _ (bi_journal _ Hb1) (in_effect i)) as Hl. rewrite H1 in Hl.
  apply life_intent_inv in Hl as [_ Eh].
  destruct ((on_journal (append_phase (Authorized (in_effect i) (VPreAuthorized UserTyped)) None) ;;; st_ret tt ;;;
             on_journal (set_state (in_effect i) AuthorizedAllow)) b1) as [v2 b2] eqn:E2.
  destruct (append_set_ok b1 i LIntent (Authorized (in_effect i) (VPreAuthorized UserTyped)) AuthorizedAllow _ _ _ Hb1 eq_refl H1 ltac:(set_solver) ltac:(done)
    ltac:(rewrite Eh; by apply life_allowed) skip_core E2) as [Hb2 H2].
  intros E. rewrite <- st_bind_ret_unit in E2. revert E E2. unfold st_bind.
  destruct (on_journal (append_phase _ None) b1) as [[x|e] b3]; [|intros [= _ <-] [= _ <-]; done].
  destruct (on_journal (set_state _ _) b3) as [[y|e] b4]; [|intros [= _ <-] [= _ <-]; done].
  intros E [= <- <-]. destruct (journal_dispatched i b4) as [v5 b5] eqn:E5.
  destruct (dispatched_ok _ _ _ _ Hb2 E5) as [Hb5 _]. by destruct v5; injection E as _ <-.
Qed.

(** ** Terminal claims *)

Lemma claim_cases i j r j' : claim_terminal i j = (r, j') ->
  match r with
  | Ok (Some e) => e = i.(in_effect) /\ j.(bj_lifecycles) !! e = Some (mkRecord i LDispatched) /\
                   j' = with_lifecycles (<[e := mkRecord i Terminalizing]> j.(bj_lifecycles)) j
  | _ => j' = j
  end.
Proof.
  unfold claim_terminal. destruct (_ !! _) as [[i0 s]|] eqn:E; [|by intros [= <- <-]]. cbn.
  case_bool_decide as Hi; cbn; [|by intros [= <- <-]]. subst i0. destruct s; intros [= <- <-]; try done.
Qed.

Lemma tasks_inv b tasks : BInv b -> BInv (with_tasks tasks b).
Proof. apply same_core_inv. repeat split; cbn; lia. Qed.

Lemma operations_inv b operations : BInv b -> BInv (with_operations operations b).
Proof. apply tasks_inv. Qed.

Lemma end_task_inv ended b : BInv b -> BInv (end_task ended b).
Proof. apply tasks_inv. Qed.

(** A new claim belongs to the task that took it. *)
Lemma claimed_inv b i e j1 f : BInv b -> claim_terminal i b.(br_journal) = (Ok (Some e), j1) -> f.(fz_effect) = e ->
  BInv (with_finalizers (b.(br_finalizers) ++ [f]) (with_journal j1 b)).
Proof.
  intros [H1 H2 H3 H4] E Ef. pose proof (claim_cases _ _ _ _ E) as (-> & Hr & ->).
  assert (Hnot : forall f', f' ∈ br_finalizers b -> fz_effect f' <> in_effect i).
  { intros f' Hf' Eq. specialize (H3 f' Hf'). rewrite Eq, Hr in H3. done. }
  split; cbn.
  - apply (restate_inv _ _ _ LDispatched); [done|done|set_solver|set_solver].
  - intros e. destruct (decide (in_effect i = e)) as [<-|Hne]; [intros _; apply H2; eauto|].
    rewrite lookup_insert_ne by done. apply H2.
  - intros f' [Hf'|Hf'%list_elem_of_singleton]%elem_of_app; cbn; [|by rewrite Hf', Ef, lookup_insert_eq].
    rewrite lookup_insert_ne; [by apply H3|]. apply not_eq_sym, Hnot, Hf'.
  - rewrite map_app. apply NoDup_app. split; [done|]. split; [|apply NoDup_singleton].
    intros e (f' & -> & Hf')%list_elem_of_fmap He%list_elem_of_singleton. apply (Hnot f' Hf'). congruence.
Qed.

Lemma register_ok b i o f m c r b' : BInv b -> register_terminal i o f m c b = (r, b') -> BInv b'.
Proof.
  intros Hb. unfold register_terminal. unfold st_bind at 1, on_journal at 1.
  destruct (claim_terminal i (br_journal b)) as [v j1] eqn:E. pose proof (claim_cases _ _ _ _ E) as Hc.
  destruct v as [[e|]|e].
  2: { subst j1. rewrite with_journal_same. by intros [= _ <-]. }
  2: { subst j1. rewrite with_journal_same. by intros [= _ <-]. }
  intros [= _ <-]. apply tasks_inv. by apply (claimed_inv b i e j1).
Qed.

(** ** Tasks that run an operation *)

Lemma register_operation_ok b i r b' : BInv b -> register_operation i b = (r, b') -> BInv b'.
Proof. intros Hb [= _ <-]. by apply operations_inv, tasks_inv. Qed.

Lemma end_operation_ok b n r : BInv b -> BInv (end_operation n r b).
Proof.
  intros Hb. unfold end_operation. destruct (js_operations (br_tasks b) !! n) as [task|]; [|done].
  set (b1 := with_operations _ b). assert (Hb1 : BInv b1) by (by apply operations_inv). clearbody b1.
  destruct (claim_terminal (ot_intent task) (br_journal b1)) as [v j1] eqn:E. pose proof (claim_cases _ _ _ _ E) as Hc.
  destruct v as [[e|]|e]; [|subst j1; apply end_task_inv; by rewrite with_journal_same..]. by apply (claimed_inv b1 (ot_intent task) e).
Qed.

Lemma leave_operation_ok b n ended : BInv b -> BInv (leave_operation n ended b).
Proof. intros Hb. unfold leave_operation. destruct (_ !! n); [|done]. by apply end_task_inv, operations_inv. Qed.

(** A claim settles. *)
Lemma claim_append_ok j f r j' : JInv j ->
  (lr_state <$> j.(bj_lifecycles) !! f.(fz_effect)) = Some Terminalizing -> claim_append f j = (r, j') ->
  JInv j' /\ (forall e, e <> f.(fz_effect) -> j'.(bj_lifecycles) !! e = j.(bj_lifecycles) !! e) /\
  (lr_state <$> j'.(bj_lifecycles) !! f.(fz_effect)) =
    Some (match r with Ok _ => LOutcome | Err _ => TerminalJournalFailed end) /\
  match r with
  | Ok _ => j'.(bj_phases) = j.(bj_phases) ++ [Outcome f.(fz_effect) f.(fz_outcome) f.(fz_freshness) f.(fz_mutation)] /\
            j'.(bj_terminal_errors) = j.(bj_terminal_errors)
  | Err e => j'.(bj_phases) = j.(bj_phases) /\ j'.(bj_terminal_errors) = <[f.(fz_effect) := e]> j.(bj_terminal_errors)
  end.
Proof.
  intros Hj Hs. unfold claim_append. set (e0 := fz_effect f) in *. set (phase := Outcome e0 _ _ _).
  destruct (append_phase phase (fz_checkpoint f) j) as [v j1] eqn:E.
  pose proof (append_phase_cases _ _ _ _ _ E) as Hc.
  destruct (bj_lifecycles j !! e0) as [[i s]|] eqn:Hr; [|done]. cbn in Hs. injection Hs as ->.
  pose proof (ji_life _ Hj e0) as Hl. rewrite Hr in Hl.
  apply life_dispatched_inv in Hl as (Hie & v0 & Hv & Eh); [|set_solver]. destruct v as [[]|e].
  - destruct Hc as (El & Ep & _ & Et). unfold mark_outcome. rewrite El, Hr. intros [= <- <-]. split; [|split; [|split]].
    + unfold put_state. cbn. apply (commit_inv j j1 phase (fz_checkpoint f) (mkRecord i LOutcome)); cbn; try done.
      * rewrite Eh. by apply life_outcome.
      * by rewrite Hr.
    + intros e Hne. cbn. by rewrite El, lookup_insert_ne.
    + cbn. by rewrite El, lookup_insert_eq.
    + by split.
  - destruct Hc as (sink & -> & Es). unfold mark_terminal_journal_failed. cbn. rewrite Hr. intros [= <- <-].
    destruct Hj as [H1 H2 H3]. split; [|split; [|split]]; cbn.
    + split; cbn.
      * intros e'. destruct (decide (e0 = e')) as [<-|Hne]; [|by rewrite lookup_insert_ne].
        rewrite lookup_insert_eq, Eh. apply life_dispatched; [done|done|set_solver].
      * by rewrite Es.
      * intros e'. destruct (decide (e0 = e')) as [<-|Hne].
        -- rewrite !lookup_insert_eq. cbn. split; [done|]. intros _. by eexists.
        -- by rewrite !lookup_insert_ne.
    + intros e' Hne. by rewrite lookup_insert_ne.
    + by rewrite lookup_insert_eq.
    + done.
Qed.

Lemma delete_claim (fs : list Finalizer) n f : NoDup (map fz_effect fs) -> fs !! n = Some f ->
  NoDup (map fz_effect (delete n fs)) /\
  forall f', f' ∈ delete n fs -> f' ∈ fs /\ fz_effect f' <> fz_effect f.
Proof.
  intros Hn Hf. apply list_elem_of_split_length in Hf as (l1 & l2 & -> & ->).
  rewrite delete_middle, !map_app in *. cbn in *. apply NoDup_app in Hn as (H1 & H2 & H3).
  apply NoDup_cons in H3 as [H3 H4]. split.
  - apply NoDup_app. split; [done|]. split; [|done]. intros e He1 He2. apply (H2 e He1). by right.
  - intros f' Hf'. split; [set_solver|]. intros Eq. apply elem_of_app in Hf' as [Hf'|Hf'].
    + apply (H2 (fz_effect f')); [apply list_elem_of_fmap; eauto|]. rewrite Eq. by left.
    + apply H3. rewrite <- Eq. apply list_elem_of_fmap. eauto.
Qed.

Lemma run_ok b n r b' : BInv b -> run_finalizer n b = (r, b') -> BInv b'.
Proof.
  intros Hb. unfold run_finalizer. destruct (br_finalizers b !! n) as [f|] eqn:Ef; [|by intros [= _ <-]].
  unfold on_journal. cbn [br_journal with_finalizers]. destruct (claim_append f (br_journal b)) as [v j1] eqn:E.
  intros [= _ <-]. apply end_task_inv. destruct Hb as [H1 H2 H3 H4].
  assert (Hs := H3 f (list_elem_of_lookup_2 _ _ _ Ef)).
  destruct (claim_append_ok _ _ _ _ H1 Hs E) as (Hj & Hoth & Hself & _).
  destruct (delete_claim _ _ _ H4 Ef) as [Hnd Hsub]. split; cbn.
  - done.
  - intros e He. apply H2. destruct (decide (e = fz_effect f)) as [->|Hne]; [|by rewrite <- Hoth].
    by destruct (_ !! fz_effect f).
  - intros f' Hf'. destruct (Hsub f' Hf') as [Hin Hne]. rewrite Hoth by done. by apply H3.
  - done.
Qed.

Lemma abandon_inv j i e : JInv j -> j.(bj_lifecycles) !! e = Some (mkRecord i Terminalizing) ->
  abandon_terminal e j = with_lifecycles (<[e := mkRecord i LDispatched]> j.(bj_lifecycles)) j /\ JInv (abandon_terminal e j).
Proof.
  intros Hj Hr. unfold abandon_terminal. rewrite Hr. cbn. split; [done|].
  apply (restate_inv _ _ _ Terminalizing); [done|done|set_solver|set_solver].
Qed.

Lemma drop_ok b n failure : BInv b -> BInv (drop_finalizer n failure b).
Proof.
  intros Hb. unfold drop_finalizer. destruct (br_finalizers b !! n) as [f|] eqn:Ef; [|done]. apply end_task_inv.
  destruct Hb as [H1 H2 H3 H4]. assert (Hs := H3 f (list_elem_of_lookup_2 _ _ _ Ef)).
  destruct (delete_claim _ _ _ H4 Ef) as [Hnd Hsub].
  destruct (bj_lifecycles (br_journal b) !! fz_effect f) as [[i s]|] eqn:Hr; [|done]. cbn in Hs. injection Hs as ->.
  destruct (abandon_inv _ _ _ H1 Hr) as [-> Hj]. split; cbn.
  - apply (restate_inv _ _ _ Terminalizing); [done|done|set_solver|set_solver].
  - intros e He. apply H2. destruct (decide (fz_effect f = e)) as [<-|Hne]; [by rewrite Hr|].
    by rewrite lookup_insert_ne in He.
  - intros f' Hf'. destruct (Hsub f' Hf') as [Hin Hne]. rewrite lookup_insert_ne by done. by apply H3.
  - done.
Qed.

Lemma unwind_ok b n failure : BInv b -> BInv (unwind_finalizer n failure b).
Proof.
  intros Hb. unfold unwind_finalizer. destruct (br_finalizers b !! n) as [f|] eqn:Ef; [|done]. apply end_task_inv.
  destruct Hb as [H1 H2 H3 H4]. destruct (delete_claim _ _ _ H4 Ef) as [Hnd Hsub]. split; cbn; try done.
  intros f' Hf'. by apply H3, (Hsub f').
Qed.

Lemma decision_core class digest d policy b r b' :
  apply_permission_decision class digest d policy b = (r, b') -> same_core b b'.
Proof. destruct d; cbn; intros [= _ <-]; repeat split; cbn; lia. Qed.

Lemma resolve_ok answer policy b r b' : BInv b -> resolve_permission answer policy b = (r, b') -> BInv b'.
Proof.
  intros Hb. unfold resolve_permission. unfold st_bind at 1, st_get at 1, st_bind at 1, st_lift at 1.
  destruct (ok_or _ _); [|by intros [= _ <-]]. unfold st_bind at 1, st_lift at 1.
  destruct (selected_decision _ _); [|by intros [= _ <-]]. unfold st_bind at 1, st_modify at 1.
  intros E%decision_core. eapply same_core_inv; [exact E|]. eapply same_core_inv; [|exact Hb]. repeat split; cbn; lia.
Qed.

Lemma restore_ok menu answer class digest policy b r b' :
  BInv b -> restore_permission menu answer class digest policy b = (r, b') -> BInv b'.
Proof.
  intros Hb. unfold restore_permission. unfold st_bind at 1, st_reject_if at 1, st_lift at 1.
  destruct (reject_if _ _); [|by intros [= _ <-]]. unfold st_bind at 1, st_reject_if at 1, st_lift at 1.
  destruct (reject_if _ _); [|by intros [= _ <-]]. unfold st_bind at 1, st_lift at 1.
  destruct (selected_decision _ _); [|by intros [= _ <-]]. intros E%decision_core. by eapply same_core_inv.
Qed.
End Inv.
