(* ===== verification/BrokerProps.v ===== *)
(** * What the effect broker guarantees *)

From S2P Require Import Prelude RustStr Digest EffectTypes Policy Json Broker BrokerInv Fixtures.
From stdpp Require Import sorting.

Local Open Scope st_scope.

Section Broker.
Context {blake3 : Blake3} {json : JsonText} {debug : DebugText}.

(** ** Reachable states *)

Definition new_broker (identity : string) (sink : Sink) : EffectBroker :=
  mkBroker (mkJournal sink ∅ [] ∅ ∅) identity 0 0 ∅ ∅ [] [] ∅ ∅ no_tasks.

(** One call of a method, or one event of a registered task. *)
Inductive broker_step : EffectBroker -> EffectBroker -> Prop :=
  | bs_normalize op r b b' : normalize op b = (r, b') -> broker_step b b'
  | bs_authorize i policy r b b' : authorize i policy b = (r, b') -> broker_step b b'
  | bs_resolve answer policy r b b' : resolve_permission answer policy b = (r, b') -> broker_step b b'
  | bs_restore menu answer class digest policy r b b' :
      restore_permission menu answer class digest policy b = (r, b') -> broker_step b b'
  | bs_dispatched i r b b' : journal_dispatched i b = (r, b') -> broker_step b b'
  | bs_user_typed op r b b' : begin_user_typed op b = (r, b') -> broker_step b b'
  | bs_register i o f m c r b b' : register_terminal i o f m c b = (r, b') -> broker_step b b'
  | bs_run n r b b' : run_finalizer n b = (r, b') -> broker_step b b'
  | bs_drop n failure b : broker_step b (drop_finalizer n failure b)
  | bs_unwind n failure b : broker_step b (unwind_finalizer n failure b)
  | bs_operation i r b b' : register_operation i b = (r, b') -> broker_step b b'
  | bs_end n result b : broker_step b (end_operation n result b)
  | bs_leave n ended b : broker_step b (leave_operation n ended b)
  | bs_observe id b : broker_step b (observe_finalizer id b)
  | bs_cancellations computer mobile b : broker_step b (with_cancellations computer mobile b)
  | bs_freshness records b : broker_step b (with_journal (restore_freshness records b.(br_journal)) b).

Definition broker_reachable (b : EffectBroker) : Prop :=
  exists identity sink, sink.(sk_log) = [] /\ rtc broker_step (new_broker identity sink) b.

Lemma broker_step_inv b b' : BInv b -> broker_step b b' -> BInv b'.
Proof.
  intros Hb Hs. destruct Hs as [op r b b' E|i policy r b b' E|answer policy r b b' E|menu answer class digest policy r b b' E
    |i r b b' E|op r b b' E|i o f m c r b b' E|n r b b' E|n failure b|n failure b
    |i r b b' E|n result b|n ended b|id b|computer mobile b|records b].
  - exact (proj1 (normalize_ok _ _ _ _ Hb E)).
  - exact (proj1 (authorize_ok _ _ _ _ _ Hb E)).
  - exact (resolve_ok _ _ _ _ _ Hb E).
  - exact (restore_ok _ _ _ _ _ _ _ _ Hb E).
  - exact (proj1 (dispatched_ok _ _ _ _ Hb E)).
  - exact (user_typed_ok _ _ _ _ Hb E).
  - exact (register_ok _ _ _ _ _ _ _ _ Hb E).
  - exact (run_ok _ _ _ _ Hb E).
  - by apply drop_ok.
  - by apply unwind_ok.
  - exact (register_operation_ok _ _ _ _ Hb E).
  - by apply end_operation_ok.
  - by apply leave_operation_ok.
  - by apply tasks_inv.
  - eapply same_core_inv; [|exact Hb]. repeat split; cbn; lia.
  - destruct Hb as [[H1 H2 H3] H4 H5 H6]. split; [split|..]; done.
Qed.

Lemma broker_reachable_inv b : broker_reachable b -> BInv b.
Proof.
  intros (identity & sink & Hs & Hr). assert (Hb : BInv (new_broker identity sink)).
  { split; cbn; [split; cbn|..].
    - intros e. rewrite lookup_empty. constructor.
    - by rewrite Hs.
    - intros e. rewrite !lookup_empty. cbn. split; [|done]. intros [x Hx]. done.
    - intros e [x Hx]. by rewrite lookup_empty in Hx.
    - intros f Hf. set_solver.
    - constructor. }
  revert Hb. induction Hr as [b|b1 b2 b3 Hst _ IH]; [done|]. intros Hb. apply IH. by eapply broker_step_inv.
Qed.

(** The convenience methods are sequences of those steps. *)
Lemma bind_steps {A B} (m : BrokerM A) (k : A -> BrokerM B) b r b' :
  (forall r b', m b = (r, b') -> rtc broker_step b b') ->
  (forall a b1 r b', m b = (Ok a, b1) -> k a b1 = (r, b') -> rtc broker_step b1 b') ->
  (a <- m ;; k a) b = (r, b') -> rtc broker_step b b'.
Proof.
  intros Hm Hk. unfold st_bind. destruct (m b) as [[a|e] b1] eqn:E.
  - intros Ek. etrans; [by eapply Hm|by eapply Hk].
  - intros [= _ <-]. by eapply Hm.
Qed.

Lemma begin_effect_steps op policy b r b' : begin_effect op policy b = (r, b') -> rtc broker_step b b'.
Proof.
  apply bind_steps.
  - intros r1 b1. apply bind_steps; [intros; by eapply rtc_once, bs_normalize|]. intros i b2 r2 b3 _.
    apply bind_steps; [intros; by eapply rtc_once, bs_authorize|]. intros v b4 r4 b5 _.
    destruct v; intros [= _ <-]; apply rtc_refl.
  - intros i b1 r1 b2 _. apply bind_steps; [intros; by eapply rtc_once, bs_dispatched|].
    intros u b3 r3 b4 _ [= _ <-]. apply rtc_refl.
Qed.

Lemma dispatch_terminal_steps i o f m b r b' : dispatch_terminal i o f m b = (r, b') -> rtc broker_step b b'.
Proof.
  apply bind_steps; [intros; by eapply rtc_once, bs_register|]. intros [f'|] b1 r1 b2 _.
  - destruct (run_finalizer _ b1) as [v b3] eqn:E. intros [= _ <-].
    eapply rtc_l; [by eapply bs_run|]. eapply rtc_once, bs_observe.
  - intros [= _ <-]. apply rtc_refl.
Qed.

(** ** Lifecycle *)

(** C8: Whatever calls are made, in whatever order, with whatever policy, and
    whatever registered tasks run, are dropped or unwind: the journal holds for
    each effect an intent, then at most one verdict, then a dispatch only if
    the verdict permitted it, then at most one outcome; the broker's view is
    exactly what the sink committed; and a task that holds a terminal claim
    holds it alone, for an effect that was dispatched and has no outcome. *)
Theorem effect_lifecycle b : broker_reachable b ->
  (forall e, legal_history e (history e b.(br_journal).(bj_phases))) /\
  b.(br_journal).(bj_phases) = map fst b.(br_journal).(bj_sink).(sk_log) /\
  NoDup (map fz_effect b.(br_finalizers)) /\
  (forall f, f ∈ b.(br_finalizers) -> exists i v, permits v = true /\
     history f.(fz_effect) b.(br_journal).(bj_phases) =
     [Intent i; Authorized f.(fz_effect) v; Dispatched f.(fz_effect)]).
Proof.
  intros [[H1 H2 _] _ H3 H4]%broker_reachable_inv. split; [|split; [|split]]; [|done..|].
  - intros e. by eapply life_legal.
  - intros f Hf. specialize (H3 f Hf). specialize (H1 (fz_effect f)).
    destruct (_ !! fz_effect f) as [[i s]|]; [|done]. cbn in H3. injection H3 as ->.
    apply life_dispatched_inv in H1 as (_ & v & Hv & Eh); [eauto|set_solver].
Qed.

(** ** Authorization *)

Lemma take_rule_spec i rules d rest : take_rule i rules = (d, rest) ->
  match d with
  | Some d => exists l1 rule l2, rules = l1 ++ rule :: l2 /\ Forall (fun r => rule_fits i r = false) l1 /\
                rule_fits i rule = true /\ rule.(os_decision) = d /\ rest = l1 ++ l2
  | None => Forall (fun r => rule_fits i r = false) rules /\ rest = rules
  end.
Proof.
  revert d rest. induction rules as [|rule rules IH]; intros d rest; cbn; [by intros [= <- <-]|].
  destruct (rule_fits i rule) eqn:Ef.
  { intros [= <- <-]. exists [], rule, rules. done. }
  destruct (take_rule i rules) as [d' rest'] eqn:Et. specialize (IH _ _ eq_refl). intros [= <- <-].
  destruct d' as [d'|].
  - destruct IH as (l1 & r & l2 & -> & H1 & H2 & H3 & ->). exists (rule :: l1), r, l2. split_and!; try done. by constructor.
  - destruct IH as [H1 ->]. split; [by constructor|done].
Qed.

(** What a successful authorization did. *)
Lemma authorize_run b i policy v b' : authorize i policy b = (Ok v, b') ->
  b.(br_journal).(bj_lifecycles) !! i.(in_effect) = Some (mkRecord i LIntent) /\
  b'.(br_journal).(bj_phases) = b.(br_journal).(bj_phases) ++ [Authorized i.(in_effect) v] /\
  exists d b3 menu, settle_decision policy i b = (Ok d, b3) /\ v = verdict_of d menu /\
    b'.(br_one_shot_rules) = b3.(br_one_shot_rules) /\
    (d = DAsk -> exists pp, b'.(br_pending_permissions) !! menu = Some pp /\ pp.(pp_class) = i.(in_class) /\
       pp.(pp_args_digest) = i.(in_args_digest) /\ pp.(pp_menu).(menu_id) = menu).
Proof.
  unfold authorize. unfold st_bind at 1, on_journal at 1.
  destruct (require_state _ LIntent (br_journal b)) as [v1 j1] eqn:E1.
  destruct (require_state_ok _ _ _ _ _ E1) as [-> H1]. rewrite with_journal_same.
  destruct v1 as [u|e]; [|done]. specialize (H1 u eq_refl).
  unfold st_bind at 1, on_journal at 1. destruct (require_recorded_intent i (br_journal b)) as [v2 j2] eqn:E2.
  destruct (require_recorded_ok _ _ _ _ E2) as [-> H2]. rewrite with_journal_same.
  destruct v2 as [i'|e]; [|done]. destruct (H2 i' eq_refl) as (-> & s & Hr).
  rewrite Hr in H1. cbn in H1. injection H1 as ->. intros E. split; [done|].
  unfold st_bind in E at 1. destruct (settle_decision policy i b) as [v3 b3] eqn:E3.
  destruct (settle_ok _ _ _ _ _ E3) as ((Ej3 & _) & d & -> & _).
  unfold st_bind in E at 1. destruct (judge d i b3) as [v4 b4] eqn:E4.
  destruct (judge_ok _ _ _ _ _ E4) as ((Ej4 & _) & w & asked & -> & menu & Hw).
  unfold st_bind in E at 1. unfold on_journal in E at 1.
  destruct (append_phase _ None (br_journal b4)) as [v5 j5] eqn:E5.
  pose proof (append_phase_cases _ _ _ _ _ E5) as Hc. destruct v5 as [x|e]; [|done]. destruct Hc as (El & Ep & _).
  unfold st_bind, st_modify, on_journal, set_state, st_ret in E. rewrite Ej4, Ej3 in *.
  assert (E' : v = w /\ b'.(br_journal).(bj_phases) = j5.(bj_phases) /\ b'.(br_one_shot_rules) = b4.(br_one_shot_rules) /\
    b'.(br_pending_permissions) = match asked with
      | Some m => <[m.(menu_id) := {| pp_menu := m; pp_class := in_class i; pp_args_digest := in_args_digest i |}]>
                    b4.(br_pending_permissions)
      | None => b4.(br_pending_permissions) end).
  { destruct asked as [m|]; cbn in E; rewrite El, Hr in E; by injection E as <- <-. }
  destruct E' as (-> & Eph & Eru & Epe). rewrite Eph, Ep. split; [done|].
  clear menu Hw. revert E4. unfold judge. destruct d as [| |reason].
  - intros [= <- <- <-]. exists DAllow, b3, ""%string. done.
  - unfold permission_menu_for. intros [= <- <- <-]. eexists DAsk, b3, _. split; [done|]. split; [done|]. split; [done|].
    intros _. rewrite Epe. eexists. split; [apply lookup_insert_eq|done].
  - intros [= <- <- <-]. exists (DDeny reason), b3, ""%string. done.
Qed.

(** C9: A verdict that permits an effect is justified: the intent is the one
    recorded for the effect, no rule of the policy denies it, and either the
    policy allows it and no committed answer speaks about it, or a committed
    one-shot answer for exactly its class and arguments allowed it, which is
    thereby used up; an ask registers a menu for exactly that class and those
    arguments.  In every case one verdict is journaled. *)
Theorem authorization_sound b i policy v b' :
  authorize i policy b = (Ok v, b') ->
  b.(br_journal).(bj_lifecycles) !! i.(in_effect) = Some (mkRecord i LIntent) /\
  b'.(br_journal).(bj_phases) = b.(br_journal).(bj_phases) ++ [Authorized i.(in_effect) v] /\
  (permits v = true ->
     (forall reason, decision policy i <> DDeny reason) /\
     ((decision policy i = DAllow /\ Forall (fun r => rule_fits i r = false) b.(br_one_shot_rules) /\
       b'.(br_one_shot_rules) = b.(br_one_shot_rules)) \/
      exists l1 rule l2, b.(br_one_shot_rules) = l1 ++ rule :: l2 /\ rule_fits i rule = true /\
        rule.(os_decision) = DAllow /\ b'.(br_one_shot_rules) = l1 ++ l2)) /\
  (forall menu, v = VAsk menu -> exists pp, b'.(br_pending_permissions) !! menu = Some pp /\
     pp.(pp_class) = i.(in_class) /\ pp.(pp_args_digest) = i.(in_args_digest)).
Proof.
  intros E. destruct (authorize_run _ _ _ _ _ E) as (Hr & Hp & d & b3 & menu & Es & -> & Hru & Hask).
  split; [done|]. split; [done|]. split.
  - destruct d as [| |reason]; cbn; try done. intros _.
    destruct (settle_ok _ _ _ _ _ Es) as (_ & d & [= <-] & Hd).
    destruct (take_rule i (br_one_shot_rules b)) as [d' rest] eqn:Et. cbn in Hd.
    destruct (decision policy i) as [| |reason] eqn:Ed; [| |by destruct Hd].
    all: destruct Hd as [Hd Hrest]; (split; [done|]); pose proof (take_rule_spec _ _ _ _ Et) as Ht.
    + destruct Hd as [<-|[-> _]].
      * right. destruct Ht as (l1 & rule & l2 & ? & _ & ? & ? & ->). exists l1, rule, l2. by rewrite Hru.
      * left. destruct Ht as [? ->]. by rewrite Hru.
    + destruct Hd as [<-|[_ [=]]].
      right. destruct Ht as (l1 & rule & l2 & ? & _ & ? & ? & ->). exists l1, rule, l2. by rewrite Hru.
  - intros m Hm. destruct d; try done. cbn in Hm. injection Hm as ->.
    destruct (Hask eq_refl) as (pp & ? & ? & ? & _). eauto.
Qed.

(** ** Closing *)

Definition state_at (j : BrokerJournal) (e : EffectId) : option LifecycleState := lr_state <$> j.(bj_lifecycles) !! e.
Definition settled_state (s : option LifecycleState) : Prop := s ∈ [Some LOutcome; Some TerminalJournalFailed].

(** A sink that commits everything. *)
Definition good_sink (sink : Sink) : Prop := Forall (eq None) sink.(sk_answers) /\ sink.(sk_checkpoint_batches) = true.

Lemma append_good phase c j : good_sink j.(bj_sink) ->
  exists j', append_phase phase c j = (Ok tt, j') /\ good_sink j'.(bj_sink).
Proof.
  intros [Ha Hc]. unfold append_phase, sink_append. rewrite Hc. rewrite andb_false_r.
  destruct (sk_answers (bj_sink j)) as [|a answers]; [eexists; split; [done|]; by split|].
  apply Forall_cons in Ha as [<- Ha]. eexists. split; [done|]. by split.
Qed.

Lemma claim_append_good f j : good_sink j.(bj_sink) -> exists j', claim_append f j = (Ok tt, j') /\ good_sink j'.(bj_sink).
Proof.
  intros Hg. destruct (append_good (Outcome f.(fz_effect) f.(fz_outcome) f.(fz_freshness) f.(fz_mutation)) f.(fz_checkpoint) j Hg)
    as (j1 & E & Hg1). unfold claim_append. rewrite E. eexists. split; [done|].
  unfold mark_outcome. by destruct (_ !! _).
Qed.

(** *** The tasks proceed *)

(** Only outcomes are journaled, errors of earlier appends stay, and a sink that
    commits everything goes on doing so. *)
Record proceeds (j j' : BrokerJournal) : Prop := {
  pr_phases : exists new, j'.(bj_phases) = j.(bj_phases) ++ new /\ Forall (fun p => exists e o f m, p = Outcome e o f m) new;
  pr_errors : forall e c, j.(bj_terminal_errors) !! e = Some c -> j'.(bj_terminal_errors) !! e = Some c;
  pr_good : good_sink j.(bj_sink) -> good_sink j'.(bj_sink) /\ j'.(bj_terminal_errors) = j.(bj_terminal_errors)
}.

#[export] Instance proceeds_preorder : PreOrder proceeds.
Proof.
  split.
  - intros j. split; [exists []; by rewrite app_nil_r|done|done].
  - intros a b c [(n1 & E1 & F1) H1 G1] [(n2 & E2 & F2) H2 G2]. split.
    + exists (n1 ++ n2). rewrite E2, E1, app_assoc. split; [done|]. by apply Forall_app.
    + eauto.
    + intros Hg. destruct (G1 Hg) as [Hg1 <-]. by apply G2.
Qed.

Lemma quiet_proceeds j j' : j'.(bj_phases) = j.(bj_phases) -> j'.(bj_sink) = j.(bj_sink) ->
  j'.(bj_terminal_errors) = j.(bj_terminal_errors) -> proceeds j j'.
Proof. intros E1 E2 E3. split; [exists []; by rewrite app_nil_r|by rewrite E3|by rewrite E2, E3]. Qed.

Lemma claim_proceeds i j r j' : claim_terminal i j = (r, j') -> proceeds j j'.
Proof.
  intros E%claim_cases. destruct r as [[e|]|e]; [destruct E as (_ & _ & ->)|subst j'..]; by apply quiet_proceeds.
Qed.

Lemma append_proceeds f j r j' : JInv j -> state_at j f.(fz_effect) = Some Terminalizing ->
  claim_append f j = (r, j') -> proceeds j j'.
Proof.
  intros Hj Hs E. destruct (claim_append_ok _ _ _ _ Hj Hs E) as (_ & _ & _ & H4). split.
  - destruct r as [u|e]; destruct H4 as [-> _]; [|exists []; by rewrite app_nil_r].
    eexists. split; [done|]. constructor; [|done]. by eexists _, _, _, _.
  - intros e c Hc. destruct r as [u|e']; destruct H4 as [_ ->]; [done|]. rewrite lookup_insert_ne; [done|]. intros <-.
    pose proof (proj1 (ji_errors _ Hj (fz_effect f)) (ex_intro _ c Hc)) as Hf. unfold state_at in Hs. congruence.
  - intros Hg. destruct (claim_append_good f j Hg) as (j1 & E1 & Hg1). rewrite E in E1. injection E1 as -> ->.
    by destruct H4 as [_ ->].
Qed.

(** What one event of a task does to the broker. *)
Lemma list_find_split {A} (P : A -> Prop) `{forall x, Decision (P x)} l n x : list_find P l = Some (n, x) ->
  l !! n = Some x /\ P x /\ forall y, y ∈ l -> y = x \/ y ∈ delete n l.
Proof.
  intros (Hl & HP & _)%list_find_Some. split; [done|]. split; [done|]. intros y Hy.
  apply list_elem_of_split_length in Hl as (l1 & l2 & -> & ->). rewrite delete_middle. set_solver.
Qed.

Lemma task_event_ok event b : BInv b -> BInv (task_event event b) /\ proceeds b.(br_journal) (task_event event b).(br_journal).
Proof.
  intros Hb. destruct event as [id r|id|id failure|id|id failure|id failure]; cbn [task_event];
    unfold at_operation, at_finalizer; destruct (list_find _ _) as [[n x]|]; try done.
  - split; [by apply end_operation_ok|]. unfold end_operation. destruct (_ !! n) as [task|]; [|done].
    destruct (claim_terminal _ _) as [v j1] eqn:E. apply claim_proceeds in E. by destruct v as [[e|]|e].
  - split; [by apply leave_operation_ok|]. unfold withdraw_operation, leave_operation. by destruct (_ !! n).
  - split; [by apply leave_operation_ok|]. unfold fail_operation, leave_operation. by destruct (_ !! n).
  - destruct (run_finalizer n b) as [v b1] eqn:E. split; [by eapply run_ok|]. revert E. unfold run_finalizer.
    destruct (br_finalizers b !! n) as [f|] eqn:Ef; [|by intros [= _ <-]]. unfold on_journal. cbn [br_journal with_finalizers].
    destruct (claim_append f (br_journal b)) as [w j1] eqn:E. intros [= _ <-].
    apply (append_proceeds f _ w); [apply Hb| |done]. apply (bi_claims _ Hb). by eapply list_elem_of_lookup_2.
  - split; [by apply drop_ok|]. unfold drop_finalizer. destruct (br_finalizers b !! n) as [f|] eqn:Ef; [|done].
    pose proof (bi_claims _ Hb f (list_elem_of_lookup_2 _ _ _ Ef)) as Hs.
    destruct (bj_lifecycles (br_journal b) !! fz_effect f) as [[i s]|] eqn:Hr; [|done]. cbn in Hs. injection Hs as ->.
    destruct (abandon_inv _ _ _ (bi_journal _ Hb) Hr) as [Ea _]. cbn. rewrite Ea. by apply quiet_proceeds.
  - split; [by apply unwind_ok|]. unfold unwind_finalizer. by destruct (br_finalizers b !! n).
Qed.

Lemma run_tasks_ok schedule : forall b, BInv b ->
  BInv (run_tasks schedule b) /\ proceeds b.(br_journal) (run_tasks schedule b).(br_journal).
Proof.
  induction schedule as [|event schedule IH]; intros b Hb; [by split|].
  destruct (task_event_ok event b Hb) as [Hb1 P1]. destruct (IH _ Hb1) as [Hb2 P2]. split; [done|]. by etrans.
Qed.

(** *** No error of a running operation is lost *)

Section Owed.
Context (schedule : list TaskEvent) (task : OperationTask).

(** The task's own failure, as the schedule tells it. *)
Definition fails_with (failure : string) : Prop :=
  OperationFailed task.(ot_id) failure ∈ schedule \/ Dropped task.(ot_id) failure ∈ schedule \/
  Unwound task.(ot_id) failure ∈ schedule.

(** What may take the place of the operation's own error. *)
Definition own_error (y : ToolError) : Prop := exists r, Ended task.(ot_id) r ∈ schedule /\ r.(or_error) = Some y.
Definition unjournaled (j : BrokerJournal) (text : string) : Prop :=
  exists cause, text = tool_error_display cause /\
    ((exists j0, claim_terminal task.(ot_intent) j0 = (Err cause, j0)) \/
     j.(bj_terminal_errors) !! task.(ot_intent).(in_effect) = Some cause).

Definition accounts (b : EffectBroker) (ended : result (N * option ToolError) string) : Prop :=
  match ended with
  | Err failure => fails_with failure
  | Ok (id, Some y) => id = task.(ot_id) /\ (own_error y \/ unjournaled b.(br_journal) (tool_error_display y))
  | Ok (_, None) => False
  end.

Definition owed (b : EffectBroker) : Prop :=
  task ∈ b.(br_tasks).(js_operations) \/
  (exists f y, f ∈ b.(br_finalizers) /\ f.(fz_task) = task.(ot_id) /\ f.(fz_effect) = task.(ot_intent).(in_effect) /\
     f.(fz_own_error) = Some y /\ own_error y) \/
  exists ended, ended ∈ b.(br_tasks).(js_ended) /\ accounts b ended.

Context (Hends : forall r, Ended task.(ot_id) r ∈ schedule -> is_Some r.(or_error)).
Context (Hstays : Withdrawn task.(ot_id) ∉ schedule).

(** Later, with more tasks ended. *)
Lemma accounts_later b b' ended : proceeds b.(br_journal) b'.(br_journal) -> accounts b ended -> accounts b' ended.
Proof.
  intros P. destruct ended as [[id [y|]]|failure]; cbn; try done. intros [-> [?|(cause & ? & [?|Hc])]]; (split; [done|]); [by left|right..].
  - exists cause. eauto.
  - exists cause. split; [done|]. right. by apply (pr_errors _ _ P).
Qed.

Lemma owed_later b b' : proceeds b.(br_journal) b'.(br_journal) ->
  (exists new, b'.(br_tasks).(js_ended) = b.(br_tasks).(js_ended) ++ new) ->
  (task ∈ b.(br_tasks).(js_operations) -> owed b') ->
  (forall f, f ∈ b.(br_finalizers) -> f ∈ b'.(br_finalizers) \/
     (f.(fz_task) = task.(ot_id) -> f.(fz_effect) = task.(ot_intent).(in_effect) ->
      forall y, f.(fz_own_error) = Some y -> own_error y -> owed b')) ->
  owed b -> owed b'.
Proof.
  intros P (new & En) Hop Hfin [Hin|[(f & y & Hf & Et & Ee & Ey & Ho)|(ended & Hin & Ha)]]; [by apply Hop| |].
  - destruct (Hfin f Hf) as [Hf'|Hf']; [|by eapply Hf']. right. left. eauto 10.
  - right. right. exists ended. rewrite En. split; [set_solver|]. by apply (accounts_later b).
Qed.

Lemma owed_event event b : BInv b -> event ∈ schedule -> owed b -> owed (task_event event b).
Proof.
  intros Hb Hev. destruct (task_event_ok event b Hb) as [_ P].
  destruct event as [id r|id|id failure|id|id failure|id failure]; cbn [task_event] in *;
    unfold at_operation, at_finalizer in *; destruct (list_find _ _) as [[n x]|] eqn:Ef; try done;
    destruct (list_find_split _ _ _ _ Ef) as (Hl & Hx & Hmem); subst id.
  - revert P. unfold end_operation. rewrite Hl. cbn [br_journal with_operations with_tasks].
    destruct (claim_terminal (ot_intent x) (br_journal b)) as [v j1] eqn:Ec. pose proof (claim_cases _ _ _ _ Ec) as Hc.
    destruct v as [[e|]|e]; intros P; (apply owed_later; [exact P|cbn; eexists; first [reflexivity|symmetry; apply app_nil_r]| |]);
      try (intros f Hf; left; cbn; set_solver); intros Hin; destruct (Hmem _ Hin) as [<-|Hrest]; try (by left).
    + right. left. destruct (Hends r Hev) as [y Hy]. eexists _, y. split; [cbn; apply elem_of_app; right; by apply list_elem_of_singleton|]. cbn.
      split; [done|]. split; [by destruct Hc as (-> & _)|]. split; [done|]. by exists r.
    + right. right. eexists. split; [cbn; apply elem_of_app; right; by apply list_elem_of_singleton|].
      destruct (Hends r Hev) as [y Hy]. rewrite Hy. split; [done|]. left. by exists r.
    + right. right. eexists. split; [cbn; apply elem_of_app; right; by apply list_elem_of_singleton|].
      cbn. split; [done|]. right. exists e. split; [by rewrite applied_display|]. left. subst j1. eauto.
  - revert P. unfold withdraw_operation, leave_operation. rewrite Hl. intros P.
    apply owed_later; [exact P|cbn; by eexists| |intros f Hf; by left].
    intros Hin. destruct (Hmem _ Hin) as [<-|Hrest]; [done|by left].
  - revert P. unfold fail_operation, leave_operation. rewrite Hl. intros P.
    apply owed_later; [exact P|cbn; by eexists| |intros f Hf; by left].
    intros Hin. destruct (Hmem _ Hin) as [<-|Hrest]; [|by left]. right. right.
    eexists. split; [cbn; apply elem_of_app; right; by apply list_elem_of_singleton|]. by left.
  - revert P. unfold run_finalizer. rewrite Hl. unfold on_journal. cbn [br_journal with_finalizers].
    destruct (claim_append x (br_journal b)) as [w j1] eqn:Ea. intros P. cbn [snd] in *.
    apply owed_later; [exact P|cbn; by eexists|by left|]. intros f Hf. destruct (Hmem _ Hf) as [->|Hrest]; [right|by left].
    intros Et Ee y Ey Ho. right. right. eexists. split; [cbn; apply elem_of_app; right; by apply list_elem_of_singleton|].
    destruct w as [u|e]; cbn; rewrite ?Ey; (split; [done|]); [by left|right].
    exists e. split; [by rewrite applied_display|]. right.
    destruct (claim_append_ok _ _ _ _ (bi_journal _ Hb) (bi_claims _ Hb x Hf) Ea) as (_ & _ & _ & _ & ->).
    rewrite Ee. apply lookup_insert_eq.
  - revert P. unfold drop_finalizer. rewrite Hl. intros P.
    apply owed_later; [exact P|cbn; by eexists|by left|]. intros f Hf. destruct (Hmem _ Hf) as [->|Hrest]; [right|by left].
    intros Et Ee y Ey Ho. right. right. eexists. split; [cbn; apply elem_of_app; right; by apply list_elem_of_singleton|].
    right. left. by rewrite <- Et.
  - revert P. unfold unwind_finalizer. rewrite Hl. intros P.
    apply owed_later; [exact P|cbn; by eexists|by left|]. intros f Hf. destruct (Hmem _ Hf) as [->|Hrest]; [right|by left].
    intros Et Ee y Ey Ho. right. right. eexists. split; [cbn; apply elem_of_app; right; by apply list_elem_of_singleton|].
    right. right. by rewrite <- Et.
Qed.

Lemma owed_run events : forall b, BInv b -> (forall event, event ∈ events -> event ∈ schedule) ->
  owed b -> owed (run_tasks events b).
Proof.
  induction events as [|event events IH]; intros b Hb Hsub Ho; [done|].
  apply IH; [by apply task_event_ok|intros; apply Hsub; by right|]. apply owed_event; [done|apply Hsub; by left|done].
Qed.
End Owed.

(** *** The sweep *)

Lemma rearmed_inv j : JInv j -> JInv (with_lifecycles (rearmed <$> j.(bj_lifecycles)) j).
Proof.
  intros [H1 H2 H3]. split; cbn; [|done|].
  - intros e. rewrite lookup_fmap. specialize (H1 e). destruct (_ !! e) as [[i s]|]; cbn; [|done].
    unfold rearmed. cbn. case_bool_decide as Hs; [|done]. subst s.
    apply life_dispatched_inv in H1 as (? & v & ? & ->); [|set_solver]. apply life_dispatched; [done..|set_solver].
  - intros e. rewrite H3, lookup_fmap. destruct (_ !! e) as [[i s]|]; cbn; [|done].
    unfold rearmed. cbn. case_bool_decide as Hs; [|done]. subst s. cbn. by split; intros [=].
Qed.

Lemma candidates_spec j candidates j' : JInv j -> close_sweep_candidates j = (candidates, j') ->
  JInv j' /\ j'.(bj_phases) = j.(bj_phases) /\ j'.(bj_sink) = j.(bj_sink) /\
  j'.(bj_terminal_errors) = j.(bj_terminal_errors) /\ NoDup (map in_effect candidates) /\
  (forall e, state_at j' e <> Some Terminalizing) /\
  (forall i, i ∈ candidates <-> j'.(bj_lifecycles) !! i.(in_effect) = Some (mkRecord i LDispatched)) /\
  (forall e, state_at j' e = if bool_decide (state_at j e = Some Terminalizing) then Some LDispatched else state_at j e).
Proof.
  intros Hj. unfold close_sweep_candidates. intros [= <- <-]. pose proof (rearmed_inv _ Hj) as Hj'.
  set (m := rearmed <$> bj_lifecycles j) in *.
  assert (Hkey : forall e i s, m !! e = Some (mkRecord i s) -> i.(in_effect) = e).
  { intros e i s He. pose proof (ji_life _ Hj' e) as Hl. cbn in Hl. rewrite He in Hl. by inversion Hl. }
  assert (Hst : forall e, state_at (with_lifecycles m j) e =
    if bool_decide (state_at j e = Some Terminalizing) then Some LDispatched else state_at j e).
  { intros e. unfold state_at, m. cbn. rewrite lookup_fmap. destruct (_ !! e) as [[i s]|]; cbn; [|done].
    unfold rearmed. cbn. case_bool_decide as Hs; case_bool_decide as Hs'; try congruence; done. }
  split; [done|]. split; [done|]. split; [done|]. split; [done|]. split; [|split; [|split; [|done]]].
  - rewrite merge_sort_Permutation.
    assert (Hf : forall l : list (EffectId * LifecycleRecord), NoDup l.*1 ->
      (forall e r, (e, r) ∈ l -> in_effect (lr_intent r) = e) ->
      NoDup (map in_effect (map lr_intent (filter (fun r => lr_state r = LDispatched) (map snd l))))).
    { induction l as [|[e r] l IH]; intros Hn Hk; [constructor|]. rewrite fmap_cons in Hn. apply NoDup_cons in Hn as [He Hn].
      change (map snd ((e, r) :: l)) with (r :: map snd l). rewrite filter_cons. case_decide; [|apply IH; [done|]; intros; apply Hk; by right]. cbn. constructor.
      - intros (i & Ei & (r' & -> & [_ (p & -> & Hp)%list_elem_of_fmap]%list_elem_of_filter)%list_elem_of_fmap)%list_elem_of_fmap.
        apply He. destruct p as [e' r']. cbn in *. rewrite (Hk e r), (Hk e' r') in Ei by (by left || by right).
        subst e'. apply list_elem_of_fmap. by exists (e, r').
      - apply IH; [done|]. intros; apply Hk; by right. }
    apply Hf; [apply NoDup_fst_map_to_list|]. intros e [i s] He%elem_of_map_to_list. by eapply Hkey.
  - intros e. rewrite Hst. case_bool_decide; congruence.
  - intros i. rewrite merge_sort_Permutation. split.
    + intros ([i' s] & -> & [Hs ([e r] & Er & He)%list_elem_of_fmap]%list_elem_of_filter)%list_elem_of_fmap.
      cbn in *. subst. apply elem_of_map_to_list in He. by rewrite (Hkey _ _ _ He).
    + intros Hi. cbn in Hi. apply list_elem_of_fmap. exists (mkRecord i LDispatched). split; [done|].
      apply list_elem_of_filter. split; [done|]. apply list_elem_of_fmap. exists (in_effect i, mkRecord i LDispatched).
      split; [done|]. by apply elem_of_map_to_list.
Qed.

Section Sweep.
Context (outcome : EffectId -> EffectOutcome) (faults : EffectId -> option SweepFault).

(** The effects of [es] are settled unless their task failed; others are left alone. *)
Record settles (es : list EffectId) (j j' : BrokerJournal) : Prop := {
  st_inv : JInv j';
  st_others : forall e, e ∉ es -> j'.(bj_lifecycles) !! e = j.(bj_lifecycles) !! e;
  st_done : forall e, e ∈ es -> faults e = None -> settled_state (state_at j' e);
  st_proceeds : proceeds j j'
}.

Lemma settles_nil j : JInv j -> settles [] j j.
Proof. intros Hj. split; [done|done|set_solver|done]. Qed.

Lemma settles_cons e es j j1 j2 : (e ∉ es) -> settles [e] j j1 -> settles es j1 j2 -> settles (e :: es) j j2.
Proof.
  intros Hne [H1 H2 H3 P1] [G1 G2 G3 P2]. split; [done|..|by etrans].
  - intros e' He'. rewrite G2, H2 by set_solver. done.
  - intros e' He' Hf. destruct (decide (e' ∈ es)) as [Hin|Hout]; [by apply G3|].
    apply elem_of_cons in He' as [->|?]; [|done]. unfold state_at. rewrite G2 by done. apply H3; [set_solver|done].
Qed.

(** One candidate: its claim is granted, and then its task fails or appends. *)
Lemma sweep_one i j : JInv j -> j.(bj_lifecycles) !! i.(in_effect) = Some (mkRecord i LDispatched) ->
  exists j1, claim_terminal i j = (Ok (Some i.(in_effect)), j1) /\
  (forall fault, faults i.(in_effect) = Some fault ->
     settles [i.(in_effect)] j (match fault with SweepDropped _ => abandon_terminal i.(in_effect) j1 | SweepUnwound _ => j1 end)) /\
  forall r j', claim_append (terminal i.(in_effect) (outcome i.(in_effect)) None None None 0) j1 = (r, j') ->
    settles [i.(in_effect)] j j' /\
    (forall u, r = Ok u -> j'.(bj_phases) = j.(bj_phases) ++ [Outcome i.(in_effect) (outcome i.(in_effect)) None None]) /\
    (good_sink j.(bj_sink) -> r = Ok tt).
Proof.
  intros Hj Hr. set (f := terminal i.(in_effect) (outcome i.(in_effect)) None None None 0). unfold claim_terminal. rewrite Hr. cbn. rewrite bool_decide_eq_true_2 by done. cbn.
  eexists. split; [done|]. unfold put_state. cbn. set (j1 := with_lifecycles _ j).
  assert (Hj1 : JInv j1) by (apply (restate_inv _ _ _ LDispatched); [done|done|set_solver|set_solver]).
  assert (Hr1 : j1.(bj_lifecycles) !! i.(in_effect) = Some (mkRecord i Terminalizing)) by (cbn; by rewrite lookup_insert_eq).
  assert (P1 : proceeds j j1) by (by apply quiet_proceeds). split.
  - intros fault Hf. assert (Hn : forall e : EffectId, e ∈ [in_effect i] -> faults e = None -> False)
      by (intros e ->%list_elem_of_singleton; congruence).
    destruct fault as [failure|failure].
    + destruct (abandon_inv _ _ _ Hj1 Hr1) as [Ea Hja]. split; [done| |naive_solver|].
      * intros e He. rewrite Ea. cbn. rewrite !lookup_insert_ne by set_solver. done.
      * etrans; [exact P1|]. rewrite Ea. by apply quiet_proceeds.
    + split; [done| |naive_solver|done]. intros e He. cbn. rewrite lookup_insert_ne by set_solver. done.
  - intros r j' E. assert (Hs1 : state_at j1 f.(fz_effect) = Some Terminalizing) by (unfold state_at; cbn; by rewrite lookup_insert_eq).
    destruct (claim_append_ok j1 f _ _ Hj1 Hs1 E) as (Hj' & Hoth & Hself & H4). split; [split|split].
    + done.
    + intros e He. rewrite Hoth by set_solver. cbn. rewrite lookup_insert_ne; [done|]. set_solver.
    + intros e ->%list_elem_of_singleton _. unfold settled_state, state_at. cbn in Hself. rewrite Hself. destruct r; set_solver.
    + etrans; [exact P1|]. by eapply append_proceeds.
    + intros u ->. exact (proj1 H4).
    + intros Hg. destruct (claim_append_good f j1 Hg) as (j3 & E3 & Hg3). rewrite E in E3. by injection E3 as -> ->.
Qed.

Lemma sweep_settles cands : forall errors failed rec j errors' failed' rec' j',
  JInv j -> NoDup (map in_effect cands) ->
  (forall i, i ∈ cands -> j.(bj_lifecycles) !! i.(in_effect) = Some (mkRecord i LDispatched)) ->
  sweep outcome faults cands errors failed rec j = (errors', failed', rec', j') ->
  settles (map in_effect cands) j j' /\ errors' = errors /\
  (forall y, y ∈ failed -> y ∈ failed') /\
  (forall e fault, e ∈ map in_effect cands -> faults e = Some fault -> task_failure (fault_text fault) ∈ failed') /\
  (forall e, e ∈ rec' -> e ∈ rec \/ (e ∈ map in_effect cands /\ Outcome e (outcome e) None None ∈ j'.(bj_phases))) /\
  ((forall e, faults e = None) -> failed' = failed).
Proof.
  induction cands as [|i cands IH]; intros errors failed rec j errors' failed' rec' j' Hj Hn Hc; cbn [sweep].
  { intros [= <- <- <- <-]. split; [by apply settles_nil|]. split; [done|]. split; [done|]. split; [set_solver|]. split; [by left|done]. }
  apply NoDup_cons in Hn as [Hi Hn]. destruct (sweep_one i j Hj (Hc i ltac:(by left))) as (j1 & E1 & Hfault & H1).
  rewrite E1.
  assert (Hc2 : forall j2, settles [in_effect i] j j2 -> forall i', i' ∈ cands ->
    j2.(bj_lifecycles) !! i'.(in_effect) = Some (mkRecord i' LDispatched)).
  { intros j2 S1 i' Hi'. rewrite (st_others _ _ _ S1); [apply Hc; by right|]. rewrite list_elem_of_singleton.
    intros Eq. apply Hi. rewrite <- Eq. apply list_elem_of_fmap. eauto. }
  destruct (faults (in_effect i)) as [fault|] eqn:Ef.
  - pose proof (Hfault fault eq_refl) as S1. clear Hfault H1. set (j2 := match fault with SweepDropped _ => _ | _ => _ end) in *.
    clearbody j2. intros E3.
    destruct (IH _ _ _ _ _ _ _ _ (st_inv _ _ _ S1) Hn (Hc2 _ S1) E3) as (S2 & -> & Hfl & Hfs & Hrec & Hg2).
    split; [exact (settles_cons _ _ _ _ _ Hi S1 S2)|]. split; [done|]. split; [set_solver|]. split; [|split].
    + intros e fault' He Hfe. apply elem_of_cons in He as [->|He]; [|by eapply Hfs]. rewrite Ef in Hfe. injection Hfe as <-.
      apply Hfl. set_solver.
    + intros e He. destruct (Hrec e He) as [?|[? ?]]; [by left|]. right. split; [by right|done].
    + intros Hno. by rewrite Hno in Ef.
  - destruct (claim_append _ j1) as [r j2] eqn:E2. destruct (H1 _ _ eq_refl) as (S1 & Hok & Hgood).
    destruct r as [u|e]; intros E3;
      destruct (IH _ _ _ _ _ _ _ _ (st_inv _ _ _ S1) Hn (Hc2 _ S1) E3) as (S2 & -> & Hfl & Hfs & Hrec & Hg2);
      (split; [exact (settles_cons _ _ _ _ _ Hi S1 S2)|]); (split; [done|]); (split; [done|]);
      (split; [intros e' fault' He' Hfe; apply elem_of_cons in He' as [->|He']; [congruence|by eapply Hfs]|split; [|done]]).
    + intros e He. destruct (Hrec e He) as [[Hin|Eq%list_elem_of_singleton]%elem_of_app|[Hin Hph]];
        [by left| |right; split; [by right|done]].
      right. subst e. split; [by left|]. destruct (pr_phases _ _ (st_proceeds _ _ _ S2)) as (new & -> & _).
      rewrite (Hok u eq_refl). set_solver.
    + intros e' He. destruct (Hrec e' He) as [?|[Hin ?]]; [by left|]. right. split; [by right|done].
Qed.
End Sweep.

Lemma push_distinct_keeps errors : forall unique e, e ∈ unique \/ e ∈ errors ->
  exists e', e' ∈ foldl push_distinct unique errors /\ tool_error_display e' = tool_error_display e.
Proof.
  induction errors as [|x errors IH]; intros unique e He; cbn [foldl].
  { destruct He as [He|He]; [eauto|set_solver]. }
  unfold push_distinct at 2. destruct (existsb _ unique) eqn:Ex.
  - destruct (decide (e ∈ unique)); [by apply IH; left|]. destruct He as [?|[->|?]%elem_of_cons]; [done| |by apply IH; right].
    apply existsb_elem in Ex as (y & Hy & Hd%String.eqb_eq). destruct (IH unique y (or_introl Hy)) as (e' & ? & Hd'). exists e'. by rewrite Hd'.
  - apply IH. destruct He as [?|[->|?]%elem_of_cons]; [left; set_solver|left; set_solver|by right].
Qed.

(** The text of a failed terminal append. *)
Definition terminal_failure_text (e : EffectId) (cause : string) : string :=
  ("tool runtime failed: effect " ++ e ++ " terminal journal append failed: " ++ cause)%string.

(** The caller is told, by an error of its own or as the cause of an effect's
    failed append. *)
Definition reported (errors : list ToolError) (text : string) : Prop :=
  exists x, x ∈ errors /\ (tool_error_display x = text \/ exists e, tool_error_display x = terminal_failure_text e text).

Lemma history_elem e p phases : p ∈ history e phases <-> phase_effect p = e /\ p ∈ phases.
Proof. unfold history. rewrite list_elem_of_filter. done. Qed.

(** A dispatched effect is in one of the four states that follow dispatch. *)
Lemma dispatched_state j e : JInv j -> Dispatched e ∈ j.(bj_phases) ->
  state_at j e ∈ [Some LDispatched; Some Terminalizing; Some TerminalJournalFailed; Some LOutcome].
Proof.
  intros Hj Hd. assert (Hh : Dispatched e ∈ history e (bj_phases j)) by (by apply history_elem).
  pose proof (ji_life _ Hj e) as Hl. unfold state_at.
  inversion Hl as [Er Eh|i Hi Er Eh|i v Hi Hv Er Eh|i v Hi Hv Er Eh|i v s Hi Hv Hs Er Eh|i v o f m Hi Hv Er Eh];
    rewrite <- Eh in Hh; cbn; set_solver.
Qed.

Lemma outcome_state j e : JInv j -> state_at j e = Some LOutcome -> exists o f m, Outcome e o f m ∈ j.(bj_phases).
Proof.
  intros Hj Hs. pose proof (ji_life _ Hj e) as Hl. unfold state_at in Hs.
  inversion Hl as [Er Eh|i Hi Er Eh|i v Hi Hv Er Eh|i v Hi Hv Er Eh|i v s Hi Hv Hs' Er Eh|i v o f m Hi Hv Er Eh];
    rewrite <- Er in Hs; cbn in Hs; try done.
  - injection Hs as ->. set_solver.
  - exists o, f, m. apply (history_elem e). rewrite <- Eh. set_solver.
Qed.

(** An effect that awaits its outcome has none yet. *)
Lemma awaiting_no_outcome j e : JInv j -> state_at j e ∈ [Some LDispatched; Some Terminalizing] ->
  forall o f m, Outcome e o f m ∉ j.(bj_phases).
Proof.
  intros Hj Hs o f m Ho. assert (Hh : Outcome e o f m ∈ history e (bj_phases j)) by (by apply history_elem).
  pose proof (ji_life _ Hj e) as Hl. unfold state_at in Hs.
  destruct (_ !! e) as [[i s]|]; [|set_solver]. cbn in Hs.
  apply life_dispatched_inv in Hl as (_ & v & _ & Eh); [|set_solver]. rewrite Eh in Hh. set_solver.
Qed.

Lemma finish_close_keeps report errors terminal_errors :
  (forall y, y ∈ errors -> exists x, x ∈ (finish_close report errors terminal_errors).2 /\ tool_error_display x = tool_error_display y) /\
  (forall e cause, (e, cause) ∈ terminal_errors -> exists x, x ∈ (finish_close report errors terminal_errors).2 /\
     tool_error_display x = terminal_failure_text e (tool_error_display cause)).
Proof.
  split.
  - intros y Hy. apply push_distinct_keeps. right. apply elem_of_app. by left.
  - intros e cause Hc.
    destruct (push_distinct_keeps (errors ++ map (fun te : EffectId * ToolError =>
        Runtime ("effect " ++ te.1 ++ " terminal journal append failed: " ++ tool_error_display te.2)%string) terminal_errors) []
      (Runtime ("effect " ++ e ++ " terminal journal append failed: " ++ tool_error_display cause)%string)) as (x & Hx & Ex).
    { right. apply elem_of_app. right. apply list_elem_of_fmap. by exists (e, cause). }
    exists x. split; [exact Hx|]. by rewrite Ex.
Qed.

(** The stages of closing: the tasks, the sweep, and what the errors are made of. *)
Lemma close_run b cancelled leaked schedule late faults report errors j' : BInv b ->
  close_with_fallback cancelled leaked schedule late faults b = Some (report, errors, j') ->
  let b1 := run_tasks schedule b in
  let joined := omap (joined_error (observed_by late b1)) b1.(br_tasks).(js_ended) in
  b1.(br_finalizers) = [] /\ b1.(br_tasks).(js_operations) = [] /\
  exists j2 candidates j3 failed terminal_errors,
    close_sweep_candidates b1.(br_journal) = (candidates, j2) /\
    settles faults (map in_effect candidates) j2 j3 /\
    j' = with_terminal_errors ∅ j3 /\
    terminal_errors = merge_sort error_le (map_to_list j3.(bj_terminal_errors)) /\
    errors = (finish_close report (filter (fun e => e ∉ map snd terminal_errors) (joined ++ failed) ++
      map (fun call_id => Runtime ("process `" ++ call_id ++ "` leaked after process-group termination escalation")%string) leaked)
      terminal_errors).2 /\
    (forall e fault, e ∈ map in_effect candidates -> faults e = Some fault -> task_failure (fault_text fault) ∈ failed) /\
    ((forall e, faults e = None) -> failed = []) /\
    (forall e, e ∈ report.(cr_reconciled_effects) ->
       e ∈ map in_effect candidates /\ Outcome e (fallback_outcome cancelled b e) None None ∈ j3.(bj_phases)).
Proof.
  intros Hb E b1 joined. destruct (run_tasks_ok schedule b Hb) as [Hb1 _]. fold b1 in Hb1.
  unfold close_with_fallback, drain_finalizers in E. fold b1 in E.
  destruct (br_finalizers b1) as [|f fs]; [|done]. destruct (js_operations (br_tasks b1)) as [|op ops]; [|done].
  cbn [option_bind mbind app] in E. fold joined in E.
  destruct (close_sweep_candidates (br_journal b1)) as [candidates j2] eqn:E2.
  destruct (candidates_spec _ _ _ (bi_journal _ Hb1) E2) as (Hj2 & _ & _ & _ & Hn2 & _ & Hc2 & _).
  destruct (sweep _ faults candidates joined [] [] j2) as [[[errors2 failed] rec] j3] eqn:E3.
  destruct (sweep_settles _ _ _ _ _ _ _ _ _ _ _ Hj2 Hn2 (fun i Hi => proj1 (Hc2 i) Hi) E3) as (S3 & -> & _ & Hfs & Hrec & Hno).
  split; [done|]. split; [done|]. injection E as <- <- <-. eexists j2, candidates, j3, failed, _.
  split; [done|]. split; [done|]. split; [done|]. split; [done|]. split; [done|]. split; [done|]. split; [done|].
  intros e He. destruct (Hrec e He) as [Hnil|?]; [set_solver|done].
Qed.

(** Where the sweep leaves an effect that was dispatched. *)
Lemma swept_state faults j1 candidates j2 j3 e : JInv j1 -> close_sweep_candidates j1 = (candidates, j2) ->
  settles faults (map in_effect candidates) j2 j3 -> Dispatched e ∈ j3.(bj_phases) ->
  state_at j3 e = Some LOutcome \/ state_at j3 e = Some TerminalJournalFailed \/
  (e ∈ map in_effect candidates /\ is_Some (faults e)).
Proof.
  intros Hj1 E2 S3 Hd. destruct (candidates_spec _ _ _ Hj1 E2) as (Hj2 & _ & _ & _ & _ & Hnt & Hc & _).
  pose proof (st_inv _ _ _ _ S3) as Hj3. destruct (decide (e ∈ map in_effect candidates)) as [Hin|Hout].
  - destruct (faults e) as [fault|] eqn:Ef; [right; right; eauto|]. apply (st_done _ _ _ _ S3 e Hin) in Ef.
    apply elem_of_cons in Ef as [Hs|Hs%list_elem_of_singleton]; auto.
  - pose proof (dispatched_state _ _ Hj3 Hd) as H4. unfold state_at in *. rewrite (st_others _ _ _ _ S3) in * by done.
    pose proof (ji_life _ Hj2 e) as Hl. specialize (Hnt e).
    destruct (bj_lifecycles j2 !! e) as [[i s]|] eqn:Er; [|set_solver]. cbn in *.
    destruct (decide (s = LDispatched)) as [->|]; [|set_solver].
    destruct Hout. apply life_dispatched_inv in Hl as [<- _]; [|set_solver]. apply Hc in Er. apply list_elem_of_fmap. eauto.
Qed.

(** Closing returns: whatever is running, there is an order in which the tasks
    end, and once they have it does. *)
Lemma operations_end (r : OperationResult) : forall l b, b.(br_tasks).(js_operations) = l ->
  exists schedule, (run_tasks schedule b).(br_tasks).(js_operations) = [].
Proof.
  induction l as [|task l IH]; intros b El; [by exists []|].
  destruct (IH (task_event (Ended task.(ot_id) r) b)) as (schedule & Es); [|by exists (Ended task.(ot_id) r :: schedule)].
  cbn [task_event]. unfold at_operation. rewrite El. cbn. rewrite decide_True by done. unfold end_operation. rewrite El. cbn.
  by destruct (claim_terminal _ _) as [[[e|]|e] j].
Qed.

Lemma finalizers_end : forall l b, b.(br_finalizers) = l -> b.(br_tasks).(js_operations) = [] ->
  exists schedule, (run_tasks schedule b).(br_finalizers) = [] /\ (run_tasks schedule b).(br_tasks).(js_operations) = [].
Proof.
  induction l as [|f l IH]; intros b El Eo; [by exists []|].
  destruct (IH (task_event (Appended f.(fz_task)) b)) as (schedule & Es);
    [..|by exists (Appended f.(fz_task) :: schedule)]; cbn [task_event]; unfold at_finalizer; rewrite El; cbn;
    rewrite decide_True by done; unfold run_finalizer; rewrite El; cbn; unfold on_journal; cbn [br_journal with_finalizers];
    by destruct (claim_append f (br_journal b)).
Qed.

Lemma close_returns b cancelled leaked late faults : exists schedule,
  is_Some (close_with_fallback cancelled leaked schedule late faults b).
Proof.
  set (r := {| or_outcome := Unknown; or_error := None; or_freshness := None; or_mutation := None;
               or_checkpoint := None; or_applied := [] |}).
  destruct (operations_end r _ b eq_refl) as (s1 & E1). destruct (finalizers_end _ _ eq_refl E1) as (s2 & E2 & E3).
  exists (s1 ++ s2). unfold close_with_fallback, drain_finalizers.
  assert (Er : run_tasks (s1 ++ s2) b = run_tasks s2 (run_tasks s1 b)) by apply foldl_app. rewrite Er, E2, E3.
  cbn [option_bind mbind app].
  destruct (close_sweep_candidates _) as [candidates j]. destruct (sweep _ _ _ _ _ _ _) as [[[? ?] ?] ?]. by eexists.
Qed.

(** C10: Closing settles every effect.  Take any broker that its calls and tasks
    can produce, any order in which its remaining tasks proceed, any way in
    which they end, fail or unwind, and any failures of the tasks that closing
    starts itself.  If the broker, closed or cancelled, has joined them all:
    every history stays legal and only outcomes are added to the journal; each
    dispatched effect ends with a journaled outcome, or with a returned error
    that names it and why its append failed, or the task that was to append its
    fallback outcome failed and that failure is returned.  An effect reported as
    reconciled had no outcome before and now has the fallback: cancelled when
    the broker or the action was cancelled, else unknown.  Every error of a
    joined task that its caller did not observe, and every failed task, is
    returned; in particular an operation that was running, was not withdrawn,
    ends in an error and is not observed leaves an error: its own, its task's
    failure, or what kept its outcome from being journaled.  Closing returns no
    error if the sink commits, no append failed earlier, no joined task has an
    unobserved error or failed, no task of closing fails and no process leaked. *)
Theorem close_settles b cancelled leaked schedule late faults report errors j' :
  broker_reachable b -> close_with_fallback cancelled leaked schedule late faults b = Some (report, errors, j') ->
  let ended := (run_tasks schedule b).(br_tasks).(js_ended) in
  let observed := observed_by late (run_tasks schedule b) in
  (forall e, legal_history e (history e j'.(bj_phases))) /\
  (exists new, j'.(bj_phases) = b.(br_journal).(bj_phases) ++ new /\ j'.(bj_phases) = map fst j'.(bj_sink).(sk_log) /\
     Forall (fun p => exists e o f m, p = Outcome e o f m) new) /\
  (forall e, Dispatched e ∈ j'.(bj_phases) ->
     (exists o f m, Outcome e o f m ∈ j'.(bj_phases)) \/
     (exists x cause, x ∈ errors /\ tool_error_display x = terminal_failure_text e cause) \/
     exists fault, faults e = Some fault /\ reported errors (tool_error_display (task_failure (fault_text fault)))) /\
  (forall e, e ∈ report.(cr_reconciled_effects) ->
     Outcome e (fallback_outcome cancelled b e) None None ∈ j'.(bj_phases) /\
     forall o f m, Outcome e o f m ∉ b.(br_journal).(bj_phases)) /\
  (forall joined y, joined ∈ ended -> joined_error observed joined = Some y -> reported errors (tool_error_display y)) /\
  (forall task, task ∈ b.(br_tasks).(js_operations) -> task.(ot_id) ∉ observed ->
     (forall r, Ended task.(ot_id) r ∈ schedule -> is_Some r.(or_error)) -> Withdrawn task.(ot_id) ∉ schedule ->
     exists text, reported errors text /\
       ((exists r y, Ended task.(ot_id) r ∈ schedule /\ r.(or_error) = Some y /\ text = tool_error_display y) \/
        (exists failure, fails_with schedule task failure /\ text = tool_error_display (task_failure failure)) \/
        (exists j cause, claim_terminal task.(ot_intent) j = (Err cause, j) /\ text = tool_error_display cause) \/
        exists x, x ∈ errors /\ tool_error_display x = terminal_failure_text task.(ot_intent).(in_effect) text)) /\
  (good_sink b.(br_journal).(bj_sink) -> b.(br_journal).(bj_terminal_errors) = ∅ ->
   Forall (fun joined => joined_error observed joined = None) ended -> (forall e, faults e = None) -> leaked = [] ->
   errors = []).
Proof.
  intros Hb%broker_reachable_inv E ended observed.
  destruct (close_run _ _ _ _ _ _ _ _ _ Hb E) as (Efz & Eop & j2 & candidates & j3 & failed & terminal_errors & E2 & S3 & -> & Ete & Eer & Hfs & Hno & Hrec).
  destruct (run_tasks_ok schedule b Hb) as [Hb1 P1]. pose proof (bi_journal _ Hb1) as Hj1.
  destruct (candidates_spec _ _ _ Hj1 E2) as (_ & Ep2 & Es2 & Et2 & _ & _ & Hc & Hst).
  pose proof (st_inv _ _ _ _ S3) as Hj3.
  assert (P2 : proceeds b.(br_journal) j2) by (etrans; [exact P1|]; by apply quiet_proceeds).
  assert (P3 : proceeds b.(br_journal) j3) by (etrans; [exact P2|exact (st_proceeds _ _ _ _ S3)]).
  fold observed ended in Eer. set (leaks := map _ leaked) in Eer.
  destruct (finish_close_keeps report (filter (fun e => e ∉ map snd terminal_errors)
    (omap (joined_error observed) ended ++ failed) ++ leaks) terminal_errors) as [Hkeep Hnamed]. rewrite <- Eer in Hkeep, Hnamed.
  assert (Hname : forall e c, j3.(bj_terminal_errors) !! e = Some c ->
    exists x, x ∈ errors /\ tool_error_display x = terminal_failure_text e (tool_error_display c)).
  { intros e c Hce. apply Hnamed. rewrite Ete, merge_sort_Permutation. by apply elem_of_map_to_list. }
  assert (Hrep : forall y, y ∈ omap (joined_error observed) ended ++ failed -> reported errors (tool_error_display y)).
  { intros y Hy. destruct (decide (y ∈ map snd terminal_errors)) as [Hin|Hout].
    - apply list_elem_of_fmap in Hin as ([e c] & -> & Hin). destruct (Hnamed e c Hin) as (x & ? & ?). exists x. eauto.
    - destruct (Hkeep y) as (x & ? & ?); [|exists x; eauto]. apply elem_of_app. left. by apply list_elem_of_filter. }
  cbn [bj_phases bj_sink with_terminal_errors]. split_and!.
  - intros e. eapply life_legal, (ji_life _ Hj3).
  - destruct (pr_phases _ _ P3) as (new & Ep & F). exists new. by rewrite <- (ji_log _ Hj3).
  - intros e Hd. destruct (swept_state _ _ _ _ _ _ Hj1 E2 S3 Hd) as [Hs|[Hs|[Hin [fault Ef]]]].
    + left. by apply outcome_state.
    + right. left. destruct (proj2 (ji_errors _ Hj3 e) Hs) as [cause Hcause]. destruct (Hname _ _ Hcause) as (x & ? & ?). eauto.
    + right. right. exists fault. split; [done|]. apply Hrep, elem_of_app. right. by eapply Hfs.
  - intros e He. destruct (Hrec e He) as [Hin Hph]. split; [done|]. intros o f m Ho.
    apply list_elem_of_fmap in Hin as (i & -> & Hi%Hc).
    pose proof (Hst (in_effect i)) as Hsi. unfold state_at in Hsi at 1. rewrite Hi in Hsi. cbn in Hsi.
    apply (awaiting_no_outcome (run_tasks schedule b).(br_journal) (in_effect i) Hj1) with o f m.
    + case_bool_decide; set_solver.
    + destruct (pr_phases _ _ P1) as (n1 & -> & _). set_solver.
  - intros joined y Hin Hy. apply Hrep, elem_of_app. left. apply list_elem_of_omap. eauto.
  - intros task Htask Hobs Hends Hstays.
    destruct (owed_run schedule task Hends Hstays schedule b Hb (fun _ H => H) (or_introl Htask)) as [Hx|[(f & _ & Hx & _)|(x & Hx & Ha)]].
    { rewrite Eop in Hx. set_solver. }
    { rewrite Efz in Hx. set_solver. }
    assert (Hjoined : forall y, joined_error observed x = Some y -> reported errors (tool_error_display y)).
    { intros y Hy. apply Hrep, elem_of_app. left. apply list_elem_of_omap. exists x. split; [exact Hx|exact Hy]. }
    destruct x as [[id [y|]]|failure]; cbn in Ha; [destruct Ha as [-> Ha]|done|].
    + exists (tool_error_display y). split.
      { apply Hjoined. cbn. by rewrite bool_decide_eq_false_2. }
      destruct Ha as [(r & ? & ?)|(cause & Ey & [(j0 & ?)|Hc0])]; [left; by exists r, y|right; right; left; by exists j0, cause|].
      right. right. right. rewrite Ey. apply Hname. apply (pr_errors _ _ (st_proceeds _ _ _ _ S3)). by rewrite Et2.
    + exists (tool_error_display (task_failure failure)). split; [by apply Hjoined|]. right. left. by exists failure.
  - intros Hgood Ht Hall Hnf ->. destruct (pr_good _ _ P3 Hgood) as [_ Et3].
    assert (Ej : omap (joined_error observed) ended = []).
    { clear -Hall. induction Hall as [|x l Hx _ IH]; [done|]. cbn. by rewrite Hx. }
    rewrite Eer, Ej, (Hno Hnf), Ete, Et3, Ht. by rewrite map_to_list_empty.
Qed.
End Broker.

(** ** What the user is told *)

(** The menu for a remote command says that approving for the session
    allows the whole class, but the approval it creates allows only that
    command: any other remote command is asked about again. *)
Theorem remote_menu_text_overstates {debug : DebugText} b effect summary digest revision other_effect other_summary other_digest :
  ("Approve for this session allows the RemoteExecution class until the session ends."%string
     ∈ menu_body (permission_menu_for (mkIntent effect RemoteExecution summary digest revision) b).1) /\
  exists p, allow_session_grant (grant_for_effect RemoteExecution digest) default_policy = Ok p /\
    decision p (mkIntent other_effect RemoteExecution other_summary other_digest None) =
    if String.eqb digest other_digest then DAllow else DAsk.
Proof.
  split; [cbn; set_solver|]. eexists. split; [reflexivity|]. unfold decision. cbn.
  rewrite bool_decide_eq_false_2 by done.
  change (push_unique (grant_for_effect RemoteExecution digest) []) with [grant_for_effect RemoteExecution digest].
  cbn. unfold grant_matches. cbn. rewrite bool_decide_eq_true_2 by done. cbn. by destruct (String.eqb digest other_digest).
Qed.

(** ** A run *)

Module BrokerWitness.
Import Sample.
#[local] Instance sample_json : JsonText := fun v =>
  match v with Str s => Ok s | _ => Ok "{}"%string end.
#[local] Instance sample_debug : DebugText := fun s => ("'" ++ s ++ "'")%string.

Definition command (args : string) : EffectOperation :=
  {| op_class := ProcessExec; op_summary := "run " ++ args; op_arguments := Ok (Str args);
     op_preview := [args]; op_revision := None |}.
Definition sink (answers : list (option ToolError)) : Sink :=
  {| sk_log := []; sk_checkpoint_batches := true; sk_answers := answers |}.

(** Asked, approved once, allowed and dispatched. *)
Definition b0 := new_broker "s-1-0" (sink []).
Definition b1 := (begin_effect (command "ls") default_policy b0).2.
Definition approve : MenuAnswer :=
  {| ans_menu := "permission-s-1-0-1"; ans_option_key := Some "approve_once"%string; ans_option_index := 0; ans_value := None |}.
Definition b2 := (resolve_permission approve default_policy b1).2.
Definition b3 := (begin_effect (command "ls") default_policy b2).2.
Definition ls : EffectIntent :=
  mkIntent "effect-s-1-0-2" ProcessExec "run ls" ("blake3:" ++ sample_blake3 "ls") None.
(** Its finalizer is registered; then the user types a command. *)
Definition b4 := (register_terminal ls OutcomeOk None None None b3).2.
Definition b5 := (begin_user_typed (command "make") b4).2.

Lemma b5_reachable : broker_reachable b5.
Proof.
  exists "s-1-0"%string, (sink []). split; [done|]. etrans; [apply (begin_effect_steps (command "ls") default_policy _ _ _ (surjective_pairing _))|].
  etrans; [eapply rtc_once, (bs_resolve approve default_policy), surjective_pairing|].
  etrans; [apply (begin_effect_steps (command "ls") default_policy _ _ _ (surjective_pairing _))|].
  etrans; [eapply rtc_once, (bs_register ls OutcomeOk None None None), surjective_pairing|].
  eapply rtc_once, (bs_user_typed (command "make")), surjective_pairing.
Qed.

Lemma effect_lifecycle_witness :
  legal_history "effect-s-1-0-2" (history "effect-s-1-0-2" b5.(br_journal).(bj_phases)) /\
  length b5.(br_journal).(bj_phases) = 8 /\ length b5.(br_finalizers) = 1.
Proof. split; [apply (effect_lifecycle b5 b5_reachable)|vm_compute; done]. Defined.

Definition b2n := (normalize (command "ls") b2).2.

Lemma authorization_sound_witness :
  decision default_policy ls = DAsk /\
  exists l1 rule l2, b2n.(br_one_shot_rules) = l1 ++ rule :: l2 /\ rule_fits ls rule = true /\
    rule.(os_decision) = DAllow /\ (authorize ls default_policy b2n).2.(br_one_shot_rules) = l1 ++ l2.
Proof.
  split; [reflexivity|]. assert (E : authorize ls default_policy b2n = (Ok VAllow, (authorize ls default_policy b2n).2)).
  { apply (run_pair (authorize ls default_policy)). vm_compute. reflexivity. }
  destruct (authorization_sound b2n ls default_policy VAllow _ E) as (_ & _ & H & _).
  destruct (proj2 (H eq_refl)) as [[[=] _]|H']. exact H'.
Defined.

(** The command's operation runs in a task of its own, a third effect is
    dispatched, and the caller goes away. *)
Definition make : EffectIntent :=
  mkIntent "effect-s-1-0-3" ProcessExec "run make" ("blake3:" ++ sample_blake3 "make") None.
Definition b6 := (register_operation make b5).2.
Definition b7 := (begin_user_typed (command "deploy") b6).2.

Lemma b7_reachable : broker_reachable b7.
Proof.
  destruct b5_reachable as (identity & sink & Hs & Hr). exists identity, sink. split; [done|].
  etrans; [exact Hr|]. eapply rtc_l; [eapply (bs_operation make), surjective_pairing|].
  eapply rtc_once, (bs_user_typed (command "deploy")), surjective_pairing.
Qed.

(** Its file change lands, the ledger refuses it, and its outcome is journaled
    before that of the first effect. *)
Definition ledger_error : ToolError := OtherToolError "change ledger failed".
Definition refused : OperationResult :=
  {| or_outcome := Failed "change ledger failed"; or_error := Some (with_applied_effects ["a.txt"%string] ledger_error);
     or_freshness := None; or_mutation := None; or_checkpoint := None; or_applied := ["a.txt"%string] |}.
Definition in_turn : list TaskEvent := [Ended 2 refused; Appended 2; Appended 1].
Definition no_fault (e : EffectId) : option SweepFault := None.
#[local] Abbreviation closed := (close_with_fallback false [] in_turn ∅ no_fault b7).

Lemma close_settles_witness :
  exists report errors j, closed = Some (report, errors, j) /\
  report.(cr_reconciled_effects) = ["effect-s-1-0-4"%string] /\
  map tool_error_display errors = ["change ledger failed"%string] /\
  Outcome "effect-s-1-0-4" Unknown None None ∈ j.(bj_phases) /\
  Outcome "effect-s-1-0-3" (Failed "change ledger failed") None None ∈ j.(bj_phases) /\
  reported errors "change ledger failed".
Proof.
  destruct closed as [[[report errors] j]|] eqn:E; [|exfalso; revert E; vm_compute; discriminate].
  exists report, errors, j. split; [done|].
  assert (Ec : option_map (fun c => (c.1.1.(cr_reconciled_effects), map tool_error_display c.1.2, c.2.(bj_phases) !! 11)) closed =
    Some (["effect-s-1-0-4"%string], ["change ledger failed"%string],
          Some (Outcome "effect-s-1-0-3" (Failed "change ledger failed") None None))) by (vm_compute; reflexivity).
  rewrite E in Ec. injection Ec as Er Ee Ep.
  destruct (close_settles b7 false [] in_turn ∅ no_fault report errors j b7_reachable E) as (_ & _ & _ & Hrec & _).
  split; [done|]. split; [done|]. split; [|split; [exact (list_elem_of_lookup_2 _ _ _ Ep)|]].
  - assert (Ho : fallback_outcome false b7 "effect-s-1-0-4" = Unknown) by (vm_compute; reflexivity).
    assert (Hin : "effect-s-1-0-4"%string ∈ cr_reconciled_effects report) by (rewrite Er; by left).
    exact (eq_ind _ (fun o => Outcome "effect-s-1-0-4" o None None ∈ bj_phases j) (proj1 (Hrec _ Hin)) _ Ho).
  - clear E Hrec. destruct errors as [|x [|]]; [discriminate Ee| |discriminate Ee]. injection Ee as Ex. exists x. split; [by left|by left].
Defined.
End BrokerWitness.
