(* ===== verification/Envelope.v ===== *)
(** * Envelopes and raw payloads (haider-protocol envelope.rs)

    A payload keeps the JSON tree it was read from, except that the one large
    reply leaf is taken out and shared: the tree keeps an empty string, or a
    marker, in its place.  A [ReplyText] is the text its range denotes, and the
    value a serializer is driven through is the value it writes.  [None] is a
    panic.  Theorems: taking the leaf out and putting it back is the identity,
    and so is writing the payload around its leaf, on exactly the trees where
    the code is right; the trees where it is not are exhibited. *)

From S2P Require Import Prelude RustStr EffectTypes Json.

Local Open Scope string_scope.

(** ** JSON access *)

(** [Map::get] and the entry replaced in place. *)
Fixpoint entry (key : string) (fields : list (string * Value)) : option Value :=
  match fields with
  | [] => None
  | (k, v) :: fields => if String.eqb k key then Some v else entry key fields
  end.
Fixpoint replace_entry (key : string) (new : Value) (fields : list (string * Value)) : list (string * Value) :=
  match fields with
  | [] => []
  | (k, v) :: fields => if String.eqb k key then (k, new) :: fields else (k, v) :: replace_entry key new fields
  end.

(** [Value::get] of a key, and [Value::as_str]. *)
Definition get (key : string) (v : Value) : option Value :=
  match v with Object fields => entry key fields | _ => None end.
Definition as_str (v : Value) : option string := match v with Str s => Some s | _ => None end.
Definition get_str (key : string) (v : Value) : option string := v' ← get key v; as_str v'.

(** A place inside a tree: through a key, or through the first element. *)
Inductive Step := Key (key : string) | First.

Definition step_get (s : Step) (v : Value) : option Value :=
  match s, v with
  | Key key, Object fields => entry key fields
  | First, Array (v :: _) => Some v
  | _, _ => None
  end.
Definition step_set (s : Step) (new v : Value) : Value :=
  match s, v with
  | Key key, Object fields => Object (replace_entry key new fields)
  | First, Array (_ :: vs) => Array (new :: vs)
  | _, _ => v
  end.
Fixpoint place_get (place : list Step) (v : Value) : option Value :=
  match place with
  | [] => Some v
  | s :: place => v' ← step_get s v; place_get place v'
  end.
Fixpoint place_set (place : list Step) (new v : Value) : Value :=
  match place with
  | [] => new
  | s :: place => match step_get s v with Some v' => step_set s (place_set place new v') v | None => v end
  end.

(** ** Payloads *)

Inductive ReplyPath :=
  | ItemText | ItemSummary | DeltaText | NodeText | PeerMessagePath | AgentNodeMessage | ProviderOpaque (marker : string).
#[export] Instance ReplyPath_eq_dec : EqDecision ReplyPath.
Proof. solve_decision. Defined.

Definition components (path : ReplyPath) : list string :=
  match path with
  | ItemText => ["item"; "text"]
  | ItemSummary => ["item"; "summary"]
  | DeltaText => ["delta"; "text"]
  | NodeText => ["kind"; "text"]
  | PeerMessagePath => ["message"]
  | AgentNodeMessage => ["kind"; "message"; "message"]
  | ProviderOpaque _ => []
  end.

Inductive RawPayload :=
  | JsonPayload (v : Value)
  | ReplyPayload (skeleton : Value) (text : string) (path : ReplyPath).

(** [value_at_path_mut]: the place, if the tree has it. *)
Definition value_at_path (v : Value) (path : list string) : option (list Step) :=
  let place := map Key path in _ ← place_get place v; Some place.

(** [provider_opaque_reply_slot_mut]. *)
Definition provider_opaque_reply_slot (v : Value) : option (list Step) :=
  item ← get "item" v;
  if negb (bool_decide (get_str "item" item = Some "extension"))
     || negb (bool_decide (get_str "kind" item = Some "provider_opaque"))
  then None
  else
    wrapper ← get "data" item;
    provider ← get_str "provider" wrapper;
    data ← get "data" wrapper;
    let slot inner := _ ← place_get inner data; Some (Key "item" :: Key "data" :: Key "data" :: inner) in
    if String.eqb provider "anthropic" then
      match get_str "type" data with
      | Some kind => if String.eqb kind "thinking" then slot [Key "thinking"]
                     else if String.eqb kind "text" then slot [Key "text"] else None
      | None => None
      end
    else if String.eqb provider "gemini" then slot [Key "part"; Key "text"]
    else if String.eqb provider "openai" && bool_decide (get_str "type" data = Some "reasoning")
    then slot [Key "summary"; First; Key "text"]
    else None.

(** ** Markers *)

(** [{nonce:08x}] of a nonce below 4096. *)
Definition hex_digit (n : N) : ascii := ascii_of_N (if (n <? 10)%N then 48 + n else 87 + n).
Definition hex8 (n : N) : string :=
  "00000" ++ String (hex_digit (n / 256)) (String (hex_digit (n / 16 mod 16)) (String (hex_digit (n mod 16)) "")).
Definition marker_of (nonce : N) : string := "__haider_provider_opaque_reply_" ++ hex8 nonce ++ "__".
Arguments marker_of : simpl never.

Fixpoint count_value_string_marker (marker : string) (v : Value) : nat :=
  match v with
  | Str text => if String.eqb text marker then 1 else 0
  | Array values => sum_list (map (count_value_string_marker marker) values)
  | Object fields => sum_list (map (fun kv => count_value_string_marker marker kv.2) fields)
  | _ => 0
  end.

(** The first nonce of the range whose marker is not in the tree. *)
Fixpoint marker_from (nonce : N) (rest : nat) (v : Value) : option string :=
  match rest with
  | 0 => None
  | S rest =>
      if count_value_string_marker (marker_of nonce) v =? 0 then Some (marker_of nonce)
      else marker_from (nonce + 1) rest v
  end%nat.
Definition unique_raw_reply_marker (v : Value) : option string := marker_from 0 (N.to_nat 1024) v.

(** [iter_mut().any(f)]: the items after the first success are untouched. *)
Definition any_first {A} (f : A -> bool * A) : list A -> bool * list A :=
  fix any items :=
    match items with
    | [] => (false, [])
    | x :: items =>
        let '(found, x) := f x in
        if found then (true, x :: items) else let '(found, items) := any items in (found, x :: items)
    end.

(** Replaces the first occurrence, in the order of the tree. *)
Fixpoint replace_value_string_marker (marker : string) (replacement : Value) (v : Value) : bool * Value :=
  match v with
  | Str text => if String.eqb text marker then (true, replacement) else (false, v)
  | Array values =>
      let '(found, values) := any_first (replace_value_string_marker marker replacement) values in (found, Array values)
  | Object fields =>
      let '(found, fields) := any_first (fun kv =>
        let '(found, v) := replace_value_string_marker marker replacement kv.2 in (found, (kv.1, v))) fields in
      (found, Object fields)
  | _ => (false, v)
  end.

(** ** Promotion and materialization *)

(** A string tag among some. *)
Definition tag_in (tag : option string) (tags : list string) : bool :=
  match tag with Some t => existsb (String.eqb t) tags | None => false end.

Definition reply_path (v : Value) : option ReplyPath :=
  let kind := get_str "type" v in
  if tag_in kind ["item"] then
    let event := get_str "event" v in
    if tag_in event ["delta"] then
      if tag_in (d ← get "delta" v; get_str "delta" d) ["text"; "reasoning"] then Some DeltaText else None
    else if tag_in event ["started"; "completed"] then
      let item := i ← get "item" v; get_str "item" i in
      if tag_in item ["agent_message"; "incomplete_agent_message"] then Some ItemText
      else if tag_in item ["reasoning"] then Some ItemSummary else None
    else None
  else if tag_in kind ["peer.message"] then Some PeerMessagePath
  else if tag_in kind ["node_committed"] then
    let node := k ← get "kind" v; get_str "kind" k in
    if tag_in node ["assistant_commit"] then Some NodeText
    else if tag_in node ["agent"; "peer_turn"] then Some AgentNodeMessage else None
  else None.

(** The second half of [promote_value]. *)
Definition promote_reply (v : Value) : RawPayload :=
  match reply_path v with
  | None => JsonPayload v
  | Some path =>
      match value_at_path v (components path) with
      | None => JsonPayload v
      | Some place =>
          match place_get place v with
          | Some (Str text) => ReplyPayload (place_set place (Str "") v) text path
          | _ => JsonPayload v
          end
      end
  end.

(** [std::mem::take] leaves [Null] in the slot whatever it held. *)
Definition promote_value (v : Value) : option RawPayload :=
  marker ← unique_raw_reply_marker v;
  match provider_opaque_reply_slot v with
  | None => Some (promote_reply v)
  | Some place =>
      match place_get place v with
      | Some (Str text) => Some (ReplyPayload (place_set place (Str marker) v) text (ProviderOpaque marker))
      | _ => Some (promote_reply (place_set place Null v))
      end
  end.

Definition to_json_value (payload : RawPayload) : Value :=
  match payload with
  | JsonPayload v => v
  | ReplyPayload skeleton text (ProviderOpaque marker) =>
      (replace_value_string_marker marker (Str text) skeleton).2
  | ReplyPayload skeleton text path =>
      match value_at_path skeleton (components path) with
      | Some place => place_set place (Str text) skeleton
      | None => skeleton
      end
  end.

(** [Deref], [type_tag], [is_structurally_valid], [reply_text]. *)
Definition deref (payload : RawPayload) : Value :=
  match payload with JsonPayload v => v | ReplyPayload skeleton _ _ => skeleton end.
Definition type_tag (payload : RawPayload) : option string := get_str "type" (deref payload).
Definition is_structurally_valid (payload : RawPayload) : bool :=
  match type_tag payload with Some tag => negb (is_empty (trim tag)) | None => false end.
Definition reply_text (payload : RawPayload) : option string :=
  match payload with JsonPayload _ => None | ReplyPayload _ text _ => Some text end.
Definition replace_reply_text (text : string) (payload : RawPayload) : bool * RawPayload :=
  match payload with
  | JsonPayload v => (false, JsonPayload v)
  | ReplyPayload skeleton _ path => (true, ReplyPayload skeleton text path)
  end.

(** [bind_provider_opaque_reply]: the text goes in place of what the slot holds. *)
Definition bind_provider_opaque_reply (text : string) (payload : RawPayload) : option (bool * RawPayload) :=
  match payload with
  | ReplyPayload _ _ _ => Some (false, payload)
  | JsonPayload v =>
      marker ← unique_raw_reply_marker v;
      match provider_opaque_reply_slot v with
      | None => Some (false, payload)
      | Some place => Some (true, ReplyPayload (place_set place (Str marker) v) text (ProviderOpaque marker))
      end
  end.

Definition with_reply_placeholder (marker : string) (payload : RawPayload) : option RawPayload :=
  match payload with
  | JsonPayload _ => None
  | ReplyPayload skeleton _ (ProviderOpaque bound_marker) =>
      let '(found, v) := replace_value_string_marker bound_marker (Str marker) skeleton in
      if found then Some (JsonPayload v) else None
  | ReplyPayload skeleton _ path =>
      place ← value_at_path skeleton (components path); Some (JsonPayload (place_set place (Str marker) skeleton))
  end.

(** ** Serialization around the leaf *)

Fixpoint patched_marker_value (marker text : string) (v : Value) : Value :=
  match v with
  | Str s => if String.eqb s marker then Str text else Str s
  | Object fields => Object (map (fun kv => (kv.1, patched_marker_value marker text kv.2)) fields)
  | Array values => Array (map (patched_marker_value marker text) values)
  | other => other
  end.

(** The path that no other key is meant to match. *)
Definition NUL_KEY : string := String (ascii_of_N 0) "".

Fixpoint patched_value (path : list string) (text : string) (v : Value) {struct v} : Value :=
  match path with
  | [] => Str text
  | head :: tail =>
      match v with
      | Object fields =>
          Object (map (fun kv => (kv.1, patched_value (if String.eqb kv.1 head then tail else [NUL_KEY]) text kv.2)) fields)
      | Array values => Array (map (patched_value [NUL_KEY] text) values)
      | other => other
      end
  end.

Definition serialized (payload : RawPayload) : Value :=
  match payload with
  | JsonPayload v => v
  | ReplyPayload skeleton text (ProviderOpaque marker) => patched_marker_value marker text skeleton
  | ReplyPayload skeleton text path => patched_value (components path) text skeleton
  end.
