(* ===== verification/EnvelopeProps.v ===== *)
(** * What the raw payload keeps *)

From S2P Require Import Prelude RustStr EffectTypes Json Envelope.

Local Open Scope string_scope.

(** ** Places *)

Lemma entry_replace_same key v fields : entry key fields = Some v -> replace_entry key v fields = fields.
Proof.
  induction fields as [|[k w] fields IH]; cbn; [done|]. destruct (String.eqb k key); [by intros [= ->]|].
  intros E. by rewrite IH.
Qed.

Lemma entry_replace key v new fields : entry key fields = Some v -> entry key (replace_entry key new fields) = Some new.
Proof.
  induction fields as [|[k w] fields IH]; cbn; [done|]. destruct (String.eqb k key) eqn:Ek; cbn; rewrite Ek; auto.
Qed.

Lemma replace_replace key a b fields : replace_entry key a (replace_entry key b fields) = replace_entry key a fields.
Proof.
  induction fields as [|[k w] fields IH]; cbn; [done|]. destruct (String.eqb k key) eqn:Ek; cbn; rewrite Ek; [done|].
  by rewrite IH.
Qed.

Lemma step_set_same s v old : step_get s v = Some old -> step_set s old v = v.
Proof.
  destruct s as [key|]; destruct v as [| | | |[|w ws]|fields]; cbn; try done; [|by intros [= ->]].
  intros E. by rewrite entry_replace_same.
Qed.

Lemma step_get_set s v old new : step_get s v = Some old -> step_get s (step_set s new v) = Some new.
Proof.
  destruct s as [key|]; destruct v as [| | | |[|w ws]|fields]; cbn; try done. apply entry_replace.
Qed.

Lemma step_set_set s v a b : step_set s a (step_set s b v) = step_set s a v.
Proof.
  destruct s as [key|]; destruct v as [| | | |[|w ws]|fields]; cbn; try done. by rewrite replace_replace.
Qed.

Lemma place_set_same place : forall v old, place_get place v = Some old -> place_set place old v = v.
Proof.
  induction place as [|s place IH]; intros v old; cbn; [by intros [= ->]|].
  destruct (step_get s v) as [w|] eqn:E; cbn; [|done]. intros Eo. rewrite (IH _ _ Eo). by apply step_set_same.
Qed.

Lemma place_get_set place : forall v old new, place_get place v = Some old -> place_get place (place_set place new v) = Some new.
Proof.
  induction place as [|s place IH]; intros v old new; cbn; [done|].
  destruct (step_get s v) as [w|] eqn:E; cbn; [|done]. intros Eo. rewrite (step_get_set _ _ _ _ E). cbn. by eapply IH.
Qed.

Lemma place_set_set place : forall v old a b, place_get place v = Some old ->
  place_set place a (place_set place b v) = place_set place a v.
Proof.
  induction place as [|s place IH]; intros v old a b; cbn; [done|].
  destruct (step_get s v) as [w|] eqn:E; cbn; [|done]. intros Eo. rewrite (step_get_set _ _ _ _ E). cbn.
  by rewrite (IH _ _ _ _ Eo), step_set_set.
Qed.

Lemma value_at_path_some v path place : value_at_path v path = Some place -> place = map Key path /\ is_Some (place_get place v).
Proof.
  unfold value_at_path. destruct (place_get (map Key path) v) eqn:E; cbn; [|done]. intros [= <-]. by rewrite E.
Qed.

(** ** Markers *)

Fixpoint string_leaves (v : Value) : list string :=
  match v with
  | Str s => [s]
  | Array values => concat (map string_leaves values)
  | Object fields => concat (map (fun kv => string_leaves kv.2) fields)
  | _ => []
  end.

Lemma sum_list_zero l : sum_list l = 0 -> Forall (eq 0) l.
Proof. induction l as [|x l IH]; cbn; intros E; constructor; [lia|]. apply IH. lia. Qed.

Lemma count_leaf m v : count_value_string_marker m v <> 0 -> m ∈ string_leaves v.
Proof.
  induction v as [|b|t|s|vs IH|fs IH] using value_ind'; cbn; try done.
  - destruct (String.eqb s m) eqn:E; [|done]. apply String.eqb_eq in E as ->. set_solver.
  - induction IH as [|v vs Hv _ IHvs]; cbn; [done|]. intros Hne. apply elem_of_app.
    destruct (decide (count_value_string_marker m v = 0)); [right; apply IHvs; lia|left; auto].
  - induction IH as [|v vs Hv _ IHvs]; cbn; [done|]. intros Hne. apply elem_of_app.
    destruct (decide (count_value_string_marker m v.2 = 0)); [right; apply IHvs; lia|left; auto].
Qed.

Lemma absent_leaf m v : count_value_string_marker m v = 0 -> m ∉ string_leaves v.
Proof.
  induction v as [|b|t|s|vs IH|fs IH] using value_ind'; cbn; try set_solver.
  - destruct (String.eqb_spec s m); set_solver.
  - induction IH as [|v vs Hv _ IHvs]; cbn; [set_solver|]. intros E. rewrite elem_of_app.
    intros [?|?]; [apply Hv in H; lia|apply IHvs in H; lia].
  - induction IH as [|v vs Hv _ IHvs]; cbn; [set_solver|]. intros E. rewrite elem_of_app.
    intros [?|?]; [apply Hv in H; lia|apply IHvs in H; lia].
Qed.

Fixpoint nonces (from : N) (n : nat) : list N :=
  match n with 0 => [] | S n => from :: nonces (from + 1) n end.

Lemma marker_from_none v : forall rest nonce, marker_from nonce rest v = None ->
  forall m, m ∈ map marker_of (nonces nonce rest) -> m ∈ string_leaves v.
Proof.
  induction rest as [|rest IH]; intros nonce; cbn; [set_solver|].
  destruct (Nat.eqb_spec (count_value_string_marker (marker_of nonce) v) 0) as [E|E]; [done|].
  intros En m [->|Hm]%elem_of_cons; [by apply count_leaf|by eapply IH].
Qed.

Lemma marker_from_some v m : forall rest nonce, marker_from nonce rest v = Some m -> count_value_string_marker m v = 0.
Proof.
  induction rest as [|rest IH]; intros nonce; cbn; [done|].
  destruct (Nat.eqb_spec (count_value_string_marker (marker_of nonce) v) 0) as [E|E]; [by intros [= <-]|apply IH].
Qed.

Lemma hex_digit_inj a b : (a < 16)%N -> (b < 16)%N -> hex_digit a = hex_digit b -> a = b.
Proof.
  assert (Hv : forall n, (n < 16)%N -> N_of_ascii (hex_digit n) = (if (n <? 10)%N then 48 + n else 87 + n)%N).
  { intros n Hn. apply N_ascii_embedding. destruct (N.ltb_spec n 10); lia. }
  intros Ha Hb E%(f_equal N_of_ascii). rewrite (Hv a Ha), (Hv b Hb) in E.
  destruct (N.ltb_spec a 10), (N.ltb_spec b 10); lia.
Qed.

Lemma marker_of_inj a b : (a < 4096)%N -> (b < 4096)%N -> marker_of a = marker_of b -> a = b.
Proof.
  intros Ha Hb E. unfold marker_of, hex8 in E. cbn in E. injection E as E1 E2 E3.
  apply hex_digit_inj in E1; [|apply N.Div0.div_lt_upper_bound; lia..].
  apply hex_digit_inj in E2; [|apply N.mod_lt; lia..]. apply hex_digit_inj in E3; [|apply N.mod_lt; lia..].
  rewrite (N.div_mod' a 16), (N.div_mod' b 16), (N.div_mod' (a / 16) 16), (N.div_mod' (b / 16) 16), E2, E3.
  rewrite !N.Div0.div_div. change (16 * 16)%N with 256%N. by rewrite E1.
Qed.

Lemma nonces_spec n : forall from k, k ∈ nonces from n <-> (from <= k < from + N.of_nat n)%N.
Proof.
  induction n as [|n IH]; intros from k; cbn; [rewrite elem_of_nil; lia|]. rewrite elem_of_cons, IH. lia.
Qed.

Lemma markers_distinct n : forall from, (from + N.of_nat n <= 4096)%N -> NoDup (map marker_of (nonces from n)).
Proof.
  induction n as [|n IH]; intros from Hle; cbn; [constructor|]. constructor; [|apply IH; lia].
  intros (k & E & Hk%nonces_spec)%list_elem_of_fmap. apply marker_of_inj in E; lia.
Qed.

Lemma nonces_length n : forall from, length (nonces from n) = n.
Proof. induction n as [|n IH]; intros from; cbn; [done|]. by rewrite IH. Qed.

Lemma marker_exists v : length (string_leaves v) < 1024 -> is_Some (unique_raw_reply_marker v).
Proof.
  intros Hlen. unfold unique_raw_reply_marker. destruct (marker_from 0 _ v) as [m|] eqn:E; [done|].
  pose proof (marker_from_none _ _ _ E) as Hin.
  pose proof (submseteq_length _ _ (NoDup_submseteq _ _ (markers_distinct (N.to_nat 1024) 0 ltac:(lia)) Hin)) as Hle.
  rewrite length_map, nonces_length in Hle. lia.
Qed.

(** ** A marker in its place *)

Section Marked.
Variables (marker : string).

Lemma any_first_none {A} (f : A -> bool * A) l : Forall (fun x => f x = (false, x)) l -> any_first f l = (false, l).
Proof. induction 1 as [|x l Hx _ IH]; cbn; [done|]. by rewrite Hx, IH. Qed.

Lemma count_array vs : count_value_string_marker marker (Array vs) = 0 ->
  Forall (fun v => count_value_string_marker marker v = 0) vs.
Proof. intros E%sum_list_zero. rewrite List.Forall_map in E. eapply Forall_impl; [exact E|]. cbn. auto. Qed.
Lemma count_object fs : count_value_string_marker marker (Object fs) = 0 ->
  Forall (fun kv => count_value_string_marker marker kv.2 = 0) fs.
Proof. intros E%sum_list_zero. rewrite List.Forall_map in E. eapply Forall_impl; [exact E|]. cbn. auto. Qed.

Lemma Forall_modus {A} (P Q : A -> Prop) l : Forall (fun x => P x -> Q x) l -> Forall P l -> Forall Q l.
Proof. induction 1; intros Hp; inversion Hp; subst; constructor; auto. Qed.

Lemma replace_absent r v : count_value_string_marker marker v = 0 -> replace_value_string_marker marker r v = (false, v).
Proof.
  induction v as [|b|t|s|vs IH|fs IH] using value_ind'; try done.
  - cbn. by destruct (String.eqb s marker).
  - intros Hc%count_array. cbn [replace_value_string_marker].
    rewrite any_first_none; [done|]. exact (Forall_modus _ _ _ IH Hc).
  - intros Hc%count_object. cbn [replace_value_string_marker].
    rewrite any_first_none; [done|]. eapply Forall_impl; [exact (Forall_modus _ _ _ IH Hc)|].
    intros [k v] E. cbn in *. by rewrite E.
Qed.

Lemma patched_absent text v : count_value_string_marker marker v = 0 -> patched_marker_value marker text v = v.
Proof.
  induction v as [|b|t|s|vs IH|fs IH] using value_ind'; try done.
  - cbn. by destruct (String.eqb s marker).
  - intros Hc%count_array. cbn [patched_marker_value]. f_equal. pose proof (Forall_modus _ _ _ IH Hc) as H.
    induction H as [|v vs Hv _ IHvs]; cbn; [done|]. rewrite Hv. f_equal. inversion IH; inversion Hc; subst. by apply IHvs.
  - intros Hc%count_object. cbn [patched_marker_value]. f_equal. pose proof (Forall_modus _ _ _ IH Hc) as H.
    induction H as [|[k v] vs Hv _ IHvs]; cbn in *; [done|]. rewrite Hv. f_equal. inversion IH; inversion Hc; subst. by apply IHvs.
Qed.

(** Both ways of putting the text back find the marker and nothing else. *)
Lemma marked_entry text key c fields (place : list Step) :
  Forall (fun kv => count_value_string_marker marker kv.2 = 0) fields -> entry key fields = Some c ->
  replace_value_string_marker marker (Str text) (place_set place (Str marker) c) = (true, place_set place (Str text) c) ->
  patched_marker_value marker text (place_set place (Str marker) c) = place_set place (Str text) c ->
  any_first (fun kv => let '(found, v) := replace_value_string_marker marker (Str text) kv.2 in (found, (kv.1, v)))
    (replace_entry key (place_set place (Str marker) c) fields)
  = (true, replace_entry key (place_set place (Str text) c) fields) /\
  map (fun kv => (kv.1, patched_marker_value marker text kv.2)) (replace_entry key (place_set place (Str marker) c) fields)
  = replace_entry key (place_set place (Str text) c) fields.
Proof.
  intros Hc He Hr Hp. induction fields as [|[k v] fields IH]; [done|]. apply Forall_cons in Hc as [Hv Hc]. cbn in *.
  destruct (String.eqb k key).
  - injection He as ->. cbn. rewrite Hr, Hp. split; [done|]. f_equal.
    clear IH. induction Hc as [|[k' v'] fields' Hv' _ IHf]; cbn in *; [done|]. by rewrite (patched_absent _ _ Hv'), IHf.
  - cbn. destruct (IH Hc He) as [-> ->]. rewrite (replace_absent _ _ Hv), (patched_absent _ _ Hv). done.
Qed.

Lemma marked text place : forall v old, count_value_string_marker marker v = 0 -> place_get place v = Some old ->
  replace_value_string_marker marker (Str text) (place_set place (Str marker) v) = (true, place_set place (Str text) v) /\
  patched_marker_value marker text (place_set place (Str marker) v) = place_set place (Str text) v.
Proof.
  induction place as [|s place IH]; intros v old Hc; cbn [place_get place_set].
  { intros _. cbn. by rewrite String.eqb_refl. }
  destruct (step_get s v) as [c|] eqn:Es; cbn; [|done]. intros Ho.
  destruct s as [key|]; destruct v as [| | | |[|w ws]|fields]; cbn in Es; try done.
  - apply count_object in Hc. assert (Hcc : count_value_string_marker marker c = 0).
    { clear -Hc Es. induction Hc as [|[k v] fields Hv _ IHf]; [done|]. cbn in *. destruct (String.eqb k key); [by injection Es as ->|auto]. }
    destruct (IH c old Hcc Ho) as [H1 H2]. destruct (marked_entry _ _ _ _ _ Hc Es H1 H2) as [H3 H4]. cbn. by rewrite H3, H4.
  - injection Es as ->. apply count_array in Hc as [Hw Hws]%Forall_cons. destruct (IH c old Hw Ho) as [H1 H2]. cbn.
    rewrite H1, H2. split; [done|]. do 2 f_equal. clear -Hws. induction Hws as [|v vs Hv _ IHv]; cbn; [done|].
    by rewrite (patched_absent _ _ Hv), IHv.
Qed.
End Marked.

(** ** A leaf at a path *)

(** No object of the tree has the key [NUL_KEY]. *)
Fixpoint no_nul_keys (v : Value) : bool :=
  match v with
  | Array values => forallb no_nul_keys values
  | Object fields => forallb (fun kv => negb (String.eqb kv.1 NUL_KEY) && no_nul_keys kv.2) fields
  | _ => true
  end.

Lemma patched_nul text v : no_nul_keys v = true -> patched_value [NUL_KEY] text v = v.
Proof.
  induction v as [|b|t|s|vs IH|fs IH] using value_ind'; try done.
  - cbn. intros H. f_equal. induction IH as [|v vs Hv _ IHvs]; cbn in *; [done|]. apply andb_true_iff in H as [H1 H2].
    by rewrite (Hv H1), (IHvs H2).
  - cbn. intros H. f_equal. induction IH as [|[k v] fs Hv _ IHfs]; cbn in *; [done|].
    apply andb_true_iff in H as [[H0 H1]%andb_true_iff H2]. apply negb_true_iff in H0.
    change (String.eqb k (String (ascii_of_N 0) "")) with (String.eqb k NUL_KEY). rewrite H0.
    fold NUL_KEY. by rewrite (Hv H1), (IHfs H2).
Qed.

Lemma patched_entries head tail text c new fields :
  NoDup fields.*1 -> forallb (fun kv => negb (String.eqb kv.1 NUL_KEY) && no_nul_keys kv.2) fields = true ->
  entry head fields = Some c -> patched_value tail text new = place_set (map Key tail) (Str text) c ->
  map (fun kv => (kv.1, patched_value (if String.eqb kv.1 head then tail else [NUL_KEY]) text kv.2)) (replace_entry head new fields)
  = replace_entry head (place_set (map Key tail) (Str text) c) fields.
Proof.
  intros Hn Hz He Hp. induction fields as [|[k v] fields IH]; [done|]. cbn in *.
  apply NoDup_cons in Hn as [Hk Hn]. apply andb_true_iff in Hz as [[_ Hv]%andb_true_iff Hz].
  destruct (String.eqb k head) eqn:Ek.
  - injection He as ->. cbn. rewrite Ek, Hp. f_equal. apply String.eqb_eq in Ek as ->. clear IH.
    induction fields as [|[k' v'] fields IHf]; [done|]. cbn in *. apply andb_true_iff in Hz as [[_ Hv']%andb_true_iff Hz].
    apply not_elem_of_cons in Hk as [Hne Hk]. apply NoDup_cons in Hn as [_ Hn].
    destruct (String.eqb_spec k' head); [congruence|]. rewrite (patched_nul _ _ Hv'). f_equal. by apply IHf.
  - cbn. rewrite Ek, (patched_nul _ _ Hv). f_equal. by apply IH.
Qed.

Lemma patched_at_path text path : forall v old, keys_unique v -> no_nul_keys v = true ->
  place_get (map Key path) v = Some old ->
  patched_value path text (place_set (map Key path) (Str "") v) = place_set (map Key path) (Str text) v.
Proof.
  induction path as [|head tail IH]; intros v old Hu Hz; cbn [map place_get place_set].
  { intros _. by destruct v. }
  destruct v as [| | | | |fields]; cbn; try done. destruct (entry head fields) as [c|] eqn:Ee; cbn; [|done]. intros Ho.
  inversion Hu as [| | | | |? Hn Hall]; subst. f_equal. apply patched_entries; [done|done|done|]. eapply IH; [| |exact Ho].
  - clear -Hall Ee. induction Hall as [|[k v] fields Hv _ IHf]; [done|]. cbn in *. destruct (String.eqb k head); [by injection Ee as ->|auto].
  - clear -Hz Ee. cbn in Hz. induction fields as [|[k v] fields IHf]; [done|]. cbn in *.
    apply andb_true_iff in Hz as [[_ Hv]%andb_true_iff Hz]. destruct (String.eqb k head); [by injection Ee as ->|auto].
Qed.

(** ** Promotion *)

(** The provider slot, if there is one, holds text. *)
Definition slot_is_text (v : Value) : bool :=
  match provider_opaque_reply_slot v with
  | None => true
  | Some place => match place_get place v with Some (Str _) => true | _ => false end
  end.

Lemma slot_place v place : provider_opaque_reply_slot v = Some place -> is_Some (place_get place v).
Proof.
  unfold provider_opaque_reply_slot, get. destruct v as [| | | | |fields]; cbn; try done.
  destruct (entry "item" fields) as [item|] eqn:Ei; cbn; [|done]. destruct (_ || _); [done|].
  destruct item as [| | | | |item]; cbn; try done. destruct (entry "data" item) as [wrapper|] eqn:Ew; cbn; [|done].
  unfold get_str, get. destruct wrapper as [| | | | |wrapper]; cbn; try done.
  destruct (entry "provider" wrapper) as [provider|]; cbn; [|done]. destruct (as_str provider) as [p|]; cbn; [|done].
  destruct (entry "data" wrapper) as [data|] eqn:Ed; cbn; [|done].
  assert (Hslot : forall inner, (_ ← place_get inner data; Some (Key "item" :: Key "data" :: Key "data" :: inner)) = Some place ->
    is_Some (place_get place (Object fields))).
  { intros inner. destruct (place_get inner data) as [x|] eqn:Ex; cbn; [|done]. intros [= <-]. cbn.
    rewrite Ei. cbn. rewrite Ew. cbn. rewrite Ed. cbn. by rewrite Ex. }
  destruct (String.eqb p "anthropic").
  { destruct (_ ≫= as_str) as [kind|]; [|done]. destruct (String.eqb kind "thinking"); [apply Hslot|].
    destruct (String.eqb kind "text"); [apply Hslot|done]. }
  destruct (String.eqb p "gemini"); [apply Hslot|]. destruct (_ && _); [apply Hslot|done].
Qed.

Lemma promote_reply_lossless v :
  to_json_value (promote_reply v) = v /\
  (keys_unique v -> no_nul_keys v = true -> serialized (promote_reply v) = v).
Proof.
  unfold promote_reply. destruct (reply_path v) as [path|] eqn:Er; [|done].
  destruct (value_at_path v (components path)) as [place|] eqn:Ep; [|done].
  destruct (value_at_path_some _ _ _ Ep) as [-> Hs].
  destruct (place_get (map Key (components path)) v) as [[| | |text| |]|] eqn:Eg; try done.
  assert (Hno : forall m, path <> ProviderOpaque m).
  { intros m ->. unfold reply_path in Er. by repeat (destruct (tag_in _ _)). }
  assert (Ha : value_at_path (place_set (map Key (components path)) (Str "") v) (components path) = Some (map Key (components path))).
  { unfold value_at_path. by rewrite (place_get_set _ _ _ _ Eg). }
  split.
  - replace (to_json_value _) with (place_set (map Key (components path)) (Str text) (place_set (map Key (components path)) (Str "") v)).
    2: { destruct path; try (cbn [to_json_value]; by rewrite Ha). by destruct (Hno marker). }
    rewrite (place_set_set _ _ _ _ _ Eg). by apply place_set_same.
  - intros Hu Hz. replace (serialized _) with (patched_value (components path) text (place_set (map Key (components path)) (Str "") v)).
    2: { destruct path; try done. by destruct (Hno marker). }
    rewrite (patched_at_path _ _ _ _ Hu Hz Eg). by apply place_set_same.
Qed.

(** ** What a reply is

    The shapes of a payload that carries a reply, as a table: the strings that
    must stand at some places of the tree, and the place of the reply's leaf. *)
Definition string_at (place : list Step) (v : Value) : option string := leaf ← place_get place v; as_str leaf.
Arguments string_at : simpl never.

Record Shape := { tags : list (list Step * list string); leaf : list Step }.

Definition fits (shape : Shape) (v : Value) : Prop :=
  Forall (fun tag => exists s, string_at tag.1 v = Some s /\ s ∈ tag.2) shape.(tags).

Definition item_shape (events : list string) (at_ : string) (kinds : list string) (text : string) : Shape := {|
  tags := [([Key "type"], ["item"]); ([Key "event"], events); ([Key at_; Key at_], kinds)];
  leaf := [Key at_; Key text] |}.
Definition node_shape (kinds : list string) (text : list Step) : Shape := {|
  tags := [([Key "type"], ["node_committed"]); ([Key "kind"; Key "kind"], kinds)];
  leaf := Key "kind" :: text |}.
Definition opaque_shape (provider : string) (type : list string) (text : list Step) : Shape := {|
  tags := [([Key "item"; Key "item"], ["extension"]); ([Key "item"; Key "kind"], ["provider_opaque"]);
           ([Key "item"; Key "data"; Key "provider"], [provider])] ++
          match type with [] => [] | _ => [([Key "item"; Key "data"; Key "data"; Key "type"], type)] end;
  leaf := Key "item" :: Key "data" :: Key "data" :: text |}.

Definition reply_shapes : list Shape :=
  [item_shape ["delta"] "delta" ["text"; "reasoning"] "text";
   item_shape ["started"; "completed"] "item" ["agent_message"; "incomplete_agent_message"] "text";
   item_shape ["started"; "completed"] "item" ["reasoning"] "summary";
   {| tags := [([Key "type"], ["peer.message"])]; leaf := [Key "message"] |};
   node_shape ["assistant_commit"] [Key "text"];
   node_shape ["agent"; "peer_turn"] [Key "message"; Key "message"]].

Definition opaque_shapes : list Shape :=
  [opaque_shape "anthropic" ["thinking"] [Key "thinking"];
   opaque_shape "anthropic" ["text"] [Key "text"];
   opaque_shape "gemini" [] [Key "part"; Key "text"];
   opaque_shape "openai" ["reasoning"] [Key "summary"; First; Key "text"]].

(** The leaf at a place is a reply's text. *)
Definition reply_leaf (v : Value) (place : list Step) (text : string) : Prop :=
  (exists shape, shape ∈ (opaque_shapes ++ reply_shapes)%list /\ fits shape v /\ place = shape.(leaf)) /\
  place_get place v = Some (Str text).

Lemma get_str_at key v : get_str key v = string_at [Key key] v.
Proof. destruct v as [| | | | |fields]; cbn; try done. unfold string_at. cbn. by destruct (entry key fields). Qed.

Lemma get_str_under k1 k2 v : (w ← get k1 v; get_str k2 w) = string_at [Key k1; Key k2] v.
Proof.
  destruct v as [| | | | |fields]; cbn; try done. unfold string_at. cbn. destruct (entry k1 fields) as [w|]; [|done]. cbn.
  rewrite get_str_at. done.
Qed.

Lemma tag_in_spec tag ts : tag_in tag ts = true <-> exists s, tag = Some s /\ s ∈ ts.
Proof.
  destruct tag as [t|]; cbn; [|naive_solver]. rewrite existsb_exists. split.
  - intros (x & Hx & ->%String.eqb_eq). exists x. by rewrite list_elem_of_In.
  - intros (s & [= ->] & Hs). exists s. rewrite <- list_elem_of_In. by rewrite String.eqb_refl.
Qed.

(** One tag of a shape that fits. *)
Ltac use_tags :=
  repeat match goal with
  | H : fits _ _ |- _ => unfold fits in H; cbn in H
  | H : Forall _ (_ :: _) |- _ => let T := fresh "T" in apply Forall_cons in H as [T H]; cbn in T
  | H : Forall _ [] |- _ => clear H
  | H : exists s, _ |- _ => destruct H as (? & ? & H)
  | H : _ ∈ _ :: _ |- _ => apply elem_of_cons in H as [->|H]
  | H : _ ∈ [] |- _ => by apply elem_of_nil in H
  end.

Lemma reply_path_sound v path : reply_path v = Some path ->
  exists shape, shape ∈ reply_shapes /\ fits shape v /\ shape.(leaf) = map Key (components path).
Proof.
  unfold reply_path. rewrite !get_str_at, !get_str_under. intros E.
  repeat match type of E with context [if tag_in ?t ?ts then _ else _] =>
    let Et := fresh "Et" in destruct (tag_in t ts) eqn:Et; [apply tag_in_spec in Et|clear Et] end;
    try done; injection E as <-;
    [exists (item_shape ["delta"] "delta" ["text"; "reasoning"] "text")
    |exists (item_shape ["started"; "completed"] "item" ["agent_message"; "incomplete_agent_message"] "text")
    |exists (item_shape ["started"; "completed"] "item" ["reasoning"] "summary")
    |exists {| tags := [([Key "type"], ["peer.message"])]; leaf := [Key "message"] |}
    |exists (node_shape ["assistant_commit"] [Key "text"])
    |exists (node_shape ["agent"; "peer_turn"] [Key "message"; Key "message"])].
  all: split; [unfold reply_shapes; rewrite !elem_of_cons; tauto|].
  all: split; [|done]; unfold fits; cbn; auto.
Qed.

Lemma reply_path_complete v shape : shape ∈ reply_shapes -> fits shape v ->
  exists path, reply_path v = Some path /\ shape.(leaf) = map Key (components path).
Proof.
  unfold reply_shapes, reply_path. rewrite !get_str_at, !get_str_under, !elem_of_cons, elem_of_nil.
  intros Hs Hf. destruct_or! Hs; subst; try done; use_tags;
    repeat match goal with E : string_at ?p v = Some _ |- context [string_at ?p v] => rewrite E end;
    eexists; by split.
Qed.

(** Below a key. *)
Lemma place_under key v w place : get key v = Some w -> place_get (Key key :: place) v = place_get place w.
Proof. destruct v as [| | | | |fields]; cbn; try done. by intros ->. Qed.
Lemma string_under key v w place : get key v = Some w -> string_at (Key key :: place) v = string_at place w.
Proof. intros E. unfold string_at. by rewrite (place_under _ _ _ _ E). Qed.
Lemma string_under_some key v place s :
  string_at (Key key :: place) v = Some s -> exists w, get key v = Some w.
Proof. unfold string_at. destruct v as [| | | | |fields]; cbn; try done. destruct (entry key fields); [eauto|done]. Qed.

Lemma slot_sound v place : provider_opaque_reply_slot v = Some place ->
  exists shape, shape ∈ opaque_shapes /\ fits shape v /\ shape.(leaf) = place.
Proof.
  unfold provider_opaque_reply_slot. destruct (get "item" v) as [item|] eqn:Ei; [|done]. cbn.
  rewrite !get_str_at. rewrite <- !(string_under "item" v item) by done.
  case_bool_decide as E1; [|done]. case_bool_decide as E2; [|done]. cbn.
  destruct (get "data" item) as [wrapper|] eqn:Ew; [|done]. cbn. rewrite !get_str_at.
  rewrite <- (string_under "data" item wrapper), <- (string_under "item" v item) by done.
  destruct (string_at [Key "item"; Key "data"; Key "provider"] v) as [provider|] eqn:Ep; [|done]. cbn.
  destruct (get "data" wrapper) as [data|] eqn:Ed; [|done]. cbn. rewrite !get_str_at.
  rewrite <- (string_under "data" wrapper data), <- (string_under "data" item wrapper), <- (string_under "item" v item) by done.
  assert (Hfit : forall p ts text, p = provider ->
    (ts = [] \/ exists s, string_at [Key "item"; Key "data"; Key "data"; Key "type"] v = Some s /\ s ∈ ts) ->
    fits (opaque_shape p ts text) v).
  { intros p ts text -> Hts. unfold fits. cbn. repeat (constructor; [eexists; cbn; split; [done|set_solver]|]).
    destruct ts; [constructor|]. constructor; [|constructor]. destruct Hts as [?|Hts]; [done|exact Hts]. }
  intros E. repeat match type of E with
  | context [String.eqb ?a ?b] => destruct (String.eqb_spec a b) as [->|?]; cbn in E
  | context [match string_at ?p v with _ => _ end] => let Et := fresh "Et" in destruct (string_at p v) as [?|] eqn:Et
  | context [bool_decide ?P] => destruct (decide P); [rewrite bool_decide_eq_true_2 in E by done|rewrite bool_decide_eq_false_2 in E by done]
  | (_ ← ?x; _) = _ => destruct x; [cbn in E; injection E as <-|done]
  end; try done.
  - exists (opaque_shape "anthropic" ["thinking"] [Key "thinking"]).
    split; [set_solver|]. split; [|done]. apply Hfit; [done|right; set_solver].
  - exists (opaque_shape "anthropic" ["text"] [Key "text"]).
    split; [set_solver|]. split; [|done]. apply Hfit; [done|right; set_solver].
  - exists (opaque_shape "gemini" [] [Key "part"; Key "text"]).
    split; [set_solver|]. split; [|done]. apply Hfit; [done|by left].
  - exists (opaque_shape "openai" ["reasoning"] [Key "summary"; First; Key "text"]).
    split; [set_solver|]. split; [|done]. apply Hfit; [done|right; set_solver].
Qed.

Lemma slot_complete v shape text :
  shape ∈ opaque_shapes -> fits shape v -> place_get shape.(leaf) v = Some (Str text) ->
  provider_opaque_reply_slot v = Some shape.(leaf).
Proof.
  intros Hs Hf. unfold opaque_shapes in Hs. rewrite !elem_of_cons, elem_of_nil in Hs.
  destruct_or! Hs; subst; try done; use_tags; cbn [opaque_shape leaf].
  all: match goal with E : string_at [Key "item"; Key "data"; Key "provider"] ?u = Some _ |- _ =>
    destruct (string_under_some _ _ _ _ E) as [item Ei]; rewrite (string_under _ _ _ _ Ei) in E;
    destruct (string_under_some _ _ _ _ E) as [wrapper Ew]; rewrite (string_under _ _ _ _ Ew) in E end.
  all: rewrite (place_under _ _ _ _ Ei), (place_under _ _ _ _ Ew).
  all: destruct (get "data" wrapper) as [data|] eqn:Ed;
    [rewrite (place_under _ _ _ _ Ed)|destruct wrapper; cbn in *; by rewrite ?Ed].
  all: repeat match goal with
    | E : string_at (Key "item" :: _) ?u = _ |- _ => rewrite (string_under _ _ _ _ Ei) in E
    | E : string_at (Key "data" :: _) ?u = _, H : get "data" ?u = Some _ |- _ => rewrite (string_under _ _ _ _ H) in E
    end.
  all: unfold provider_opaque_reply_slot; rewrite Ei; cbn -[place_get]; rewrite !get_str_at.
  all: repeat match goal with E : string_at _ ?u = _, H : get "data" ?u = Some _, H2 : get "item" _ = Some ?u |- _ => rewrite E; clear E end; cbn -[place_get].
  all: rewrite Ew; cbn -[place_get]; rewrite !get_str_at.
  all: match goal with E : string_at _ ?u = _ |- context [string_at _ ?u] => rewrite E end; cbn -[place_get].
  all: rewrite Ed; cbn -[place_get]; rewrite ?get_str_at.
  all: repeat match goal with E : string_at _ ?u = _ |- context [string_at _ ?u] => rewrite E; clear E end; cbn -[place_get].
  all: by intros ->.
Qed.

(** The reply taken out of a tree: nothing when it has none, otherwise the
    leaf's text, with a placeholder that is empty or occurs nowhere else. *)
Definition takes_reply (v : Value) (payload : RawPayload) : Prop :=
  match payload with
  | JsonPayload v' => v' = v /\ forall place text, ~ reply_leaf v place text
  | ReplyPayload skeleton text path => exists place placeholder,
      reply_leaf v place text /\ skeleton = place_set place (Str placeholder) v /\
      match path with
      | ProviderOpaque marker => placeholder = marker /\ marker ∉ string_leaves v
      | _ => placeholder = ""
      end
  end.

Lemma promote_reply_takes v : provider_opaque_reply_slot v = None -> takes_reply v (promote_reply v).
Proof.
  intros Es.
  assert (Hno : forall place text, reply_leaf v place text ->
    exists path, reply_path v = Some path /\ place = map Key (components path) /\ place_get place v = Some (Str text)).
  { intros place text [(shape & [Hs|Hs]%elem_of_app & Hf & ->) Hg].
    - by rewrite (slot_complete _ _ _ Hs Hf Hg) in Es.
    - destruct (reply_path_complete _ _ Hs Hf) as (path & ? & ?). eauto. }
  unfold promote_reply. destruct (reply_path v) as [path|] eqn:Er.
  2: { split; [done|]. intros place text Hl. by destruct (Hno _ _ Hl) as (? & ? & _). }
  unfold value_at_path. destruct (place_get (map Key (components path)) v) as [w|] eqn:Eg; cbn.
  2: { split; [done|]. intros place text Hl. destruct (Hno _ _ Hl) as (? & [= <-] & -> & ?). congruence. }
  rewrite Eg. destruct w as [| | |text| |];
    try (split; [done|]; intros place t Hl; destruct (Hno _ _ Hl) as (? & [= <-] & -> & ?); congruence).
  destruct (reply_path_sound _ _ Er) as (shape & Hs & Hf & El).
  exists (map Key (components path)), "". repeat split; [|done|].
  - exists shape. rewrite elem_of_app. auto.
  - destruct path; try done. unfold reply_path in Er. by repeat (destruct (tag_in _ _)).
Qed.

(** C35: Reading a payload loses nothing and finds its reply.  A JSON tree with
    fewer than 1,024 strings whose provider slot, if any, holds text can be
    promoted.  When the tree has one of the shapes that carry a reply (an agent
    message, a reasoning summary, a delta, a peer message, a committed
    assistant, agent or peer-turn node, or a provider's thinking or text block)
    and its leaf is a string, exactly that text is taken out, leaving an empty
    string or a marker that occurs nowhere else; otherwise the tree is kept
    whole.  Materializing the payload gives back exactly the tree it was read
    from, and so does serializing it around its leaf when every object of the
    tree has distinct keys and none has the key "\0". *)
Theorem promotion_lossless v :
  length (string_leaves v) < 1024 -> slot_is_text v = true ->
  exists payload, promote_value v = Some payload /\ takes_reply v payload /\ to_json_value payload = v /\
    (keys_unique v -> no_nul_keys v = true -> serialized payload = v).
Proof.
  intros Hlen Hslot. destruct (marker_exists v Hlen) as [marker Em]. unfold promote_value. rewrite Em. cbn.
  pose proof (marker_from_some _ _ _ _ Em) as Hc. unfold slot_is_text in Hslot.
  destruct (provider_opaque_reply_slot v) as [place|] eqn:Es.
  - destruct (place_get place v) as [[| | |text| |]|] eqn:Eg; try done. eexists. split; [done|].
    split; [|destruct (marked marker text place v _ Hc Eg) as [H1 H2]; cbn [to_json_value serialized]; rewrite H1, H2; cbn;
      by rewrite (place_set_same _ _ _ Eg)].
    destruct (slot_sound _ _ Es) as (shape & Hs & Hf & <-). exists shape.(leaf), marker.
    repeat split; [exists shape; rewrite elem_of_app; auto|done|]. by apply absent_leaf.
  - eexists. split; [done|]. split; [by apply promote_reply_takes|apply promote_reply_lossless].
Qed.

(** ** Where it does lose something *)

Definition opaque_thinking (slot : Value) : Value :=
  Object [("event", Str "completed");
          ("item", Object [("data", Object [("data", Object [("thinking", slot); ("type", Str "thinking")]); ("provider", Str "anthropic")]);
                           ("item", Str "extension"); ("kind", Str "provider_opaque")]);
          ("type", Str "item")].

(** A provider continuation whose text slot does not hold a string loses it:
    the slot is taken before its kind is looked at, and the tree keeps a null in
    its place. *)
Theorem promotion_drops_structured_slot n :
  promote_value (opaque_thinking (Number n)) = Some (JsonPayload (opaque_thinking Null)) /\
  opaque_thinking (Number n) <> opaque_thinking Null.
Proof. split; [reflexivity|discriminate]. Qed.

Definition message_with_extra (extra : Value) : Value :=
  Object [("event", Str "completed");
          ("item", Object [("extra", extra); ("item", Str "agent_message"); ("text", Str "hello")]); ("type", Str "item")].

(** Serializing a promoted reply overwrites the value of any key "\0" in a
    subtree off the reply's path with the reply's own text: the path handed to
    such subtrees, which is meant to match no key, matches that one. *)
Theorem nul_key_overwritten n :
  exists payload, promote_value (message_with_extra (Object [(NUL_KEY, Number n)])) = Some payload /\
    to_json_value payload = message_with_extra (Object [(NUL_KEY, Number n)]) /\
    serialized payload = message_with_extra (Object [(NUL_KEY, Str "hello")]).
Proof. eexists. split; [reflexivity|]. split; reflexivity. Qed.

Lemma promotion_lossless_witness :
  let v := message_with_extra (Object [("n", Number "1")]) in
  exists payload, promote_value v = Some payload /\ reply_text payload = Some "hello" /\ to_json_value payload = v /\ serialized payload = v.
Proof.
  cbv zeta. destruct (promotion_lossless (message_with_extra (Object [("n", Number "1")]))) as (payload & E & _ & H1 & H2).
  - vm_compute. lia.
  - reflexivity.
  - exists payload. split; [done|]. split; [|split; [done|]].
    + assert (E' := E). vm_compute in E'. injection E' as <-. reflexivity.
    + apply H2; [|reflexivity]. repeat (constructor; cbn); apply (bool_decide_unpack _); reflexivity.
Defined.
