(* ===== verification/Events.v ===== *)
(** * Journal events (haider-protocol lib.rs, item.rs, history.rs and envelope.rs)

    The payload union, as far as the raw payload's reply leaf and the recovery
    reducer look into it: variants nothing here matches on carry their JSON
    form.  The serde encoding of the union is derived code and a parameter,
    [EventJson], with the round trip serde documents ([EventJsonLaws]). *)

From S2P Require Import Prelude RustStr EffectTypes Json Envelope.

Local Open Scope string_scope.

(** ** The union *)

Inductive TurnItem :=
  | AgentMessage (text : string)
  | IncompleteAgentMessage (text : string) (interruption : Value)
  | Reasoning (summary : string)
  | ToolCall (call_id name : string) (args : Value) (status : string)
  | CommandExecution (call_id command status : string) (exit_code : option Z)
  | OtherItem (v : Value).

Inductive ItemDelta :=
  | TextDelta (text : string)
  | ReasoningDelta (text : string)
  | OtherDelta (v : Value).

Inductive ItemEvent :=
  | Started (item_id : string) (item : TurnItem)
  | Delta (item_id : string) (delta : ItemDelta)
  | Completed (item_id : string) (item : TurnItem).

(** A peer message and its other fields. *)
Record PeerMessage := { pm_message : string; pm_rest : Value }.

Inductive NodeKind :=
  | AssistantCommit (text : string) (verdict : Value)
  | AgentNode (message : PeerMessage)
  | PeerTurn (message : PeerMessage)
  | OtherNode (v : Value).

Record TreeNode := { tn_node : string; tn_parent : option string; tn_kind : NodeKind }.

Record BoundedResult := { bo_artifact : option string; bo_images : list Value; bo_rest : Value }.

Record ProcessSignalRecorded := {
  ps_run_id : string;
  ps_call_id : string;
  ps_effect_id : EffectId;
  ps_artifact : option string;
  ps_rest : Value
}.

Inductive RunState := EffectOutcomeUnknown | OtherRunState (v : Value).

Inductive MenuCloseReason := CloseCancelled | Dismissed | RecoveryInterrupted.

Inductive EventPayload :=
  | ERunState (state : RunState)
  | EMenuOpened (menu : Menu)
  | EMenuAnswered (answer : MenuAnswer)
  | EMenuClosed (menu : MenuId) (reason : MenuCloseReason)
  | EPeerMessage (message : PeerMessage)
  | EItem (event : ItemEvent)
  | EEffect (phase : EffectPhase)
  | EToolResult (call_id : string) (result : BoundedResult)
  | ENodeCommitted (node : TreeNode)
  | EProcessSignalRecorded (signal : ProcessSignalRecorded)
  | EOther (v : Value).

(** ** The reply leaf *)

Definition item_leaf (item : TurnItem) : option (string * ReplyPath) :=
  match item with
  | AgentMessage text | IncompleteAgentMessage text _ => Some (text, ItemText)
  | Reasoning summary => Some (summary, ItemSummary)
  | _ => None
  end.

(** [reply_leaf_mut], read. *)
Definition reply_leaf (payload : EventPayload) : option (string * ReplyPath) :=
  match payload with
  | EItem (Started _ item) | EItem (Completed _ item) => item_leaf item
  | EItem (Delta _ (TextDelta text)) | EItem (Delta _ (ReasoningDelta text)) => Some (text, DeltaText)
  | ENodeCommitted node =>
      match node.(tn_kind) with
      | AssistantCommit text _ => Some (text, NodeText)
      | AgentNode message | PeerTurn message => Some (message.(pm_message), AgentNodeMessage)
      | OtherNode _ => None
      end
  | EPeerMessage message => Some (message.(pm_message), PeerMessagePath)
  | _ => None
  end.

Definition set_item_leaf (text : string) (item : TurnItem) : TurnItem :=
  match item with
  | AgentMessage _ => AgentMessage text
  | IncompleteAgentMessage _ interruption => IncompleteAgentMessage text interruption
  | Reasoning _ => Reasoning text
  | item => item
  end.
Definition set_message (text : string) (message : PeerMessage) : PeerMessage :=
  {| pm_message := text; pm_rest := message.(pm_rest) |}.

(** [reply_leaf_mut], written. *)
Definition set_reply_leaf (text : string) (payload : EventPayload) : EventPayload :=
  match payload with
  | EItem (Started id item) => EItem (Started id (set_item_leaf text item))
  | EItem (Completed id item) => EItem (Completed id (set_item_leaf text item))
  | EItem (Delta id (TextDelta _)) => EItem (Delta id (TextDelta text))
  | EItem (Delta id (ReasoningDelta _)) => EItem (Delta id (ReasoningDelta text))
  | ENodeCommitted node =>
      ENodeCommitted {| tn_node := node.(tn_node); tn_parent := node.(tn_parent);
                        tn_kind := match node.(tn_kind) with
                                   | AssistantCommit _ verdict => AssistantCommit text verdict
                                   | AgentNode message => AgentNode (set_message text message)
                                   | PeerTurn message => PeerTurn (set_message text message)
                                   | OtherNode v => OtherNode v
                                   end |}
  | EPeerMessage message => EPeerMessage (set_message text message)
  | payload => payload
  end.

(** ** Encoding *)

(** [serde_json::to_value] and [serde_json::from_value] of the union. *)
Class EventJson := {
  to_value : EventPayload -> result Value string;
  from_value : Value -> result EventPayload string
}.

(** The outer tag of a variant. *)
Definition event_kind (payload : EventPayload) : option string :=
  match payload with
  | ERunState _ => Some "run_state"
  | EMenuOpened _ => Some "menu_opened"
  | EMenuAnswered _ => Some "menu_answered"
  | EMenuClosed _ _ => Some "menu_closed"
  | EPeerMessage _ => Some "peer.message"
  | EItem _ => Some "item"
  | EEffect _ => Some "effect"
  | EToolResult _ _ => Some "tool_result"
  | ENodeCommitted _ => Some "node_committed"
  | EProcessSignalRecorded _ => Some "process_signal_recorded"
  | EOther _ => None
  end.

(** What serde documents: what was written reads back, and an internally tagged
    variant carries its tag; [null] is no variant. *)
Class EventJsonLaws (json : EventJson) : Prop := {
  from_to_value : forall payload v, to_value payload = Ok v -> from_value v = Ok payload;
  to_value_tag : forall payload v kind, to_value payload = Ok v -> event_kind payload = Some kind -> get_str "type" v = Some kind
}.

Section Raw.
Context {json : EventJson}.

Definition from_event (payload : EventPayload) : result RawPayload string :=
  match reply_leaf payload with
  | Some (text, path) =>
      (let? skeleton := to_value (set_reply_leaf "" payload) in Ok (ReplyPayload skeleton text path))%res
  | None => (let? skeleton := to_value payload in Ok (JsonPayload skeleton))%res
  end.

Definition decode_event (raw : RawPayload) : result EventPayload string :=
  match raw with
  | JsonPayload v => from_value v
  | ReplyPayload _ _ (ProviderOpaque _) => from_value (to_json_value raw)
  | ReplyPayload skeleton text path =>
      (let? payload := from_value skeleton in
       match reply_leaf payload with
       | None => from_value Null
       | Some (_, found) => if bool_decide (found = path) then Ok (set_reply_leaf text payload) else from_value Null
       end)%res
  end.

(** Writing the leaf twice is writing it once, and its path does not change. *)
Lemma set_leaf_back payload text path other : reply_leaf payload = Some (text, path) ->
  (exists t, reply_leaf (set_reply_leaf other payload) = Some (t, path)) /\
  set_reply_leaf text (set_reply_leaf other payload) = payload /\ forall m, path <> ProviderOpaque m.
Proof.
  destruct payload as [| | | |[m r]|[id item|id delta|id item]| | |[node parent kind]| |]; cbn; try done.
  - intros [= <- <-]. eauto.
  - destruct item; cbn; try done; intros [= <- <-]; eauto.
  - destruct delta; cbn; try done; intros [= <- <-]; eauto.
  - destruct item; cbn; try done; intros [= <- <-]; eauto.
  - destruct kind as [t v|[m r]|[m r]|v]; cbn; try done; intros [= <- <-]; eauto.
Qed.

Lemma decode_from_event `{!EventJsonLaws json} payload raw : from_event payload = Ok raw -> decode_event raw = Ok payload.
Proof.
  unfold from_event. destruct (reply_leaf payload) as [[text path]|] eqn:El.
  - destruct (set_leaf_back _ _ _ "" El) as ([t Et] & Es & Hp).
    destruct (to_value _) as [v|e] eqn:Ev; cbn; [|done]. intros [= <-]. apply from_to_value in Ev.
    destruct path; try (cbn; rewrite Ev; cbn; rewrite Et; rewrite bool_decide_eq_true_2 by done; by rewrite Es). by destruct (Hp marker).
  - destruct (to_value _) as [v|e] eqn:Ev; cbn; [|done]. intros [= <-]. by apply from_to_value.
Qed.

Lemma from_event_tag `{!EventJsonLaws json} payload raw kind :
  from_event payload = Ok raw -> event_kind payload = Some kind -> type_tag raw = Some kind.
Proof.
  intros E Hk. unfold from_event in E. destruct (reply_leaf payload) as [[text path]|] eqn:El.
  - destruct (to_value _) as [v|e] eqn:Ev; cbn in E; [|done]. injection E as <-. unfold type_tag. cbn.
    eapply to_value_tag; [exact Ev|]. by destruct payload as [| | | | |[? ?|? []|? ?]| | | | |].
  - destruct (to_value _) as [v|e] eqn:Ev; cbn in E; [|done]. injection E as <-. unfold type_tag. cbn. by eapply to_value_tag.
Qed.
End Raw.
