(* ===== verification/Journal.v ===== *)
(** * Session journals (haider-core lib.rs: StoreHandle, fake_store.rs: MemoryStore)

    The journal of a session is a list of envelopes, numbered from one.  A
    reducer reads it in pages of the kinds it cares about.  [StoreHandle] is
    what a client may rely on: how an append extends a journal and what a page
    is.  [MemoryStore], the reference semantics, implements it, with the trait's
    default page reader. *)

From S2P Require Import Prelude RustStr Cas EffectTypes Json Envelope Events.

Local Open Scope string_scope.

Abbreviation SessionId := string (only parsing).

(** ** Envelopes *)

Inductive PromptRender := Verbatim | Pruned | Omit.
Record RenderTargets := { rt_ui : bool; rt_durable : bool; rt_prompt : PromptRender }.

Record RawEnvelope := mkEnvelope {
  schema_version : N;
  event_id : string;
  seq : N;
  session_id : SessionId;
  branch_id : option string;
  run_id : option string;
  agent_id : option string;
  device_id : string;
  authority_epoch : N;
  worker_generation : N;
  causation_id : option string;
  correlation_id : option string;
  committed_at_ms : N;
  render : RenderTargets;
  payload : RawPayload
}.

(** What a commit assigns. *)
Definition stamp (s now : N) (e : RawEnvelope) : RawEnvelope :=
  mkEnvelope e.(schema_version) e.(event_id) s e.(session_id) e.(branch_id) e.(run_id) e.(agent_id) e.(device_id)
    e.(authority_epoch) e.(worker_generation) e.(causation_id) e.(correlation_id) now e.(render) e.(payload).

Definition envelope_payload_kind (e : RawEnvelope) : string :=
  let kind := default "" (type_tag e.(payload)) in
  if String.eqb kind "item"
     && bool_decide ((i ← get "item" (deref e.(payload)); get_str "item" i) = Some "tool_call")
  then "item_tool_call" else kind.

(** ** Memory weight *)

(** [size_of] of the two types that are charged, and [usize::MAX]. *)
Class MemoryLayout := { size_of_envelope : N; size_of_value : N; usize_max : N }.

Section Weight.
Context {layout : MemoryLayout}.

Definition saturating_add (a b : N) : N := N.min (a + b) usize_max.
Definition saturating_mul (a b : N) : N := N.min (a * b) usize_max.

Fixpoint json_owned_heap_bytes (v : Value) : N :=
  match v with
  | Null | Bool _ | Number _ => 0
  | Str text => len text
  | Array items =>
      foldl saturating_add (saturating_mul (N.of_nat (length items)) size_of_value) (map json_owned_heap_bytes items)
  | Object [] => 0
  | Object fields =>
      foldl (fun total kb => saturating_add (saturating_add total (len kb.1)) kb.2)
        (saturating_add 1024 (saturating_mul (N.of_nat (length fields)) 128))
        (map (fun kv => (kv.1, json_owned_heap_bytes kv.2)) fields)
  end.

Definition owned_heap_bytes (p : RawPayload) : N :=
  saturating_add (json_owned_heap_bytes (deref p)) (match reply_text p with Some text => len text | None => 0 end).

Definition opt_len (s : option string) : N := match s with Some s => len s | None => 0 end.

Definition envelope_weight_bytes (e : RawEnvelope) : N :=
  foldl saturating_add size_of_envelope
    [len e.(event_id); len e.(session_id); opt_len e.(branch_id); opt_len e.(run_id); opt_len e.(agent_id);
     len e.(device_id); opt_len e.(causation_id); opt_len e.(correlation_id); owned_heap_bytes e.(payload)].

(** ** The page reader *)

(** [StoreHandle::read_reducer_page], over the store's [read].  [None] is out of
    fuel. *)
Section Page.
Variable read : N -> N -> result (list RawEnvelope) HaiderError.
Variables (limit byte_budget : N) (payload_kinds : list string).

Definition of_kind (e : RawEnvelope) : bool := existsb (String.eqb (envelope_payload_kind e)) payload_kinds.

(** One page of the scan; the flag says the method returns. *)
Fixpoint select (page : list RawEnvelope) (selected : list RawEnvelope) (spent : N)
  : bool * list RawEnvelope * N :=
  match page with
  | [] => (false, selected, spent)
  | e :: page =>
      if negb (of_kind e) then select page selected spent
      else
        let weight := envelope_weight_bytes e in
        if negb (bool_decide (selected = [])) && (byte_budget <? saturating_add spent weight)%N
        then (true, selected, spent)
        else
          let spent := saturating_add spent weight in
          let selected := (selected ++ [e])%list in
          if (limit <=? N.of_nat (length selected))%N || (byte_budget <=? spent)%N
          then (true, selected, spent)
          else select page selected spent
  end.

Fixpoint scan (fuel : nat) (cursor : N) (selected : list RawEnvelope) (spent : N)
  : option (result (list RawEnvelope) HaiderError) :=
  match fuel with
  | 0%nat => None
  | S fuel =>
      match read cursor limit with
      | Err error => Some (Err error)
      | Ok page =>
          match last page with
          | None => Some (Ok selected)
          | Some e =>
              let scan_complete := (N.of_nat (length page) <? limit)%N in
              if (e.(seq) <=? cursor)%N
              then Some (Err (store_error StoreCorrupt "journal reducer page did not advance its sequence cursor" false))
              else
                let '(returned, selected, spent) := select page selected spent in
                if returned || scan_complete then Some (Ok selected) else scan fuel e.(seq) selected spent
          end
      end
  end.

Definition read_reducer_page (fuel : nat) (since_seq : N) : option (result (list RawEnvelope) HaiderError) :=
  if (limit =? 0)%N || bool_decide (payload_kinds = []) then Some (Ok []) else scan fuel since_seq [] 0.
End Page.
End Weight.

(** ** The in-memory store *)

Record MemoryStore := { sessions : gmap SessionId (list RawEnvelope) }.

Definition events (sid : SessionId) (store : MemoryStore) : list RawEnvelope := default [] (store.(sessions) !! sid).

(** Stamps the batch, numbering from [first]. *)
Fixpoint stamp_all (first now : N) (envelopes : list RawEnvelope) : result (list RawEnvelope) HaiderError :=
  match envelopes with
  | [] => Ok []
  | e :: envelopes =>
      (let? rest := stamp_all (first + 1) now envelopes in
       if (first <=? u64_max)%N then Ok (stamp first now e :: rest)
       else Err (store_error StoreCorrupt "session sequence space exhausted" false))%res
  end.

Definition append (now : N) (envelopes : list RawEnvelope) (store : MemoryStore)
  : result (list RawEnvelope) HaiderError * MemoryStore :=
  match envelopes with
  | [] => (Err (store_error Cas.InvalidArgument "cannot append an empty envelope batch" false), store)
  | first :: _ =>
      let sid := first.(session_id) in
      if existsb (fun e => negb (String.eqb e.(session_id) sid)) envelopes
      then (Err (store_error Cas.InvalidArgument "one append batch cannot span sessions" false), store)
      else
        let journal := events sid store in
        match stamp_all (N.of_nat (length journal) + 1) now envelopes with
        | Err error => (Err error, {| sessions := <[sid := journal]> store.(sessions) |})
        | Ok stamped => (Ok stamped, {| sessions := <[sid := (journal ++ stamped)%list]> store.(sessions) |})
        end
  end.

Definition read (sid : SessionId) (store : MemoryStore) (since_seq limit : N) : result (list RawEnvelope) HaiderError :=
  Ok (take (N.to_nat limit) (filter (fun e => (since_seq < e.(seq))%N) (events sid store))).

Definition latest_seq (sid : SessionId) (store : MemoryStore) : N :=
  match last (events sid store) with Some e => e.(seq) | None => 0 end.

(** ** The SQLite reader (haider-store event_store.rs)

    The rows of the events table, one session at a time and in the order of
    their sequence numbers, as [ORDER BY seq] yields them.  A row's envelope is
    what [decode_envelope_column] makes of its cell, and its payload kind is
    absent in rows older than the column.  Rebinding equal reply texts to one
    arena changes no envelope.  [SqliteEngine] says which calls into SQLite
    fail. *)
Record Row := mkRow {
  row_seq : Z;
  row_envelope : result RawEnvelope string;
  row_event_id : string;
  row_committed_at_ms : Z;
  row_payload_kind : option string
}.

Class SqliteEngine := {
  connection_error : option HaiderError;
  statement_error : SessionId -> N -> option HaiderError;
  row_error : Row -> option HaiderError
}.

Definition corrupt (message : string) : HaiderError := store_error StoreCorrupt message false.

Definition I64_MAX : N := 9223372036854775807.
Definition to_sqlite_integer (value : N) : result Z HaiderError :=
  if (value <=? I64_MAX)%N then Ok (Z.of_N value)
  else Err (store_error Cas.InvalidArgument ("value " ++ pretty value ++ " does not fit SQLite INTEGER") false).

Definition validate_stored_envelope (requested : SessionId) (row : Row) (e : RawEnvelope) : result unit HaiderError :=
  if (row.(row_seq) <? 0)%Z then Err (corrupt "database contains a negative event sequence")
  else if (row.(row_committed_at_ms) <? 0)%Z then Err (corrupt "database contains a negative commit timestamp")
  else if negb (String.eqb e.(session_id) requested) || negb (e.(seq) =? Z.to_N row.(row_seq))%N
          || negb (String.eqb e.(event_id) row.(row_event_id))
          || negb (e.(committed_at_ms) =? Z.to_N row.(row_committed_at_ms))%N
  then Err (corrupt ("event row and envelope disagree for session " ++ requested ++ ", seq " ++ pretty row.(row_seq)))
  else Ok tt.

Inductive FilteredReadError := Decode | StoreFailure (error : HaiderError).

(** The kind predicate of [reducer_page_sql]. *)
Definition eligible (payload_kinds : list string) (row : Row) : bool :=
  match row.(row_payload_kind) with
  | Some kind => existsb (String.eqb kind) payload_kinds
  | None => true
  end.

(** [SELECT ... WHERE <predicate> AND seq > since ORDER BY seq ASC LIMIT limit]. *)
Definition select_rows (predicate : Row -> bool) (since : Z) (limit : N) (rows : list Row) : list Row :=
  take (N.to_nat (N.min limit I64_MAX)) (filter (fun row => predicate row = true) (filter (fun row => (since < row.(row_seq))%Z) rows)).

Section Sqlite.
Context {layout : MemoryLayout} {engine : SqliteEngine}.
Variable session : SessionId.

(** The loop over the rows of a statement, shared by the two readers but for
    what a cell that does not decode and a failed call become. *)
Fixpoint collect_rows {E} (undecoded : Row -> string -> E) (failed : HaiderError -> E) (byte_budget : N)
    (rows : list Row) (envelopes : list RawEnvelope) (spent : N) : result (list RawEnvelope) E :=
  match rows with
  | [] => Ok envelopes
  | row :: rows =>
      match row_error row with
      | Some error => Err (failed error)
      | None =>
          match row.(row_envelope) with
          | Err message => Err (undecoded row message)
          | Ok e =>
              match validate_stored_envelope session row e with
              | Err error => Err (failed error)
              | Ok _ =>
                  let weight := envelope_weight_bytes e in
                  if negb (bool_decide (envelopes = [])) && (byte_budget <? saturating_add spent weight)%N
                  then Ok envelopes
                  else
                    let spent := saturating_add spent weight in
                    let envelopes := (envelopes ++ [e])%list in
                    if (byte_budget <=? spent)%N then Ok envelopes
                    else collect_rows undecoded failed byte_budget rows envelopes spent
              end
          end
      end
  end.

Definition read_page (rows : list Row) (since_seq max_envelopes byte_budget : N) : result (list RawEnvelope) HaiderError :=
  if (max_envelopes =? 0)%N then Ok []
  else
    match connection_error, statement_error session since_seq with
    | Some error, _ | None, Some error => Err error
    | None, None =>
        (let? since := to_sqlite_integer since_seq in
         collect_rows (fun row message => corrupt ("invalid envelope for session " ++ session ++ ", seq "
                                                   ++ pretty row.(row_seq) ++ ": " ++ message)) id byte_budget
           (select_rows (fun _ => true) since max_envelopes rows) [] 0)%res
    end.

Definition read_reducer_page_with_connection (rows : list Row) (since_seq limit byte_budget : N) (payload_kinds : list string)
  : result (list RawEnvelope) FilteredReadError :=
  (let? since := map_err StoreFailure (to_sqlite_integer since_seq) in
   match statement_error session since_seq with
   | Some error => Err (StoreFailure error)
   | None => collect_rows (fun _ _ => Decode) StoreFailure byte_budget
               (select_rows (eligible payload_kinds) since limit rows) [] 0
   end)%res.

Definition sqlite_read_reducer_page (rows : list Row) (since_seq limit byte_budget : N) (payload_kinds : list string)
  : result (list RawEnvelope) HaiderError :=
  if (limit =? 0)%N || bool_decide (payload_kinds = []) then Ok []
  else
    match connection_error with
    | Some error => Err error
    | None =>
    match read_reducer_page_with_connection rows since_seq limit byte_budget payload_kinds with
    | Ok envelopes => Ok envelopes
    | Err Decode => read_page rows since_seq limit byte_budget
    | Err (StoreFailure error) => Err error
    end
    end.
End Sqlite.
