(* ===== verification/JournalProps.v ===== *)
(** * What a session journal promises *)

From S2P Require Import Prelude RustStr Cas EffectTypes Json Envelope Events Journal.
From Stdlib Require Import Sorted.

Local Open Scope string_scope.

(** ** The contract *)

(** Numbered in the order of commits. *)
Definition increasing (j : list RawEnvelope) : Prop := StronglySorted (fun a b => (a.(seq) < b.(seq))%N) j.

(** What is left of a journal after a cursor, and what of it a reducer wants. *)
Definition after (cursor : N) (j : list RawEnvelope) : list RawEnvelope := filter (fun e => (cursor < e.(seq))%N) j.
Definition relevant (kinds : list string) (j : list RawEnvelope) : list RawEnvelope :=
  filter (fun e => of_kind kinds e = true) j.

(** A page is read off a first part of what is left, in order: it has all the
    envelopes of the wanted kinds there, may have others (rows without a kind,
    or a whole unfiltered page where the filtered read did not decode), and is
    empty only when nothing wanted is left. *)
Definition is_page (kinds : list string) (cursor : N) (j page : list RawEnvelope) : Prop :=
  exists front back, after cursor j = (front ++ back)%list /\ sublist page front /\
    relevant kinds page = relevant kinds front /\ (page = [] -> relevant kinds back = []).

(** The same envelope, up to what a commit assigns. *)
Definition stamped_as (e e' : RawEnvelope) : Prop := exists s now, e' = stamp s now e.

Class StoreHandle (S : Type) := {
  sh_journal : SessionId -> S -> list RawEnvelope;
  sh_append : N -> list RawEnvelope -> S -> result (list RawEnvelope) HaiderError * S;
  sh_page : SessionId -> N -> N -> N -> list string -> S -> result (list RawEnvelope) HaiderError
}.

Class StoreLaws (S : Type) `{!StoreHandle S} := {
  sh_ok : S -> Prop;
  sh_numbered : forall s sid, sh_ok s ->
    increasing (sh_journal sid s) /\ Forall (fun e => (0 < e.(seq))%N /\ e.(session_id) = sid) (sh_journal sid s);
  sh_append_ok : forall s now batch r s', sh_ok s -> sh_append now batch s = (r, s') ->
    sh_ok s' /\
    match r with
    | Ok stamped =>
        exists sid, Forall (fun e => e.(session_id) = sid) batch /\ Forall2 stamped_as batch stamped /\
          sh_journal sid s' = (sh_journal sid s ++ stamped)%list /\
          forall other, other <> sid -> sh_journal other s' = sh_journal other s
    | Err _ => forall sid, sh_journal sid s' = sh_journal sid s
    end;
  sh_page_ok : forall s sid cursor limit budget kinds page, sh_ok s -> (0 < limit)%N -> kinds <> [] ->
    sh_page sid cursor limit budget kinds s = Ok page -> is_page kinds cursor (sh_journal sid s) page
}.

(** ** Cursors *)

Lemma after_increasing cursor j : increasing j -> increasing (after cursor j).
Proof.
  intros Hs. induction Hs as [|e j _ IH Hall]; [constructor|]. unfold after. rewrite filter_cons. case_decide; [|done].
  constructor; [done|]. rewrite Forall_forall in *. intros x [_ Hx]%list_elem_of_filter. auto.
Qed.

Lemma after_all cursor j : Forall (fun e => (cursor < e.(seq))%N) j -> after cursor j = j.
Proof. induction 1 as [|e j He _ IH]; [done|]. unfold after. rewrite filter_cons_True by done. by f_equal. Qed.

Lemma after_none cursor j : Forall (fun e => (e.(seq) <= cursor)%N) j -> after cursor j = [].
Proof. induction 1 as [|e j He _ IH]; [done|]. unfold after. rewrite filter_cons_False by lia. done. Qed.

Lemma increasing_app l1 l2 : increasing (l1 ++ l2)%list <->
  increasing l1 /\ increasing l2 /\ (forall a b, a ∈ l1 -> b ∈ l2 -> (a.(seq) < b.(seq))%N).
Proof.
  induction l1 as [|e l1 IH]; cbn.
  { split; [|by intros (_ & ? & _)]. intros H. split; [constructor|]. split; [done|]. set_solver. }
  split.
  - intros H. inversion H as [|? ? Hs Hall]; subst. apply IH in Hs as (H1 & H2 & H3). apply Forall_app in Hall as [Ha Hb].
    split; [by constructor|]. split; [done|]. intros a b [->|Ha']%elem_of_cons Hb'; [|by apply H3]. rewrite Forall_forall in Hb. auto.
  - intros (H1 & H2 & H3). inversion H1 as [|? ? Hs Hall]; subst. constructor.
    + apply IH. split; [done|]. split; [done|]. intros a b Ha Hb. apply H3; [by right|done].
    + apply Forall_app. split; [done|]. apply Forall_forall. intros b Hb. apply H3; [by left|done].
Qed.

(** Reading on from the last envelope of a first part. *)
Lemma after_last j l1 e l2 : increasing j -> j = (l1 ++ e :: l2)%list -> after e.(seq) j = l2.
Proof.
  intros Hs ->. change (e :: l2) with ([e] ++ l2)%list in Hs. rewrite app_assoc in Hs.
  apply increasing_app in Hs as (H1 & _ & H3). apply increasing_app in H1 as (_ & _ & H4).
  change (e :: l2) with ([e] ++ l2)%list. rewrite app_assoc. unfold after. rewrite filter_app.
  fold (after e.(seq) (l1 ++ [e])%list) (after e.(seq) l2).
  rewrite after_none, after_all; [done| |].
  - apply Forall_forall. intros b Hb. apply (H3 e b); [|done]. set_solver.
  - apply Forall_app. split; [|constructor; [lia|constructor]]. apply Forall_forall. intros a Ha. specialize (H4 a e Ha). set_solver by lia.
Qed.

Lemma after_after a b j : (a <= b)%N -> after b (after a j) = after b j.
Proof.
  intros Hle. induction j as [|e j IH]; [done|]. unfold after in *. rewrite !filter_cons.
  destruct (decide (a < e.(seq))%N), (decide (b < e.(seq))%N); rewrite ?filter_cons; try case_decide; try lia; by rewrite ?IH.
Qed.

Lemma relevant_app kinds l1 l2 : relevant kinds (l1 ++ l2)%list = (relevant kinds l1 ++ relevant kinds l2)%list.
Proof. apply filter_app. Qed.

Lemma relevant_cons kinds e l :
  relevant kinds (e :: l) = if of_kind kinds e then e :: relevant kinds l else relevant kinds l.
Proof. unfold relevant. rewrite filter_cons. destruct (of_kind kinds e) eqn:E; by case_decide. Qed.

Lemma relevant_twice kinds l : relevant kinds (relevant kinds l) = relevant kinds l.
Proof.
  induction l as [|e l IH]; [done|]. unfold relevant in *. rewrite filter_cons. case_decide as Hk; [|done].
  rewrite filter_cons_True by done. by rewrite IH.
Qed.

(** What was selected was selected from a first part. *)
Lemma filter_split {A} (P : A -> Prop) `{!forall x, Decision (P x)} l : forall page rest, filter P l = (page ++ rest)%list ->
  exists front back, l = (front ++ back)%list /\ filter P front = page /\ filter P back = rest.
Proof.
  induction l as [|e l IH]; intros page rest.
  { intros E. symmetry in E. apply app_nil in E as [-> ->]. by exists [], []. }
  rewrite filter_cons. case_decide as Hk.
  - destruct page as [|x page]; cbn.
    + intros <-. exists [], (e :: l). split_and!; [done..|]. by rewrite filter_cons_True.
    + intros [= <- E]. destruct (IH _ _ E) as (front & back & -> & <- & <-). exists (e :: front), back.
      split_and!; [done| |done]. by rewrite filter_cons_True.
  - intros E. destruct (IH _ _ E) as (front & back & -> & <- & <-). exists (e :: front), back.
    split_and!; [done| |done]. by rewrite filter_cons_False.
Qed.

Lemma increasing_sublist l1 l2 : sublist l1 l2 -> increasing l2 -> increasing l1.
Proof.
  induction 1 as [|e l1 l2 Hs IH|e l1 l2 Hs IH]; intros Hi; [constructor|..];
    inversion Hi as [|? ? Hi' Hall]; subst; [|by apply IH].
  constructor; [by apply IH|]. rewrite Forall_forall in *. intros x Hx. apply Hall.
  eapply elem_of_submseteq; [exact Hx|by apply sublist_submseteq].
Qed.

(** ** The page reader *)

Section Reader.
Context {layout : MemoryLayout}.

Lemma select_spec limit budget kinds page : forall selected spent returned selected' spent',
  select limit budget kinds page selected spent = (returned, selected', spent') ->
  exists read rest, page = (read ++ rest)%list /\ selected' = (selected ++ relevant kinds read)%list /\
    if returned then selected' <> [] else rest = [].
Proof.
  induction page as [|e page IH]; intros selected spent returned selected' spent'; cbn.
  { intros [= <- <- _]. exists [], []. split_and!; [done|by rewrite app_nil_r|done]. }
  destruct (of_kind kinds e) eqn:Ek; cbn.
  - destruct (bool_decide (selected = [])) eqn:Es; cbn; [|destruct (budget <? _)%N; cbn].
    2: { intros [= <- <- _]. exists [], (e :: page). apply bool_decide_eq_false in Es. split_and!; [done|by rewrite app_nil_r|done]. }
    all: destruct (_ || _); cbn; [intros [= <- <- _]; exists [e], page|intros E%IH; destruct E as (rd & rest & -> & -> & Hr); exists (e :: rd), rest];
      split; try done; unfold relevant; rewrite filter_cons_True by done.
    1,3: split; [done|]; by destruct selected.
    all: split; [|by destruct returned]; by rewrite <- app_assoc.
  - intros E%IH. destruct E as (rd & rest & -> & -> & Hr). exists (e :: rd), rest. split; [done|]. split; [|done].
    unfold relevant. by rewrite filter_cons_False by congruence.
Qed.

Lemma scan_spec rd j limit budget kinds : (0 < limit)%N -> increasing j ->
  (forall cursor, rd cursor limit = Ok (take (N.to_nat limit) (after cursor j))) ->
  forall fuel since cursor selected spent, length (after cursor j) < fuel ->
  (relevant kinds (after since j) = selected ++ relevant kinds (after cursor j))%list ->
  exists page, scan rd limit budget kinds fuel cursor selected spent = Some (Ok page) /\
    exists rest, relevant kinds (after since j) = (page ++ rest)%list /\ (page = [] -> rest = []).
Proof.
  intros Hl Hj Hrd. induction fuel as [|fuel IH]; intros since cursor selected spent Hf Hsel; [lia|]. cbn [scan]. rewrite Hrd.
  set (page := take _ (after cursor j)). destruct (last page) as [e|] eqn:El.
  2: { apply last_None in El. exists selected. split; [done|]. exists []. rewrite Hsel.
    destruct (after cursor j) as [|x l] eqn:Ea; [done|]. subst page. destruct (N.to_nat limit) eqn:En; [lia|done]. }
  assert (He : (cursor < e.(seq))%N).
  { apply last_Some in El as [l El]. assert (Hin : e ∈ after cursor j).
    { rewrite <- (take_drop (N.to_nat limit) (after cursor j)). fold page. rewrite El. set_solver. } by apply list_elem_of_filter in Hin as [? _]. }
  rewrite (proj2 (N.leb_gt _ _) He). pose proof (take_drop (N.to_nat limit) (after cursor j)) as Hsplit. fold page in Hsplit.
  set (rest := drop _ _) in Hsplit. assert (Hnext : after e.(seq) j = rest).
  { rewrite <- (after_after cursor e.(seq)) by lia. apply last_Some in El as [l El].
    apply (after_last _ l); [by apply after_increasing|]. rewrite <- Hsplit, El. by rewrite <- app_assoc. }
  destruct (select limit budget kinds page selected spent) as [[returned selected'] spent'] eqn:Es.
  destruct (select_spec _ _ _ _ _ _ _ _ _ Es) as (rd0 & left & Ep & -> & Hret).
  assert (Hrel : relevant kinds (after since j) = ((selected ++ relevant kinds rd0) ++ relevant kinds (left ++ rest))%list).
  { rewrite Hsel, <- Hsplit, Ep, <- app_assoc, relevant_app. by rewrite app_assoc. }
  destruct returned; cbn.
  { eexists. split; [done|]. exists (relevant kinds (left ++ rest)%list). split; [done|]. intros E. by destruct Hret. }
  rewrite Hret in *. cbn in Hrel. destruct (N.ltb_spec (N.of_nat (length page)) limit) as [Hlt|Hge].
  - eexists. split; [done|]. exists []. rewrite Hrel, app_nil_r. split; [|done].
    assert (Hr : rest = []). { subst page rest. rewrite length_take in Hlt. apply drop_ge. lia. } by rewrite Hr, app_nil_r.
  - apply IH; rewrite Hnext; [|done].
    assert (Hlen : length (after cursor j) = (length page + length rest)%nat) by (rewrite <- Hsplit; apply length_app). lia.
Qed.

(** ** The in-memory store keeps the contract *)

Definition numbered (sid : SessionId) (j : list RawEnvelope) : Prop :=
  forall n e, j !! n = Some e -> e.(seq) = (N.of_nat n + 1)%N /\ e.(session_id) = sid.
Definition memory_ok (store : MemoryStore) : Prop := forall sid, numbered sid (events sid store).

Lemma numbered_increasing sid j : numbered sid j -> increasing j.
Proof.
  assert (Hgen : forall k, (forall n e, j !! n = Some e -> e.(seq) = (N.of_nat n + k)%N) -> increasing j).
  { induction j as [|e j IH]; intros k Hk; [constructor|]. constructor.
    - apply (IH (k + 1)%N). intros n x Hx. rewrite (Hk (S n) x Hx). lia.
    - apply Forall_forall. intros x (n & Hx)%list_elem_of_lookup. rewrite (Hk 0 e eq_refl), (Hk (S n) x Hx). lia. }
  intros Hn. apply (Hgen 1%N). intros n e He. by destruct (Hn n e He).
Qed.

Lemma stamp_all_spec now batch : forall first stamped, stamp_all first now batch = Ok stamped ->
  Forall2 stamped_as batch stamped /\
  forall n e, stamped !! n = Some e -> e.(seq) = (first + N.of_nat n)%N.
Proof.
  induction batch as [|b batch IH]; intros first stamped; cbn; [intros [= <-]; done|].
  destruct (stamp_all (first + 1) now batch) as [rest|e] eqn:E; cbn; [|done]. destruct (first <=? u64_max)%N; [|done].
  intros [= <-]. destruct (IH _ _ E) as [H1 H2]. split; [constructor; [by exists first, now|done]|].
  intros [|n] e He; cbn in He; [injection He as <-; cbn; lia|]. rewrite (H2 n e He). lia.
Qed.

Lemma stamped_session batch stamped sid : Forall2 stamped_as batch stamped ->
  Forall (fun e => e.(session_id) = sid) batch -> Forall (fun e => e.(session_id) = sid) stamped.
Proof. induction 1 as [|a b batch stamped (s & now & ->) _ IH]; intros H; inversion H; subst; constructor; auto. Qed.

Lemma events_insert sid j store other : events other {| sessions := <[sid := j]> store.(sessions) |} =
  if decide (other = sid) then j else events other store.
Proof.
  unfold events. cbn. case_decide as E; [subst; by rewrite lookup_insert_eq|]. by rewrite lookup_insert_ne.
Qed.

#[export] Instance memory_handle : StoreHandle MemoryStore := {
  sh_journal := events;
  sh_append := append;
  sh_page sid cursor limit budget kinds store :=
    default (Ok []) (read_reducer_page (read sid store) limit budget kinds (S (length (events sid store))) cursor)
}.

Lemma memory_append_ok store now batch r store' : memory_ok store -> append now batch store = (r, store') ->
  memory_ok store' /\
  match r with
  | Ok stamped =>
      exists sid, Forall (fun e => e.(session_id) = sid) batch /\ Forall2 stamped_as batch stamped /\
        events sid store' = (events sid store ++ stamped)%list /\
        forall other, other <> sid -> events other store' = events other store
  | Err _ => forall sid, events sid store' = events sid store
  end.
Proof.
  intros Hok. unfold append. destruct batch as [|b batch]; [by intros [= <- <-]|]. set (sid := session_id b).
  destruct (existsb _ (b :: batch)) eqn:Ex; [by intros [= <- <-]|].
  assert (Hall : Forall (fun e => e.(session_id) = sid) (b :: batch)).
  { rewrite existsb_false in Ex. apply Forall_forall. intros e He. specialize (Ex e He). cbn in Ex.
    apply negb_false_iff, String.eqb_eq in Ex. done. }
  destruct (stamp_all _ now (b :: batch)) as [stamped|error] eqn:E; intros [= <- <-].
  - destruct (stamp_all_spec _ _ _ _ E) as [H1 H2]. split.
    + intros other n e. rewrite events_insert. case_decide as Eo; [subst other|apply Hok].
      rewrite lookup_app. destruct (events sid store !! n) eqn:El; [intros [= <-]; by apply Hok|]. intros He.
      apply lookup_ge_None in El. split; [rewrite (H2 _ _ He); lia|].
      pose proof (stamped_session _ _ _ H1 Hall) as Hs. rewrite Forall_forall in Hs. apply Hs. by eapply list_elem_of_lookup_2.
    + exists sid. split; [done|]. split; [done|]. split; [by rewrite events_insert, decide_True|].
      intros other Hne. by rewrite events_insert, decide_False.
  - split; [intros other n e|intros other]; rewrite events_insert; case_decide as Eo; subst; auto; apply Hok.
Qed.

#[export] Program Instance memory_laws : StoreLaws MemoryStore := { sh_ok := memory_ok }.
Next Obligation.
  intros store sid Hok. split; [exact (numbered_increasing _ _ (Hok sid))|]. apply Forall_forall.
  intros e (n & He)%list_elem_of_lookup. destruct (Hok sid n e He) as [-> ?]. split; [lia|done].
Qed.
Next Obligation. exact memory_append_ok. Qed.
Next Obligation.
  intros store sid cursor limit budget kinds page Hok Hl Hk. cbn [sh_page sh_journal memory_handle]. unfold read_reducer_page.
  rewrite (proj2 (N.eqb_neq limit 0)) by lia. rewrite bool_decide_eq_false_2 by done. cbn [orb].
  assert (Hfuel : length (after cursor (events sid store)) < S (length (events sid store))).
  { unfold after. pose proof (length_filter (fun e => (cursor < e.(seq))%N) (events sid store)). lia. }
  destruct (scan_spec (read sid store) _ limit budget kinds Hl (numbered_increasing _ _ (Hok sid)) (fun _ => eq_refl)
    _ cursor cursor [] 0%N Hfuel eq_refl) as (page' & E & Hpage).
  rewrite E. cbn. intros [= <-]. destruct Hpage as (rest & Er & He).
  destruct (filter_split _ _ _ _ Er) as (front & back & Ea & <- & <-). exists front, back.
  split_and!; [done|apply sublist_filter|apply relevant_twice|done].
Qed.
End Reader.

(** ** The SQLite reader keeps the contract *)

Section SqliteLaws.
Context {layout : MemoryLayout} {engine : SqliteEngine}.
Variable sid : SessionId.

(** The envelope of a sound row, and the journal a table holds. *)
Definition row_value (row : Row) : option RawEnvelope :=
  match row.(row_envelope) with
  | Ok e => match validate_stored_envelope sid row e with Ok _ => Some e | Err _ => None end
  | Err _ => None
  end.
Definition sqlite_journal (rows : list Row) : list RawEnvelope := filter_map row_value rows.

(** The primary key, the check on [seq], an [i64], and the kind column where it
    is set. *)
Record table_ok (rows : list Row) : Prop := {
  tk_sorted : StronglySorted (fun a b => (a.(row_seq) < b.(row_seq))%Z) rows;
  tk_range : forall row, row ∈ rows -> (0 < row.(row_seq) <= Z.of_N I64_MAX)%Z;
  tk_kinds : forall row e kind, row ∈ rows -> row_value row = Some e -> row.(row_payload_kind) = Some kind ->
    kind = envelope_payload_kind e
}.

Lemma row_value_seq row e : row_value row = Some e -> (0 <= row.(row_seq))%Z /\ e.(seq) = Z.to_N row.(row_seq) /\ e.(session_id) = sid.
Proof.
  unfold row_value, validate_stored_envelope. destruct (row_envelope row) as [x|]; [|done].
  destruct (Z.ltb_spec (row_seq row) 0); [done|]. destruct (_ <? 0)%Z; [done|].
  destruct (String.eqb_spec (session_id x) sid); [|done]. destruct (N.eqb_spec (seq x) (Z.to_N (row_seq row))); [|done].
  destruct (_ || _); [done|]. by intros [= <-].
Qed.

Lemma journal_app l1 l2 : sqlite_journal (l1 ++ l2)%list = (sqlite_journal l1 ++ sqlite_journal l2)%list.
Proof. apply filter_map_app. Qed.

Lemma journal_after c rows : after c (sqlite_journal rows) = sqlite_journal (filter (fun row => (Z.of_N c < row.(row_seq))%Z) rows).
Proof.
  unfold sqlite_journal. induction rows as [|row rows IH]; [done|]. rewrite filter_cons. cbn [filter_map].
  destruct (row_value row) as [e|] eqn:Ev.
  - pose proof (row_value_seq _ _ Ev) as (? & Es & _). unfold after in *. rewrite filter_cons.
    destruct (decide (c < seq e)%N), (decide (Z.of_N c < row_seq row)%Z); try lia; cbn [filter_map]; by rewrite ?Ev, IH.
  - case_decide; cbn [filter_map]; rewrite ?Ev; apply IH.
Qed.

Lemma journal_relevant kinds rows : (forall row, row ∈ rows -> eligible kinds row = true -> False) ->
  (forall row e kind, row ∈ rows -> row_value row = Some e -> row.(row_payload_kind) = Some kind -> kind = envelope_payload_kind e) ->
  relevant kinds (sqlite_journal rows) = [].
Proof.
  intros Hno Hk. destruct (relevant kinds (sqlite_journal rows)) as [|e l] eqn:E; [done|exfalso].
  assert (He : e ∈ relevant kinds (sqlite_journal rows)) by (rewrite E; by left).
  apply list_elem_of_filter in He as [Hof He]. apply filter_map_elem in He as (row & Hr & Ev).
  apply (Hno row Hr). unfold eligible. destruct (row_payload_kind row) as [kind|] eqn:Ek; [|done].
  by rewrite (Hk row e kind Hr Ev Ek).
Qed.

Lemma collect_spec {E} (undecoded : Row -> string -> E) failed budget rows : forall envelopes spent page,
  collect_rows sid undecoded failed budget rows envelopes spent = Ok page ->
  exists n, page = (envelopes ++ sqlite_journal (take n rows))%list /\
    (forall row, row ∈ take n rows -> is_Some (row_value row)) /\ (envelopes = [] -> rows <> [] -> (0 < n)%nat) /\
    (n <= length rows)%nat.
Proof.
  induction rows as [|row rows IH]; intros envelopes spent page; cbn [collect_rows].
  { intros [= <-]. exists 0%nat. rewrite app_nil_r. split_and!; [done|set_solver|done|done]. }
  destruct (row_error row); [done|]. destruct (row_envelope row) as [e|] eqn:Ee; [|done].
  destruct (validate_stored_envelope sid row e) as [[]|] eqn:Ev; [|done].
  assert (Hv : row_value row = Some e) by (unfold row_value; by rewrite Ee, Ev).
  destruct (bool_decide (envelopes = [])) eqn:Hn; cbn [negb andb];
    [|destruct (budget <? _)%N; [intros [= <-]; exists 0%nat; rewrite app_nil_r; apply bool_decide_eq_false in Hn;
        split_and!; [done|set_solver|done|lia]|]].
  all: destruct (budget <=? _)%N; [intros [= <-]; exists 1%nat; cbn; rewrite Hv; split_and!; [done|set_solver|lia|lia]|].
  all: intros (n & -> & Hs & _ & Hle)%IH; exists (S n); cbn; rewrite Hv; split_and!; [by rewrite <- app_assoc|set_solver|lia|lia].
Qed.

Lemma sorted_split (front back : list Row) a b :
  StronglySorted (fun a b => (a.(row_seq) < b.(row_seq))%Z) (front ++ back)%list -> a ∈ front -> b ∈ back ->
  (a.(row_seq) < b.(row_seq))%Z.
Proof.
  induction front as [|x front IH]; cbn; [set_solver|]. intros Hs. inversion Hs as [|? ? Hs' Hall]; subst.
  rewrite Forall_forall in Hall. intros [->|Ha]%elem_of_cons Hb; [apply Hall; set_solver|by apply IH].
Qed.

Lemma sorted_filter (P : Row -> Prop) `{!forall x, Decision (P x)} rows :
  StronglySorted (fun a b => (a.(row_seq) < b.(row_seq))%Z) rows ->
  StronglySorted (fun a b => (a.(row_seq) < b.(row_seq))%Z) (filter P rows).
Proof.
  induction 1 as [|row rows _ IH Hall]; [constructor|]. rewrite filter_cons. case_decide; [|done]. constructor; [done|].
  rewrite Forall_forall in *. intros x [_ Hx]%list_elem_of_filter. auto.
Qed.

(** A predicate that keeps the eligible rows keeps the wanted envelopes. *)
Lemma relevant_selected predicate kinds rows :
  (forall row, eligible kinds row = true -> predicate row = true) ->
  (forall row e kind, row ∈ rows -> row_value row = Some e -> row.(row_payload_kind) = Some kind -> kind = envelope_payload_kind e) ->
  relevant kinds (sqlite_journal (filter (fun row => predicate row = true) rows)) = relevant kinds (sqlite_journal rows).
Proof.
  intros Hpred Hkind. unfold sqlite_journal. induction rows as [|row rows IH]; [done|]. rewrite filter_cons. cbn [filter_map].
  assert (IH' := IH ltac:(set_solver)). clear IH. case_decide as Hp; cbn [filter_map].
  - destruct (row_value row) as [e|]; [|done]. by rewrite !relevant_cons, IH'.
  - rewrite IH'. destruct (row_value row) as [e|] eqn:Ev; [|done]. rewrite relevant_cons.
    destruct (of_kind kinds e) eqn:Hof; [|done]. destruct Hp. apply Hpred. unfold eligible.
    destruct (row_payload_kind row) as [kind|] eqn:Ek; [|done]. by rewrite (Hkind row e kind) by (done || set_solver).
Qed.

Lemma journal_selected (predicate : Row -> bool) rows :
  sublist (sqlite_journal (filter (fun row => predicate row = true) rows)) (sqlite_journal rows).
Proof.
  unfold sqlite_journal. induction rows as [|row rows IH]; [done|]. rewrite filter_cons. case_decide; cbn [filter_map];
    destruct (row_value row); by (try constructor).
Qed.

(** What is read off the rows of one statement; no eligible row before the last
    one read is unsound. *)
Lemma select_page {F} (undecoded : Row -> string -> F) failed predicate kinds c limit budget rows page :
  table_ok rows -> (0 < limit)%N -> (forall row, eligible kinds row = true -> predicate row = true) ->
  collect_rows sid undecoded failed budget (select_rows predicate (Z.of_N c) limit rows) [] 0 = Ok page ->
  is_page kinds c (sqlite_journal rows) page /\
  forall row, row ∈ rows -> (Z.of_N c < row.(row_seq))%Z -> eligible kinds row = true -> row_value row = None ->
    exists e, last page = Some e /\ (e.(seq) < Z.to_N row.(row_seq))%N.
Proof.
  intros [Hsort Hpos Hkind] Hlim Hpred (n & -> & Hsound & Hn & Hle)%collect_spec. cbn [app].
  unfold select_rows in *. set (later := filter (fun row => (Z.of_N c < row_seq row)%Z) rows) in *.
  set (m := N.to_nat (N.min limit I64_MAX)) in *. rewrite take_take in *. set (k := Nat.min n m) in *.
  assert (Hin : forall row, row ∈ later -> row ∈ rows) by (by intros row [_ ?]%list_elem_of_filter).
  assert (Hk : filter (fun row => predicate row = true) later <> [] -> (0 < k)%nat).
  { intros Hne. unfold k. assert (0 < m)%nat by (unfold m, I64_MAX; lia). enough (0 < n)%nat by lia.
    apply Hn; [done|]. destruct (filter _ later); [done|]. destruct m; [lia|done]. }
  destruct (filter_split _ _ _ _ (eq_sym (take_drop k (filter (fun row => predicate row = true) later))))
    as (front & back & El & Ef & Eb). rewrite <- Ef in *.
  assert (Hfront : forall row, row ∈ front -> eligible kinds row = true -> row ∈ filter (fun row => predicate row = true) front).
  { intros row Hr He. apply list_elem_of_filter. auto. }
  assert (Hrel : relevant kinds (sqlite_journal (filter (fun row => predicate row = true) front)) = relevant kinds (sqlite_journal front)).
  { apply relevant_selected; [done|]. intros row e kind Hr. apply Hkind, Hin. rewrite El. set_solver. }
  assert (Hnone : filter (fun row => predicate row = true) front = [] -> forall row, row ∈ later -> eligible kinds row = true -> False).
  { intros E row Hr He. destruct (filter (fun row => predicate row = true) later) as [|x l] eqn:Ea.
    - assert (H : row ∈ filter (fun row => predicate row = true) later) by (apply list_elem_of_filter; auto). rewrite Ea in H. by apply elem_of_nil in H.
    - specialize (Hk ltac:(done)). rewrite Ef in E. destruct k; [lia|done]. }
  assert (Hempty : sqlite_journal (filter (fun row => predicate row = true) front) = [] -> filter (fun row => predicate row = true) front = []).
  { destruct (filter _ front) as [|x l] eqn:Ex; [done|]. destruct (Hsound x) as [e He]; [by left|]. cbn. by rewrite He. }
  split.
  - exists (sqlite_journal front), (sqlite_journal back). split_and!.
    + by rewrite journal_after, <- journal_app, <- El.
    + apply journal_selected.
    + done.
    + intros E. apply journal_relevant.
      * intros row Hr. apply (Hnone (Hempty E)). rewrite El. set_solver.
      * intros row e kind Hr. apply Hkind, Hin. rewrite El. set_solver.
  - intros row Hr Hc He Hbad. assert (Hl : row ∈ later) by (by apply list_elem_of_filter).
    destruct (last (filter (fun row => predicate row = true) front)) as [x|] eqn:Elast.
    2: { apply last_None in Elast. by destruct (Hnone Elast row Hl He). }
    apply last_Some in Elast as [l Elast]. destruct (Hsound x) as [e Hx]; [rewrite Elast; set_solver|].
    exists e. rewrite Elast, journal_app. cbn. rewrite Hx, last_snoc. split; [done|].
    destruct (row_value_seq _ _ Hx) as (? & -> & _). enough (row_seq x < row_seq row)%Z by lia.
    assert (Hxf : x ∈ front) by (assert (H' : x ∈ filter (fun row => predicate row = true) front) by (rewrite Elast; set_solver);
      by apply list_elem_of_filter in H' as [_ ?]).
    rewrite El in Hl. apply elem_of_app in Hl as [Hl|Hl].
    + destruct (Hsound row) as [? ?]; [by apply Hfront|congruence].
    + eapply sorted_split; [|exact Hxf|exact Hl]. rewrite <- El. by apply sorted_filter.
Qed.

Lemma sqlite_page_ok c limit budget kinds rows page :
  table_ok rows -> (0 < limit)%N -> kinds <> [] ->
  sqlite_read_reducer_page sid rows c limit budget kinds = Ok page ->
  is_page kinds c (sqlite_journal rows) page /\
  forall row, row ∈ rows -> (Z.of_N c < row.(row_seq))%Z -> eligible kinds row = true -> row_value row = None ->
    exists e, last page = Some e /\ (e.(seq) < Z.to_N row.(row_seq))%N.
Proof.
  intros Hok Hl Hk. unfold sqlite_read_reducer_page. rewrite (proj2 (N.eqb_neq limit 0)) by lia.
  rewrite bool_decide_eq_false_2 by done. cbn [orb]. unfold read_reducer_page_with_connection, read_page, to_sqlite_integer.
  rewrite (proj2 (N.eqb_neq limit 0)) by lia. destruct (c <=? I64_MAX)%N; cbn [map_err result_bind]; [|by destruct connection_error].
  destruct connection_error; [done|]. destruct (statement_error sid c); [done|].
  destruct (collect_rows sid (fun _ _ => Decode) _ _ _ _ _) as [envelopes|[|error]] eqn:E; [|..|done].
  - intros [= <-]. eapply (select_page _ _ (eligible kinds)); [done|done|done|exact E].
  - intros Hp. eapply select_page; [done|done| |exact Hp]. done.
Qed.

(** A reader whose calls do not fail, on a table whose rows are all sound. *)
Lemma collect_total {E} (undecoded : Row -> string -> E) failed budget rows : forall envelopes spent,
  (forall row, row_error row = None) -> (forall row, row ∈ rows -> is_Some (row_value row)) ->
  exists page, collect_rows sid undecoded failed budget rows envelopes spent = Ok page.
Proof.
  induction rows as [|row rows IH]; intros envelopes spent Herr Hall; cbn [collect_rows]; [eauto|]. rewrite Herr.
  destruct (Hall row) as [e Hv]; [by left|]. unfold row_value in Hv. destruct (row_envelope row) as [x|]; [|done].
  destruct (validate_stored_envelope sid row x); [|done]. destruct (_ && _); [eauto|]. destruct (_ <=? _)%N; [eauto|].
  apply IH; [done|]. intros r Hr. apply Hall. by right.
Qed.

Lemma sqlite_page_total c limit budget kinds rows :
  connection_error = None -> (forall s, statement_error sid s = None) -> (forall row, row_error row = None) -> (c <= I64_MAX)%N ->
  (forall row, row ∈ rows -> is_Some (row_value row)) ->
  exists page, sqlite_read_reducer_page sid rows c limit budget kinds = Ok page.
Proof.
  intros Hcn Hst Herr Hc Hall. unfold sqlite_read_reducer_page, read_reducer_page_with_connection, to_sqlite_integer.
  rewrite Hcn, Hst, (proj2 (N.leb_le _ _) Hc). cbn [map_err result_bind].
  destruct (_ || _); [eauto|]. destruct (collect_total (fun _ _ => Decode) StoreFailure budget
    (select_rows (eligible kinds) (Z.of_N c) limit rows) [] 0%N Herr) as [page ->]; [|eauto].
  intros row Hr. apply Hall. unfold select_rows in Hr. apply elem_of_take in Hr as (i & Hi & _).
  apply list_elem_of_lookup_2, list_elem_of_filter in Hi as [_ Hi]. by apply list_elem_of_filter in Hi as [_ ?].
Qed.

Lemma sqlite_increasing rows : table_ok rows -> increasing (sqlite_journal rows).
Proof.
  intros [Hs Hr _]. unfold sqlite_journal. induction Hs as [|row rows _ IH Hall]; [constructor|]. cbn.
  specialize (IH ltac:(set_solver)). destruct (row_value row) as [e|] eqn:Ev; [|done]. constructor; [done|].
  apply Forall_forall. intros x (r & Hin & Ex)%filter_map_elem. rewrite Forall_forall in Hall. specialize (Hall r Hin).
  destruct (row_value_seq _ _ Ev) as (? & -> & _), (row_value_seq _ _ Ex) as (? & -> & _). lia.
Qed.
End SqliteLaws.

Record SqliteStore := { tables : gmap SessionId (list Row) }.
Definition table (sid : SessionId) (store : SqliteStore) : list Row := default [] (store.(tables) !! sid).

(** The store behind [SqliteStoreHandle], with whatever append. *)
Definition sqlite_handle `{!MemoryLayout} `{!SqliteEngine}
    (sqlite_append : N -> list RawEnvelope -> SqliteStore -> result (list RawEnvelope) HaiderError * SqliteStore)
  : StoreHandle SqliteStore := {|
  sh_journal sid store := sqlite_journal sid (table sid store);
  sh_append := sqlite_append;
  sh_page sid cursor limit budget kinds store := sqlite_read_reducer_page sid (table sid store) cursor limit budget kinds
|}.
