(* ===== verification/Recovery.v ===== *)
(** * Startup recovery (haider-core recovery.rs)

    After a crash the journal is all that is left of the broker: an effect that
    was dispatched and has no outcome gets the outcome [Unknown], and, when it
    belongs to a run, a menu that asks the user to settle it.  The store is any
    [StoreHandle].  Time enters through [RecoveryClock] (which deadlines expired)
    and process liveness through [ProcessProbe]; both are parameters.  Page loops
    run on fuel, [None] is out of fuel. *)

From stdpp Require Import sorting.
From S2P Require Import Prelude RustStr Digest Cas EffectTypes Json Envelope Events Journal JournalProps.

Local Open Scope string_scope.

Definition RECOVERY_PAGE_SIZE : N := 1024.
Definition RECOVERY_REDUCER_PAYLOAD_KINDS : list string := ["effect"; "menu_opened"; "menu_answered"; "menu_closed"].
Definition RECOVERY_EVIDENCE_PAYLOAD_KINDS : list string :=
  ["effect"; "task_completed"; "item"; "item_tool_call"; "tool_result"; "process_signal_recorded"].

(** ** Identities *)

(** The bytes two hexadecimal digits stand for. *)
Definition hex_val (c : ascii) : N := if is_ascii_digit c then byte_val c - 48 else byte_val c - 87.
Fixpoint unhex (s : string) : string :=
  match s with
  | String a (String b s) => String (ascii_of_N (hex_val a * 16 + hex_val b)) (unhex s)
  | _ => ""
  end.

Section Ids.
Context {blake3 : Blake3}.

(** [hash_part]: the digest of each part, as bytes. *)
Definition hash_parts (parts : list string) : string := blake3_hex (concat_str (map (fun part => unhex (blake3_hex part)) parts)).

Definition recovery_event_id (session : string) (generation : N) (effect : string) : string :=
  "recovery-" ++ hash_parts [session; u64_be generation; effect].
Definition recovery_event_id_for (session : string) (generation : N) (effect kind : string) : string :=
  "recovery-" ++ hash_parts [session; u64_be generation; effect; kind].
Definition recovery_menu_id (session effect : string) : MenuId := "effect-recovery-" ++ hash_parts [session; effect].
End Ids.

(** ** Reduction *)

Record RecoveryDispatch := {
  rd_event_id : string;
  rd_session_id : SessionId;
  rd_branch_id : option string;
  rd_run_id : option string;
  rd_agent_id : option string;
  rd_authority_epoch : N
}.

(** The three maps the reducer fills; an outcome is kept as "is it unknown". *)
Record Reduction := {
  red_dispatched : gmap EffectId RecoveryDispatch;
  red_outcomes : gmap EffectId bool;
  red_menus : gmap MenuId EffectId
}.

Definition no_reduction : Reduction := {| red_dispatched := ∅; red_outcomes := ∅; red_menus := ∅ |}.

Definition is_unknown (outcome : EffectOutcome) : bool := bool_decide (outcome = Unknown).

Definition dispatch_of (e : RawEnvelope) : RecoveryDispatch :=
  {| rd_event_id := e.(event_id); rd_session_id := e.(session_id); rd_branch_id := e.(branch_id); rd_run_id := e.(run_id);
     rd_agent_id := e.(agent_id); rd_authority_epoch := e.(authority_epoch) |}.

(** The arms of the reducer's match. *)
Definition reduce_event (e : RawEnvelope) (event : EventPayload) (red : Reduction) : Reduction :=
  match event with
  | EEffect (Dispatched effect) =>
      {| red_dispatched := <[effect := dispatch_of e]> red.(red_dispatched); red_outcomes := red.(red_outcomes);
         red_menus := red.(red_menus) |}
  | EEffect (Outcome effect outcome _ _) =>
      {| red_dispatched := red.(red_dispatched); red_outcomes := <[effect := is_unknown outcome]> red.(red_outcomes);
         red_menus := red.(red_menus) |}
  | EMenuOpened menu =>
      match menu.(menu_kind) with
      | RecoveryMenu effect _ =>
          {| red_dispatched := red.(red_dispatched); red_outcomes := red.(red_outcomes);
             red_menus := <[menu.(menu_id) := effect]> red.(red_menus) |}
      | _ => red
      end
  | EMenuAnswered answer =>
      {| red_dispatched := red.(red_dispatched); red_outcomes := red.(red_outcomes);
         red_menus := delete answer.(ans_menu) red.(red_menus) |}
  | EMenuClosed menu _ =>
      {| red_dispatched := red.(red_dispatched); red_outcomes := red.(red_outcomes);
         red_menus := delete menu red.(red_menus) |}
  | _ => red
  end.

Section Reduce.
Context {json : EventJson}.

Definition reduce_envelope (e : RawEnvelope) (red : Reduction) : result Reduction HaiderError :=
  if negb (tag_in (type_tag e.(payload)) RECOVERY_REDUCER_PAYLOAD_KINDS) then Ok red
  else
    match decode_event e.(payload) with
    | Err error => Err (store_error StoreCorrupt ("invalid effect payload in session " ++ e.(session_id) ++ ", seq "
                                                  ++ pretty e.(seq) ++ ": " ++ error) false)
    | Ok event => Ok (reduce_event e event red)
    end.

Fixpoint reduce_page (page : list RawEnvelope) (red : Reduction) : result Reduction HaiderError :=
  match page with
  | [] => Ok red
  | e :: page => (let? red := reduce_envelope e red in reduce_page page red)%res
  end.

(** ** Paging *)

(** [loop { page = read(cursor)?; if empty break; cursor = last.seq; step(page)? }]. *)
Fixpoint fold_pages {A} (read_page : N -> result (list RawEnvelope) HaiderError)
    (step : list RawEnvelope -> A -> result A HaiderError) (fuel : nat) (cursor : N) (acc : A)
  : option (result A HaiderError) :=
  match fuel with
  | 0%nat => None
  | S fuel =>
      match read_page cursor with
      | Err error => Some (Err error)
      | Ok page =>
          match last page with
          | None => Some (Ok acc)
          | Some e =>
              match step page acc with
              | Err error => Some (Err error)
              | Ok acc => fold_pages read_page step fuel e.(seq) acc
              end
          end
      end
  end.
End Reduce.

(** ** Evidence for the user *)

Record RecoveryEvidence := mkEvidence {
  re_call_id : option string;
  re_agent_id : option string;
  re_dispatch_seq : option N;
  re_pid : option Z;
  re_recorded_revision : option string;
  re_result_committed : bool;
  re_artifact_committed : bool;
  re_artifact_seq : option N;
  re_latest_mutation_seq : option N
}.
Definition no_evidence : RecoveryEvidence := mkEvidence None None None None None false false None None.

Record CommittedCallEvidence := { cc_result_seq : option N; cc_artifact_seq : option N }.

Record Gathering := mkGathering {
  ga_evidence : gmap EffectId RecoveryEvidence;
  ga_open_calls : list (option string * string * string);
  ga_call_evidence : gmap (option string * string) CommittedCallEvidence;
  ga_current_revision : option string
}.

Definition item_call_id (item : TurnItem) : option string :=
  match item with
  | ToolCall call_id _ _ _ | CommandExecution call_id _ _ _ => Some call_id
  | _ => None
  end.

(** The call of the agent, if it has exactly one open. *)
Definition sole_open_call (open_calls : list (option string * string * string)) (agent : option string) : option string :=
  match filter (fun c => c.1.1 = agent) open_calls with
  | [c] => Some c.2
  | _ => None
  end.

(** [Value::as_i64] of an integer literal. *)
Definition as_i64 (v : Value) : option Z :=
  match v with
  | Number (String c text) =>
      if Ascii.eqb c "-"%char
      then match parse_digits 0 text with
           | Some n => if (n =? 0)%N || (9223372036854775808 <? n)%N || is_empty text then None else Some (- Z.of_N n)%Z
           | None => None
           end
      else match parse_digits 0 (String c text) with
           | Some n => if (9223372036854775807 <? n)%N then None else Some (Z.of_N n)
           | None => None
           end
  | _ => None
  end.

Definition i32_try_from (z : Z) : option Z := if ((-2147483648 <=? z) && (z <=? 2147483647))%Z then Some z else None.

Fixpoint find_map_field (fields : list string) (v : Value) : option Z :=
  match fields with
  | [] => None
  | field :: fields =>
      match (x ← get field v; as_i64 x) with
      | Some pid => Some pid
      | None => find_map_field fields v
      end
  end.

Definition effect_dispatch_pid (v : Value) : option Z :=
  if negb (bool_decide (get_str "phase" v = Some "dispatched")) then None
  else pid ← find_map_field ["pid"; "process_group"; "process_group_id"; "pgid"] v; i32_try_from pid.

(** [str::parse::<u64>]. *)
Definition parse_u64 (s : string) : option N :=
  let digits := match s with String c rest => if Ascii.eqb c "+"%char then rest else s | "" => "" end in
  if is_empty digits then None
  else match parse_digits 0 digits with
       | Some n => if (u64_max <? n)%N then None else Some n
       | None => None
       end.
Definition workspace_revision_seq (revision : string) : option N :=
  s ← strip_prefix "workspace-revision:" revision; parse_u64 s.

Inductive EvidencePidLiveness := Alive | Dead | LivenessUnknown.

(** [probe_group_liveness_evidence] in a blocking task, which may fail. *)
Class ProcessProbe := probe_liveness : Z -> option EvidencePidLiveness.

Definition with_agent (agent : option string) (p : RecoveryEvidence) : RecoveryEvidence :=
  mkEvidence p.(re_call_id) agent p.(re_dispatch_seq) p.(re_pid) p.(re_recorded_revision) p.(re_result_committed)
    p.(re_artifact_committed) p.(re_artifact_seq) p.(re_latest_mutation_seq).
Definition with_mutation_seq (s : N) (p : RecoveryEvidence) : RecoveryEvidence :=
  mkEvidence p.(re_call_id) p.(re_agent_id) p.(re_dispatch_seq) p.(re_pid) p.(re_recorded_revision) p.(re_result_committed)
    p.(re_artifact_committed) p.(re_artifact_seq) (Some s).
Definition with_call (call : option string) (p : RecoveryEvidence) : RecoveryEvidence :=
  mkEvidence call p.(re_agent_id) p.(re_dispatch_seq) p.(re_pid) p.(re_recorded_revision) p.(re_result_committed)
    p.(re_artifact_committed) p.(re_artifact_seq) p.(re_latest_mutation_seq).
Definition with_dispatch (s : N) (pid : option Z) (p : RecoveryEvidence) : RecoveryEvidence :=
  mkEvidence p.(re_call_id) p.(re_agent_id) (Some s) pid p.(re_recorded_revision) p.(re_result_committed)
    p.(re_artifact_committed) p.(re_artifact_seq) p.(re_latest_mutation_seq).
Definition with_recorded (revision : option string) (p : RecoveryEvidence) : RecoveryEvidence :=
  mkEvidence p.(re_call_id) p.(re_agent_id) p.(re_dispatch_seq) p.(re_pid) revision p.(re_result_committed)
    p.(re_artifact_committed) p.(re_artifact_seq) p.(re_latest_mutation_seq).
Definition with_artifact_seq (s : N) (p : RecoveryEvidence) : RecoveryEvidence :=
  mkEvidence p.(re_call_id) p.(re_agent_id) p.(re_dispatch_seq) p.(re_pid) p.(re_recorded_revision) p.(re_result_committed)
    p.(re_artifact_committed) (Some s) p.(re_latest_mutation_seq).
Definition with_committed (result artifact : bool) (p : RecoveryEvidence) : RecoveryEvidence :=
  mkEvidence p.(re_call_id) p.(re_agent_id) p.(re_dispatch_seq) p.(re_pid) p.(re_recorded_revision) result artifact
    p.(re_artifact_seq) p.(re_latest_mutation_seq).

Section Evidence.
Context {json : EventJson} {probe : ProcessProbe}.
Variables (run : option string) (branch : option string) (effects : list EffectId).

Definition gather_start : Gathering :=
  mkGathering (list_to_map (map (fun effect => (effect, no_evidence)) effects)) [] ∅ (Some "workspace-revision:0").

(** The revision a mutation event carries, from the raw payload. *)
Definition mutation_revision (v : Value) : option string :=
  let kind := get_str "type" v in
  if bool_decide (kind = Some "effect") && bool_decide (get_str "phase" v = Some "outcome")
     || bool_decide (kind = Some "task_completed")
  then m ← get "workspace_mutation" v; get_str "workspace_revision" m
  else None.

Definition note_mutation (e : RawEnvelope) (g : Gathering) : Gathering :=
  match mutation_revision (deref e.(payload)) with
  | Some revision =>
      mkGathering (with_mutation_seq e.(seq) <$> g.(ga_evidence)) g.(ga_open_calls) g.(ga_call_evidence) (Some revision)
  | None => g
  end.

Definition alter_probe (effect : EffectId) (f : RecoveryEvidence -> RecoveryEvidence) (g : Gathering) : Gathering :=
  mkGathering (alter f effect g.(ga_evidence)) g.(ga_open_calls) g.(ga_call_evidence) g.(ga_current_revision).
Definition with_open_calls (calls : list (option string * string * string)) (g : Gathering) : Gathering :=
  mkGathering g.(ga_evidence) calls g.(ga_call_evidence) g.(ga_current_revision).

(** The arms of the match, for an envelope of the run and branch. *)
Definition gather_event (e : RawEnvelope) (event : EventPayload) (g : Gathering) : Gathering :=
  let agent := e.(agent_id) in
  match event with
  | EItem (Started id item) =>
      match item_call_id item with
      | Some call => with_open_calls (g.(ga_open_calls) ++ [(agent, id, call)]) g
      | None => g
      end
  | EItem (Completed id _) => with_open_calls (filter (fun c => c.1.2 <> id) g.(ga_open_calls)) g
  | EEffect (Intent intent) =>
      if bool_decide (intent.(in_effect) ∈ effects)
      then alter_probe intent.(in_effect) (fun p =>
             with_recorded intent.(in_workspace_revision)
               (with_call (sole_open_call g.(ga_open_calls) agent) (with_agent agent p))) g
      else g
  | EEffect (Dispatched effect) =>
      if bool_decide (effect ∈ effects)
      then alter_probe effect (fun p =>
             let p := with_dispatch e.(seq) (effect_dispatch_pid (deref e.(payload))) (with_agent agent p) in
             match p.(re_call_id) with
             | None => with_call (sole_open_call g.(ga_open_calls) agent) p
             | Some _ => p
             end) g
      else g
  | EToolResult call_id result =>
      let committed := default {| cc_result_seq := None; cc_artifact_seq := None |} (g.(ga_call_evidence) !! (agent, call_id)) in
      let has_artifact := negb (bool_decide (result.(bo_artifact) = None)) || (0 <? N.of_nat (length result.(bo_images)))%N in
      mkGathering g.(ga_evidence) g.(ga_open_calls)
        (<[(agent, call_id) := {| cc_result_seq := Some e.(seq);
                                  cc_artifact_seq := if has_artifact then Some e.(seq) else committed.(cc_artifact_seq) |}]>
           g.(ga_call_evidence)) g.(ga_current_revision)
  | EProcessSignalRecorded signal =>
      if bool_decide (signal.(ps_effect_id) ∈ effects)
      then alter_probe signal.(ps_effect_id) (fun p =>
             let p := with_call (Some signal.(ps_call_id)) (with_agent agent p) in
             match signal.(ps_artifact) with Some _ => with_artifact_seq e.(seq) p | None => p end) g
      else g
  | _ => g
  end.

Definition gather_envelope (g : Gathering) (e : RawEnvelope) : Gathering :=
  let g := note_mutation e g in
  if negb (bool_decide (e.(run_id) = run)) || negb (bool_decide (e.(branch_id) = branch)) then g
  else match decode_event e.(payload) with
       | Err _ => g
       | Ok event => gather_event e event g
       end.

(** What was committed after the dispatch. *)
Definition later_than (seq : option N) (dispatch : N) : bool := match seq with Some s => (dispatch <? s)%N | None => false end.
Definition conclude_probe (g : Gathering) (p : RecoveryEvidence) : RecoveryEvidence :=
  let p := match p.(re_call_id), p.(re_dispatch_seq) with
           | Some call, Some dispatch =>
               match g.(ga_call_evidence) !! (p.(re_agent_id), call) with
               | Some c => with_committed (later_than c.(cc_result_seq) dispatch) (later_than c.(cc_artifact_seq) dispatch) p
               | None => p
               end
           | _, _ => p
           end in
  match p.(re_dispatch_seq), p.(re_artifact_seq) with
  | Some dispatch, Some artifact => with_committed p.(re_result_committed) (p.(re_artifact_committed) || (dispatch <? artifact)%N) p
  | _, _ => p
  end.

(** The four findings. *)
Definition process_finding (p : RecoveryEvidence) : option string :=
  pid ← p.(re_pid);
  l ← probe_liveness pid;
  Some (match l with Alive => "process alive" | Dead => "process dead" | LivenessUnknown => "process unknown" end).
Definition result_finding (p : RecoveryEvidence) : option string :=
  _ ← p.(re_call_id); Some (if p.(re_result_committed) then "result committed" else "no result committed").
Definition artifact_finding (p : RecoveryEvidence) : option string :=
  if p.(re_artifact_committed) then Some "artifact present" else None.
Definition workspace_finding (p : RecoveryEvidence) (current : option string) : option string :=
  if match p.(re_dispatch_seq), p.(re_latest_mutation_seq) with
     | Some dispatch, Some mutation => (dispatch <? mutation)%N
     | _, _ => false
     end
  then Some "workspace ADVANCED past dispatch"
  else
    recorded ← p.(re_recorded_revision);
    current ← current;
    if String.eqb current recorded then Some "workspace revision unchanged"
    else match workspace_revision_seq recorded, workspace_revision_seq current with
         | Some r, Some c => if (r <? c)%N then Some "workspace ADVANCED since effect record" else None
         | _, _ => None
         end.

Definition render_recovery_evidence (p : RecoveryEvidence) (current : option string) : string :=
  let process := process_finding p in
  let result := result_finding p in
  let artifact := artifact_finding p in
  let workspace := workspace_finding p current in
  let findings := filter_map id [process; result; artifact; workspace] in
  match findings with
  | [] => "probe: evidence unavailable"
  | _ =>
      let caution := bool_decide (process = Some "process alive") || bool_decide (result = Some "result committed")
                     || bool_decide (artifact = Some "artifact present")
                     || match workspace with Some f => starts_with "workspace ADVANCED" f | None => false end in
      let likely_safe := bool_decide (process = Some "process dead") && bool_decide (result = Some "no result committed")
                         && bool_decide (artifact = None) && bool_decide (workspace = Some "workspace revision unchanged") in
      "probe: " ++ join " · " findings
      ++ (if caution then " — verify before Retry" else if likely_safe then " — Retry is likely safe" else "")
  end.

Definition conclude (g : Gathering) : gmap EffectId string :=
  (fun p => render_recovery_evidence (conclude_probe g p) g.(ga_current_revision)) <$> g.(ga_evidence).

Definition unavailable_evidence : gmap EffectId string :=
  list_to_map (map (fun effect => (effect, "probe: evidence unavailable")) effects).

(** [gather_effect_recovery_evidence] over a store's pages. *)
Definition gather_effect_recovery_evidence (read_page : N -> result (list RawEnvelope) HaiderError) (fuel : nat)
  : option (result (gmap EffectId string) HaiderError) :=
  match fold_pages read_page (fun page g => Ok (foldl gather_envelope g page)) fuel 0 gather_start with
  | None => None
  | Some (Err error) => Some (Err error)
  | Some (Ok g) => Some (Ok (conclude g))
  end.

(** [effect_recovery_evidence]: a late or failed sweep degrades. *)
Definition effect_recovery_evidence (late : bool) (read_page : N -> result (list RawEnvelope) HaiderError) (fuel : nat)
  : option (gmap EffectId string) :=
  if late then Some unavailable_evidence
  else match gather_effect_recovery_evidence read_page fuel with
       | None => None
       | Some (Ok evidence) => Some evidence
       | Some (Err _) => Some unavailable_evidence
       end.
End Evidence.

(** ** Reconciliation *)

Record RecoveryReport := { rr_reconciled_effects : list EffectId; rr_opened_recovery_menus : list EffectId }.

(** Which deadlines expire: the whole session's, and a group's. *)
Class RecoveryClock := { session_late : SessionId -> bool; group_late : SessionId -> list EffectId -> bool }.

Definition pending_le (a b : EffectId * RecoveryDispatch) : Prop := String.le a.1 b.1.
#[export] Instance pending_le_dec : RelDecision pending_le.
Proof. intros a b. unfold pending_le. apply _. Defined.

(** No outcome yet, or unknown, owned by a run and without an open menu. *)
Definition is_pending (red : Reduction) (p : EffectId * RecoveryDispatch) : bool :=
  match red.(red_outcomes) !! p.1 with
  | None => true
  | Some true => negb (bool_decide (p.2.(rd_run_id) = None)) && negb (bool_decide (p.1 ∈ map snd (map_to_list red.(red_menus))))
  | Some false => false
  end.
Definition pending_of (red : Reduction) : list (EffectId * RecoveryDispatch) :=
  merge_sort pending_le (filter (fun p => is_pending red p = true) (map_to_list red.(red_dispatched))).

(** Effects of one run and branch are probed together. *)
Fixpoint add_to_group (run : string) (branch : option string) (effect : EffectId)
    (groups : list (string * option string * list EffectId)) : list (string * option string * list EffectId) :=
  match groups with
  | [] => [(run, branch, [effect])]
  | (r, b, effects) :: groups =>
      if String.eqb r run && bool_decide (b = branch) then (r, b, effects ++ [effect]) :: groups
      else (r, b, effects) :: add_to_group run branch effect groups
  end%list.
Definition evidence_groups (pending : list (EffectId * RecoveryDispatch)) : list (string * option string * list EffectId) :=
  foldl (fun groups p => match p.2.(rd_run_id) with
                         | None => groups
                         | Some run => add_to_group run p.2.(rd_branch_id) p.1 groups
                         end) [] pending.

Section Reconcile.
Context {blake3 : Blake3} {json : EventJson} {probe : ProcessProbe} {clock : RecoveryClock}.

Definition recovery_envelope (generation : N) (device : string) (d : RecoveryDispatch) (id : string) (event : EventPayload)
  : result RawEnvelope HaiderError :=
  match from_event event with
  | Err error => Err (store_error Internal ("recovery payload could not serialize: " ++ error) false)
  | Ok raw =>
      Ok (mkEnvelope 1 id 0 d.(rd_session_id) d.(rd_branch_id) d.(rd_run_id) d.(rd_agent_id) device d.(rd_authority_epoch)
            generation (Some d.(rd_event_id)) None 0 {| rt_ui := true; rt_durable := true; rt_prompt := Pruned |} raw)
  end.

(** The menu, with the evidence as its last line. *)
Definition push_body (line : string) (m : Menu) : Menu :=
  {| menu_id := m.(menu_id); menu_kind := m.(menu_kind); menu_title := m.(menu_title);
     menu_body := (m.(menu_body) ++ [line])%list; menu_options := m.(menu_options); menu_blocking := m.(menu_blocking);
     menu_scope := m.(menu_scope); menu_origin := m.(menu_origin); menu_ttl_ms := m.(menu_ttl_ms);
     menu_timeout_option := m.(menu_timeout_option) |}.
Definition recovery_menu (sid : SessionId) (effect : EffectId) (evidence : gmap EffectId string) : Menu :=
  push_body (default "probe: evidence unavailable" (evidence !! effect))
    (effect_recovery_menu (recovery_menu_id sid effect) effect ("effect " ++ effect)).

(** The envelopes of one pending effect. *)
Definition recovery_of (generation : N) (device : string) (sid : SessionId) (red : Reduction)
    (evidence : gmap EffectId string) (p : EffectId * RecoveryDispatch) : result (list RawEnvelope) HaiderError :=
  let '(effect, d) := p in
  (let? outcome := if negb (bool_decide (red.(red_outcomes) !! effect = None)) then Ok []
                   else let? e := recovery_envelope generation device d (recovery_event_id sid generation effect)
                                    (EEffect (Outcome effect Unknown None None)) in Ok [e] in
   if bool_decide (d.(rd_run_id) = None) then Ok outcome
   else
     let? menu := recovery_envelope generation device d (recovery_event_id_for sid generation effect "menu")
                    (EMenuOpened (recovery_menu sid effect evidence)) in
     let? state := recovery_envelope generation device d (recovery_event_id_for sid generation effect "state")
                     (ERunState EffectOutcomeUnknown) in
     Ok (outcome ++ [menu; state])%list)%res.

Fixpoint recovery_batch (generation : N) (device : string) (sid : SessionId) (red : Reduction)
    (evidence : gmap EffectId string) (pending : list (EffectId * RecoveryDispatch)) : result (list RawEnvelope) HaiderError :=
  match pending with
  | [] => Ok []
  | p :: pending =>
      (let? envelopes := recovery_of generation device sid red evidence p in
       let? rest := recovery_batch generation device sid red evidence pending in
       Ok (envelopes ++ rest)%list)%res
  end.

Definition reconciled_of (red : Reduction) (pending : list (EffectId * RecoveryDispatch)) : list EffectId :=
  map fst (filter (fun p => red.(red_outcomes) !! p.1 = None) pending).
Definition opened_of (pending : list (EffectId * RecoveryDispatch)) : list EffectId :=
  map fst (filter (fun p => p.2.(rd_run_id) <> None) pending).

Section Store.
Context {S : Type} `{!StoreHandle S}.

Definition fuel_for (sid : SessionId) (store : S) : nat := Datatypes.S (length (sh_journal sid store)).

(** [read_startup_recovery_page], with the byte budget [usize::MAX]. *)
Definition read_startup_recovery_page (budget : N) (sid : SessionId) (store : S) (cursor : N)
  : result (list RawEnvelope) HaiderError :=
  sh_page sid cursor RECOVERY_PAGE_SIZE budget RECOVERY_REDUCER_PAYLOAD_KINDS store.
Definition read_evidence_page (budget : N) (sid : SessionId) (store : S) (cursor : N)
  : result (list RawEnvelope) HaiderError :=
  sh_page sid cursor RECOVERY_PAGE_SIZE budget RECOVERY_EVIDENCE_PAYLOAD_KINDS store.

Definition reduce_session (budget : N) (sid : SessionId) (store : S) : option (result Reduction HaiderError) :=
  fold_pages (read_startup_recovery_page budget sid store) reduce_page (fuel_for sid store) 0 no_reduction.

Fixpoint group_evidence (budget : N) (sid : SessionId) (store : S) (groups : list (string * option string * list EffectId))
    (evidence : gmap EffectId string) : option (gmap EffectId string) :=
  match groups with
  | [] => Some evidence
  | (run, branch, effects) :: groups =>
      found ← effect_recovery_evidence (Some run) branch effects (group_late sid effects)
                (read_evidence_page budget sid store) (fuel_for sid store);
      group_evidence budget sid store groups (found ∪ evidence)
  end.
Definition session_evidence (budget : N) (sid : SessionId) (store : S) (pending : list (EffectId * RecoveryDispatch))
  : option (gmap EffectId string) :=
  let groups := evidence_groups pending in
  if session_late sid then Some (unavailable_evidence (concat (map snd groups)))
  else group_evidence budget sid store groups ∅.

(** One session; [None] is out of fuel. *)
Definition reconcile_session (budget generation now : N) (device : string) (sid : SessionId) (report : RecoveryReport) (store : S)
  : option (result RecoveryReport HaiderError * S) :=
  reduced ← reduce_session budget sid store;
  match reduced with
  | Err error => Some (Err error, store)
  | Ok red =>
      match pending_of red with
      | [] => Some (Ok report, store)
      | pending =>
          evidence ← session_evidence budget sid store pending;
          match recovery_batch generation device sid red evidence pending with
          | Err error => Some (Err error, store)
          | Ok batch =>
              match sh_append now batch store with
              | (Err error, store) => Some (Err error, store)
              | (Ok _, store) =>
                  Some (Ok {| rr_reconciled_effects := report.(rr_reconciled_effects) ++ reconciled_of red pending;
                              rr_opened_recovery_menus := report.(rr_opened_recovery_menus) ++ opened_of pending |}%list,
                        store)
              end
          end
      end
  end.

(** [reconcile_dispatched_effects] over the sessions the store lists. *)
Fixpoint reconcile_sessions (budget generation now : N) (device : string) (sids : list SessionId) (report : RecoveryReport)
    (store : S) : option (result RecoveryReport HaiderError * S) :=
  match sids with
  | [] => Some (Ok report, store)
  | sid :: sids =>
      done ← reconcile_session budget generation now device sid report store;
      match done with
      | (Err error, store) => Some (Err error, store)
      | (Ok report, store) => reconcile_sessions budget generation now device sids report store
      end
  end.
Definition reconcile_dispatched_effects (budget generation now : N) (device : string) (sids : list SessionId) (store : S)
  : option (result RecoveryReport HaiderError * S) :=
  reconcile_sessions budget generation now device sids {| rr_reconciled_effects := []; rr_opened_recovery_menus := [] |} store.
End Store.
End Reconcile.
