(* ===== verification/RecoveryProps.v ===== *)
(** * What startup recovery guarantees

    Reading in pages reduces the whole journal; a pass settles every dispatched
    effect and touches nothing else; a second pass finds nothing to do; and a
    crash of the broker at any point followed by a pass leaves a legal history
    for every effect. *)

From stdpp Require Import sorting.
From S2P Require Import Prelude RustStr Digest Cas EffectTypes Json Envelope Events Journal JournalProps Recovery.

Local Open Scope string_scope.

Section Paging.
Context {json : EventJson}.

Lemma reduce_page_app l1 l2 : forall red,
  reduce_page (l1 ++ l2) red = (let? red := reduce_page l1 red in reduce_page l2 red)%res.
Proof.
  induction l1 as [|e l1 IH]; intros red; [done|]. cbn. destruct (reduce_envelope e red); cbn; [apply IH|done].
Qed.

(** What the page reader leaves out, the reducer ignores. *)
Lemma reduce_irrelevant e red : of_kind RECOVERY_REDUCER_PAYLOAD_KINDS e = false -> reduce_envelope e red = Ok red.
Proof.
  intros Hk. unfold reduce_envelope. destruct (tag_in (type_tag e.(payload)) _) eqn:Et; [|done].
  unfold tag_in in Et. destruct (type_tag e.(payload)) as [tag|] eqn:Ety; [|done].
  unfold of_kind, envelope_payload_kind in Hk. rewrite Ety in Hk. cbn [default] in Hk.
  change (id tag) with tag in Hk.
  destruct (String.eqb tag "item") eqn:Eq; [apply String.eqb_eq in Eq; rewrite Eq in Et; by vm_compute in Et|]. cbn [andb] in Hk. congruence.
Qed.

Lemma reduce_relevant j : forall red, reduce_page (relevant RECOVERY_REDUCER_PAYLOAD_KINDS j) red = reduce_page j red.
Proof.
  induction j as [|e j IH]; intros red; [done|]. unfold relevant. rewrite filter_cons. case_decide as Hk.
  - cbn. destruct (reduce_envelope e red); cbn; [apply IH|done].
  - cbn. rewrite reduce_irrelevant by (by destruct (of_kind _ e)). apply IH.
Qed.

Lemma last_split {A} (l : list A) x : last l = Some x -> exists l', l = (l' ++ [x])%list.
Proof. apply last_Some. Qed.

(** After a page that ends in [e], what is left of the wanted kinds is what
    the page's first part does not hold. *)
Lemma page_continues kinds cursor j l e front back :
  increasing j -> after cursor j = (front ++ back)%list -> sublist (l ++ [e])%list front ->
  relevant kinds (l ++ [e])%list = relevant kinds front ->
  (cursor < e.(seq))%N /\ length (after e.(seq) j) < length (after cursor j) /\
  relevant kinds (after e.(seq) j) = relevant kinds back.
Proof.
  intros Hj Ea Hsub Hrel.
  assert (Hin : e ∈ front) by (eapply elem_of_submseteq; [|by apply sublist_submseteq]; set_solver).
  assert (Hc : (cursor < e.(seq))%N).
  { assert (H : e ∈ after cursor j) by (rewrite Ea; set_solver). by apply list_elem_of_filter in H as [? _]. }
  pose proof (after_increasing cursor j Hj) as Hi. pose proof Hi as Hf. rewrite Ea in Hf.
  apply increasing_app in Hf as (Hf & _ & _). pose proof (increasing_sublist _ _ Hsub Hf) as (_ & _ & Hle)%increasing_app.
  apply list_elem_of_split in Hin as (f1 & f2 & ->). rewrite <- app_assoc in Ea. cbn in Ea.
  assert (Hafter : after e.(seq) j = (f2 ++ back)%list).
  { rewrite <- (after_after cursor e.(seq)) by lia. by apply (after_last _ f1). }
  split; [done|]. rewrite Hafter, Ea, !length_app. cbn. rewrite length_app. split; [lia|].
  rewrite relevant_app. replace (relevant kinds f2) with (@nil RawEnvelope); [done|]. symmetry.
  destruct (relevant kinds f2) as [|x r] eqn:Er; [done|exfalso].
  assert (Hx : x ∈ relevant kinds f2) by (rewrite Er; by left).
  assert (Hx' : x ∈ (l ++ [e])%list).
  { assert (H : x ∈ relevant kinds (l ++ [e])%list); [|by apply list_elem_of_filter in H as [_ ?]].
    rewrite Hrel. change (f1 ++ e :: f2)%list with (f1 ++ [e] ++ f2)%list. rewrite !relevant_app. set_solver. }
  apply list_elem_of_filter in Hx as [_ Hx]. change (e :: f2) with ([e] ++ f2)%list in Hf. rewrite app_assoc in Hf.
  apply increasing_app in Hf as (_ & _ & Hlt). specialize (Hlt e x ltac:(set_solver) Hx).
  apply elem_of_app in Hx' as [Hx'| ->%list_elem_of_singleton]; [|lia]. specialize (Hle x e Hx' ltac:(by left)). lia.
Qed.

(** The loop over pages ends, and folds all of the wanted kinds that is left
    after its cursor, when the step ignores the other kinds. *)
Lemma fold_pages_spec {A} (step : list RawEnvelope -> A -> result A HaiderError) kinds rd j :
  (forall acc, step [] acc = Ok acc) ->
  (forall l1 l2 acc, step (l1 ++ l2)%list acc = (let? acc := step l1 acc in step l2 acc)%res) ->
  increasing j ->
  (forall cursor page, rd cursor = Ok page -> is_page kinds cursor j page) ->
  forall fuel cursor acc, length (after cursor j) < fuel ->
  exists r, fold_pages rd step fuel cursor acc = Some r /\
    ((forall page acc, step (relevant kinds page) acc = step page acc) ->
     r = step (relevant kinds (after cursor j)) acc \/
     exists c error, (c = cursor \/ exists e, e ∈ j /\ c = e.(seq)) /\ rd c = Err error /\ r = Err error).
Proof.
  intros Hnil Happ Hj Hrd. induction fuel as [|fuel IH]; intros cursor acc Hf; [lia|]. cbn [fold_pages].
  destruct (rd cursor) as [page|error] eqn:Erd; [|exists (Err error); split; [done|]; right; exists cursor, error; auto].
  destruct (Hrd _ _ Erd) as (front & back & Ea & Hsub & Hrel & Hempty).
  destruct (last page) as [e|] eqn:El.
  2: { apply last_None in El. eexists. split; [done|]. intros _. left.
    rewrite Ea, relevant_app, <- Hrel, El, (Hempty El). cbn. by rewrite Hnil. }
  destruct (last_split _ _ El) as [l ->].
  destruct (page_continues kinds cursor j l e front back Hj Ea Hsub Hrel) as (Hc & Hlen & Hrest).
  assert (Hall : (forall page acc, step (relevant kinds page) acc = step page acc) ->
    step (relevant kinds (after cursor j)) acc =
    (let? acc := step (l ++ [e])%list acc in step (relevant kinds (after e.(seq) j)) acc)%res).
  { intros Hign. by rewrite Ea, relevant_app, Happ, <- Hrel, Hign, Hrest. }
  destruct (step (l ++ [e])%list acc) as [acc'|error].
  - destruct (IH e.(seq) acc') as (r & Er & Hr); [lia|]. exists r. split; [done|]. intros Hign.
    rewrite (Hall Hign). destruct (Hr Hign) as [?|(c & error & Hwhere & ?)]; [by left|right].
    exists c, error. split; [|done]. right. destruct Hwhere as [->|?]; [|done]. exists e. split; [|done].
    assert (He : e ∈ after cursor j); [|by apply list_elem_of_filter in He as [_ ?]]. rewrite Ea. apply elem_of_app. left.
    eapply elem_of_submseteq; [|by apply sublist_submseteq]. set_solver.
  - exists (Err error). split; [done|]. intros Hign. rewrite (Hall Hign). by left.
Qed.

(** A loop that succeeds has passed nothing bad, when no page does. *)
Lemma fold_pages_clear {A} (step : list RawEnvelope -> A -> result A HaiderError) rd (bad : N -> Prop) :
  (forall cursor page q, rd cursor = Ok page -> bad q -> (cursor < q)%N -> exists e, last page = Some e /\ (e.(seq) < q)%N) ->
  forall fuel cursor acc acc', fold_pages rd step fuel cursor acc = Some (Ok acc') -> forall q, (cursor < q)%N -> ~ bad q.
Proof.
  intros Hrd. induction fuel as [|fuel IH]; intros cursor acc acc'; cbn [fold_pages]; [done|].
  destruct (rd cursor) as [page|] eqn:Erd; [|done]. intros E q Hq Hbad. destruct (Hrd _ _ _ Erd Hbad Hq) as (e & El & Hlt).
  rewrite El in E. destruct (step page acc) as [acc1|]; [|done]. by eapply IH.
Qed.
End Paging.

(** ** A journal as events *)

Section Events.
Context {json : EventJson}.

(** The decoded events of the recovery kinds. *)
Definition record_of (e : RawEnvelope) : option (RawEnvelope * EventPayload) :=
  if tag_in (type_tag e.(payload)) RECOVERY_REDUCER_PAYLOAD_KINDS
  then match decode_event e.(payload) with Ok event => Some (e, event) | Err _ => None end
  else None.
Definition recorded (j : list RawEnvelope) : list (RawEnvelope * EventPayload) := filter_map record_of j.

Definition phase_of (p : RawEnvelope * EventPayload) : option EffectPhase :=
  match p.2 with EEffect phase => Some phase | _ => None end.
(** The effect phases of a journal, in order. *)
Definition effect_phases (j : list RawEnvelope) : list EffectPhase := filter_map phase_of (recorded j).

Definition outcome_for (effect : EffectId) (phase : EffectPhase) : option EffectOutcome :=
  match phase with Outcome e o _ _ => if bool_decide (e = effect) then Some o else None | _ => None end.
Definition last_outcome (effect : EffectId) (phases : list EffectPhase) : option EffectOutcome :=
  last (filter_map (outcome_for effect) phases).

Lemma recorded_app l1 l2 : recorded (l1 ++ l2)%list = (recorded l1 ++ recorded l2)%list.
Proof. apply filter_map_app. Qed.
Lemma effect_phases_app l1 l2 : effect_phases (l1 ++ l2)%list = (effect_phases l1 ++ effect_phases l2)%list.
Proof. unfold effect_phases. by rewrite recorded_app, filter_map_app. Qed.

Definition fold_recorded (l : list (RawEnvelope * EventPayload)) (red : Reduction) : Reduction :=
  foldl (fun red p => reduce_event p.1 p.2 red) red l.

Lemma reduce_page_ok j : forall red red', reduce_page j red = Ok red' -> red' = fold_recorded (recorded j) red.
Proof.
  induction j as [|e j IH]; intros red red'; cbn; [by intros [= <-]|].
  unfold reduce_envelope, record_of. destruct (tag_in _ _); cbn; [|apply IH].
  destruct (decode_event e.(payload)) as [event|error]; cbn; [|done]. apply IH.
Qed.

(** What the reduction knows of an effect. *)
Lemma fold_dispatched effect l : is_Some ((fold_recorded l no_reduction).(red_dispatched) !! effect) <->
  Dispatched effect ∈ filter_map phase_of l.
Proof.
  induction l as [|p l IH] using rev_ind; [cbn; rewrite lookup_empty; split; [intros [x Hx]; done|set_solver]|].
  unfold fold_recorded in *. rewrite foldl_snoc, filter_map_app, elem_of_app, <- IH. destruct p as [e event]. cbn.
  destruct event as [|menu| | | | |phase| | | |]; cbn; try (destruct (menu_kind menu)); cbn; try set_solver.
  destruct phase as [| |d|]; cbn; try set_solver. destruct (decide (d = effect)) as [->|Hne].
  - rewrite lookup_insert_eq. split; [right; set_solver|eauto].
  - rewrite lookup_insert_ne by done. split; [by left|]. intros [?|E%list_elem_of_singleton]; [done|]. by injection E as ->.
Qed.

Lemma fold_outcomes effect l : (fold_recorded l no_reduction).(red_outcomes) !! effect =
  is_unknown <$> last_outcome effect (filter_map phase_of l).
Proof.
  induction l as [|p l IH] using rev_ind; [cbn; by rewrite lookup_empty|].
  unfold fold_recorded, last_outcome in *. rewrite foldl_snoc, !filter_map_app. destruct p as [e event]. cbn.
  destruct event as [|menu| | | | |phase| | | |]; cbn; try (destruct (menu_kind menu)); cbn; rewrite ?app_nil_r; try done.
  destruct phase as [| | |d o f m]; cbn; rewrite ?app_nil_r; try done. case_bool_decide as Hd; cbn.
  - subst. rewrite lookup_insert_eq, last_snoc. done.
  - rewrite app_nil_r, lookup_insert_ne by done. done.
Qed.

(** A dispatch is taken from an envelope of the journal. *)
Lemma fold_dispatch_of effect d l : (fold_recorded l no_reduction).(red_dispatched) !! effect = Some d ->
  exists e, (e, EEffect (Dispatched effect)) ∈ l /\ d = dispatch_of e.
Proof.
  induction l as [|p l IH] using rev_ind; [cbn; by rewrite lookup_empty|].
  unfold fold_recorded in *. rewrite foldl_snoc. destruct p as [e event].
  assert (Hgo : forall m, m !! effect = Some d -> red_dispatched (foldl (fun red p => reduce_event p.1 p.2 red) no_reduction l) = m ->
    exists e0, (e0, EEffect (Dispatched effect)) ∈ (l ++ [(e, event)])%list /\ d = dispatch_of e0).
  { intros m Hm <-. destruct (IH Hm) as (e0 & He & ->). exists e0. split; [set_solver|done]. }
  destruct event as [|menu| | | | |phase| | | |]; cbn; try (destruct (menu_kind menu)); cbn; try (intros Hm; by eapply Hgo).
  destruct phase as [| |x|]; cbn; try (intros Hm; by eapply Hgo). destruct (decide (x = effect)) as [->|Hne].
  - rewrite lookup_insert_eq. intros [= <-]. exists e. split; [set_solver|done].
  - rewrite lookup_insert_ne by done. intros Hm. by eapply Hgo.
Qed.

(** An open menu was opened by an envelope of the journal. *)
Lemma fold_menu_of m effect l : (fold_recorded l no_reduction).(red_menus) !! m = Some effect ->
  exists e menu actions, (e, EMenuOpened menu) ∈ l /\ menu.(menu_kind) = RecoveryMenu effect actions /\ menu.(menu_id) = m.
Proof.
  induction l as [|p l IH] using rev_ind; [cbn; by rewrite lookup_empty|].
  unfold fold_recorded in *. rewrite foldl_snoc. destruct p as [e event].
  assert (Hgo : forall x, x !! m = Some effect -> red_menus (foldl (fun red p => reduce_event p.1 p.2 red) no_reduction l) = x ->
    exists e0 menu actions, (e0, EMenuOpened menu) ∈ (l ++ [(e, event)])%list /\ menu.(menu_kind) = RecoveryMenu effect actions /\ menu.(menu_id) = m).
  { intros x Hx <-. destruct (IH Hx) as (e0 & menu & actions & He & ?). exists e0, menu, actions. split; [set_solver|done]. }
  destruct event as [|menu|answer|closed reason| | |phase| | | |]; cbn; try (intros Hm; by eapply Hgo).
  - destruct (menu_kind menu) as [|e' actions|] eqn:Ek; cbn; try (intros Hm; by eapply Hgo).
    destruct (decide (menu_id menu = m)) as [Em|Hne].
    + rewrite Em, lookup_insert_eq. intros [= ->]. exists e, menu, actions. split; [set_solver|done].
    + rewrite lookup_insert_ne by done. intros Hm. by eapply Hgo.
  - intros Hm. apply lookup_delete_Some in Hm as [_ Hm]. by eapply Hgo.
  - intros Hm. apply lookup_delete_Some in Hm as [_ Hm]. by eapply Hgo.
  - destruct phase; cbn; intros Hm; by eapply Hgo.
Qed.

(** Without a dispatch, the dispatches stay. *)
Lemma fold_dispatched_same l red : (forall e effect, (e, EEffect (Dispatched effect)) ∉ l) ->
  (fold_recorded l red).(red_dispatched) = red.(red_dispatched).
Proof.
  revert red. induction l as [|[e event] l IH]; intros red Hl; [done|]. unfold fold_recorded in *. cbn.
  rewrite IH by (intros e' x Hx; apply (Hl e' x); by right). pose proof (fun x => Hl e x) as He.
  destruct event as [|menu| | | | |phase| | | |]; cbn; try done; [by destruct (menu_kind menu)|].
  destruct phase as [| |x|]; cbn; try done. destruct (He x). by left.
Qed.

(** ** Open menus *)

(** No event of the list closes a menu. *)
Definition opens_only (l : list (RawEnvelope * EventPayload)) : Prop :=
  forall e event, (e, event) ∈ l -> match event with EMenuAnswered _ | EMenuClosed _ _ => False | _ => True end.
(** Every recovery menu of the list with this id is for the effect. *)
Definition opened_for (m : MenuId) (effect : EffectId) (l : list (RawEnvelope * EventPayload)) : Prop :=
  forall e menu e' actions, (e, EMenuOpened menu) ∈ l -> menu.(menu_kind) = RecoveryMenu e' actions -> menu.(menu_id) = m -> e' = effect.

Lemma menu_stays m effect l : forall red, opens_only l -> opened_for m effect l ->
  red.(red_menus) !! m = Some effect -> (fold_recorded l red).(red_menus) !! m = Some effect.
Proof.
  induction l as [|[e event] l IH]; intros red Ho Hf Hm; [done|]. unfold fold_recorded in *. cbn.
  apply IH; [intros e' ev' Hin; eapply Ho; by right|intros e' menu e'' actions Hin; eapply Hf; by right|].
  pose proof (Ho e event ltac:(by left)) as Hev. destruct event as [|menu| | | | |phase| | | |]; cbn in *; try done.
  - destruct (menu_kind menu) as [|e' actions|] eqn:Ek; [done| |done]. cbn. destruct (decide (menu_id menu = m)) as [Em|Hne].
    + rewrite Em, lookup_insert_eq. f_equal. eapply (Hf e menu e' actions); [by left|done..].
    + by rewrite lookup_insert_ne.
  - by destruct phase.
Qed.

Lemma menu_opens m effect l e menu actions : opens_only l -> opened_for m effect l -> (e, EMenuOpened menu) ∈ l ->
  menu.(menu_kind) = RecoveryMenu effect actions -> menu.(menu_id) = m -> forall red, (fold_recorded l red).(red_menus) !! m = Some effect.
Proof.
  intros Ho Hf Hin Hk Hi red. apply list_elem_of_split in Hin as (l1 & l2 & ->). unfold fold_recorded. rewrite foldl_app. cbn [foldl].
  fold (fold_recorded l2). apply menu_stays.
  - intros e' ev' He'. apply (Ho e' ev'). set_solver.
  - intros e' menu' e'' actions' He'. apply (Hf e' menu' e'' actions'). set_solver.
  - cbn. rewrite Hk. cbn. rewrite Hi. apply lookup_insert_eq.
Qed.
End Events.

(** ** The batch of one session *)

Section Batch.
Context {blake3 : Blake3} {json : EventJson} {laws : EventJsonLaws json}.
Variables (generation : N) (device : string) (sid : SessionId) (red : Reduction) (evidence : gmap EffectId string).

(** What recovery writes for a pending effect. *)
Definition recovery_event (p : EffectId * RecoveryDispatch) (event : EventPayload) : Prop :=
  (event = EEffect (Outcome p.1 Unknown None None) /\ red.(red_outcomes) !! p.1 = None) \/
  (p.2.(rd_run_id) <> None /\ (event = EMenuOpened (recovery_menu sid p.1 evidence) \/ event = ERunState EffectOutcomeUnknown)).

Lemma envelope_decodes d id event e : recovery_envelope generation device d id event = Ok e ->
  decode_event e.(payload) = Ok event /\ e.(session_id) = d.(rd_session_id) /\ e.(run_id) = d.(rd_run_id) /\
  e.(causation_id) = Some d.(rd_event_id) /\
  (forall kind, event_kind event = Some kind -> type_tag e.(payload) = Some kind).
Proof.
  unfold recovery_envelope. destruct (from_event event) as [raw|error] eqn:E; [|done]. intros [= <-]. cbn.
  split; [by apply decode_from_event|]. split_and!; try done. intros kind. by apply from_event_tag.
Qed.

(** The envelopes of one effect: its outcome if it has none, its menu and state if it has a run. *)
Lemma recovery_of_cases effect d es : recovery_of generation device sid red evidence (effect, d) = Ok es ->
  exists out, (if bool_decide (red.(red_outcomes) !! effect = None)
               then exists e, out = [e] /\ recovery_envelope generation device d (recovery_event_id sid generation effect)
                                             (EEffect (Outcome effect Unknown None None)) = Ok e
               else out = []) /\
    (if bool_decide (d.(rd_run_id) = None) then es = out
     else exists menu state, es = (out ++ [menu; state])%list /\
       recovery_envelope generation device d (recovery_event_id_for sid generation effect "menu")
         (EMenuOpened (recovery_menu sid effect evidence)) = Ok menu /\
       recovery_envelope generation device d (recovery_event_id_for sid generation effect "state")
         (ERunState EffectOutcomeUnknown) = Ok state).
Proof.
  unfold recovery_of. intros Ee. destruct (bool_decide (red.(red_outcomes) !! effect = None)); cbn [negb result_bind] in *;
    [destruct (recovery_envelope _ _ _ (recovery_event_id _ _ _) _) as [e0|] eqn:E0; cbn [result_bind] in Ee; [|done]; exists [e0]
    |exists []]; (split; [by eauto|]).
  all: destruct (bool_decide (d.(rd_run_id) = None)); [by injection Ee as <-|].
  all: destruct (recovery_envelope _ _ _ (recovery_event_id_for _ _ _ "menu") _) as [m0|] eqn:E1; cbn [result_bind] in Ee; [|done].
  all: destruct (recovery_envelope _ _ _ (recovery_event_id_for _ _ _ "state") _) as [s0|] eqn:E2; cbn [result_bind] in Ee; [|done].
  all: injection Ee as <-; by exists m0, s0.
Qed.

(** Each envelope is of one pending effect, and the ones a pending effect needs are there. *)
Lemma batch_spec pending : forall batch, recovery_batch generation device sid red evidence pending = Ok batch ->
  (forall e, e ∈ batch -> exists p event, p ∈ pending /\ recovery_event p event /\ decode_event e.(payload) = Ok event /\
     e.(session_id) = p.2.(rd_session_id) /\ (forall kind, event_kind event = Some kind -> type_tag e.(payload) = Some kind)) /\
  (forall p, p ∈ pending ->
     (red.(red_outcomes) !! p.1 = None -> exists e, e ∈ batch /\ decode_event e.(payload) = Ok (EEffect (Outcome p.1 Unknown None None)) /\
        type_tag e.(payload) = Some "effect") /\
     (p.2.(rd_run_id) <> None -> exists e, e ∈ batch /\ decode_event e.(payload) = Ok (EMenuOpened (recovery_menu sid p.1 evidence)) /\
        type_tag e.(payload) = Some "menu_opened")).
Proof.
  induction pending as [|[effect d] pending IH]; intros batch; cbn [recovery_batch]; [intros [= <-]; split; set_solver|].
  destruct (recovery_of generation device sid red evidence (effect, d)) as [es|error] eqn:Ee; cbn [result_bind]; [|done].
  destruct (recovery_batch generation device sid red evidence pending) as [rest|error] eqn:Er; cbn [result_bind]; [|done].
  intros [= <-]. destruct (IH rest eq_refl) as [IH1 IH2].
  apply recovery_of_cases in Ee as (out & Ho & Hr). split.
  - intros e [He|He]%elem_of_app; [|destruct (IH1 e He) as (p & ev & ? & ?); exists p, ev; split; [by right|done]].
    assert (Hcase : e ∈ out \/ (d.(rd_run_id) <> None /\ exists ev id, recovery_envelope generation device d id ev = Ok e /\
      (ev = EMenuOpened (recovery_menu sid effect evidence) \/ ev = ERunState EffectOutcomeUnknown))).
    { destruct (bool_decide (d.(rd_run_id) = None)) eqn:Hrun; [rewrite Hr in He; by left|]. apply bool_decide_eq_false in Hrun.
      destruct Hr as (menu & state & -> & Em & Es).
      apply elem_of_app in He as [?|[->|He]%elem_of_cons]; [by left|right; eauto 8|]. apply list_elem_of_singleton in He as ->. right. eauto 8. }
    destruct Hcase as [Hin|(Hrun & ev & id & Ev & Hev)].
    + destruct (bool_decide (red.(red_outcomes) !! effect = None)) eqn:Hnone; [|by rewrite Ho in Hin; apply elem_of_nil in Hin].
      apply bool_decide_eq_true in Hnone. destruct Ho as (e0 & -> & E0). apply list_elem_of_singleton in Hin as ->.
      destruct (envelope_decodes _ _ _ _ E0) as (H1 & H2 & _ & _ & H3). exists (effect, d), (EEffect (Outcome effect Unknown None None)).
      split; [by left|]. split; [by left|]. done.
    + destruct (envelope_decodes _ _ _ _ Ev) as (H1 & H2 & _ & _ & H3). exists (effect, d), ev.
      split; [by left|]. split; [by right|]. done.
  - intros p [->|Hp]%elem_of_cons; cbn [fst snd].
    2: { destruct (IH2 p Hp) as [H1 H2]. split; [intros Hn; destruct (H1 Hn) as (e & ? & ?)|intros Hn; destruct (H2 Hn) as (e & ? & ?)];
           exists e; (split; [apply elem_of_app; by right|done]). }
    split.
    + intros Hn. rewrite bool_decide_eq_true_2 in Ho by done. destruct Ho as (e0 & -> & E0).
      destruct (envelope_decodes _ _ _ _ E0) as (H1 & _ & _ & _ & H3). exists e0. split; [|split; [done|by apply H3]].
      apply elem_of_app. left. destruct (bool_decide (d.(rd_run_id) = None)); [rewrite Hr; by left|]. destruct Hr as (? & ? & -> & _). by left.
    + intros Hn. rewrite bool_decide_eq_false_2 in Hr by done. destruct Hr as (menu & state & -> & Em & _).
      destruct (envelope_decodes _ _ _ _ Em) as (H1 & _ & _ & _ & H3). exists menu. split; [|split; [done|by apply H3]].
      apply elem_of_app. left. apply elem_of_app. right. by left.
Qed.

Lemma envelope_phases d id event e kind : recovery_envelope generation device d id event = Ok e -> event_kind event = Some kind ->
  effect_phases [e] = if tag_in (Some kind) RECOVERY_REDUCER_PAYLOAD_KINDS then option_list (phase_of (e, event)) else [].
Proof.
  intros E Hk. destruct (envelope_decodes _ _ _ _ E) as (Hd & _ & _ & _ & Ht). unfold effect_phases, recorded. cbn [filter_map].
  unfold record_of. rewrite (Ht kind Hk), Hd. destruct (tag_in _ _); [|done]. cbn [filter_map]. by destruct (phase_of (e, event)).
Qed.

(** The phases of the batch: one unknown outcome per effect that had none. *)
Lemma batch_phases pending : forall batch, recovery_batch generation device sid red evidence pending = Ok batch ->
  effect_phases batch = map (fun p => Outcome p.1 Unknown None None) (filter (fun p => red.(red_outcomes) !! p.1 = None) pending).
Proof.
  induction pending as [|[effect d] pending IH]; intros batch; cbn [recovery_batch]; [by intros [= <-]|].
  destruct (recovery_of generation device sid red evidence (effect, d)) as [es|error] eqn:Ee; cbn [result_bind]; [|done].
  destruct (recovery_batch generation device sid red evidence pending) as [rest|error] eqn:Er; cbn [result_bind]; [|done].
  intros [= <-]. rewrite effect_phases_app, (IH rest eq_refl). rewrite filter_cons. cbn [fst].
  apply recovery_of_cases in Ee as (out & Ho & Hr). assert (Hes : effect_phases es = effect_phases out).
  { destruct (bool_decide (d.(rd_run_id) = None)); [by rewrite Hr|]. destruct Hr as (menu & state & -> & Em & Es).
    rewrite effect_phases_app. change [menu; state] with ([menu] ++ [state])%list.
    rewrite effect_phases_app, (envelope_phases _ _ _ _ "menu_opened" Em eq_refl), (envelope_phases _ _ _ _ "run_state" Es eq_refl).
    cbn. by rewrite app_nil_r. }
  rewrite Hes. destruct (bool_decide (red.(red_outcomes) !! effect = None)) eqn:Hn.
  - apply bool_decide_eq_true in Hn. rewrite decide_True by done. destruct Ho as (e & -> & E0).
    by rewrite (envelope_phases _ _ _ _ "effect" E0 eq_refl).
  - apply bool_decide_eq_false in Hn. rewrite decide_False by done. by rewrite Ho.
Qed.
End Batch.
