(* ===== verification/RecoveryPass.v ===== *)
(** * One recovery pass over a store, and the next *)

From stdpp Require Import sorting.
From S2P Require Import Prelude RustStr Digest EffectTypes Policy Json Broker BrokerInv.
From S2P Require Import Cas Envelope Events Journal JournalProps Recovery RecoveryProps.

Local Open Scope string_scope.

Section Pass.
Context {blake3 : Blake3} {json : EventJson} {json_laws : EventJsonLaws json} {probe : ProcessProbe} {clock : RecoveryClock}.
Context {St : Type} {handle : StoreHandle St} {store_laws : StoreLaws St}.

(** ** Totality *)

(** Every read the pass makes is answered. *)
Definition readable (s : St) : Prop :=
  forall sid cursor limit budget kinds, exists page, sh_page sid cursor limit budget kinds s = Ok page.

Lemma after_zero sid s : sh_ok s -> after 0 (sh_journal sid s) = sh_journal sid s.
Proof.
  intros Hs. apply after_all. destruct (sh_numbered s sid Hs) as [_ H]. eapply Forall_impl; [exact H|]. by intros e [? _].
Qed.

Lemma pages_of_session {A} (step : list RawEnvelope -> A -> result A HaiderError) kinds budget sid s acc :
  sh_ok s -> kinds <> [] -> (forall acc, step [] acc = Ok acc) ->
  (forall l1 l2 acc, step (l1 ++ l2)%list acc = (let? acc := step l1 acc in step l2 acc)%res) ->
  exists r, fold_pages (fun cursor => sh_page sid cursor RECOVERY_PAGE_SIZE budget kinds s) step (fuel_for sid s) 0 acc = Some r /\
    ((forall page acc, step (relevant kinds page) acc = step page acc) ->
     r = step (sh_journal sid s) acc \/
     exists c error, sh_page sid c RECOVERY_PAGE_SIZE budget kinds s = Err error /\ r = Err error).
Proof.
  intros Hs Hk Hnil Happ. destruct (sh_numbered s sid Hs) as [Hi _].
  destruct (fold_pages_spec step kinds (fun cursor => sh_page sid cursor RECOVERY_PAGE_SIZE budget kinds s) (sh_journal sid s)
    Hnil Happ Hi) with (fuel := fuel_for sid s) (cursor := 0%N) (acc := acc) as (r & E & Hr).
  - intros cursor page E. eapply (sh_page_ok s sid cursor RECOVERY_PAGE_SIZE budget); [done|done|done|exact E].
  - rewrite after_zero by done. unfold fuel_for. lia.
  - exists r. split; [done|]. intros Hign. rewrite after_zero, Hign in Hr by done.
    destruct (Hr Hign) as [?|(c & error & _ & ? & ?)]; eauto.
Qed.

Lemma reduce_session_readable budget sid s : sh_ok s -> readable s ->
  reduce_session budget sid s = Some (reduce_page (sh_journal sid s) no_reduction).
Proof.
  intros Hs Hr. destruct (pages_of_session reduce_page RECOVERY_REDUCER_PAYLOAD_KINDS budget sid s no_reduction Hs)
    as (r & E & Hcase); [done|done|apply reduce_page_app|].
  destruct (Hcase reduce_relevant) as [->|(c & error & Hc & _)]; [exact E|].
  destruct (Hr sid c RECOVERY_PAGE_SIZE budget RECOVERY_REDUCER_PAYLOAD_KINDS). congruence.
Qed.

Lemma reduce_session_cases budget sid s : sh_ok s ->
  exists r, reduce_session budget sid s = Some r /\ (forall red, r = Ok red -> reduce_page (sh_journal sid s) no_reduction = Ok red).
Proof.
  intros Hs. destruct (pages_of_session reduce_page RECOVERY_REDUCER_PAYLOAD_KINDS budget sid s no_reduction Hs)
    as (r & E & Hr); [done|done|apply reduce_page_app|]. exists r. split; [exact E|]. intros red ->.
  destruct (Hr reduce_relevant) as [<-|(c & error & _ & [=])]. done.
Qed.

Lemma evidence_total run branch effects late budget sid s : sh_ok s ->
  is_Some (effect_recovery_evidence run branch effects late (read_evidence_page budget sid s) (fuel_for sid s)).
Proof.
  intros Hs. unfold effect_recovery_evidence, gather_effect_recovery_evidence. destruct late; [by eauto|].
  destruct (pages_of_session (fun page g => Ok (foldl (gather_envelope run branch effects) g page)) RECOVERY_EVIDENCE_PAYLOAD_KINDS
    budget sid s (gather_start effects) Hs) as (r & E & _); [done|done|intros l1 l2 acc; cbn; by rewrite foldl_app|].
  unfold read_evidence_page. rewrite E. destruct r; eauto.
Qed.

Lemma group_evidence_total budget sid s groups : sh_ok s -> forall evidence, is_Some (group_evidence budget sid s groups evidence).
Proof.
  intros Hs. induction groups as [|[[run branch] effects] groups IH]; intros evidence; cbn; [by eauto|].
  destruct (evidence_total (Some run) branch effects (group_late sid effects) budget sid s Hs) as [found ->]. cbn. apply IH.
Qed.

Lemma session_evidence_total budget sid s pending : sh_ok s -> is_Some (session_evidence budget sid s pending).
Proof. intros Hs. unfold session_evidence. destruct (session_late sid); [by eauto|by apply group_evidence_total]. Qed.

(** ** One session *)

(** What recovery may add to a journal: facts about an effect that was
    dispatched and whose outcome is missing or unknown. *)
Definition recovery_fact (j : list RawEnvelope) (e : RawEnvelope) : Prop :=
  exists effect event, decode_event e.(payload) = Ok event /\ Dispatched effect ∈ effect_phases j /\
    ((event = EEffect (Outcome effect Unknown None None) /\ last_outcome effect (effect_phases j) = None) \/
     (last_outcome effect (effect_phases j) ∈ [None; Some Unknown] /\
      (event = ERunState EffectOutcomeUnknown \/
       exists menu, event = EMenuOpened menu /\ menu.(menu_kind) = RecoveryMenu effect [Probe; MarkDone; Retry; Abandon]))).

(** The outcome that is missing from the phases of an effect. *)
Definition missing_outcome (effect : EffectId) (phases : list EffectPhase) : list EffectPhase :=
  if bool_decide (Dispatched effect ∈ phases) && bool_decide (last_outcome effect phases = None)
  then [Outcome effect Unknown None None] else [].

Definition settled_outcome (effect : EffectId) (phases : list EffectPhase) : option EffectOutcome :=
  match last_outcome effect phases with
  | Some o => Some o
  | None => if bool_decide (Dispatched effect ∈ phases) then Some Unknown else None
  end.

(** The reduction of a journal. *)
Definition reduction (j : list RawEnvelope) : Reduction := fold_recorded (recorded j) no_reduction.

(** Menu identities tell effects apart: the recovery menu of a dispatched effect
    has an id that no other dispatched effect's has, nor any other menu in the
    journal. *)
Definition menus_bind (sid : SessionId) (j : list RawEnvelope) : Prop :=
  (forall a b, Dispatched a ∈ effect_phases j -> Dispatched b ∈ effect_phases j ->
     recovery_menu_id sid a = recovery_menu_id sid b -> a = b) /\
  (forall env menu effect actions b, (env, EMenuOpened menu) ∈ recorded j -> menu.(menu_kind) = RecoveryMenu effect actions ->
     Dispatched b ∈ effect_phases j -> menu.(menu_id) = recovery_menu_id sid b -> effect = b).

(** Only recovery facts were added, to each effect's history exactly the outcome
    that was missing, and what is left can be read and has nothing pending. *)
Definition recovered (sid : SessionId) (j j' : list RawEnvelope) : Prop :=
  (exists new, j' = (j ++ new)%list /\ Forall (recovery_fact j) new) /\
  (forall effect, history effect (effect_phases j') =
     history effect (effect_phases j) ++ missing_outcome effect (effect_phases j))%list /\
  reduce_page j' no_reduction = Ok (reduction j') /\
  (menus_bind sid j -> pending_of (reduction j') = []).

Lemma pending_elem red p : p ∈ pending_of red <-> red.(red_dispatched) !! p.1 = Some p.2 /\ is_pending red p = true.
Proof.
  unfold pending_of. rewrite merge_sort_Permutation, list_elem_of_filter. destruct p as [effect d]. cbn.
  rewrite elem_of_map_to_list. tauto.
Qed.

(** What the reduction says of a pending effect. *)
Lemma reduction_outcome j effect : (reduction j).(red_outcomes) !! effect = is_unknown <$> last_outcome effect (effect_phases j).
Proof. apply fold_outcomes. Qed.

Lemma pending_facts j p : p ∈ pending_of (reduction j) ->
  Dispatched p.1 ∈ effect_phases j /\ last_outcome p.1 (effect_phases j) ∈ [None; Some Unknown] /\
  (last_outcome p.1 (effect_phases j) <> None -> p.2.(rd_run_id) <> None).
Proof.
  intros [Hd Hp]%pending_elem. split; [apply fold_dispatched; eauto|]. unfold is_pending in Hp. rewrite reduction_outcome in Hp.
  destruct (last_outcome p.1 (effect_phases j)) as [o|]; cbn in Hp; [|split; [set_solver|done]].
  unfold is_unknown in Hp. case_bool_decide as Ho; [|done]. subst. split; [set_solver|]. intros _.
  apply andb_true_iff in Hp as [Hp _]. by apply negb_true_iff, bool_decide_eq_false in Hp.
Qed.

Lemma dispatch_session sid s effect d : sh_ok s -> (reduction (sh_journal sid s)).(red_dispatched) !! effect = Some d -> d.(rd_session_id) = sid.
Proof.
  intros Hs (e & He & ->)%fold_dispatch_of. destruct (sh_numbered s sid Hs) as [_ Hall]. rewrite Forall_forall in Hall.
  apply filter_map_elem in He as (x & Hx & Ex). unfold record_of in Ex. destruct (tag_in _ _); [|done].
  destruct (decode_event _); [|done]. injection Ex as -> _. by destruct (Hall _ Hx).
Qed.

Lemma no_pending_settled sid j : reduce_page j no_reduction = Ok (reduction j) -> pending_of (reduction j) = [] -> recovered sid j j.
Proof.
  intros Hr Hp. split; [exists []; by rewrite app_nil_r|]. split; [|done]. intros effect. unfold missing_outcome.
  destruct (bool_decide (Dispatched effect ∈ _)) eqn:Hd; [|by rewrite app_nil_r]. apply bool_decide_eq_true, fold_dispatched in Hd as [d Hd].
  case_bool_decide as Hn; [|by rewrite app_nil_r].
  assert (Hin : (effect, d) ∈ pending_of (reduction j)); [|rewrite Hp in Hin; set_solver].
  apply pending_elem. split; [done|]. unfold is_pending. cbn. by rewrite reduction_outcome, Hn.
Qed.

(** ** Outcomes of a longer journal *)

Lemma last_outcome_app effect l1 l2 : last_outcome effect (l1 ++ l2)%list =
  match last_outcome effect l2 with Some o => Some o | None => last_outcome effect l1 end.
Proof. unfold last_outcome. rewrite filter_map_app. apply last_app. Qed.

Lemma last_outcome_some effect l o : last_outcome effect l = Some o -> exists f m, Outcome effect o f m ∈ l.
Proof.
  unfold last_outcome. intros E%last_Some_elem_of. apply filter_map_elem in E as (ph & Hin & Eo).
  destruct ph as [| | |e o' f m]; cbn in Eo; try done. case_bool_decide; [|done]. injection Eo as ->. subst. eauto.
Qed.

Lemma last_outcome_none effect l : last_outcome effect l = None -> forall o f m, Outcome effect o f m ∉ l.
Proof.
  unfold last_outcome. intros E%last_None o f m Hin.
  assert (H : o ∈ filter_map (outcome_for effect) l); [|rewrite E in H; set_solver].
  apply filter_map_elem. exists (Outcome effect o f m). split; [done|]. cbn. by rewrite bool_decide_eq_true_2.
Qed.

Section Stamped.
Context (generation : N) (device : string) (sid : SessionId) (j : list RawEnvelope) (evidence : gmap EffectId string).
Context (batch stamped : list RawEnvelope).
Hypothesis Hbatch : recovery_batch generation device sid (reduction j) evidence (pending_of (reduction j)) = Ok batch.
Hypothesis Hstamped : Forall2 stamped_as batch stamped.

Lemma stamped_elem e' : e' ∈ stamped -> exists e, e ∈ batch /\ e'.(payload) = e.(payload).
Proof.
  intros (n & Hn)%list_elem_of_lookup. destruct (Forall2_lookup_r _ _ _ _ _ Hstamped Hn) as (e & He & s & now & ->).
  exists e. split; [by eapply list_elem_of_lookup_2|done].
Qed.
Lemma batch_elem e : e ∈ batch -> exists e', e' ∈ stamped /\ e'.(payload) = e.(payload).
Proof.
  intros (n & Hn)%list_elem_of_lookup. destruct (Forall2_lookup_l _ _ _ _ _ Hstamped Hn) as (e' & He & s & now & ->).
  eexists. split; [by eapply list_elem_of_lookup_2|done].
Qed.

(** What is recorded of the new envelopes. *)
Lemma new_recorded e event : (e, event) ∈ recorded stamped ->
  exists p, p ∈ pending_of (reduction j) /\ recovery_event sid (reduction j) evidence p event.
Proof.
  intros (x & Hx & Ex)%filter_map_elem. unfold record_of in Ex. destruct (tag_in _ _); [|done].
  destruct (decode_event x.(payload)) as [ev|] eqn:Ed; [|done]. injection Ex as -> ->.
  destruct (stamped_elem _ Hx) as (y & Hy & Epay). destruct (proj1 (batch_spec _ _ _ _ _ _ _ Hbatch) y Hy) as (p & ev & Hp & Hev & Edy & _).
  rewrite <- Epay, Ed in Edy. injection Edy as <-. eauto.
Qed.

Lemma record_new x event kind : x ∈ batch -> decode_event x.(payload) = Ok event -> type_tag x.(payload) = Some kind ->
  tag_in (Some kind) RECOVERY_REDUCER_PAYLOAD_KINDS = true -> exists e, (e, event) ∈ recorded stamped.
Proof.
  intros Hx Hd Ht Hk. destruct (batch_elem _ Hx) as (y & Hy & Epay). exists y. apply filter_map_elem. exists y. split; [done|].
  unfold record_of. by rewrite Epay, Ht, Hk, Hd.
Qed.

Lemma new_phases ph : ph ∈ effect_phases stamped <-> exists p, p ∈ pending_of (reduction j) /\
  last_outcome p.1 (effect_phases j) = None /\ ph = Outcome p.1 Unknown None None.
Proof.
  assert (Hnone : forall e, (reduction j).(red_outcomes) !! e = None <-> last_outcome e (effect_phases j) = None).
  { intros e. rewrite reduction_outcome. by destruct (last_outcome _ _). }
  unfold effect_phases at 1. rewrite filter_map_elem. split.
  - intros ([e event] & Hin & Eph). destruct (new_recorded _ _ Hin) as (p & Hp & Hev). exists p. split; [done|].
    destruct Hev as [[-> Hn]|[_ [-> | ->]]]; cbn in Eph; try done. apply Hnone in Hn. split; [done|]. by injection Eph.
  - intros (p & Hp & Hn & ->). destruct (proj1 (proj2 (batch_spec _ _ _ _ _ _ _ Hbatch) p Hp)) as (x & Hx & Hd & Ht); [by apply Hnone|].
    destruct (record_new _ _ _ Hx Hd Ht eq_refl) as [e He]. by exists (e, EEffect (Outcome p.1 Unknown None None)).
Qed.

Lemma new_facts : Forall (recovery_fact j) stamped.
Proof.
  apply Forall_forall. intros e' He'. destruct (stamped_elem _ He') as (y & Hy & Epay).
  destruct (proj1 (batch_spec _ _ _ _ _ _ _ Hbatch) y Hy) as (p & ev & Hp & Hev & Edy & _).
  destruct (pending_facts _ _ Hp) as (Hd & Ho & _). exists p.1, ev. rewrite Epay. split; [done|]. split; [done|].
  destruct Hev as [[-> Hn]|[_ [-> | ->]]].
  - left. split; [done|]. rewrite reduction_outcome in Hn. by destruct (last_outcome _ _).
  - right. split; [done|]. right. eexists. split; [done|]. done.
  - right. split; [done|]. by left.
Qed.

Lemma new_settled effect : last_outcome effect (effect_phases (j ++ stamped)%list) = settled_outcome effect (effect_phases j).
Proof.
  rewrite effect_phases_app, last_outcome_app. unfold settled_outcome.
  destruct (last_outcome effect (effect_phases stamped)) as [o|] eqn:En.
  - destruct (last_outcome_some _ _ _ En) as (f & m & (p & Hp & Hn & [= -> -> _ _])%new_phases). rewrite Hn.
    destruct (pending_facts _ _ Hp) as (Hd & _). by rewrite bool_decide_eq_true_2.
  - destruct (last_outcome effect (effect_phases j)) as [o|] eqn:Ej; [done|]. case_bool_decide as Hd; [|done]. exfalso.
    assert (Hd' := Hd). apply fold_dispatched in Hd' as [d Hd'].
    assert (Hp : (effect, d) ∈ pending_of (reduction j)).
    { apply pending_elem. split; [done|]. unfold is_pending. cbn. by rewrite reduction_outcome, Ej. }
    refine (last_outcome_none _ _ En Unknown None None _). apply new_phases. by exists (effect, d).
Qed.

Lemma stamped_phases : effect_phases stamped = effect_phases batch.
Proof.
  clear Hbatch. induction Hstamped as [|a b batch' stamped' (s & now & ->) _ IH]; [done|].
  change (effect_phases ([stamp s now a] ++ stamped')%list = effect_phases ([a] ++ batch')%list).
  rewrite !effect_phases_app, IH by (by inversion Hstamped). f_equal. unfold effect_phases, recorded. cbn [filter_map]. unfold record_of. cbn [payload stamp].
  destruct (tag_in _ _); [|done]. by destruct (decode_event _).
Qed.

Lemma history_cons effect p l : history effect (p :: l) = if decide (phase_effect p = effect) then p :: history effect l else history effect l.
Proof. unfold history. rewrite filter_cons. done. Qed.

(** One missing outcome per effect, and no other phase. *)
Lemma history_outcomes effect (ps : list (EffectId * RecoveryDispatch)) : NoDup ps.*1 ->
  history effect (map (fun p => Outcome p.1 Unknown None None) ps) =
  if bool_decide (effect ∈ ps.*1) then [Outcome effect Unknown None None] else [].
Proof.
  induction ps as [|[e d] ps IH]; [done|]. rewrite !(fmap_cons fst). intros [He Hn]%NoDup_cons. cbn [map fst].
  rewrite history_cons. cbn [phase_effect]. rewrite (IH Hn). destruct (decide (e = effect)) as [Heq|Hne].
  - subst e. cbn [fst] in He. rewrite bool_decide_eq_false_2 by done. rewrite bool_decide_eq_true_2 by set_solver. done.
  - rewrite (bool_decide_ext (effect ∈ ps.*1) (effect ∈ e :: ps.*1)); [done|]. set_solver.
Qed.

Lemma pending_nodup : NoDup (filter (fun p => (reduction j).(red_outcomes) !! p.1 = None) (pending_of (reduction j))).*1.
Proof.
  assert (Hn : NoDup (pending_of (reduction j)).*1).
  { unfold pending_of. rewrite merge_sort_Permutation. eapply sublist_NoDup; [apply (NoDup_fst_map_to_list (red_dispatched (reduction j)))|].
    apply fmap_sublist, sublist_filter. }
  eapply sublist_NoDup; [exact Hn|]. apply fmap_sublist, sublist_filter.
Qed.

Lemma history_new effect : history effect (effect_phases (j ++ stamped)%list) =
  (history effect (effect_phases j) ++ missing_outcome effect (effect_phases j))%list.
Proof.
  rewrite effect_phases_app, stamped_phases, (batch_phases _ _ _ _ _ _ _ Hbatch). unfold history at 1. rewrite filter_app.
  f_equal. change (filter _ (map _ ?l)) with (history effect (map (fun p => Outcome p.1 Unknown None None) l)).
  rewrite history_outcomes by apply pending_nodup. unfold missing_outcome. rewrite <- bool_decide_and.
  erewrite bool_decide_ext; [done|].
  rewrite list_elem_of_fmap. setoid_rewrite list_elem_of_filter. split.
  - intros (p & -> & Hn & Hp). rewrite reduction_outcome in Hn. destruct (pending_facts _ _ Hp) as (Hd & _). split; [done|].
    by destruct (last_outcome _ _).
  - intros [Hd Hn]. pose proof Hd as [d Hd']%fold_dispatched. exists (effect, d). split; [done|]. cbn. rewrite reduction_outcome, Hn. split; [done|].
    apply pending_elem. split; [done|]. unfold is_pending. cbn. by rewrite reduction_outcome, Hn.
Qed.

(** Some envelope was written. *)
Lemma batch_nonempty : pending_of (reduction j) <> [] -> batch <> [].
Proof.
  intros Hne. destruct (pending_of (reduction j)) as [|p pending] eqn:Ep; [done|]. assert (Hp : p ∈ pending_of (reduction j)) by (rewrite Ep; by left).
  rewrite <- Ep in Hbatch. destruct (proj2 (batch_spec _ _ _ _ _ _ _ Hbatch) p Hp) as [H1 H2].
  destruct (pending_facts _ _ Hp) as (_ & _ & Hrun). rewrite reduction_outcome in H1.
  destruct (last_outcome p.1 (effect_phases j)) eqn:Eo.
  - destruct (H2 (Hrun ltac:(done))) as (x & He & _). intros ->. by apply elem_of_nil in He.
  - destruct (H1 eq_refl) as (x & He & _). intros ->. by apply elem_of_nil in He.
Qed.

Lemma new_readable : forall red, exists red', reduce_page stamped red = Ok red'.
Proof.
  assert (Hall : Forall (fun e => exists event, decode_event e.(payload) = Ok event) stamped).
  { apply Forall_forall. intros e He. destruct (stamped_elem _ He) as (y & Hy & ->).
    destruct (proj1 (batch_spec _ _ _ _ _ _ _ Hbatch) y Hy) as (_ & ev & _ & _ & E & _). eauto. }
  clear -Hall. induction Hall as [|e l [event He] _ IH]; intros red; cbn; [eauto|].
  unfold reduce_envelope. rewrite He. destruct (negb _); cbn; apply IH.
Qed.

(** Afterwards nothing is pending. *)
Lemma new_quiet : menus_bind sid j -> pending_of (reduction (j ++ stamped)%list) = [].
Proof.
  intros [Hb1 Hb2]. destruct (pending_of (reduction (j ++ stamped)%list)) as [|p pending] eqn:Ep; [done|]. exfalso.
  assert (Hp : p ∈ pending_of (reduction (j ++ stamped)%list)) by (rewrite Ep; by left). clear Ep.
  apply pending_elem in Hp as [Hd Hpend]. unfold is_pending in Hpend. rewrite reduction_outcome, new_settled in Hpend.
  set (red' := reduction (j ++ stamped)%list) in *.
  assert (Ered : red' = fold_recorded (recorded stamped) (reduction j)).
  { unfold red', reduction. rewrite recorded_app. unfold fold_recorded. by rewrite foldl_app. }
  assert (Hnew : forall e event, (e, event) ∈ recorded stamped -> exists q, q ∈ pending_of (reduction j) /\
    (event = EEffect (Outcome q.1 Unknown None None) \/ event = EMenuOpened (recovery_menu sid q.1 evidence) \/ event = ERunState EffectOutcomeUnknown)).
  { intros e event (q & Hq & [[-> _]|[_ [-> | ->]]])%new_recorded; exists q; (split; [done|]); eauto. }
  assert (Hopen : opens_only (recorded stamped)).
  { intros e event He. destruct (Hnew _ _ He) as (q & _ & [-> | [-> | ->]]); done. }
  assert (Hd0 : red_dispatched (reduction j) !! p.1 = Some p.2).
  { rewrite <- Hd, Ered. symmetry. f_equal. apply fold_dispatched_same. intros e x He.
    destruct (Hnew _ _ He) as (q & _ & [E | [E | E]]); done. }
  assert (Hdis : Dispatched p.1 ∈ effect_phases j) by (apply fold_dispatched; eauto).
  assert (Hfor : forall m, (forall q, Dispatched q ∈ effect_phases j -> recovery_menu_id sid q = m -> q = p.1) ->
    opened_for m p.1 (recorded stamped)).
  { intros m Hm e menu e' actions He Hk Hi. destruct (Hnew _ _ He) as (q & Hq & [E | [E | E]]); try done.
    injection E as ->. cbn in Hk. injection Hk as <- _. apply Hm; [by destruct (pending_facts _ _ Hq)|done]. }
  assert (Hmenu : p.2.(rd_run_id) <> None -> exists m, red'.(red_menus) !! m = Some p.1).
  { intros Hrun. destruct (is_pending (reduction j) p) eqn:Epj.
    - assert (Hpj : p ∈ pending_of (reduction j)) by (by apply pending_elem).
      destruct (proj2 (proj2 (batch_spec _ _ _ _ _ _ _ Hbatch) p Hpj) Hrun) as (x & Hx & Hdx & Htx).
      destruct (record_new _ _ _ Hx Hdx Htx eq_refl) as [e He]. exists (recovery_menu_id sid p.1). rewrite Ered.
      eapply menu_opens; [done| |exact He|reflexivity|reflexivity]. apply Hfor. intros q Hq Eq. by apply Hb1.
    - unfold is_pending in Epj. rewrite reduction_outcome in Epj. unfold settled_outcome in Hpend.
      destruct (last_outcome p.1 (effect_phases j)) as [o|]; [|done]. cbn in *. destruct (is_unknown o); [|done].
      rewrite (bool_decide_eq_false_2 (rd_run_id p.2 = None)) in Epj by done. cbn in Epj.
      apply negb_false_iff, bool_decide_eq_true in Epj. apply list_elem_of_fmap in Epj as ([m e] & Ee & Hm%elem_of_map_to_list).
      cbn in Ee. subst e. exists m. rewrite Ered. apply menu_stays; [done| |done]. apply Hfor. intros q Hq Eq.
      destruct (fold_menu_of _ _ _ Hm) as (env & menu & actions & He & Hk & Hi). symmetry. eapply Hb2; [exact He|exact Hk|done|congruence]. }
  unfold settled_outcome in Hpend. rewrite (bool_decide_eq_true_2 _ Hdis) in Hpend.
  assert (Hrest : negb (bool_decide (rd_run_id p.2 = None)) && negb (bool_decide (p.1 ∈ map snd (map_to_list (red_menus red')))) = true).
  { destruct (last_outcome p.1 _) as [o|]; cbn in Hpend; [by destruct (is_unknown o)|done]. }
  apply andb_true_iff in Hrest as [Hrun%negb_true_iff Hno%negb_true_iff]. apply bool_decide_eq_false in Hrun, Hno.
  destruct (Hmenu Hrun) as [m Hm]. apply Hno, list_elem_of_fmap. exists (m, p.1). split; [done|]. by apply elem_of_map_to_list.
Qed.
End Stamped.

(** A recovered journal has an outcome for every dispatch. *)
Lemma last_outcome_history effect l : last_outcome effect l = last_outcome effect (history effect l).
Proof.
  unfold last_outcome. f_equal. induction l as [|ph l IH]; [done|]. unfold history in *. rewrite filter_cons. case_decide as He; cbn [filter_map].
  - destruct (outcome_for effect ph); [f_equal|]; exact IH.
  - rewrite IH. destruct ph as [| | |e o f m]; cbn in *; try done. by rewrite bool_decide_eq_false_2.
Qed.

Lemma recovered_settled sid j j' effect : recovered sid j j' -> Dispatched effect ∈ effect_phases j' -> is_Some (last_outcome effect (effect_phases j')).
Proof.
  intros (_ & Hh & _) Hd. specialize (Hh effect). rewrite last_outcome_history, Hh, last_outcome_app.
  assert (Hin : Dispatched effect ∈ history effect (effect_phases j')) by (unfold history; rewrite list_elem_of_filter; done).
  rewrite Hh in Hin. unfold missing_outcome in *. rewrite <- last_outcome_history.
  destruct (bool_decide (last_outcome _ _ = None)) eqn:El.
  - assert (Hdj : Dispatched effect ∈ effect_phases j).
    { apply elem_of_app in Hin as [Hin|Hin]; [by apply list_elem_of_filter in Hin as [_ ?]|]. destruct (_ && _); set_solver. }
    rewrite (bool_decide_eq_true_2 _ Hdj). cbn. unfold last_outcome at 1. cbn. rewrite bool_decide_eq_true_2 by done. cbn. eauto.
  - apply bool_decide_eq_false in El. rewrite andb_false_r. cbn. by destruct (last_outcome _ _).
Qed.

Section Generation.
Context (budget generation now : N) (device : string).

(** One session of a pass: it ends, only this session's journal may change, and
    success means it is recovered. *)
Lemma session_pass sid report s : sh_ok s ->
  exists r s', reconcile_session budget generation now device sid report s = Some (r, s') /\ sh_ok s' /\
    (forall other, other <> sid -> sh_journal other s' = sh_journal other s) /\
    match r with
    | Ok _ => recovered sid (sh_journal sid s) (sh_journal sid s')
    | Err _ => sh_journal sid s' = sh_journal sid s
    end.
Proof.
  intros Hs. unfold reconcile_session. destruct (reduce_session_cases budget sid s Hs) as (r & -> & Hr). cbn [mbind option_bind].
  destruct r as [red|error]; [|by eauto 8]. specialize (Hr red eq_refl). pose proof (reduce_page_ok _ _ _ Hr) as ->.
  fold (reduction (sh_journal sid s)) in *.
  destruct (pending_of (reduction (sh_journal sid s))) as [|p0 rest] eqn:Ep.
  { eexists _, _. split; [done|]. split; [done|]. split; [done|]. by apply no_pending_settled. }
  rewrite <- Ep. assert (Hne : pending_of (reduction (sh_journal sid s)) <> []) by (by rewrite Ep). clear p0 rest Ep.
  destruct (session_evidence_total budget sid s (pending_of (reduction (sh_journal sid s))) Hs) as [evidence ->]. cbn [mbind option_bind].
  destruct (recovery_batch _ _ _ _ _ _) as [batch|error] eqn:Eb; [|by eauto 8].
  destruct (sh_append now batch s) as [ra s'] eqn:Ea. destruct (sh_append_ok _ _ _ _ _ Hs Ea) as [Hs' Hj].
  destruct ra as [stamped|error]; eexists _, _; (split; [done|]); (split; [done|]); [|by split; [intros; apply Hj|apply Hj]].
  destruct Hj as (sid' & Hall & Hst & Ej & Eo). assert (sid' = sid) as ->.
  { pose proof (batch_nonempty _ _ _ _ _ _ _ Eb Hst Hne) as Hb. destruct batch as [|e batch']; [done|].
    destruct (proj1 (batch_spec _ _ _ _ _ _ _ Eb) e ltac:(by left)) as (p & ev & [Hp _]%pending_elem & _ & _ & Es & _).
    apply Forall_cons in Hall as [<- _]. rewrite Es. exact (dispatch_session _ _ _ _ Hs Hp). }
  split; [done|]. rewrite Ej. split; [exists stamped; split; [done|by eapply new_facts]|]. split; [intros effect; by eapply history_new|].
  split; [|by eapply new_quiet]. destruct (new_readable _ _ _ _ _ _ _ Eb Hst (reduction (sh_journal sid s))) as [red' Er'].
  assert (E : reduce_page (sh_journal sid s ++ stamped)%list no_reduction = Ok red') by (by rewrite reduce_page_app, Hr).
  by rewrite E, (reduce_page_ok _ _ _ E).
Qed.

(** Sessions are handled one after the other, up to the first failure. *)
Lemma sessions_pass sids : NoDup sids -> forall report s, sh_ok s ->
  exists r s', reconcile_sessions budget generation now device sids report s = Some (r, s') /\ sh_ok s' /\
    (forall sid, sh_journal sid s' = sh_journal sid s \/ (sid ∈ sids /\ recovered sid (sh_journal sid s) (sh_journal sid s'))) /\
    (forall sid, sid ∉ sids -> sh_journal sid s' = sh_journal sid s) /\
    (forall report', r = Ok report' -> forall sid, sid ∈ sids -> recovered sid (sh_journal sid s) (sh_journal sid s')).
Proof.
  induction sids as [|sid sids IH]; intros Hn report s Hs; cbn [reconcile_sessions].
  { eexists _, _. split; [done|]. split; [done|]. split; [by left|]. split; [done|]. set_solver. }
  apply NoDup_cons in Hn as [Hsid Hn]. destruct (session_pass sid report s Hs) as (r1 & s1 & -> & Hs1 & Ho1 & H1). cbn [mbind option_bind].
  destruct r1 as [report1|error].
  - destruct (IH Hn report1 s1 Hs1) as (r & s' & -> & Hs' & Hany & Hout & Hall). eexists _, _. split; [done|]. split; [done|].
    assert (Heq : sh_journal sid s' = sh_journal sid s1) by (by apply Hout). split; [|split].
    + intros x. destruct (decide (x = sid)) as [->|Hne]; [right; rewrite Heq; split; [by left|done]|].
      rewrite <- (Ho1 x Hne). destruct (Hany x) as [?|[? ?]]; [by left|right; split; [by right|done]].
    + intros x [Hx1 Hx2]%not_elem_of_cons. rewrite Hout by done. by apply Ho1.
    + intros report' Hr x [->|Hx]%elem_of_cons; [by rewrite Heq|]. rewrite <- (Ho1 x) by (intros ->; done). by eapply Hall.
  - eexists _, _. split; [done|]. split; [done|]. assert (Hsame : forall x, sh_journal x s1 = sh_journal x s).
    { intros x. destruct (decide (x = sid)) as [->|Hne]; [done|by apply Ho1]. }
    split; [by left; apply Hsame|]. split; [by intros; apply Hsame|]. done.
Qed.

(** C12: A recovery pass always ends, and whether it succeeds or fails at some
    session, a journal is either untouched or recovered: only facts about
    dispatched effects with a missing or unknown outcome were appended (an
    unknown outcome where none was, the recovery menu and the run state), no
    other outcome changed, and every dispatched effect now has one.  A pass
    that succeeds recovered every listed session. *)
Theorem recovery_settles sids s :
  sh_ok s -> NoDup sids ->
  exists r s', reconcile_dispatched_effects budget generation now device sids s = Some (r, s') /\ sh_ok s' /\
    (forall sid, sh_journal sid s' = sh_journal sid s \/ (sid ∈ sids /\ recovered sid (sh_journal sid s) (sh_journal sid s'))) /\
    (forall report sid, r = Ok report -> sid ∈ sids -> recovered sid (sh_journal sid s) (sh_journal sid s') /\
       forall effect, Dispatched effect ∈ effect_phases (sh_journal sid s') -> is_Some (last_outcome effect (effect_phases (sh_journal sid s')))).
Proof.
  intros Hs Hn. destruct (sessions_pass sids Hn {| rr_reconciled_effects := []; rr_opened_recovery_menus := [] |} s Hs)
    as (r & s' & E & Hs' & H1 & _ & H2). exists r, s'. split; [exact E|]. split; [done|]. split; [done|].
  intros report sid Hr Hsid. pose proof (H2 report Hr sid Hsid) as Hrec. split; [done|]. intros effect. by eapply recovered_settled.
Qed.
End Generation.

(** ** The next pass *)

Lemma quiet_session budget generation now device sid report s :
  sh_ok s -> readable s -> reduce_page (sh_journal sid s) no_reduction = Ok (reduction (sh_journal sid s)) ->
  pending_of (reduction (sh_journal sid s)) = [] ->
  reconcile_session budget generation now device sid report s = Some (Ok report, s).
Proof.
  intros Hs Hr Hred Hp. unfold reconcile_session. rewrite reduce_session_readable by done. cbn [mbind option_bind].
  by rewrite Hred, Hp.
Qed.

(** C13: Recovery is idempotent: when a pass succeeded, any further pass, of any
    later generation and device, finds nothing to do: it reports nothing and
    leaves the store as it is.  This is for a store that answers every read of
    the later pass, and for journals in which menu ids tell effects apart: no
    two dispatched effects of a session have the same recovery menu id (a hash
    of session and effect), and a recovery menu already opened under the id of
    a dispatched effect is about that effect. *)
Theorem recovery_idempotent budget generation now device sids s report s' budget' generation' now' device' :
  sh_ok s -> NoDup sids -> readable s' ->
  (forall sid, sid ∈ sids -> menus_bind sid (sh_journal sid s)) ->
  reconcile_dispatched_effects budget generation now device sids s = Some (Ok report, s') ->
  reconcile_dispatched_effects budget' generation' now' device' sids s' =
    Some (Ok {| rr_reconciled_effects := []; rr_opened_recovery_menus := [] |}, s').
Proof.
  intros Hs Hn Hr Hb E. destruct (sessions_pass budget generation now device sids Hn {| rr_reconciled_effects := []; rr_opened_recovery_menus := [] |} s Hs) as (r & s0 & E' & Hs' & _ & _ & Hall).
  unfold reconcile_dispatched_effects in *. rewrite E in E'. injection E' as <- <-. specialize (Hall report eq_refl).
  assert (Hgo : forall l rep, (forall sid, sid ∈ l -> sid ∈ sids) ->
    reconcile_sessions budget' generation' now' device' l rep s' = Some (Ok rep, s')); [|by apply Hgo].
  induction l as [|sid l IH]; intros rep Hl; cbn [reconcile_sessions]; [done|].
  destruct (Hall sid (Hl sid ltac:(by left))) as (_ & _ & Hred & Hq).
  rewrite quiet_session; [|done|done|done|by apply Hq, Hb, Hl; left]. cbn [mbind option_bind]. apply IH. intros x Hx. apply Hl. by right.
Qed.
End Pass.
