(* ===== verification/RecoveryAdvice.v ===== *)
(** * What the recovery card tells the user

    The last line of a recovery menu sums up what the journal and the process
    table say about an interrupted effect.  When it says that retrying is likely
    safe, the journal bears it out. *)

From S2P Require Import Prelude RustStr Digest Cas EffectTypes Json Envelope Events Journal JournalProps Recovery RecoveryProps.

Local Open Scope string_scope.

Definition SAFE_SUFFIX : string := " — Retry is likely safe".

Section Advice.
Context {json : EventJson} {probe : ProcessProbe}.

(** ** The line *)

(** Membership in a list of closed alternatives. *)
Ltac pick := repeat first [by left | right].

Lemma process_cases p : process_finding p ∈ [None; Some "process alive"; Some "process dead"; Some "process unknown"].
Proof.
  unfold process_finding. destruct (re_pid p) as [pid|]; cbn; [|pick]. destruct (probe_liveness pid) as [[| |]|]; cbn; pick.
Qed.
Lemma result_cases p : result_finding p ∈ [None; Some "result committed"; Some "no result committed"].
Proof. unfold result_finding. destruct (re_call_id p); cbn; [destruct (re_result_committed p)|]; pick. Qed.
Lemma artifact_cases p : artifact_finding p ∈ [None; Some "artifact present"].
Proof. unfold artifact_finding. destruct (re_artifact_committed p); pick. Qed.
Lemma workspace_cases p current : workspace_finding p current ∈
  [None; Some "workspace ADVANCED past dispatch"; Some "workspace revision unchanged"; Some "workspace ADVANCED since effect record"].
Proof.
  unfold workspace_finding. set (late := match re_dispatch_seq p with Some _ => _ | None => _ end). destruct late; [pick|].
  destruct (re_recorded_revision p) as [r|]; cbn [mbind option_bind]; [|pick]. destruct current as [c|]; cbn [mbind option_bind]; [|pick].
  destruct (String.eqb c r); [pick|]. destruct (workspace_revision_seq r) as [n|]; [|pick].
  destruct (workspace_revision_seq c) as [n0|]; [|pick]. destruct (n <? n0)%N; pick.
Qed.

(** Only one combination of findings ends with the advice. *)
Lemma safe_findings p current : is_Some (strip_suffix SAFE_SUFFIX (render_recovery_evidence p current)) ->
  process_finding p = Some "process dead" /\ result_finding p = Some "no result committed" /\
  artifact_finding p = None /\ workspace_finding p current = Some "workspace revision unchanged".
Proof.
  unfold render_recovery_evidence.
  pose proof (process_cases p) as H1. pose proof (result_cases p) as H2.
  pose proof (artifact_cases p) as H3. pose proof (workspace_cases p current) as H4.
  revert H1 H2 H3 H4. generalize (process_finding p) (result_finding p) (artifact_finding p) (workspace_finding p current).
  intros a b c d Ha Hb Hc Hd.
  repeat (match goal with H : _ ∈ [] |- _ => by apply elem_of_nil in H | H : _ ∈ _ :: _ |- _ => apply elem_of_cons in H as [->|H] end);
    first [done | (vm_compute; intros [x Hx]; discriminate Hx)].
Qed.

(** ** What was gathered *)

Context (run branch : option string) (effects : list EffectId).

Definition gathered (j : list RawEnvelope) : Gathering := foldl (gather_envelope run branch effects) (gather_start effects) j.
Definition in_scope (e : RawEnvelope) : Prop := e.(run_id) = run /\ e.(branch_id) = branch.
(** The envelope records a change of the workspace. *)
Definition mutates (e : RawEnvelope) : Prop := is_Some (mutation_revision (deref e.(payload))).
(** The envelope is the dispatch of the effect, or the result of a call. *)
Definition dispatches (effect : EffectId) (e : RawEnvelope) : Prop :=
  in_scope e /\ decode_event e.(payload) = Ok (EEffect (Dispatched effect)).
Definition answers (agent : option string) (call : string) (e : RawEnvelope) : Prop :=
  in_scope e /\ e.(agent_id) = agent /\ exists r, decode_event e.(payload) = Ok (EToolResult call r).

(** The event of an envelope in scope, and the effect it is about. *)
Definition event_of (e : RawEnvelope) : option EventPayload :=
  if bool_decide (in_scope e) then match decode_event e.(payload) with Ok event => Some event | Err _ => None end else None.
Definition about (e : RawEnvelope) : option EffectId :=
  match event_of e with
  | Some (EEffect (Intent i)) => Some i.(in_effect)
  | Some (EEffect (Dispatched effect)) => Some effect
  | Some (EProcessSignalRecorded signal) => Some signal.(ps_effect_id)
  | _ => None
  end.

(** The agent an effect belongs to: that of the last envelope about it. *)
Definition agent_of (effect : EffectId) (j : list RawEnvelope) : option string :=
  default None (last (filter_map (fun e => if bool_decide (about e = Some effect) then Some e.(agent_id) else None) j)).

(** The call an agent has open: its start is at a position of the journal, and
    the item was not completed since. *)
Definition open_at (j : list RawEnvelope) (n : nat) (agent : option string) (id call : string) : Prop :=
  (exists e item, j !! n = Some e /\ event_of e = Some (EItem (Started id item)) /\ item_call_id item = Some call /\
     e.(agent_id) = agent) /\
  forall m e item, (n < m)%nat -> j !! m = Some e -> event_of e <> Some (EItem (Completed id item)).
(** ... and it is the only one. *)
Definition sole_call (j : list RawEnvelope) (agent : option string) (call : string) : Prop :=
  exists n id, open_at j n agent id call /\ forall n' id' call', open_at j n' agent id' call' -> n' = n.

(** The call an effect was made for: the one a process signal of the effect
    names, or the only call its agent had open at the effect's intent, or at
    its dispatch; no later intent or signal of the effect says otherwise. *)
Definition made_for (j : list RawEnvelope) (effect : EffectId) (call : string) : Prop :=
  exists before e later, j = (before ++ e :: later)%list /\ about e = Some effect /\
    match event_of e with
    | Some (EProcessSignalRecorded signal) => signal.(ps_call_id) = call
    | _ => sole_call before e.(agent_id) call
    end /\
    forall x, x ∈ later -> about x = Some effect -> event_of x = Some (EEffect (Dispatched effect)).

(** The revision the workspace has at the end of a journal. *)
Definition revision_after (j : list RawEnvelope) : string :=
  default "workspace-revision:0" (last (filter_map (fun e => mutation_revision (deref e.(payload))) j)).

Definition bounded_by (s : N) (o : option N) : Prop := exists m, o = Some m /\ (s <= m)%N.

(** A probe, against the journal it was gathered from. *)
Definition mutations_seen (j : list RawEnvelope) (p : RecoveryEvidence) : Prop :=
  forall e, e ∈ j -> mutates e -> bounded_by e.(seq) p.(re_latest_mutation_seq).

Record probe_facts (j : list RawEnvelope) (effect : EffectId) (p : RecoveryEvidence) : Prop := {
  pf_agent : p.(re_agent_id) = agent_of effect j;
  pf_call : forall call, p.(re_call_id) = Some call -> made_for j effect call;
  pf_dispatch : match p.(re_dispatch_seq) with
                | Some d => exists e, e ∈ j /\ e.(seq) = d /\ dispatches effect e /\
                    p.(re_pid) = effect_dispatch_pid (deref e.(payload)) /\
                    forall x, x ∈ j -> dispatches effect x -> (x.(seq) <= d)%N
                | None => p.(re_pid) = None /\ forall x, x ∈ j -> ~ dispatches effect x
                end;
  pf_revision : forall r, p.(re_recorded_revision) = Some r ->
    exists e i, e ∈ j /\ in_scope e /\ decode_event e.(payload) = Ok (EEffect (Intent i)) /\ i.(in_effect) = effect /\
      i.(in_workspace_revision) = Some r
}.

(** The open calls, with the positions of their starts. *)
Definition open_ok (j : list RawEnvelope) (calls : list (option string * string * string)) : Prop :=
  exists l : list (nat * (option string * string * string)), calls = map snd l /\ NoDup (map fst l) /\
    forall n agent id call, (n, (agent, id, call)) ∈ l <-> open_at j n agent id call.

Record gathered_ok (j : list RawEnvelope) (g : Gathering) : Prop := {
  go_probes : forall effect p, g.(ga_evidence) !! effect = Some p ->
    effect ∈ effects /\ mutations_seen j p /\ probe_facts j effect p;
  go_open : open_ok j g.(ga_open_calls);
  go_answers : forall agent call e, e ∈ j -> answers agent call e ->
    exists c, g.(ga_call_evidence) !! (agent, call) = Some c /\ bounded_by e.(seq) c.(cc_result_seq);
  go_revision : g.(ga_current_revision) = Some (revision_after j)
}.

(** ** Open calls *)

Lemma open_at_snoc j e n agent id call : open_at (j ++ [e])%list n agent id call <->
  (open_at j n agent id call /\ forall item, event_of e <> Some (EItem (Completed id item))) \/
  (n = length j /\ exists item, event_of e = Some (EItem (Started id item)) /\ item_call_id item = Some call /\ e.(agent_id) = agent).
Proof.
  unfold open_at. split.
  - intros [(x & item & Hx & Hev & Hc & Ha) Hlater]. apply lookup_app_Some in Hx as [Hx|[Hge Hx]].
    + left. pose proof (lookup_lt_Some _ _ _ Hx). split.
      * split; [eauto 10|]. intros m y it Hm Hy. apply (Hlater m); [done|]. by apply lookup_app_l_Some.
      * intros it. apply (Hlater (length j)); [done|]. rewrite lookup_app_r by done. by rewrite Nat.sub_diag.
    + right. apply list_lookup_singleton_Some in Hx as [Hn <-]. split; [lia|eauto].
  - intros [[[(x & item & Hx & Hev & Hc & Ha) Hlater] Hne]|(-> & item & Hev & Hc & Ha)].
    + split; [exists x, item; split_and!; try done; by apply lookup_app_l_Some|].
      intros m y it Hm [Hy|[Hge Hy]]%lookup_app_Some; [by apply (Hlater m)|].
      apply list_lookup_singleton_Some in Hy as [_ <-]. apply Hne.
    + split.
      * exists e, item. rewrite lookup_app_r, Nat.sub_diag by done. done.
      * intros m y it Hm Hy%lookup_lt_Some. rewrite length_app in Hy. cbn in Hy. lia.
Qed.

Lemma open_ok_same j e calls : open_ok j calls ->
  (forall id item, event_of e = Some (EItem (Started id item)) -> item_call_id item = None) ->
  (forall id item, event_of e <> Some (EItem (Completed id item))) -> open_ok (j ++ [e])%list calls.
Proof.
  intros (l & -> & Hn & Hl) Hs Hc. exists l. split; [done|]. split; [done|]. intros n agent id call.
  rewrite open_at_snoc, Hl. split; [by left|]. intros [[? _]|(_ & item & Hev & Hi & _)]; [done|].
  by rewrite (Hs _ _ Hev) in Hi.
Qed.

Lemma open_ok_started j e id item call calls : open_ok j calls ->
  event_of e = Some (EItem (Started id item)) -> item_call_id item = Some call ->
  open_ok (j ++ [e])%list (calls ++ [(e.(agent_id), id, call)])%list.
Proof.
  intros (l & -> & Hn & Hl) Hev Hc. exists (l ++ [(length j, (e.(agent_id), id, call))])%list. rewrite !map_app.
  split; [done|]. split.
  - apply NoDup_app. split; [done|]. split; [|apply NoDup_singleton].
    intros n Hin ->%list_elem_of_singleton. apply list_elem_of_fmap in Hin as ([m [[a i] c]] & Em & Hin). cbn in Em. subst m.
    apply Hl in Hin as [(x & ? & Hx%lookup_lt_Some & _) _]. lia.
  - intros n agent id' call'. rewrite open_at_snoc, elem_of_app, Hl, list_elem_of_singleton, Hev. split.
    + intros [?|[= -> -> -> ->]]; [by left|right; eauto 10].
    + intros [[? _]|(-> & it & [= <- <-] & Hc' & <-)]; [by left|right]. congruence.
Qed.

Lemma filter_map_snd {A B} (P : B -> Prop) `{!forall x, Decision (P x)} (l : list (A * B)) :
  filter P (map snd l) = map snd (filter (fun p => P p.2) l).
Proof. induction l as [|[a b] l IH]; [done|]. cbn [map snd]. rewrite !filter_cons. cbn. case_decide; cbn; by rewrite IH. Qed.
Lemma NoDup_map_filter {A B} (P : A * B -> Prop) `{!forall x, Decision (P x)} (l : list (A * B)) :
  NoDup (map fst l) -> NoDup (map fst (filter P l)).
Proof.
  induction l as [|p l IH]; [done|]. cbn [map]. intros [Hni Hn]%NoDup_cons. rewrite filter_cons. case_decide; [|auto].
  cbn [map]. apply NoDup_cons. split; [|auto]. intros (q & E & [_ Hq]%list_elem_of_filter)%list_elem_of_fmap.
  apply Hni. rewrite E. by apply list_elem_of_fmap_2.
Qed.

Lemma open_ok_completed j e id item calls : open_ok j calls ->
  event_of e = Some (EItem (Completed id item)) -> open_ok (j ++ [e])%list (filter (fun c => c.1.2 <> id) calls).
Proof.
  intros (l & -> & Hn & Hl) Hev. rewrite filter_map_snd. eexists. split; [reflexivity|].
  split; [by apply NoDup_map_filter|]. intros n agent id' call. rewrite list_elem_of_filter, Hl, open_at_snoc, Hev. cbn. split.
  - intros [Hne ?]. left. split; [done|]. intros it [= ? _]. done.
  - intros [[? Hne]|(_ & it & [=] & _)]. split; [|done]. intros ->. by eapply Hne.
Qed.

Lemma filter_singleton {A} (P : A -> Prop) `{!forall x, Decision (P x)} l c : filter P l = [c] ->
  P c /\ exists l1 l2, l = (l1 ++ c :: l2)%list /\ forall x, x ∈ (l1 ++ l2)%list -> ~ P x.
Proof.
  intros E. destruct (filter_split P l [] [c] E) as (l1 & r & -> & E1 & E2).
  assert (Hc : P c) by (assert (Hin : c ∈ filter P r) by (rewrite E2; by left); by apply list_elem_of_filter in Hin as [? _]).
  split; [done|]. revert l1 E1 E. induction r as [|y r IH]; intros l1 E1 _; [done|]. rewrite filter_cons in E2. case_decide as Hy.
  - injection E2 as -> E2. exists l1, r. split; [done|]. intros x [Hx|Hx]%elem_of_app Hp;
      [eapply elem_of_nil; rewrite <- E1|eapply elem_of_nil; rewrite <- E2]; by apply list_elem_of_filter.
  - destruct (IH E2 (l1 ++ [y])%list) as (a & b & Ea & Hab).
    { rewrite filter_app, E1. cbn. by rewrite decide_False. }
    { rewrite <- app_assoc. cbn. rewrite filter_app, E1. cbn. rewrite decide_False by done. exact E2. }
    exists a, b. by rewrite <- app_assoc in Ea.
Qed.

Lemma sole_open_call_ok j calls agent call : open_ok j calls -> sole_open_call calls agent = Some call -> sole_call j agent call.
Proof.
  intros (l & -> & Hn & Hl) Hs. unfold sole_open_call in Hs. rewrite filter_map_snd in Hs.
  destruct (filter _ l) as [|[n [[a id] c]] [|]] eqn:E; try done. injection Hs as <-.
  apply filter_singleton in E as [Ha (l1 & l2 & E & Hother)]. cbn in Ha. subst a. exists n, id. split.
  - apply Hl. rewrite E. set_solver.
  - intros n' id' call' Hin. apply Hl in Hin. rewrite E in Hin. destruct (decide (n' = n)) as [|Hne]; [done|]. exfalso.
    apply (Hother (n', (agent, id', call'))); [|done]. set_solver.
Qed.

(** ** One envelope *)

Lemma agent_of_snoc effect j e :
  agent_of effect (j ++ [e])%list = if bool_decide (about e = Some effect) then e.(agent_id) else agent_of effect j.
Proof.
  unfold agent_of. rewrite filter_map_app. cbn. case_bool_decide; cbn; [by rewrite last_snoc|by rewrite app_nil_r].
Qed.

Lemma made_for_snoc j e effect call : made_for j effect call ->
  (about e = Some effect -> event_of e = Some (EEffect (Dispatched effect))) -> made_for (j ++ [e])%list effect call.
Proof.
  intros (before & x & later & -> & Ha & Hx & Hl) He. exists before, x, (later ++ [e])%list.
  split; [by rewrite <- app_assoc|]. split; [done|]. split; [done|].
  intros y [Hy| ->%list_elem_of_singleton]%elem_of_app; auto.
Qed.

Lemma made_for_here j e effect call : about e = Some effect ->
  match event_of e with
  | Some (EProcessSignalRecorded signal) => signal.(ps_call_id) = call
  | _ => sole_call j e.(agent_id) call
  end -> made_for (j ++ [e])%list effect call.
Proof. intros Ha He. exists j, e, []. split; [done|]. split; [done|]. split; [done|]. set_solver. Qed.

Lemma event_of_some e event : event_of e = Some event <-> in_scope e /\ decode_event e.(payload) = Ok event.
Proof. unfold event_of. case_bool_decide; [|naive_solver]. destruct (decode_event _); naive_solver. Qed.
Lemma dispatches_event effect e : dispatches effect e <-> event_of e = Some (EEffect (Dispatched effect)).
Proof. by rewrite event_of_some. Qed.

(** Dispatches and intents of a longer journal. *)
Lemma dispatch_more j e effect d pid :
  match d with
  | Some n => exists x, x ∈ j /\ x.(seq) = n /\ dispatches effect x /\ pid = effect_dispatch_pid (deref x.(payload)) /\
      forall y, y ∈ j -> dispatches effect y -> (y.(seq) <= n)%N
  | None => pid = None /\ forall x, x ∈ j -> ~ dispatches effect x
  end -> ~ dispatches effect e ->
  match d with
  | Some n => exists x, x ∈ (j ++ [e])%list /\ x.(seq) = n /\ dispatches effect x /\ pid = effect_dispatch_pid (deref x.(payload)) /\
      forall y, y ∈ (j ++ [e])%list -> dispatches effect y -> (y.(seq) <= n)%N
  | None => pid = None /\ forall x, x ∈ (j ++ [e])%list -> ~ dispatches effect x
  end.
Proof.
  destruct d as [n|].
  - intros (x & Hx & ? & ? & ? & Hmax) He. exists x. split_and!; try done; [set_solver|].
    intros y [Hy| ->%list_elem_of_singleton]%elem_of_app Hd; [auto|done].
  - intros [? Hno] He. split; [done|]. intros x [Hx| ->%list_elem_of_singleton]%elem_of_app; auto.
Qed.

Lemma revision_more j e effect r :
  (exists x i, x ∈ j /\ in_scope x /\ decode_event x.(payload) = Ok (EEffect (Intent i)) /\ i.(in_effect) = effect /\ i.(in_workspace_revision) = Some r) ->
  exists x i, x ∈ (j ++ [e])%list /\ in_scope x /\ decode_event x.(payload) = Ok (EEffect (Intent i)) /\ i.(in_effect) = effect /\ i.(in_workspace_revision) = Some r.
Proof. intros (x & i & Hx & ?). exists x, i. split; [set_solver|done]. Qed.

(** An envelope that is not about the effect changes nothing. *)
Lemma facts_skip j e effect p : about e <> Some effect -> probe_facts j effect p -> probe_facts (j ++ [e])%list effect p.
Proof.
  intros Hne [F1 F2 F3 F4]. split.
  - by rewrite agent_of_snoc, bool_decide_eq_false_2.
  - intros call Hc. apply made_for_snoc; [auto|done].
  - apply dispatch_more; [done|]. intros Hd%dispatches_event. apply Hne. unfold about. by rewrite Hd.
  - intros r Hr. by apply revision_more, F4.
Qed.

(** The three that are. *)
Lemma facts_intent j e i p calls : event_of e = Some (EEffect (Intent i)) -> open_ok j calls -> probe_facts j i.(in_effect) p ->
  probe_facts (j ++ [e])%list i.(in_effect)
    (with_recorded i.(in_workspace_revision) (with_call (sole_open_call calls e.(agent_id)) (with_agent e.(agent_id) p))).
Proof.
  intros He Ho [F1 F2 F3 F4]. assert (Ha : about e = Some i.(in_effect)) by (unfold about; by rewrite He). split; cbn.
  - by rewrite agent_of_snoc, bool_decide_eq_true_2.
  - intros call Hc. apply made_for_here; [done|]. rewrite He. by eapply sole_open_call_ok.
  - apply dispatch_more; [done|]. intros Hd%dispatches_event. congruence.
  - intros r Hr. apply event_of_some in He as [? ?]. exists e, i. split_and!; try done. set_solver.
Qed.

Lemma facts_dispatched j e effect p calls : increasing (j ++ [e])%list -> event_of e = Some (EEffect (Dispatched effect)) ->
  open_ok j calls -> probe_facts j effect p ->
  let p' := with_dispatch e.(seq) (effect_dispatch_pid (deref e.(payload))) (with_agent e.(agent_id) p) in
  probe_facts (j ++ [e])%list effect
    match p'.(re_call_id) with None => with_call (sole_open_call calls e.(agent_id)) p' | Some _ => p' end.
Proof.
  intros Hi He Ho [F1 F2 F3 F4]. cbv zeta. cbn. assert (Ha : about e = Some effect) by (unfold about; by rewrite He).
  assert (Hd : exists x, x ∈ (j ++ [e])%list /\ x.(seq) = e.(seq) /\ dispatches effect x /\
    effect_dispatch_pid (deref e.(payload)) = effect_dispatch_pid (deref x.(payload)) /\
    forall y, y ∈ (j ++ [e])%list -> dispatches effect y -> (y.(seq) <= e.(seq))%N).
  { exists e. split_and!; [set_solver|done|by apply dispatches_event|done|]. apply increasing_app in Hi as (_ & _ & Hlt).
    intros y [Hy| ->%list_elem_of_singleton]%elem_of_app _; [|done]. specialize (Hlt y e Hy ltac:(by left)). lia. }
  destruct (re_call_id p) as [c|] eqn:Ec; split; cbn; try done; try (by rewrite agent_of_snoc, bool_decide_eq_true_2);
    try (intros r Hr; by apply revision_more, F4).
  - intros call Hc. apply made_for_snoc; [|done]. apply F2. congruence.
  - intros call Hc. apply made_for_here; [done|]. rewrite He. by eapply sole_open_call_ok.
Qed.

Lemma facts_signal j e signal p : event_of e = Some (EProcessSignalRecorded signal) -> probe_facts j signal.(ps_effect_id) p ->
  let p' := with_call (Some signal.(ps_call_id)) (with_agent e.(agent_id) p) in
  probe_facts (j ++ [e])%list signal.(ps_effect_id)
    match signal.(ps_artifact) with Some _ => with_artifact_seq e.(seq) p' | None => p' end.
Proof.
  intros He [F1 F2 F3 F4]. cbv zeta. assert (Ha : about e = Some signal.(ps_effect_id)) by (unfold about; by rewrite He).
  assert (Hno : ~ dispatches signal.(ps_effect_id) e) by (intros Hd%dispatches_event; congruence).
  assert (Hd := dispatch_more j e signal.(ps_effect_id) p.(re_dispatch_seq) p.(re_pid) F3 Hno).
  destruct (ps_artifact signal); split; cbn; try done; try (by rewrite agent_of_snoc, bool_decide_eq_true_2);
    try (intros r Hr; by apply revision_more, F4); intros call [= <-]; apply made_for_here; [done|by rewrite He|done|by rewrite He].
Qed.

Lemma alter_lookup (f : RecoveryEvidence -> RecoveryEvidence) k (m : gmap EffectId RecoveryEvidence) effect p :
  alter f k m !! effect = Some p ->
  (effect = k /\ exists p0, m !! k = Some p0 /\ p = f p0) \/ (effect <> k /\ m !! effect = Some p).
Proof.
  destruct (decide (k = effect)) as [->|Hne]; [rewrite lookup_alter_eq|rewrite lookup_alter_ne by done; naive_solver].
  intros (p0 & ? & ->)%fmap_Some. left. eauto.
Qed.

(** An event of the scope changes probes by what it says of their effect. *)
Lemma gather_event_probes j e event g :
  increasing (j ++ [e])%list -> event_of e = Some event -> open_ok j g.(ga_open_calls) ->
  (forall effect p, g.(ga_evidence) !! effect = Some p -> effect ∈ effects /\ mutations_seen (j ++ [e])%list p /\ probe_facts j effect p) ->
  forall effect p, (gather_event effects e event g).(ga_evidence) !! effect = Some p ->
    effect ∈ effects /\ mutations_seen (j ++ [e])%list p /\ probe_facts (j ++ [e])%list effect p.
Proof.
  intros Hi He Ho Hp effect p.
  assert (Hkeep : about e <> Some effect -> g.(ga_evidence) !! effect = Some p ->
    effect ∈ effects /\ mutations_seen (j ++ [e])%list p /\ probe_facts (j ++ [e])%list effect p).
  { intros Hne Hl. destruct (Hp _ _ Hl) as (? & ? & ?). split_and!; [done|done|]. by apply facts_skip. }
  assert (Habout : about e = match event with EEffect (Intent i) => Some i.(in_effect) | EEffect (Dispatched f) => Some f
    | EProcessSignalRecorded s => Some s.(ps_effect_id) | _ => None end) by (unfold about; by rewrite He).
  assert (Hdom : g.(ga_evidence) !! effect = Some p -> forall k, bool_decide (k ∈ effects) = false -> effect <> k).
  { intros Hl k Hk ->. apply bool_decide_eq_false in Hk. by destruct (Hp _ _ Hl) as [? _]. }
  destruct event as [| | | | |[id item|id delta|id item]|phase|call r| |signal|]; cbn; try (by apply Hkeep; rewrite Habout).
  - destruct (item_call_id item); by apply Hkeep; rewrite Habout.
  - destruct phase as [i| |d|]; try (by apply Hkeep; rewrite Habout);
      (destruct (bool_decide _) eqn:Eb; [|intros Hl; apply Hkeep; [rewrite Habout; intros [= <-]; by eapply Hdom|done]]);
      (intros [[-> (p0 & Hp0 & ->)]|[Hne Hl]]%alter_lookup; [|apply Hkeep; [rewrite Habout; congruence|done]]);
      destruct (Hp _ _ Hp0) as (? & Hm & Hf).
    + split_and!; [done|exact Hm|by apply facts_intent].
    + split_and!; [done|cbn; by destruct (re_call_id p0)|by apply facts_dispatched].
  - destruct (bool_decide _) eqn:Eb; [|intros Hl; apply Hkeep; [rewrite Habout; intros [= <-]; by eapply Hdom|done]].
    intros [[-> (p0 & Hp0 & ->)]|[Hne Hl]]%alter_lookup; [|apply Hkeep; [rewrite Habout; congruence|done]].
    destruct (Hp _ _ Hp0) as (? & Hm & Hf). split_and!; [done|by destruct (ps_artifact signal)|by apply facts_signal].
Qed.

Lemma gather_event_open j e event g : event_of e = Some event -> open_ok j g.(ga_open_calls) ->
  open_ok (j ++ [e])%list (gather_event effects e event g).(ga_open_calls).
Proof.
  intros He Ho.
  assert (Hsame : (forall id item, event = EItem (Started id item) -> item_call_id item = None) ->
    (forall id item, event <> EItem (Completed id item)) -> open_ok (j ++ [e])%list g.(ga_open_calls)).
  { intros H1 H2. apply open_ok_same; [done|..]; intros id item; rewrite He; [intros [= ->]; by eapply H1|intros [= ->]; by eapply H2]. }
  destruct event as [| | | | |[id item|id delta|id item]|phase|call r| |signal|]; cbn; try (by apply Hsame).
  - destruct (item_call_id item) eqn:Ec; cbn; [by eapply open_ok_started|]. apply Hsame; [|done]. by intros id' item' [= _ <-].
  - by eapply open_ok_completed.
  - destruct phase as [i| |d|]; cbn; try (by apply Hsame); case_bool_decide; cbn; by apply Hsame.
  - case_bool_decide; cbn; by apply Hsame.
Qed.

(** A mutation is noted on every probe. *)
Lemma note_mutation_ok j e g : increasing (j ++ [e])%list -> gathered_ok j g ->
  (forall effect p, (note_mutation e g).(ga_evidence) !! effect = Some p ->
     effect ∈ effects /\ mutations_seen (j ++ [e])%list p /\ probe_facts j effect p) /\
  (note_mutation e g).(ga_open_calls) = g.(ga_open_calls) /\
  (note_mutation e g).(ga_call_evidence) = g.(ga_call_evidence) /\
  (note_mutation e g).(ga_current_revision) = Some (revision_after (j ++ [e])%list).
Proof.
  intros (_ & _ & Hlt)%increasing_app [H1 _ _ H3]. unfold note_mutation, revision_after, mutations_seen, mutates in *.
  assert (Hf : filter_map (fun e => mutation_revision (deref e.(payload))) (j ++ [e])%list =
    (filter_map (fun e => mutation_revision (deref e.(payload))) j ++ option_list (mutation_revision (deref e.(payload))))%list).
  { rewrite filter_map_app. cbn. by destruct (mutation_revision _). }
  rewrite Hf. destruct (mutation_revision (deref e.(payload))) as [r|] eqn:Em; cbn [ga_evidence ga_open_calls ga_call_evidence ga_current_revision].
  - split; [|split; [done|split; [done|by unfold option_list; cbn; rewrite last_snoc]]]. intros effect p. rewrite lookup_fmap. intros Hp.
    apply fmap_Some in Hp as (p0 & Hp0 & ->). destruct (H1 _ _ Hp0) as (Hin & P1 & [F1 F2 F3 F4]). split_and!; [done| |by split].
    intros x [Hx| ->%list_elem_of_singleton]%elem_of_app _; exists e.(seq); (split; [done|]); [|done].
    specialize (Hlt x e Hx ltac:(by left)). lia.
  - split; [|split; [done|split; [done|by unfold option_list; cbn; rewrite app_nil_r]]]. intros effect p Hp.
    destruct (H1 _ _ Hp) as (? & P1 & ?). split_and!; try done.
    intros x [Hx| ->%list_elem_of_singleton]%elem_of_app Hm; [auto|]. rewrite Em in Hm. by destruct Hm.
Qed.

Lemma gather_event_rest e event g :
  (gather_event effects e event g).(ga_current_revision) = g.(ga_current_revision) /\
  forall agent call c, g.(ga_call_evidence) !! (agent, call) = Some c ->
    exists c', (gather_event effects e event g).(ga_call_evidence) !! (agent, call) = Some c' /\
      (c' = c \/ c'.(cc_result_seq) = Some e.(seq)).
Proof.
  destruct event as [| | | | |[id item|id delta|id item]|phase|call' r| |signal|]; cbn; eauto.
  - destruct (item_call_id item); eauto.
  - destruct phase as [i| |d|]; cbn; eauto; case_bool_decide; cbn; eauto.
  - split; [done|]. intros agent call c Hc. destruct (decide ((e.(agent_id), call') = (agent, call))) as [->|Hne].
    + rewrite lookup_insert_eq. eexists. split; [done|]. by right.
    + rewrite lookup_insert_ne by done. eauto.
  - case_bool_decide; cbn; eauto.
Qed.

Lemma gather_step j e g : increasing (j ++ [e])%list -> gathered_ok j g ->
  gathered_ok (j ++ [e])%list (gather_envelope run branch effects g e).
Proof.
  intros Hi Hg. destruct (note_mutation_ok _ _ _ Hi Hg) as (P & Eo & Ec & Er). destruct Hg as [_ Hopen Hans _].
  pose proof Hi as (_ & _ & Hlt)%increasing_app. set (g1 := note_mutation e g) in *.
  assert (Hold : forall agent call x, x ∈ j -> answers agent call x ->
    exists c, g1.(ga_call_evidence) !! (agent, call) = Some c /\ bounded_by x.(seq) c.(cc_result_seq)) by (by rewrite Ec).
  assert (Heq : gather_envelope run branch effects g e = match event_of e with Some event => gather_event effects e event g1 | None => g1 end).
  { unfold gather_envelope, event_of, in_scope. fold g1.
    destruct (decide (e.(run_id) = run)) as [?|?]; [rewrite (bool_decide_eq_true_2 (run_id e = run)) by done|rewrite (bool_decide_eq_false_2 (run_id e = run)) by done];
    (destruct (decide (e.(branch_id) = branch)) as [?|?]; [rewrite (bool_decide_eq_true_2 (branch_id e = branch)) by done|rewrite (bool_decide_eq_false_2 (branch_id e = branch)) by done]); cbn [negb orb].
    1: rewrite bool_decide_eq_true_2 by done; by destruct (decode_event _).
    all: by rewrite bool_decide_eq_false_2 by naive_solver. }
  rewrite Heq. destruct (event_of e) as [event|] eqn:Ev.
  - destruct (gather_event_rest e event g1) as [Erev Hcalls]. split.
    + apply gather_event_probes; [done|done|by rewrite Eo|done].
    + apply gather_event_open; [done|by rewrite Eo].
    + intros agent call x [Hx| ->%list_elem_of_singleton]%elem_of_app Ha.
      * destruct (Hold _ _ _ Hx Ha) as (c & Hc & Hb). destruct (Hcalls _ _ _ Hc) as (c' & Hc' & Hcase). exists c'. split; [done|].
        destruct Hcase as [->|Hs]; [done|]. exists e.(seq). split; [done|]. specialize (Hlt x e Hx ltac:(by left)). lia.
      * apply event_of_some in Ev as [_ Ed]. destruct Ha as (_ & <- & r & Hr). rewrite Ed in Hr. injection Hr as ->. cbn. rewrite lookup_insert_eq.
        eexists. split; [done|]. exists e.(seq). by split.
    + by rewrite Erev.
  - split; [| | |done].
    + intros effect p Hp. destruct (P _ _ Hp) as (? & ? & ?). split_and!; [done|done|]. apply facts_skip; [|done]. unfold about. by rewrite Ev.
    + rewrite Eo. apply open_ok_same; [done|..]; intros id item; by rewrite Ev.
    + intros agent call x [Hx| ->%list_elem_of_singleton]%elem_of_app Ha; [by apply Hold|].
      destruct Ha as (Hsc & _ & r & Hr). assert (Hs : event_of e = Some (EToolResult call r)) by (by apply event_of_some). congruence.
Qed.

Lemma gathered_facts j : increasing j -> gathered_ok j (gathered j).
Proof.
  unfold gathered. induction j as [|e j IH] using rev_ind.
  - intros _. cbn. split; [| |set_solver|done].
    + intros effect p Hp. cbn in Hp. apply elem_of_list_to_map_2 in Hp.
      apply list_elem_of_fmap in Hp as (x & [= -> ->] & Hx). split_and!; [done|intros ? []%elem_of_nil|]. split; [done|done| |done].
      split; [done|]. set_solver.
    + exists []. split; [done|]. split; [constructor|]. intros n agent id call. split; [set_solver|]. by intros [(x & ? & Hx & _) _].
  - intros Hi. rewrite foldl_snoc. apply gather_step; [done|]. apply IH. by apply increasing_app in Hi as [? _].
Qed.

(** C33: When the recovery card says that retrying is likely safe, the journal
    and the process table bear it out: the effect's last dispatch is in the
    journal, with a process that is dead; the call the effect was made for (the
    one a process signal of the effect names, or else the only call its agent
    had open at the intent or the dispatch) has no result from the effect's
    agent after that dispatch; the workspace was not changed after it; and the
    workspace still has the revision the effect's intent recorded. *)
Theorem retry_advice_sound j effect line :
  increasing j -> conclude (gathered j) !! effect = Some line -> is_Some (strip_suffix SAFE_SUFFIX line) ->
  exists d pid call, d ∈ j /\ dispatches effect d /\ (forall e, e ∈ j -> dispatches effect e -> (e.(seq) <= d.(seq))%N) /\
    effect_dispatch_pid (deref d.(payload)) = Some pid /\ probe_liveness pid = Some Dead /\
    made_for j effect call /\
    (forall e, e ∈ j -> answers (agent_of effect j) call e -> (e.(seq) <= d.(seq))%N) /\
    (forall e, e ∈ j -> mutates e -> (e.(seq) <= d.(seq))%N) /\
    exists e i, e ∈ j /\ in_scope e /\ decode_event e.(payload) = Ok (EEffect (Intent i)) /\ i.(in_effect) = effect /\
      i.(in_workspace_revision) = Some (revision_after j).
Proof.
  intros Hi Hl Hs. destruct (gathered_facts j Hi) as [G1 _ G2 G3]. unfold conclude in Hl. rewrite lookup_fmap in Hl.
  apply fmap_Some in Hl as (p & Hp & ->). destruct (G1 _ _ Hp) as (_ & P1 & [Pa Pc P2 P3]).
  apply safe_findings in Hs as (F1 & F2 & _ & F4).
  assert (Hsame : forall q, q = conclude_probe (gathered j) p -> q.(re_pid) = p.(re_pid) /\ q.(re_call_id) = p.(re_call_id) /\
    q.(re_dispatch_seq) = p.(re_dispatch_seq) /\ q.(re_latest_mutation_seq) = p.(re_latest_mutation_seq) /\ q.(re_recorded_revision) = p.(re_recorded_revision)).
  { intros q ->. unfold conclude_probe. repeat (case_match; cbn in *; simplify_eq); done. }
  destruct (Hsame _ eq_refl) as (S1 & S2 & S3 & S4 & S5).
  unfold process_finding in F1. rewrite S1 in F1. destruct (re_pid p) as [pid|] eqn:Epid; cbn in F1; [|done].
  destruct (probe_liveness pid) as [[| |]|] eqn:El; cbn in F1; try done.
  destruct (re_dispatch_seq p) as [ds|] eqn:Ed; [|by destruct P2]. destruct P2 as (d & Hd & <- & Hdis & Epd & Hmax).
  unfold result_finding in F2. rewrite S2 in F2. destruct (re_call_id p) as [call|] eqn:Ecall; cbn in F2; [|done].
  destruct (re_result_committed (conclude_probe (gathered j) p)) eqn:Erc; [done|].
  exists d, pid, call. do 6 (split; [by auto|]).
  unfold workspace_finding in F4. rewrite S3, S4, S5, G3 in F4. split; [|split].
  - rewrite <- Pa. intros e He Ha. destruct (G2 _ _ _ He Ha) as (c & Hc & m & Em & Hle).
    unfold conclude_probe in Erc. rewrite Ecall, Ed, Hc in Erc. cbn in Erc.
    assert (Hlater : later_than (cc_result_seq c) d.(seq) = false) by (repeat (case_match; cbn in *; simplify_eq); done).
    rewrite Em in Hlater. cbn in Hlater. apply N.ltb_ge in Hlater. lia.
  - intros e He Hm. destruct (P1 e He Hm) as (m & Em & Hle). rewrite Em in F4.
    destruct (N.ltb_spec d.(seq) m) as [Hlt|Hge]; [done|lia].
  - destruct (re_recorded_revision p) as [r|] eqn:Er; [|by destruct (match re_latest_mutation_seq p with Some _ => _ | None => _ end)].
    destruct (P3 r eq_refl) as (e & i & ?). exists e, i. destruct (match re_latest_mutation_seq p with Some _ => _ | None => _ end); [done|].
    cbn [mbind option_bind] in F4. destruct (String.eqb_spec (revision_after j) r) as [->|Hne]; [done|].
    exfalso. revert F4. repeat case_match; done.
Qed.
End Advice.
