(* ===== verification/RecoveryClaims.v ===== *)
(** * Recovery after a crash: composition and a run

    The broker and recovery together: whatever the broker was doing when it
    died, one successful pass leaves every effect with a legal history and every
    dispatched effect with an outcome.  The in-memory store answers every read,
    so paging there is exact.  A concrete run exercises the theorems. *)

From stdpp Require Import sorting.
From S2P Require Import Prelude RustStr Digest EffectTypes Policy Json Broker BrokerInv BrokerProps Fixtures.
From S2P Require Import Cas Envelope Events Journal JournalProps Recovery RecoveryProps RecoveryPass RecoveryAdvice.

Local Open Scope string_scope.

(** ** The in-memory store *)

Section Memory.
Context {layout : MemoryLayout} {json : EventJson}.

Lemma memory_readable store : memory_ok store -> readable (St := MemoryStore) store.
Proof.
  intros Hok sid cursor limit budget kinds. cbn [sh_page memory_handle]. unfold read_reducer_page.
  destruct (N.eqb_spec limit 0) as [->|Hl]; [by eexists|]. cbn [orb]. case_bool_decide; [by eexists|].
  assert (Hfuel : length (after cursor (events sid store)) < S (length (events sid store))).
  { unfold after. pose proof (length_filter (fun e => (cursor < e.(seq))%N) (events sid store)). lia. }
  destruct (scan_spec (read sid store) _ limit budget kinds ltac:(lia) (numbered_increasing _ _ (Hok sid)) (fun _ => eq_refl)
    _ cursor cursor [] 0%N Hfuel eq_refl) as (page & E & _). rewrite E. by eexists.
Qed.

(** Reading a session of the in-memory store page by page is exact. *)
Lemma memory_paged_exact budget sid store :
  memory_ok store ->
  reduce_session budget sid store = Some (reduce_page (events sid store) no_reduction).
Proof. intros Hok. exact (reduce_session_readable (St := MemoryStore) budget sid store Hok (memory_readable store Hok)). Qed.
End Memory.

(** ** The SQLite store *)

Section Sqlite.
Context {layout : MemoryLayout} {engine : SqliteEngine} {json : EventJson}.
Variable sqlite_append : N -> list RawEnvelope -> SqliteStore -> result (list RawEnvelope) HaiderError * SqliteStore.
Local Instance journal_handle : StoreHandle SqliteStore := sqlite_handle sqlite_append.

(** C34: Reading a session of the SQLite store page by page is exact.  With any
    byte budget the loop ends, although the reader also returns rows that have
    no kind column and falls back to unfiltered pages: the reduction it builds,
    or the decoding error it stops at, is the one of the whole journal read at
    once, unless a read fails, and then the loop fails with that error.  When
    the loop succeeds every row of a kind the reducer wants, or of no kind,
    was sound: none is skipped silently.  With an engine that does not fail and
    sound rows the result is the reduction.  It is assumed that the rows are in
    the order of their positive sequence numbers and that a kind column that is
    set is the kind of the row's envelope. *)
Theorem paged_reduction_exact budget sid store :
  let rows := table sid store in
  table_ok sid rows ->
  exists r, reduce_session budget sid store = Some r /\
    (r = reduce_page (sqlite_journal sid rows) no_reduction \/
     exists cursor error, r = Err error /\
       sqlite_read_reducer_page sid rows cursor RECOVERY_PAGE_SIZE budget RECOVERY_REDUCER_PAYLOAD_KINDS = Err error) /\
    (forall red row, r = Ok red -> row ∈ rows -> eligible RECOVERY_REDUCER_PAYLOAD_KINDS row = true -> is_Some (row_value sid row)) /\
    (connection_error = None -> (forall s, statement_error sid s = None) -> (forall row, row_error row = None) ->
     (forall row, row ∈ rows -> is_Some (row_value sid row)) ->
     r = reduce_page (sqlite_journal sid rows) no_reduction).
Proof.
  intros rows Hok. set (rd := fun cursor => sqlite_read_reducer_page sid rows cursor RECOVERY_PAGE_SIZE budget RECOVERY_REDUCER_PAYLOAD_KINDS).
  pose proof (sqlite_increasing sid rows Hok) as Hi.
  assert (Hz : after 0 (sqlite_journal sid rows) = sqlite_journal sid rows).
  { apply after_all, Forall_forall. intros e (row & Hr & Ev)%filter_map_elem. pose proof (tk_range _ _ Hok row Hr).
    destruct (row_value_seq _ _ _ Ev) as (_ & -> & _). lia. }
  destruct (fold_pages_spec reduce_page RECOVERY_REDUCER_PAYLOAD_KINDS rd (sqlite_journal sid rows)
    ltac:(done) reduce_page_app Hi) with (fuel := fuel_for sid store) (cursor := 0%N) (acc := no_reduction) as (r & E & Hr).
  { intros cursor page Hp. by apply (sqlite_page_ok sid cursor RECOVERY_PAGE_SIZE budget). }
  { rewrite Hz. exact (Nat.lt_succ_diag_r _). }
  specialize (Hr reduce_relevant). rewrite Hz, reduce_relevant in Hr. exists r. split; [exact E|]. split_and!.
  - destruct Hr as [?|(c & error & _ & ? & ?)]; eauto 10.
  - intros red row -> Hrow He. destruct (row_value sid row) as [e|] eqn:Ev; [done|exfalso].
    eapply (fold_pages_clear reduce_page rd (fun q => exists row, row ∈ rows /\ q = Z.to_N row.(row_seq) /\
      eligible RECOVERY_REDUCER_PAYLOAD_KINDS row = true /\ row_value sid row = None) _ _ _ _ _ E (Z.to_N row.(row_seq))).
    + pose proof (tk_range _ _ Hok row Hrow). lia.
    + eauto.
  - intros Hcn Hst Herr Hall. destruct Hr as [?|(c & error & Hc & Hbad & _)]; [done|exfalso].
    destruct (sqlite_page_total sid c RECOVERY_PAGE_SIZE budget RECOVERY_REDUCER_PAYLOAD_KINDS rows Hcn Hst Herr) as [page Hp]; [|done|unfold rd in Hbad; congruence].
    destruct Hc as [->|(e & He & ->)]; [done|]. apply filter_map_elem in He as (row & Hrow & Ev).
    destruct (row_value_seq _ _ _ Ev) as (_ & -> & _). pose proof (tk_range _ _ Hok row Hrow). lia.
  Unshelve. intros cursor page q Hp (row' & Hin & -> & He' & Hv) Hlt.
    apply (sqlite_page_ok sid cursor RECOVERY_PAGE_SIZE budget RECOVERY_REDUCER_PAYLOAD_KINDS rows page Hok) in Hp as [_ Hp]; [|done..].
    apply (Hp row' Hin); [lia|done|done].
Qed.
End Sqlite.

(** ** Crash and recovery *)

Lemma legal_settled effect l : legal_history effect l -> Dispatched effect ∈ l -> last_outcome effect l = None ->
  legal_history effect (l ++ [Outcome effect Unknown None None])%list.
Proof.
  intros [->|(i & v & Hi & Hl)] Hd Hn; [set_solver|]. right. exists i, v. split; [done|].
  destruct Hl as [->|[->|[Hv Hl]]]; [set_solver..|]. right. right. split; [done|]. right.
  destruct Hl as [->|(o & f & m & ->)]; [by eauto|]. exfalso. unfold last_outcome in Hn. cbn in Hn.
  by rewrite bool_decide_eq_true_2 in Hn.
Qed.

Section Crash.
Context {blake3 : Blake3} {json_text : JsonText} {debug : DebugText}.
Context {json : EventJson} {json_laws : EventJsonLaws json} {probe : ProcessProbe} {clock : RecoveryClock}.
Context {St : Type} {handle : StoreHandle St} {store_laws : StoreLaws St}.

Lemma pass_keeps_ok budget generation now device sids s r s' : sh_ok s -> NoDup sids ->
  reconcile_dispatched_effects budget generation now device sids s = Some (r, s') -> sh_ok s'.
Proof.
  intros Hs Hn E. destruct (sessions_pass budget generation now device sids Hn {| rr_reconciled_effects := []; rr_opened_recovery_menus := [] |} s Hs)
    as (r0 & s0 & E' & Hs' & _). unfold reconcile_dispatched_effects in E. rewrite E in E'. by injection E' as _ ->.
Qed.

(** C11: Crash safety of effects.  Let every effect's history in the listed
    journals be what some broker had committed when it died, at any point of
    any run.  After one successful recovery pass every history is still legal
    (an intent, at most one verdict, a dispatch only after a permit, at most one
    outcome), it differs from before at most by one unknown outcome at its end,
    and every dispatched effect has its outcome. *)
Theorem crash_recovery budget generation now device sids s report s' :
  sh_ok s -> NoDup sids ->
  (forall sid effect, sid ∈ sids -> exists b, broker_reachable b /\
     history effect (effect_phases (sh_journal sid s)) = history effect b.(br_journal).(bj_phases)) ->
  reconcile_dispatched_effects budget generation now device sids s = Some (Ok report, s') ->
  forall sid effect, sid ∈ sids ->
    legal_history effect (history effect (effect_phases (sh_journal sid s'))) /\
    (exists tail, history effect (effect_phases (sh_journal sid s')) = (history effect (effect_phases (sh_journal sid s)) ++ tail)%list /\
       tail ∈ [[]; [Outcome effect Unknown None None]]) /\
    (Dispatched effect ∈ effect_phases (sh_journal sid s') ->
       exists o f m, Outcome effect o f m ∈ effect_phases (sh_journal sid s')).
Proof.
  intros Hs Hn Hb E sid effect Hsid.
  destruct (sessions_pass budget generation now device sids Hn {| rr_reconciled_effects := []; rr_opened_recovery_menus := [] |} s Hs)
    as (r & s0 & E' & _ & _ & _ & Hall). unfold reconcile_dispatched_effects in E. rewrite E in E'. injection E' as <- <-.
  pose proof (Hall report eq_refl sid Hsid) as Hrec. destruct (Hb sid effect Hsid) as (b & Hr & Eh).
  assert (Hlegal : legal_history effect (history effect (effect_phases (sh_journal sid s)))).
  { rewrite Eh. eapply life_legal, (ji_life _ (bi_journal _ (broker_reachable_inv _ Hr))). }
  destruct Hrec as (Hnew & Hh & Hrest). pose proof (Hh effect) as He. unfold missing_outcome in He. split_and!.
  - rewrite He. destruct (bool_decide _) eqn:Hd; cbn; [|by rewrite app_nil_r].
    destruct (bool_decide (last_outcome _ _ = None)) eqn:Ho; [|by rewrite app_nil_r].
    apply bool_decide_eq_true in Hd, Ho. apply legal_settled; [done|by apply history_elem|]. by rewrite <- last_outcome_history.
  - eexists. split; [exact He|]. destruct (_ && _); set_solver.
  - intros Hd. destruct (recovered_settled sid _ _ effect (conj Hnew (conj Hh Hrest)) Hd) as [o Ho].
    destruct (last_outcome_some _ _ _ Ho) as (f & m & ?). eauto.
Qed.
End Crash.

(** ** A run *)

#[local] Instance EffectRecoveryAction_eq_dec : EqDecision EffectRecoveryAction.
Proof. solve_decision. Defined.
#[local] Instance MenuKind_eq_dec : EqDecision MenuKind.
Proof. solve_decision. Defined.
#[local] Instance MenuOption_eq_dec : EqDecision MenuOption.
Proof. solve_decision. Defined.
#[local] Instance MenuScope_eq_dec : EqDecision MenuScope.
Proof. solve_decision. Defined.
#[local] Instance Menu_eq_dec : EqDecision Menu.
Proof. solve_decision. Defined.

Module RecoveryWitness.
#[local] Existing Instance Sample.sample_blake3.
#[local] Instance sample_json : JsonText := fun v => match v with Str s => Ok s | _ => Ok "{}" end.
#[local] Instance sample_debug : DebugText := fun s => "'" ++ s ++ "'".
#[local] Instance sample_layout : MemoryLayout := { size_of_envelope := 400; size_of_value := 32; usize_max := u64_max }.
#[local] Instance all_dead : ProcessProbe := fun _ => Some Dead.
#[local] Instance in_time : RecoveryClock := { session_late _ := false; group_late _ _ := false }.

(** An encoding of the events of the run; the others have none. *)
Definition effect_value (phase effect : string) (rest : list (string * Value)) : Value :=
  Object (("type", Str "effect") :: ("phase", Str phase) :: ("effect", Str effect) :: rest).

Definition to_sample (payload : EventPayload) : result Value string :=
  match payload with
  | EEffect (Intent (mkIntent effect ProcessExec summary digest (Some revision))) =>
      Ok (effect_value "intent" effect [("summary", Str summary); ("digest", Str digest); ("revision", Str revision)])
  | EEffect (Authorized effect (VPreAuthorized UserTyped)) => Ok (effect_value "authorized" effect [])
  | EEffect (Dispatched effect) => Ok (effect_value "dispatched" effect [])
  | EEffect (Outcome effect Unknown None None) => Ok (effect_value "outcome" effect [])
  | ERunState EffectOutcomeUnknown => Ok (Object [("type", Str "run_state")])
  | EItem (Started id (ToolCall call name Null status)) =>
      Ok (Object [("type", Str "item"); ("id", Str id); ("call", Str call); ("name", Str name); ("status", Str status)])
  | EMenuOpened m =>
      match m.(menu_kind), m.(menu_body) with
      | RecoveryMenu effect _, [_; line] =>
          if decide (m = push_body line (effect_recovery_menu m.(menu_id) effect ("effect " ++ effect)))
          then Ok (Object [("type", Str "menu_opened"); ("id", Str m.(menu_id)); ("effect", Str effect); ("line", Str line)])
          else Err "unsupported"
      | _, _ => Err "unsupported"
      end
  | _ => Err "unsupported"
  end.

Definition from_sample (v : Value) : result EventPayload string :=
  let field key := default "" (get_str key v) in
  let says key text := String.eqb (field key) text in
  if says "type" "run_state" then Ok (ERunState EffectOutcomeUnknown)
  else if says "type" "item" then Ok (EItem (Started (field "id") (ToolCall (field "call") (field "name") Null (field "status"))))
  else if says "type" "menu_opened"
  then Ok (EMenuOpened (push_body (field "line") (effect_recovery_menu (field "id") (field "effect") ("effect " ++ field "effect"))))
  else if negb (says "type" "effect") then Err "unsupported"
  else if says "phase" "intent"
  then Ok (EEffect (Intent (mkIntent (field "effect") ProcessExec (field "summary") (field "digest") (Some (field "revision")))))
  else if says "phase" "authorized" then Ok (EEffect (Authorized (field "effect") (VPreAuthorized UserTyped)))
  else if says "phase" "dispatched" then Ok (EEffect (Dispatched (field "effect")))
  else Ok (EEffect (Outcome (field "effect") Unknown None None)).

#[local] Instance sample_events : EventJson := { to_value := to_sample; from_value := from_sample }.

Lemma sample_laws : EventJsonLaws sample_events.
Proof.
  split.
  - intros payload v E. cbn [to_value from_value sample_events] in *. unfold to_sample in E.
    repeat (case_match; simplify_eq); try reflexivity.
    match goal with H : ?m = push_body _ _ |- _ => rewrite H at 2 end. reflexivity.
  - intros payload v kind E Hk. cbn [to_value sample_events] in *. unfold to_sample in E.
    repeat (case_match; simplify_eq/=); reflexivity.
Qed.

(** A typed command is dispatched and the process dies.  The dispatch carries
    the pid that was spawned. *)
Definition make : EffectOperation :=
  {| op_class := ProcessExec; op_summary := "run make"; op_arguments := Ok (Str "make"); op_preview := ["make"];
     op_revision := Some "workspace-revision:0" |}.
Definition broker0 := new_broker "s-1-0" {| sk_log := []; sk_checkpoint_batches := true; sk_answers := [] |}.
Definition broker := (begin_user_typed make broker0).2.

Lemma broker_reached : broker_reachable broker.
Proof.
  exists "s-1-0", {| sk_log := []; sk_checkpoint_batches := true; sk_answers := [] |}. split; [done|].
  eapply rtc_once, (bs_user_typed make), surjective_pairing.
Qed.

Definition effect : EffectId := "effect-s-1-0-1".
Definition made (id : string) (raw : RawPayload) : RawEnvelope :=
  mkEnvelope 1 id 0 "s" None (Some "run") None "device" 0 1 None None 0 {| rt_ui := true; rt_durable := true; rt_prompt := Omit |} raw.
Definition sample_raw (event : EventPayload) : RawPayload :=
  match from_event event with Ok raw => raw | Err _ => JsonPayload Null end.
Definition died : list RawEnvelope :=
  made "0" (sample_raw (EItem (Started "i" (ToolCall "call" "bash" Null "running")))) ::
  imap (fun n phase => made (pretty (N.of_nat n + 1)%N)
          (match phase with
           | Dispatched e => JsonPayload (effect_value "dispatched" e [("pid", Number "7")])
           | _ => sample_raw (EEffect phase)
           end)) broker.(br_journal).(bj_phases).
Definition empty_store : MemoryStore := {| sessions := ∅ |}.
Definition crashed : MemoryStore := (append 5 died empty_store).2.
(** One pass, a page and three weights of bytes at a time. *)
Local Abbreviation pass := (reconcile_dispatched_effects 1200 2 9 "device" ["s"] crashed).
Definition report : RecoveryReport := {| rr_reconciled_effects := [effect]; rr_opened_recovery_menus := [effect] |}.
Definition restored : MemoryStore := match pass with Some (_, s) => s | None => crashed end.

Lemma crashed_ok : memory_ok crashed.
Proof. refine (proj1 (memory_append_ok empty_store 5 died _ _ _ (surjective_pairing _))). intros sid n e H. vm_compute in H. by destruct n. Qed.
Lemma crashed_phases : effect_phases (events "s" crashed) = broker.(br_journal).(bj_phases).
Proof. vm_compute. reflexivity. Qed.
Lemma pass_ok : pass = Some (Ok report, restored).
Proof.
  assert (E : match pass with Some (r, _) => Some r | None => None end = Some (Ok report)) by (vm_compute; reflexivity).
  unfold restored. destruct pass as [[r s]|]; [|done]. by injection E as ->.
Qed.
Lemma one_session sid : sid ∈ ["s"] -> sid = "s".
Proof. apply list_elem_of_singleton. Qed.

Lemma restored_ok : memory_ok restored.
Proof.
  exact (pass_keeps_ok (store_laws := memory_laws) (json_laws := sample_laws) 1200 2 9 "device" ["s"] crashed _ _ crashed_ok (NoDup_singleton _) pass_ok).
Qed.

(** The same journal in a table, its second row without a kind. *)
#[local] Instance calm_engine : SqliteEngine := { connection_error := None; statement_error _ _ := None; row_error _ := None }.
Definition row_of (n : nat) (e : RawEnvelope) : Row :=
  mkRow (Z.of_N e.(seq)) (Ok e) e.(event_id) (Z.of_N e.(committed_at_ms))
    (if (n =? 1)%nat then None else Some (envelope_payload_kind e)).
Definition crashed_table : list Row := imap row_of (events "s" crashed).
Definition crashed_db : SqliteStore := {| tables := {[ "s" := crashed_table ]} |}.
Definition no_append (_ : N) (_ : list RawEnvelope) (store : SqliteStore)
  : result (list RawEnvelope) HaiderError * SqliteStore := (Err (corrupt "closed"), store).

Lemma crashed_rows row : row ∈ crashed_table -> exists n e, row = row_of n e /\ row_value "s" row = Some e /\
  (0 < row.(row_seq) <= Z.of_N I64_MAX)%Z.
Proof.
  intros (n & Hr)%list_elem_of_lookup. unfold crashed_table in Hr. rewrite list_lookup_imap in Hr.
  apply fmap_Some in Hr as (e & He & ->). exists n, e. split; [done|].
  do 4 (destruct n as [|n]; [vm_compute in He; injection He as <-; by vm_compute|]). by vm_compute in He.
Qed.
Lemma crashed_table_ok : table_ok "s" crashed_table.
Proof.
  split.
  - vm_compute. repeat (constructor; [|repeat constructor]). constructor.
  - intros row Hr. by destruct (crashed_rows row Hr) as (n & e & _ & _ & ?).
  - intros row e kind Hr Ev. destruct (crashed_rows row Hr) as (n & e' & -> & Ev' & _). rewrite Ev in Ev'. injection Ev' as <-.
    cbn. destruct (n =? 1)%nat; [done|]. by intros [= <-].
Qed.

Lemma paged_reduction_exact_witness :
  reduce_session (StoreHandle0 := sqlite_handle no_append) 1200 "s" crashed_db
    = Some (reduce_page (events "s" crashed) no_reduction) /\ length (events "s" crashed) = 4%nat.
Proof.
  split; [|vm_compute; reflexivity].
  destruct (paged_reduction_exact no_append 1200 "s" crashed_db crashed_table_ok) as (r & E & _ & _ & H).
  etransitivity; [exact E|]. rewrite H; [vm_compute; reflexivity|done|done|done|].
  intros row Hr. destruct (crashed_rows row Hr) as (n & e & _ & ? & _). by exists e.
Defined.

Lemma recovery_settles_witness :
  (exists r s', pass = Some (r, s') /\ memory_ok s' /\
    forall report sid, r = Ok report -> sid ∈ ["s"] -> recovered sid (events sid crashed) (events sid s')) /\
  length (events "s" restored) = 7%nat.
Proof.
  split; [|vm_compute; reflexivity].
  destruct (recovery_settles (store_laws := memory_laws) (json_laws := sample_laws) 1200 2 9 "device" ["s"] crashed crashed_ok (NoDup_singleton _)) as (r & s' & E & Hs & _ & H).
  exists r, s'. split; [exact E|]. split; [exact Hs|]. intros rep sid Hr Hsid. exact (proj1 (H rep sid Hr Hsid)).
Defined.

Lemma recovery_idempotent_witness :
  reconcile_dispatched_effects 600 3 10 "other" ["s"] restored =
    Some (Ok {| rr_reconciled_effects := []; rr_opened_recovery_menus := [] |}, restored).
Proof.
  refine (recovery_idempotent (store_laws := memory_laws) (json_laws := sample_laws) 1200 2 9 "device" ["s"] crashed report restored 600 3 10 "other"
    crashed_ok (NoDup_singleton _) (memory_readable _ restored_ok) _ pass_ok).
  intros sid ->%one_session. split.
  - intros a b Ha Hb _. change (sh_journal "s" crashed) with (events "s" crashed) in *. rewrite crashed_phases in Ha, Hb.
    vm_compute in Ha, Hb. set_solver.
  - intros env menu e actions b Hm. exfalso. apply (list_elem_of_fmap_2 snd) in Hm.
    assert (El : (recorded (sh_journal "s" crashed)).*2 = map EEffect broker.(br_journal).(bj_phases)) by (vm_compute; reflexivity).
    rewrite El in Hm. apply list_elem_of_fmap in Hm as (? & [=] & _).
Defined.

Lemma crash_recovery_witness :
  legal_history effect (history effect (effect_phases (events "s" restored))) /\
  history effect (effect_phases (events "s" restored)) = (broker.(br_journal).(bj_phases) ++ [Outcome effect Unknown None None])%list.
Proof.
  split; [|vm_compute; reflexivity].
  refine (proj1 (crash_recovery (store_laws := memory_laws) (json_laws := sample_laws) 1200 2 9 "device" ["s"] crashed report restored
    crashed_ok (NoDup_singleton _) _ pass_ok "s" effect _)); [|by left].
  intros sid e ->%one_session. exists broker. split; [exact broker_reached|].
  change (sh_journal "s" crashed) with (events "s" crashed). by rewrite crashed_phases.
Defined.

Lemma retry_advice_sound_witness :
  conclude (gathered (Some "run") None [effect] (events "s" crashed)) !! effect =
    Some "probe: process dead · no result committed · workspace revision unchanged — Retry is likely safe" /\
  exists d pid call, d ∈ events "s" crashed /\ dispatches (Some "run") None effect d /\
    effect_dispatch_pid (deref d.(payload)) = Some pid /\ probe_liveness pid = Some Dead /\
    made_for (Some "run") None (events "s" crashed) effect call.
Proof.
  assert (E : conclude (gathered (Some "run") None [effect] (events "s" crashed)) !! effect =
    Some "probe: process dead · no result committed · workspace revision unchanged — Retry is likely safe") by (vm_compute; reflexivity).
  split; [exact E|].
  destruct (retry_advice_sound (Some "run") None [effect] (events "s" crashed) effect _ (numbered_increasing _ _ (crashed_ok "s")) E) as (d & pid & call & H1 & H2 & _ & H3 & H4 & H5 & _).
  - eexists. vm_compute. reflexivity.
  - exists d, pid, call. split; [exact H1|]. split; [exact H2|]. split; [exact H3|]. split; [exact H4|exact H5].
Defined.
End RecoveryWitness.
