(* ===== verification/Redact.v ===== *)
(** * Secret redaction (haider-tools redact.rs)

    Text shown to a model or a client first passes here: recognized credentials
    are replaced by markers.  A Rust [str] is its bytes; slicing off a character
    boundary panics and returns [Panic].  The compiled patterns of the regex
    crate and the base64 engines are parameters ([Patterns], [Base64Engine]), and
    so is the floating-point sum of the entropy test ([Entropy]).  Paths are
    those of a POSIX host. *)

From S2P Require Import Prelude RustStr ByteBuf.

Local Open Scope string_scope.

Abbreviation lit := as_bytes.

(** ** Strings as bytes *)

Definition is_char_boundary (s : bytes) (i : nat) : bool :=
  bool_decide (i = 0) || bool_decide (i = length s)
  || match s !! i with Some c => negb (is_continuation c) | None => false end.

(** [&s[from..to]]. *)
Definition str_slice (s : bytes) (from to : nat) : result bytes Stuck :=
  if bool_decide (from <= to) && bool_decide (to <= length s) && is_char_boundary s from && is_char_boundary s to
  then Ok (take (to - from) (drop from s)) else Err Panic.

Fixpoint bytes_strip_prefix (p s : bytes) : option bytes :=
  match p, s with
  | [], s => Some s
  | c :: p, d :: s => if Ascii.eqb c d then bytes_strip_prefix p s else None
  | _ :: _, [] => None
  end.
Definition bytes_starts_with (p s : bytes) : bool := bool_decide (is_Some (bytes_strip_prefix p s)).
Definition bytes_strip_suffix (p s : bytes) : option bytes := reverse <$> bytes_strip_prefix (reverse p) (reverse s).
Definition bytes_ends_with (p s : bytes) : bool := bool_decide (is_Some (bytes_strip_suffix p s)).
Fixpoint bytes_contains (p s : bytes) : bool :=
  bytes_starts_with p s || match s with [] => false | _ :: s => bytes_contains p s end.

(** [split(c)], [split_inclusive(c)] and [split_once(c)] for one byte. *)
Fixpoint split_byte (c : ascii) (s : bytes) : list bytes :=
  match s with
  | [] => [[]]
  | d :: s =>
      if Ascii.eqb d c then [] :: split_byte c s
      else match split_byte c s with
           | piece :: pieces => (d :: piece) :: pieces
           | [] => [[d]]
           end
  end.
Fixpoint split_inclusive (c : ascii) (s : bytes) : list bytes :=
  match s with
  | [] => []
  | d :: s =>
      if Ascii.eqb d c then [d] :: split_inclusive c s
      else match split_inclusive c s with
           | piece :: pieces => (d :: piece) :: pieces
           | [] => [[d]]
           end
  end.
Fixpoint split_once_byte_at (c : ascii) (s : bytes) : option (bytes * bytes) :=
  match s with
  | [] => None
  | d :: s => if Ascii.eqb d c then Some ([], s) else '(a, b) ← split_once_byte_at c s; Some (d :: a, b)
  end.

Fixpoint drop_while (p : ascii -> bool) (s : bytes) : bytes :=
  match s with
  | [] => []
  | c :: s' => if p c then drop_while p s' else s
  end.
Definition trim_end_bytes (p : ascii -> bool) (s : bytes) : bytes := reverse (drop_while p (reverse s)).

Definition is_ascii_alphabetic (c : ascii) : bool := is_ascii_uppercase c || is_ascii_lowercase c.
Definition is_ascii_hexdigit (c : ascii) : bool := is_ascii_digit c || in_range 65 70 c || in_range 97 102 c.
Definition ascii_lower (c : ascii) : ascii := if is_ascii_uppercase c then ascii_of_N (byte_val c + 32) else c.
Definition ascii_upper (c : ascii) : ascii := if is_ascii_lowercase c then ascii_of_N (byte_val c - 32) else c.
Definition one_of (set : string) (c : ascii) : bool := existsb (Ascii.eqb c) (lit set).

(** ** Parameters *)

(** Bounds of the matches of each pattern, in order; for the two patterns with a
    group, the bounds of the group. *)
Class Patterns := {
  private_key_regex : bytes -> list (nat * nat);
  known_secret_regex : bytes -> list (nat * nat);
  extended_secret_regex : bytes -> list (nat * nat);
  secret_assignment_regex : bytes -> list (nat * nat);
  url_userinfo_regex : bytes -> list (nat * nat);
  entropy_candidate_regex : bytes -> list (nat * nat);
  identifier_candidate_regex : bytes -> list (nat * nat);
  private_key_material_regex : bytes -> list (nat * nat)
}.

(** [engine.decode] of STANDARD, STANDARD_NO_PAD and URL_SAFE_NO_PAD. *)
Inductive Base64Kind := STANDARD | STANDARD_NO_PAD | URL_SAFE_NO_PAD.
Class Base64Engine := base64_decode : Base64Kind -> bytes -> option bytes.

(** The [f64] entropy of the non-zero byte counts over the length is at least
    3.5 bits. *)
Class Entropy := entropy_reaches : list N -> N -> bool.

(** ** Paths *)

(** [Path::components] as text. *)
Definition path_components (path : bytes) : list bytes :=
  let absolute := bytes_starts_with (lit "/") path in
  let pieces := split_byte "/"%char path in
  let kept := List.filter (fun piece => negb (bool_decide (piece = [])) && negb (bool_decide (piece = lit "."))) pieces in
  if absolute then lit "/" :: kept
  else match pieces with
       | first :: _ => if bool_decide (first = lit ".") then first :: kept else kept
       | [] => kept
       end.

Fixpoint has_pair (a b : bytes) (l : list bytes) : bool :=
  match l with
  | [] => false
  | x :: l => bool_decide (x = a) && bool_decide (head l = Some b) || has_pair a b l
  end.

Definition in_names (names : list string) (s : bytes) : bool := existsb (fun name => bool_decide (s = lit name)) names.

(** [is_sensitive_path], without the android-standalone feature. *)
Definition is_sensitive_path (path : bytes) : bool :=
  let components := map (map ascii_lower) (path_components path) in
  if existsb (in_names [".aws"; ".ssh"; ".gnupg"; ".kube"; ".azure"]) components
     || has_pair (lit ".config") (lit "gcloud") components
  then true
  else match last components with
       | None => false
       | Some name =>
           in_names [".env"] name || bytes_starts_with (lit ".env.") name || in_names [".netrc"] name
           || in_names [".npmrc"; ".pypirc"] name || bytes_starts_with (lit "id_rsa") name
           || bytes_starts_with (lit "credentials") name
           || existsb (fun extension => bytes_ends_with (lit ("." ++ extension)) name)
                ["pem"; "key"; "p12"; "jks"; "keystore"; "tfstate"]
       end.

(** [Path::file_name] of a path: its last component, unless that is the root or
    a dot component. *)
Definition file_name (path : bytes) : option bytes :=
  name ← last (path_components path);
  if in_names ["/"; "."; ".."] name then None else Some name.
(** [Path::extension().is_some()]: a dot behind the first byte of the name. *)
Definition has_extension (path : bytes) : bool :=
  match file_name path with
  | Some (_ :: name) => existsb (Ascii.eqb ".") name
  | _ => false
  end.

Definition is_token_config_path (path : bytes) : bool :=
  match file_name path with
  | Some name => in_names [".npmrc"; ".pypirc"] (map ascii_lower name)
  | None => false
  end.

(** ** Identifiers *)

Definition all_b (p : ascii -> bool) (s : bytes) : bool := forallb p s.

Fixpoint uuid_bytes (i : nat) (s : bytes) : bool :=
  match s with
  | [] => true
  | c :: s =>
      (if existsb (Nat.eqb i) [8; 13; 18; 23] then Ascii.eqb c "-" else is_ascii_hexdigit c) && uuid_bytes (S i) s
  end.
Definition is_uuid (value : bytes) : bool := Nat.eqb (length value) 36 && uuid_bytes 0 value.

Definition BASE58 : bytes := lit "123456789ABCDEFGHJKLMNPQRSTUVWXYZabcdefghijkmnopqrstuvwxyz".

Fixpoint position (c : ascii) (l : bytes) : option nat :=
  match l with
  | [] => None
  | d :: l => if Ascii.eqb d c then Some 0 else S <$> position c l
  end.

(** [for place in decoded.iter_mut().rev()]: the bytes, last first, and the
    carry that is left; [carry] is a [u16]. *)
Fixpoint mul_add (carry : N) (places : list N) : N * list N :=
  match places with
  | [] => (carry, [])
  | place :: places =>
      let carry := carry + place * 58 in
      let '(out, rest) := mul_add (N.shiftr carry 8) places in
      (out, N.land carry 255 :: rest)
  end%N.

(** [decoded] is kept last byte first. *)
Fixpoint base58_loop (decoded : list N) (value : bytes) : option (list N) :=
  match value with
  | [] => Some decoded
  | byte :: value =>
      digit ← position byte BASE58;
      let '(carry, decoded) := mul_add (N.of_nat digit) decoded in
      if (carry =? 0)%N then base58_loop decoded value else None
  end.

Definition is_cid_v0 (value : bytes) : bool :=
  if negb (Nat.eqb (length value) 46) || negb (bytes_starts_with (lit "Qm") value) then false
  else match base58_loop (repeat 0%N 34) value with
       | None => false
       | Some decoded => bool_decide (take 2 (reverse decoded) = [18; 32]%N)
       end.

Definition CROCKFORD : string := "0123456789ABCDEFGHJKMNPQRSTVWXYZ".

Definition or_else {A} (a b : option A) : option A := match a with Some _ => a | None => b end.

Definition is_identifier (value : bytes) : bool :=
  match bytes_strip_prefix (lit "HEAD:") value with
  | Some digest => Nat.eqb (length digest) 40 && all_b is_ascii_hexdigit digest
  | None =>
      match or_else (bytes_strip_prefix (lit "urn:uuid:") value) (bytes_strip_prefix (lit "thread-") value) with
      | Some uuid => is_uuid uuid
      | None =>
          let value := default value (or_else (bytes_strip_prefix (lit "sha256:") value) (bytes_strip_prefix (lit "blake3:") value)) in
          if existsb (Nat.eqb (length value)) [32; 40; 64] && all_b is_ascii_hexdigit value then true
          else if is_uuid value || is_cid_v0 value then true
          else Nat.eqb (length value) 26
               && match value with c :: _ => (byte_val c <=? 55)%N | [] => false end
               && all_b (fun c => one_of CROCKFORD (ascii_upper c)) value
      end
  end.

Definition path_byte (c : ascii) : bool := is_ascii_alphanumeric c || one_of "/\._-~:" c.

Definition is_file_path (value : bytes) : bool :=
  let value := trim_end_bytes (one_of ".:") value in
  if bytes_contains (lit "=") value || bytes_contains (lit "://") value || negb (all_b path_byte value) then false
  else
    let qualified :=
      bytes_starts_with (lit "./") value || bytes_starts_with (lit "../") value || bytes_starts_with (lit "~/") value
      || bytes_contains (lit "\") value
      || match value with
         | c :: d :: e :: _ :: _ => is_ascii_alphabetic c && Ascii.eqb d ":" && Ascii.eqb e "/"
         | _ => false
         end in
    if qualified then true
    else if match split_once_byte_at "."%char value with
            | Some (stem, extensions) =>
                is_uuid stem
                && forallb (fun extension => (1 <=? length extension)%nat && (length extension <=? 10)%nat
                                             && all_b is_ascii_lowercase extension) (split_byte "."%char extensions)
            | None => false
            end then true
    else
      let components := split_byte "/"%char (drop_while (Ascii.eqb "/") value) in
      let first := default [] (head components) in
      let has_directory := (2 <=? length components)%nat in
      let named_directory :=
        (3 <=? length first)%nat
        && match first with
           | c :: rest => is_ascii_alphabetic c && all_b (fun b => is_ascii_lowercase b || one_of "_-" b) rest
           | [] => false
           end in
      (has_extension value && (has_directory || bytes_starts_with (lit "/") value))
      || (has_directory && (named_directory || is_identifier first)).

Definition is_public_run_id (prefix value : bytes) : bool :=
  match bytes_strip_suffix (lit "run_id=") prefix with
  | Some before => negb match last before with Some c => is_ascii_alphanumeric c || one_of "_-" c | None => false end
  | None => false
  end
  && (26 <=? length value)%nat && (length value <=? 64)%nat && all_b is_ascii_alphanumeric value.

(** ** Entropy *)

Definition count_byte (value : bytes) (n : nat) : N :=
  N.of_nat (length (List.filter (fun c => (byte_val c =? N.of_nat n)%N) value)).
Definition byte_counts (value : bytes) : list N := List.filter (fun n => 0 <? n)%N (map (count_byte value) (seq 0 256)).

Definition looks_high_entropy `{Entropy} (value : bytes) : bool :=
  let counts := byte_counts value in
  if (length counts <? 8)%nat then false else entropy_reaches counts (blen value).

(** ** Quoted values *)

Definition QUOTED_SECRET_MAX_BYTES : N := 2097152.

Record QuotedValue := mkQuoted {
  qv_quote : option ascii;
  qv_escaped : bool;
  qv_remaining : N;
  qv_exhausted : bool
}.
Definition no_quote : QuotedValue := mkQuoted None false 0 false.

Definition quoted_start (quote : ascii) (q : QuotedValue) : QuotedValue :=
  mkQuoted (Some quote) false (QUOTED_SECRET_MAX_BYTES - 1) q.(qv_exhausted).

Definition quoted_active (q : QuotedValue) : bool := negb (bool_decide (q.(qv_quote) = None)) || q.(qv_exhausted).

(** The loop over the window: the byte behind the closing quote, or the escape
    flag at the end. *)
Fixpoint find_closing (quote : ascii) (escaped : bool) (remaining : N) (input : bytes) : nat + bool :=
  match input with
  | [] => inr escaped
  | byte :: input =>
      if (remaining =? 0)%N then inr escaped
      else if escaped then
        match find_closing quote false (remaining - 1) input with inl n => inl (S n) | inr e => inr e end
      else if Ascii.eqb byte "\" then
        match find_closing quote true (remaining - 1) input with inl n => inl (S n) | inr e => inr e end
      else if Ascii.eqb byte quote then inl 1
      else match find_closing quote false (remaining - 1) input with inl n => inl (S n) | inr e => inr e end
  end.

Definition consume (q : QuotedValue) (input : bytes) : nat * QuotedValue :=
  if q.(qv_exhausted) then (length input, q)
  else match q.(qv_quote) with
       | None => (0, q)
       | Some quote =>
           match find_closing quote q.(qv_escaped) q.(qv_remaining) input with
           | inl n => (n, mkQuoted None false q.(qv_remaining) false)
           | inr escaped =>
               let remaining := (q.(qv_remaining) - blen input)%N in
               (length input, mkQuoted (Some quote) escaped remaining (remaining =? 0)%N)
           end
       end.

(** ** Spans *)

Inductive RedactionPolicy := StandardPolicy | ExplicitPath | Lockdown.
#[export] Instance RedactionPolicy_eq_dec : EqDecision RedactionPolicy.
Proof. solve_decision. Defined.

Record Span := mkSpan { sp_start : nat; sp_end : nat; sp_kind : string }.
#[export] Instance Span_eq_dec : EqDecision Span.
Proof. solve_decision. Defined.

(** [a < other.end && other.start < b]. *)
Definition overlaps (found : nat * nat) (span : Span) : bool := (found.1 <? span.(sp_end))%nat && (span.(sp_start) <? found.2)%nat.
Definition bounds (span : Span) : nat * nat := (span.(sp_start), span.(sp_end)).
Definition same_bounds (found : nat * nat) (span : Span) : bool := bool_decide (bounds span = found).
Definition of_kind (kind : string) (span : Span) : bool := String.eqb span.(sp_kind) kind.
(** [retain] of the spans beside the given one. *)
Definition retain_beside (found : nat * nat) (spans : list Span) : list Span :=
  List.filter (fun span => (span.(sp_end) <=? found.1)%nat || (found.2 <=? span.(sp_start))%nat) spans.

(** [found.as_str()]. *)
Definition matched (input : bytes) (found : nat * nat) : bytes := take (found.2 - found.1) (drop found.1 input).

Definition known_kind (value : bytes) : string :=
  if bytes_starts_with (lit "AKIA") value || bytes_starts_with (lit "ASIA") value then "aws_access_key"
  else if bytes_starts_with (lit "sk-") value then "api_key"
  else if bytes_starts_with (lit "ghp_") value || bytes_starts_with (lit "github_pat_") value then "github_token"
  else if bytes_starts_with (lit "xox") value then "slack_token"
  else "jwt".

(** Ordered by start and end, stable. *)
Definition span_before (a b : Span) : bool :=
  (a.(sp_start) <? b.(sp_start))%nat || (Nat.eqb a.(sp_start) b.(sp_start) && (a.(sp_end) <? b.(sp_end))%nat).
Fixpoint insert_span (x : Span) (l : list Span) : list Span :=
  match l with
  | [] => [x]
  | y :: l => if span_before x y then x :: y :: l else y :: insert_span x l
  end.
Definition sort_spans (l : list Span) : list Span := foldl (fun acc x => insert_span x acc) [] l.

(** [push_secret_lines]: one span per line, its newline outside. *)
Definition strip_newline (line : bytes) : bytes := default line (bytes_strip_suffix [LF] line).
Fixpoint line_spans (cursor : nat) (lines : list bytes) : list Span :=
  match lines with
  | [] => []
  | line :: lines =>
      let content := strip_newline line in
      (if bool_decide (content = []) then [] else [mkSpan cursor (cursor + length content) "secret_value"])
      ++ line_spans (cursor + length line) lines
  end%list.
Definition push_secret_lines (input : bytes) (start stop : nat) : result (list Span) Stuck :=
  (let? text := str_slice input start stop in Ok (line_spans start (split_inclusive LF text)))%res.

Section Classify.
Context {patterns : Patterns} {base64 : Base64Engine} {entropy : Entropy}.

Definition is_match (find : bytes -> list (nat * nat)) (s : bytes) : bool := negb (bool_decide (find s = [])).

Definition is_non_secret_carrier (value : bytes) (policy : RedactionPolicy) : bool :=
  let value := trim_end_bytes (one_of ".:") value in
  if is_identifier value || is_file_path value then true
  else if bool_decide (policy = ExplicitPath)
          && existsb (fun prefix => match bytes_strip_prefix (lit prefix) value with
                                    | Some rest => is_identifier rest
                                    | None => false
                                    end) ["thread-"; "run-"; "session-"; "thread_"; "run_"; "session_"] then true
  else if (4096 <? length value)%nat then false
  else existsb (fun engine =>
         match base64_decode engine value with
         | Some decoded =>
             utf8_valid decoded && (is_identifier decoded || is_file_path decoded)
             && negb (is_match extended_secret_regex decoded) && negb (is_match secret_assignment_regex decoded)
             && negb (is_sensitive_path decoded)
         | None => false
         end) [STANDARD; STANDARD_NO_PAD; URL_SAFE_NO_PAD].

(** [secret_assignment_spans]: the open quote first, then the assignments. *)
Definition is_quote (value : bytes) : bool := bool_decide (value = [DQUOTE]) || bool_decide (value = lit "'").

Fixpoint assignment_loop (input : bytes) (cursor : nat) (q : QuotedValue) (found : list (nat * nat))
  : result (list Span * QuotedValue) Stuck :=
  match found with
  | [] => Ok ([], q)
  | value :: found =>
      if (value.1 <? cursor)%nat then assignment_loop input cursor q found
      else if is_quote (matched input value) then
        (let? quote := index input value.1 in
         let? rest := str_slice input value.2 (length input) in
         let '(used, q) := consume (quoted_start quote q) rest in
         let span := mkSpan value.1 (value.2 + used) "secret_value" in
         if quoted_active q then Ok ([span], q)
         else let? more := assignment_loop input (value.2 + used) q found in Ok (span :: more.1, more.2))%res
      else
        let span := mkSpan value.1 value.2 "secret_value" in
        if quoted_active q then Ok ([span], q)
        else (let? more := assignment_loop input value.2 q found in Ok (span :: more.1, more.2))%res
  end.

Definition secret_assignment_spans (input : bytes) (q : QuotedValue) : result (list Span * QuotedValue) Stuck :=
  let '(cursor, q) := consume q input in
  let first := if (0 <? cursor)%nat then [mkSpan 0 cursor "secret_value"] else [] in
  if quoted_active q then Ok (first, q)
  else (let? more := assignment_loop input cursor q (secret_assignment_regex input) in Ok (first ++ more.1, more.2)%list)%res.

(** The passes of [redaction_spans]. *)
Definition add_known (input : bytes) (spans : list Span) (found : nat * nat) : list Span :=
  if existsb (overlaps found) spans then spans
  else (spans ++ [mkSpan found.1 found.2 (known_kind (matched input found))])%list.

Definition add_password (spans : list Span) (found : nat * nat) : list Span :=
  if existsb (same_bounds found) spans then spans
  else if existsb (fun span => of_kind "private_key" span && overlaps found span) spans then spans
  else (retain_beside found spans ++ [mkSpan found.1 found.2 "secret_value"])%list.

Definition add_assignment (spans : list Span) (span : Span) : list Span :=
  if existsb (fun other => negb (of_kind "private_key" other) && same_bounds (bounds span) other) spans then spans
  else if existsb (fun other => of_kind "private_key" other && (other.(sp_start) <? span.(sp_start))%nat
                                && (span.(sp_start) <? other.(sp_end))%nat) spans then spans
  else (retain_beside (bounds span) spans ++ [span])%list.

Fixpoint add_candidates (input : bytes) (policy : RedactionPolicy) (spans : list Span) (found : list (nat * nat))
  : result (list Span) Stuck :=
  match found with
  | [] => Ok spans
  | f :: found =>
      let value := matched input f in
      if existsb (overlaps f) spans || negb (looks_high_entropy value) then add_candidates input policy spans found
      else
        (let? public :=
           if bool_decide (policy = Lockdown) then Ok false
           else if is_non_secret_carrier value policy then Ok true
           else let? prefix := str_slice input 0 f.1 in Ok (is_public_run_id prefix value) in
         if public then add_candidates input policy spans found
         else add_candidates input policy (spans ++ [mkSpan f.1 f.2 "high_entropy"])%list found)%res
  end.

Definition add_material (input : bytes) (policy : RedactionPolicy) (spans : list Span) (found : nat * nat) : list Span :=
  let value := as_bytes (trim (as_str (matched input found))) in
  if existsb (overlaps found) spans || negb (looks_high_entropy value)
     || (negb (bool_decide (policy = Lockdown)) && is_non_secret_carrier value policy)
  then spans
  else (spans ++ [mkSpan found.1 found.2 "private_key_material"])%list.

Fixpoint split_secrets (input : bytes) (spans : list Span) : result (list Span) Stuck :=
  match spans with
  | [] => Ok []
  | span :: spans =>
      (let? own := if of_kind "secret_value" span then push_secret_lines input span.(sp_start) span.(sp_end) else Ok [span] in
       let? rest := split_secrets input spans in
       Ok (own ++ rest)%list)%res
  end.

Definition context_spans (input : bytes) (policy : RedactionPolicy) (q : QuotedValue) : result (list Span * QuotedValue) Stuck :=
  let spans := map (fun f => mkSpan f.1 f.2 "private_key") (private_key_regex input) in
  if bool_decide (policy = Lockdown) then Ok (foldl (add_known input) spans (known_secret_regex input), q)
  else
    let spans := foldl (add_known input) spans (extended_secret_regex input) in
    let spans := foldl add_password spans (url_userinfo_regex input) in
    (let? assigned := secret_assignment_spans input q in
     Ok (foldl add_assignment spans assigned.1, assigned.2))%res.

Definition redaction_spans (input : bytes) (policy : RedactionPolicy) (q : QuotedValue)
  : result (list Span * QuotedValue) Stuck :=
  (let? context := context_spans input policy q in
   let? spans := add_candidates input policy context.1
                   (if bool_decide (policy = Lockdown) then entropy_candidate_regex input else identifier_candidate_regex input) in
   let spans := foldl (add_material input policy) spans (private_key_material_regex input) in
   let? output := split_secrets input (sort_spans spans) in
   Ok (output, context.2))%res.

(** ** Replacement *)

Record RedactedText := mkRedacted { rt_text : bytes; rt_replacements : N }.

Definition marker (kind : string) : bytes := lit ("[REDACTED:" ++ kind ++ "]").

Fixpoint replace_spans (input : bytes) (cursor : nat) (spans : list Span) : result RedactedText Stuck :=
  match spans with
  | [] => (let? tail := str_slice input cursor (length input) in Ok (mkRedacted tail 0))%res
  | span :: spans =>
      if (span.(sp_start) <? cursor)%nat then replace_spans input cursor spans
      else
        (let? plain := str_slice input cursor span.(sp_start) in
         let? rest := replace_spans input span.(sp_end) spans in
         Ok (mkRedacted (plain ++ marker span.(sp_kind) ++ rest.(rt_text)) (rest.(rt_replacements) + 1)))%res
  end.

Definition redact_with_state (input : bytes) (policy : RedactionPolicy) (q : QuotedValue)
  : result (RedactedText * QuotedValue) Stuck :=
  (let? found := redaction_spans input policy q in
   let? text := if bool_decide (found.1 = []) then Ok (mkRedacted input 0) else replace_spans input 0 found.1 in
   Ok (text, found.2))%res.

Record RedactionState := mkRedactionState { private_key : bool; quoted : QuotedValue }.
Definition clean_state : RedactionState := mkRedactionState false no_quote.

Definition discard_oversized_line (state : RedactionState) : RedactionState :=
  let q := state.(quoted) in
  if quoted_active q
  then mkRedactionState false (mkQuoted q.(qv_quote) q.(qv_escaped) q.(qv_remaining) true)
  else mkRedactionState true q.

Definition redact_line (line : bytes) (state : RedactionState) (policy : RedactionPolicy)
  : result (RedactedText * RedactionState) Stuck :=
  let begins := bytes_contains (lit "-----BEGIN") line && bytes_contains (lit "PRIVATE KEY-----") line in
  let ends := bytes_contains (lit "-----END") line && bytes_contains (lit "PRIVATE KEY-----") line in
  let was_quoted := quoted_active state.(quoted) in
  (let? redacted := redact_with_state line policy state.(quoted) in
   if state.(private_key) || (begins && negb (was_quoted && quoted_active redacted.2))
   then Ok (mkRedacted (marker "private_key" ++ if bytes_ends_with [LF] line then [LF] else []) 1,
            mkRedactionState (negb ends) redacted.2)
   else Ok (redacted.1, mkRedactionState state.(private_key) redacted.2))%res.

Definition redact_line_with_state (line : bytes) (state : RedactionState) : result (RedactedText * RedactionState) Stuck :=
  redact_line line state StandardPolicy.

Fixpoint redact_all (policy : RedactionPolicy) (lines : list bytes) (state : RedactionState) : result RedactedText Stuck :=
  match lines with
  | [] => Ok (mkRedacted [] 0)
  | line :: lines =>
      (let? redacted := redact_line line state policy in
       let? rest := redact_all policy lines redacted.2 in
       Ok (mkRedacted (redacted.1.(rt_text) ++ rest.(rt_text)) (redacted.1.(rt_replacements) + rest.(rt_replacements))))%res
  end.
Definition redact_lines (input : bytes) (policy : RedactionPolicy) : result RedactedText Stuck :=
  redact_all policy (split_inclusive LF input) clean_state.

Definition redact_private_key_lines (input : bytes) : result RedactedText Stuck := redact_lines input StandardPolicy.
Definition redact_output_text (input : bytes) : result bytes Stuck :=
  (let? r := redact_private_key_lines input in Ok r.(rt_text))%res.
Definition redact_lockdown_text (input : bytes) : result bytes Stuck :=
  (let? r := redact_lines input Lockdown in Ok r.(rt_text))%res.

(** [ExplicitReadPaths::redact]; paths are compared by their components. *)
Definition explicit_redact (allowed path input : bytes) : result RedactedText Stuck :=
  redact_lines input (if bool_decide (path_components allowed = path_components path) then ExplicitPath else StandardPolicy).

(** ** Bounded replacement *)

Fixpoint floor_boundary (text : bytes) (stop : nat) : nat :=
  match stop with
  | 0 => 0
  | S stop' => if is_char_boundary text stop then stop else floor_boundary text stop'
  end%nat.
Definition utf8_prefix (text : bytes) (max_bytes : nat) : bytes := take (floor_boundary text (Nat.min max_bytes (length text))) text.

Definition push_bounded (output value : bytes) (max_bytes : nat) : bool * bytes :=
  let prefix := utf8_prefix value (max_bytes - length output) in
  (Nat.eqb (length prefix) (length value), output ++ prefix)%list.

Record BoundedRedactedText := { br_text : bytes; br_replacements : N; br_full_len : nat }.

(** Pieces are pushed while everything so far fitted. *)
Definition push_piece (max_bytes : nat) (acc : bool * bytes * nat) (piece : bytes) : bool * bytes * nat :=
  let '(complete, output, full) := acc in
  let '(complete, output) := if (complete : bool) then push_bounded output piece max_bytes else (false, output) in
  (complete, output, full + length piece)%nat.

Fixpoint bounded_spans (input : bytes) (max_bytes : nat) (cursor : nat) (spans : list Span) (acc : bool * bytes * nat) (replacements : N)
  : result BoundedRedactedText Stuck :=
  match spans with
  | [] =>
      (let? tail := str_slice input cursor (length input) in
       let '(_, output, full) := push_piece max_bytes acc tail in
       Ok {| br_text := output; br_replacements := replacements; br_full_len := full |})%res
  | span :: spans =>
      if (span.(sp_start) <? cursor)%nat then bounded_spans input max_bytes cursor spans acc replacements
      else
        (let? plain := str_slice input cursor span.(sp_start) in
         bounded_spans input max_bytes span.(sp_end) spans
           (foldl (push_piece max_bytes) acc [plain; lit "[REDACTED:"; lit span.(sp_kind); lit "]"]) (replacements + 1))%res
  end.

Definition redact_text_bounded (input : bytes) (max_bytes : nat) : result BoundedRedactedText Stuck :=
  (let? found := redaction_spans input StandardPolicy no_quote in
   if bool_decide (found.1 = [])
   then Ok {| br_text := utf8_prefix input max_bytes; br_replacements := 0; br_full_len := length input |}
   else bounded_spans input max_bytes 0 found.1 (true, [], 0%nat) 0)%res.
End Classify.
