(* ===== verification/RedactProps.v ===== *)
(** * What redaction hides (haider-tools redact.rs)

    The passes keep a set of disjoint spans at character boundaries, so no slice
    panics, and a later pass only replaces a span by one that contains it.  What
    the theorems take from the regular-expression engine is documented of it and
    of the patterns, per input: [engine_facts]. *)

From S2P Require Import Prelude RustStr ByteBuf Redact.

Local Open Scope nat_scope.

(** ** The engine *)

(** Bytes of the credential patterns. *)
Definition cred_byte (c : ascii) : bool := is_ascii_alphanumeric c || one_of "_-." c.
Definition no_newline (s : bytes) : Prop := Forall (fun c => c <> LF) s.

Definition at_boundaries (s : bytes) (f : nat * nat) : Prop :=
  f.1 <= f.2 /\ f.2 <= length s /\ is_char_boundary s f.1 = true /\ is_char_boundary s f.2 = true.

(** Matches come from left to right and do not overlap. *)
Fixpoint ordered (from : nat) (l : list (nat * nat)) : Prop :=
  match l with
  | [] => True
  | f :: l => from <= f.1 /\ ordered f.2 l
  end.
#[export] Instance ordered_dec from l : Decision (ordered from l).
Proof. revert from. induction l as [|f l IH]; intros from; cbn; apply _. Defined.

Definition found_well (s : bytes) (l : list (nat * nat)) : Prop := ordered 0 l /\ Forall (at_boundaries s) l.

(** A byte outside credentials stands before [i]. *)
Definition cut_before (s : bytes) (i : nat) : Prop :=
  match i with
  | 0 => False
  | S j => match s !! j with Some c => cred_byte c = false | None => False end
  end.
(** [i] is the end, or a byte outside credentials stands there. *)
Definition cut_at (s : bytes) (i : nat) : Prop := match s !! i with Some c => cred_byte c = false | None => True end.
#[export] Instance cut_before_dec s i : Decision (cut_before s i).
Proof. destruct i as [|j]; cbn; [apply _|]. destruct (s !! j); apply _. Defined.
#[export] Instance cut_at_dec s i : Decision (cut_at s i).
Proof. unfold cut_at. destruct (s !! i); apply _. Defined.
#[export] Instance at_boundaries_dec s f : Decision (at_boundaries s f).
Proof. unfold at_boundaries. apply _. Defined.
#[export] Instance no_newline_dec s : Decision (no_newline s).
Proof. unfold no_newline. apply _. Defined.

(** An assigned value is a quote, or ends where no credential continues. *)
Definition value_end (s : bytes) (f : nat * nat) : Prop :=
  if is_quote (matched s f) then length (matched s f) = 1 else cut_at s f.2.
#[export] Instance value_end_dec s f : Decision (value_end s f).
Proof. unfold value_end. destruct (is_quote _); apply _. Defined.

Definition begins_key (line : bytes) : bool :=
  bytes_contains (lit "-----BEGIN") line && bytes_contains (lit "PRIVATE KEY-----") line.

Section Engine.
Context {patterns : Patterns} {base64 : Base64Engine} {entropy : Entropy}.

(** On this text the engine behaves as documented: matches are ordered, at
    character boundaries and of the shape their pattern says. *)
Record engine_facts (s : bytes) : Prop := {
  ef_well : Forall (fun l => found_well s l)
    [private_key_regex s; known_secret_regex s; extended_secret_regex s; secret_assignment_regex s; url_userinfo_regex s;
     entropy_candidate_regex s; identifier_candidate_regex s; private_key_material_regex s];
  ef_credentials : Forall (fun f => f.1 < f.2 /\ Forall (fun c => cred_byte c = true) (matched s f))
    (known_secret_regex s ++ extended_secret_regex s);
  ef_assigned : Forall (fun f => f.1 < f.2 /\ cut_before s f.1 /\ value_end s f) (secret_assignment_regex s);
  ef_passwords : Forall (fun f => cut_before s f.1 /\ cut_at s f.2) (url_userinfo_regex s);
  ef_candidates : Forall (fun f => f.1 < f.2 /\ no_newline (matched s f))
    (entropy_candidate_regex s ++ identifier_candidate_regex s ++ private_key_material_regex s);
  ef_keys : Forall (fun f => f.1 < f.2) (private_key_regex s) /\ (begins_key s = false -> private_key_regex s = [])
}.
End Engine.

(** ** Slices *)

Lemma str_slice_ok s a b : a <= b -> b <= length s -> is_char_boundary s a = true -> is_char_boundary s b = true ->
  str_slice s a b = Ok (take (b - a) (drop a s)).
Proof. intros H1 H2 H3 H4. unfold str_slice. by rewrite !bool_decide_eq_true_2, H3, H4. Qed.

Lemma boundary_0 s : is_char_boundary s 0 = true.
Proof. done. Qed.
Lemma boundary_len s : is_char_boundary s (length s) = true.
Proof. unfold is_char_boundary. rewrite (bool_decide_eq_true_2 (length s = length s)) by done. by rewrite orb_true_r. Qed.

(** A byte below 128 is no continuation, so both its sides are boundaries of a
    string whose characters are whole. *)
Definition ascii_byte (c : ascii) : bool := (byte_val c <? 128)%N.
Lemma ascii_not_continuation c : ascii_byte c = true -> is_continuation c = false.
Proof. unfold ascii_byte, is_continuation. intros H%N.ltb_lt. apply andb_false_iff. left. apply N.leb_gt. lia. Qed.

Definition head_whole (s : bytes) : Prop := match s with c :: _ => is_continuation c = false | [] => True end.

Lemma in_range_whole lo hi c : in_range lo hi c = true -> (hi < 128 \/ 191 < lo)%N -> is_continuation c = false.
Proof.
  unfold in_range, is_continuation. intros [H1%N.leb_le H2%N.leb_le]%andb_true_iff H. apply andb_false_iff.
  rewrite !N.leb_gt. lia.
Qed.
Lemma valid_head s : utf8_valid s = true -> head_whole s.
Proof.
  destruct s as [|c s]; [done|]. cbn [utf8_valid head_whole].
  destruct (in_range 0 127 c) eqn:E1; [intros _; apply (in_range_whole _ _ _ E1); lia|].
  destruct (in_range 194 223 c) eqn:E2; [intros _; apply (in_range_whole _ _ _ E2); lia|].
  destruct (in_range 224 239 c) eqn:E3; [intros _; apply (in_range_whole _ _ _ E3); lia|].
  destruct (in_range 240 244 c) eqn:E4; [intros _; apply (in_range_whole _ _ _ E4); lia|done].
Qed.

Lemma in_range_high lo hi c : in_range lo hi c = true -> (128 <= lo)%N -> ascii_byte c = false.
Proof. unfold in_range, ascii_byte. intros [H1%N.leb_le _]%andb_true_iff H. apply N.ltb_ge. lia. Qed.

(** Behind an ASCII byte a new character starts. *)
Lemma behind_ascii s : utf8_valid s = true -> forall i c, s !! i = Some c -> ascii_byte c = true -> head_whole (drop (S i) s).
Proof.
  assert (Hi : forall n s, length s <= n -> utf8_valid s = true ->
    forall i c, s !! i = Some c -> ascii_byte c = true -> head_whole (drop (S i) s)).
  2: { intros Hv. by apply (Hi (length s)). }
  clear s. induction n as [|n IH]; intros s Hl Hv i c Hc Ha; [destruct s; cbn in *; [done|lia]|].
  destruct s as [|c0 b0]; [done|]. cbn in Hl, Hv.
  destruct (in_range 0 127 c0) eqn:E1.
  { destruct i as [|i]; cbn in *; [by rewrite drop_0; apply valid_head|]. apply (IH b0 ltac:(lia) Hv i c Hc Ha). }
  assert (H0 : ascii_byte c0 = false).
  { unfold in_range, ascii_byte in *. apply N.ltb_ge. apply andb_false_iff in E1 as [E%N.leb_gt|E%N.leb_gt]; lia. }
  destruct i as [|i]; [cbn in Hc; congruence|]. cbn in Hc. change (head_whole (drop (S i) b0)).
  destruct (in_range 194 223 c0) eqn:E2.
  { destruct b0 as [|c1 b1]; [done|]. apply andb_true_iff in Hv as [R1 Hv]. destruct i as [|i].
    - cbn in Hc. simplify_eq. by rewrite (in_range_high _ _ _ R1) in Ha by lia.
    - cbn in *. apply (IH b1 ltac:(lia) Hv i c Hc Ha). }
  destruct (in_range 224 239 c0) eqn:E3.
  { destruct b0 as [|c1 [|c2 b2]]; [done..|]. apply andb_true_iff in Hv as [[R1 R2]%andb_true_iff Hv].
    apply in_range_high in R1; [|by case_match]. apply in_range_high in R2; [|lia].
    destruct i as [|[|i]]; cbn in *; [congruence..|]. apply (IH b2 ltac:(lia) Hv i c Hc Ha). }
  destruct (in_range 240 244 c0) eqn:E4; [|done].
  destruct b0 as [|c1 [|c2 [|c3 b3]]]; [done..|]. apply andb_true_iff in Hv as [[[R1 R2]%andb_true_iff R3]%andb_true_iff Hv].
  apply in_range_high in R1; [|by case_match]. apply in_range_high in R2; [|lia]. apply in_range_high in R3; [|lia].
  destruct i as [|[|[|i]]]; cbn in *; [congruence..|]. apply (IH b3 ltac:(lia) Hv i c Hc Ha).
Qed.

Lemma head_whole_boundary s i : head_whole (drop i s) -> i <= length s -> is_char_boundary s i = true.
Proof.
  intros H Hi. unfold is_char_boundary. destruct (s !! i) as [c|] eqn:E.
  - rewrite (drop_S _ _ _ E) in H. cbn in H. rewrite H. by rewrite orb_true_r.
  - apply lookup_ge_None in E. rewrite (bool_decide_eq_true_2 (i = length s)) by lia. by rewrite orb_true_r.
Qed.
Lemma boundary_before_ascii s i c : s !! i = Some c -> ascii_byte c = true -> is_char_boundary s i = true.
Proof. intros E H. unfold is_char_boundary. rewrite E, (ascii_not_continuation _ H). by rewrite orb_true_r. Qed.
Lemma boundary_behind_ascii s i c : utf8_valid s = true -> s !! i = Some c -> ascii_byte c = true -> is_char_boundary s (S i) = true.
Proof.
  intros Hv E H. apply head_whole_boundary; [by eapply behind_ascii|]. apply lookup_lt_Some in E. lia.
Qed.

(** ** Disjoint spans *)

Definition inside (i : nat) (f : nat * nat) : Prop := f.1 <= i < f.2.
Definition beside (f g : nat * nat) : Prop := f.2 <= g.1 \/ g.2 <= f.1.
Definition within (f g : nat * nat) : Prop := g.1 <= f.1 /\ f.2 <= g.2.
#[export] Instance beside_dec f g : Decision (beside f g).
Proof. unfold beside. apply _. Defined.
#[export] Instance within_dec f g : Decision (within f g).
Proof. unfold within. apply _. Defined.

Fixpoint apart (l : list Span) : Prop :=
  match l with
  | [] => True
  | x :: l => Forall (fun y => beside (bounds x) (bounds y)) l /\ apart l
  end.

Record spans_ok (s : bytes) (l : list Span) : Prop := {
  so_bounds : Forall (fun x => at_boundaries s (bounds x)) l;
  so_apart : apart l
}.

Lemma beside_sym f g : beside f g -> beside g f.
Proof. unfold beside. lia. Qed.

Lemma apart_snoc l x : apart l -> Forall (fun y => beside (bounds y) (bounds x)) l -> apart (l ++ [x]).
Proof.
  induction l as [|y l IH]; cbn; [done|]. intros [H1 H2] [H3 H4]%Forall_cons. split; [|by apply IH].
  apply Forall_app. split; [done|]. by constructor.
Qed.
Lemma apart_filter (p : Span -> bool) l : apart l -> apart (List.filter p l).
Proof.
  induction l as [|y l IH]; cbn; [done|]. intros [H1 H2]. case_match; cbn; [|by apply IH]. split; [|by apply IH].
  apply Forall_forall. intros z [Hz _]%filterb_elem. rewrite Forall_forall in H1. by apply H1.
Qed.

Lemma spans_snoc s l x : spans_ok s l -> at_boundaries s (bounds x) -> Forall (fun y => beside (bounds y) (bounds x)) l -> spans_ok s (l ++ [x]).
Proof. intros [H1 H2] Hx Hb. split; [apply Forall_app; split; [done|by constructor]|by apply apart_snoc]. Qed.

Lemma not_overlapping f l : existsb (overlaps f) l = false -> Forall (fun y => beside (bounds y) f) l.
Proof.
  rewrite existsb_false. intros H. apply Forall_forall. intros y Hy. specialize (H y Hy). unfold overlaps in H.
  apply andb_false_iff in H as [H%Nat.ltb_ge|H%Nat.ltb_ge]; unfold beside; cbn; lia.
Qed.

Lemma elem_retain f l y : y ∈ retain_beside f l <-> y ∈ l /\ beside (bounds y) f.
Proof.
  unfold retain_beside. rewrite filterb_elem, orb_true_iff, !Nat.leb_le. done.
Qed.
Lemma spans_retain s f l : spans_ok s l -> spans_ok s (retain_beside f l).
Proof.
  intros [H1 H2]. split; [|by apply apart_filter]. rewrite Forall_forall in *. intros y [Hy _]%elem_retain. by apply H1.
Qed.
Lemma spans_replace s l x : spans_ok s l -> at_boundaries s (bounds x) -> spans_ok s (retain_beside (bounds x) l ++ [x]).
Proof. intros H Hx. apply spans_snoc; [by apply spans_retain|done|]. apply Forall_forall. by intros y [_ Hy]%elem_retain. Qed.

(** ** Quoted values *)

Definition is_quote_byte (c : ascii) : Prop := c = DQUOTE \/ c = "'"%char.
Definition quote_ok (q : QuotedValue) : Prop := match q.(qv_quote) with Some c => is_quote_byte c | None => True end.

Lemma quote_byte_facts c : is_quote_byte c -> ascii_byte c = true /\ cred_byte c = false /\ c <> LF.
Proof. intros [-> | ->]; done. Qed.

Lemma find_closing_spec quote escaped remaining s n :
  find_closing quote escaped remaining s = inl n -> exists m, n = S m /\ s !! m = Some quote.
Proof.
  revert escaped remaining n. induction s as [|c s IH]; intros escaped remaining n; cbn [find_closing]; [done|].
  destruct (remaining =? 0)%N; [done|].
  assert (Hstep : forall e, match find_closing quote e (remaining - 1) s with inl n => inl (S n) | inr e => inr e end = inl n ->
    exists m, n = S m /\ (c :: s) !! m = Some quote).
  { intros e. destruct (find_closing quote e _ s) as [k|] eqn:E; [|done]. intros [= <-]. apply IH in E as (m & -> & Hm). by exists (S m). }
  destruct escaped; [apply Hstep|]. destruct (Ascii.eqb c "\"); [apply Hstep|].
  destruct (Ascii.eqb_spec c quote) as [->|]; [|apply Hstep]. intros [= <-]. by exists 0.
Qed.

(** A closing quote ends what is consumed, or everything is. *)
Lemma consume_spec q s n q' : quote_ok q -> consume q s = (n, q') ->
  n <= length s /\ quote_ok q' /\ (quoted_active q' = true -> n = length s) /\
  (n = 0 /\ quoted_active q = false \/ n = length s \/ exists m c, n = S m /\ s !! m = Some c /\ is_quote_byte c).
Proof.
  intros Hq. unfold consume. destruct (qv_exhausted q) eqn:Ex.
  { intros [= <- <-]. split; [done|]. split; [done|]. split; [done|]. by right; left. }
  destruct (qv_quote q) as [quote|] eqn:Eq.
  - destruct (find_closing _ _ _ _) as [k|e] eqn:E; intros [= <- <-].
    + destruct (find_closing_spec _ _ _ _ _ E) as (m & -> & Hm). pose proof (lookup_lt_Some _ _ _ Hm). split; [lia|]. split; [done|].
      split; [done|]. right. right. exists m, quote. unfold quote_ok in Hq. by rewrite Eq in Hq.
    + split; [done|]. split; [unfold quote_ok in *; cbn; by rewrite Eq in Hq|]. split; [done|]. by right; left.
  - intros [= <- <-]. split; [lia|]. split; [done|]. unfold quoted_active. rewrite Eq, Ex. cbn. split; [done|]. by left.
Qed.

(** The ends of a span at which no credential continues. *)
Definition sealed (s : bytes) (f : nat * nat) : Prop :=
  (f.1 = 0 \/ cut_before s f.1) /\ (length s <= f.2 \/ cut_at s f.2 \/ cut_before s f.2).

Definition credential (s : bytes) (f : nat * nat) : Prop :=
  f.1 < f.2 /\ f.2 <= length s /\ forall i c, inside i f -> s !! i = Some c -> cred_byte c = true.

Lemma credential_swallowed s f x : credential s f -> sealed s x -> ~ beside f x -> within f x.
Proof.
  intros (H1 & H2 & Hc) [Hl Hr] Hb. unfold beside, within, inside in *.
  assert (Hat : forall i, f.1 <= i < f.2 -> exists c, s !! i = Some c /\ cred_byte c = true).
  { intros i Hi. destruct (lookup_lt_is_Some_2 s i) as [c E]; [lia|]. eauto. }
  assert (Hbef : forall i, cut_before s i -> ~ (f.1 < i <= f.2)).
  { intros [|j] Hj Hi; [done|]. cbn in Hj. destruct (Hat j ltac:(lia)) as (c & E & Hcr). rewrite E in Hj. congruence. }
  split.
  - destruct Hl as [->|Hl]; [lia|]. apply Hbef in Hl. lia.
  - destruct Hr as [Hr|[Hr|Hr]]; [lia| |].
    + destruct (decide (x.2 < f.2)); [|lia]. destruct (Hat x.2 ltac:(lia)) as (c & E & Hcr). unfold cut_at in Hr. rewrite E in Hr. congruence.
    + apply Hbef in Hr. lia.
Qed.

(** ** Assignments *)

Definition assigned_well (s : bytes) (f : nat * nat) : Prop :=
  at_boundaries s f /\ f.1 < f.2 /\ cut_before s f.1 /\ value_end s f.

Definition secret_span (s : bytes) (x : Span) : Prop :=
  at_boundaries s (bounds x) /\ sealed s (bounds x) /\ x.(sp_kind) = "secret_value"%string.

Lemma matched_length s f : f.2 <= length s -> length (matched s f) = f.2 - f.1.
Proof. intros H. unfold matched. rewrite length_take, length_drop. lia. Qed.
Lemma matched_lookup s f i : f.1 + i < f.2 -> matched s f !! i = s !! (f.1 + i).
Proof. intros H. unfold matched. by rewrite lookup_take_lt, lookup_drop by lia. Qed.

Lemma is_quote_byte_of s f : at_boundaries s f -> is_quote (matched s f) = true -> length (matched s f) = 1 ->
  f.2 = S f.1 /\ exists c, s !! f.1 = Some c /\ is_quote_byte c.
Proof.
  intros (H1 & H2 & _) Hq Hl. rewrite matched_length in Hl by done. split; [lia|].
  pose proof (matched_lookup s f 0 ltac:(lia)) as E. rewrite Nat.add_0_r in E. unfold is_quote in Hq.
  apply orb_true_iff in Hq as [Hq%bool_decide_eq_true|Hq%bool_decide_eq_true]; rewrite Hq in E; cbn in E;
    (eexists; split; [symmetry; exact E|]); [by left|by right].
Qed.

(** ** Ordered matches *)

Lemma ordered_from l : forall s from, ordered from l -> Forall (at_boundaries s) l -> Forall (fun g => from <= g.1) l.
Proof.
  induction l as [|f l IH]; intros s from; cbn; [done|]. intros [H1 H2] [Hb H3]%Forall_cons. constructor; [done|].
  eapply Forall_impl; [by eapply IH|]. cbn. intros g Hg. destruct Hb. lia.
Qed.
Lemma ordered_beside s l : forall from, ordered from l -> Forall (at_boundaries s) l ->
  forall f g, f ∈ l -> g ∈ l -> beside f g \/ f = g.
Proof.
  induction l as [|x l IH]; intros from; cbn; [set_solver|]. intros [H1 H2] [Hb H3]%Forall_cons f g.
  pose proof (ordered_from _ _ _ H2 H3) as Hlt. rewrite Forall_forall in Hlt.
  intros [->|Hf]%elem_of_cons [->|Hg]%elem_of_cons; [by right|left; left; by apply Hlt|left; right; by apply Hlt|by eapply IH].
Qed.
Lemma ordered_apart s (mk : nat * nat -> Span) l : (forall f, bounds (mk f) = f) -> forall from, ordered from l -> Forall (at_boundaries s) l ->
  apart (map mk l).
Proof.
  intros Hmk. induction l as [|f l IH]; intros from; cbn; [done|]. intros [H1 H2] [Hb H3]%Forall_cons. split; [|by eapply IH].
  pose proof (ordered_from _ _ _ H2 H3) as Hlt. rewrite Forall_forall in Hlt. apply Forall_forall. intros y (g & -> & Hg)%list_elem_of_fmap.
  rewrite !Hmk. left. by apply Hlt.
Qed.
Lemma ordered_spans s (mk : nat * nat -> Span) l from : (forall f, bounds (mk f) = f) -> ordered from l -> Forall (at_boundaries s) l ->
  spans_ok s (map mk l).
Proof.
  intros Hmk Ho Hb. split; [|by eapply ordered_apart]. rewrite Forall_forall in Hb. apply Forall_forall. intros y (g & -> & Hg)%list_elem_of_fmap.
  rewrite Hmk. by apply Hb.
Qed.

Section Masking.
Context {patterns : Patterns} {base64 : Base64Engine} {entropy : Entropy}.
Variable s : bytes.
Hypothesis Hvalid : utf8_valid s = true.

(** Where a consumed value ends. *)
Lemma consumed_end at_ q n q' : at_ <= length s -> is_char_boundary s at_ = true -> quote_ok q -> consume q (drop at_ s) = (n, q') ->
  at_ + n <= length s /\ is_char_boundary s (at_ + n) = true /\ quote_ok q' /\
  (n <> 0 \/ quoted_active q = true -> length s <= at_ + n \/ cut_before s (at_ + n)).
Proof.
  intros Ha Hb Hq E. destruct (consume_spec _ _ _ _ Hq E) as (H1 & H2 & _ & H4). rewrite length_drop in *.
  split; [lia|]. destruct H4 as [[-> Hact]|[->|(m & c & -> & Hm & Hc)]].
  - rewrite Nat.add_0_r. split; [done|]. split; [done|]. intros [?|?]; [done|congruence].
  - replace (at_ + (length s - at_)) with (length s) by lia. split; [apply boundary_len|]. split; [done|]. intros _. by left.
  - destruct (quote_byte_facts _ Hc) as (Hca & Hcc & _). rewrite lookup_drop in Hm.
    replace (at_ + S m) with (S (at_ + m)) by lia. split; [by eapply boundary_behind_ascii|]. split; [done|].
    intros _. right. cbn. by rewrite Hm.
Qed.

Lemma assignment_loop_spec found : Forall (assigned_well s) found -> forall from cursor q,
  ordered from found -> quote_ok q -> quoted_active q = false ->
  exists A q', assignment_loop s cursor q found = Ok (A, q') /\ quote_ok q' /\ Forall (secret_span s) A /\ ordered cursor (map bounds A).
Proof.
  induction 1 as [|f found (Hb & Hne & Hcut & Hend) _ IH]; intros from cursor q Ho Hq Hact; cbn [assignment_loop].
  { by exists [], q. }
  destruct Ho as [Hfrom Hord]. unfold value_end in Hend.
  destruct (Nat.ltb_spec f.1 cursor) as [Hlt|Hge]; [by eapply IH|].
  pose proof Hb as (H1 & H2 & Hb1 & Hb2). destruct (is_quote (matched s f)) eqn:Eq.
  - destruct (is_quote_byte_of s f Hb Eq Hend) as (E2 & c & Ec & Hc). unfold index. rewrite Ec. cbn [ok_or result_bind].
    rewrite str_slice_ok by (done || apply boundary_len). cbn [result_bind].
    rewrite (take_ge (drop f.2 s)) by (rewrite length_drop; lia).
    destruct (consume (quoted_start c q) (drop f.2 s)) as [n q'] eqn:En.
    destruct (consumed_end f.2 (quoted_start c q) n q' H2 Hb2 Hc En) as (E1 & E3 & E4 & E5).
    assert (Hspan : secret_span s (mkSpan f.1 (f.2 + n) "secret_value")).
    { split; [split; cbn; [lia|done]|]. split; [|done]. split; cbn; [by right|]. destruct E5; [by right|by left|by right; right]. }
    destruct (quoted_active q') eqn:Ea.
    + eexists _, _. split; [done|]. split; [done|]. split; [by constructor|]. by split.
    + destruct (IH f.2 (f.2 + n) q' Hord E4 Ea) as (A & q'' & -> & Hq'' & HA & HO). eexists _, _. cbn.
      split; [done|]. split; [done|]. split; [by constructor|]. by split.
  - rewrite Hact. destruct (IH f.2 f.2 q Hord Hq Hact) as (A & q' & -> & Hq' & HA & HO). eexists _, _. cbn.
    split; [done|]. split; [done|]. split; [|by split]. constructor; [|done].
    split; [done|]. split; [|done]. split; cbn; [by right|by right; left].
Qed.

Lemma assignments_spec q : engine_facts s -> quote_ok q ->
  exists A q', secret_assignment_spans s q = Ok (A, q') /\ quote_ok q' /\ Forall (secret_span s) A /\ ordered 0 (map bounds A).
Proof.
  intros Hf Hq. unfold secret_assignment_spans. destruct (consume q s) as [n q1] eqn:En.
  destruct (consumed_end 0 q n q1 (Nat.le_0_l _) (boundary_0 s) Hq) as (H1 & H2 & H3 & H4); [by rewrite drop_0|]. cbn [plus] in *.
  set (first := if 0 <? n then [mkSpan 0 n "secret_value"] else []).
  assert (Hfirst : Forall (secret_span s) first /\ ordered 0 (map bounds first) /\ Forall (fun x => (bounds x).2 <= n) first).
  { unfold first. destruct (Nat.ltb_spec 0 n); [|done]. split; [|cbn; split; [lia|by constructor]]. constructor; [|done].
    split; [split; cbn; [lia|done]|]. split; [|done]. split; cbn; [by left|]. destruct H4; [by left; lia|by left|by right; right]. }
  destruct Hfirst as (F1 & F2 & F3). destruct (quoted_active q1) eqn:Ea; [eexists _, _; split; [done|]; done|].
  pose proof (ef_well s Hf) as Hw. rewrite !Forall_cons in Hw. destruct Hw as (_ & _ & _ & [Hord Hbd] & _).
  assert (Hwell : Forall (assigned_well s) (secret_assignment_regex s)).
  { rewrite Forall_forall in *. intros f Hin. split; [by apply Hbd|]. pose proof (ef_assigned s Hf) as Ha. rewrite Forall_forall in Ha. by apply Ha. }
  destruct (assignment_loop_spec _ Hwell 0 n q1 Hord H3 Ea) as (A & q' & -> & Hq' & HA & HO). cbn. eexists _, _. split; [done|].
  split; [done|]. split; [by apply Forall_app|]. rewrite map_app. unfold first in *. destruct (Nat.ltb_spec 0 n); cbn; [split; [lia|done]|].
  destruct n; [done|lia].
Qed.

(** ** The passes *)

Lemma add_known_ok l f : spans_ok s l -> at_boundaries s f -> spans_ok s (add_known s l f).
Proof. intros Hl Hf. unfold add_known. destruct (existsb _ _) eqn:E; [done|]. apply spans_snoc; [done|by destruct f|]. destruct f. by apply not_overlapping in E. Qed.
Lemma add_password_ok l f : spans_ok s l -> at_boundaries s f -> spans_ok s (add_password l f).
Proof. intros Hl Hf. unfold add_password. repeat (case_match; [done|]). destruct f. by apply (spans_replace s l (mkSpan _ _ _)). Qed.
Lemma add_assignment_ok l x : spans_ok s l -> at_boundaries s (bounds x) -> spans_ok s (add_assignment l x).
Proof. intros Hl Hf. unfold add_assignment. repeat (case_match; [done|]). by apply spans_replace. Qed.
Lemma add_material_ok policy l f : spans_ok s l -> at_boundaries s f -> spans_ok s (add_material s policy l f).
Proof.
  intros Hl Hf. unfold add_material. destruct (existsb (overlaps f) l) eqn:E; [done|]. cbn [orb]. case_match; [done|].
  destruct f. apply spans_snoc; [done|done|]. by apply not_overlapping in E.
Qed.
Lemma foldl_ok {B} (step : list Span -> B -> list Span) (P : B -> Prop) bs l :
  (forall l b, spans_ok s l -> P b -> spans_ok s (step l b)) -> spans_ok s l -> Forall P bs -> spans_ok s (foldl step l bs).
Proof. intros Hs Hl Hb. revert l Hl. induction Hb as [|b bs Hb _ IH]; intros l Hl; cbn; [done|]. by apply IH, Hs. Qed.

Lemma context_total policy q : engine_facts s -> quote_ok q ->
  exists l q', context_spans s policy q = Ok (l, q') /\ spans_ok s l /\ quote_ok q'.
Proof.
  intros Hf Hq. pose proof (ef_well s Hf) as Hw. rewrite !Forall_cons in Hw.
  destruct Hw as ([O1 B1] & [O2 B2] & [O3 B3] & _ & [O5 B5] & _).
  assert (H0 : spans_ok s (map (fun f => mkSpan f.1 f.2 "private_key") (private_key_regex s))).
  { eapply ordered_spans; [|done|done]. by intros []. }
  unfold context_spans. case_bool_decide as Hp.
  - eexists _, _. split; [done|]. split; [|done]. by eapply foldl_ok; [apply add_known_ok|..].
  - destruct (assignments_spec q Hf Hq) as (A & q' & -> & Hq' & HA & _). eexists _, _. split; [done|]. split; [|done].
    eapply (foldl_ok _ (secret_span s)); [intros l b Hl [Hb _]; by apply add_assignment_ok| |done].
    eapply foldl_ok; [apply add_password_ok| |done]. by eapply foldl_ok; [apply add_known_ok|..].
Qed.

Lemma candidates_total policy found : Forall (at_boundaries s) found -> forall l, spans_ok s l ->
  exists l', add_candidates s policy l found = Ok (l ++ l') /\ spans_ok s (l ++ l').
Proof.
  induction 1 as [|f found Hf _ IH]; intros l Hl; cbn [add_candidates]; [exists []; by rewrite app_nil_r|].
  destruct (existsb (overlaps f) l) eqn:E; [by apply IH|]. cbn [orb]. destruct (negb _); [by apply IH|].
  assert (Hadd : exists l', add_candidates s policy (l ++ [mkSpan f.1 f.2 "high_entropy"]) found = Ok (l ++ l') /\ spans_ok s (l ++ l')).
  { destruct (IH (l ++ [mkSpan f.1 f.2 "high_entropy"])) as (l' & -> & Hl').
    - destruct f. apply spans_snoc; [done|done|]. by apply not_overlapping in E.
    - rewrite <- app_assoc in *. eauto. }
  case_bool_decide; cbn [result_bind]; [done|]. destruct (is_non_secret_carrier _ _); cbn [result_bind]; [by apply IH|].
  destruct Hf as (H1 & H2 & H3 & _). rewrite str_slice_ok by (done || lia). cbn [result_bind]. case_match; [by apply IH|done].
Qed.

(** ** What stays covered *)

(** A span whose bounds are among [C] contains [f]. *)
Definition holds (C : list (nat * nat)) (f : nat * nat) (l : list Span) : Prop :=
  exists x, x ∈ l /\ bounds x ∈ C /\ within f (bounds x).
(** Nothing of [C] overlaps [f] without lying in it. *)
Definition respects (C : list (nat * nat)) (f : nat * nat) : Prop := forall c, c ∈ C -> beside c f \/ within c f.

Lemma within_trans f g h : within f g -> within g h -> within f h.
Proof. unfold within. lia. Qed.

Lemma replace_holds C f l x : respects C (bounds x) -> bounds x ∈ C -> holds C f l -> holds C f (retain_beside (bounds x) l ++ [x]).
Proof.
  intros Hr Hx (y & Hy & Hc & Hw). destruct (decide (beside (bounds y) (bounds x))) as [Hb|Hb].
  - exists y. split; [|done]. apply elem_of_app. left. by apply elem_retain.
  - exists x. split; [set_solver|]. split; [done|]. destruct (Hr _ Hc) as [|Hw']; [done|]. by eapply within_trans.
Qed.

Definition no_keys (l : list Span) : Prop := Forall (fun x => x.(sp_kind) <> "private_key"%string) l.
Lemma no_keys_none (p : Span -> bool) l : no_keys l -> (forall x, p x = true -> of_kind "private_key" x = true) -> existsb p l = false.
Proof.
  intros H Hp. apply existsb_false. intros x Hx. unfold no_keys in H. rewrite Forall_forall in H. destruct (p x) eqn:E; [|done].
  apply Hp in E. unfold of_kind in E. apply String.eqb_eq in E. by destruct (H x Hx).
Qed.
Lemma no_keys_replace l x : no_keys l -> x.(sp_kind) <> "private_key"%string -> no_keys (retain_beside (bounds x) l ++ [x]).
Proof.
  intros Hn Hx. apply Forall_app. split; [|by constructor]. apply Forall_forall. intros y [Hy _]%elem_retain.
  unfold no_keys in Hn. rewrite Forall_forall in Hn. by apply Hn.
Qed.

Lemma add_password_holds C f l u : no_keys l -> respects C u -> u ∈ C -> no_keys (add_password l u) /\
  holds C u (add_password l u) /\ (holds C f l -> holds C f (add_password l u)).
Proof.
  intros Hn Hr Hu. unfold add_password. destruct (existsb (same_bounds u) l) eqn:E.
  { split; [done|]. split; [|done]. apply existsb_exists in E as (x & Hx%list_elem_of_In & Ex). unfold same_bounds in Ex.
    apply bool_decide_eq_true in Ex. exists x. rewrite Ex. split; [done|]. split; [done|]. unfold within. lia. }
  rewrite no_keys_none; [|done|by intros y [? ?]%andb_true_iff]. destruct u as [a b]. split; [by apply (no_keys_replace l (mkSpan a b "secret_value"))|]. split.
  - exists (mkSpan a b "secret_value"). split; [set_solver|]. split; [done|]. unfold within. cbn. lia.
  - by apply (replace_holds C f l (mkSpan a b "secret_value")).
Qed.

Lemma add_assignment_holds C f l x : no_keys l -> x.(sp_kind) = "secret_value"%string -> respects C (bounds x) -> bounds x ∈ C ->
  no_keys (add_assignment l x) /\ holds C (bounds x) (add_assignment l x) /\ (holds C f l -> holds C f (add_assignment l x)).
Proof.
  intros Hn Hk Hr Hu. unfold add_assignment.
  destruct (existsb (fun other => negb (of_kind "private_key" other) && same_bounds (bounds x) other) l) eqn:E.
  { split; [done|]. split; [|done]. apply existsb_exists in E as (y & Hy%list_elem_of_In & [_ Ey]%andb_true_iff). unfold same_bounds in Ey.
    apply bool_decide_eq_true in Ey. exists y. rewrite Ey. split; [done|]. split; [done|]. unfold within. lia. }
  rewrite no_keys_none; [|done|by intros y [[??]%andb_true_iff ?]%andb_true_iff]. split; [apply no_keys_replace; [done|by rewrite Hk]|]. split; [|by apply replace_holds].
  exists x. split; [set_solver|]. split; [done|]. unfold within. lia.
Qed.

Lemma fold_holds {B} (step : list Span -> B -> list Span) (key : B -> nat * nat) C bs :
  (forall l b f, b ∈ bs -> no_keys l -> no_keys (step l b) /\ holds C (key b) (step l b) /\ (holds C f l -> holds C f (step l b))) ->
  forall l, no_keys l -> no_keys (foldl step l bs) /\ forall f, holds C f l \/ f ∈ map key bs -> holds C f (foldl step l bs).
Proof.
  induction bs as [|b bs IH]; intros Hs l Hl; cbn; [split; [done|]; intros f [?|?]; [done|set_solver]|].
  destruct (Hs l b (0, 0) ltac:(by left) Hl) as (Hn & Hb & _).
  destruct (IH ltac:(intros l' b' f' Hin; apply Hs; by right) _ Hn) as [H1 H2]. split; [done|]. intros f Hf. apply H2.
  destruct Hf as [Hf|[->|Hf]%elem_of_cons]; [left; by apply (Hs l b f ltac:(by left) Hl)|by left|by right].
Qed.

(** Credentials do not overlap each other, so all of them are taken. *)
Lemma add_known_all l : forall from acc, ordered from l -> Forall (at_boundaries s) l -> Forall (fun x => (bounds x).2 <= from) acc ->
  foldl (add_known s) acc l = acc ++ map (fun f => mkSpan f.1 f.2 (known_kind (matched s f))) l.
Proof.
  induction l as [|f l IH]; intros from acc; cbn; [by rewrite app_nil_r|]. intros [H1 H2] [Hb H3]%Forall_cons Hacc.
  assert (E : existsb (overlaps f) acc = false).
  { apply existsb_false. intros x Hx. rewrite Forall_forall in Hacc. specialize (Hacc x Hx). unfold overlaps. apply andb_false_iff. left.
    apply Nat.ltb_ge. cbn in Hacc. lia. }
  unfold add_known at 2. rewrite E, (IH f.2); [by rewrite <- app_assoc|done|done|]. destruct Hb as [Hb _]. apply Forall_app. split; [|by constructor].
  eapply Forall_impl; [exact Hacc|]. cbn. lia.
Qed.

Lemma known_kind_no_key v : known_kind v <> "private_key"%string.
Proof. unfold known_kind. repeat case_match; done. Qed.

Lemma credentials_of f : engine_facts s -> f ∈ extended_secret_regex s -> credential s f.
Proof.
  intros Hf Hin. pose proof (ef_well s Hf) as Hw. rewrite !Forall_cons in Hw. destruct Hw as (_ & _ & [_ B] & _).
  pose proof (ef_credentials s Hf) as Hc. rewrite Forall_forall in B, Hc. destruct (B f Hin) as (H1 & H2 & _).
  destruct (Hc f ltac:(set_solver)) as [Hlt Hall]. split; [done|]. split; [done|]. intros i c Hi E. rewrite Forall_forall in Hall.
  apply Hall. apply list_elem_of_lookup. exists (i - f.1). unfold inside in Hi. rewrite matched_lookup by lia.
  by replace (f.1 + (i - f.1)) with i by lia.
Qed.

(** Every credential, URL password and assigned secret is in some span, when no
    assigned secret cuts a password. *)
Lemma context_covers policy q A q' : engine_facts s -> quote_ok q -> policy <> Lockdown -> private_key_regex s = [] ->
  secret_assignment_spans s q = Ok (A, q') -> (forall u a, u ∈ url_userinfo_regex s -> a ∈ A -> beside u (bounds a) \/ within u (bounds a)) ->
  exists l, context_spans s policy q = Ok (l, q') /\
    forall f, f ∈ extended_secret_regex s ++ url_userinfo_regex s ++ map bounds A -> exists x, x ∈ l /\ within f (bounds x).
Proof.
  intros Hf Hq Hp Hk EA Hu. destruct (assignments_spec q Hf Hq) as (A0 & q0 & E0 & _ & HA & HO). rewrite EA in E0. injection E0 as <- <-.
  pose proof (ef_well s Hf) as Hw. rewrite !Forall_cons in Hw. destruct Hw as (_ & _ & [O3 B3] & _ & [O5 B5] & _).
  unfold context_spans. rewrite bool_decide_eq_false_2 by done. rewrite EA, Hk. cbn [result_bind map]. eexists. split; [done|].
  rewrite (add_known_all _ 0 []) by done. cbn [app]. set (creds := extended_secret_regex s) in *. set (urls := url_userinfo_regex s) in *.
  set (l0 := map (fun f => mkSpan f.1 f.2 (known_kind (matched s f))) creds).
  set (C := creds ++ urls ++ map bounds A).
  assert (Hcred : forall c x, c ∈ creds -> sealed s x -> beside c x \/ within c x).
  { intros c x Hc Hx. destruct (decide (beside c x)); [by left|right]. by eapply credential_swallowed; [apply credentials_of|..]. }
  assert (HAb : Forall (at_boundaries s) (map bounds A)).
  { apply Forall_forall. intros f (x & -> & Hx)%list_elem_of_fmap. rewrite Forall_forall in HA. by apply HA. }
  destruct (fold_holds add_password id (creds ++ urls) urls) with (l := l0) as [N1 H1].
  { intros l u f Hin Hl. apply add_password_holds; [done| |set_solver]. intros c [Hc|Hc]%elem_of_app.
    - apply Hcred; [done|]. pose proof (ef_passwords s Hf) as Hpw. rewrite Forall_forall in Hpw. destruct (Hpw u Hin) as [? ?]. split; [by right|by right; left].
    - destruct (ordered_beside s _ _ O5 B5 c u Hc Hin) as [?| ->]; [by left|right]. unfold within, id. lia. }
  { apply Forall_forall. intros x (f & -> & _)%list_elem_of_fmap. apply known_kind_no_key. }
  rewrite map_id in H1.
  destruct (fold_holds add_assignment bounds C A) with (l := foldl add_password l0 urls) as [N2 H2]; [|done|].
  { intros l a f Hin Hl. rewrite Forall_forall in HA. destruct (HA a Hin) as (_ & Hsl & Hkd).
    apply add_assignment_holds; [done|done| |unfold C; rewrite !elem_of_app, list_elem_of_fmap; eauto]. intros c [Hc|[Hc|Hc]%elem_of_app]%elem_of_app.
    - by apply Hcred.
    - by apply Hu.
    - destruct (ordered_beside s _ _ HO HAb c (bounds a) Hc) as [?| ->]; [apply list_elem_of_fmap; eauto|by left|right]. unfold within. lia. }
  assert (Hmono : forall f, holds (creds ++ urls) f (foldl add_password l0 urls) -> holds C f (foldl add_password l0 urls)).
  { intros f (x & ? & Hx & ?). exists x. split; [done|]. split; [|done]. unfold C. set_solver. }
  intros f [Hin|[Hin|Hin]%elem_of_app]%elem_of_app.
  - destruct (H2 f) as (x & ? & _ & ?); [|by exists x]. left. apply Hmono, H1. left. exists (mkSpan f.1 f.2 (known_kind (matched s f))).
    unfold l0. rewrite list_elem_of_fmap. split; [eauto|]. destruct f. split; [set_solver|]. unfold within. cbn. lia.
  - destruct (H2 f) as (x & ? & _ & ?); [|by exists x]. left. apply Hmono, H1. by right.
  - destruct (H2 f) as (x & ? & _ & ?); [|by exists x]. by right.
Qed.
End Masking.

(** ** Sorting *)

Lemma insert_perm x l : insert_span x l ≡ₚ x :: l.
Proof. induction l as [|y l IH]; cbn; [done|]. case_match; [done|]. rewrite IH. constructor. Qed.

Lemma insert_ordered x l : forall from, from <= x.(sp_start) -> x.(sp_start) <= x.(sp_end) ->
  Forall (fun y => y.(sp_start) <= y.(sp_end) /\ beside (bounds y) (bounds x)) l -> ordered from (map bounds l) ->
  ordered from (map bounds (insert_span x l)).
Proof.
  induction l as [|y l IH]; intros from H1 H2; cbn; [done|]. intros [[Hy Hb] Hl]%Forall_cons [H3 H4]. unfold beside in Hb. cbn in *.
  destruct (span_before x y) eqn:E; cbn.
  - split; [done|]. split; [|done]. unfold span_before in E. apply orb_true_iff in E as [E%Nat.ltb_lt|[E1%Nat.eqb_eq E2%Nat.ltb_lt]%andb_true_iff]; lia.
  - split; [done|]. apply IH; [|done|done|done]. unfold span_before in E. apply orb_false_iff in E as [E1%Nat.ltb_ge E2].
    apply andb_false_iff in E2 as [E2%Nat.eqb_neq|E2%Nat.ltb_ge]; lia.
Qed.

Lemma apart_mid l1 x l2 : apart (l1 ++ x :: l2) -> Forall (fun y => beside (bounds y) (bounds x)) l1.
Proof.
  induction l1 as [|y l1 IH]; cbn; [done|]. intros [H1 H2]. constructor; [|by apply IH]. rewrite Forall_forall in H1. apply H1. set_solver.
Qed.
Lemma apart_elem l : apart l -> forall x y, x ∈ l -> y ∈ l -> x = y \/ beside (bounds x) (bounds y).
Proof.
  induction l as [|z l IH]; cbn; [set_solver|]. intros [H1 H2] x y. rewrite Forall_forall in H1.
  intros [->|Hx]%elem_of_cons [->|Hy]%elem_of_cons; [by left|right; by apply H1|right; apply beside_sym; by apply H1|by apply IH].
Qed.
Lemma apart_perm l l' : l ≡ₚ l' -> apart l -> apart l'.
Proof.
  induction 1 as [|x l l' Hp IH|x y l|l l' l'' _ IH1 _ IH2]; cbn; [done| | |by eauto].
  - intros [H1 H2]. split; [|by apply IH]. by rewrite <- Hp.
  - intros [[H1 H2]%Forall_cons [H3 H4]]. split; [|by split]. constructor; [by apply beside_sym|done].
Qed.

Lemma sort_spec s l : spans_ok s l -> ordered 0 (map bounds (sort_spans l)) /\ sort_spans l ≡ₚ l.
Proof.
  unfold sort_spans. intros [Hb Ha].
  assert (H : forall l acc, Forall (fun x => at_boundaries s (bounds x)) (acc ++ l) -> apart (acc ++ l) -> ordered 0 (map bounds acc) ->
    ordered 0 (map bounds (foldl (fun acc x => insert_span x acc) acc l)) /\ foldl (fun acc x => insert_span x acc) acc l ≡ₚ acc ++ l).
  2: { by apply (H l []). }
  clear l Hb Ha. induction l as [|x l IH]; intros acc Hb Ha Ho; cbn; [by rewrite app_nil_r|].
  assert (Hp : insert_span x acc ++ l ≡ₚ acc ++ x :: l) by (rewrite insert_perm; apply Permutation_middle).
  destruct (IH (insert_span x acc)) as [H1 H2].
  - by rewrite Hp.
  - by eapply apart_perm; [symmetry; exact Hp|].
  - apply Forall_app in Hb as [Hb1 [[Hx _]%(conj (A := True) I)%proj2 _]%Forall_cons]. apply insert_ordered; [lia|exact Hx| |done].
    pose proof (apart_mid _ _ _ Ha) as Hm. rewrite Forall_forall in *. intros y Hy. split; [|by apply Hm]. by destruct (Hb1 y Hy).
  - split; [done|]. by rewrite H2.
Qed.

(** ** Lines *)

Lemma newline_split t : no_newline t \/ exists b t', t = b ++ LF :: t' /\ no_newline b.
Proof.
  induction t as [|c t IH]; [by left; constructor|]. destruct (decide (c = LF)) as [->|Hc].
  - right. exists [], t. split; [done|constructor].
  - destruct IH as [IH|(b & t' & -> & Hb)]; [left; by constructor|]. right. exists (c :: b), t'. split; [done|by constructor].
Qed.
Lemma split_inclusive_lf b t : no_newline b -> split_inclusive LF (b ++ LF :: t) = (b ++ [LF]) :: split_inclusive LF t.
Proof.
  induction 1 as [|c b Hc _ IH]; cbn [app split_inclusive]; [done|]. destruct (Ascii.eqb_spec c LF); [done|]. by rewrite IH.
Qed.
Lemma split_inclusive_last b : no_newline b -> b <> [] -> split_inclusive LF b = [b].
Proof.
  induction 1 as [|c b Hc Hb IH]; [done|]. intros _. cbn [split_inclusive]. destruct (Ascii.eqb_spec c LF); [done|].
  destruct b as [|d b]; [done|]. by rewrite IH.
Qed.
Lemma bytes_strip_prefix_some p t r : bytes_strip_prefix p t = Some r <-> t = p ++ r.
Proof.
  revert t. induction p as [|c p IH]; intros t; cbn; [split; [by intros [= ->]|by intros ->]|]. destruct t as [|d t]; [done|].
  destruct (Ascii.eqb_spec c d) as [->|Hne]; [rewrite IH; split; [by intros ->|by intros [= ->]]|]. split; [done|]. by intros [= ->].
Qed.
Lemma bytes_strip_suffix_some p t r : bytes_strip_suffix p t = Some r <-> t = r ++ p.
Proof.
  unfold bytes_strip_suffix. rewrite fmap_Some. setoid_rewrite bytes_strip_prefix_some. split.
  - intros (x & E & ->). apply (f_equal reverse) in E. by rewrite reverse_involutive, reverse_app, reverse_involutive in E.
  - intros ->. exists (reverse r). by rewrite reverse_app, reverse_involutive.
Qed.
Lemma strip_newline_lf b : strip_newline (b ++ [LF]) = b.
Proof. unfold strip_newline. by rewrite (proj2 (bytes_strip_suffix_some [LF] (b ++ [LF]) b)). Qed.
Lemma strip_newline_none b : no_newline b -> strip_newline b = b.
Proof.
  intros Hb. unfold strip_newline. destruct (bytes_strip_suffix [LF] b) as [r|] eqn:E; [|done]. apply bytes_strip_suffix_some in E. subst b.
  apply Forall_app in Hb as [_ Hb]. by inversion Hb.
Qed.
