(* ===== verification/RedactMask.v ===== *)
(** * Hidden secrets and kept lines (haider-tools redact.rs)

    The final spans are ordered and at character boundaries, so the replacement
    loop neither panics nor skips one.  What it shows is the complement of the
    spans: [pieces]. *)

From S2P Require Import Prelude RustStr ByteBuf Redact RedactProps.

Local Open Scope nat_scope.

Section Mask.
Context {patterns : Patterns} {base64 : Base64Engine} {entropy : Entropy}.
Variable s : bytes.
Hypothesis Hvalid : utf8_valid s = true.

(** ** Splitting at lines *)

(** The spans of the lines of [t], which stands at [cursor]. *)
Record lines_masked (cursor : nat) (t : bytes) (F : list Span) : Prop := {
  lm_ordered : ordered cursor (map bounds F);
  lm_bounds : Forall (fun x => at_boundaries s (bounds x)) F;
  lm_end : Forall (fun x => x.(sp_end) <= cursor + length t /\ no_newline (matched s (bounds x)) /\ x.(sp_start) < x.(sp_end)) F;
  lm_covers : forall i c, cursor <= i < cursor + length t -> s !! i = Some c -> c <> LF -> exists x, x ∈ F /\ inside i (bounds x)
}.

Lemma taken_lookup cursor t i : take (length t) (drop cursor s) = t -> i < length t -> s !! (cursor + i) = t !! i.
Proof. intros <- H. rewrite length_take, length_drop in *. rewrite lookup_take_lt by lia. by rewrite lookup_drop. Qed.

(** One line: its content is one span. *)
Lemma content_masked cursor b : take (length b) (drop cursor s) = b -> no_newline b -> is_char_boundary s cursor = true ->
  is_char_boundary s (cursor + length b) = true -> cursor + length b <= length s ->
  lines_masked cursor b (if bool_decide (b = []) then [] else [mkSpan cursor (cursor + length b) "secret_value"]).
Proof.
  intros Ht Hb H1 H2 H3. case_bool_decide as Eb.
  { subst b. split; [done|constructor|constructor|]. cbn. lia. }
  assert (0 < length b) by (destruct b; cbn; [done|lia]). split; [cbn; lia| | |].
  - constructor; [|done]. split; cbn; [lia|done].
  - constructor; [|done]. cbn. split; [lia|]. split; [|lia]. unfold matched. cbn. replace (cursor + length b - cursor) with (length b) by lia. by rewrite Ht.
  - intros i c Hi _ _. eexists. split; [by left|]. unfold inside. cbn. lia.
Qed.

Lemma line_spans_spec : forall n t cursor, length t <= n -> take (length t) (drop cursor s) = t -> cursor + length t <= length s ->
  is_char_boundary s cursor = true -> is_char_boundary s (cursor + length t) = true ->
  lines_masked cursor t (line_spans cursor (split_inclusive LF t)).
Proof.
  induction n as [|n IH]; intros t cursor Hn Ht Hl H1 H2.
  { destruct t; cbn in *; [|lia]. split; [done|constructor|constructor|]. cbn. lia. }
  destruct (newline_split t) as [Hno|(b & t' & -> & Hb)].
  - destruct (decide (t = [])) as [->|Hne]; [apply (IH [] cursor); cbn; (lia || done)|]. rewrite (split_inclusive_last t) by done. cbn [line_spans].
    rewrite strip_newline_none, app_nil_r by done. by apply content_masked.
  - rewrite length_app in *. cbn [length] in *. rewrite split_inclusive_lf by done. cbn [line_spans].
    rewrite strip_newline_lf, length_app. cbn [length].
    assert (Htb : take (length b) (drop cursor s) = b).
    { apply (f_equal (take (length b))) in Ht. rewrite take_take, take_app_length in Ht. by replace (_ `min` _) with (length b) in Ht by lia. }
    assert (Hlf : s !! (cursor + length b) = Some LF).
    { rewrite (taken_lookup cursor (b ++ LF :: t')); [|by rewrite length_app|rewrite length_app; cbn; lia]. by rewrite list_lookup_middle. }
    assert (Htt : take (length t') (drop (cursor + (length b + 1)) s) = t').
    { apply (f_equal (drop (length b + 1))) in Ht. rewrite skipn_firstn_comm, drop_drop in Ht. rewrite (cons_middle LF b t'), app_assoc in Ht.
      rewrite (drop_app_length' (b ++ [LF])) in Ht by (rewrite length_app; done). by replace (length b + S (length t') - (length b + 1)) with (length t') in Ht by lia. }
    destruct (content_masked cursor b Htb Hb H1) as [O1 B1 E1 C1]; [by eapply boundary_before_ascii|lia|].
    destruct (IH t' (cursor + (length b + 1)) ltac:(lia) Htt ltac:(lia)) as [O2 B2 E2 C2].
    { replace (cursor + (length b + 1)) with (S (cursor + length b)) by lia. by eapply boundary_behind_ascii. }
    { by replace (cursor + (length b + 1) + length t') with (cursor + (length b + S (length t'))) by lia. }
    split.
    + case_bool_decide; cbn; [|split; [lia|]].
      * destruct (line_spans _ _); cbn in *; [done|]. split; [lia|tauto].
      * destruct (line_spans _ _); cbn in *; [done|]. split; [lia|tauto].
    + by apply Forall_app.
    + apply Forall_app. split; (eapply Forall_impl; [eassumption|]); intros x (?&?&?); rewrite ?length_app; cbn [length]; (split; [lia|done]).
    + intros i c Hi Hc Hn'. rewrite length_app in Hi. cbn [length] in Hi. destruct (decide (i < cursor + length b)).
      * destruct (C1 i c ltac:(lia) Hc Hn') as (x & ? & ?). exists x. split; [apply elem_of_app; by left|done].
      * destruct (decide (i = cursor + length b)) as [->|]; [congruence|].
        destruct (C2 i c ltac:(lia) Hc Hn') as (x & ? & ?). exists x. split; [apply elem_of_app; by right|done].
Qed.

(** A non-empty span in one line, or one that is split into such. *)
Record one_line (x : Span) : Prop := {
  ol_content : no_newline (matched s (bounds x));
  ol_nonempty : x.(sp_start) < x.(sp_end);
  ol_kind : no_newline (lit x.(sp_kind))
}.

Lemma line_spans_kind lines : forall cursor, Forall (fun x => x.(sp_kind) = "secret_value"%string) (line_spans cursor lines).
Proof. induction lines as [|line lines IH]; intros cursor; cbn [line_spans]; [constructor|]. apply Forall_app. split; [|apply IH]. case_match; repeat constructor. Qed.
Lemma kind_plain kind : forallb (fun c => negb (Ascii.eqb c LF)) (lit kind) = true -> no_newline (lit kind).
Proof. intros H. apply Forall_forall. intros c Hc ->. rewrite forallb_forall in H. apply list_elem_of_In in Hc. by apply H in Hc. Qed.

Lemma split_spec l : forall from, ordered from (map bounds l) -> Forall (fun x => at_boundaries s (bounds x)) l ->
  exists F, split_secrets s l = Ok F /\ ordered from (map bounds F) /\ Forall (fun x => at_boundaries s (bounds x)) F /\
    (forall i c x, x ∈ l -> inside i (bounds x) -> s !! i = Some c -> c <> LF -> exists y, y ∈ F /\ inside i (bounds y)) /\
    (forall y, y ∈ F -> y ∈ l /\ y.(sp_kind) <> "secret_value"%string \/ one_line y).
Proof.
  induction l as [|x l IH]; intros from; cbn [map ordered split_secrets].
  { intros _ _. exists []. split; [done|]. split; [done|]. split; [constructor|]. split; [set_solver|]. intros y Hy. by apply elem_of_nil in Hy. }
  intros [H1 H2] [Hb Hl]%Forall_cons. destruct (IH _ H2 Hl) as (F & -> & O & B & C & K). pose proof Hb as (B1 & B2 & B3 & B4).
  cbn [bounds fst snd] in *. unfold of_kind. destruct (String.eqb_spec x.(sp_kind) "secret_value") as [Ek|Ek].
  - unfold push_secret_lines. rewrite str_slice_ok by done. cbn [result_bind].
    set (t := take (sp_end x - sp_start x) (drop (sp_start x) s)).
    assert (El : length t = sp_end x - sp_start x) by (unfold t; rewrite length_take, length_drop; lia).
    destruct (line_spans_spec (length t) t (sp_start x)) as [LO LB LE LC]; [done|by rewrite El|lia|done|by replace (sp_start x + length t) with (sp_end x) by lia|].
    set (P := line_spans (sp_start x) (split_inclusive LF t)) in *. eexists. split; [done|].
    split; [|split; [by apply Forall_app|split]].
    + assert (Hgo : forall Q k, ordered k (map bounds Q) -> Forall (fun y => y.(sp_end) <= sp_end x) Q -> k <= sp_end x ->
        ordered k (map bounds (Q ++ F))).
      { induction Q as [|y Q IHQ]; intros k; cbn.
        - intros _ _ Hk. destruct F as [|z F]; cbn in *; [done|]. split; [lia|tauto].
        - intros [? ?] [? ?]%Forall_cons _. split; [done|]. by apply IHQ. }
      assert (Hfrom : ordered from (map bounds P)) by (destruct P; cbn in *; [done|split; [lia|tauto]]).
      apply Hgo; [done| |lia]. eapply Forall_impl; [exact LE|]. cbn. intros y (? & _). lia.
    + intros i c y [->|Hy]%elem_of_cons Hi Hc Hn.
      * destruct (LC i c) as (z & ? & ?); [unfold inside in Hi; cbn in Hi; lia|done|done|]. exists z. split; [apply elem_of_app; by left|done].
      * destruct (C i c y Hy Hi Hc Hn) as (z & ? & ?). exists z. split; [apply elem_of_app; by right|done].
    + intros y [Hy|Hy]%elem_of_app.
      { right. rewrite Forall_forall in LE. destruct (LE y Hy) as (_ & ? & ?). split; [done|done|].
        pose proof (line_spans_kind (split_inclusive LF t) (sp_start x)) as Hk. rewrite Forall_forall in Hk. rewrite (Hk y Hy). by apply kind_plain. }
      destruct (K y Hy) as [[? ?]|?]; [left; split; [by right|done]|by right].
  - cbn [result_bind app]. eexists. split; [done|]. split; [by split|]. split; [by constructor|]. split.
    + intros i c y [->|Hy]%elem_of_cons Hi Hc Hn; [exists x; split; [by left|done]|].
      destruct (C i c y Hy Hi Hc Hn) as (z & ? & ?). exists z. split; [by right|done].
    + intros y [->|Hy]%elem_of_cons; [left; split; [by left|done]|]. destruct (K y Hy) as [[? ?]|?]; [left; split; [by right|done]|by right].
Qed.

(** ** Replacement *)

Inductive Piece := Plain (a b : nat) | Mark (kind : string).
Definition piece_text (p : Piece) : bytes := match p with Plain a b => take (b - a) (drop a s) | Mark kind => marker kind end.
Definition render (ps : list Piece) : bytes := concat (map piece_text ps).
(** The byte at [i] is copied. *)
Definition shows (ps : list Piece) (i : nat) : Prop := exists a b, Plain a b ∈ ps /\ a <= i < b.

Fixpoint pieces (cursor : nat) (F : list Span) : list Piece :=
  match F with
  | [] => [Plain cursor (length s)]
  | x :: F => Plain cursor x.(sp_start) :: Mark x.(sp_kind) :: pieces x.(sp_end) F
  end.

Lemma pieces_shows F : forall cursor i, ordered cursor (map bounds F) -> Forall (fun x => at_boundaries s (bounds x)) F ->
  shows (pieces cursor F) i -> cursor <= i /\ forall x, x ∈ F -> ~ inside i (bounds x).
Proof.
  induction F as [|x F IH]; intros cursor i; cbn [pieces map ordered].
  - intros _ _ (a & b & [= -> ->]%list_elem_of_singleton & Hi). split; [lia|]. intros x Hx. by apply elem_of_nil in Hx.
  - intros [H1 H2] [Hb HF]%Forall_cons (a & b & Hp & Hi). pose proof (ordered_from _ s _ H2) as Hlt. cbn in *.
    destruct Hb as (Hb1 & _). cbn in Hb1. apply elem_of_cons in Hp as [[= -> ->]|[[=]|Hp]%elem_of_cons].
    + split; [lia|]. intros y [->|Hy]%elem_of_cons; unfold inside; cbn; [lia|].
      assert (HFb : Forall (at_boundaries s) (map bounds F)) by (by apply Forall_map).
      specialize (Hlt HFb). rewrite Forall_forall in Hlt. specialize (Hlt (bounds y)). cbn in Hlt. assert (sp_end x <= sp_start y); [|lia].
      apply Hlt. apply list_elem_of_fmap. eauto.
    + destruct (IH (sp_end x) i H2 HF) as [IH1 IH2]; [by exists a, b|]. split; [lia|]. intros y [->|Hy]%elem_of_cons; [|by apply IH2].
      unfold inside. cbn. lia.
Qed.

Lemma replace_spec F : forall cursor, ordered cursor (map bounds F) -> Forall (fun x => at_boundaries s (bounds x)) F ->
  cursor <= length s -> is_char_boundary s cursor = true ->
  replace_spans s cursor F = Ok (mkRedacted (render (pieces cursor F)) (N.of_nat (length F))).
Proof.
  induction F as [|x F IH]; intros cursor; cbn [map ordered replace_spans pieces].
  - intros _ _ Hc Hb. rewrite str_slice_ok by (done || apply boundary_len). cbn [result_bind]. unfold render. cbn. by rewrite app_nil_r.
  - intros [H1 H2] [(B1 & B2 & B3 & B4) HF]%Forall_cons Hc Hb. cbn [bounds fst snd] in *.
    destruct (Nat.ltb_spec (sp_start x) cursor); [lia|]. rewrite str_slice_ok by (done || lia). cbn [result_bind].
    rewrite IH by done. cbn [result_bind rt_text rt_replacements]. unfold render. cbn [map concat piece_text length]. f_equal. f_equal. lia.
Qed.

(** ** One line *)

Lemma foldl_grows {B} (step : list Span -> B -> list Span) bs : (forall l b, exists l', step l b = l ++ l') ->
  forall l, exists l', foldl step l bs = l ++ l'.
Proof.
  intros Hs. induction bs as [|b bs IH]; intros l; cbn; [exists []; by rewrite app_nil_r|]. destruct (Hs l b) as [l1 ->].
  destruct (IH (l ++ l1)) as [l2 ->]. exists (l1 ++ l2). by rewrite app_assoc.
Qed.

(** Every span is in one line or will be split into lines. *)
Definition tidy (x : Span) : Prop := x.(sp_kind) = "secret_value"%string \/ one_line x.
Definition tidy_or_key (x : Span) : Prop := tidy x \/ x.(sp_kind) = "private_key"%string /\ private_key_regex s <> [] /\ x.(sp_start) < x.(sp_end).

Lemma retain_forall (P : Span -> Prop) f l x : Forall P l -> P x -> Forall P (retain_beside f l ++ [x]).
Proof.
  intros Hl Hx. apply Forall_app. split; [|by constructor]. apply Forall_forall. intros y [Hy _]%elem_retain. rewrite Forall_forall in Hl. by apply Hl.
Qed.
Lemma foldl_forall {B} (P : Span -> Prop) (Q : B -> Prop) (step : list Span -> B -> list Span) bs :
  (forall l b, Forall P l -> Q b -> Forall P (step l b)) -> Forall Q bs -> forall l, Forall P l -> Forall P (foldl step l bs).
Proof. intros Hs. induction 1 as [|b bs Hb _ IH]; intros l Hl; cbn; [done|]. by apply IH, Hs. Qed.

Lemma credential_line f : f.1 < f.2 /\ Forall (fun c => cred_byte c = true) (matched s f) -> one_line (mkSpan f.1 f.2 (known_kind (matched s f))).
Proof.
  intros [H1 H2]. destruct f as [a b]. split; [|done|]. 2: { cbn [sp_kind]. unfold known_kind. repeat case_match; by apply kind_plain. } eapply Forall_impl; [exact H2|]. cbn. by intros c Hc ->.
Qed.

Lemma context_tidy policy q l q' : engine_facts s -> quote_ok q -> context_spans s policy q = Ok (l, q') -> Forall tidy_or_key l.
Proof.
  intros Hf Hq. destruct (ef_keys _ Hf) as [Hk _]. pose proof (ef_credentials _ Hf) as Hc. apply Forall_app in Hc as [Hc1 Hc2].
  assert (H0 : Forall tidy_or_key (map (fun f => mkSpan f.1 f.2 "private_key") (private_key_regex s))).
  { apply Forall_map. rewrite Forall_forall in Hk. apply Forall_forall. intros f Hin. right. split; [done|]. split; [|by apply Hk]. intros E. rewrite E in Hin. by apply elem_of_nil in Hin. }
  assert (Hknown : forall l f, Forall tidy_or_key l -> f.1 < f.2 /\ Forall (fun c => cred_byte c = true) (matched s f) -> Forall tidy_or_key (add_known s l f)).
  { intros k f Hl Hcf. unfold add_known. case_match; [done|]. apply Forall_app. split; [done|]. constructor; [|done]. left. right. by apply credential_line. }
  unfold context_spans. case_bool_decide.
  - intros [= <- <-]. by eapply foldl_forall; [apply Hknown|..].
  - destruct (assignments_spec s Hvalid q Hf Hq) as (A & q1 & -> & _ & HA & _). cbn [result_bind fst snd]. intros [= <- <-].
    eapply (foldl_forall _ (secret_span s)); [|done|].
    { intros k x Hk' (_ & _ & Hx). unfold add_assignment. repeat (case_match; [done|]). apply retain_forall; [done|]. by left; left. }
    eapply (foldl_forall _ (fun _ => True)); [|by apply Forall_true|].
    { intros k x Hk' _. unfold add_password. repeat (case_match; [done|]). apply retain_forall; [done|]. by left; left. }
    by eapply foldl_forall; [apply Hknown|..].
Qed.

Lemma candidates_tidy policy found : Forall (fun f => f.1 < f.2 /\ no_newline (matched s f)) found -> forall l l',
  Forall tidy l -> add_candidates s policy l found = Ok l' -> Forall tidy l'.
Proof.
  induction 1 as [|f found Hf _ IH]; intros l l' Hl; cbn [add_candidates]; [by intros [= <-]|]. case_match; [by apply IH|].
  intros E. apply result_bind_ok in E as (public & _ & E). destruct public; [by eapply IH|]. eapply IH; [|exact E].
  apply Forall_app. split; [done|]. constructor; [|done]. right. destruct f, Hf. split; [done|done|by apply kind_plain].
Qed.

(** The spans are found without a panic, and cover what the context covers. *)
Lemma spans_total policy q l q' : engine_facts s -> quote_ok q -> context_spans s policy q = Ok (l, q') ->
  exists F, redaction_spans s policy q = Ok (F, q') /\ ordered 0 (map bounds F) /\ Forall (fun x => at_boundaries s (bounds x)) F /\
    (forall i c x, x ∈ l -> inside i (bounds x) -> s !! i = Some c -> c <> LF -> exists y, y ∈ F /\ inside i (bounds y)) /\
    (Forall tidy l -> Forall one_line F).
Proof.
  intros Hf Hq El. destruct (context_total s Hvalid policy q Hf Hq) as (l0 & q0 & E0 & Hl & _). rewrite El in E0. injection E0 as <- <-.
  pose proof (ef_well s Hf) as Hw. rewrite !Forall_cons in Hw. destruct Hw as (_ & _ & _ & _ & _ & [_ B6] & [_ B7] & [_ B8] & _).
  unfold redaction_spans. rewrite El. cbn [result_bind fst snd].
  destruct (candidates_total s policy (if bool_decide (policy = Lockdown) then entropy_candidate_regex s else identifier_candidate_regex s)) with (l := l)
    as (l1 & E1 & Hl1); [by case_match|done|]. rewrite E1. cbn [result_bind].
  destruct (foldl_grows (add_material s policy) (private_key_material_regex s)) with (l := l ++ l1) as [l2 E2].
  { clear E1. intros k f. unfold add_material. destruct (existsb _ _ || _ || _); [exists []; by rewrite app_nil_r|by eexists]. }
  assert (Hl2 : spans_ok s ((l ++ l1) ++ l2)).
  { rewrite <- E2. eapply foldl_ok; [apply add_material_ok|done|done]. }
  rewrite E2. destruct (sort_spec s _ Hl2) as [Ho Hp].
  destruct (split_spec (sort_spans ((l ++ l1) ++ l2)) 0 Ho) as (F & -> & O & B & C & K); [rewrite Hp; by destruct Hl2|].
  eexists. split; [done|]. split; [done|]. split; [done|]. split; [intros i c x Hx; apply C; rewrite Hp; set_solver|]. intros Ht.
  assert (Htidy : Forall tidy ((l ++ l1) ++ l2)).
  { pose proof (ef_candidates _ Hf) as Hc. rewrite !Forall_app in Hc. destruct Hc as (C1 & C2 & C3). rewrite <- E2.
    eapply (foldl_forall _ (fun f => f.1 < f.2 /\ no_newline (matched s f))); [|done|].
    - clear E1. intros k f Hk Hff. unfold add_material. destruct (existsb _ _ || _ || _); [done|]. apply Forall_app. split; [done|]. constructor; [|done]. right. destruct f, Hff. split; [done|done|by apply kind_plain].
    - eapply candidates_tidy; [|exact Ht|exact E1]. by case_match. }
  apply Forall_forall. intros y Hy. destruct (K y Hy) as [[Hin Hk]|?]; [|done]. rewrite Hp in Hin. rewrite Forall_forall in Htidy.
  by destruct (Htidy y Hin).
Qed.

Lemma with_state_spec policy q l q' : engine_facts s -> quote_ok q -> context_spans s policy q = Ok (l, q') ->
  exists F, redact_with_state s policy q = Ok (mkRedacted (render (pieces 0 F)) (N.of_nat (length F)), q') /\
    redaction_spans s policy q = Ok (F, q') /\
    ordered 0 (map bounds F) /\ Forall (fun x => at_boundaries s (bounds x)) F /\ (Forall tidy l -> Forall one_line F) /\
    forall i c x, x ∈ l -> inside i (bounds x) -> s !! i = Some c -> c <> LF -> ~ shows (pieces 0 F) i.
Proof.
  intros Hf Hq El. destruct (spans_total policy q l q' Hf Hq El) as (F & E & O & B & C & T). exists F. split.
  - unfold redact_with_state. rewrite E. cbn [result_bind fst snd]. case_bool_decide as EF.
    + subst F. unfold render. cbn. by rewrite drop_0, Nat.sub_0_r, take_ge, app_nil_r.
    + by rewrite (replace_spec F 0 O B (Nat.le_0_l _) (boundary_0 s)).
  - split; [done|]. split; [done|]. split; [done|]. split; [done|]. intros i c x Hx Hi Hc Hn Hs. destruct (C i c x Hx Hi Hc Hn) as (y & Hy & Hin). by destruct (pieces_shows F 0 i O B Hs) as [_ H]; apply (H y Hy).
Qed.

(** ** Lines are kept *)

Section Kept.
Variables (content ending : bytes).
Hypothesis Hs : s = content ++ ending.
Hypothesis Hcontent : no_newline content.
Hypothesis Hending : ending = [LF] \/ ending = [].

Lemma one_line_inside x : at_boundaries s (bounds x) -> one_line x -> x.(sp_end) <= length content.
Proof.
  intros (H1 & H2 & _) [Hn Hlt _]. cbn [bounds fst snd] in *. destruct Hending as [He|He]; rewrite Hs, He, length_app in H2; cbn [length] in H2; [|lia].
  destruct (decide (sp_end x <= length content)) as [|Hgt]; [done|]. exfalso.
  assert (E : s !! (length content) = Some LF) by (rewrite Hs, He; by rewrite list_lookup_middle).
  unfold no_newline in Hn. rewrite Forall_forall in Hn. apply (Hn LF); [|done]. apply list_elem_of_lookup. exists (length content - sp_start x).
  rewrite matched_lookup; cbn [bounds fst snd]; [|lia]. by replace (sp_start x + (length content - sp_start x)) with (length content) by lia.
Qed.

Lemma marker_plain kind : no_newline (lit kind) -> no_newline (marker kind).
Proof. intros H. unfold marker. rewrite !as_bytes_app. repeat (apply Forall_app; split); [by apply kind_plain|done|by apply kind_plain]. Qed.

Lemma render_keeps F : forall cursor, cursor <= length content -> ordered cursor (map bounds F) ->
  Forall (fun x => at_boundaries s (bounds x)) F -> Forall one_line F ->
  exists out, render (pieces cursor F) = out ++ ending /\ no_newline out /\ (out = [] -> cursor = length content).
Proof.
  induction F as [|x F IH]; intros cursor Hc; cbn [map ordered pieces].
  - intros _ _ _. exists (drop cursor content). unfold render. cbn [map concat piece_text]. rewrite app_nil_r. split; [|split].
    + rewrite take_ge by (rewrite length_drop; lia). rewrite Hs. by rewrite drop_app_le.
    + by apply Forall_drop.
    + intros E%(f_equal length). rewrite length_drop in E. cbn in E. lia.
  - intros [H1 H2] [Hb HF]%Forall_cons [Hx HX]%Forall_cons. pose proof (one_line_inside x Hb Hx) as He. destruct Hb as (B1 & _). cbn [bounds fst snd] in *.
    destruct (IH (sp_end x) He H2 HF HX) as (out & E & Hout & _). exists (take (sp_start x - cursor) (drop cursor content) ++ marker x.(sp_kind) ++ out).
    split; [|split].
    + unfold render in *. cbn [map concat piece_text]. rewrite E, <- !app_assoc. f_equal. rewrite Hs, drop_app_le by lia.
      rewrite take_app_le; [done|]. rewrite length_drop. lia.
    + repeat (apply Forall_app; split); [by apply Forall_take, Forall_drop|apply marker_plain; by destruct Hx|done].
    + intros Ee%app_nil. destruct Ee as [_ Ee]. unfold marker in Ee. done.
Qed.
End Kept.

(** A line that opens a private key, closes the value that was open and opens
    another one. *)
Definition tangled (q q' : QuotedValue) : bool :=
  begins_key s && quoted_active q && negb (quoted_active (consume q s).2) && quoted_active q'.

(** Inside an open value that does not end here, all of the line is a secret. *)
Lemma whole_line_covered policy q A q' : engine_facts s -> quote_ok q -> policy <> Lockdown ->
  secret_assignment_spans s q = Ok (A, q') -> quoted_active (consume q s).2 = true ->
  exists l, context_spans s policy q = Ok (l, q') /\ (s <> [] -> exists x, x ∈ l /\ bounds x = (0, length s) /\ x.(sp_kind) <> "private_key"%string).
Proof.
  intros Hf Hq Hp EA Hact. destruct (context_total s Hvalid policy q Hf Hq) as (l & q0 & E & _). exists l.
  assert (q0 = q' /\ (s <> [] -> exists x, x ∈ l /\ bounds x = (0, length s) /\ x.(sp_kind) <> "private_key"%string)) as [-> H]; [|by split].
  revert E. unfold context_spans. rewrite bool_decide_eq_false_2 by done. rewrite EA. cbn [result_bind fst snd]. intros [= <- <-]. split; [done|].
  intros Hne. unfold secret_assignment_spans in EA. destruct (consume q s) as [n q1] eqn:En. cbn in Hact.
  destruct (consume_spec _ _ _ _ Hq En) as (_ & _ & Hn & _). specialize (Hn Hact). subst n. rewrite Hact in EA. injection EA as <- <-.
  destruct (Nat.ltb_spec 0 (length s)); [|destruct s; [done|cbn in *; lia]]. cbn [foldl]. unfold add_assignment.
  destruct (existsb _ _) eqn:E1 in |- *.
  - apply existsb_exists in E1 as (x & Hx%list_elem_of_In & [Ek Ex]%andb_true_iff). exists x. split; [done|].
    unfold same_bounds in Ex. apply bool_decide_eq_true in Ex. split; [done|]. by apply negb_true_iff, String.eqb_neq in Ek.
  - destruct (existsb _ _) eqn:E2 in |- *.
    + apply existsb_exists in E2 as (x & _ & [[_ Ex]%andb_true_iff _]%andb_true_iff). done.
    + eexists. split; [apply elem_of_app; right; by left|done].
Qed.
End Mask.

Arguments shows : clear implicits.

Section Line.
Context {patterns : Patterns} {base64 : Base64Engine} {entropy : Entropy}.

Lemma ends_with_lf line : bytes_ends_with [LF] line = true -> exists b, line = b ++ [LF].
Proof. unfold bytes_ends_with. intros [b Hb]%bool_decide_eq_true. exists b. by apply bytes_strip_suffix_some. Qed.

(** The marker line shows at most its newline. *)
Lemma marker_line line : exists ps, render line ps = marker "private_key" ++ (if bytes_ends_with [LF] line then [LF] else []) /\
  forall i, shows ps i -> line !! i = Some LF.
Proof.
  destruct (bytes_ends_with [LF] line) eqn:E.
  - destruct (ends_with_lf _ E) as [b ->]. exists [Mark "private_key"; Plain (length b) (length b + 1)]. unfold render. split.
    + cbn [map concat piece_text]. rewrite drop_app_length. by replace (length b + 1 - length b) with 1 by lia.
    + intros i (x & y & [[=]|[= -> ->]%list_elem_of_singleton]%elem_of_cons & Hi). replace i with (length b) by lia. by rewrite list_lookup_middle.
  - exists [Mark "private_key"]. unfold render. cbn [map concat piece_text]. split; [done|].
    intros i (x & y & [=]%list_elem_of_singleton & _).
Qed.

Lemma places_bounded line q A q' f : utf8_valid line = true -> engine_facts line -> quote_ok q -> secret_assignment_spans line q = Ok (A, q') ->
  f ∈ extended_secret_regex line ++ url_userinfo_regex line ++ map bounds A -> f.2 <= length line.
Proof.
  intros Hv Hf Hq EA Hin. pose proof (ef_well _ Hf) as Hw. rewrite !Forall_cons in Hw. destruct Hw as (_ & _ & [_ B3] & _ & [_ B5] & _).
  destruct (assignments_spec line Hv q Hf Hq) as (A0 & q0 & E0 & _ & HA & _). rewrite EA in E0. injection E0 as <- <-.
  rewrite Forall_forall in B3, B5. rewrite Forall_forall in HA. apply elem_of_app in Hin as [Hin|[Hin|Hin]%elem_of_app].
  - by destruct (B3 f Hin) as (_ & ? & _).
  - by destruct (B5 f Hin) as (_ & ? & _).
  - apply list_elem_of_fmap in Hin as (x & -> & Hx). by destruct (HA x Hx) as ((_ & ? & _) & _).
Qed.

(** C14: Nothing recognized as a secret is shown.  For a line of text and any
    state of the stream, under the standard and the explicit-path policy, the
    redactor returns (no slice panics), and every byte that lies in a known
    credential, a password of a URL or an assigned value, quoted ones that span
    lines included, is replaced; only newlines inside them remain.  The two
    conditions exclude a value that cuts a URL password and a line that closes
    a quoted value, opens a private key and opens another quoted value. *)
Theorem secrets_hidden line state policy A q' :
  utf8_valid line = true -> engine_facts line -> quote_ok state.(quoted) -> policy <> Lockdown ->
  secret_assignment_spans line state.(quoted) = Ok (A, q') ->
  (forall u a, u ∈ url_userinfo_regex line -> a ∈ A -> beside u (bounds a) \/ within u (bounds a)) ->
  tangled line state.(quoted) q' = false ->
  exists r state' ps, redact_line line state policy = Ok (r, state') /\ quote_ok state'.(quoted) /\ r.(rt_text) = render line ps /\
    forall i f, f ∈ extended_secret_regex line ++ url_userinfo_regex line ++ map bounds A -> inside i f -> shows ps i -> line !! i = Some LF.
Proof.
  intros Hv Hf Hq Hp EA Hu Ht. unfold redact_line. fold (begins_key line).
  destruct (context_total line Hv policy _ Hf Hq) as (l & q0 & El & _ & Hq0).
  destruct (with_state_spec line Hv policy _ l q0 Hf Hq El) as (F & -> & _ & _ & _ & _ & Hhide). cbn [result_bind fst snd].
  assert (q0 = q') as ->.
  { unfold context_spans in El. rewrite bool_decide_eq_false_2, EA in El by done. by injection El. }
  destruct (private_key state || (begins_key line && negb (quoted_active (quoted state) && quoted_active q'))) eqn:Eb.
  { destruct (marker_line line) as (ps & <- & Hps). eexists _, _, ps. split; [done|]. split; [done|]. split; [done|]. intros i f _ _. apply Hps. }
  eexists _, _, (pieces line 0 F). split; [done|]. split; [done|]. split; [done|]. intros i f Hin Hi Hs.
  assert (Hlt : i < length line) by (pose proof (places_bounded line _ A q' f Hv Hf Hq EA Hin); unfold inside in Hi; lia).
  assert (Hcover : exists x, x ∈ l /\ inside i (bounds x) \/ line !! i = Some LF).
  { apply orb_false_iff in Eb as [_ Eb]. destruct (begins_key line) eqn:Ebk.
    - cbn in Eb. apply negb_false_iff, andb_true_iff in Eb as [Eq1 Eq2]. unfold tangled in Ht. rewrite Ebk, Eq1, Eq2, andb_true_r in Ht. cbn in Ht.
      apply negb_false_iff in Ht. destruct (whole_line_covered line Hv policy _ A q' Hf Hq Hp EA Ht) as (l0 & El0 & Hw). rewrite El in El0. injection El0 as <-.
      destruct Hw as (x & Hx & Ex & _); [intros ->; unfold begins_key in Ebk; done|]. exists x. left. split; [done|]. rewrite Ex. split; cbn; [lia|done].
    - destruct (context_covers line Hv policy _ A q' Hf Hq Hp (proj2 (ef_keys _ Hf) Ebk) EA Hu) as (l0 & El0 & Hc). rewrite El in El0. injection El0 as <-.
      destruct (Hc f Hin) as (x & Hx & Hw). exists x. left. split; [done|]. unfold inside, within in *. lia. }
  destruct Hcover as (x & [[Hx Hxi]|?]); [|done]. destruct (line !! i) as [c|] eqn:Ec.
  - destruct (decide (c = LF)) as [->|Hc]; [done|]. by destruct (Hhide i c x Hx Hxi Ec Hc).
  - apply lookup_ge_None in Ec. lia.
Qed.

(** ** Text *)

Lemma line_kept content ending state policy :
  let line := content ++ ending in
  utf8_valid line = true -> engine_facts line -> quote_ok state.(quoted) ->
  (policy = Lockdown -> quoted_active state.(quoted) = false) -> no_newline content -> ending = [LF] \/ ending = [] ->
  (forall r state', redact_line line state policy = Ok (r, state') -> tangled line state.(quoted) state'.(quoted) = false) ->
  exists r state' out, redact_line line state policy = Ok (r, state') /\ quote_ok state'.(quoted) /\
    (policy = Lockdown -> quoted_active state'.(quoted) = false) /\
    r.(rt_text) = out ++ ending /\ no_newline out /\ (out = [] -> content = []).
Proof.
  intros line Hv Hf Hq Hlock Hcont Hend Ht. revert Ht. unfold redact_line. fold (begins_key line).
  destruct (context_total line Hv policy _ Hf Hq) as (l & q0 & El & Hl & Hq0).
  destruct (with_state_spec line Hv policy _ l q0 Hf Hq El) as (F & -> & _ & O & B & T & _). cbn [result_bind fst snd].
  assert (Hq0' : policy = Lockdown -> q0 = quoted state).
  { intros ->. unfold context_spans in El. rewrite bool_decide_eq_true_2 in El by done. by injection El. }
  assert (Hlock' : policy = Lockdown -> quoted_active q0 = false) by (intros Hp; rewrite (Hq0' Hp); by apply Hlock).
  destruct (private_key state || (begins_key line && negb (quoted_active (quoted state) && quoted_active q0))) eqn:Eb; intros Ht.
  { eexists _, _, (marker "private_key"). split; [done|]. split; [done|]. split; [done|]. split; [|split; [by apply marker_plain, kind_plain|done]].
    cbn [rt_text]. f_equal. unfold line. destruct Hend as [-> | ->].
    - unfold bytes_ends_with. by rewrite (proj2 (bytes_strip_suffix_some [LF] (content ++ [LF]) content)).
    - rewrite app_nil_r. destruct (bytes_ends_with [LF] content) eqn:E; [|done]. destruct (ends_with_lf _ E) as [b ->].
      apply Forall_app in Hcont as [_ Hcont]. by inversion Hcont. }
  pose proof (context_tidy line Hv policy _ l q0 Hf Hq El) as Htk.
  assert (Htidy : Forall (tidy line) l).
  { specialize (Ht _ _ eq_refl). apply orb_false_iff in Eb as [_ Eb]. destruct (begins_key line) eqn:Ebk.
    - cbn in Eb. apply negb_false_iff, andb_true_iff in Eb as [Eq1 Eq2].
      assert (Hp : policy <> Lockdown) by (intros Hp; rewrite (Hlock Hp) in Eq1; done).
      cbn [quoted] in Ht. unfold tangled in Ht. rewrite Ebk, Eq1, Eq2, andb_true_r in Ht. cbn in Ht. apply negb_false_iff in Ht.
      destruct (assignments_spec line Hv _ Hf Hq) as (A & q1 & EA & _). assert (q1 = q0) as ->.
      { unfold context_spans in El. rewrite bool_decide_eq_false_2, EA in El by done. by injection El. }
      destruct (whole_line_covered line Hv policy _ A q0 Hf Hq Hp EA Ht) as (l0 & El0 & Hw). rewrite El in El0. injection El0 as <-.
      destruct Hw as (x & Hx & Ex & Ekx); [intros E; rewrite E in Ebk; done|].
      apply Forall_forall. intros y Hy. rewrite Forall_forall in Htk. destruct (Htk y Hy) as [|(Hk & _ & Hlt)]; [done|]. exfalso.
      destruct Hl as [Hb Ha]. rewrite Forall_forall in Hb. destruct (Hb y Hy) as (_ & Hy2 & _). cbn in Hy2.
      destruct (apart_elem _ Ha x y Hx Hy) as [->|Hbe]; [done|]. rewrite Ex in Hbe. unfold beside in Hbe. cbn in Hbe. lia.
    - eapply Forall_impl; [exact Htk|]. intros x [|(_ & Hk & _)]; [done|]. destruct (Hk (proj2 (ef_keys _ Hf) Ebk)). }
  destruct (render_keeps line content ending eq_refl Hcont Hend F 0 ltac:(lia) O B (T Htidy)) as (out & E & Hout & Hne).
  eexists _, _, out. split; [done|]. split; [done|]. split; [done|]. split; [done|]. split; [done|].
  intros Ho. destruct content; [done|]. specialize (Hne Ho). cbn in Hne. lia.
Qed.
End Line.
