(* ===== verification/RedactText.v ===== *)
(** * Whole texts and bounded previews (haider-tools redact.rs)

    Redaction keeps the lines of a text, and the bounded variant computes the
    prefix of the unbounded one.  The content-identifier check equals a
    declarative reading of base 58. *)

From S2P Require Import Prelude RustStr ByteBuf Redact RedactProps RedactMask.

Local Open Scope nat_scope.

(** ** Characters *)

(** Cutting behind an ASCII byte leaves two strings. *)
Lemma valid_split c t : ascii_byte c = true -> forall n b, length b <= n -> utf8_valid (b ++ c :: t) = true ->
  utf8_valid (b ++ [c]) = true /\ utf8_valid t = true.
Proof.
  intros Hc. assert (Ec : in_range 0 127 c = true).
  { unfold ascii_byte in Hc. apply N.ltb_lt in Hc. unfold in_range. apply andb_true_iff. rewrite !N.leb_le. lia. }
  assert (Hhigh : forall lo hi, (128 <= lo)%N -> in_range lo hi c = false).
  { intros lo hi Hlo. destruct (in_range lo hi c) eqn:E; [|done]. apply in_range_high in E; [|done]. congruence. }
  induction n as [|n IH]; intros b Hl; destruct b as [|c0 b0]; cbn [length app] in *; try lia.
  1,2: cbn [utf8_valid]; rewrite Ec; done.
  cbn [utf8_valid]. destruct (in_range 0 127 c0); [apply IH; lia|]. destruct (in_range 194 223 c0).
  { destruct b0 as [|c1 b1]; cbn [app]; [rewrite Hhigh by lia; done|]. destruct (in_range 128 191 c1); [|done]. cbn [andb]. apply IH. cbn in Hl. lia. }
  destruct (in_range 224 239 c0).
  { destruct b0 as [|c1 [|c2 b2]]; cbn [app].
    - destruct t as [|c2 t]; [done|]. rewrite Hhigh by (by case_match). done.
    - rewrite Hhigh by lia. by rewrite andb_false_r.
    - destruct (in_range _ _ c1 && in_range _ _ c2); [|done]. cbn [andb]. apply IH. cbn in Hl. lia. }
  destruct (in_range 240 244 c0); [|done]. destruct b0 as [|c1 [|c2 [|c3 b3]]]; cbn [app].
  - destruct t as [|c2 [|c3 t]]; [done..|]. rewrite Hhigh by (by case_match). done.
  - destruct t as [|c3 t]; [done|]. rewrite Hhigh by lia. by rewrite andb_false_r.
  - rewrite Hhigh by lia. by rewrite andb_false_r.
  - destruct (in_range _ _ c1 && in_range _ _ c2 && in_range _ _ c3); [|done]. cbn [andb]. apply IH. cbn in Hl. lia.
Qed.

(** ** Lines *)

Section Text.
Context {patterns : Patterns} {base64 : Base64Engine} {entropy : Entropy}.

(** No line of the run is tangled. *)
Fixpoint untangled (policy : RedactionPolicy) (lines : list bytes) (state : RedactionState) : bool :=
  match lines with
  | [] => true
  | line :: lines =>
      match redact_line line state policy with
      | Ok (_, state') => negb (tangled line state.(quoted) state'.(quoted)) && untangled policy lines state'
      | Err _ => false
      end
  end.

Definition same_ending (a b : bytes) : Prop := bytes_ends_with [LF] a = bytes_ends_with [LF] b.

Lemma same_ending_app a b ending : no_newline a -> no_newline b -> same_ending (a ++ ending) (b ++ ending) .
Proof.
  intros Ha Hb. unfold same_ending, bytes_ends_with. apply bool_decide_ext. destruct ending as [|c e _] using rev_ind.
  - rewrite !app_nil_r. split; intros [r E%bytes_strip_suffix_some]; subst; [apply Forall_app in Ha as [_ Ha]|apply Forall_app in Hb as [_ Hb]];
      [by inversion Ha|by inversion Hb].
  - assert (H : forall x, is_Some (bytes_strip_suffix [LF] (x ++ e ++ [c])) <-> c = LF).
    { intros x. split; [intros [r E%bytes_strip_suffix_some]; rewrite app_assoc in E; by apply app_inj_tail in E as [_ ->]|].
      intros ->. exists (x ++ e). apply bytes_strip_suffix_some. by rewrite app_assoc. }
    by rewrite !H.
Qed.

Lemma redact_all_lines policy : forall n t state, length t <= n -> utf8_valid t = true ->
  Forall engine_facts (split_inclusive LF t) -> quote_ok state.(quoted) -> (policy = Lockdown -> quoted_active state.(quoted) = false) ->
  untangled policy (split_inclusive LF t) state = true ->
  exists r, redact_all policy (split_inclusive LF t) state = Ok r /\
    Forall2 same_ending (split_inclusive LF t) (split_inclusive LF r.(rt_text)).
Proof.
  induction n as [|n IH]; intros t state Hn Hv.
  { destruct t; cbn in *; [|lia]. intros. eexists. split; [done|]. constructor. }
  destruct (newline_split t) as [Hno|(b & t' & -> & Hb)].
  - destruct (decide (t = [])) as [->|Hne]; [apply (IH [] state); cbn; (lia || done)|].
    rewrite (split_inclusive_last t) by done. intros [Hf _]%Forall_cons Hq Hl Ht. cbn [untangled redact_all] in *.
    destruct (line_kept t [] state policy) as (r & state' & out & E & _ & _ & Eo & Hout & Hz); rewrite ?app_nil_r in *; [done|done|done|done|done|by right| |].
    { intros r st E. rewrite E in Ht. by apply andb_true_iff in Ht as [?%negb_true_iff _]. }
    rewrite E. cbn [result_bind fst snd rt_text]. eexists. split; [done|]. cbn [rt_text]. rewrite app_nil_r, Eo.
    rewrite split_inclusive_last; [|done|by intros ->; apply Hne, Hz]. constructor; [|constructor].
    pose proof (same_ending_app t out [] Hno Hout) as H. by rewrite !app_nil_r in H.
  - rewrite split_inclusive_lf by done. rewrite length_app in Hn. cbn [length] in Hn.
    destruct (valid_split LF t' eq_refl (length b) b (Nat.le_refl _) Hv) as [Hv1 Hv2].
    intros [Hf HF]%Forall_cons Hq Hl Ht. cbn [untangled redact_all] in *.
    destruct (line_kept b [LF] state policy) as (r & state' & out & E & Hq' & Hl' & Eo & Hout & _); [done|done|done|done|done|by left| |].
    { intros r st E. rewrite E in Ht. by apply andb_true_iff in Ht as [?%negb_true_iff _]. }
    rewrite E in Ht |- *. apply andb_true_iff in Ht as [_ Ht]. cbn [result_bind fst snd].
    destruct (IH t' state' ltac:(lia) Hv2 HF Hq' Hl' Ht) as (r' & -> & Hr'). cbn [result_bind]. eexists. split; [done|]. cbn [rt_text].
    rewrite Eo, <- app_assoc. cbn [app]. rewrite split_inclusive_lf by done. constructor; [|done]. by apply same_ending_app.
Qed.

(** Redaction keeps the lines of a text: under every policy the redacted
    text has exactly as many lines, the last one ended or not as before, so the
    line numbers of a file read address the same lines. *)
Theorem lines_kept input policy :
  utf8_valid input = true -> Forall engine_facts (split_inclusive LF input) ->
  untangled policy (split_inclusive LF input) clean_state = true ->
  exists r, redact_lines input policy = Ok r /\
    Forall2 same_ending (split_inclusive LF input) (split_inclusive LF r.(rt_text)).
Proof. intros Hv Hf Ht. by apply (redact_all_lines policy (length input) input clean_state). Qed.
End Text.

(** ** Prefixes at character boundaries *)

Lemma boundary_app_l a b i : i < length a -> is_char_boundary (a ++ b) i = is_char_boundary a i.
Proof.
  intros H. unfold is_char_boundary. rewrite lookup_app_l by done. rewrite length_app.
  rewrite (bool_decide_eq_false_2 (i = length a + length b)) by lia. by rewrite (bool_decide_eq_false_2 (i = length a)) by lia.
Qed.
Lemma boundary_app_mid a b : head_whole b -> is_char_boundary (a ++ b) (length a) = true.
Proof. intros H. apply head_whole_boundary; [by rewrite drop_app_length|rewrite length_app; lia]. Qed.
Lemma boundary_app_r a b j : 0 < j -> is_char_boundary (a ++ b) (length a + j) = is_char_boundary b j.
Proof.
  intros H. unfold is_char_boundary. rewrite lookup_app_r by lia. replace (length a + j - length a) with j by lia. rewrite length_app.
  rewrite (bool_decide_eq_false_2 (length a + j = 0)), (bool_decide_eq_false_2 (j = 0)) by lia. cbn [orb].
  by rewrite (bool_decide_ext (length a + j = length a + length b) (j = length b)) by lia.
Qed.

Lemma floor_le text k : floor_boundary text k <= k.
Proof. induction k as [|k IH]; cbn [floor_boundary]; [lia|]. case_match; lia. Qed.
Lemma floor_app_l a b k : k < length a -> floor_boundary (a ++ b) k = floor_boundary a k.
Proof. induction k as [|k IH]; intros H; cbn [floor_boundary]; [done|]. rewrite boundary_app_l by done. by rewrite IH by lia. Qed.
Lemma floor_app_r a b k : head_whole b -> floor_boundary (a ++ b) (length a + k) = length a + floor_boundary b k.
Proof.
  intros Hb. induction k as [|k IH]; cbn [floor_boundary].
  - rewrite Nat.add_0_r. destruct (length a) as [|n] eqn:E; cbn [floor_boundary]; [done|]. by rewrite <- E, boundary_app_mid.
  - rewrite Nat.add_succ_r. cbn [floor_boundary]. rewrite <- Nat.add_succ_r, boundary_app_r by lia. case_match; [done|]. by rewrite IH.
Qed.

Lemma prefix_app_l a b m : m < length a -> utf8_prefix (a ++ b) m = utf8_prefix a m.
Proof.
  intros H. unfold utf8_prefix. rewrite length_app. replace (m `min` (length a + length b)) with m by lia. replace (m `min` length a) with m by lia.
  rewrite floor_app_l by done. apply take_app_le. pose proof (floor_le a m). lia.
Qed.
Lemma prefix_app_r a b m : head_whole b -> length a <= m -> utf8_prefix (a ++ b) m = a ++ utf8_prefix b (m - length a).
Proof.
  intros Hb H. unfold utf8_prefix. rewrite length_app.
  replace (m `min` (length a + length b)) with (length a + (m - length a) `min` length b) by lia. rewrite floor_app_r by done.
  by rewrite take_app_add.
Qed.
Lemma prefix_all t m : length t <= m -> utf8_prefix t m = t.
Proof.
  intros H. unfold utf8_prefix. replace (m `min` length t) with (length t) by lia. apply take_ge.
  destruct (length t) as [|n] eqn:E; cbn [floor_boundary]; [lia|]. rewrite <- E, boundary_len. lia.
Qed.
Lemma prefix_short t m : m < length t -> length (utf8_prefix t m) <= m /\ length (utf8_prefix t m) < length t.
Proof.
  intros H. unfold utf8_prefix. rewrite length_take. replace (m `min` length t) with m by lia. pose proof (floor_le t m). lia.
Qed.

(** ** The bounded loop *)

Section Bounded.
Context {patterns : Patterns} {base64 : Base64Engine} {entropy : Entropy}.
Variables (s : bytes) (max_bytes : nat).
Hypothesis Hvalid : utf8_valid s = true.

(** The accumulator for the text [t] pushed so far. *)
Definition pushed (t : bytes) (acc : bool * bytes * nat) : Prop :=
  acc.2 = length t /\
  (acc.1 = (true, t) /\ length t <= max_bytes \/ acc.1 = (false, utf8_prefix t max_bytes) /\ max_bytes < length t).

Lemma pushed_text t acc : pushed t acc -> acc.1.2 = utf8_prefix t max_bytes.
Proof. intros [_ [[-> H]|[-> _]]]; [by rewrite prefix_all|done]. Qed.

Lemma push_piece_ok t acc p : head_whole p -> pushed t acc -> pushed (t ++ p) (push_piece max_bytes acc p).
Proof.
  destruct acc as [[complete output] full]. intros Hp [Hf H]. cbn in Hf. subst full. unfold push_piece, pushed. rewrite length_app.
  destruct H as [[[= -> ->] Hl]|[[= -> ->] Hl]].
  - unfold push_bounded. cbn. split; [done|]. destruct (decide (length p <= max_bytes - length t)) as [Hle|Hgt].
    + left. rewrite prefix_all by done. rewrite Nat.eqb_refl. split; [done|lia].
    + right. destruct (prefix_short p (max_bytes - length t)) as [_ Hs]; [lia|]. rewrite (proj2 (Nat.eqb_neq _ _)) by lia. split; [|lia].
      by rewrite prefix_app_r.
  - cbn. split; [done|]. right. split; [by rewrite prefix_app_l|lia].
Qed.

Lemma slice_whole a b : is_char_boundary s a = true -> head_whole (take (b - a) (drop a s)).
Proof.
  intros H. destruct (b - a) as [|k]; [done|]. destruct (drop a s) as [|c r] eqn:E; [done|]. cbn [take head_whole].
  assert (Ec : s !! a = Some c) by (rewrite <- (Nat.add_0_r a), <- lookup_drop, E; done).
  unfold is_char_boundary in H. rewrite Ec in H. apply orb_true_iff in H as [H|H%negb_true_iff]; [|done].
  apply orb_true_iff in H as [H%bool_decide_eq_true|H%bool_decide_eq_true]; [|apply lookup_lt_Some in Ec; lia]. subst a.
  pose proof (valid_head _ Hvalid) as Hw. rewrite drop_0 in E. by rewrite E in Hw.
Qed.

Lemma marker_split kind : marker kind = lit "[REDACTED:" ++ lit kind ++ lit "]".
Proof. unfold marker. by rewrite !as_bytes_app. Qed.

Lemma bounded_spec F : forall cursor t acc n, ordered cursor (map bounds F) -> Forall (fun x => at_boundaries s (bounds x)) F ->
  Forall (fun x => head_whole (lit x.(sp_kind))) F -> cursor <= length s -> is_char_boundary s cursor = true -> pushed t acc ->
  let text := t ++ render s (pieces s cursor F) in
  bounded_spans s max_bytes cursor F acc n =
    Ok {| br_text := utf8_prefix text max_bytes; br_replacements := n + N.of_nat (length F); br_full_len := length text |}.
Proof.
  induction F as [|x F IH]; intros cursor t acc n; cbn [map ordered bounded_spans pieces].
  - intros _ _ _ Hc Hb Hacc. rewrite str_slice_ok by (done || apply boundary_len). cbn [result_bind].
    pose proof (push_piece_ok t acc _ (slice_whole cursor (length s) Hb) Hacc) as Hp. pose proof (pushed_text _ _ Hp) as Ht.
    destruct (push_piece max_bytes acc _) as [[complete output] full]. destruct Hp as [Hf _]. cbn in Ht, Hf. subst output full.
    unfold render. cbn [map concat piece_text]. rewrite app_nil_r. f_equal. f_equal. cbn. lia.
  - intros [H1 H2] [(B1 & B2 & B3 & B4) HF]%Forall_cons [Hk HK]%Forall_cons Hc Hb Hacc. cbn [bounds fst snd] in *.
    destruct (Nat.ltb_spec (sp_start x) cursor); [lia|]. rewrite str_slice_ok by (done || lia). cbn [result_bind foldl].
    set (p := take (sp_start x - cursor) (drop cursor s)).
    rewrite (IH _ (t ++ p ++ marker x.(sp_kind))); [|done|done|done|done|done|].
    + unfold render. cbn [map concat piece_text length]. fold p. rewrite <- !app_assoc. f_equal. f_equal. lia.
    + rewrite marker_split, !app_assoc. repeat apply push_piece_ok; [done|done|done|by apply slice_whole|done].
Qed.
End Bounded.

(** ** Kinds *)

Section Kinds.
Context {patterns : Patterns} {base64 : Base64Engine} {entropy : Entropy}.
Variable s : bytes.
Hypothesis Hvalid : utf8_valid s = true.

Definition plain_kind (x : Span) : Prop := utf8_valid (lit x.(sp_kind)) = true.

Lemma candidates_kind policy found : forall l l', Forall plain_kind l -> add_candidates s policy l found = Ok l' -> Forall plain_kind l'.
Proof.
  induction found as [|f found IH]; intros l l' Hl; cbn [add_candidates]; [by intros [= <-]|]. case_match; [by apply IH|].
  intros E. apply result_bind_ok in E as (public & _ & E). destruct public; [by eapply IH|]. eapply IH; [|exact E].
  apply Forall_app. split; [done|]. by constructor.
Qed.
Lemma split_kind l : forall F, Forall plain_kind l -> split_secrets s l = Ok F -> Forall plain_kind F.
Proof.
  induction l as [|x l IH]; intros F; cbn [split_secrets]; [by intros _ [= <-]|]. intros [Hx Hl]%Forall_cons E.
  apply result_bind_ok in E as (own & Eo & E). apply result_bind_ok in E as (rest & Er & [= <-]). apply Forall_app. split; [|by apply IH].
  destruct (of_kind _ _); [|injection Eo as <-; by constructor]. unfold push_secret_lines in Eo. apply result_bind_ok in Eo as (t & _ & [= <-]).
  eapply Forall_impl; [apply line_spans_kind|]. unfold plain_kind. by intros y ->.
Qed.

Lemma spans_kind policy q F q' : engine_facts s -> quote_ok q -> redaction_spans s policy q = Ok (F, q') -> Forall plain_kind F.
Proof.
  intros Hf Hq E. unfold redaction_spans in E. apply result_bind_ok in E as ([l q1] & El & E). apply result_bind_ok in E as (l1 & E1 & E).
  apply result_bind_ok in E as (F' & EF & [= <- _]). cbn [fst snd] in *.
  assert (Hl : Forall plain_kind l).
  { assert (Hkn : forall acc found, Forall plain_kind acc -> Forall plain_kind (foldl (add_known s) acc found)).
    { intros acc found. eapply (foldl_forall _ (fun _ => True)); [|by apply Forall_forall]. intros k f Hk _. unfold add_known. destruct (existsb _ _); [done|].
      apply Forall_app. split; [done|]. constructor; [|done]. unfold plain_kind, known_kind. cbn [sp_kind]. clear E1. repeat case_match; done. }
    assert (H0 : Forall plain_kind (map (fun f => mkSpan f.1 f.2 "private_key") (private_key_regex s))) by (apply Forall_map, Forall_forall; intros f _; exact eq_refl).
    unfold context_spans in El. case_bool_decide; [injection El as <- _; by apply Hkn|].
    destruct (assignments_spec s Hvalid q Hf Hq) as (A & q2 & EA & _ & HA & _). rewrite EA in El. injection El as <- _.
    eapply (foldl_forall _ (secret_span s)); [|done|].
    { intros k x Hk (_ & _ & Hx). unfold add_assignment. do 2 (destruct (existsb _ _); [done|]). apply retain_forall; [done|]. unfold plain_kind. by rewrite Hx. }
    eapply (foldl_forall _ (fun _ => True)); [|by apply Forall_forall|by apply Hkn].
    intros k x Hk _. unfold add_password. do 2 (destruct (existsb _ _); [done|]). by apply retain_forall. }
  apply (candidates_kind _ _ _ _ Hl) in E1. eapply split_kind; [|exact EF].
  assert (Hm : Forall plain_kind (foldl (add_material s policy) l1 (private_key_material_regex s))).
  { eapply (foldl_forall _ (fun _ => True)); [|by apply Forall_forall|done]. intros k f Hk _. unfold add_material.
    destruct (existsb _ _ || _ || _); [done|]. apply Forall_app. split; [done|]. by constructor. }
  assert (Hperm : forall l acc, foldl (fun acc x => insert_span x acc) acc l ≡ₚ acc ++ l).
  { induction l0 as [|x l0 IH]; intros acc; cbn; [by rewrite app_nil_r|]. rewrite IH, insert_perm. apply Permutation_middle. }
  unfold sort_spans. by rewrite Hperm.
Qed.

(** The bounded preview is the prefix of the full one.  It is computed
    without building the redacted text, and for every limit it is the longest
    prefix of that text within the limit that does not cut a character, with the
    same number of replacements and the length of the whole. *)
Theorem bounded_is_prefix max_bytes :
  engine_facts s ->
  exists full q', redact_with_state s StandardPolicy no_quote = Ok (full, q') /\
    redact_text_bounded s max_bytes =
      Ok {| br_text := utf8_prefix full.(rt_text) max_bytes; br_replacements := full.(rt_replacements);
            br_full_len := length full.(rt_text) |}.
Proof.
  intros Hf. destruct (context_total s Hvalid StandardPolicy no_quote Hf I) as (l & q' & El & _).
  destruct (with_state_spec s Hvalid StandardPolicy no_quote l q' Hf I El) as (F & E & ES & O & B & _). eexists _, _. split; [exact E|].
  unfold redact_text_bounded. rewrite ES. cbn [result_bind fst snd rt_text rt_replacements]. case_bool_decide as EF.
  - subst F. unfold render. cbn [pieces map concat piece_text]. rewrite Nat.sub_0_r, drop_0, firstn_all, app_nil_r. done.
  - by rewrite (bounded_spec s max_bytes Hvalid F 0 [] (true, [], 0) 0 O B (Forall_impl _ _ _ (spans_kind StandardPolicy no_quote F _ Hf I ES) (fun x => valid_head _)) (Nat.le_0_l _) (boundary_0 s)) by (split; [done|left; split; [done|cbn; lia]]).
Qed.
End Kinds.

(** ** Text stays text *)

Lemma valid_app a b : utf8_valid a = true -> utf8_valid b = true -> utf8_valid (a ++ b) = true.
Proof.
  assert (H : forall n a, length a <= n -> utf8_valid a = true -> utf8_valid b = true -> utf8_valid (a ++ b) = true); [|by apply (H (length a))].
  clear a. induction n as [|n IH]; intros a Hl Ha Hb; destruct a as [|c0 a0]; cbn [length app] in *; try done; [lia|]. cbn [utf8_valid] in *.
  destruct (in_range 0 127 c0); [apply IH; (lia || done)|]. destruct (in_range 194 223 c0).
  { destruct a0 as [|c1 a1]; [done|]. cbn [app length] in *. apply andb_true_iff in Ha as [-> Ha]. apply IH; (lia || done). }
  destruct (in_range 224 239 c0).
  { destruct a0 as [|c1 [|c2 a2]]; [done..|]. cbn [app length] in *. apply andb_true_iff in Ha as [-> Ha]. apply IH; (lia || done). }
  destruct (in_range 240 244 c0); [|done]. destruct a0 as [|c1 [|c2 [|c3 a3]]]; [done..|]. cbn [app length] in *.
  apply andb_true_iff in Ha as [-> Ha]. apply IH; (lia || done).
Qed.

(** Cutting where no continuation byte stands leaves two strings. *)
Lemma valid_cut : forall n s i, length s <= n -> utf8_valid s = true -> head_whole (drop i s) ->
  utf8_valid (take i s) = true /\ utf8_valid (drop i s) = true.
Proof.
  assert (Hc : forall lo hi c, in_range lo hi c = true -> (128 <= lo)%N -> (hi <= 191)%N -> is_continuation c = true).
  { intros lo hi c [H1%N.leb_le H2%N.leb_le]%andb_true_iff ? ?. unfold is_continuation. apply andb_true_iff. rewrite !N.leb_le. lia. }
  induction n as [|n IH]; intros s i Hl Hv Hw; destruct s as [|c0 s0]; cbn [length] in Hl; try lia; [by destruct i..|].
  destruct i as [|i]; [done|]. cbn [drop take utf8_valid] in *. destruct (in_range 0 127 c0); [apply IH; (lia || done)|].
  destruct (in_range 194 223 c0).
  { destruct s0 as [|c1 s1]; [done|]. apply andb_true_iff in Hv as [R1 Hv]. destruct i as [|i]; cbn [drop take head_whole length] in *.
    { rewrite (Hc _ _ _ R1) in Hw by lia. done. } rewrite R1. cbn [andb]. apply IH; (lia || done). }
  destruct (in_range 224 239 c0).
  { destruct s0 as [|c1 [|c2 s2]]; [done..|]. apply andb_true_iff in Hv as [[R1 R2]%andb_true_iff Hv].
    destruct i as [|[|i]]; cbn [drop take head_whole length] in *.
    - rewrite (Hc _ _ _ R1) in Hw by (clear; repeat case_match; lia). done.
    - rewrite (Hc _ _ _ R2) in Hw by lia. done.
    - rewrite R1, R2. cbn [andb]. apply IH; (lia || done). }
  destruct (in_range 240 244 c0); [|done]. destruct s0 as [|c1 [|c2 [|c3 s3]]]; [done..|].
  apply andb_true_iff in Hv as [[[R1 R2]%andb_true_iff R3]%andb_true_iff Hv]. destruct i as [|[|[|i]]]; cbn [drop take head_whole length] in *.
  - rewrite (Hc _ _ _ R1) in Hw by (clear; repeat case_match; lia). done.
  - rewrite (Hc _ _ _ R2) in Hw by lia. done.
  - rewrite (Hc _ _ _ R3) in Hw by lia. done.
  - rewrite R1, R2, R3. cbn [andb]. apply IH; (lia || done).
Qed.

Lemma boundary_whole s i : utf8_valid s = true -> is_char_boundary s i = true -> head_whole (drop i s).
Proof.
  intros Hv H. pose proof (slice_whole s Hv i (S i + length s) H) as Hw. by rewrite take_ge in Hw by (rewrite length_drop; lia).
Qed.
Lemma valid_slice s a b : utf8_valid s = true -> at_boundaries s (a, b) -> utf8_valid (take (b - a) (drop a s)) = true.
Proof.
  intros Hv (H1 & H2 & H3 & H4). cbn in *. destruct (valid_cut _ s a (Nat.le_refl _) Hv (boundary_whole _ _ Hv H3)) as [_ Hd].
  destruct (valid_cut _ (drop a s) (b - a) (Nat.le_refl _) Hd) as [Ht _]; [|done]. rewrite drop_drop. replace (a + (b - a)) with b by lia.
  by apply boundary_whole.
Qed.

Section Typed.
Context {patterns : Patterns} {base64 : Base64Engine} {entropy : Entropy}.

Lemma marker_valid kind : utf8_valid (lit kind) = true -> utf8_valid (marker kind) = true.
Proof. intros H. rewrite marker_split. apply valid_app; [done|]. by apply valid_app. Qed.

Lemma render_valid s F : utf8_valid s = true -> forall cursor, ordered cursor (map bounds F) -> Forall (fun x => at_boundaries s (bounds x)) F ->
  Forall (fun x => utf8_valid (lit x.(sp_kind)) = true) F -> cursor <= length s -> is_char_boundary s cursor = true ->
  utf8_valid (render s (pieces s cursor F)) = true.
Proof.
  intros Hv. induction F as [|x F IH]; intros cursor; cbn [map ordered pieces]; unfold render; cbn [map concat piece_text].
  - intros _ _ _ Hc Hb. rewrite app_nil_r. apply valid_slice; [done|]. split; cbn; [done|]. split; [done|]. split; [done|apply boundary_len].
  - intros [H1 H2] [(B1 & B2 & B3 & B4) HF]%Forall_cons [Hk HK]%Forall_cons Hc Hb. cbn [bounds fst snd] in *.
    apply valid_app; [apply valid_slice; [done|]; split; cbn; [done|]; split; [lia|done]|]. apply valid_app; [by apply marker_valid|]. by apply IH.
Qed.

(** C36: The redactor is well typed as Rust sees it: on a line of text, for every
    policy and every state of the stream, no slice is cut inside a character
    (it returns, it does not panic), the result is valid UTF-8, and the state
    it leaves is again one. *)
Theorem redact_line_typed line state policy :
  utf8_valid line = true -> engine_facts line -> quote_ok state.(quoted) ->
  exists r state', redact_line line state policy = Ok (r, state') /\ utf8_valid r.(rt_text) = true /\ quote_ok state'.(quoted).
Proof.
  intros Hv Hf Hq. destruct (context_total line Hv policy _ Hf Hq) as (l & q' & El & _ & Hq').
  destruct (with_state_spec line Hv policy _ l q' Hf Hq El) as (F & E & ES & O & B & _). unfold redact_line. rewrite E. cbn [result_bind fst snd].
  destruct (_ || _); eexists _, _; (split; [done|]); (split; [|done]); cbn [rt_text].
  - by destruct (bytes_ends_with [LF] line).
  - apply render_valid; [done|done|done|exact (spans_kind line Hv policy _ F q' Hf Hq ES)|lia|done].
Qed.
End Typed.
