(* ===== verification/RedactSample.v ===== *)
(** * A reference engine for the patterns of redact.rs

    The theorems on redaction hold for every regular-expression engine.  To run
    the code on concrete text, this file instantiates the parameters: a
    backtracking matcher with the documented leftmost-first semantics of the
    regex crate, on ASCII classes, the eight patterns of the source, a strict
    base64 decoder, and the entropy bound in exact integer arithmetic. *)

From S2P Require Import Prelude RustStr ByteBuf RpcBase64 Redact.

Local Open Scope string_scope.

(** ** Matching *)

Inductive re :=
  | Eps
  | Class (p : ascii -> bool)
  | Cat (a b : re)
  | Alt (a b : re)
  | Rep (least : nat) (most : option nat) (greedy : bool) (a : re)
  | Group (a : re)
  | WordBoundary | LineStart | LineEnd | TextEnd.

Record cursor := mkCursor { cu_prev : option ascii; cu_pos : nat; cu_rest : bytes; cu_group : nat * nat }.

Definition is_word (c : ascii) : bool := is_ascii_alphanumeric c || Ascii.eqb c "_".
Definition word_at (c : option ascii) : bool := match c with Some c => is_word c | None => false end.
Definition newline_at (c : option ascii) : bool := match c with Some c => Ascii.eqb c LF | None => true end.

Definition guard (b : bool) (k : cursor -> option cursor) (c : cursor) : option cursor := if b then k c else None.

(** The match of [r] followed by [k], preferring the first alternative. *)
Fixpoint run (r : re) (k : cursor -> option cursor) (c : cursor) : option cursor :=
  match r with
  | Eps => k c
  | Class p =>
      match c.(cu_rest) with
      | x :: rest => if p x then k (mkCursor (Some x) (S c.(cu_pos)) rest c.(cu_group)) else None
      | [] => None
      end
  | Cat a b => run a (run b k) c
  | Alt a b => match run a k c with Some r => Some r | None => run b k c end
  | Rep least most greedy a =>
      (fix loop (fuel n : nat) (c : cursor) : option cursor :=
         match fuel with
         | 0 => None
         | S fuel =>
             let stop (_ : unit) := if (least <=? n)%nat then k c else None in
             let more (_ : unit) :=
               if match most with Some m => (m <=? n)%nat | None => false end then None
               else run a (fun c' => if Nat.eqb c'.(cu_pos) c.(cu_pos) then None else loop fuel (S n) c') c in
             if greedy then match more tt with Some r => Some r | None => stop tt end
             else match stop tt with Some r => Some r | None => more tt end
         end) (S (length c.(cu_rest))) 0 c
  | Group a => run a (fun c' => k (mkCursor c'.(cu_prev) c'.(cu_pos) c'.(cu_rest) (c.(cu_pos), c'.(cu_pos)))) c
  | WordBoundary => guard (xorb (word_at c.(cu_prev)) (word_at (head c.(cu_rest)))) k c
  | LineStart => guard (newline_at c.(cu_prev)) k c
  | LineEnd => guard (newline_at (head c.(cu_rest))) k c
  | TextEnd => guard (bool_decide (c.(cu_rest) = [])) k c
  end.

(** All matches from left to right: bounds, and bounds of the group. *)
Fixpoint find_all (fuel : nat) (r : re) (c : cursor) : list ((nat * nat) * (nat * nat)) :=
  match fuel with
  | 0 => []
  | S fuel =>
      match run r Some c with
      | Some e => ((c.(cu_pos), e.(cu_pos)), e.(cu_group)) :: find_all fuel r e
      | None =>
          match c.(cu_rest) with
          | [] => []
          | x :: rest => find_all fuel r (mkCursor (Some x) (S c.(cu_pos)) rest (0, 0))
          end
      end
  end.
Definition find_iter (r : re) (s : bytes) : list (nat * nat) :=
  map fst (find_all (S (length s)) r (mkCursor None 0 s (0, 0))).
Definition captures_iter (r : re) (s : bytes) : list (nat * nat) :=
  map snd (find_all (S (length s)) r (mkCursor None 0 s (0, 0))).

(** ** The patterns *)

Fixpoint cat (l : list re) : re := match l with [] => Eps | [r] => r | r :: l => Cat r (cat l) end.
Fixpoint alt (l : list re) : re := match l with [] => Class (fun _ => false) | [r] => r | r :: l => Alt r (alt l) end.
Definition word (s : string) : re := cat (map (fun c => Class (Ascii.eqb c)) (lit s)).
(** Without case. *)
Definition iword (s : string) : re := cat (map (fun c => Class (fun d => Ascii.eqb (ascii_lower c) (ascii_lower d))) (lit s)).
Definition star (p : ascii -> bool) : re := Rep 0 None true (Class p).
Definition plus (p : ascii -> bool) : re := Rep 1 None true (Class p).
Definition at_least (n : nat) (p : ascii -> bool) : re := Rep n None true (Class p).
Definition times (n : nat) (p : ascii -> bool) : re := Rep n (Some n) true (Class p).
Definition opt (r : re) : re := Rep 0 (Some 1) true r.

Definition space_byte (c : ascii) : bool := in_range 9 13 c || Ascii.eqb c " ".
Definition token (extra : string) (c : ascii) : bool := is_ascii_alphanumeric c || one_of extra c.
Definition upper_digit (extra : string) (c : ascii) : bool := is_ascii_uppercase c || is_ascii_digit c || one_of extra c.
Definition QUOTES : string := String DQUOTE "'".

Definition private_key_re : re :=
  cat [word "-----BEGIN "; star (upper_digit " "); word "PRIVATE KEY-----"; Rep 0 None false (Class (fun _ => true));
       alt [cat [word "-----END "; star (upper_digit " "); word "PRIVATE KEY-----"]; TextEnd]].
Definition jwt_re : re :=
  cat [word "eyJ"; at_least 8 (token "_-"); word "."; at_least 8 (token "_-"); word "."; at_least 8 (token "_-")].
Definition known_re : re :=
  alt [cat [word "AKIA"; times 16 (upper_digit "")]; cat [word "sk-"; at_least 16 (token "_-")];
       cat [word "ghp_"; at_least 20 (token "")]; cat [word "xoxb-"; at_least 10 (token "-")]; jwt_re].
Definition extended_re : re :=
  alt [cat [alt [word "AKIA"; word "ASIA"]; times 16 (upper_digit "")]; cat [word "sk-"; at_least 16 (token "_-")];
       cat [alt [word "ghp_"; word "github_pat_"]; at_least 20 (token "_")];
       cat [word "xox"; plus is_ascii_lowercase; word "-"; at_least 10 (token "-")]; jwt_re].
Definition dash : re := opt (Class (one_of "_-")).
Definition bearer : re := alt [iword "Bearer"; iword "Basic"].
Definition value_byte (c : ascii) : bool := negb (space_byte c || one_of QUOTES c || one_of ",;" c).
Definition secret_name : re :=
  alt [iword "password"; iword "passwd"; iword "secret"; cat [iword "client"; dash; iword "secret"];
       cat [iword "private"; dash; iword "key"]; iword "credentials";
       cat [opt (word "_"); iword "auth"; opt (cat [dash; iword "token"])]; cat [iword "api"; dash; iword "key"];
       cat [iword "access"; dash; iword "key"]; cat [iword "access"; dash; iword "token"];
       cat [iword "refresh"; dash; iword "token"]; iword "token"; iword "authorization"].
Definition assignment_re : re :=
  cat [alt [cat [WordBoundary;
                 Rep 0 None true (cat [Class is_ascii_alphabetic; star is_ascii_alphanumeric; Class (one_of "_-")]);
                 secret_name; WordBoundary; opt (Class (one_of QUOTES)); star space_byte; Class (one_of ":="); star space_byte];
            cat [WordBoundary; bearer; plus space_byte]];
       Group (alt [Class (one_of QUOTES); cat [bearer; plus space_byte; plus value_byte]; plus value_byte])].
Definition user_byte (extra : string) (c : ascii) : bool := negb (space_byte c || Ascii.eqb c DQUOTE || one_of extra c).
Definition url_re : re :=
  cat [WordBoundary; Class is_ascii_alphabetic; star (token "+.-"); word "://"; plus (user_byte ":/?#@<>"); word ":";
       Group (star (user_byte "/?#@<>")); word "@"].
Definition entropy_re : re := at_least 32 (token "_+/=-").
Definition identifier_re : re := cat [at_least 26 (token "_+/.\:~-"); Rep 0 (Some 2) true (word "=")].
Definition blank (c : ascii) : bool := Ascii.eqb c " " || Ascii.eqb c (ascii_of_nat 9).
Definition material_re : re :=
  cat [LineStart; star blank; at_least 16 (token "+/"); Rep 0 (Some 2) true (word "="); star blank; LineEnd].

#[export] Instance sample_patterns : Patterns := {
  private_key_regex := find_iter private_key_re;
  known_secret_regex := find_iter known_re;
  extended_secret_regex := find_iter extended_re;
  secret_assignment_regex := captures_iter assignment_re;
  url_userinfo_regex := captures_iter url_re;
  entropy_candidate_regex := find_iter entropy_re;
  identifier_candidate_regex := find_iter identifier_re;
  private_key_material_regex := find_iter material_re
}.

(** ** Base64 and entropy *)

Definition sextet (url : bool) (c : ascii) : option N :=
  if url then (if Ascii.eqb c "-" then Some 62 else if Ascii.eqb c "_" then Some 63 else if one_of "+/" c then None else standard_base64_value c)%N
  else standard_base64_value c.

Fixpoint from_sextets (l : list N) : option bytes :=
  match l with
  | [] => Some []
  | [a; b] => if (N.land b 15 =? 0)%N then Some [ascii_of_N (a * 4 + b / 16)] else None
  | [a; b; c] =>
      if (N.land c 3 =? 0)%N then Some [ascii_of_N (a * 4 + b / 16); ascii_of_N (b mod 16 * 16 + c / 4)] else None
  | a :: b :: c :: d :: l =>
      rest ← from_sextets l;
      Some (ascii_of_N (a * 4 + b / 16) :: ascii_of_N (b mod 16 * 16 + c / 4) :: ascii_of_N (c mod 4 * 64 + d) :: rest)
  | _ => None
  end%N.

#[export] Instance sample_base64 : Base64Engine := fun kind s =>
  let digits := trim_end_bytes (Ascii.eqb "=") s in
  let pad := (length s - length digits)%nat in
  if match kind with
     | STANDARD => Nat.eqb (length s mod 4) 0 && (pad <=? 2)%nat
     | _ => Nat.eqb pad 0
     end
  then sextets ← mapM (sextet (match kind with URL_SAFE_NO_PAD => true | _ => false end)) digits; from_sextets sextets
  else None.

(** [H >= 7/2] with [n H = n log2 n - sum c log2 c]. *)
#[export] Instance sample_entropy : Entropy := fun counts n =>
  (2 ^ (7 * n) * foldr (fun c acc => c ^ (2 * c) * acc) 1 counts <=? n ^ (2 * n))%N.

(** ** The examples of the source's tests *)

Definition shown (s : string) : string :=
  match redact_output_text (lit s) with Ok t => as_str t | Err _ => "panic" end.
Definition NL : string := String LF "".
