(* ===== verification/OutputRedactor.v ===== *)
(** * Streaming redaction (haider-tools output_redactor.rs, tasks.rs, shell.rs)

    Process output arrives in chunks cut anywhere.  [OutputRedactor] holds back
    incomplete lines, classifies whole ones and discards lines over the limit;
    [TaskProgressLine] keeps the last line of a task for display.  The theorem:
    where the reads were cut does not matter. *)

From S2P Require Import Prelude RustStr ByteBuf Redact RedactProps.

Local Open Scope string_scope.

(** ** Lossy decoding *)

(** The first character of the bytes: whether it is well formed, and the length
    of it or of the longest ill-formed start. *)
Definition utf8_step (b : bytes) : bool * nat :=
  match b with
  | [] => (true, 0%nat)
  | c0 :: b =>
      let cont (lo hi : N) (i : nat) := match b !! i with Some c => in_range lo hi c | None => false end in
      if in_range 0 127 c0 then (true, 1%nat)
      else if in_range 194 223 c0 then (if cont 128 191 0%nat then (true, 2%nat) else (false, 1%nat))
      else if in_range 224 239 c0 then
        if negb (cont (if in_range 224 224 c0 then 160 else 128) (if in_range 237 237 c0 then 159 else 191) 0%nat) then (false, 1%nat)
        else if cont 128 191 1%nat then (true, 3%nat) else (false, 2%nat)
      else if in_range 240 244 c0 then
        if negb (cont (if in_range 240 240 c0 then 144 else 128) (if in_range 244 244 c0 then 143 else 191) 0%nat) then (false, 1%nat)
        else if negb (cont 128 191 1%nat) then (false, 2%nat)
        else if cont 128 191 2%nat then (true, 4%nat) else (false, 3%nat)
      else (false, 1%nat)
  end%N.

Definition REPLACEMENT : bytes := map ascii_of_N [239; 191; 189]%N.

Fixpoint lossy (fuel : nat) (b : bytes) : bytes :=
  match fuel, b with
  | 0%nat, _ | _, [] => []
  | S fuel, _ => let '(ok, n) := utf8_step b in (if ok then take n b else REPLACEMENT) ++ lossy fuel (drop n b)
  end%list.
(** [String::from_utf8_lossy]. *)
Definition from_utf8_lossy (b : bytes) : bytes := lossy (length b) b.

(** [token_config_contains_secret] of redact.rs. *)
Definition token_config_contains_secret (b : bytes) : bool :=
  existsb (fun line =>
    let compact := lit (trim line) in
    negb (bytes_starts_with (lit "#") compact)
    && existsb (fun name => bytes_contains (lit name) compact) ["token"; "password"; "passwd"; "secret"; "auth"; "apikey"; "api_key"]
    && (bytes_contains (lit "=") compact || bytes_contains (lit ":") compact))
    (lines (as_str (map ascii_lower (from_utf8_lossy b)))).

(** ** Escape sequences *)

Definition ESC : ascii := ascii_of_nat 27.
Definition BEL : ascii := ascii_of_nat 7.

Inductive AnsiMode := Normal | Escape | Csi | Osc.

Fixpoint strip_loop (mode : AnsiMode) (input : bytes) : bytes :=
  match input with
  | [] => []
  | byte :: input =>
      match mode with
      | Normal => if Ascii.eqb byte ESC then strip_loop Escape input else byte :: strip_loop Normal input
      | Escape => if Ascii.eqb byte "[" then strip_loop Csi input
                  else if Ascii.eqb byte "]" then strip_loop Osc input else strip_loop Normal input
      | Csi => if in_range 64 126 byte then strip_loop Normal input else strip_loop Csi input
      | Osc => if Ascii.eqb byte BEL then strip_loop Normal input
               else match input with
                    | next :: rest =>
                        if Ascii.eqb byte ESC && Ascii.eqb next "\" then strip_loop Normal rest else strip_loop Osc input
                    | [] => []
                    end
      end
  end.
Definition strip_ansi (input : bytes) : bytes := from_utf8_lossy (strip_loop Normal input).

(** ** Output *)

Definition PROCESS_MAX_OUTPUT_BYTES : N := 2097152.

Record OutputRedactor := mkRedactor { or_pending : bytes; or_state : RedactionState; or_discarding : bool }.
Definition new_redactor : OutputRedactor := mkRedactor [] clean_state false.

Section Redactor.
Context {patterns : Patterns} {base64 : Base64Engine} {entropy : Entropy}.

Definition finish_bytes (self : OutputRedactor) : result (bytes * OutputRedactor) Stuck :=
  let bytes := self.(or_pending) in
  if bool_decide (bytes = []) then Ok ([], self)
  else
    let line := from_utf8_lossy bytes in
    let '(text, newline) := match bytes_strip_suffix [LF] line with Some text => (text, [LF]) | None => (line, []) end in
    let plain := strip_ansi text in
    let classified :=
      if bytes_contains (lit "PRIVATE KEY-----") text && (bytes_contains (lit "-----BEGIN") text || bytes_contains (lit "-----END") text)
      then text else plain in
    (let? redacted := redact_line_with_state (classified ++ newline)%list self.(or_state) in
     Ok (if (redacted.1.(rt_replacements) =? 0)%N && bool_decide (plain = text) then bytes else strip_ansi redacted.1.(rt_text),
         mkRedactor [] redacted.2 self.(or_discarding)))%res.

(** One segment of [push_bytes]. *)
Definition push_segment (segment : bytes) (self : OutputRedactor) : result (bytes * OutputRedactor) Stuck :=
  let ends := bytes_ends_with [LF] segment in
  (let? held :=
     if self.(or_discarding) then Ok ([], self)
     else if (PROCESS_MAX_OUTPUT_BYTES <? blen self.(or_pending) + blen segment)%N then
       let? remaining := sub_usize (N.to_nat PROCESS_MAX_OUTPUT_BYTES) (length self.(or_pending)) in
       let? prefix := slice segment 0 remaining in
       let? finished := finish_bytes (mkRedactor (self.(or_pending) ++ prefix)%list self.(or_state) self.(or_discarding)) in
       Ok (lit "[REDACTED:oversized_output_line]" ++ [LF],
           mkRedactor finished.2.(or_pending) (discard_oversized_line finished.2.(or_state)) true)%list
     else Ok ([], mkRedactor (self.(or_pending) ++ segment)%list self.(or_state) self.(or_discarding)) in
   if ends then
     let? done := if held.2.(or_discarding) then Ok ([], held.2) else finish_bytes held.2 in
     Ok (held.1 ++ done.1, mkRedactor done.2.(or_pending) done.2.(or_state) false)%list
   else Ok held)%res.

Fixpoint push_segments (segments : list bytes) (self : OutputRedactor) : result (bytes * OutputRedactor) Stuck :=
  match segments with
  | [] => Ok ([], self)
  | segment :: segments =>
      (let? first := push_segment segment self in
       let? rest := push_segments segments first.2 in
       Ok (first.1 ++ rest.1, rest.2)%list)%res
  end.
Definition push_bytes (input : bytes) (self : OutputRedactor) : result (bytes * OutputRedactor) Stuck :=
  push_segments (split_inclusive LF input) self.

(** A reader: push each chunk, then finish. *)
Fixpoint push_chunks (chunks : list bytes) (self : OutputRedactor) : result (bytes * OutputRedactor) Stuck :=
  match chunks with
  | [] => Ok ([], self)
  | chunk :: chunks =>
      (let? first := push_bytes chunk self in
       let? rest := push_chunks chunks first.2 in
       Ok (first.1 ++ rest.1, rest.2)%list)%res
  end.
Definition redact_stream (chunks : list bytes) : result bytes Stuck :=
  (let? pushed := push_chunks chunks new_redactor in
   let? last := finish_bytes pushed.2 in
   Ok (pushed.1 ++ last.1)%list)%res.

(** ** Task progress *)

Record TaskProgressLine := mkProgress {
  tp_pending : bytes;
  tp_overflow : bool;
  tp_raw_state : RedactionState;
  tp_state : RedactionState;
  tp_last : option bytes
}.
Definition new_progress : TaskProgressLine := mkProgress [] false clean_state clean_state None.

(** [chars().filter(|c| !c.is_control())]: C0, DEL and C1. *)
Fixpoint drop_controls (fuel : nat) (b : bytes) : bytes :=
  match fuel, b with
  | 0%nat, _ | _, [] => []
  | S fuel, c :: _ =>
      let n := (utf8_step b).2 in
      let control := in_range 0 31 c || in_range 127 127 c
                     || in_range 194 194 c && match b !! 1%nat with Some d => in_range 128 159 d | None => false end in
      (if control then [] else take n b) ++ drop_controls fuel (drop n b)
  end%list.

(** The safe form of a completed line. *)
Definition safe_line (self : TaskProgressLine) : result (bytes * RedactionState * RedactionState) Stuck :=
  let raw := from_utf8_lossy self.(tp_pending) in
  (let? raw_safe := redact_line_with_state raw self.(tp_raw_state) in
   let stripped := strip_ansi raw in
   let line := drop_controls (length stripped) stripped in
   let? normalized := redact_line_with_state line self.(tp_state) in
   let safe :=
     if (raw_safe.1.(rt_replacements) =? 0)%N then normalized.1.(rt_text)
     else if bool_decide (raw_safe.1.(rt_text) = lit "[REDACTED:private_key]") then raw_safe.1.(rt_text)
     else lit "[REDACTED:task_line]" in
   Ok (utf8_prefix safe 256, raw_safe.2, normalized.2))%res.

Definition append_byte (byte : ascii) (self : TaskProgressLine) : result (bool * TaskProgressLine) Stuck :=
  if Ascii.eqb byte LF then
    if self.(tp_overflow)
    then Ok (true, mkProgress [] false (discard_oversized_line self.(tp_raw_state)) (discard_oversized_line self.(tp_state)) None)
    else (let? safe := safe_line self in Ok (true, mkProgress [] false safe.1.2 safe.2 (Some safe.1.1)))%res
  else if (blen self.(tp_pending) <? 4096)%N
  then Ok (false, mkProgress (self.(tp_pending) ++ [byte])%list self.(tp_overflow) self.(tp_raw_state) self.(tp_state) self.(tp_last))
  else Ok (false, mkProgress self.(tp_pending) true self.(tp_raw_state) self.(tp_state) self.(tp_last)).

Fixpoint progress_append (input : bytes) (self : TaskProgressLine) : result (bool * TaskProgressLine) Stuck :=
  match input with
  | [] => Ok (false, self)
  | byte :: input =>
      (let? first := append_byte byte self in
       let? rest := progress_append input first.2 in
       Ok (first.1 || rest.1, rest.2))%res
  end.
End Redactor.

(** ** Reads may be cut anywhere *)

Local Close Scope string_scope.
Local Open Scope nat_scope.

Lemma result_bind_assoc {A B C E} (m : result A E) (f : A -> result B E) (g : B -> result C E) :
  result_bind (result_bind m f) g = result_bind m (fun x => result_bind (f x) g).
Proof. by destruct m. Qed.
Lemma result_bind_ext {A B E} (m : result A E) (f g : A -> result B E) : (forall x, m = Ok x -> f x = g x) -> result_bind m f = result_bind m g.
Proof. destruct m; cbn; [intros H; by apply H|done]. Qed.

Lemma split_inclusive_app a t : split_inclusive LF (a ++ LF :: t) = (split_inclusive LF (a ++ [LF]) ++ split_inclusive LF t)%list.
Proof.
  induction a as [|c a IH]; cbn [app split_inclusive]; [by rewrite Ascii.eqb_refl|]. destruct (Ascii.eqb c LF); [by rewrite IH|].
  rewrite IH. destruct (split_inclusive LF (a ++ [LF])) as [|p ps] eqn:E; [|done].
  exfalso. clear IH. destruct a as [|d a]; cbn in E; [done|]. destruct (Ascii.eqb d LF); [done|]. by destruct (split_inclusive LF (a ++ [LF])).
Qed.

Section Chunks.
Context {patterns : Patterns} {base64 : Base64Engine} {entropy : Entropy}.

Definition held_ok (self : OutputRedactor) : Prop := (blen self.(or_pending) <= PROCESS_MAX_OUTPUT_BYTES)%N.

Lemma finish_clears self out self' : finish_bytes self = Ok (out, self') ->
  self'.(or_pending) = [] /\ self'.(or_discarding) = self.(or_discarding).
Proof.
  unfold finish_bytes. case_bool_decide as E; [by intros [= <- <-]|]. destruct (match bytes_strip_suffix _ _ with Some _ => _ | None => _ end) as [text newline].
  intros H. apply result_bind_ok in H as (r & _ & [= <- <-]). done.
Qed.

Lemma push_segment_ok segment self out self' : held_ok self -> push_segment segment self = Ok (out, self') -> held_ok self'.
Proof.
  intros Hs. unfold push_segment. intros E. apply result_bind_ok in E as ([o1 s1] & E1 & E).
  assert (H1 : held_ok s1).
  { destruct (or_discarding self); [by injection E1 as _ <-|]. destruct (_ <? _)%N eqn:El in E1.
    - apply result_bind_ok in E1 as (rem & _ & E1). apply result_bind_ok in E1 as (p & _ & E1). apply result_bind_ok in E1 as ([o2 s2] & Ef & [= _ <-]).
      apply finish_clears in Ef as [Ep _]. unfold held_ok. cbn in Ep |- *. by rewrite Ep.
    - injection E1 as _ <-. apply N.ltb_ge in El. unfold held_ok. cbn. by rewrite blen_app. }
  destruct (bytes_ends_with _ _); [|by injection E as _ <-]. apply result_bind_ok in E as ([o2 s2] & E2 & [= _ <-]).
  unfold held_ok. cbn in *. destruct (or_discarding s1); [by injection E2 as _ <-|]. apply finish_clears in E2 as [Ep _]. by rewrite Ep.
Qed.

(** A segment cut in two. *)
Lemma push_segment_cut a b self : no_newline a -> bytes_ends_with [LF] a = false -> bytes_ends_with [LF] (a ++ b) = bytes_ends_with [LF] b -> held_ok self ->
  push_segment (a ++ b) self =
  (let? first := push_segment a self in let? rest := push_segment b first.2 in Ok (first.1 ++ rest.1, rest.2)%list)%res.
Proof.
  intros Ha Hea Heb Hs. unfold push_segment. rewrite Heb, Hea, blen_app. destruct (or_discarding self) eqn:Ed.
  - cbn [result_bind fst snd]. rewrite Ed. cbn [result_bind fst snd app]. destruct (bytes_ends_with [LF] b); [|done].
    rewrite Ed. done.
  - set (M := PROCESS_MAX_OUTPUT_BYTES) in *. unfold held_ok in Hs. fold M in Hs.
    destruct (N.ltb_spec M (blen (or_pending self) + blen a)) as [Hover|Hfit].
    + assert (El : (M <? blen (or_pending self) + (blen a + blen b))%N = true) by (apply N.ltb_lt; lia). rewrite El.
      unfold sub_usize. rewrite decide_True by (unfold blen in *; lia). cbn [result_bind].
      rewrite !slice_prefix by (rewrite ?length_app; unfold blen in *; lia). cbn [result_bind]. rewrite Nat.sub_0_r, !drop_0.
      rewrite (take_app_le a b) by (unfold blen in *; lia).
      destruct (finish_bytes _) as [[o s1]|e]; cbn [result_bind fst snd or_discarding app]; [|done]. by destruct (bytes_ends_with [LF] b).
    + cbn [result_bind fst snd or_discarding or_pending or_state]. rewrite blen_app.
      replace (blen (or_pending self) + (blen a + blen b))%N with (blen (or_pending self) + blen a + blen b)%N by lia.
      destruct (N.ltb_spec M (blen (or_pending self) + blen a + blen b)) as [Hover|Hfit2].
      * unfold sub_usize. rewrite !decide_True by (rewrite ?length_app; unfold blen in *; lia). cbn [result_bind].
        rewrite !slice_prefix by (rewrite ?length_app; unfold blen in *; lia). cbn [result_bind]. rewrite !Nat.sub_0_r, !drop_0.
        rewrite take_app_ge by (unfold blen in *; lia). rewrite length_app, app_assoc.
        replace (N.to_nat M - length (or_pending self) - length a) with (N.to_nat M - (length (or_pending self) + length a)) by lia.
        destruct (finish_bytes _) as [[o s1]|e]; cbn [result_bind fst snd app]; [|done].
        destruct (bytes_ends_with [LF] b); [|done]. by destruct (if or_discarding _ then _ else _).
      * cbn [result_bind fst snd or_discarding]. rewrite app_assoc. destruct (bytes_ends_with [LF] b); [|done].
        cbn [or_discarding]. by destruct (finish_bytes _).
Qed.

Lemma push_segments_app l k self :
  push_segments (l ++ k)%list self =
  (let? first := push_segments l self in let? rest := push_segments k first.2 in Ok (first.1 ++ rest.1, rest.2)%list)%res.
Proof.
  revert self. induction l as [|x l IH]; intros self; cbn [app push_segments result_bind fst snd].
  - by destruct (push_segments k self) as [[o s]|e].
  - rewrite !result_bind_assoc. apply result_bind_ext. intros [o1 s1] _. cbn [fst snd]. rewrite IH, !result_bind_assoc. apply result_bind_ext.
    intros [o2 s2] _. cbn [fst snd result_bind]. rewrite result_bind_assoc. apply result_bind_ext. intros [o3 s3] _. cbn. by rewrite app_assoc.
Qed.
Lemma push_segments_ok segments : forall self out self', held_ok self -> push_segments segments self = Ok (out, self') -> held_ok self'.
Proof.
  induction segments as [|x l IH]; intros self out self' Hs; cbn [push_segments]; [by intros [= _ <-]|]. intros E.
  apply result_bind_ok in E as ([o1 s1] & E1 & E). apply result_bind_ok in E as ([o2 s2] & E2 & [= _ <-]). eapply IH; [|exact E2].
  by eapply push_segment_ok.
Qed.

Lemma ends_newline a b : b <> [] -> bytes_ends_with [LF] (a ++ b) = bytes_ends_with [LF] b.
Proof.
  intros Hb. destruct b as [|c b _] using rev_ind; [done|]. unfold bytes_ends_with. apply bool_decide_ext.
  assert (H : forall x, is_Some (bytes_strip_suffix [LF] (x ++ [c])) <-> c = LF).
  { intros x. split; [intros [r E%bytes_strip_suffix_some]; by apply app_inj_tail in E as [_ ->]|]. intros ->. exists x. by apply bytes_strip_suffix_some. }
  by rewrite app_assoc, !H.
Qed.
Lemma ends_no_newline a : no_newline a -> bytes_ends_with [LF] a = false.
Proof.
  intros Ha. unfold bytes_ends_with. apply bool_decide_eq_false. intros [r ->%bytes_strip_suffix_some].
  apply Forall_app in Ha as [_ Ha]. by inversion Ha.
Qed.

(** The unfinished line of the first chunk and the second chunk. *)
Lemma push_cut a b self : no_newline a -> held_ok self ->
  push_bytes (a ++ b) self = (let? first := push_bytes a self in let? rest := push_bytes b first.2 in Ok (first.1 ++ rest.1, rest.2)%list)%res.
Proof.
  intros Ha Hs. unfold push_bytes. destruct (decide (a = [])) as [->|Hne].
  { cbn [app split_inclusive push_segments result_bind fst snd]. by destruct (push_segments _ self) as [[o s]|e]. }
  destruct (decide (b = [])) as [->|Hnb].
  { rewrite app_nil_r. destruct (push_segments (split_inclusive LF a) self) as [[o s]|e]; cbn; [by rewrite app_nil_r|done]. }
  rewrite (split_inclusive_last a Ha Hne).
  assert (Hcut : forall seg rest, split_inclusive LF b = seg :: rest -> split_inclusive LF (a ++ b) = (a ++ seg) :: rest -> seg <> [] ->
    push_segments (split_inclusive LF (a ++ b)) self = (let? first := push_segments [a] self in let? rest := push_segments (split_inclusive LF b) first.2 in Ok (first.1 ++ rest.1, rest.2)%list)%res).
  { intros seg rest -> -> Hseg. cbn [push_segments]. rewrite push_segment_cut; [|done|by apply ends_no_newline|by apply ends_newline|done].
    rewrite !result_bind_assoc. apply result_bind_ext. intros [o1 s1] _. cbn [result_bind fst snd]. rewrite !result_bind_assoc. apply result_bind_ext.
    intros [o2 s2] _. cbn [result_bind fst snd]. rewrite app_nil_r. rewrite !result_bind_assoc. apply result_bind_ext. intros [o3 s3] _. cbn. by rewrite <- app_assoc. }
  destruct (newline_split b) as [Hno|(b1 & b2 & -> & Hb1)].
  - apply (Hcut b []); [by apply split_inclusive_last| |done]. apply split_inclusive_last; [by apply Forall_app|]. by destruct a.
  - apply (Hcut (b1 ++ [LF]) (split_inclusive LF b2)); [by apply split_inclusive_lf| |by destruct b1]. rewrite app_assoc.
    rewrite split_inclusive_lf by (by apply Forall_app). by rewrite app_assoc.
Qed.

Lemma last_line a : exists a1 a2, a = (a1 ++ a2)%list /\ no_newline a2 /\ (a1 = [] \/ exists x, a1 = (x ++ [LF])%list).
Proof.
  induction a as [|c a IH] using rev_ind; [by exists [], []; split; [|split; [constructor|left]]|]. destruct (decide (c = LF)) as [->|Hc].
  - exists (a ++ [LF])%list, []. rewrite app_nil_r. split; [done|]. split; [constructor|]. right. by exists a.
  - destruct IH as (a1 & a2 & -> & H2 & H1). exists a1, (a2 ++ [c])%list. rewrite app_assoc. split; [done|]. split; [|done].
    apply Forall_app. split; [done|]. by constructor.
Qed.

Lemma push_app a b self : held_ok self ->
  push_bytes (a ++ b) self = (let? first := push_bytes a self in let? rest := push_bytes b first.2 in Ok (first.1 ++ rest.1, rest.2)%list)%res.
Proof.
  intros Hs. destruct (last_line a) as (a1 & a2 & -> & Ha2 & [->|[x ->]]); [by apply push_cut|].
  assert (Hsp : forall t, push_bytes ((x ++ [LF]) ++ t) self =
    (let? first := push_bytes (x ++ [LF]) self in let? rest := push_bytes t first.2 in Ok (first.1 ++ rest.1, rest.2)%list)%res).
  { intros t. unfold push_bytes. rewrite <- app_assoc. cbn [app]. by rewrite split_inclusive_app, push_segments_app. }
  rewrite <- app_assoc, !Hsp, !result_bind_assoc. apply result_bind_ext. intros [o1 s1] E1. cbn [fst snd].
  rewrite push_cut by (done || by eapply push_segments_ok). rewrite !result_bind_assoc. apply result_bind_ext. intros [o2 s2] _. cbn [fst snd result_bind].
  rewrite !result_bind_assoc. apply result_bind_ext. intros [o3 s3] _. cbn. by rewrite app_assoc.
Qed.

(** C26: Redaction of process output does not depend on where reads were cut:
    for every way to cut the bytes into chunks, pushing the chunks and finishing
    gives what the whole output in one push gives.  A credential, a private key
    or a quoted value split across reads is classified as one. *)
Theorem chunking_irrelevant chunks : redact_stream chunks = redact_stream [concat chunks].
Proof.
  assert (H : forall chunks self, held_ok self -> push_chunks chunks self = push_bytes (concat chunks) self).
  { induction chunks0 as [|c l IH]; intros self Hs; cbn [push_chunks concat]; [done|]. rewrite push_app by done. apply result_bind_ext.
    intros [o s1] E. cbn [fst snd]. by rewrite IH by (by eapply push_segments_ok). }
  unfold redact_stream. rewrite (H chunks) by done. cbn [push_chunks]. rewrite !result_bind_assoc. apply result_bind_ext. intros [o s1] _.
  cbn. by rewrite app_nil_r.
Qed.
End Chunks.
