(* ===== verification/UpdateFs.v ===== *)
(** * The install directory (what haider-cli's updater asks of a POSIX system)

    One directory of entries that name inodes, so that hard links and renames
    keep the identity of a file.  Beside what processes see ([fs_dir]) the
    state keeps every directory the disk may hold ([fs_disks]): an operation
    on entries may or may not have reached it, independently of the others and
    each as a whole, until the directory is synced.  A file's data is certain
    after a power loss once it was synced, and its mode is one of those it had
    since its last sync.  The staged files of an update lie in a directory of
    their own ([fs_stage]); no recovery reads it.

    Every system call consumes one [Event]: it works, fails (a write after a
    prefix), or the process dies before it.  Theorems quantify over all event
    sequences; a call after the last event works. *)

From S2P Require Import Prelude RustStr.

Local Open Scope st_scope.

(** ** Errors *)

Inductive IoKind := NotFound | AlreadyExists | WouldBlock | OtherIo.
#[export] Instance IoKind_eq_dec : EqDecision IoKind.
Proof. solve_decision. Defined.

Record IoError := { io_kind : IoKind; io_text : string }.
Definition io_fail (kind : IoKind) (text : string) : IoError := {| io_kind := kind; io_text := text |}.

(** A computation stops with an error of its own, or because its process died. *)
Inductive Halt (E : Type) := Failed (e : E) | Died.
Arguments Failed {E} e.
Arguments Died {E}.

(** ** State *)

(** A link is known by the data opening it finds, if any. *)
Inductive Kind := Regular (data : string) | Symlink (through : option string) | Directory.

Record Inode := {
  i_kind : Kind;
  i_mine : bool;
  i_mode : N;
  i_older : list N;
  i_synced : bool
}.

Record Metadata := { md_kind : Kind; md_mine : bool; md_mode : N; md_links : nat }.

Abbreviation Entries := (gmap string nat).

Record Fs := {
  fs_dir : Entries;
  fs_disks : list Entries;
  fs_inodes : gmap nat Inode;
  fs_next : nat;
  fs_stage : Entries;
  fs_root : Metadata
}.

(** A failing call: a lock held by another process, or any other error. *)
Inductive Event := Works | Fails (busy : bool) (text : string) (written : nat) | Dies.

(** [SIGTERM] and [SIGKILL] to a process. *)
Inductive Signal := Terminate (pid : N) | Kill (pid : N).

(** Beside the directory: the events to come, and the signals that were sent. *)
Record World := { w_fs : Fs; w_events : list Event; w_signals : list Signal }.

Definition next (w : World) (events : list Event) (fs : Fs) : World :=
  {| w_fs := fs; w_events := events; w_signals := w.(w_signals) |}.

Definition IO (A : Type) : Type := ST World (Halt IoError) A.

Definition fault (busy : bool) (text : string) : IoError := io_fail (if busy then WouldBlock else OtherIo) text.

(** A call that fails has no effect. *)
Definition sys {A} (op : Fs -> result A IoError * Fs) : IO A := fun w =>
  let run events :=
    let '(r, fs) := op w.(w_fs) in
    (map_err Failed r, next w events fs) in
  match w.(w_events) with
  | [] => run []
  | Works :: events => run events
  | Fails busy text _ :: events => (Err (Failed (fault busy text)), next w events w.(w_fs))
  | Dies :: events => (Err Died, next w events w.(w_fs))
  end.

(** ** Updates of the state *)

Definition with_dirs (f : Entries -> Entries) (fs : Fs) : Fs :=
  {| fs_dir := f fs.(fs_dir); fs_disks := fs.(fs_disks) ++ map f fs.(fs_disks); fs_inodes := fs.(fs_inodes);
     fs_next := fs.(fs_next); fs_stage := fs.(fs_stage); fs_root := fs.(fs_root) |}.
Definition with_disk (fs : Fs) : Fs :=
  {| fs_dir := fs.(fs_dir); fs_disks := [fs.(fs_dir)]; fs_inodes := fs.(fs_inodes);
     fs_next := fs.(fs_next); fs_stage := fs.(fs_stage); fs_root := fs.(fs_root) |}.
Definition with_inodes (f : gmap nat Inode -> gmap nat Inode) (fs : Fs) : Fs :=
  {| fs_dir := fs.(fs_dir); fs_disks := fs.(fs_disks); fs_inodes := f fs.(fs_inodes);
     fs_next := fs.(fs_next); fs_stage := fs.(fs_stage); fs_root := fs.(fs_root) |}.
Definition with_new (node : Inode) (fs : Fs) : Fs :=
  {| fs_dir := fs.(fs_dir); fs_disks := fs.(fs_disks); fs_inodes := <[fs.(fs_next) := node]> fs.(fs_inodes);
     fs_next := S fs.(fs_next); fs_stage := fs.(fs_stage); fs_root := fs.(fs_root) |}.
Definition with_stage (stage : Entries) (fs : Fs) : Fs :=
  {| fs_dir := fs.(fs_dir); fs_disks := fs.(fs_disks); fs_inodes := fs.(fs_inodes);
     fs_next := fs.(fs_next); fs_stage := stage; fs_root := fs.(fs_root) |}.

Definition chmodded (mode : N) (node : Inode) : Inode :=
  {| i_kind := node.(i_kind); i_mine := node.(i_mine); i_mode := mode; i_older := node.(i_mode) :: node.(i_older);
     i_synced := node.(i_synced) |}.
Definition synced (node : Inode) : Inode :=
  {| i_kind := node.(i_kind); i_mine := node.(i_mine); i_mode := node.(i_mode); i_older := []; i_synced := true |}.
Definition appended (data : string) (node : Inode) : Inode :=
  {| i_kind := match node.(i_kind) with Regular old => Regular (old ++ data) | kind => kind end;
     i_mine := node.(i_mine); i_mode := node.(i_mode); i_older := node.(i_older); i_synced := false |}.
Definition new_file (mode : N) : Inode :=
  {| i_kind := Regular ""; i_mine := true; i_mode := mode; i_older := []; i_synced := false |}.

(** ** System calls *)

Definition missing : IoError := io_fail NotFound "No such file or directory (os error 2)".
Definition taken : IoError := io_fail AlreadyExists "File exists (os error 17)".
Definition refused : IoError := io_fail OtherIo "Operation not permitted (os error 1)".

(** The entry of a path, with its inode. *)
Definition find_in (dir : Entries) (fs : Fs) (name : string) : option (nat * Inode) :=
  i ← dir !! name; node ← fs.(fs_inodes) !! i; Some (i, node).
Definition find_node (fs : Fs) (name : string) : option (nat * Inode) := find_in fs.(fs_dir) fs name.

Definition links (fs : Fs) (i : nat) : nat :=
  length (filter (fun kv => kv.2 = i) (map_to_list fs.(fs_dir))) +
  length (filter (fun kv => kv.2 = i) (map_to_list fs.(fs_stage))).

Definition metadata_of (fs : Fs) (i : nat) (node : Inode) : Metadata :=
  {| md_kind := node.(i_kind); md_mine := node.(i_mine); md_mode := node.(i_mode); md_links := links fs i |}.

Definition is_symlink (m : Metadata) : bool := match m.(md_kind) with Symlink _ => true | _ => false end.
Definition is_file (m : Metadata) : bool := match m.(md_kind) with Regular _ => true | _ => false end.
Definition is_dir (m : Metadata) : bool := match m.(md_kind) with Directory => true | _ => false end.

(** [fs::symlink_metadata] of an entry, and of the directory itself. *)
Definition symlink_metadata (name : string) : IO Metadata := sys (fun fs =>
  match find_node fs name with
  | Some (i, node) => (Ok (metadata_of fs i node), fs)
  | None => (Err missing, fs)
  end).
Definition root_metadata : IO Metadata := sys (fun fs => (Ok fs.(fs_root), fs)).
Definition stage_metadata (name : string) : IO Metadata := sys (fun fs =>
  match find_in fs.(fs_stage) fs name with
  | Some (i, node) => (Ok (metadata_of fs i node), fs)
  | None => (Err missing, fs)
  end).

(** What opening a file for reading finds. *)
Definition contents (kind : Kind) : result string IoError :=
  match kind with
  | Regular data | Symlink (Some data) => Ok data
  | Symlink None => Err missing
  | Directory => Err (io_fail OtherIo "Is a directory (os error 21)")
  end.

(** [Path::exists]: an error reads as absent. *)
Definition path_exists (name : string) : IO bool := fun w =>
  match sys (fun fs => (Ok (match find_node fs name with
                            | Some (_, node) => match node.(i_kind) with Symlink None => false | _ => true end
                            | None => false
                            end), fs)) w with
  | (Err (Failed _), w) => (Ok false, w)
  | run => run
  end.

(** [fs::read]. *)
Definition read_file (name : string) : IO string := sys (fun fs =>
  match find_node fs name with
  | Some (_, node) => (contents node.(i_kind), fs)
  | None => (Err missing, fs)
  end).

(** [File::open] and reading the handle to its end. *)
Definition open_in (dir : Fs -> Entries) (name : string) : IO nat := sys (fun fs =>
  match find_in (dir fs) fs name with
  | Some (i, node) => (match node.(i_kind) with Symlink None => Err missing | _ => Ok i end, fs)
  | None => (Err missing, fs)
  end).
Definition read_handle (i : nat) : IO string := sys (fun fs =>
  match fs.(fs_inodes) !! i with
  | Some node => (contents node.(i_kind), fs)
  | None => (Err missing, fs)
  end).

Definition hard_link (source target : string) : IO unit := sys (fun fs =>
  match fs.(fs_dir) !! source, fs.(fs_dir) !! target with
  | None, _ => (Err missing, fs)
  | Some _, Some _ => (Err taken, fs)
  | Some i, None => (Ok tt, with_dirs (<[target := i]>) fs)
  end).

Definition is_directory (fs : Fs) (i : nat) : bool :=
  match fs.(fs_inodes) !! i with Some node => match node.(i_kind) with Directory => true | _ => false end | None => false end.

Definition move (i : nat) (source target : string) (dir : Entries) : Entries := <[target := i]> (delete source dir).

(** [fs::rename]: two names of one file are left alone. *)
Definition rename (source target : string) : IO unit := sys (fun fs =>
  match fs.(fs_dir) !! source, fs.(fs_dir) !! target with
  | None, _ => (Err missing, fs)
  | Some i, Some j =>
      if decide (i = j) then (Ok tt, fs)
      else if is_directory fs j then (Err refused, fs)
      else (Ok tt, with_dirs (move i source target) fs)
  | Some i, None => (Ok tt, with_dirs (move i source target) fs)
  end).

(** The same from the staging directory. *)
Definition rename_staged (source target : string) : IO unit := sys (fun fs =>
  match fs.(fs_stage) !! source with
  | None => (Err missing, fs)
  | Some i =>
      if default false (is_directory fs <$> fs.(fs_dir) !! target) then (Err refused, fs)
      else (Ok tt, with_stage (delete source fs.(fs_stage)) (with_dirs (<[target := i]>) fs))
  end).

Definition remove_file (name : string) : IO unit := sys (fun fs =>
  match fs.(fs_dir) !! name with
  | None => (Err missing, fs)
  | Some i => if is_directory fs i then (Err refused, fs) else (Ok tt, with_dirs (delete name) fs)
  end).

(** [OpenOptions] with [create_new], and with [create] and no truncation; the
    handle is the inode. *)
Definition create_new (name : string) (mode : N) : IO nat := sys (fun fs =>
  match fs.(fs_dir) !! name with
  | Some _ => (Err taken, fs)
  | None => (Ok fs.(fs_next), with_dirs (<[name := fs.(fs_next)]>) (with_new (new_file mode) fs))
  end).
Definition open_or_create (name : string) (mode : N) : IO nat := sys (fun fs =>
  match fs.(fs_dir) !! name with
  | Some i => if is_directory fs i then (Err refused, fs) else (Ok i, fs)
  | None => (Ok fs.(fs_next), with_dirs (<[name := fs.(fs_next)]>) (with_new (new_file mode) fs))
  end).

Definition handle_metadata (i : nat) : IO Metadata := sys (fun fs =>
  match fs.(fs_inodes) !! i with
  | Some node => (Ok (metadata_of fs i node), fs)
  | None => (Err missing, fs)
  end).

(** [File::try_lock]: only another holder or the system makes it fail. *)
Definition try_lock (i : nat) : IO unit := sys (fun fs => (Ok tt, fs)).

Definition write_all (i : nat) (data : string) : IO unit := fun w =>
  let run data fs := with_inodes (alter (appended data) i) fs in
  match w.(w_events) with
  | [] => (Ok tt, next w [] (run data w.(w_fs)))
  | Works :: events => (Ok tt, next w events (run data w.(w_fs)))
  | Fails busy text written :: events =>
      (Err (Failed (fault busy text)), next w events (run (String.substring 0 written data) w.(w_fs)))
  | Dies :: events => (Err Died, next w events w.(w_fs))
  end.

Definition sync_all (i : nat) : IO unit := sys (fun fs => (Ok tt, with_inodes (alter synced i) fs)).

(** [File::open(name)?.sync_all()], and the same through a writable handle. *)
Definition sync_path (writable : bool) (name : string) : IO unit := sys (fun fs =>
  match find_node fs name with
  | None => (Err missing, fs)
  | Some (i, node) =>
      if writable && bool_decide (N.land node.(i_mode) 128 = 0%N)
      then (Err (io_fail OtherIo "Permission denied (os error 13)"), fs)
      else (Ok tt, with_inodes (alter synced i) fs)
  end).

Definition set_mode (name : string) (mode : N) : IO unit := sys (fun fs =>
  match find_node fs name with
  | None => (Err missing, fs)
  | Some (i, node) =>
      match node.(i_kind) with
      | Symlink None => (Err missing, fs)
      | Symlink (Some _) => (Ok tt, fs)
      | _ => (Ok tt, with_inodes (alter (chmodded mode) i) fs)
      end
  end).

Definition sync_directory : IO unit := sys (fun fs => (Ok tt, with_disk fs)).

(** [kill(2)]. *)
Definition send_signal (signal : Signal) : IO unit := fun w =>
  match sys (fun fs => (Ok tt, fs)) w with
  | (Ok u, w) => (Ok u, {| w_fs := w.(w_fs); w_events := w.(w_events); w_signals := w.(w_signals) ++ [signal] |})
  | run => run
  end.

(** [fs::remove_dir_all] of the staging directory. *)
Definition remove_stage : IO unit := sys (fun fs => (Ok tt, with_stage ∅ fs)).

(** ** Power loss *)

Definition survives (node node' : Inode) : Prop :=
  node'.(i_mine) = node.(i_mine) /\ node'.(i_mode) ∈ node.(i_mode) :: node.(i_older) /\ node'.(i_older) = [] /\
  node'.(i_synced) = true /\ (node.(i_synced) = true -> node'.(i_kind) = node.(i_kind)) /\
  match node.(i_kind) with Regular _ => exists data, node'.(i_kind) = Regular data | kind => node'.(i_kind) = kind end.

Record Crash (fs fs' : Fs) : Prop := {
  crash_dir : fs'.(fs_dir) ∈ fs.(fs_disks);
  crash_disks : fs'.(fs_disks) = [fs'.(fs_dir)];
  crash_inodes : forall i, option_Forall2 survives (fs.(fs_inodes) !! i) (fs'.(fs_inodes) !! i);
  crash_next : fs'.(fs_next) = fs.(fs_next);
  crash_root : fs'.(fs_root) = fs.(fs_root)
}.
