(* ===== verification/UpdateMarker.v ===== *)
(** * Update markers (haider-cli update/members.rs, update/transaction.rs)

    The members of the executable bundle, and the durable record of an update
    in progress: [Marker] with its encoding as JSON ([write_marker]'s value) and
    its strict decoding ([read_marker] after the bytes are read).  serde_json is
    the parameter [MarkerJson]; a map keeps its keys sorted, as the default
    [serde_json::Map] does. *)

From S2P Require Import Prelude RustStr EffectTypes Json Envelope.

Local Open Scope res_scope.

(** ** Members *)

Inductive BundleMember := Daemon | Tui | Cli | WaylandPortal.
#[export] Instance BundleMember_eq_dec : EqDecision BundleMember.
Proof. solve_decision. Defined.

Definition BUNDLE_MEMBERS : list BundleMember := [Daemon; Tui; Cli].
Definition ALL_BUNDLE_MEMBERS : list BundleMember := [Daemon; Tui; WaylandPortal; Cli].

Definition name (m : BundleMember) : string :=
  match m with
  | Daemon => "haiderd"
  | Tui => "haider-tui"
  | Cli => "haider"
  | WaylandPortal => "haider-wayland-portal"
  end.
(** Hosts other than Windows. *)
Definition file_name : BundleMember -> string := name.
Definition backup_prefix (m : BundleMember) : string := "." ++ name m ++ "-old-".

(** ** Phases *)

Inductive TransactionPhase :=
  | Prepared | BackupDaemon | BackupTui | BackupPortal | BackupsReady
  | DaemonInstalled | TuiInstalled | PortalInstalled | PairInstalled
  | DaemonWritable | TuiWritable | PortalWritable | PairWritable
  | PairSynced | PairVerified | RestartPending | DrainSignaled | LockReleased
  | ChildSpawned | Finalizing | RollingBack.
#[export] Instance TransactionPhase_eq_dec : EqDecision TransactionPhase.
Proof. solve_decision. Defined.

Definition phase_as_str (phase : TransactionPhase) : string :=
  match phase with
  | Prepared => "prepared"
  | BackupDaemon => "backup_daemon"
  | BackupTui => "backup_tui"
  | BackupPortal => "backup_portal"
  | BackupsReady => "backups_ready"
  | DaemonInstalled => "daemon_installed"
  | TuiInstalled => "tui_installed"
  | PortalInstalled => "portal_installed"
  | PairInstalled => "pair_installed"
  | DaemonWritable => "daemon_writable"
  | TuiWritable => "tui_writable"
  | PortalWritable => "portal_writable"
  | PairWritable => "pair_writable"
  | PairSynced => "pair_synced"
  | PairVerified => "pair_verified"
  | RestartPending => "restart_pending"
  | DrainSignaled => "drain_signaled"
  | LockReleased => "lock_released"
  | ChildSpawned => "child_spawned"
  | Finalizing => "finalizing"
  | RollingBack => "rolling_back"
  end.

Definition phase_parse (value : string) : option TransactionPhase :=
  if String.eqb value "prepared" then Some Prepared
  else if String.eqb value "backup_daemon" then Some BackupDaemon
  else if String.eqb value "backup_tui" then Some BackupTui
  else if String.eqb value "backup_portal" then Some BackupPortal
  else if String.eqb value "backups_ready" then Some BackupsReady
  else if String.eqb value "daemon_installed" then Some DaemonInstalled
  else if String.eqb value "tui_installed" then Some TuiInstalled
  else if String.eqb value "portal_installed" then Some PortalInstalled
  else if String.eqb value "pair_installed" then Some PairInstalled
  else if String.eqb value "daemon_writable" then Some DaemonWritable
  else if String.eqb value "tui_writable" then Some TuiWritable
  else if String.eqb value "portal_writable" then Some PortalWritable
  else if String.eqb value "pair_writable" then Some PairWritable
  else if String.eqb value "pair_synced" then Some PairSynced
  else if String.eqb value "pair_verified" then Some PairVerified
  else if String.eqb value "restart_pending" then Some RestartPending
  else if String.eqb value "drain_signaled" then Some DrainSignaled
  else if String.eqb value "lock_released" then Some LockReleased
  else if String.eqb value "child_spawned" then Some ChildSpawned
  else if String.eqb value "finalizing" then Some Finalizing
  else if String.eqb value "rolling_back" then Some RollingBack
  else None.

(** ** Markers *)

Record MarkerMember := {
  mm_member : BundleMember;
  old_digest : option string;
  target_digest : string;
  backup : string
}.

Record Marker := {
  legacy : bool;
  mk_transaction_id : string;
  mk_old_version : string;
  mk_target_version : string;
  source_archive_digest : string;
  members : list MarkerMember;
  mk_phase : TransactionPhase
}.

Definition with_phase (phase : TransactionPhase) (m : Marker) : Marker :=
  {| legacy := m.(legacy); mk_transaction_id := m.(mk_transaction_id); mk_old_version := m.(mk_old_version);
     mk_target_version := m.(mk_target_version); source_archive_digest := m.(source_archive_digest);
     members := m.(members); mk_phase := phase |}.

Inductive UpdateError :=
  | Usage (message : string) | Network (message : string) | Io (message : string) | Refused (message : string)
  | Health (message : string) | RestartTimeout (message : string) | Internal (message : string).

Definition error_text (e : UpdateError) : string :=
  match e with
  | Usage m | Network m | Io m | Refused m | Health m | RestartTimeout m | Internal m => m
  end.

Definition exit_code (e : UpdateError) : N :=
  match e with
  | Usage _ => 2
  | Network _ => 69
  | Io _ => 74
  | Health _ => 76
  | Refused _ | RestartTimeout _ | Internal _ => 70
  end.

(** ** Encoding *)

(** [Map::insert] into a map with sorted keys. *)
Fixpoint map_insert (key : string) (v : Value) (fields : list (string * Value)) : list (string * Value) :=
  match fields with
  | [] => [(key, v)]
  | (k, old) :: rest =>
      match String.compare key k with
      | Lt => (key, v) :: fields
      | Eq => (key, v) :: rest
      | Gt => (k, old) :: map_insert key v rest
      end
  end.

Definition json_object (fields : list (string * Value)) : list (string * Value) :=
  foldl (fun m kv => map_insert kv.1 kv.2 m) [] fields.

Definition json_opt (o : option string) : Value := match o with Some s => Str s | None => Null end.

Definition V1 : string := "haider.update.transaction.v1".
Definition V2 : string := "haider.update.transaction.v2".

Definition member_value (e : MarkerMember) : Value :=
  Object (json_object [("name", Str (name e.(mm_member))); ("old_digest", json_opt e.(old_digest));
                       ("target_digest", Str e.(target_digest)); ("backup", Str e.(backup))]).

Definition add_legacy (fields : list (string * Value)) (e : MarkerMember) : list (string * Value) :=
  let n := name e.(mm_member) in
  map_insert ("backup_" ++ n) (Str e.(backup))
    (map_insert ("target_" ++ n ++ "_digest") (Str e.(target_digest))
       (map_insert ("old_" ++ n ++ "_digest") (json_opt e.(old_digest)) fields)).

Definition marker_value (m : Marker) : Value :=
  let fields := json_object
    [("schema", Str (if m.(legacy) then V1 else V2)); ("transaction_id", Str m.(mk_transaction_id));
     ("old_version", Str m.(mk_old_version)); ("target_version", Str m.(mk_target_version));
     ("source_archive_digest", Str m.(source_archive_digest)); ("phase", Str (phase_as_str m.(mk_phase)))] in
  Object (if m.(legacy) then foldl add_legacy fields m.(members)
          else map_insert "members" (Array (map member_value m.(members))) fields).

(** [serde_json::to_vec] and [serde_json::from_slice]. *)
Class MarkerJson := {
  marker_text : Value -> result string string;
  marker_parse : string -> result Value string
}.

(** ** Decoding *)

Definition is_ascii_hexdigit (c : ascii) : bool :=
  is_ascii_digit c || (65 <=? byte_val c)%N && (byte_val c <=? 70)%N || (97 <=? byte_val c)%N && (byte_val c <=? 102)%N.
Definition to_ascii_lowercase_byte (c : ascii) : ascii :=
  if is_ascii_uppercase c then ascii_of_N (byte_val c + 32) else c.

Definition digest_field (value : string) : result string UpdateError :=
  if (len value =? 64)%N && all_bytes is_ascii_hexdigit value then Ok (map_bytes to_ascii_lowercase_byte value)
  else Err (Internal "update marker contains a malformed digest").

(** One component that is a name: a relative path keeps its empty and [.]
    components out, except a leading [.], which makes a component of its own. *)
Definition normal_components (path : string) : list string :=
  filterb (fun c => negb (String.eqb c "") && negb (String.eqb c ".")) (split_char "/"%char path).
Definition single_name (path : string) : bool :=
  match split_char "/"%char path with
  | "" :: _ :: _ => false
  | "." :: _ => false
  | _ => match normal_components path with [c] => negb (String.eqb c "..") | _ => false end
  end.
Definition safe_backup_name (n prefix : string) : bool := starts_with prefix n && single_name n.

Definition lacks (field : string) : UpdateError := Internal ("update marker lacks `" ++ field ++ "`").
Definition marker_field (v : Value) (field : string) : result string UpdateError :=
  ok_or (get_str field v) (lacks field).

Definition is_entry_of (m : BundleMember) (entry : Value) : bool :=
  bool_decide (get_str "name" entry = Some (name m)).

Definition legacy_member (v : Value) (m : BundleMember) : result MarkerMember UpdateError :=
  let n := name m in
  let? old := marker_field v ("old_" ++ n ++ "_digest") in
  let? old := digest_field old in
  let? target := marker_field v ("target_" ++ n ++ "_digest") in
  let? target := digest_field target in
  let? b := marker_field v ("backup_" ++ n) in
  Ok {| mm_member := m; old_digest := Some old; target_digest := target; backup := b |}.

Definition entry_field (entry : Value) (key : string) : result string UpdateError :=
  ok_or (get_str key entry) (Internal ("update member lacks `" ++ key ++ "`")).

Definition listed_member (entries : list Value) (m : BundleMember) : result MarkerMember UpdateError :=
  match filterb (is_entry_of m) entries with
  | [entry] =>
      let? old := match get "old_digest" entry with
                  | Some Null => Ok None
                  | Some (Str value) => let? d := digest_field value in Ok (Some d)
                  | _ => Err (Internal "update member has invalid old digest")
                  end in
      let? target := entry_field entry "target_digest" in
      let? target := digest_field target in
      let? b := entry_field entry "backup" in
      Ok {| mm_member := m; old_digest := old; target_digest := target; backup := b |}
  | _ => Err (Internal "update marker has missing or duplicate bundle members")
  end.

Fixpoint collect {A B E} (f : A -> result B E) (l : list A) : result (list B) E :=
  match l with
  | [] => Ok []
  | a :: l => let? b := f a in let? bs := collect f l in Ok (b :: bs)
  end.

Definition listed_members (v : Value) : result (list MarkerMember) UpdateError :=
  let? entries := match get "members" v with
                  | Some (Array entries) => Ok entries
                  | _ => Err (Internal "update marker lacks bundle members")
                  end in
  reject_if (negb ((length BUNDLE_MEMBERS <=? length entries) && (length entries <=? length ALL_BUNDLE_MEMBERS))%nat)
    (Internal "update marker has incomplete bundle membership") ?;
  let? found := collect (listed_member entries)
    (filterb (fun m => negb (bool_decide (m = WaylandPortal)) || existsb (is_entry_of m) entries) ALL_BUNDLE_MEMBERS) in
  reject_if (negb (bool_decide (length found = length entries)))
    (Internal "update marker contains unknown optional members") ?;
  Ok found.

Definition had (m : BundleMember) (ms : list MarkerMember) : bool :=
  match find (fun e => bool_decide (e.(mm_member) = m)) ms with
  | Some e => bool_decide (is_Some e.(old_digest))
  | None => false
  end.

(** Was the recorded old installation one the installer admits? *)
Definition coherent_old (ms : list MarkerMember) : bool :=
  bool_decide (had Cli ms = had Daemon ms) &&
  (had Cli ms || negb (existsb (fun e => bool_decide (e.(mm_member) = Tui) && bool_decide (is_Some e.(old_digest))) ms)).

Definition safe_transaction_id (id : string) : bool :=
  negb (is_empty id) && (len id <=? 80)%N && all_bytes (fun c => is_ascii_digit c || Ascii.eqb c "-"%char) id.

Definition decode_value (v : Value) : result Marker UpdateError :=
  let? is_legacy := match get_str "schema" v with
                    | Some s => if String.eqb s V1 then Ok true else if String.eqb s V2 then Ok false
                                else Err (Internal "unknown update recovery marker schema")
                    | None => Err (Internal "unknown update recovery marker schema")
                    end in
  let? phase_text := marker_field v "phase" in
  let? phase := ok_or (phase_parse phase_text) (Internal "update marker has an unknown phase") in
  let? id := marker_field v "transaction_id" in
  reject_if (negb (safe_transaction_id id)) (Internal "update marker contains an unsafe transaction id") ?;
  let? ms := if is_legacy then collect (legacy_member v) [Daemon; Cli] else listed_members v in
  reject_if (negb is_legacy && negb (coherent_old ms)) (Internal "update marker records an incomplete old installation") ?;
  reject_if (negb (forallb (fun e => safe_backup_name e.(backup) (backup_prefix e.(mm_member))) ms))
    (Internal "update marker contains an unsafe backup name") ?;
  let? old := marker_field v "old_version" in
  let? target := marker_field v "target_version" in
  let? source := marker_field v "source_archive_digest" in
  let? source := digest_field source in
  Ok {| legacy := is_legacy; mk_transaction_id := id; mk_old_version := old; mk_target_version := target;
        source_archive_digest := source; members := ms; mk_phase := phase |}.

Section Codec.
Context {json : MarkerJson}.

(** The bytes [write_marker] persists. *)
Definition encode_marker (m : Marker) : result string UpdateError :=
  let? text := map_err (fun e => Internal ("encode update marker: " ++ e)) (marker_text (marker_value m)) in
  Ok ((text ++ String LF "")%string).

(** [read_marker] from the bytes on. *)
Definition decode_marker (bytes : string) : result Marker UpdateError :=
  reject_if (65536 <? len bytes)%N (Internal "update recovery marker exceeds its size bound") ?;
  let? v := map_err (fun e => Internal ("invalid update recovery marker: " ++ e)) (marker_parse bytes) in
  decode_value v.
End Codec.
