(* ===== verification/Release.v ===== *)
(** * Release discovery (haider-cli update/discovery.rs)

    The list of published releases is read page by page, each tag is parsed as
    a semantic version, and the greatest one is offered when it is newer than
    the running binary.  The release service is the parameter [Releases]: the
    bytes [UpdateTransport::get_bytes] returns for a URL, which is asked once;
    serde_json is [MarkerJson].  [pretty] prints numbers in decimal.

    Versions print and parse back exactly, precedence is a total order on them,
    and discovery offers the greatest published release or nothing. *)

From Stdlib Require Import Sorted.
From S2P Require Import Prelude RustStr Digest EffectTypes Json Envelope StrLaws LoomRoundTrip UpdateMarker.

Local Open Scope res_scope.
Local Open Scope string_scope.

Definition RELEASE_PAGE_SIZE : nat := 100.
Definition MAX_RELEASE_PAGES : nat := 20.
Definition MAX_RELEASE_RESPONSE : N := 8 * 1024 * 1024.

(** ** Semantic versions *)

Inductive Identifier := Numeric (n : N) | Text (s : string).

Record SemVersion := {
  sv_major : N;
  sv_minor : N;
  sv_patch : N;
  sv_pre : list Identifier;
  sv_build : list string
}.

(** [str::parse::<u64>] of a string of digits. *)
Definition parse_decimal (s : string) : option N :=
  n ← parse_digits 0 s; if (u64_max <? n)%N then None else Some n.

Definition leading_zero (s : string) : bool := (1 <? len s)%N && starts_with "0" s.

Definition parse_core_number (value : option string) (what : string) : result N string :=
  let? value := ok_or value ("missing " ++ what ++ " component") in
  reject_if (is_empty value || negb (all_bytes is_ascii_digit value) || leading_zero value) ("invalid " ++ what ++ " component") ?;
  ok_or (parse_decimal value) (what ++ " component is too large").

Definition identifier_byte (c : ascii) : bool := is_ascii_alphanumeric c || Ascii.eqb c "-"%char.
Definition bad_identifier (part : string) : bool := is_empty part || negb (all_bytes identifier_byte part).

Definition parse_identifier (prerelease : bool) (part : string) : result Identifier string :=
  reject_if (bad_identifier part) "invalid empty or non-ASCII identifier" ?;
  if all_bytes is_ascii_digit part then
    reject_if (prerelease && leading_zero part) "numeric prerelease identifier has a leading zero" ?;
    let? n := ok_or (parse_decimal part) "numeric identifier is too large" in
    Ok (Numeric n)
  else Ok (Text part).

Definition parse_identifiers (value : string) (prerelease : bool) : result (list Identifier) string :=
  collect (parse_identifier prerelease) (split_char "."%char value).

Definition parse_build_identifiers (value : string) : result (list string) string :=
  collect (fun part => if bad_identifier part then Err "invalid empty or non-ASCII identifier" else Ok part)
    (split_char "."%char value).

Definition split_at (input : string) (separator : string) : string * option string :=
  match split_once separator input with
  | Some (before, behind) => (before, Some behind)
  | None => (input, None)
  end.

Definition parse_version (input : string) : result SemVersion string :=
  reject_if (is_empty input || negb (String.eqb (trim input) input)) "empty or whitespace-padded version" ?;
  let '(without_build, build) := split_at input "+" in
  let '(core, pre) := split_at without_build "-" in
  let numbers := split_char "."%char core in
  let? major := parse_core_number (numbers !! 0) "major" in
  let? minor := parse_core_number (numbers !! 1) "minor" in
  let? patch := parse_core_number (numbers !! 2) "patch" in
  reject_if (bool_decide (is_Some (numbers !! 3))) "core has more than three components" ?;
  let? pre := match pre with Some value => parse_identifiers value true | None => Ok [] end in
  let? build := match build with Some value => parse_build_identifiers value | None => Ok [] end in
  Ok {| sv_major := major; sv_minor := minor; sv_patch := patch; sv_pre := pre; sv_build := build |}.

(** [Display]. *)
Definition identifier_text (i : Identifier) : string := match i with Numeric n => pretty n | Text s => s end.
Definition version_text (v : SemVersion) : string :=
  pretty v.(sv_major) ++ "." ++ pretty v.(sv_minor) ++ "." ++ pretty v.(sv_patch)
  ++ (match v.(sv_pre) with [] => "" | pre => "-" ++ join "." (map identifier_text pre) end)
  ++ (match v.(sv_build) with [] => "" | build => "+" ++ join "." build end).

(** ** Precedence *)

Definition then_with (a b : comparison) : comparison := match a with Eq => b | _ => a end.

Definition compare_identifier (a b : Identifier) : comparison :=
  match a, b with
  | Numeric a, Numeric b => N.compare a b
  | Numeric _, Text _ => Lt
  | Text _, Numeric _ => Gt
  | Text a, Text b => String.compare a b
  end.

(** The loop over the zipped lists, then the lengths. *)
Fixpoint compare_zip (l r : list Identifier) (otherwise : comparison) : comparison :=
  match l, r with
  | a :: l, b :: r => then_with (compare_identifier a b) (compare_zip l r otherwise)
  | _, _ => otherwise
  end.
Definition compare_pre (l r : list Identifier) : comparison := compare_zip l r (Nat.compare (length l) (length r)).

Definition compare_version (a b : SemVersion) : comparison :=
  then_with (then_with (then_with (N.compare a.(sv_major) b.(sv_major)) (N.compare a.(sv_minor) b.(sv_minor)))
               (N.compare a.(sv_patch) b.(sv_patch)))
    (match a.(sv_pre), b.(sv_pre) with
     | [], [] => Eq
     | [], _ => Gt
     | _, [] => Lt
     | l, r => compare_pre l r
     end).

(** ** URLs *)

Definition is_ascii_control (c : ascii) : bool := (byte_val c <? 32)%N || (byte_val c =? 127)%N.

Definition validate_transport_url (url : string) : result unit UpdateError :=
  reject_if (is_empty url || negb (all_bytes (fun c => negb (is_ascii_control c || Ascii.eqb c " "%char)) url))
    (Refused "release URL is malformed").

(** [url.split(['?', '#']).next()]. *)
Fixpoint redact_url (url : string) : string :=
  match url with
  | "" => ""
  | String c rest => if Ascii.eqb c "?"%char || Ascii.eqb c "#"%char then "" else String c (redact_url rest)
  end.

Record ReleaseSource := { api_base : string; repository : string; allow_http : bool }.

(** [trim_end_matches('/')]. *)
Fixpoint trim_slashes_rev (s : string) : string :=
  match s with String c rest => if Ascii.eqb c "/"%char then trim_slashes_rev rest else s | "" => "" end.
Definition trim_end_slashes (s : string) : string := rev_str (trim_slashes_rev (rev_str s "")) "".

Definition repository_slug (repository : string) : result string UpdateError :=
  let? slug := ok_or ((fun rest => trim_end_slashes (default rest (strip_suffix ".git" rest))) <$> strip_prefix "https://github.com/" repository)
    (Internal "CARGO_PKG_REPOSITORY is not a GitHub URL") in
  let parts := split_char "/"%char slug in
  reject_if (negb (bool_decide (length parts = 2)) || existsb is_empty parts)
    (Internal "CARGO_PKG_REPOSITORY is not a GitHub owner/repository URL") ?;
  Ok slug.

Definition production (package_repository : string) : result ReleaseSource UpdateError :=
  let? repository := repository_slug package_repository in
  Ok {| api_base := "https://api.github.com"; repository := repository; allow_http := false |}.

Definition repository_byte (c : ascii) : bool := is_ascii_alphanumeric c || existsb (Ascii.eqb c) ["-"; "_"; "."]%char.

Definition validate_source (source : ReleaseSource) : result unit UpdateError :=
  validate_transport_url source.(api_base) ?;
  let prefixes := if source.(allow_http) then ["http://"; "https://"] else ["https://"] in
  reject_if (negb (existsb (fun prefix => starts_with prefix source.(api_base)) prefixes)) (Refused "release API URL is not allowed") ?;
  let parts := split_char "/"%char source.(repository) in
  reject_if (negb (bool_decide (length parts = 2)) || existsb (fun part => is_empty part || negb (all_bytes repository_byte part)) parts)
    (Internal "package repository metadata is not owner/repository").

Definition browser_prefix (source : ReleaseSource) : string := "https://github.com/" ++ source.(repository) ++ "/releases/download/".
Definition api_prefix (source : ReleaseSource) : string := "https://api.github.com/repos/" ++ source.(repository) ++ "/releases/assets/".

Definition validate_asset_url (source : ReleaseSource) (url : string) : result unit UpdateError :=
  validate_transport_url url ?;
  if (if source.(allow_http) then starts_with "http://" url || starts_with "https://" url
      else starts_with (browser_prefix source) url || starts_with (api_prefix source) url)
  then Ok tt
  else Err (Refused ("release asset URL is outside the trusted repository: " ++ redact_url url)).

(** ** Releases *)

Record ParsedRelease := { pr_version : SemVersion; pr_assets : list (string * string) }.

Definition asset_urls (r : ParsedRelease) (name : string) : list string :=
  map snd (filterb (fun asset => String.eqb asset.1 name) r.(pr_assets)).

Definition as_bool (o : option Value) : option bool := match o with Some (Bool b) => Some b | _ => None end.

Definition parse_asset (tag : string) (asset : Value) : result (string * string) UpdateError :=
  let? name := ok_or (get_str "name" asset) (Refused ("release `" ++ tag ++ "` has an unnamed asset")) in
  let? url := ok_or (match get_str "url" asset with Some url => Some url | None => get_str "browser_download_url" asset end)
    (Refused ("release `" ++ tag ++ "` asset `" ++ name ++ "` has no URL")) in
  Ok (name, url).

Definition parse_release (v : Value) : result ParsedRelease UpdateError :=
  reject_if (negb (bool_decide (is_Some (as_bool (get "draft" v))))) (Network "release API item has no boolean draft field") ?;
  let? tag := ok_or (get_str "tag_name" v) (Refused "published release has no tag_name") in
  let? raw := ok_or (strip_prefix "v" tag) (Refused ("published release tag `" ++ tag ++ "` is not v<semver>")) in
  let? version := map_err (fun message => Refused ("published release tag `" ++ tag ++ "` is malformed: " ++ message)) (parse_version raw) in
  let? listed := match get "assets" v with
                 | Some (Array l) => Ok l
                 | _ => Err (Refused ("release `" ++ tag ++ "` has no asset list"))
                 end in
  let? assets := collect (parse_asset tag) listed in
  Ok {| pr_version := version; pr_assets := assets |}.

Definition is_draft (v : Value) : bool := bool_decide (as_bool (get "draft" v) = Some true).

(** [sort_by]: stable. *)
Fixpoint insert_release (r : ParsedRelease) (l : list ParsedRelease) : list ParsedRelease :=
  match l with
  | [] => [r]
  | s :: rest => match compare_version r.(pr_version) s.(pr_version) with
                 | Lt | Eq => r :: l
                 | Gt => s :: insert_release r rest
                 end
  end.
Definition sort_releases (l : list ParsedRelease) : list ParsedRelease := foldr insert_release [] l.

Definition same_precedence (a b : SemVersion) : bool := match compare_version a b with Eq => true | _ => false end.
Fixpoint adjacent_equal (l : list ParsedRelease) : bool :=
  match l with
  | a :: rest => match rest with b :: _ => same_precedence a.(pr_version) b.(pr_version) | [] => false end || adjacent_equal rest
  | [] => false
  end.

Record ReleaseSelection := {
  rs_version : SemVersion;
  archive_name : string;
  archive_url : string;
  checksum_name : string;
  checksum_url : string
}.

Inductive DiscoveryOutcome := CurrentVersion (v : SemVersion) | UpdateTo (selection : ReleaseSelection).

(** ** Discovery *)

(** [UpdateTransport::get_bytes]. *)
Class Releases := get_bytes : string -> N -> result string UpdateError.

Section Discover.
Context {releases : Releases} {json : MarkerJson}.

Definition page_url (source : ReleaseSource) (page : N) : string :=
  trim_end_slashes source.(api_base) ++ "/repos/" ++ source.(repository) ++ "/releases?per_page="
  ++ pretty (N.of_nat RELEASE_PAGE_SIZE) ++ "&page=" ++ pretty page.

Definition read_page (source : ReleaseSource) (page : N) : result (list Value) UpdateError :=
  let? body := get_bytes (page_url source page) MAX_RELEASE_RESPONSE in
  let? v := map_err (fun error => Network ("invalid release API response: " ++ error)) (marker_parse body) in
  match v with
  | Array l => Ok l
  | _ => Err (Network "release API returned a non-array response")
  end.

(** The loop over pages, with [n] of them left. *)
Fixpoint read_pages (source : ReleaseSource) (n : nat) (page : N) (found : list ParsedRelease) : result (list ParsedRelease) UpdateError :=
  match n with
  | 0 => Ok found
  | S n =>
      let? listed := read_page source page in
      let? parsed := collect parse_release (filterb (fun v => negb (is_draft v)) listed) in
      let found := (found ++ parsed)%list in
      if (length listed <? RELEASE_PAGE_SIZE)%nat then Ok found
      else
        reject_if (page =? N.of_nat MAX_RELEASE_PAGES)%N (Refused "release listing exceeded the pagination bound") ?;
        read_pages source n (page + 1) found
  end.

Definition select_latest (source : ReleaseSource) (current : SemVersion) (target : string) (latest : ParsedRelease)
    : result DiscoveryOutcome UpdateError :=
  let version := version_text latest.(pr_version) in
  let archive := "haider-v" ++ version ++ "-" ++ target ++ "-split.tar.xz" in
  let checksum := archive ++ ".sha256" in
  let? urls := match asset_urls latest archive, asset_urls latest checksum with
               | [a], [c] => Ok (a, c)
               | _, _ => Err (Refused ("release v" ++ version ++ " does not contain exactly one `" ++ archive ++ "` and one `" ++ checksum ++ "`"))
               end in
  validate_asset_url source urls.1 ?;
  validate_asset_url source urls.2 ?;
  match compare_version latest.(pr_version) current with
  | Lt => Err (Refused ("latest published release v" ++ version ++ " is older than running version v" ++ version_text current))
  | Eq => Ok (CurrentVersion current)
  | Gt => Ok (UpdateTo {| rs_version := latest.(pr_version); archive_name := archive; archive_url := urls.1;
                          checksum_name := checksum; checksum_url := urls.2 |})
  end.

Definition discover (source : ReleaseSource) (current target : string) : result DiscoveryOutcome UpdateError :=
  validate_source source ?;
  let? current := map_err (fun message => Internal ("running binary has an invalid version: " ++ message)) (parse_version current) in
  let? found := read_pages source MAX_RELEASE_PAGES 1 [] in
  let sorted := sort_releases found in
  reject_if (adjacent_equal sorted) (Refused "release listing contains duplicate SemVer precedence") ?;
  let? latest := ok_or (last sorted) (Refused "no published releases were found") in
  select_latest source current target latest.
End Discover.

Local Close Scope res_scope.

(** ** Decimal numbers *)

Definition canonical_digits (s : string) : Prop :=
  is_empty s = false /\ all_bytes is_ascii_digit s = true /\ leading_zero s = false.

Lemma digit_bound c : is_ascii_digit c = true -> (digit_val c < 10)%N.
Proof. unfold is_ascii_digit, digit_val. intros H. guards. lia. Qed.
Lemma digit_inj c d : is_ascii_digit c = true -> is_ascii_digit d = true -> digit_val c = digit_val d -> c = d.
Proof.
  unfold is_ascii_digit, digit_val, byte_val. intros Hc Hd E. guards. rewrite <-(ascii_N_embedding c), <-(ascii_N_embedding d). f_equal. lia.
Qed.

Lemma parse_digits_app a s t : parse_digits a (s ++ t) = (n ← parse_digits a s; parse_digits n t).
Proof. revert a. induction s as [|c s IH]; intros a; simpl; [done|]. destruct (is_ascii_digit c); [apply IH|done]. Qed.
Lemma parse_digits_all a s : all_bytes is_ascii_digit s = true -> exists n, parse_digits a s = Some n.
Proof.
  revert a. induction s as [|c s IH]; intros a; simpl; [eauto|]. intros [-> Hs]%andb_true_iff. by apply IH.
Qed.
Lemma parse_digits_bounds a s n :
  parse_digits a s = Some n -> (a * 10 ^ len s <= n < (a + 1) * 10 ^ len s)%N.
Proof.
  unfold len. revert a. induction s as [|c s IH]; intros a; simpl; [intros [=->]; simpl; lia|].
  destruct (is_ascii_digit c) eqn:Hc; [|done]. intros H%IH. apply digit_bound in Hc.
  rewrite Nat2N.inj_succ, N.pow_succ_r'. set (k := (10 ^ N.of_nat (String.length s))%N) in *. nia.
Qed.

Lemma parse_digits_inj a b s t n :
  len s = len t -> parse_digits a s = Some n -> parse_digits b t = Some n -> a = b /\ s = t.
Proof.
  unfold len. revert a b t. induction s as [|c s IH]; intros a b [|d t] Hl; simpl in *; try lia; [naive_solver|].
  destruct (is_ascii_digit c) eqn:Hc; [|done]. destruct (is_ascii_digit d) eqn:Hd; [|done]. intros H1 H2.
  destruct (IH (10 * a + digit_val c)%N (10 * b + digit_val d)%N t ltac:(lia) H1 H2) as [E ->]. pose proof (digit_bound _ Hc). pose proof (digit_bound _ Hd).
  assert (a = b /\ digit_val c = digit_val d) as [-> Ed] by lia. split; [done|]. f_equal. by apply digit_inj.
Qed.

Lemma leading_digit c s n :
  leading_zero (String c s) = false -> is_empty s = false -> parse_digits 0 (String c s) = Some n -> (10 ^ len s <= n)%N.
Proof.
  intros Hz Hs. simpl. destruct (is_ascii_digit c) eqn:Hc; [|done]. intros H%parse_digits_bounds.
  assert (Hne : digit_val c <> 0%N).
  { intros E. assert (c = "0"%char) as -> by (apply digit_inj; done). unfold leading_zero in Hz. destruct s as [|d s]; [done|].
    apply andb_false_iff in Hz as [Hz|Hz]; [|done]. apply N.ltb_ge in Hz. unfold len in Hz. simpl in Hz. lia. }
  nia.
Qed.

Lemma canonical_shorter s t n :
  canonical_digits s -> canonical_digits t -> parse_digits 0 s = Some n -> parse_digits 0 t = Some n -> ~ (len s < len t)%N.
Proof.
  intros (Hs&_&_) (Ht&_&Hz) H1%parse_digits_bounds H2 Hlt. destruct t as [|c t]; [done|].
  assert (He : is_empty t = false) by (destruct t, s; unfold len in *; simpl in *; [lia|lia|done..]).
  apply (leading_digit c t n Hz He) in H2. assert (len s <= len t)%N by (unfold len in *; simpl in *; lia).
  assert (10 ^ len s <= 10 ^ len t)%N by (apply N.pow_le_mono_r; lia). lia.
Qed.

(** Two canonical numerals of one number are the same. *)
Lemma canonical_unique s t n :
  canonical_digits s -> canonical_digits t -> parse_digits 0 s = Some n -> parse_digits 0 t = Some n -> s = t.
Proof.
  intros Hs Ht H1 H2. destruct (N.lt_total (len s) (len t)) as [Hlt|[E|Hlt]].
  - by destruct (canonical_shorter s t n).
  - by eapply parse_digits_inj.
  - by destruct (canonical_shorter t s n).
Qed.

Lemma pretty_char d : (d < 10)%N -> is_ascii_digit (pretty_N_char d) = true /\ digit_val (pretty_N_char d) = d.
Proof.
  intros Hd. assert (Hall : Forall (fun d => is_ascii_digit (pretty_N_char d) = true /\ digit_val (pretty_N_char d) = d) (map N.of_nat (seq 0 10))) by (repeat constructor).
  rewrite Forall_forall in Hall. apply Hall, list_elem_of_fmap. exists (N.to_nat d). rewrite N2Nat.id. split; [done|]. apply elem_of_seq. lia.
Qed.

Lemma pretty_go n t :
  (0 < n)%N -> exists c u, pretty_N_go n t = String c u ++ t /\ digit_val c <> 0%N /\
    all_bytes is_ascii_digit (String c u) = true /\ parse_digits 0 (String c u) = Some n.
Proof.
  revert t. induction (N.lt_wf_0 n) as [n _ IH]; intros t Hn. rewrite pretty_N_go_step by done.
  assert (Hdm := N.div_mod n 10 ltac:(lia)). assert (Hm := N.mod_lt n 10 ltac:(lia)).
  destruct (pretty_char _ Hm) as [Hd Hv]. destruct (decide (n / 10 = 0)%N) as [Hz|Hz].
  - rewrite Hz, pretty_N_go_0. exists (pretty_N_char (n mod 10)), "". simpl. rewrite Hd. split_and!; [done|lia|done|]. f_equal. lia.
  - destruct (IH (n / 10)%N ltac:(apply N.div_lt; lia) (String (pretty_N_char (n mod 10)) t) ltac:(lia)) as (c&u&E&Hc&Ha&Hp).
    exists c, (u ++ String (pretty_N_char (n mod 10)) ""). rewrite E. split_and!; [|done|..].
    + simpl. f_equal. by rewrite str_app_assoc.
    + simpl in *. apply andb_true_iff in Ha as [-> Ha]. rewrite all_bytes_app, Ha. simpl. by rewrite Hd.
    + change (String c (u ++ String (pretty_N_char (n mod 10)) "")) with (String c u ++ String (pretty_N_char (n mod 10)) "").
      rewrite parse_digits_app, Hp. simpl. rewrite Hd. f_equal. lia.
Qed.

Lemma pretty_canonical (n : N) : canonical_digits (pretty n) /\ parse_digits 0 (pretty n) = Some n.
Proof.
  unfold pretty, pretty_N. destruct (decide (n = 0%N)) as [->|Hn]; [done|].
  destruct (pretty_go n "" ltac:(lia)) as (c&u&E&Hc&Ha&Hp). rewrite E, str_app_nil_r. split; [|done]. split_and!; [done..|].
  unfold leading_zero. apply andb_false_iff. right. unfold starts_with. apply bool_decide_eq_false. simpl.
  case_bool_decide as Ec; [subst c; done|by intros []].
Qed.

(** Numerals that fit are read back, and only they. *)
Lemma parse_decimal_iff s n :
  canonical_digits s /\ parse_decimal s = Some n <-> s = pretty n /\ (n <= u64_max)%N.
Proof.
  destruct (pretty_canonical n) as [Hp Hv]. unfold parse_decimal. split.
  - intros [Hs Hd]. destruct (parse_digits 0 s) as [m|] eqn:E; [|done]. simpl in Hd.
    destruct (N.ltb_spec u64_max m) as [Hlt|Hle]; [done|]. simplify_eq. split; [by eapply canonical_unique|done].
  - intros [-> Hn]. split; [done|]. rewrite Hv. simpl. by rewrite (proj2 (N.ltb_ge _ _)).
Qed.

(** ** Versions *)

Definition valid_identifier (i : Identifier) : Prop :=
  match i with
  | Numeric n => (n <= u64_max)%N
  | Text s => bad_identifier s = false /\ all_bytes is_ascii_digit s = false
  end.
Record valid_version (v : SemVersion) : Prop := {
  vv_major : (v.(sv_major) <= u64_max)%N;
  vv_minor : (v.(sv_minor) <= u64_max)%N;
  vv_patch : (v.(sv_patch) <= u64_max)%N;
  vv_pre : Forall valid_identifier v.(sv_pre);
  vv_build : Forall (fun part => bad_identifier part = false) v.(sv_build)
}.

Lemma parse_core_number_iff value what n :
  parse_core_number value what = Ok n <-> value = Some (pretty n) /\ (n <= u64_max)%N.
Proof.
  unfold parse_core_number. split.
  - intros H. apply result_bind_ok in H as (s&->%ok_or_ok&H). apply result_bind_ok in H as ([]&Hg%reject_if_ok&Hp%ok_or_ok).
    apply orb_false_iff in Hg as [[He Hd%negb_false_iff]%orb_false_iff Hz].
    by destruct (proj1 (parse_decimal_iff s n) (conj (conj He (conj Hd Hz)) Hp)) as [-> ?].
  - intros [-> Hn]. simpl. destruct (proj2 (parse_decimal_iff (pretty n) n) (conj eq_refl Hn)) as [(He&Hd&Hz) Hp].
    rewrite He, Hd, Hz, Hp. done.
Qed.

Lemma digit_identifier c : is_ascii_digit c = true -> identifier_byte c = true.
Proof. intros Hc. unfold identifier_byte, is_ascii_alphanumeric. by rewrite Hc, ?orb_true_r. Qed.

Lemma parse_identifier_iff part i :
  parse_identifier true part = Ok i <-> part = identifier_text i /\ valid_identifier i.
Proof.
  unfold parse_identifier. split.
  - intros H. apply result_bind_ok in H as ([]&Hb&H). apply reject_if_ok in Hb.
    destruct (all_bytes is_ascii_digit part) eqn:Hd; [|by simplify_eq/=].
    apply result_bind_ok in H as ([]&Hz%reject_if_ok&H). apply result_bind_ok in H as (n&Hp%ok_or_ok&[= <-]).
    apply orb_false_iff in Hb as [He _]. by destruct (proj1 (parse_decimal_iff part n) (conj (conj He (conj Hd Hz)) Hp)) as [-> ?].
  - intros [-> Hv]. destruct i as [n|s]; simpl in *.
    + destruct (proj2 (parse_decimal_iff (pretty n) n) (conj eq_refl Hv)) as [(He&Hd&Hz) Hp]. unfold bad_identifier.
      rewrite He, Hd, Hz, Hp. rewrite (all_bytes_impl is_ascii_digit identifier_byte); [done|apply digit_identifier|done].
    + destruct Hv as [-> ->]. done.
Qed.

(** *** Separators *)

Lemma collect_iff {A B E} (f : A -> result B E) l bs : collect f l = Ok bs <-> Forall2 (fun a b => f a = Ok b) l bs.
Proof.
  revert bs. induction l as [|a l IH]; intros bs; simpl.
  - split; [intros [= <-]; constructor|]. by inversion 1.
  - rewrite result_bind_ok. split.
    + intros (b&Hb&H). apply result_bind_ok in H as (bs'&H%IH&[= <-]). by constructor.
    + inversion 1 as [|? b ? bs' Hb Hbs]; subst. exists b. split; [done|]. apply IH in Hbs as ->. done.
Qed.

Lemma all_bytes_no_byte p c s : p c = false -> all_bytes p s = true -> no_byte c s = true.
Proof.
  intros Hc. apply all_bytes_impl. intros d Hd. apply negb_true_iff, bool_decide_eq_false. intros ->. congruence.
Qed.

Lemma split_char_join c l : l <> [] -> Forall (fun s => no_byte c s = true) l -> split_char c (join (String c "") l) = l.
Proof.
  induction l as [|x [|y l] IH]; intros Hne Hl; [done|..]; apply Forall_cons in Hl as [Hx Hl].
  - by apply split_char_single.
  - change (join (String c "") (x :: y :: l)) with (x ++ String c (join (String c "") (y :: l))).
    rewrite split_char_app by done. by rewrite IH.
Qed.

(** The pieces between dots. *)
Lemma split_dots s l : Forall (fun s => no_byte "."%char s = true) l -> l <> [] ->
  (split_char "."%char s = l <-> s = join "." l).
Proof.
  intros Hl Hne. split; [intros <-; symmetry; apply join_split_char|]. intros ->. by apply split_char_join.
Qed.

Lemma good_identifier part : bad_identifier part = false -> is_empty part = false /\ all_bytes identifier_byte part = true.
Proof. unfold bad_identifier. intros [? ?%negb_false_iff]%orb_false_iff. done. Qed.

Lemma identifier_bytes i : valid_identifier i -> is_empty (identifier_text i) = false /\ all_bytes identifier_byte (identifier_text i) = true.
Proof.
  destruct i as [n|s]; simpl; [|by intros [?%good_identifier _]]. intros _. destruct (pretty_canonical n) as [(He&Hd&_) _].
  split; [done|]. by eapply all_bytes_impl; [apply digit_identifier|].
Qed.

Lemma texts_no_byte c l : identifier_byte c = false -> Forall valid_identifier l -> Forall (fun s => no_byte c s = true) (map identifier_text l).
Proof.
  intros Hc Hl. apply Forall_map. eapply Forall_impl; [exact Hl|]. intros i [_ Hb]%identifier_bytes. by eapply all_bytes_no_byte.
Qed.

Lemma parse_identifiers_iff s l :
  parse_identifiers s true = Ok l <-> l <> [] /\ s = join "." (map identifier_text l) /\ Forall valid_identifier l.
Proof.
  unfold parse_identifiers. rewrite collect_iff.
  assert (Hf : Forall2 (fun a b => parse_identifier true a = Ok b) (split_char "."%char s) l <->
               split_char "."%char s = map identifier_text l /\ Forall valid_identifier l).
  { generalize (split_char "."%char s). intros ps. revert l. induction ps as [|p ps IH]; intros [|i l]; simpl.
    - split; [by repeat constructor|constructor].
    - split; [inversion 1|by intros [? _]].
    - split; [inversion 1|by intros [? _]].
    - rewrite Forall2_cons, IH, parse_identifier_iff, Forall_cons. naive_solver. }
  rewrite Hf. split.
  - intros [Hs Hv]. assert (Hne : l <> []).
    { intros ->. by apply split_char_nonempty in Hs. }
    split_and!; [done| |done]. apply split_dots in Hs; [done|by apply texts_no_byte|]. by destruct l.
  - intros (Hne&->&Hv). split; [|done]. apply split_dots; [by apply texts_no_byte|by destruct l|done].
Qed.

Lemma parse_build_iff s l :
  parse_build_identifiers s = Ok l <-> l <> [] /\ s = join "." l /\ Forall (fun part => bad_identifier part = false) l.
Proof.
  unfold parse_build_identifiers. rewrite collect_iff.
  assert (Hf : Forall2 (fun part b => (if bad_identifier part then Err "invalid empty or non-ASCII identifier" else Ok part) = Ok b)
      (split_char "."%char s) l <-> split_char "."%char s = l /\ Forall (fun part => bad_identifier part = false) l).
  { generalize (split_char "."%char s). intros ps. revert l. induction ps as [|p ps IH]; intros [|i l]; simpl.
    - split; [by repeat constructor|constructor].
    - split; [inversion 1|by intros [? _]].
    - split; [inversion 1|by intros [? _]].
    - rewrite Forall2_cons, IH, Forall_cons. destruct (bad_identifier p) eqn:E; split.
      + by intros [? _].
      + intros ([= -> ->]&Hb&_). congruence.
      + intros ([= ->]&->&?). done.
      + by intros ([= -> ->]&_&?). }
  assert (Hn : Forall (fun part => bad_identifier part = false) l -> Forall (fun s => no_byte "."%char s = true) l).
  { intros Hl. eapply Forall_impl; [exact Hl|]. intros p [_ Hb]%good_identifier. by apply (all_bytes_no_byte identifier_byte). }
  rewrite Hf. split.
  - intros [Hs Hv]. assert (Hne : l <> []) by (intros ->; by apply split_char_nonempty in Hs).
    split_and!; [done| |done]. apply split_dots in Hs; auto.
  - intros (Hne&->&Hv). split; [|done]. apply split_dots; auto.
Qed.

(** *** The whole version *)

Definition core_text (v : SemVersion) : string := join "." [pretty v.(sv_major); pretty v.(sv_minor); pretty v.(sv_patch)].
Definition pre_text (v : SemVersion) : option string :=
  match v.(sv_pre) with [] => None | l => Some (join "." (map identifier_text l)) end.
Definition build_text (v : SemVersion) : option string := match v.(sv_build) with [] => None | l => Some (join "." l) end.
Definition suffix (separator : string) (o : option string) : string := match o with Some s => separator ++ s | None => "" end.

Lemma version_parts v : version_text v = (core_text v ++ suffix "-" (pre_text v)) ++ suffix "+" (build_text v).
Proof.
  unfold version_text, core_text, pre_text, build_text.
  destruct (sv_pre v), (sv_build v); cbn [suffix join]; rewrite !str_app_assoc; done.
Qed.

(** A separator that does not occur before it is found. *)
Lemma split_at_parts c a o :
  no_byte c a = true -> split_at (a ++ suffix (String c "") o) (String c "") = (a, o).
Proof.
  intros Ha. unfold split_at. destruct o as [b|]; simpl.
  - by rewrite split_once_byte.
  - by rewrite str_app_nil_r, split_once_byte_none.
Qed.
Lemma split_at_inv c s a o : split_at s (String c "") = (a, o) -> s = a ++ suffix (String c "") o.
Proof.
  unfold split_at. destruct (split_once _ s) as [[x y]|] eqn:E; intros [= <- <-]; simpl.
  - by apply split_once_some in E.
  - by rewrite str_app_nil_r.
Qed.

Lemma join_all_bytes p l : p "."%char = true -> Forall (fun s => all_bytes p s = true) l -> all_bytes p (join "." l) = true.
Proof.
  intros Hp Hl. induction Hl as [|x [|y l] Hx Hl IH]; [done|done|].
  change (join "." (x :: y :: l)) with (x ++ String "." (join "." (y :: l))). rewrite all_bytes_app, Hx. simpl. by rewrite Hp.
Qed.

(** Bytes of the core, of a prerelease and of a whole version. *)
Definition core_byte (c : ascii) : bool := is_ascii_digit c || Ascii.eqb c "."%char.
Definition pre_byte (c : ascii) : bool := identifier_byte c || Ascii.eqb c "."%char.
Definition version_byte (c : ascii) : bool := pre_byte c || Ascii.eqb c "+"%char.

Lemma core_bytes v : all_bytes core_byte (core_text v) = true.
Proof.
  assert (Hn : forall n : N, all_bytes core_byte (pretty n) = true).
  { intros n. destruct (pretty_canonical n) as [(_&Hd&_) _]. eapply all_bytes_impl; [|exact Hd]. intros c. unfold core_byte. by intros ->. }
  apply join_all_bytes; [done|]. by repeat constructor.
Qed.
Lemma core_pre c : core_byte c = true -> pre_byte c = true.
Proof. unfold core_byte, pre_byte. intros [H%digit_identifier|H]%orb_true_iff; rewrite H, ?orb_true_r; done. Qed.

Lemma pre_bytes v : valid_version v -> all_bytes pre_byte (core_text v ++ suffix "-" (pre_text v)) = true.
Proof.
  intros Hv. rewrite all_bytes_app. apply andb_true_iff. split; [eapply all_bytes_impl; [apply core_pre|apply core_bytes]|].
  unfold pre_text. destruct (sv_pre v) as [|i l] eqn:E; [done|]. cbn [suffix]. rewrite all_bytes_app.
  apply andb_true_iff. split; [done|]. apply join_all_bytes; [done|]. rewrite <-E. apply Forall_map. eapply Forall_impl; [apply Hv|]. intros j [_ Hb]%identifier_bytes.
  eapply all_bytes_impl; [|exact Hb]. intros c. unfold pre_byte. by intros ->.
Qed.

Lemma version_clean v : valid_version v -> is_empty (version_text v) = false /\ trim (version_text v) = version_text v.
Proof.
  intros Hv. assert (Hne : is_empty (version_text v) = false).
  { unfold version_text. destruct (pretty_canonical (sv_major v)) as [(He&_) _]. by destruct (pretty (sv_major v)). }
  split; [done|]. assert (Hb : all_bytes version_byte (version_text v) = true).
  { rewrite version_parts, all_bytes_app. apply andb_true_iff. split.
    - eapply all_bytes_impl; [|by apply pre_bytes]. intros c. unfold version_byte. by intros ->.
    - unfold build_text. destruct (sv_build v) as [|p l] eqn:E; [done|]. cbn [suffix]. rewrite all_bytes_app. apply andb_true_iff.
      split; [done|]. apply join_all_bytes; [done|]. rewrite <-E. eapply Forall_impl; [apply Hv|]. intros q [_ Hq]%good_identifier.
      eapply all_bytes_impl; [|exact Hq]. intros c. unfold version_byte, pre_byte. by intros ->. }
  assert (Hc : clean (version_text v)).
  { apply plain_clean; [by intros E; rewrite E in Hne|]. eapply all_bytes_impl; [|exact Hb]. intros c.
    assert (Hall : forallb (fun c => implb (version_byte c) (plain c)) (map ascii_of_nat (seq 0 256)) = true) by by vm_compute.
    rewrite forallb_forall in Hall. intros Hx. specialize (Hall c). rewrite Hx in Hall. apply Hall. apply in_map_iff.
    exists (nat_of_ascii c). split; [apply ascii_nat_embedding|]. apply in_seq. pose proof (nat_ascii_bounded c). lia. }
  destruct Hc as (_&_&Hf). apply trim_id.
  - intros g Hg. rewrite Forall_forall in Hf. apply Hf. destruct (chars _); [done|]. simplify_eq/=. by left.
  - intros g Hg. rewrite Forall_forall in Hf. by apply Hf, last_Some_elem_of.
Qed.

Lemma parse_pre_iff o l :
  match o with Some value => parse_identifiers value true | None => Ok [] end = Ok l <->
  o = match l with [] => None | _ => Some (join "." (map identifier_text l)) end /\ Forall valid_identifier l.
Proof.
  destruct o as [s|].
  - rewrite parse_identifiers_iff. destruct l; naive_solver.
  - destruct l; naive_solver.
Qed.
Lemma parse_build_opt_iff o l :
  match o with Some value => parse_build_identifiers value | None => Ok [] end = Ok l <->
  o = match l with [] => None | _ => Some (join "." l) end /\ Forall (fun part => bad_identifier part = false) l.
Proof.
  destruct o as [s|].
  - rewrite parse_build_iff. destruct l; naive_solver.
  - destruct l; naive_solver.
Qed.

Lemma core_pieces core a b c :
  (split_char "."%char core !! 0 = Some (pretty a) /\ split_char "."%char core !! 1 = Some (pretty b) /\
   split_char "."%char core !! 2 = Some (pretty c) /\ split_char "."%char core !! 3 = None) <->
  core = join "." [pretty (a : N); pretty (b : N); pretty (c : N)].
Proof.
  assert (Hn : forall n : N, no_byte "."%char (pretty n) = true).
  { intros n. destruct (pretty_canonical n) as [(_&Hd&_) _]. by apply (all_bytes_no_byte is_ascii_digit). }
  rewrite <-(split_dots core [pretty a; pretty b; pretty c]) by (by repeat constructor || done).
  split; [|by intros ->]. destruct (split_char _ core) as [|x [|y [|z [|u l]]]]; naive_solver.
Qed.

(** C25: Versions are read exactly.  [SemVersion::parse] accepts precisely the
    texts that [Display] writes for valid versions: numbers without leading
    zeros that fit 64 bits, identifiers of letters, digits and dashes; and the
    version it returns prints as the text that was read, so the archive name a
    release is looked up by is the one its tag spells. *)
Theorem version_round_trip s v : parse_version s = Ok v <-> s = version_text v /\ valid_version v.
Proof.
  unfold parse_version. split.
  - intros H. apply result_bind_ok in H as ([]&_&H).
    destruct (split_at s "+") as [without build] eqn:Eb. destruct (split_at without "-") as [core pre] eqn:Ep.
    apply split_at_inv in Eb as ->. apply split_at_inv in Ep as ->. res_invert.
    rewrite parse_core_number_iff in *. apply parse_pre_iff in Hstep3 as [-> Hpre]. apply parse_build_opt_iff in Hstep4 as [-> Hbuild].
    destruct_and?. simplify_eq. rewrite version_parts. split; [|done].
    assert (core = join "." [pretty v0; pretty v1; pretty v2]) as ->.
    { apply core_pieces. split_and!; [done..|]. apply bool_decide_eq_false in Hstep2. by apply eq_None_not_Some. }
    by destruct v4, v5.
  - intros [-> Hv]. destruct (version_clean v Hv) as [-> ->]. rewrite String.eqb_refl. simpl. rewrite version_parts.
    rewrite split_at_parts by (apply (all_bytes_no_byte pre_byte); [done|by apply pre_bytes]).
    rewrite split_at_parts by (apply (all_bytes_no_byte core_byte); [done|apply core_bytes]).
    destruct (proj2 (core_pieces (core_text v) _ _ _) eq_refl) as (-> & -> & -> & ->).
    destruct Hv as [Ha Hb Hc Hp Hbu].
    rewrite (proj2 (parse_core_number_iff _ "major" _) (conj eq_refl Ha)), (proj2 (parse_core_number_iff _ "minor" _) (conj eq_refl Hb)),
      (proj2 (parse_core_number_iff _ "patch" _) (conj eq_refl Hc)). cbn [result_bind].
    rewrite bool_decide_false by (by intros []). cbn [reject_if result_bind].
    rewrite (proj2 (parse_pre_iff (pre_text v) (sv_pre v))) by (split; [by unfold pre_text; destruct (sv_pre v)|done]).
    cbn [result_bind]. rewrite (proj2 (parse_build_opt_iff (build_text v) (sv_build v))) by (split; [by unfold build_text; destruct (sv_build v)|done]).
    by destruct v.
Qed.

(** ** Precedence is an order *)

(** A comparison that is a strict total order. *)
Class Ordered {A} (cmp : A -> A -> comparison) : Prop := {
  cmp_opp : forall a b, cmp b a = CompOpp (cmp a b);
  cmp_eq : forall a b, cmp a b = Eq <-> a = b;
  cmp_trans : forall a b c, cmp a b = Lt -> cmp b c = Lt -> cmp a c = Lt
}.

#[export] Instance N_ordered : Ordered N.compare.
Proof.
  split; [apply N.compare_antisym|apply N.compare_eq_iff|]. intros a b c. rewrite !N.compare_lt_iff. lia.
Qed.

Lemma then_with_opp a b : CompOpp (then_with a b) = then_with (CompOpp a) (CompOpp b).
Proof. by destruct a. Qed.
Lemma then_with_eq a b : then_with a b = Eq <-> a = Eq /\ b = Eq.
Proof. destruct a; naive_solver. Qed.
Lemma then_with_lt a b : then_with a b = Lt <-> a = Lt \/ a = Eq /\ b = Lt.
Proof. destruct a; naive_solver. Qed.

(** Lexicographic orders of pairs and of lists. *)
Definition pair_cmp {A B} (f : A -> A -> comparison) (g : B -> B -> comparison) (x y : A * B) : comparison :=
  then_with (f x.1 y.1) (g x.2 y.2).
#[export] Instance pair_ordered {A B} (f : A -> A -> comparison) (g : B -> B -> comparison) :
  Ordered f -> Ordered g -> Ordered (pair_cmp f g).
Proof.
  intros Hf Hg. unfold pair_cmp. split.
  - intros a b. by rewrite then_with_opp, <-!cmp_opp.
  - intros [] []. rewrite then_with_eq, !cmp_eq. simpl. naive_solver.
  - intros [a a'] [b b'] [c c']. rewrite !then_with_lt, !cmp_eq. simpl.
    intros [H1|[-> H1]] [H2|[<- H2]]; [left; by eapply cmp_trans|by left|by left|right; split; [done|by eapply cmp_trans]].
Qed.

Fixpoint list_cmp {A} (f : A -> A -> comparison) (l r : list A) : comparison :=
  match l, r with
  | [], [] => Eq
  | [], _ => Lt
  | _, [] => Gt
  | a :: l, b :: r => then_with (f a b) (list_cmp f l r)
  end.
#[export] Instance list_ordered {A} (f : A -> A -> comparison) : Ordered f -> Ordered (list_cmp f).
Proof.
  intros Hf. split.
  - induction a as [|a l IH]; intros [|b r]; simpl; [done..|]. by rewrite then_with_opp, <-cmp_opp, IH.
  - induction a as [|a l IH]; intros [|b r]; simpl; [done..|]. rewrite then_with_eq, cmp_eq, IH. naive_solver.
  - induction a as [|a l IH]; intros [|b r] [|c s]; simpl; try done. rewrite !then_with_lt, !cmp_eq.
    intros [H1|[-> H1]] [H2|[<- H2]]; [left; by eapply cmp_trans|by left|by left|right; split; [done|by eapply IH]].
Qed.

(** The order of a key that determines the value. *)
Lemma key_ordered {A B} (key : A -> B) (f : B -> B -> comparison) :
  Ordered f -> (forall a b, key a = key b -> a = b) -> Ordered (fun a b => f (key a) (key b)).
Proof.
  intros Hf Hk. split.
  - intros a b. apply cmp_opp.
  - intros a b. rewrite cmp_eq. split; [apply Hk|by intros ->].
  - intros a b c. apply cmp_trans.
Qed.

Fixpoint string_bytes (s : string) : list N := match s with "" => [] | String c s => N_of_ascii c :: string_bytes s end.
Lemma string_bytes_inj s t : string_bytes s = string_bytes t -> s = t.
Proof.
  revert t. induction s as [|c s IH]; intros [|d t]; simpl; try done. intros [= Hc Hs]. f_equal; [|auto].
  by rewrite <-(ascii_N_embedding c), <-(ascii_N_embedding d), Hc.
Qed.
Lemma string_compare_bytes s t : String.compare s t = list_cmp N.compare (string_bytes s) (string_bytes t).
Proof.
  revert t. induction s as [|c s IH]; intros [|d t]; simpl; [done..|]. rewrite <-IH. unfold Ascii.compare. by destruct (N.compare _ _).
Qed.
#[export] Instance string_ordered : Ordered String.compare.
Proof.
  destruct (key_ordered string_bytes (list_cmp N.compare) _ string_bytes_inj) as [H1 H2 H3].
  split; intros *; rewrite !string_compare_bytes; [apply H1|apply H2|apply H3].
Qed.

#[export] Instance identifier_ordered : Ordered compare_identifier.
Proof.
  split.
  - intros [n|s] [m|t]; simpl; [apply cmp_opp|done..|apply cmp_opp].
  - intros [n|s] [m|t]; simpl; [rewrite cmp_eq; naive_solver|done..|rewrite cmp_eq; naive_solver].
  - intros [n|s] [m|t] [k|u]; simpl; try done; apply cmp_trans.
Qed.

Lemma compare_pre_list l r : compare_pre l r = list_cmp compare_identifier l r.
Proof.
  unfold compare_pre. revert r. induction l as [|a l IH]; intros [|b r]; simpl; [done..|]. by rewrite <-IH.
Qed.

(** What precedence looks at: a release counts as greater than its prereleases. *)
Definition precedence_key (v : SemVersion) : ((N * N) * N) * (N * list Identifier) :=
  (((v.(sv_major), v.(sv_minor)), v.(sv_patch)), (match v.(sv_pre) with [] => 1 | _ => 0 end, v.(sv_pre)))%N.
Definition key_cmp : ((N * N) * N) * (N * list Identifier) -> ((N * N) * N) * (N * list Identifier) -> comparison :=
  pair_cmp (pair_cmp (pair_cmp N.compare N.compare) N.compare) (pair_cmp N.compare (list_cmp compare_identifier)).

Lemma compare_version_key a b : compare_version a b = key_cmp (precedence_key a) (precedence_key b).
Proof.
  unfold compare_version, key_cmp, pair_cmp, precedence_key. simpl. f_equal.
  destruct (sv_pre a), (sv_pre b); simpl; try done. by rewrite compare_pre_list.
Qed.

Lemma precedence_key_eq a b :
  precedence_key a = precedence_key b <->
  a.(sv_major) = b.(sv_major) /\ a.(sv_minor) = b.(sv_minor) /\ a.(sv_patch) = b.(sv_patch) /\ a.(sv_pre) = b.(sv_pre).
Proof. unfold precedence_key. split; [naive_solver|]. by intros (-> & -> & -> & ->). Qed.

(** Precedence is a total order.  Comparing the other way round gives the
    opposite answer; versions compare as equal exactly when they agree up to
    build metadata; and the order is transitive, so "newer than the running
    version" and "the latest release" do not depend on the order releases are
    listed in. *)
Theorem precedence_total :
  (forall a b, compare_version b a = CompOpp (compare_version a b)) /\
  (forall a b, compare_version a b = Eq <->
     a.(sv_major) = b.(sv_major) /\ a.(sv_minor) = b.(sv_minor) /\ a.(sv_patch) = b.(sv_patch) /\ a.(sv_pre) = b.(sv_pre)) /\
  (forall a b c, compare_version a b = Lt -> compare_version b c = Lt -> compare_version a c = Lt).
Proof.
  assert (Ho : Ordered key_cmp) by apply _. split_and!; intros *; rewrite !compare_version_key.
  - apply cmp_opp.
  - by rewrite cmp_eq, precedence_key_eq.
  - apply cmp_trans.
Qed.

(** ** The latest release *)

Definition older (a b : ParsedRelease) : Prop := compare_version a.(pr_version) b.(pr_version) = Lt.
Definition not_newer (a b : ParsedRelease) : Prop := compare_version a.(pr_version) b.(pr_version) <> Gt.

Lemma older_trans a b c : older a b -> older b c -> older a c.
Proof. apply precedence_total. Qed.
Lemma not_gt_opp a b : compare_version a b = Gt -> compare_version b a = Lt.
Proof. intros H. rewrite (proj1 precedence_total a b), H. done. Qed.

Lemma insert_permutation r l : Permutation (insert_release r l) (r :: l).
Proof.
  induction l as [|s l IH]; simpl; [done|]. destruct (compare_version _ _); [done..|]. rewrite IH. constructor.
Qed.
Lemma sort_permutation l : Permutation (sort_releases l) l.
Proof. induction l as [|r l IH]; simpl; [done|]. rewrite insert_permutation. by constructor. Qed.

Lemma insert_head r s l : not_newer s r -> HdRel not_newer s l -> HdRel not_newer s (insert_release r l).
Proof. intros Hr Hl. destruct l as [|t l]; simpl; [by constructor|]. inversion Hl; subst. destruct (compare_version _ _); by constructor. Qed.
Lemma insert_sorted_releases r l : Sorted not_newer l -> Sorted not_newer (insert_release r l).
Proof.
  induction 1 as [|s l Hl IH Hh]; simpl; [repeat constructor|].
  destruct (compare_version (pr_version r) (pr_version s)) eqn:E.
  1-2: constructor; [by constructor|]; constructor; unfold not_newer; by rewrite E.
  constructor; [done|]. apply insert_head; [|done]. unfold not_newer. by rewrite (not_gt_opp _ _ E).
Qed.
Lemma sort_sorted l : Sorted not_newer (sort_releases l).
Proof. induction l as [|r l IH]; simpl; [constructor|by apply insert_sorted_releases]. Qed.

Lemma distinct_increasing l : Sorted not_newer l -> adjacent_equal l = false -> Sorted older l.
Proof.
  induction 1 as [|a l Hl IH Hh]; simpl; [constructor|]. intros [Ha Hr]%orb_false_iff. constructor; [auto|].
  destruct l as [|b l]; constructor. inversion Hh as [|? ? Hn]; subst. unfold older, not_newer, same_precedence in *. by destruct (compare_version _ _).
Qed.

(** The last release of an increasing listing is newer than every other one. *)
Lemma last_newest l latest :
  Sorted older l -> last l = Some latest -> latest ∈ l /\ forall r, r ∈ l -> r = latest \/ older r latest.
Proof.
  intros Hs Hl. split; [by apply last_Some_elem_of|]. apply Sorted_StronglySorted in Hs; [|exact older_trans].
  induction Hs as [|a l Hs IH Ha]; [done|]. destruct l as [|b l].
  - simplify_eq/=. intros r ->%list_elem_of_singleton. by left.
  - change (last (a :: b :: l)) with (last (b :: l)) in Hl. intros r [->|Hr]%elem_of_cons; [|auto]. right.
    rewrite Forall_forall in Ha. apply Ha, last_Some_elem_of, Hl.
Qed.

(** ** Listings *)

Section Listing.
Context {releases : Releases} {json : MarkerJson}.

(** The pages from [first] on: all but the last one are full. *)
Definition listing (source : ReleaseSource) (first : N) (pages : list (list Value)) : Prop :=
  pages <> [] /\ forall i vs, pages !! i = Some vs ->
    read_page source (first + N.of_nat i) = Ok vs /\ (length vs < RELEASE_PAGE_SIZE <-> S i = length pages).

Definition published (pages : list (list Value)) (found : list ParsedRelease) : Prop :=
  Forall2 (fun v r => parse_release v = Ok r) (filterb (fun v => negb (is_draft v)) (concat pages)) found.

Lemma published_app page pages rs found :
  Forall2 (fun v r => parse_release v = Ok r) (filterb (fun v => negb (is_draft v)) page) rs ->
  published pages found -> published (page :: pages) (rs ++ found).
Proof.
  intros H1 H2. unfold published. simpl.
  assert (Hf : filterb (fun v => negb (is_draft v)) (page ++ concat pages) =
    (filterb (fun v => negb (is_draft v)) page ++ filterb (fun v => negb (is_draft v)) (concat pages))%list) by apply List.filter_app.
  rewrite Hf. by apply Forall2_app.
Qed.

Lemma read_pages_listing source n page found result :
  (page + N.of_nat n = N.of_nat (S MAX_RELEASE_PAGES))%N -> 0 < n -> read_pages source n page found = Ok result ->
  exists pages rs, listing source page pages /\ length pages <= n /\ published pages rs /\ result = (found ++ rs)%list.
Proof.
  revert page found. induction n as [|n IH]; intros page found Hn Hpos; [lia|]. simpl. intros H.
  apply result_bind_ok in H as (vs&Hvs&H). apply result_bind_ok in H as (rs&Hrs&H). apply collect_iff in Hrs.
  destruct (Nat.ltb_spec (length vs) RELEASE_PAGE_SIZE) as [Hlt|Hge].
  - simplify_eq. exists [vs], rs. split_and!.
    + split; [done|]. intros [|i] us Hi; [|by destruct i]. simplify_eq/=. by rewrite N.add_0_r.
    + simpl. lia.
    + unfold published. simpl. by rewrite app_nil_r.
    + done.
  - apply result_bind_ok in H as ([]&Hp%reject_if_ok&H). apply N.eqb_neq in Hp.
    destruct (decide (n = 0)) as [->|Hn0]; [unfold MAX_RELEASE_PAGES in *; lia|].
    apply IH in H as (pages&rs'&[Hne Hl]&Hlen&Hpub&->); [|lia..]. exists (vs :: pages), (rs ++ rs')%list. split_and!.
    + split; [done|]. intros [|i] us Hi; simpl in Hi.
      * simplify_eq. rewrite N.add_0_r. split; [done|]. simpl. destruct pages; [done|simpl]. lia.
      * destruct (Hl i us Hi) as [Hr Hs]. replace (page + N.of_nat (S i))%N with (page + 1 + N.of_nat i)%N by lia.
        split; [done|]. rewrite Hs. simpl. lia.
    + simpl. lia.
    + by apply published_app.
    + by rewrite app_assoc.
Qed.

(** An asset lies in the repository the binary was built from. *)
Definition in_repository (source : ReleaseSource) (url : string) : Prop :=
  source.(allow_http) = false -> starts_with (browser_prefix source) url = true \/ starts_with (api_prefix source) url = true.

Lemma validate_asset_url_ok source url : validate_asset_url source url = Ok tt -> in_repository source url.
Proof.
  unfold validate_asset_url. intros H Hh. apply result_bind_ok in H as ([]&_&H). rewrite Hh in H.
  destruct (_ || _) eqn:E; [|done]. by apply orb_true_iff in E.
Qed.

(** What an offered update is. *)
Record offered (source : ReleaseSource) (target : string) (current : SemVersion) (latest : ParsedRelease) (sel : ReleaseSelection) : Prop := {
  of_newer : compare_version sel.(rs_version) current = Gt;
  of_version : sel.(rs_version) = latest.(pr_version);
  of_archive : sel.(archive_name) = "haider-v" ++ version_text sel.(rs_version) ++ "-" ++ target ++ "-split.tar.xz";
  of_checksum : sel.(checksum_name) = sel.(archive_name) ++ ".sha256";
  of_archive_url : asset_urls latest sel.(archive_name) = [sel.(archive_url)] /\ in_repository source sel.(archive_url);
  of_checksum_url : asset_urls latest sel.(checksum_name) = [sel.(checksum_url)] /\ in_repository source sel.(checksum_url)
}.

Lemma select_latest_ok source current target latest out :
  select_latest source current target latest = Ok out ->
  match out with
  | CurrentVersion v => v = current /\ compare_version latest.(pr_version) current = Eq
  | UpdateTo sel => offered source target current latest sel
  end.
Proof.
  unfold select_latest. intros H. apply result_bind_ok in H as ([a c]&Hu&H). cbn [fst snd] in H.
  apply result_bind_ok in H as ([]&Ha%validate_asset_url_ok&H). apply result_bind_ok in H as ([]&Hc%validate_asset_url_ok&H).
  destruct (asset_urls latest _) as [|x [|]] eqn:Ea in Hu; try done. destruct (asset_urls latest _) as [|y [|]] eqn:Ec in Hu; try done.
  simplify_eq. destruct (compare_version _ current) eqn:E; [by simplify_eq|done|]. simplify_eq. by split.
Qed.

(** C24: Discovery never offers a downgrade.  When [discover] succeeds, it has
    read the whole listing: the pages from the first on, each full but the
    last, and every release on them that is not a draft has a valid version.
    The result is about the newest of these: the running version when they have
    the same precedence, otherwise an update that is strictly newer than the
    running version, newer than every other published release, and whose archive
    and checksum are the only assets with the exact names of this version and
    target, inside the repository the binary was built from. *)
Theorem discovery_never_downgrades source current target out :
  discover source current target = Ok out ->
  exists running pages found latest,
    parse_version current = Ok running /\ listing source 1 pages /\ published pages found /\ latest ∈ found /\
    (forall r, r ∈ found -> r = latest \/ compare_version r.(pr_version) latest.(pr_version) = Lt) /\
    match out with
    | CurrentVersion v => v = running /\ compare_version latest.(pr_version) running = Eq
    | UpdateTo sel => offered source target running latest sel
    end.
Proof.
  unfold discover. intros H. apply result_bind_ok in H as ([]&_&H). apply result_bind_ok in H as (running&Hr%map_err_ok&H).
  apply result_bind_ok in H as (found&Hf&H). apply result_bind_ok in H as ([]&Hd%reject_if_ok&H).
  apply result_bind_ok in H as (latest&Hl%ok_or_ok&H).
  apply read_pages_listing in Hf as (pages&rs&Hp&_&Hpub&->); [|done|unfold MAX_RELEASE_PAGES; lia]. simpl in *.
  destruct (last_newest _ _ (distinct_increasing _ (sort_sorted rs) Hd) Hl) as [Hin Hmax].
  exists running, pages, rs, latest. rewrite sort_permutation in Hin. split_and!; [done..| |by apply select_latest_ok].
  intros r Hr'. apply Hmax. by rewrite sort_permutation.
Qed.
End Listing.

(** ** A listing *)

(** A service with a draft, an old and a new release on one page. *)
Definition asset_value (name : string) : Value :=
  Object [("name", Str name); ("browser_download_url", Str ("https://github.com/o/r/releases/download/" ++ name))].
Definition release_value (draft : bool) (version : string) : Value :=
  let archive := "haider-v" ++ version ++ "-aarch64-apple-darwin-split.tar.xz" in
  Object [("draft", Bool draft); ("tag_name", Str ("v" ++ version)); ("assets", Array [asset_value archive; asset_value (archive ++ ".sha256")])].
Definition listing_json : MarkerJson := {|
  marker_text _ := Err "unused";
  marker_parse _ := Ok (Array [release_value false "1.10.0"; release_value true "3.0.0"; release_value false "1.9.0-rc.1"])
|}.
Definition listing_service : Releases := fun _ _ => Ok "".
Definition listing_source : ReleaseSource := {| api_base := "https://api.github.com"; repository := "o/r"; allow_http := false |}.
Definition discovered : result DiscoveryOutcome UpdateError :=
  @discover listing_service listing_json listing_source "1.9.0" "aarch64-apple-darwin".

(** The numerically newer release is offered. *)
Lemma discovery_never_downgrades_witness :
  exists sel running latest, discovered = Ok (UpdateTo sel) /\ version_text sel.(rs_version) = "1.10.0" /\
    offered listing_source "aarch64-apple-darwin" running latest sel.
Proof.
  pose proof (@discovery_never_downgrades listing_service listing_json listing_source "1.9.0" "aarch64-apple-darwin" _ ltac:(vm_compute; reflexivity))
    as (running&_&_&latest&_&_&_&_&_&H).
  eexists _, running, latest. split_and!; [vm_compute; reflexivity|reflexivity|exact H].
Defined.
