(* ===== verification/Update.v ===== *)
(** * Update transactions (haider-cli update/transaction.rs)

    [PreparedTransaction::acquire], [commit_pair], [CommittedUpdate] and the
    recovery of interrupted updates, over the install directory of [UpdateFs].
    A function that returns [Result<A, UpdateError>] is an [UpdM A]; its process
    may die at any system call.  SHA-256 is the parameter [Sha256], the
    signature check and the version a binary prints are [HostChecks], and the
    fault hook of the code is [FaultInjector] ([NoFaults] in production).  A
    layout is the directory's name, for messages, and its file names; the lock
    excludes other updaters, so runs of [acquire] and what follows are modelled
    one after the other. *)

From S2P Require Import Prelude RustStr EffectTypes Json Envelope UpdateFs UpdateMarker.

Local Open Scope st_scope.

Definition LOCK_NAME : string := ".haider-update.lock".
Definition MARKER_NAME : string := ".haider-update-transaction.json".

Class Sha256 := sha256_hex : string -> string.

(** [codesign --verify] and [--version] of an installed member. *)
Class HostChecks := {
  verify_signature : BundleMember -> result unit UpdateError;
  version_output : BundleMember -> result string UpdateError
}.

Inductive CommitBoundary :=
  | BackupDaemonB | BackupTuiB | BackupPortalB | BackupCliB
  | RenameDaemon | RenameTui | RenamePortal | RenameCli
  | ChmodDaemon | ChmodTui | ChmodPortal | ChmodCli
  | InstallDirFsync | InstalledPairVerify.

Class FaultInjector := after : CommitBoundary -> result unit UpdateError.
Definition NoFaults : FaultInjector := fun _ => Ok tt.

(** ** The monad *)

Definition UpdM (A : Type) : Type := ST World (Halt UpdateError) A.

(** [.map_err(|error| UpdateError::io(operation, error))]. *)
Definition io {A} (operation : string) (m : IO A) : UpdM A := fun w =>
  match m w with
  | (Ok a, w) => (Ok a, w)
  | (Err (Failed e), w) => (Err (Failed (Io (operation ++ ": " ++ e.(io_text)))), w)
  | (Err Died, w) => (Err Died, w)
  end.

(** The result as a value: only a death stops. *)
Definition attempt {E A} (m : ST World (Halt E) A) : UpdM (result A E) := fun w =>
  match m w with
  | (Ok a, w) => (Ok (Ok a), w)
  | (Err (Failed e), w) => (Ok (Err e), w)
  | (Err Died, w) => (Err Died, w)
  end.

Definition lift {A} (r : result A UpdateError) : UpdM A := st_lift (map_err Failed r).
Definition fail {A} (e : UpdateError) : UpdM A := lift (Err e).
Definition refuse_if (b : bool) (e : UpdateError) : UpdM unit := lift (reject_if b e).

Fixpoint each {A} (f : A -> UpdM unit) (l : list A) : UpdM unit :=
  match l with
  | [] => st_ret tt
  | a :: l => f a ;;; each f l
  end.
(** [iter().all(..)], which stops at the first [false]. *)
Fixpoint all {A} (f : A -> UpdM bool) (l : list A) : UpdM bool :=
  match l with
  | [] => st_ret true
  | a :: l => b <- f a ;; (if b : bool then all f l else st_ret false)
  end.
Fixpoint gather {A B} (f : A -> UpdM B) (l : list A) : UpdM (list B) :=
  match l with
  | [] => st_ret []
  | a :: l => b <- f a ;; bs <- gather f l ;; st_ret (b :: bs)
  end.

(** ** Layouts *)

Record InstallLayout := {
  l_dir : string;
  haider : string;
  haiderd : string;
  haider_tui : string;
  wayland_portal : string
}.

Definition in_directory (dir : string) : InstallLayout :=
  {| l_dir := dir; haider := file_name Cli; haiderd := file_name Daemon; haider_tui := file_name Tui;
     wayland_portal := file_name WaylandPortal |}.

Definition path (l : InstallLayout) (m : BundleMember) : string :=
  match m with
  | Daemon => l.(haiderd)
  | Tui => l.(haider_tui)
  | Cli => l.(haider)
  | WaylandPortal => l.(wayland_portal)
  end.

Definition display (l : InstallLayout) (n : string) : string := l.(l_dir) ++ "/" ++ n.

Section Transaction.
Context {sha256 : Sha256} {json : MarkerJson}.

Definition sha256_in (dir : Fs -> Entries) (n : string) : UpdM string :=
  file <- io "open file for SHA-256" (open_in dir n) ;;
  data <- io "read file for SHA-256" (read_handle file) ;;
  st_ret (sha256_hex data).
Definition sha256_file : string -> UpdM string := sha256_in fs_dir.

Definition sync_dir : UpdM unit := io "fsync directory" sync_directory.

Definition installed_metadata (n : string) : UpdM (option Metadata) :=
  r <- attempt (symlink_metadata n) ;;
  match r with
  | Ok metadata => st_ret (Some metadata)
  | Err e => if decide (e.(io_kind) = NotFound) then st_ret None
             else fail (Io ("inspect installed binary: " ++ e.(io_text)))
  end.

Definition mode_has (bits : N) (m : Metadata) : bool := negb (N.land m.(md_mode) bits =? 0)%N.

Definition validate_real_directory : UpdM unit :=
  metadata <- io "inspect install directory" root_metadata ;;
  refuse_if (is_symlink metadata || negb (is_dir metadata))
    (Refused "install directory is symlinked or is not a directory") ;;;
  refuse_if (negb metadata.(md_mine) || negb (mode_has 128 metadata) || mode_has 18 metadata)
    (Refused "install directory is managed, read-only, or not owned by this user").

Definition validate_recoverable_binary (n member : string) : UpdM unit :=
  metadata <- io "inspect installed binary" (symlink_metadata n) ;;
  refuse_if (is_symlink metadata || negb (is_file metadata))
    (Refused ("installed `" ++ member ++ "` is symlinked or not a regular file")) ;;;
  refuse_if (negb metadata.(md_mine) || negb (mode_has 64 metadata) || mode_has 18 metadata)
    (Refused ("installed `" ++ member ++ "` is managed or not owner-executable")).

Definition validate_for_recovery (l : InstallLayout) : UpdM unit :=
  validate_real_directory ;;;
  each (fun m =>
    found <- installed_metadata (path l m) ;;
    match found with
    | Some _ => validate_recoverable_binary (path l m) (name m)
    | None => st_ret tt
    end) ALL_BUNDLE_MEMBERS.

Definition validate (l : InstallLayout) : UpdM unit :=
  validate_for_recovery l ;;;
  cli <- installed_metadata l.(haider) ;;
  daemon <- installed_metadata l.(haiderd) ;;
  tui <- installed_metadata l.(haider_tui) ;;
  let present (o : option Metadata) := bool_decide (is_Some o) in
  refuse_if (negb (bool_decide (present cli = present daemon)) || negb (present cli) && present tui)
    (Refused "installation is incomplete: CLI and daemon must both exist, or the entire bundle must be absent") ;;;
  each (fun m =>
    found <- installed_metadata (path l m) ;;
    match found with
    | None => st_ret tt
    | Some metadata =>
        refuse_if (negb (mode_has 128 metadata)) (Refused ("installed `" ++ name m ++ "` is read-only")) ;;;
        refuse_if (negb (bool_decide (metadata.(md_links) = 1)))
          (Refused ("installed `" ++ name m ++ "` is hard-linked or managed"))
    end) ALL_BUNDLE_MEMBERS.

(** [if marker.exists() { validate_for_recovery } else { validate }]. *)
Definition validate_entry (l : InstallLayout) : UpdM unit :=
  marked <- io "" (path_exists MARKER_NAME) ;;
  if marked : bool then validate_for_recovery l else validate l.

Definition for_install_directory (dir : string) : UpdM InstallLayout :=
  let l := in_directory dir in
  validate_entry l ;;; st_ret l.

(** [running] is split into its directory and its file name. *)
Definition from_executable (running : string) (parent file : option string) : UpdM InstallLayout :=
  refuse_if (negb (existsb (String.eqb (default "" file)) [file_name Cli; file_name Tui]))
    (Refused ("running executable is not an expected haider installation: " ++ running)) ;;;
  dir <- lift (ok_or parent (Refused "running executable has no install directory")) ;;
  for_install_directory dir.

(** ** Markers on disk *)

Definition remove_if_exists (n operation : string) : UpdM unit :=
  r <- attempt (remove_file n) ;;
  match r with
  | Ok _ => st_ret tt
  | Err e => if decide (e.(io_kind) = NotFound) then st_ret tt else fail (Io (operation ++ ": " ++ e.(io_text)))
  end.

Definition part_name (id : string) : string := "." ++ MARKER_NAME ++ "." ++ id ++ ".part".

Definition write_marker (m : Marker) : UpdM unit :=
  let part := part_name m.(mk_transaction_id) in
  bytes <- lift (encode_marker m) ;;
  file <- io "create durable update marker" (create_new part 384) ;;
  io "persist durable update marker" (write_all file bytes ;;; sync_all file) ;;;
  io "publish durable update marker" (rename part MARKER_NAME) ;;;
  sync_dir.

Definition read_marker : UpdM (option Marker) :=
  found <- attempt (symlink_metadata MARKER_NAME) ;;
  match found with
  | Err e => if decide (e.(io_kind) = NotFound) then st_ret None
             else fail (Io ("inspect update recovery marker: " ++ e.(io_text)))
  | Ok metadata =>
      refuse_if (is_symlink metadata || negb (is_file metadata) || negb metadata.(md_mine) || mode_has 63 metadata)
        (Internal "update recovery marker is not a trusted owner-only regular file") ;;;
      data <- attempt (read_file MARKER_NAME) ;;
      match data with
      | Err e => if decide (e.(io_kind) = NotFound) then st_ret None
                 else fail (Io ("read update recovery marker: " ++ e.(io_text)))
      | Ok bytes => m <- lift (decode_marker bytes) ;; st_ret (Some m)
      end
  end.

Definition holds (n digest : string) : UpdM bool :=
  r <- attempt (sha256_file n) ;;
  st_ret (match r with Ok hash => String.eqb hash digest | Err _ => false end).

Definition matches_target (l : InstallLayout) (m : Marker) : UpdM bool :=
  all (fun e => holds (path l e.(mm_member)) e.(target_digest)) m.(members).

Definition matches_old (l : InstallLayout) (m : Marker) : UpdM bool :=
  all (fun e => match e.(old_digest) with
                | Some digest => holds (path l e.(mm_member)) digest
                | None => r <- attempt (symlink_metadata (path l e.(mm_member))) ;;
                          st_ret (match r with Err err => bool_decide (err.(io_kind) = NotFound) | Ok _ => false end)
                end) m.(members).

Definition remove_backups (m : Marker) : UpdM unit :=
  each (fun e => remove_if_exists e.(backup) "remove update recovery backup") m.(members) ;;;
  sync_dir.

(** ** Rollback *)

Definition verify_new_member_removable (l : InstallLayout) (e : MarkerMember) : UpdM unit :=
  let p := path l e.(mm_member) in
  stray <- attempt (symlink_metadata e.(backup)) ;;
  match stray with
  | Ok _ => fail (Internal "unexpected backup for a previously absent executable")
  | Err _ =>
      found <- attempt (symlink_metadata p) ;;
      match found with
      | Err err => if decide (err.(io_kind) = NotFound) then st_ret tt
                   else fail (Io ("inspect introduced executable: " ++ err.(io_text)))
      | Ok metadata =>
          ours <- (if is_file metadata && negb (is_symlink metadata) && metadata.(md_mine)
                   then hash <- sha256_file p ;; st_ret (String.eqb hash e.(target_digest))
                   else st_ret false) ;;
          if ours : bool then st_ret tt
          else fail (Internal "introduced executable no longer matches the transaction; recovery assets retained")
      end
  end.

Definition cannot_restore (l : InstallLayout) (n : string) : UpdateError :=
  Internal ("cannot restore " ++ display l n ++ "; its backup is missing and canonical bytes are not old").
Definition corrupt_backup (l : InstallLayout) (n : string) : UpdateError :=
  Internal ("recovery backup " ++ display l n ++ " is corrupt").

(** [canonical.exists() && sha256_file(canonical)? == expected]. *)
Definition still_old (n expected : string) : UpdM bool :=
  present <- io "" (path_exists n) ;;
  if present : bool then hash <- sha256_file n ;; st_ret (String.eqb hash expected) else st_ret false.

Definition verify_restore_source (l : InstallLayout) (canonical bk expected : string) : UpdM unit :=
  present <- io "" (path_exists bk) ;;
  if present : bool then
    metadata <- io "inspect recovery backup" (symlink_metadata bk) ;;
    refuse_if (is_symlink metadata || negb (is_file metadata) || negb metadata.(md_mine))
      (Internal ("recovery backup " ++ display l bk ++ " is not a trusted regular file")) ;;;
    hash <- sha256_file bk ;;
    if String.eqb hash expected then st_ret tt else fail (corrupt_backup l bk)
  else
    old <- still_old canonical expected ;;
    if old : bool then st_ret tt else fail (cannot_restore l canonical).

Definition restore_one (l : InstallLayout) (canonical bk expected : string) : UpdM unit :=
  present <- io "" (path_exists bk) ;;
  if present : bool then
    hash <- sha256_file bk ;;
    refuse_if (negb (String.eqb hash expected)) (corrupt_backup l bk) ;;;
    io "restore binary backup by rename" (rename bk canonical)
  else
    old <- still_old canonical expected ;;
    if old : bool then st_ret tt else fail (cannot_restore l canonical).

Definition verify_member (l : InstallLayout) (e : MarkerMember) : UpdM unit :=
  match e.(old_digest) with
  | Some old => verify_restore_source l (path l e.(mm_member)) e.(backup) old
  | None => verify_new_member_removable l e
  end.
Definition restore_member (l : InstallLayout) (e : MarkerMember) : UpdM unit :=
  match e.(old_digest) with
  | Some old => restore_one l (path l e.(mm_member)) e.(backup) old
  | None => remove_if_exists (path l e.(mm_member)) "remove introduced executable during rollback"
  end.

Definition rollback_marker (l : InstallLayout) (m : Marker) : UpdM unit :=
  each (verify_member l) m.(members) ;;;
  attempt (write_marker (with_phase RollingBack m)) ;;;
  each (restore_member l) m.(members) ;;;
  sync_dir ;;;
  old <- matches_old l m ;;
  refuse_if (negb old) (Internal "rollback did not restore the exact old executable bundle") ;;;
  remove_backups m ;;;
  remove_if_exists MARKER_NAME "remove rollback marker" ;;;
  sync_dir.

(** ** Recovery and admission *)

(** [a && b || c] of the source: each test runs only when it is reached. *)
Definition recover_pending (l : InstallLayout) : UpdM unit :=
  found <- read_marker ;;
  match found with
  | None => st_ret tt
  | Some m =>
      done <- (if decide (m.(mk_phase) = Finalizing) then matches_target l m else st_ret false) ;;
      settled <- (if done : bool then st_ret true else matches_old l m) ;;
      if settled : bool then
        remove_backups m ;;;
        remove_if_exists MARKER_NAME "finish recovered update marker cleanup" ;;;
        sync_dir
      else rollback_marker l m
  end.

Definition acquire (l : InstallLayout) : UpdM unit :=
  validate_entry l ;;;
  linked <- attempt (symlink_metadata LOCK_NAME) ;;
  refuse_if (match linked with Ok metadata => is_symlink metadata | Err _ => false end)
    (Refused "update lock is a symlink") ;;;
  lock <- io "open update lock" (open_or_create LOCK_NAME 384) ;;
  metadata <- io "inspect update lock" (handle_metadata lock) ;;
  refuse_if (negb metadata.(md_mine) || mode_has 63 metadata)
    (Refused "update lock is not owner-only and owned by this user") ;;;
  locked <- attempt (try_lock lock) ;;
  match locked with
  | Ok _ => st_ret tt
  | Err e => fail (if decide (e.(io_kind) = WouldBlock) then Refused "another haider update is already running"
                   else Io ("lock update transaction: " ++ e.(io_text)))
  end ;;;
  recover_pending l ;;;
  validate l.

(** ** Committing *)

Record StagedBinary := { sb_member : BundleMember; sb_path : string; sb_digest : string }.
Record VerifiedStagedPair := { binaries : list StagedBinary; version : string; source_digest : string }.
Definition pair_members (p : VerifiedStagedPair) : list BundleMember := map sb_member p.(binaries).

Definition verify_staged (b : StagedBinary) : UpdM unit :=
  metadata <- io "inspect staged binary" (stage_metadata b.(sb_path)) ;;
  refuse_if (is_symlink metadata || negb (is_file metadata) || negb metadata.(md_mine)
             || negb (N.land metadata.(md_mode) 511 =? 320)%N)
    (Refused ("verified staged `" ++ name b.(sb_member) ++ "` is no longer immutable")) ;;;
  hash <- sha256_in fs_stage b.(sb_path) ;;
  refuse_if (negb (String.eqb hash b.(sb_digest)))
    (Refused ("verified staged `" ++ name b.(sb_member) ++ "` digest changed before commit")).

(** Each member in a thread of its own: all of them end before the first error
    in member order is returned. *)
Definition verify_immutable (p : VerifiedStagedPair) : UpdM unit :=
  results <- gather (fun b => attempt (verify_staged b)) p.(binaries) ;;
  each lift results.

Definition make_backup (source bk : string) : UpdM unit :=
  io "create same-filesystem binary backup" (hard_link source bk) ;;;
  io "fsync binary backup" (sync_path false bk) ;;;
  sync_dir.

Definition set_installed_mode (n : string) (mode : N) : UpdM unit :=
  io "make installed binary owner-writable" (set_mode n mode) ;;;
  io "fsync installed binary permissions" (sync_path true n).

Definition backup_step (m : BundleMember) : TransactionPhase * CommitBoundary :=
  match m with
  | Daemon => (BackupDaemon, BackupDaemonB)
  | Tui => (BackupTui, BackupTuiB)
  | WaylandPortal => (BackupPortal, BackupPortalB)
  | Cli => (BackupsReady, BackupCliB)
  end.
Definition rename_step (m : BundleMember) : TransactionPhase * CommitBoundary :=
  match m with
  | Daemon => (DaemonInstalled, RenameDaemon)
  | Tui => (TuiInstalled, RenameTui)
  | WaylandPortal => (PortalInstalled, RenamePortal)
  | Cli => (PairInstalled, RenameCli)
  end.
Definition chmod_step (m : BundleMember) : TransactionPhase * CommitBoundary :=
  match m with
  | Daemon => (DaemonWritable, ChmodDaemon)
  | Tui => (TuiWritable, ChmodTui)
  | WaylandPortal => (PortalWritable, ChmodPortal)
  | Cli => (PairWritable, ChmodCli)
  end.

Context {faults : FaultInjector} {checks : HostChecks}.

(** The phase is durable before the fault hook runs. *)
Definition reach (m : Marker) (step : TransactionPhase * CommitBoundary) : UpdM unit :=
  write_marker (with_phase step.1 m) ;;; lift (after step.2).

Definition verify_installed (l : InstallLayout) (p : VerifiedStagedPair) : UpdM unit :=
  each (fun b =>
    let n := name b.(sb_member) in
    hash <- sha256_file (path l b.(sb_member)) ;;
    refuse_if (negb (String.eqb hash b.(sb_digest)))
      (Refused ("canonical " ++ n ++ " does not match its verified staged digest")) ;;;
    lift (verify_signature b.(sb_member)) ;;;
    output <- lift (version_output b.(sb_member)) ;;
    refuse_if (negb (String.eqb output (n ++ " " ++ p.(version) ++ String LF "")))
      (Refused ("installed " ++ n ++ " version does not match the target"))) p.(binaries).

Definition backup_member (l : InstallLayout) (m : Marker) (b : StagedBinary) : UpdM unit :=
  entry <- lift (ok_or (find (fun e => bool_decide (e.(mm_member) = b.(sb_member))) m.(members))
                   (Internal "verified member missing from transaction")) ;;
  (match entry.(old_digest) with
   | Some _ => make_backup (path l b.(sb_member)) entry.(backup)
   | None => st_ret tt
   end) ;;;
  reach m (backup_step b.(sb_member)).
Definition install_member (l : InstallLayout) (m : Marker) (b : StagedBinary) : UpdM unit :=
  io "rename staged bundle executable into place" (rename_staged b.(sb_path) (path l b.(sb_member))) ;;;
  reach m (rename_step b.(sb_member)).
Definition publish_member (l : InstallLayout) (m : Marker) (publication : BundleMember * N) : UpdM unit :=
  set_installed_mode (path l publication.1) publication.2 ;;;
  reach m (chmod_step publication.1).

(** The closure of [commit_pair]. *)
Definition commit_body (l : InstallLayout) (p : VerifiedStagedPair) (modes : list (BundleMember * N)) (m : Marker) : UpdM unit :=
  each (backup_member l m) p.(binaries) ;;;
  each (install_member l m) p.(binaries) ;;;
  each (publish_member l m) modes ;;;
  sync_dir ;;;
  reach m (PairSynced, InstallDirFsync) ;;;
  verify_installed l p ;;;
  reach m (PairVerified, InstalledPairVerify) ;;;
  write_marker (with_phase RestartPending m).

Definition access_mode (found : option Metadata) (otherwise : N) : N :=
  match found with Some metadata => N.land metadata.(md_mode) 511 | None => otherwise end.

Definition entry_for (l : InstallLayout) (id : string) (b : StagedBinary) : UpdM MarkerMember :=
  found <- installed_metadata (path l b.(sb_member)) ;;
  old <- (match found with
          | Some _ => hash <- sha256_file (path l b.(sb_member)) ;; st_ret (Some hash)
          | None => st_ret None
          end) ;;
  st_ret {| mm_member := b.(sb_member); old_digest := old; target_digest := b.(sb_digest);
            backup := backup_prefix b.(sb_member) ++ id |}.

(** [id] is what [transaction_id] returned.  The value is the marker of the
    [CommittedUpdate]. *)
Definition commit_transaction (l : InstallLayout) (p : VerifiedStagedPair) (id old_version : string) : UpdM Marker :=
  verify_immutable p ;;;
  cli <- installed_metadata l.(haider) ;;
  let new_member_mode := access_mode cli 493 in
  modes <- gather (fun b => found <- installed_metadata (path l b.(sb_member)) ;;
                            st_ret (b.(sb_member), access_mode found new_member_mode)) p.(binaries) ;;
  ms <- gather (entry_for l id) p.(binaries) ;;
  let m := {| legacy := false; mk_transaction_id := id; mk_old_version := old_version;
              mk_target_version := p.(version); source_archive_digest := p.(source_digest);
              members := ms; mk_phase := Prepared |} in
  write_marker m ;;;
  result <- attempt (commit_body l p modes m) ;;
  match result with
  | Err error =>
      undone <- attempt (rollback_marker l m) ;;
      match undone with
      | Err rollback =>
          fail (Internal ("update failed (" ++ error_text error ++ "); rollback also failed ("
                          ++ error_text rollback ++ "); recovery assets retained"))
      | Ok _ => fail error
      end
  | Ok _ => st_ret (with_phase RestartPending m)
  end.

(** The pair is dropped on every way out, and with it its staging directory. *)
Definition commit_pair (l : InstallLayout) (p : VerifiedStagedPair) (id old_version : string) : UpdM Marker :=
  result <- attempt (commit_transaction l p id old_version) ;;
  attempt remove_stage ;;;
  lift result.

(** ** The committed update *)

Definition verify_target_pair (l : InstallLayout) (m : Marker) : UpdM unit :=
  exact <- matches_target l m ;;
  if exact : bool then st_ret tt
  else fail (Internal "restart entry did not observe the exact verified target bundle").

(** The marker in memory takes the phase before it is written. *)
Definition set_phase (m : Marker) (phase : TransactionPhase) : UpdM Marker :=
  write_marker (with_phase phase m) ;;; st_ret (with_phase phase m).

Definition finalize (l : InstallLayout) (m : Marker) : UpdM unit :=
  verify_target_pair l m ;;;
  m <- set_phase m Finalizing ;;
  remove_backups m ;;;
  io "remove successful update marker" (remove_file MARKER_NAME) ;;;
  sync_dir.
End Transaction.
