(* ===== verification/Staging.v ===== *)
(** * Staging of a release (haider-cli update/staging.rs)

    A downloaded archive is checked against its checksum, extracted by a strict
    reader of the ustar format, signed, tried and frozen; the result is the
    verified bundle that an update transaction takes.  The state is the output
    of the decompressor still to be read, the files of the private staging
    directory, and which system calls fail: each call takes one entry of
    [sg_faults], and works when none is left.  A failing call has no effect; the
    directory is removed when staging fails.  Downloads, the decompressor, the
    signing tools, sources outside the directory and what a staged binary prints
    are parameters; running a staged binary is assumed to print and to leave the
    staged files as they are, although it runs with the user's rights.  The
    workers of [parallel_members] touch distinct files, so
    they are run one after the other; the outcome of every call is arbitrary. *)

From S2P Require Import Prelude RustStr Digest ByteBuf EffectTypes Json Envelope UpdateFs UpdateMarker Update Release.

Local Open Scope st_scope.
Local Open Scope string_scope.

Definition MAX_ARCHIVE_BYTES : N := 128 * 1024 * 1024.
Definition MAX_CHECKSUM_BYTES : N := 16 * 1024.
Definition MAX_BINARY_BYTES : N := 256 * 1024 * 1024.
Definition MAX_TRAILING_ARCHIVE_BYTES : nat := N.to_nat (64 * 1024).
Definition CHUNK : N := 64 * 1024.

Record StagedFile := { sf_data : bytes; sf_mode : N }.
Record Stage := { sg_input : bytes; sg_files : gmap string StagedFile; sg_faults : list (option string) }.

Definition with_input (input : bytes) (s : Stage) : Stage := {| sg_input := input; sg_files := s.(sg_files); sg_faults := s.(sg_faults) |}.
Definition with_files (f : gmap string StagedFile -> gmap string StagedFile) (s : Stage) : Stage :=
  {| sg_input := s.(sg_input); sg_files := f s.(sg_files); sg_faults := s.(sg_faults) |}.
Definition with_faults (faults : list (option string)) (s : Stage) : Stage :=
  {| sg_input := s.(sg_input); sg_files := s.(sg_files); sg_faults := faults |}.

Definition StageM (A : Type) : Type := ST Stage UpdateError A.

Definition call (operation : string) : StageM unit := fun s =>
  match s.(sg_faults) with
  | [] => (Ok tt, s)
  | None :: faults => (Ok tt, with_faults faults s)
  | Some text :: faults => (Err (Io (operation ++ ": " ++ text)), with_faults faults s)
  end.
Definition refuse (b : bool) (e : string) : StageM unit := st_reject_if b (Refused e).

(** ** Headers *)

Definition NUL : ascii := ascii_of_nat 0.
Definition field (from to : nat) (header : bytes) : bytes := take (to - from) (drop from header).

Definition is_padding (c : ascii) : bool := Ascii.eqb c NUL || Ascii.eqb c " "%char.
Fixpoint drop_while (p : ascii -> bool) (b : bytes) : bytes :=
  match b with [] => [] | c :: rest => if p c then drop_while p rest else b end.
(** [trim_matches(['\0', ' '])]. *)
Definition trim_padding (b : bytes) : bytes := rev (drop_while is_padding (rev (drop_while is_padding b))).

Definition is_octal_digit (c : ascii) : bool := (48 <=? byte_val c)%N && (byte_val c <=? 55)%N.
Fixpoint octal_value (acc : N) (digits : bytes) : N :=
  match digits with [] => acc | c :: digits => octal_value (8 * acc + digit_val c) digits end.

Definition parse_octal (b : bytes) (what : string) : result N UpdateError :=
  (reject_if (match b with c :: _ => (128 <=? byte_val c)%N | [] => false end)
     (Refused ("archive " ++ what ++ " uses unsupported base-256 encoding")) ?;
   reject_if (negb (utf8_valid b)) (Refused ("archive " ++ what ++ " is not ASCII")) ?;
   let digits := trim_padding b in
   reject_if (match digits with [] => true | _ => false end || negb (forallb is_octal_digit digits))
     (Refused ("archive " ++ what ++ " is not a valid octal number")) ?;
   let n := octal_value 0 digits in
   reject_if (u64_max <? n)%N (Refused ("archive " ++ what ++ " is too large")) ?;
   Ok n)%res.

Definition sum_bytes (b : bytes) : N := foldr (fun c n => byte_val c + n)%N 0%N b.
Definition validate_header_checksum (header : bytes) : result unit UpdateError :=
  (let? stored := parse_octal (field 148 156 header) "header checksum" in
   let computed := (sum_bytes (take 148 header) + 8 * 32 + sum_bytes (drop 156 header))%N in
   reject_if (negb (stored =? computed)%N) (Refused "archive member header checksum is invalid"))%res.

(** The bytes up to the first NUL, and whether only NULs follow. *)
Fixpoint until_nul (b : bytes) : bytes * bool :=
  match b with
  | [] => ([], true)
  | c :: rest => if Ascii.eqb c NUL then ([], forallb (Ascii.eqb NUL) rest) else let '(s, clear) := until_nul rest in (c :: s, clear)
  end.
Definition nul_terminated (b : bytes) : result string UpdateError :=
  (let '(s, clear) := until_nul b in
   reject_if (negb clear) (Refused "archive header string has data after NUL") ?;
   ok_or (from_utf8 s) (Refused "archive path is not UTF-8"))%res.

(** A component is [..], or the path starts at the root. *)
Definition traverses (path : string) : bool := starts_with "/" path || existsb (String.eqb "..") (split_char "/"%char path).

Definition archive_path (header : bytes) : result string UpdateError :=
  (let? name := nul_terminated (take 100 header) in
   let? prefix := nul_terminated (field 345 500 header) in
   let path := if is_empty prefix then name else prefix ++ "/" ++ name in
   reject_if (is_empty path || traverses path) (Refused "archive contains an absolute or traversing path") ?;
   Ok path)%res.

(** ** Reading *)

Definition read_exact (n : nat) (what : string) : StageM bytes :=
  call what ;;;
  (fun s => if (length s.(sg_input) <? n)%nat then (Err (Io (what ++ ": failed to fill whole buffer")), with_input [] s)
            else (Ok (take n s.(sg_input)), with_input (drop n s.(sg_input)) s)).

Definition all_zero (b : bytes) : bool := forallb (Ascii.eqb NUL) b.

Definition skip_padding_only (size : N) : StageM unit :=
  let padding := ((512 - size mod 512) mod 512)%N in
  if (padding =? 0)%N then st_ret tt
  else
    b <- read_exact (N.to_nat padding) "archive padding" ;;
    refuse (negb (all_zero b)) "archive member padding is not zero-filled".
Definition skip_padding (size : N) : StageM unit :=
  (if (size =? 0)%N then st_ret tt
   else call "skip archive member" ;;; st_modify (fun s => with_input (drop (N.to_nat size) s.(sg_input)) s)) ;;;
  skip_padding_only size.

Definition append_to (destination : string) (data : bytes) : StageM unit :=
  st_modify (with_files (alter (fun f => {| sf_data := f.(sf_data) ++ data; sf_mode := f.(sf_mode) |}) destination)).

Definition out_of_fuel {A} : StageM A := st_lift (Err (Internal "out of fuel")).

Fixpoint copy_chunks (fuel : nat) (destination : string) (remaining : N) : StageM unit :=
  if (remaining =? 0)%N then st_ret tt
  else match fuel with
       | 0 => out_of_fuel
       | S fuel =>
           let amount := N.min remaining CHUNK in
           chunk <- read_exact (N.to_nat amount) "read staged binary from archive" ;;
           call "write staged binary" ;;;
           append_to destination chunk ;;;
           copy_chunks fuel destination (remaining - amount)
       end.

Definition create_file (destination : string) (mode : N) (operation : string) : StageM unit :=
  call operation ;;;
  (fun s => match s.(sg_files) !! destination with
            | Some _ => (Err (Io (operation ++ ": File exists (os error 17)")), s)
            | None => (Ok tt, with_files (<[destination := {| sf_data := []; sf_mode := mode |}]>) s)
            end).

Definition extract_member (destination : string) (size : N) : StageM unit :=
  create_file destination 448 "create staged binary" ;;;
  copy_chunks (S (N.to_nat (size / CHUNK))) destination size ;;;
  call "fsync staged binary".

(** ** The archive *)

Definition expected_dir (top : string) : string := top ++ "/".
Definition member_path (top : string) (m : BundleMember) : string := top ++ "/" ++ name m.
Definition expected (top : string) : gset string := list_to_set (expected_dir top :: map (member_path top) BUNDLE_MEMBERS).

Definition archive_member (top : string) (header : bytes) (seen : gset string) : StageM (gset string) :=
  st_lift (validate_header_checksum header) ;;;
  path <- st_lift (archive_path header) ;;
  refuse (negb (bool_decide (path ∈ expected top))) ("archive contains unexpected or unsafe member `" ++ path ++ "`") ;;;
  refuse (bool_decide (path ∈ seen)) ("archive contains duplicate member `" ++ path ++ "`") ;;;
  let seen := {[path]} ∪ seen in
  refuse (size (expected top) <? size seen)%nat "archive contains too many members" ;;;
  mode <- st_lift (parse_octal (field 100 108 header) "mode") ;;
  length <- st_lift (parse_octal (field 124 136 header) "size") ;;
  let kind := default NUL (header !! 156) in
  (if String.eqb path (expected_dir top) then
     refuse (negb (Ascii.eqb kind "5"%char) || negb (length =? 0)%N) "archive top-level member is not an empty directory"
   else
     refuse (negb (Ascii.eqb kind NUL || Ascii.eqb kind "0"%char)) ("archive binary `" ++ path ++ "` is not a regular file") ;;;
     refuse (N.land mode 64 =? 0)%N ("archive binary `" ++ path ++ "` is not owner-executable") ;;;
     refuse ((length =? 0) || (MAX_BINARY_BYTES <? length))%N ("archive binary `" ++ path ++ "` is empty or oversized") ;;;
     extract_member path length) ;;;
  (if String.eqb path (expected_dir top) then skip_padding length else skip_padding_only length) ;;;
  st_ret seen.

(** The loop, which reads a header at each turn. *)
Fixpoint archive_loop (fuel : nat) (top : string) (seen : gset string) (zero_blocks : N) : StageM (gset string) :=
  match fuel with
  | 0 => out_of_fuel
  | S fuel =>
      header <- read_exact 512 "archive header" ;;
      if all_zero header then
        if (N.min 255 (zero_blocks + 1) =? 2)%N then st_ret seen
        else archive_loop fuel top seen (N.min 255 (zero_blocks + 1))
      else
        refuse (negb (zero_blocks =? 0)%N) "archive has data between its terminal zero blocks" ;;;
        seen <- archive_member top header seen ;;
        archive_loop fuel top seen zero_blocks
  end.

(** [reader.take(limit).read_to_end]. *)
Definition read_to_end (limit : nat) (what : string) : StageM bytes :=
  call what ;;; (fun s => (Ok (take limit s.(sg_input)), with_input (drop limit s.(sg_input)) s)).

Definition parse_ustar (top : string) : StageM unit :=
  s <- st_get ;;
  seen <- archive_loop (S (length s.(sg_input))) top ∅ 0 ;;
  refuse (negb (bool_decide (seen = expected top))) "archive is missing the top directory or a required bundle executable" ;;;
  trailing <- read_to_end (S MAX_TRAILING_ARCHIVE_BYTES) "read archive trailer" ;;
  refuse ((MAX_TRAILING_ARCHIVE_BYTES <? length trailing)%nat || negb (all_zero trailing)) "archive has non-zero or excessive trailing data" ;;;
  call "fsync directory".

(** ** What staging asks of the host *)

(** Downloads, the decoder (its output and whether it ended well), and the
    tools of the system; [Err] when a tool cannot be started.  [macos] is the
    target the binary was built for.  A staged binary
    is run beside the others; its output and whether it ended well. *)
Class Host := {
  macos : bool;
  fetch : string -> N -> result bytes UpdateError;
  tar_ustar : bytes -> bytes * bool;
  xattr_list : string -> result (bytes * bool) string;
  xattr_delete : string -> result bool string;
  codesign_verify : bytes -> result bool string;
  codesign_sign : bytes -> result (bytes * bool) string;
  run_binary : gmap string bytes -> string -> string -> result (bytes * bool) string
}.

Definition command_success (status : result bool string) (operation : string) : result unit UpdateError :=
  (let? success := map_err (fun text => Io (operation ++ ": " ++ text)) status in
   reject_if (negb success) (Refused (operation ++ " failed")))%res.
Definition bounded_command_output (output : result (bytes * bool) string) (limit : N) (operation : string) : result bytes UpdateError :=
  (let? ended := map_err (fun text => Io (operation ++ ": " ++ text)) output in
   reject_if (limit <? N.of_nat (length ended.1))%N (Refused (operation ++ " output exceeded its bound")) ?;
   reject_if (negb ended.2) (Refused (operation ++ " failed")) ?;
   Ok ended.1)%res.

(** [parallel_members]: every worker ends before the first error is returned. *)
Definition attempt_stage {A} (m : StageM A) : StageM (result A UpdateError) := fun s => let '(r, s) := m s in (Ok r, s).
Fixpoint workers {A} (f : BundleMember -> StageM A) (members : list BundleMember) : StageM (list (result A UpdateError)) :=
  match members with
  | [] => st_ret []
  | m :: members => r <- attempt_stage (f m) ;; rs <- workers f members ;; st_ret (r :: rs)
  end.
Definition parallel_members {A} (members : list BundleMember) (f : BundleMember -> StageM A) : StageM (list A) :=
  rs <- workers f members ;; st_lift (collect id rs).

Definition no_file (operation : string) : UpdateError := Io (operation ++ ": No such file or directory (os error 2)").
Definition read_file (path operation : string) : StageM StagedFile :=
  call operation ;;; s <- st_get ;; st_lift (ok_or (s.(sg_files) !! path) (no_file operation)).
Definition write_file (path : string) (data : bytes) : StageM unit :=
  st_modify (with_files (alter (fun f => {| sf_data := data; sf_mode := f.(sf_mode) |}) path)).
Definition set_mode (path : string) (mode : N) (operation : string) : StageM unit :=
  read_file path operation ;;; st_modify (with_files (alter (fun f => {| sf_data := f.(sf_data); sf_mode := mode |}) path)).

Definition create_private_file (path : string) : StageM unit :=
  create_file path 384 "create private partial download" ;;; call "create private partial download".

(** An executable outside the staging directory, [None] when it is missing: what
    [symlink_metadata] says of it, and what the two reads of it find. *)
Record SourceFile := { so_regular : bool; so_len : N; so_mine : bool; so_hashed : bytes; so_copied : bytes }.

Section Stage.
Context {host : Host} {sha256 : Sha256} {json : MarkerJson}.

Definition sha256_staged (path : string) : StageM string :=
  file <- read_file path "open file for SHA-256" ;;
  call "read file for SHA-256" ;;;
  st_ret (sha256_hex (ByteBuf.as_str file.(sf_data))).

(** *** The verifier of the system, which signs nothing elsewhere than on macOS *)

Definition QUARANTINE : string := "com.apple.quarantine".
Definition remove_quarantine (path : string) : StageM unit :=
  if negb macos then st_ret tt else
  output <- st_lift (bounded_command_output (xattr_list path) (64 * 1024) "list xattrs") ;;
  attributes <- st_lift (ok_or (from_utf8 output) (Refused "xattr output was not UTF-8")) ;;
  if existsb (fun attribute => String.eqb (trim attribute) QUARANTINE) (lines attributes)
  then st_lift (command_success (xattr_delete path) "remove com.apple.quarantine")
  else st_ret tt.

Definition verify_staged_signature (path : string) : StageM unit :=
  if negb macos then st_ret tt else
  file <- read_file path "verify staged signature" ;;
  st_lift (command_success (codesign_verify file.(sf_data)) "verify staged signature").

Definition sign (path : string) : StageM unit :=
  if negb macos then st_ret tt else
  verified <- attempt_stage (verify_staged_signature path) ;;
  match verified with
  | Ok _ => st_ret tt
  | Err _ =>
      let operation := "ad-hoc sign unsigned staged binary" in
      file <- read_file path operation ;;
      signed <- st_lift (map_err (fun text => Io (operation ++ ": " ++ text)) (codesign_sign file.(sf_data))) ;;
      refuse (negb signed.2) (operation ++ " failed") ;;;
      write_file path signed.1
  end.

Definition contents (s : Stage) : gmap string bytes := sf_data <$> s.(sg_files).

(** Runs the binary on what is staged; a run has an output and no effect on the
    staged files. *)
Definition smoke_binary (path : string) (member : BundleMember) (target : string) : StageM unit :=
  s <- st_get ;;
  output <- st_lift (bounded_command_output (run_binary (contents s) path "--version") 4096 "smoke staged executable version") ;;
  refuse (negb (bool_decide (output = as_bytes (name member ++ " " ++ target ++ String LF ""))))
    ("staged " ++ name member ++ " reported an unexpected version; expected " ++ target) ;;;
  if bool_decide (member = Cli) then
    self_test <- st_lift (bounded_command_output (run_binary (contents s) path "self-test") (64 * 1024) "self-test staged haider") ;;
    report <- st_lift (map_err (fun error => Refused ("staged haider self-test was not JSON: " ++ error)) (marker_parse (ByteBuf.as_str self_test))) ;;
    refuse (negb (bool_decide (get_str "schema" report = Some "haider.selftest.v0"))
            || negb (bool_decide (get_str "version" report = Some target))
            || negb (bool_decide (as_bool (get "ok" report) = Some true)))
      "staged haider self-test did not report exact versioned success"
  else st_ret tt.

(** *** Verification and freezing *)

Definition freeze_binary (directory : string) (member : BundleMember) : StageM StagedBinary :=
  let path := member_path directory member in
  read_file path "open staged binary for durability" ;;;
  set_mode path 320 "protect staged binary" ;;;
  call "fsync staged binary" ;;;
  digest <- sha256_staged path ;;
  st_ret {| sb_member := member; sb_path := path; sb_digest := digest |}.
Definition freeze_binaries (directory : string) (members : list BundleMember) : StageM (list StagedBinary) :=
  binaries <- parallel_members members (freeze_binary directory) ;;
  call "fsync directory" ;;;
  st_ret binaries.

Definition sign_and_verify (directory : string) (member : BundleMember) : StageM unit :=
  let binary := member_path directory member in
  remove_quarantine binary ;;; sign binary ;;; verify_staged_signature binary.
Definition verify_and_freeze (directory version : string) (members : list BundleMember) : StageM (list StagedBinary) :=
  parallel_members members (sign_and_verify directory) ;;;
  parallel_members members (fun member => smoke_binary (member_path directory member) member version) ;;;
  freeze_binaries directory members.

(** [VerifiedStagedPair::verify_immutable] over the staging directory. *)
Definition verify_frozen (b : StagedBinary) : StageM unit :=
  file <- read_file b.(sb_path) "inspect staged binary" ;;
  refuse (negb (N.land file.(sf_mode) 511 =? 320)%N) ("verified staged `" ++ name b.(sb_member) ++ "` is no longer immutable") ;;;
  digest <- sha256_staged b.(sb_path) ;;
  refuse (negb (String.eqb digest b.(sb_digest))) ("verified staged `" ++ name b.(sb_member) ++ "` digest changed before commit").
Fixpoint find_binary (member : BundleMember) (binaries : list StagedBinary) : StageM StagedBinary :=
  match binaries with
  | [] => st_lift (Err (Internal "requested member is absent from this verified bundle"))
  | b :: binaries => if bool_decide (b.(sb_member) = member) then st_ret b else find_binary member binaries
  end.
Definition verify_pair_immutable (p : VerifiedStagedPair) : StageM unit :=
  parallel_members (pair_members p) (fun member => b <- find_binary member p.(binaries) ;; verify_frozen b) ;;;
  st_ret tt.

(** *** The archive and its checksum *)

(** The last component of the referenced path must be the archive's name. *)
Definition parse_checksum_bytes (b : bytes) (archive : string) : result string UpdateError :=
  (reject_if (MAX_CHECKSUM_BYTES <? N.of_nat (length b))%N (Refused "checksum file is oversized") ?;
   let? text := ok_or (from_utf8 b) (Refused "checksum file is not UTF-8") in
   let? line := match filterb (fun line => negb (is_empty (trim line))) (lines text) with
                | [line] => Ok line
                | _ => Err (Refused "checksum must contain exactly one non-empty line")
                end in
   let malformed := Refused "checksum must contain exactly one 64-hex digest and filename" in
   let? fields := match split_whitespace line with
                  | [digest; file] => Ok (digest, file)
                  | _ => Err malformed
                  end in
   reject_if (negb (len fields.1 =? 64)%N || negb (all_bytes is_ascii_hexdigit fields.1)) malformed ?;
   reject_if (traverses fields.2 || negb (bool_decide (last (normal_components fields.2) = Some archive)))
     (Refused ("checksum references a different archive than `" ++ archive ++ "`")) ?;
   Ok (map_bytes to_ascii_lowercase_byte fields.1))%res.
Definition parse_checksum (path archive : string) : StageM string :=
  file <- read_file path "read release checksum" ;;
  st_lift (parse_checksum_bytes file.(sf_data) archive).

Definition XZ_MAGIC : bytes := map ascii_of_nat [253; 55; 122; 88; 90; 0].

Definition extract_strict (archive top : string) : StageM unit :=
  file <- read_file archive "read archive header" ;;
  st_reject_if (length file.(sf_data) <? 6)%nat (Io "read archive header: failed to fill whole buffer") ;;;
  refuse (negb (bool_decide (take 6 file.(sf_data) = XZ_MAGIC))) "release archive is not XZ" ;;;
  call "start strict archive decoder" ;;;
  st_modify (with_input (tar_ustar file.(sf_data)).1) ;;;
  parsed <- attempt_stage (parse_ustar top) ;;
  call "wait for strict archive decoder" ;;;
  st_lift parsed ;;;
  refuse (negb (tar_ustar file.(sf_data)).2) "archive decompression or normalization failed".

Definition download (url destination : string) (limit : N) : StageM unit :=
  data <- st_lift (fetch url limit) ;; write_file destination data.

Definition top_of (selection : ReleaseSelection) (target : string) : string :=
  "haider-v" ++ version_text selection.(rs_version) ++ "-" ++ target ++ "-split".

Definition stage_into (selection : ReleaseSelection) (compiled_target : result string UpdateError) : StageM VerifiedStagedPair :=
  let archive := selection.(archive_name) ++ ".part" in
  let checksum := selection.(checksum_name) ++ ".part" in
  create_private_file archive ;;;
  create_private_file checksum ;;;
  download selection.(archive_url) archive MAX_ARCHIVE_BYTES ;;;
  download selection.(checksum_url) checksum MAX_CHECKSUM_BYTES ;;;
  expected_digest <- parse_checksum checksum selection.(archive_name) ;;
  actual_digest <- sha256_staged archive ;;
  refuse (negb (String.eqb expected_digest actual_digest)) "release archive SHA-256 does not match its checksum" ;;;
  target <- st_lift compiled_target ;;
  let top := top_of selection target in
  refuse (negb (String.eqb selection.(archive_name) (top ++ ".tar.xz"))
          || negb (String.eqb selection.(checksum_name) (top ++ ".tar.xz.sha256")))
    "update selection is not an exact split-bundle asset" ;;;
  call "create extracted staging directory" ;;;
  call "protect extracted staging directory" ;;;
  extract_strict archive top ;;;
  binaries <- verify_and_freeze top (version_text selection.(rs_version)) BUNDLE_MEMBERS ;;
  call "fsync directory" ;;;
  let pair := {| binaries := binaries; version := version_text selection.(rs_version); source_digest := actual_digest |} in
  verify_pair_immutable pair ;;;
  st_ret pair.

(** The directory is dropped when staging fails, with everything in it unless
    the system refuses to remove it. *)
Definition drop_directory (s : Stage) : Stage :=
  match call "remove staging directory" s with
  | (Ok _, s) => with_files (fun _ => ∅) s
  | (Err _, s) => s
  end.
Definition dropping {A} (m : StageM A) : StageM A := fun s =>
  match m s with
  | (Err e, s) => (Err e, drop_directory s)
  | staged => staged
  end.
Definition stage_release (selection : ReleaseSelection) (compiled_target : result string UpdateError) : StageM VerifiedStagedPair :=
  call "create update staging directory" ;;; dropping (stage_into selection compiled_target).

(** ** Bundles from a directory or from an embedded payload *)

(** [stage_directory_bundle] reads a source twice, to hash it and to copy it. *)
Definition inspect_source (found : result (option SourceFile) string) (operation : string) : result SourceFile UpdateError :=
  (let? file := map_err (fun text => Io (operation ++ ": " ++ text)) found in
   ok_or file (no_file operation))%res.
Definition unbounded (source : SourceFile) : bool := negb source.(so_regular) || (source.(so_len) =? 0)%N || (MAX_BINARY_BYTES <? source.(so_len))%N.

Definition stage_source (sources : BundleMember -> result (option SourceFile) string) (directory : string) (member : BundleMember) : StageM string :=
  let destination := member_path directory member in
  source <- st_lift (inspect_source (sources member) "inspect installer source executable") ;;
  refuse (unbounded source) ("installer source " ++ file_name member ++ " is not a bounded regular executable") ;;;
  call "open file for SHA-256" ;;;
  call "read file for SHA-256" ;;;
  let source_digest := sha256_hex (ByteBuf.as_str source.(so_hashed)) in
  create_private_file destination ;;;
  call "copy installer source executable" ;;;
  write_file destination source.(so_copied) ;;;
  digest <- sha256_staged destination ;;
  refuse (negb (String.eqb digest source_digest)) "installer source changed while staging" ;;;
  set_mode destination 448 "make directory stage executable" ;;;
  st_ret (name member ++ " " ++ source_digest ++ String LF "").

(** The manifest, the checks and the pair of both kinds of bundles. *)
Definition finish_bundle (directory manifest operation sources version : string) (members : list BundleMember) : StageM VerifiedStagedPair :=
  create_private_file manifest ;;;
  call operation ;;;
  write_file manifest (as_bytes sources) ;;;
  source_digest <- sha256_staged manifest ;;
  binaries <- verify_and_freeze directory version members ;;
  call "fsync directory" ;;;
  let bundle := {| binaries := binaries; version := version; source_digest := source_digest |} in
  verify_pair_immutable bundle ;;;
  st_ret bundle.

Definition source_members (has_portal : bool) : list BundleMember :=
  filterb (fun member => negb (bool_decide (member = WaylandPortal)) || has_portal) ALL_BUNDLE_MEMBERS.

Definition stage_directory_bundle (sources : BundleMember -> result (option SourceFile) string) (version : string) : StageM VerifiedStagedPair :=
  st_lift (map_err Refused (parse_version version)) ;;;
  call "create update staging directory" ;;;
  dropping (
    let directory := "directory-bundle" in
    call "create directory-bundle staging" ;;;
    call "protect directory-bundle staging" ;;;
    portal <- st_lift (map_err (fun text => Io ("inspect optional portal source: " ++ text)) (sources WaylandPortal)) ;;
    let members := source_members (bool_decide (is_Some portal)) in
    entries <- parallel_members members (stage_source sources directory) ;;
    finish_bundle directory "directory-sources.sha256" "write directory source manifest" (concat_str entries) version members).

Definition write_embedded_binary (path : string) (data : bytes) : StageM unit :=
  refuse (match data with [] => true | _ => false end || (MAX_BINARY_BYTES <? N.of_nat (length data))%N) "embedded executable is empty or oversized" ;;;
  call "write embedded executable" ;;;
  write_file path data.

Definition stage_embedded (thin payload : bytes) (daemon : result (option SourceFile) string) (directory : string) (member : BundleMember) : StageM string :=
  let destination := member_path directory member in
  create_private_file destination ;;;
  match member with
  | Cli => write_embedded_binary destination thin
  | Tui => write_embedded_binary destination payload
  | Daemon =>
      source <- st_lift (inspect_source daemon "inspect embedded bundle daemon source") ;;
      refuse (unbounded source || negb source.(so_mine)) "embedded bundle daemon is not a trusted bounded regular file" ;;;
      call "copy embedded bundle daemon" ;;;
      write_file destination source.(so_copied)
  | WaylandPortal => st_lift (Err (Internal "embedded migration has only required members"))
  end ;;;
  set_mode destination 448 "make embedded stage executable" ;;;
  digest <- sha256_staged destination ;;
  st_ret (name member ++ " " ++ digest ++ String LF "").

(** The members one after the other; the first error ends the loop. *)
Fixpoint stage_all (f : BundleMember -> StageM string) (members : list BundleMember) : StageM string :=
  match members with
  | [] => st_ret ""
  | m :: members => line <- f m ;; rest <- stage_all f members ;; st_ret (line ++ rest)
  end.

Definition stage_embedded_bundle (thin payload : bytes) (daemon : result (option SourceFile) string) (compiled_target : result string UpdateError)
    (version : string) : StageM VerifiedStagedPair :=
  st_lift compiled_target ;;;
  st_lift (map_err Refused (parse_version version)) ;;;
  call "create update staging directory" ;;;
  dropping (
    let directory := "embedded-bundle" in
    call "create embedded staging directory" ;;;
    call "protect embedded staging directory" ;;;
    manifest <- stage_all (stage_embedded thin payload daemon directory) BUNDLE_MEMBERS ;;
    finish_bundle directory "embedded-sources.sha256" "write embedded source manifest" manifest version BUNDLE_MEMBERS).
End Stage.
