(* ===== verification/UpdateLogic.v ===== *)
(** * Specifications of update code

    [spec P m Q X]: from a directory that satisfies [P], whatever the events,
    [m] either returns a value with [Q], or fails or dies with [X].  [reads m R]:
    [m] changes nothing, and a value it returns satisfies [R].  A predicate on
    directories is given as a relation between what processes see and one
    directory the disk may hold, required of all of them ([on_disks]); the
    rules for the system calls that change entries are stated for such
    relations. *)

From S2P Require Import Prelude RustStr EffectTypes Json Envelope UpdateFs UpdateMarker Update.

Section Spec.
Context {E : Type}.

Definition spec {A} (P : Fs -> Prop) (m : ST World (Halt E) A) (Q : A -> Fs -> Prop) (X : Fs -> Prop) : Prop :=
  forall w, P w.(w_fs) ->
    match m w with
    | (Ok a, w') => Q a w'.(w_fs)
    | (Err _, w') => X w'.(w_fs)
    end.

Definition reads {A} (m : ST World (Halt E) A) (R : A -> Fs -> Prop) : Prop :=
  forall w, let '(r, w') := m w in
    w'.(w_fs) = w.(w_fs) /\ match r with Ok a => R a w.(w_fs) | Err _ => True end.

Lemma spec_conseq {A} (P P' : Fs -> Prop) (m : ST World (Halt E) A) (Q Q' : A -> Fs -> Prop) (X X' : Fs -> Prop) :
  spec P m Q X -> (forall fs, P' fs -> P fs) -> (forall a fs, Q a fs -> Q' a fs) -> (forall fs, X fs -> X' fs) ->
  spec P' m Q' X'.
Proof. intros Hm HP HQ HX w Hw. specialize (Hm w (HP _ Hw)). destruct (m w) as [[] ?]; auto. Qed.

Lemma spec_bind {A B} P (m : ST World (Halt E) A) (k : A -> ST World (Halt E) B) M Q X :
  spec P m M X -> (forall a, spec (M a) (k a) Q X) -> spec P (st_bind m k) Q X.
Proof.
  intros Hm Hk w Hw. specialize (Hm w Hw). unfold st_bind. destruct (m w) as [[a|e] w']; [|done].
  by apply Hk.
Qed.

Lemma spec_ret {A} (P : Fs -> Prop) (a : A) (Q : A -> Fs -> Prop) X :
  (forall fs, P fs -> Q a fs) -> spec P (st_ret a) Q X.
Proof. intros H w Hw. by apply H. Qed.

Lemma spec_pure {A} (pre : Prop) P (m : ST World (Halt E) A) Q X :
  (forall fs, P fs -> pre) -> (pre -> spec P m Q X) -> spec P m Q X.
Proof. intros Hp Hm w Hw. by apply Hm; [eapply Hp|]. Qed.

Lemma spec_reads {A} (P : Fs -> Prop) (m : ST World (Halt E) A) R :
  reads m R -> spec P m (fun a fs => P fs /\ R a fs) P.
Proof. intros Hm w Hw. specialize (Hm w). destruct (m w) as [[] ?]; destruct Hm as [-> ?]; auto. Qed.

(** A reading step at the head of a body. *)
Lemma spec_read {A B} P (m : ST World (Halt E) A) (k : A -> ST World (Halt E) B) R Q (X : Fs -> Prop) :
  reads m R -> (forall fs, P fs -> X fs) ->
  (forall a, spec (fun fs => P fs /\ R a fs) (k a) Q X) -> spec P (st_bind m k) Q X.
Proof.
  intros Hm HX Hk. eapply spec_bind; [|exact Hk].
  by apply (spec_conseq P P m (fun a fs => P fs /\ R a fs) (fun a fs => P fs /\ R a fs) P X); [apply spec_reads|..].
Qed.

Lemma reads_conseq {A} (m : ST World (Halt E) A) (R R' : A -> Fs -> Prop) :
  reads m R -> (forall a fs, R a fs -> R' a fs) -> reads m R'.
Proof. intros Hm HR w. specialize (Hm w). destruct (m w) as [[] ?]; naive_solver. Qed.

Lemma reads_bind {A B} (m : ST World (Halt E) A) (k : A -> ST World (Halt E) B) M R :
  reads m M -> (forall a, reads (k a) (fun b fs => M a fs -> R b fs)) -> reads (st_bind m k) R.
Proof.
  intros Hm Hk w. specialize (Hm w). unfold st_bind. destruct (m w) as [[a|e] w'] eqn:Em; [|naive_solver].
  destruct Hm as [Hw Ha]. specialize (Hk a w'). destruct (k a w') as [[b|e] w'']; destruct Hk as [Hk1 Hk2]; split; try congruence.
  rewrite Hw in Hk2. by apply Hk2.
Qed.

Lemma reads_ret {A} (a : A) (R : A -> Fs -> Prop) : (forall fs, R a fs) -> reads (st_ret a) R.
Proof. intros H w. by split. Qed.

Lemma reads_lift {A} (r : result A (Halt E)) : reads (st_lift r) (fun a _ => r = Ok a).
Proof. intros w. split; [done|]. by destruct r. Qed.

Lemma reads_if {A} (b : bool) (m1 m2 : ST World (Halt E) A) R :
  (b = true -> reads m1 R) -> (b = false -> reads m2 R) -> reads (if b then m1 else m2) R.
Proof. destruct b; auto. Qed.
End Spec.

(** ** Embedding system calls *)

Lemma spec_io {A} P op (m : IO A) Q X : spec P m Q X -> spec P (io op m) Q X.
Proof. intros Hm w Hw. specialize (Hm w Hw). unfold io. by destruct (m w) as [[a|[]] w']. Qed.

Lemma reads_io {A} op (m : IO A) R : reads m R -> reads (io op m) R.
Proof. intros Hm w. specialize (Hm w). unfold io. by destruct (m w) as [[a|[]] w']. Qed.

Lemma spec_attempt {E A} P (m : ST World (Halt E) A) Q X :
  spec P m Q X -> spec P (attempt m) (fun r fs => match r with Ok a => Q a fs | Err _ => X fs end) X.
Proof. intros Hm w Hw. specialize (Hm w Hw). unfold attempt. by destruct (m w) as [[a|[]] w']. Qed.

Lemma reads_attempt {E A} (m : ST World (Halt E) A) R :
  reads m R -> reads (attempt m) (fun r fs => match r with Ok a => R a fs | Err _ => True end).
Proof. intros Hm w. specialize (Hm w). unfold attempt. by destruct (m w) as [[a|[]] w']. Qed.

Lemma spec_sys {A} (P : Fs -> Prop) op (Q : A -> Fs -> Prop) X :
  (forall fs, P fs -> X fs) ->
  (forall fs, P fs -> match op fs with (Ok a, fs') => Q a fs' | (Err _, fs') => X fs' end) -> spec P (sys op) Q X.
Proof.
  intros HX Hop w Hw. unfold sys. destruct (w.(w_events)) as [|[] events]; simpl; auto;
    specialize (Hop _ Hw); by destruct (op (w_fs w)) as [[] ?].
Qed.

Lemma reads_sys {A} (op : Fs -> result A IoError * Fs) (R : A -> Fs -> Prop) :
  (forall fs, let '(r, fs') := op fs in fs' = fs /\ match r with Ok a => R a fs | Err _ => True end) ->
  reads (sys op) R.
Proof.
  intros Hop w. unfold sys. specialize (Hop w.(w_fs)).
  destruct (w.(w_events)) as [|[] events]; simpl; auto; destruct (op (w_fs w)) as [[] ?]; simpl; naive_solver.
Qed.

(** What a failing read says: the entry is missing, or the call failed. *)
Lemma attempt_sys {A} (op : Fs -> result A IoError * Fs) (R : A -> Fs -> Prop) (N : Fs -> Prop) :
  (forall fs, let '(r, fs') := op fs in
     fs' = fs /\ match r with Ok a => R a fs | Err e => e.(io_kind) = NotFound -> N fs end) ->
  reads (attempt (sys op)) (fun r fs => match r with Ok a => R a fs | Err e => e.(io_kind) = NotFound -> N fs end).
Proof.
  intros Hop w. unfold attempt, sys. specialize (Hop w.(w_fs)).
  destruct (w.(w_events)) as [|[|busy ? ?|] events]; simpl; auto; try (destruct (op (w_fs w)) as [[] ?]; simpl; naive_solver).
  split; [done|]. by destruct busy.
Qed.

Lemma reads_path_exists name : reads (path_exists name) (fun b fs => b = true -> is_Some (fs.(fs_dir) !! name)).
Proof.
  intros w. unfold path_exists, sys, find_node, find_in.
  destruct (w.(w_events)) as [|[] events]; simpl; try done;
    (split; [done|]); destruct (fs_dir (w_fs w) !! name) eqn:E; simpl; try done; by eexists.
Qed.

Lemma reads_refuse b e : reads (refuse_if b e) (fun _ _ => b = false).
Proof. intros w. unfold refuse_if, lift, st_lift. by destruct b. Qed.

Lemma reads_fail {A} e R : reads (@fail A e) R.
Proof. intros w. by split. Qed.

(** ** Loops *)

Section Loops.
Context {A : Type}.

Lemma spec_each (I X : Fs -> Prop) (f : A -> UpdM unit) l :
  (forall a, a ∈ l -> spec I (f a) (fun _ => I) X) -> spec I (each f l) (fun _ => I) X.
Proof.
  induction l as [|a l IH]; intros Hf; simpl; [apply spec_ret; auto|].
  eapply spec_bind; [apply Hf; set_solver|]. intros ?. apply IH. intros. apply Hf. set_solver.
Qed.

(** Each step keeps what the earlier ones established. *)
Lemma spec_each_done (I X : Fs -> Prop) (G : A -> Fs -> Prop) (f : A -> UpdM unit) l :
  (forall done a, a ∈ l -> (forall x, x ∈ done -> x ∈ l) ->
     spec (fun fs => I fs /\ Forall (fun x => G x fs) done) (f a)
       (fun _ fs => I fs /\ Forall (fun x => G x fs) (a :: done)) X) ->
  spec I (each f l) (fun _ fs => I fs /\ Forall (fun x => G x fs) l) X.
Proof.
  intros Hf.
  assert (Hgo : forall done todo, (forall x, x ∈ done -> x ∈ l) -> (forall x, x ∈ todo -> x ∈ l) ->
    spec (fun fs => I fs /\ Forall (fun x => G x fs) done) (each f todo)
      (fun _ fs => I fs /\ Forall (fun x => G x fs) (todo ++ done)) X).
  { intros done todo. revert done. induction todo as [|a todo IH]; intros done Hd Ht; simpl; [apply spec_ret; auto|].
    eapply spec_bind; [apply Hf; [apply Ht; set_solver|done]|]. intros ?.
    eapply spec_conseq; [apply (IH (a :: done)); set_solver|done| |done].
    intros ? fs [? HG]. split; [done|]. rewrite Forall_app in HG. rewrite Forall_cons, Forall_app.
    destruct HG as [? HG]. apply Forall_cons in HG. naive_solver. }
  eapply spec_conseq; [apply (Hgo [] l); set_solver|naive_solver| |done].
  intros ? fs. by rewrite app_nil_r.
Qed.

Lemma reads_each (f : A -> UpdM unit) (G : A -> Fs -> Prop) l :
  (forall a, a ∈ l -> reads (f a) (fun _ => G a)) -> reads (each f l) (fun _ fs => forall a, a ∈ l -> G a fs).
Proof.
  induction l as [|a l IH]; intros Hf; simpl; [apply reads_ret; set_solver|].
  eapply reads_bind; [apply Hf; set_solver|]. intros ?.
  eapply reads_conseq; [apply IH; intros; apply Hf; set_solver|]. intros ? fs HG Ha x Hx.
  apply elem_of_cons in Hx as [->|]; auto.
Qed.

Lemma reads_all (f : A -> UpdM bool) (G : A -> Fs -> Prop) l :
  (forall a, a ∈ l -> reads (f a) (fun b fs => b = true -> G a fs)) ->
  reads (all f l) (fun b fs => b = true -> forall a, a ∈ l -> G a fs).
Proof.
  induction l as [|a l IH]; intros Hf; simpl; [apply reads_ret; set_solver|].
  eapply reads_bind; [apply Hf; set_solver|]. intros [].
  - eapply reads_conseq; [apply IH; intros; apply Hf; set_solver|]. intros b fs HG Ha Hb x Hx.
    apply elem_of_cons in Hx as [->|]; auto.
  - by apply reads_ret.
Qed.

Lemma reads_gather {B} (f : A -> UpdM B) (G : A -> B -> Fs -> Prop) l :
  (forall a, a ∈ l -> reads (f a) (G a)) -> reads (gather f l) (fun bs fs => Forall2 (fun a b => G a b fs) l bs).
Proof.
  induction l as [|a l IH]; intros Hf; simpl; [apply reads_ret; by constructor|].
  eapply reads_bind; [apply Hf; set_solver|]. intros b.
  eapply reads_bind; [apply IH; intros; apply Hf; set_solver|]. intros bs.
  apply reads_ret. intros fs ? ?. by constructor.
Qed.
End Loops.

(** * The invariant of an install directory

    What every directory the disk may hold looks like, at any point of any
    update: a complete bundle with nothing to undo ([Quiet]), a transaction
    whose old bundle can be restored ([Active]), or one whose target is in place
    ([Final]).  Each is a relation between the directory processes see and one
    the disk may hold; this file proves what entries and inodes they depend on
    and that the operations of the updater keep them. *)


(** ** Names *)

Lemma starts_with_app p s : starts_with p s = true -> exists rest, s = (p ++ rest)%string.
Proof. unfold starts_with. rewrite bool_decide_eq_true. intros [rest Hr]. exists rest. by apply strip_prefix_some. Qed.

Definition relevant (n : string) : Prop :=
  n = MARKER_NAME \/ (exists m, n = file_name m) \/ exists m, starts_with (backup_prefix m) n = true.

Definition agree (d d' : Entries) : Prop := forall n, relevant n -> d' !! n = d !! n.

Lemma relevant_marker : relevant MARKER_NAME.
Proof. by left. Qed.
Lemma relevant_file m : relevant (file_name m).
Proof. right. left. by eexists. Qed.
Lemma relevant_backup m n : starts_with (backup_prefix m) n = true -> relevant n.
Proof. intros. right. right. by eexists. Qed.
#[export] Hint Resolve relevant_marker relevant_file relevant_backup : core.

Lemma part_irrelevant id : ~ relevant (part_name id).
Proof.
  intros [H|[[[] H]|[[] [rest H]%starts_with_app]]]; discriminate.
Qed.
Lemma lock_irrelevant : ~ relevant LOCK_NAME.
Proof.
  intros [H|[[[] H]|[[] [rest H]%starts_with_app]]]; discriminate.
Qed.

Lemma file_name_inj m m' : file_name m = file_name m' -> m = m'.
Proof. by destruct m, m'. Qed.
Lemma file_not_marker m : file_name m <> MARKER_NAME.
Proof. by destruct m. Qed.
Lemma backup_not_file m m' n : starts_with (backup_prefix m) n = true -> n <> file_name m'.
Proof. intros [rest ->]%starts_with_app. by destruct m, m'. Qed.
Lemma backup_not_marker m n : starts_with (backup_prefix m) n = true -> n <> MARKER_NAME.
Proof. intros [rest ->]%starts_with_app. by destruct m. Qed.
Lemma backup_prefix_inj m m' n :
  starts_with (backup_prefix m) n = true -> starts_with (backup_prefix m') n = true -> m = m'.
Proof. intros [rest ->]%starts_with_app [rest' H]%starts_with_app. by destruct m, m'; simplify_eq/=. Qed.
Lemma path_file dir m : path (in_directory dir) m = file_name m.
Proof. by destruct m. Qed.

(** ** Files *)

Abbreviation Inodes := (gmap nat Inode).

(** The inode holds these bytes, on disk too. *)
Definition file_is (ino : Inodes) (i : nat) (data : string) : Prop :=
  exists node, ino !! i = Some node /\ node.(i_synced) = true /\ node.(i_kind) = Regular data.

(** Inodes whose data is on disk keep it. *)
Definition kept (ino ino' : Inodes) : Prop := forall i data, file_is ino i data -> file_is ino' i data.

Lemma kept_refl ino : kept ino ino.
Proof. by intros i data. Qed.
Lemma kept_trans ino1 ino2 ino3 : kept ino1 ino2 -> kept ino2 ino3 -> kept ino1 ino3.
Proof. intros H1 H2 i data Hi. by apply H2, H1. Qed.

Lemma kept_alter f i ino :
  (forall node, ino !! i = Some node -> node.(i_synced) = true ->
     (f node).(i_synced) = true /\ (f node).(i_kind) = node.(i_kind)) -> kept ino (alter f i ino).
Proof.
  intros Hf j data (node&Hj&Hs&Hk). destruct (decide (i = j)) as [->|].
  - exists (f node). rewrite lookup_alter_eq, Hj. destruct (Hf _ Hj Hs) as [? ->]. done.
  - exists node. by rewrite lookup_alter_ne.
Qed.

Lemma kept_insert i node ino : ino !! i = None -> kept ino (<[i := node]> ino).
Proof. intros Hi j data (n&Hj&?). exists n. rewrite lookup_insert_ne by naive_solver. done. Qed.

Section Invariant.
Context {sha256 : Sha256} {json : MarkerJson}.

Definition Bundle : Type := BundleMember -> option string.

(** The entry names a file with this digest. *)
Definition digest_is (ino : Inodes) (o : option nat) (h : string) : Prop :=
  exists i data, o = Some i /\ file_is ino i data /\ sha256_hex data = h.
Definition is_at (ino : Inodes) (o : option nat) (d : option string) : Prop :=
  match d with Some h => digest_is ino o h | None => o = None end.

(** The entry names a marker; if it can be read, it is of this kind. *)
Definition marks (ino : Inodes) (o : option nat) (P : Marker -> Prop) : Prop :=
  exists i text, o = Some i /\ file_is ino i text /\ forall m, decode_marker text = Ok m -> P m.

Lemma digest_is_kept ino ino' o h : kept ino ino' -> digest_is ino o h -> digest_is ino' o h.
Proof. intros Hk (i&data&?&?&?). exists i, data. eauto. Qed.
Lemma is_at_kept ino ino' o d : kept ino ino' -> is_at ino o d -> is_at ino' o d.
Proof. destruct d; simpl; [apply digest_is_kept|done]. Qed.
Lemma marks_kept ino ino' o P : kept ino ino' -> marks ino o P -> marks ino' o P.
Proof. intros Hk (i&text&?&?&?). exists i, text. eauto. Qed.
Lemma marks_weaken ino o (P P' : Marker -> Prop) : (forall m, P m -> P' m) -> marks ino o P -> marks ino o P'.
Proof. intros HP (i&text&?&?&?). exists i, text. eauto. Qed.

Lemma digest_is_unique ino o h h' : digest_is ino o h -> digest_is ino o h' -> h = h'.
Proof. intros (i&data&->&(n&?&?&?)&<-) (j&data'&?&(n'&?&?&?)&<-). simplify_eq. congruence. Qed.

(** ** What holds of every disk *)

Definition Rel : Type := Inodes -> Entries -> Entries -> Prop.

Definition on_disks (R : Rel) (fs : Fs) : Prop :=
  fs.(fs_dir) ∈ fs.(fs_disks) /\
  (forall i, is_Some (fs.(fs_inodes) !! i) -> i < fs.(fs_next)) /\
  (forall d n i, d ∈ fs.(fs_disks) -> d !! n = Some i -> is_Some (fs.(fs_inodes) !! i)) /\
  forall d, d ∈ fs.(fs_disks) -> R fs.(fs_inodes) fs.(fs_dir) d.

(** The same, and nothing is waiting to reach the disk. *)
Definition settled (R : Rel) : Rel := fun ino dir d => R ino dir d /\ d = dir.

Lemma on_disks_impl (R R' : Rel) fs :
  (forall ino dir d, R ino dir d -> R ino dir dir -> R' ino dir d) -> on_disks R fs -> on_disks R' fs.
Proof. intros H (?&?&?&HR). split_and!; auto. Qed.

Lemma on_disks_dir (R : Rel) fs : on_disks R fs -> R fs.(fs_inodes) fs.(fs_dir) fs.(fs_dir).
Proof. intros (?&?&?&HR). auto. Qed.

Definition monotone (R : Rel) : Prop :=
  forall ino ino' dir d, kept ino ino' -> R ino dir dir -> R ino dir d -> R ino' dir d.
(** Only relevant entries matter. *)
Definition local (R : Rel) : Prop :=
  forall ino dir dir' d d', agree dir dir' -> agree d d' -> R ino dir d -> R ino dir' d'.

Lemma on_disks_dirs (R R' : Rel) f fs :
  on_disks R fs ->
  (forall d n i, d ∈ fs.(fs_disks) -> f d !! n = Some i -> d !! n = Some i \/ is_Some (fs.(fs_inodes) !! i)) ->
  (forall d, R fs.(fs_inodes) fs.(fs_dir) d -> R fs.(fs_inodes) fs.(fs_dir) fs.(fs_dir) ->
     R' fs.(fs_inodes) (f fs.(fs_dir)) d /\ R' fs.(fs_inodes) (f fs.(fs_dir)) (f d)) ->
  on_disks R' (with_dirs f fs).
Proof.
  intros (Hd&Hn&Hc&HR) Hf HR'. assert (Hdd := HR _ Hd). split_and!; simpl; [|done|..].
  - apply elem_of_app. right. by apply list_elem_of_fmap_2.
  - intros d n i [Hin|(d'&->&Hin)%list_elem_of_fmap]%elem_of_app Hi; [eauto|].
    destruct (Hf _ _ _ Hin Hi); eauto.
  - intros d [Hin|(d'&->&Hin)%list_elem_of_fmap]%elem_of_app; by apply HR'; auto.
Qed.

Lemma on_disks_inodes (R : Rel) ino' fs :
  monotone R -> on_disks R fs -> kept fs.(fs_inodes) ino' ->
  (forall i, is_Some (ino' !! i) <-> is_Some (fs.(fs_inodes) !! i)) ->
  on_disks R (with_inodes (fun _ => ino') fs).
Proof.
  intros Hm (Hd&Hn&Hc&HR) Hk Hs. split_and!; simpl; [done|..].
  - intros i ?. by apply Hn, Hs.
  - intros d n i ? ?. apply Hs. eauto.
  - intros d ?. eauto.
Qed.

Lemma on_disks_new (R : Rel) node fs : monotone R -> on_disks R fs -> on_disks R (with_new node fs).
Proof.
  intros Hm (Hd&Hn&Hc&HR).
  assert (Hfresh : fs.(fs_inodes) !! fs.(fs_next) = None).
  { apply eq_None_not_Some. intros H. apply Hn in H. lia. }
  split_and!; simpl; [done|..].
  - intros i Hi. destruct (decide (i = fs_next fs)) as [->|]; [lia|].
    rewrite lookup_insert_ne in Hi by done. apply Hn in Hi. lia.
  - intros d n i ? ?. destruct (decide (i = fs_next fs)) as [->|]; [by rewrite lookup_insert_eq|].
    rewrite lookup_insert_ne by done. eauto.
  - intros d ?. eapply Hm; [by apply kept_insert|auto..].
Qed.

Lemma on_disks_stage (R : Rel) stage fs : on_disks R fs -> on_disks R (with_stage stage fs).
Proof. done. Qed.

Lemma on_disks_sync (R : Rel) fs : on_disks R fs -> on_disks (settled R) (with_disk fs).
Proof.
  intros (Hd&Hn&Hc&HR). split_and!; simpl; [set_solver|done|..].
  - intros d n i Hin. apply list_elem_of_singleton in Hin as ->. eauto.
  - intros d Hin. apply list_elem_of_singleton in Hin as ->. split; auto.
Qed.

Lemma settled_monotone R : monotone R -> monotone (settled R).
Proof. intros H ino ino' dir d Hk [? _] [? ->]. split; eauto. Qed.

(** ** The states of an update *)

Definition marker_ok (ms : list MarkerMember) : Prop :=
  NoDup (map mm_member ms) /\ forall e, e ∈ ms -> starts_with (backup_prefix e.(mm_member)) e.(backup) = true.

Definition canonical (e : MarkerMember) : string := file_name e.(mm_member).

(** Members the transaction leaves alone. *)
Definition others (ms : list MarkerMember) (B : Bundle) (ino : Inodes) (d : Entries) : Prop :=
  forall m, m ∉ map mm_member ms -> is_at ino (d !! file_name m) (B m).

(** The old file is in place, or its backup is. *)
Definition restorable (ino : Inodes) (e : MarkerMember) (d : Entries) : Prop :=
  let c := d !! canonical e in let b := d !! e.(backup) in
  match e.(old_digest) with
  | Some o => (digest_is ino c o \/ digest_is ino b o /\ digest_is ino c e.(target_digest)) /\ (b = None \/ digest_is ino b o)
  | None => b = None /\ (c = None \/ digest_is ino c e.(target_digest))
  end.

(** A backup that is visible beside the old file is not needed on any disk. *)
Definition link_old (ino : Inodes) (e : MarkerMember) (dir d : Entries) : Prop :=
  match e.(old_digest) with
  | Some o => is_Some (dir !! e.(backup)) -> digest_is ino (dir !! canonical e) o -> digest_is ino (d !! canonical e) o
  | None => True
  end.
(** A target that is visible is on every disk, and so are visible backups. *)
Definition link_new (ino : Inodes) (e : MarkerMember) (dir d : Entries) : Prop :=
  (digest_is ino (dir !! canonical e) e.(target_digest) -> digest_is ino (d !! canonical e) e.(target_digest)) /\
  forall i, dir !! e.(backup) = Some i -> d !! e.(backup) = Some i.

Definition Active (ms : list MarkerMember) (B : Bundle) : Rel := fun ino dir d =>
  marks ino (d !! MARKER_NAME) (fun m => m.(members) = ms) /\ others ms B ino d /\
  (forall e, e ∈ ms -> restorable ino e d /\ link_old ino e dir d) /\
  marks ino (dir !! MARKER_NAME) (fun m => m.(mk_phase) = Finalizing -> forall e, e ∈ ms -> link_new ino e dir d).

Definition in_place (ino : Inodes) (e : MarkerMember) (d : Entries) : Prop :=
  digest_is ino (d !! canonical e) e.(target_digest) /\
  (d !! e.(backup) = None \/ exists o, e.(old_digest) = Some o /\ digest_is ino (d !! e.(backup)) o).

Definition Final (ms : list MarkerMember) (B : Bundle) : Rel := fun ino dir d =>
  marks ino (d !! MARKER_NAME) (fun m => m.(members) = ms) /\ others ms B ino d /\
  forall e, e ∈ ms -> in_place ino e d /\ forall i, dir !! e.(backup) = Some i -> d !! e.(backup) = Some i.

(** [ms] takes the bundle [B] to [BT], both of them complete ([H]). *)
Record takes (H : Bundle -> Prop) (B BT : Bundle) (ms : list MarkerMember) : Prop := {
  takes_ok : marker_ok ms;
  takes_from : H B;
  takes_to : H BT;
  takes_old : forall e, e ∈ ms -> e.(old_digest) = B e.(mm_member);
  takes_new : forall e, e ∈ ms -> BT e.(mm_member) = Some e.(target_digest);
  takes_rest : forall m, m ∉ map mm_member ms -> BT m = B m
}.

(** A marker with nothing left to undo: the bundle is the old one or the new. *)
Definition dead (H : Bundle -> Prop) (B : Bundle) (d : Entries) (ms : list MarkerMember) : Prop :=
  (forall e, e ∈ ms -> d !! e.(backup) = None) /\
  ((marker_ok ms /\ forall e, e ∈ ms -> e.(old_digest) = B e.(mm_member)) \/ exists B0, takes H B0 B ms).

Definition Quiet (H : Bundle -> Prop) (B : Bundle) : Rel := fun ino dir d =>
  (forall m, is_at ino (d !! file_name m) (B m)) /\
  (d !! MARKER_NAME = None \/ exists ms, marks ino (d !! MARKER_NAME) (fun m => m.(members) = ms) /\ dead H B d ms) /\
  (is_Some (dir !! MARKER_NAME) -> exists ms,
     marker_ok ms /\ marks ino (dir !! MARKER_NAME) (fun m => m.(members) = ms) /\
     forall e, e ∈ ms -> e.(old_digest) = B e.(mm_member) /\ d !! e.(backup) = None).

(** At every point of every run. *)
Inductive Inv (H : Bundle -> Prop) (fs : Fs) : Prop :=
  | InvQuiet B : H B -> on_disks (Quiet H B) fs -> Inv H fs
  | InvActive B BT ms : takes H B BT ms -> on_disks (Active ms B) fs -> Inv H fs
  | InvFinal B BT ms : takes H B BT ms -> on_disks (Final ms B) fs -> Inv H fs.

(** *** What they depend on *)

Lemma agree_canonical d d' e : agree d d' -> d' !! canonical e = d !! canonical e.
Proof. intros Ha. apply Ha, relevant_file. Qed.
Lemma agree_backup d d' ms e : marker_ok ms -> agree d d' -> e ∈ ms -> d' !! e.(backup) = d !! e.(backup).
Proof. intros [_ Hb] Ha He. eapply Ha, relevant_backup. by apply Hb. Qed.
Lemma agree_marker d d' : agree d d' -> d' !! MARKER_NAME = d !! MARKER_NAME.
Proof. intros Ha. apply Ha, relevant_marker. Qed.

Lemma active_local ms B : marker_ok ms -> local (Active ms B).
Proof.
  intros Hok ino dir dir' d d' Hdir Hd (Hm&Ho&He&Hp). unfold Active, restorable, link_old, link_new, others in *.
  rewrite (agree_marker _ _ Hd), (agree_marker _ _ Hdir). split_and!; [done|..].
  - intros m Hin. rewrite Hd by apply relevant_file. auto.
  - intros e Hin. destruct (He e Hin).
    rewrite (agree_canonical _ _ e Hd), (agree_canonical _ _ e Hdir), (agree_backup _ _ _ _ Hok Hd Hin), (agree_backup _ _ _ _ Hok Hdir Hin).
    done.
  - eapply marks_weaken; [|exact Hp]. intros m Hf Hph e Hin. specialize (Hf Hph e Hin).
    by rewrite (agree_canonical _ _ e Hd), (agree_canonical _ _ e Hdir), (agree_backup _ _ _ _ Hok Hd Hin), (agree_backup _ _ _ _ Hok Hdir Hin).
Qed.

Lemma final_local ms B : marker_ok ms -> local (Final ms B).
Proof.
  intros Hok ino dir dir' d d' Hdir Hd (Hm&Ho&He). unfold Final, in_place, others in *.
  rewrite (agree_marker _ _ Hd). split_and!; [done|..].
  - intros m Hin. rewrite Hd by apply relevant_file. auto.
  - intros e Hin. specialize (He e Hin).
    by rewrite (agree_canonical _ _ e Hd), (agree_backup _ _ _ _ Hok Hd Hin), (agree_backup _ _ _ _ Hok Hdir Hin).
Qed.

Lemma dead_ok H B d ms : dead H B d ms -> marker_ok ms.
Proof. intros [_ [[? _]|[B0 Ht]]]; [done|apply Ht]. Qed.

Lemma dead_agree H B d d' ms : agree d d' -> dead H B d ms -> dead H B d' ms.
Proof.
  intros Ha Hdead. assert (Hok := dead_ok _ _ _ _ Hdead). destruct Hdead as [Hb ?]. split; [|done].
  intros e He. rewrite (agree_backup _ _ _ _ Hok Ha He). auto.
Qed.

Lemma quiet_local H B : local (Quiet H B).
Proof.
  intros ino dir dir' d d' Hdir Hd (Hb&Hm&Hv). unfold Quiet.
  rewrite (agree_marker _ _ Hd), (agree_marker _ _ Hdir). split_and!.
  - intros m. rewrite Hd by apply relevant_file. auto.
  - destruct Hm as [|(ms&?&?)]; [by left|]. right. exists ms. split; [done|]. by eapply dead_agree.
  - intros Hs. destruct (Hv Hs) as (ms&?&?&He). exists ms. split_and!; [done..|].
    intros e Hin. destruct (He e Hin). split; [done|]. by rewrite (agree_backup d d' ms).
Qed.

(** Statements about files only grow; implications between them need digests
    to be unique. *)
Lemma digest_back ino ino' o h h' : kept ino ino' -> digest_is ino o h' -> digest_is ino' o h -> h = h'.
Proof. intros Hk Ho. apply (digest_is_kept _ _ _ _ Hk) in Ho. intros. by eapply digest_is_unique. Qed.

Definition known (ino : Inodes) (e : MarkerMember) (d : Entries) : Prop :=
  d !! canonical e = None \/ exists h, digest_is ino (d !! canonical e) h.

Lemma known_back ino ino' e d h :
  kept ino ino' -> known ino e d -> digest_is ino' (d !! canonical e) h -> digest_is ino (d !! canonical e) h.
Proof.
  intros Hk [Hn|[h' Hh]] Hd; [destruct Hd as (?&?&Hs&_); congruence|].
  by rewrite (digest_back _ _ _ _ _ Hk Hh Hd).
Qed.

Lemma restorable_known ino e d : restorable ino e d -> known ino e d.
Proof. unfold restorable, known. destruct (old_digest e); naive_solver. Qed.

Lemma restorable_kept ino ino' e d : kept ino ino' -> restorable ino e d -> restorable ino' e d.
Proof. intros Hk. unfold restorable. destruct (old_digest e); naive_solver eauto using digest_is_kept. Qed.

Lemma link_old_kept ino ino' e dir d :
  kept ino ino' -> known ino e dir -> link_old ino e dir d -> link_old ino' e dir d.
Proof.
  intros Hk Hn. unfold link_old. destruct (old_digest e); [|done].
  intros Hl ? ?. eapply digest_is_kept; [done|]. apply Hl; [done|]. by eapply known_back.
Qed.
Lemma link_new_kept ino ino' e dir d :
  kept ino ino' -> known ino e dir -> link_new ino e dir d -> link_new ino' e dir d.
Proof.
  intros Hk Hn [Hl ?]. split; [|done]. intros ?. eapply digest_is_kept; [done|]. apply Hl. by eapply known_back.
Qed.

Lemma others_kept ms B ino ino' d : kept ino ino' -> others ms B ino d -> others ms B ino' d.
Proof. intros Hk Ho m Hm. eapply is_at_kept; eauto. Qed.

Lemma active_monotone ms B : monotone (Active ms B).
Proof.
  intros ino ino' dir d Hk (_&_&Hdir&_) (Hm&Ho&He&Hp). split_and!.
  - by eapply marks_kept.
  - by eapply others_kept.
  - intros e Hin. destruct (He e Hin). destruct (Hdir e Hin) as [Hr _].
    split; [by eapply restorable_kept|]. eapply link_old_kept; eauto using restorable_known.
  - eapply marks_kept; [done|]. eapply marks_weaken; [|exact Hp]. intros m Hf Hph e Hin.
    destruct (Hdir e Hin) as [Hr _]. eapply link_new_kept; eauto using restorable_known.
Qed.

Lemma final_monotone ms B : monotone (Final ms B).
Proof.
  intros ino ino' dir d Hk _ (Hm&Ho&He). split_and!.
  - by eapply marks_kept.
  - by eapply others_kept.
  - intros e Hin. destruct (He e Hin) as [[? Hb] ?]. split; [|done]. split; [by eapply digest_is_kept|].
    destruct Hb as [|(o&?&?)]; [by left|]. right. eauto using digest_is_kept.
Qed.

Lemma quiet_monotone H B : monotone (Quiet H B).
Proof.
  intros ino ino' dir d Hk _ (Hb&Hm&Hv). split_and!.
  - intros m. by eapply is_at_kept.
  - destruct Hm as [|(ms&?&?)]; [by left|]. right. exists ms. split; [by eapply marks_kept|done].
  - intros Hs. destruct (Hv Hs) as (ms&?&?&?). exists ms. split_and!; [done|by eapply marks_kept|done].
Qed.
#[local] Hint Resolve active_monotone final_monotone quiet_monotone settled_monotone : core.

(** ** Power loss *)

Lemma crash_kept fs fs' : Crash fs fs' -> kept fs.(fs_inodes) fs'.(fs_inodes).
Proof.
  intros Hc i data (node&Hi&Hs&Hk). pose proof (crash_inodes _ _ Hc i) as Hf. rewrite Hi in Hf.
  inversion Hf as [? node' Hsv E1 E2|]; subst. destruct Hsv as (_&_&_&Hs'&Hk'&_).
  exists node'. rewrite Hk' by done. done.
Qed.

Lemma on_disks_crash (R R' : Rel) fs fs' :
  monotone R' -> on_disks R fs -> Crash fs fs' ->
  (R fs.(fs_inodes) fs.(fs_dir) fs'.(fs_dir) -> R' fs.(fs_inodes) fs'.(fs_dir) fs'.(fs_dir)) -> on_disks R' fs'.
Proof.
  intros Hm (Hd&Hn&Hcl&HR) Hc Hlow.
  assert (Hs : forall i, is_Some (fs'.(fs_inodes) !! i) <-> is_Some (fs.(fs_inodes) !! i)).
  { intros i. pose proof (crash_inodes _ _ Hc i) as Hf. split; intros [x Hx]; rewrite Hx in Hf; inversion Hf; eauto. }
  pose proof (crash_dir _ _ Hc) as Hin. unfold on_disks. rewrite (crash_disks _ _ Hc), (crash_next _ _ Hc).
  split_and!; [set_solver|..].
  - intros i ?. by apply Hn, Hs.
  - intros d n i Hd' ?. apply list_elem_of_singleton in Hd' as ->. apply Hs. eauto.
  - intros d Hd'. apply list_elem_of_singleton in Hd' as ->.
    eapply Hm; [by apply crash_kept|..]; apply Hlow; auto.
Qed.

Lemma link_old_refl ino e d : link_old ino e d d.
Proof. unfold link_old. by destruct (old_digest e). Qed.
Lemma link_new_refl ino e d : link_new ino e d d.
Proof. done. Qed.

(** A quiet disk's marker is undone or finished by the next recovery. *)
Lemma quiet_crash H B fs fs' : H B -> on_disks (Quiet H B) fs -> Crash fs fs' -> Inv H fs'.
Proof.
  intros HB Hq Hc. assert (Hin := crash_dir _ _ Hc). destruct Hq as (Hd&Hn&Hcl&HR).
  destruct (HR _ Hin) as (Hb&Hm&_).
  assert (Hq : on_disks (Quiet H B) fs) by done.
  destruct Hm as [Hnone|(ms&Hm&Hab&[[Hok Hold]|[B0 Ht]])].
  - apply (InvQuiet H fs' B HB). eapply on_disks_crash; [apply quiet_monotone|exact Hq|done|].
    intros _. split_and!; [done|by left|]. rewrite Hnone. intros [? ?]. done.
  - apply (InvQuiet H fs' B HB). eapply on_disks_crash; [apply quiet_monotone|exact Hq|done|].
    intros _. split_and!; [done|..].
    + right. exists ms. split; [done|]. split; [done|]. by left.
    + intros _. exists ms. split_and!; auto.
  - apply (InvFinal H fs' B0 B ms Ht). eapply on_disks_crash; [apply final_monotone|exact Hq|done|].
    intros _. split_and!; [done|..].
    + intros m Hm'. rewrite <-(takes_rest _ _ _ _ Ht) by done. auto.
    + intros e He. split; [|done]. split; [|left; auto].
      specialize (Hb e.(mm_member)). by rewrite (takes_new _ _ _ _ Ht e He) in Hb.
Qed.

Lemma inv_crash H fs fs' : Inv H fs -> Crash fs fs' -> Inv H fs'.
Proof.
  intros [B HB Hq|B BT ms Ht Ha|B BT ms Ht Hf] Hc.
  - by eapply quiet_crash.
  - apply (InvActive H fs' B BT ms Ht). eapply on_disks_crash; [apply active_monotone|exact Ha|done|].
    intros (Hm&Ho&He&_). split_and!; [done|done|..].
    + intros e Hin. destruct (He e Hin). split; [done|apply link_old_refl].
    + eapply marks_weaken; [|exact Hm]. intros; apply link_new_refl.
  - apply (InvFinal H fs' B BT ms Ht). eapply on_disks_crash; [apply final_monotone|exact Hf|done|].
    intros (Hm&Ho&He). split_and!; [done|done|]. intros e Hin. destruct (He e Hin). done.
Qed.
End Invariant.
