(* ===== verification/UpdateSteps.v ===== *)
(** * Steps of an update on the invariant

    Rules for the system calls that change entries, stated for relations on
    disks; [write_marker] once, for any relation that does not look at the
    partial marker; and the steps of backup, installation, restoring and clean-up
    on an active or final transaction. *)

From S2P Require Import Prelude RustStr EffectTypes Json Envelope UpdateFs UpdateMarker Update UpdateLogic.

Section Steps.
Context {sha256 : Sha256} {json : MarkerJson}.

(** ** System calls *)

Lemma spec_sync_dir (R : Rel) (X : Fs -> Prop) :
  (forall fs, on_disks R fs -> X fs) -> spec (on_disks R) sync_dir (fun _ => on_disks (settled R)) X.
Proof. intros HX. apply spec_io, spec_sys; [done|]. intros fs Hfs. by apply on_disks_sync. Qed.

Lemma on_disks_delete (R R' : Rel) n fs :
  on_disks R fs ->
  (forall d, R fs.(fs_inodes) fs.(fs_dir) fs.(fs_dir) -> R fs.(fs_inodes) fs.(fs_dir) d ->
     R' fs.(fs_inodes) (delete n fs.(fs_dir)) d /\ R' fs.(fs_inodes) (delete n fs.(fs_dir)) (delete n d)) ->
  on_disks R' (with_dirs (delete n) fs).
Proof.
  intros Hfs H. eapply on_disks_dirs; [done| |auto].
  intros d k i _ Hk. left. by apply lookup_delete_Some in Hk as [_ ?].
Qed.

Lemma on_disks_insert (R R' : Rel) n i fs :
  on_disks R fs -> is_Some (fs.(fs_inodes) !! i) ->
  (forall d, R fs.(fs_inodes) fs.(fs_dir) fs.(fs_dir) -> R fs.(fs_inodes) fs.(fs_dir) d ->
     R' fs.(fs_inodes) (<[n := i]> fs.(fs_dir)) d /\ R' fs.(fs_inodes) (<[n := i]> fs.(fs_dir)) (<[n := i]> d)) ->
  on_disks R' (with_dirs (<[n := i]>) fs).
Proof.
  intros Hfs Hi H. eapply on_disks_dirs; [done| |auto].
  intros d k j _ Hk. apply lookup_insert_Some in Hk as [[_ <-]|[_ ?]]; auto.
Qed.

Lemma on_disks_move (R R' : Rel) i s t fs :
  on_disks R fs -> is_Some (fs.(fs_inodes) !! i) ->
  (forall d, R fs.(fs_inodes) fs.(fs_dir) fs.(fs_dir) -> R fs.(fs_inodes) fs.(fs_dir) d ->
     R' fs.(fs_inodes) (move i s t fs.(fs_dir)) d /\ R' fs.(fs_inodes) (move i s t fs.(fs_dir)) (move i s t d)) ->
  on_disks R' (with_dirs (move i s t) fs).
Proof.
  intros Hfs Hi H. eapply on_disks_dirs; [done| |auto].
  intros d k j _ Hk. unfold move in Hk. apply lookup_insert_Some in Hk as [[_ <-]|[_ Hk]]; [auto|].
  left. by apply lookup_delete_Some in Hk as [_ ?].
Qed.

Lemma spec_remove_file (R R' : Rel) (X : Fs -> Prop) n :
  (forall fs, on_disks R fs -> X fs) ->
  (forall ino dir d, is_Some (dir !! n) -> R ino dir dir -> R ino dir d ->
     R' ino (delete n dir) d /\ R' ino (delete n dir) (delete n d)) ->
  spec (on_disks R) (remove_file n) (fun _ => on_disks R') X.
Proof.
  intros HX H. apply spec_sys; [done|]. intros fs Hfs. destruct (fs_dir fs !! n) as [i|] eqn:Ei; [|by apply HX].
  destruct (is_directory fs i); [by apply HX|]. eapply on_disks_delete; [done|].
  intros d ? ?. apply H; [by rewrite Ei|done..].
Qed.

Lemma spec_remove_if_exists (R R' : Rel) (X : Fs -> Prop) n op :
  (forall fs, on_disks R fs -> X fs) ->
  (forall ino dir d, is_Some (dir !! n) -> R ino dir dir -> R ino dir d ->
     R' ino (delete n dir) d /\ R' ino (delete n dir) (delete n d)) ->
  (forall ino dir d, dir !! n = None -> R ino dir dir -> R ino dir d -> R' ino dir d) ->
  spec (on_disks R) (remove_if_exists n op) (fun _ => on_disks R') X.
Proof.
  intros HX Hsome Hnone w Hw. pose proof (spec_remove_file R R' X n HX Hsome w Hw) as Hr.
  unfold remove_if_exists, st_bind, attempt. destruct (remove_file n w) as [[u|[e|]] w'] eqn:Em; simpl; [done| |done].
  destruct (decide (io_kind e = NotFound)) as [Hk|]; simpl; [|done].
  assert (w'.(w_fs) = w.(w_fs) /\ w.(w_fs).(fs_dir) !! n = None) as [-> Hn].
  { revert Em. unfold remove_file, sys. destruct (w_events w) as [|[|busy ? ?|] ?]; simpl;
      try (destruct (fs_dir (w_fs w) !! n) as [i|] eqn:Ei; [destruct (is_directory (w_fs w) i)|]; simpl; intros; simplify_eq/=; done).
    intros; simplify_eq/=. by destruct busy. }
  destruct Hw as (Hd&Hn1&Hc&HR). split_and!; auto.
Qed.

Lemma spec_rename (R R' : Rel) (X : Fs -> Prop) s t :
  (forall fs, on_disks R fs -> X fs) ->
  (forall ino dir d i, dir !! s = Some i -> R ino dir dir -> R ino dir d ->
     R' ino (move i s t dir) d /\ R' ino (move i s t dir) (move i s t d)) ->
  (forall ino dir d i, dir !! s = Some i -> dir !! t = Some i -> R ino dir dir -> R ino dir d -> R' ino dir d) ->
  spec (on_disks R) (rename s t) (fun _ => on_disks R') X.
Proof.
  intros HX Hmove Hsame. apply spec_sys; [done|]. intros fs Hfs.
  destruct (fs_dir fs !! s) as [i|] eqn:Es; [|by apply HX].
  assert (Hi : is_Some (fs.(fs_inodes) !! i)) by (destruct Hfs as (?&_&Hc&_); by eapply Hc).
  assert (Hdo : on_disks R' (with_dirs (move i s t) fs)).
  { eapply on_disks_move; [done..|]. intros d ? ?. by apply Hmove. }
  destruct (fs_dir fs !! t) as [j|] eqn:Et; [|done].
  destruct (decide (i = j)) as [<-|]; [|by destruct (is_directory fs j); [apply HX|]].
  destruct Hfs as (Hd&Hn&Hc&HR). split_and!; auto. intros d Hd'. eapply Hsame; eauto.
Qed.

(** ** Markers *)

Lemma agree_irrelevant_insert n i (d : Entries) : ~ relevant n -> agree d (<[n := i]> d).
Proof. intros Hn k Hk. by rewrite lookup_insert_ne by (intros <-; done). Qed.

Lemma agree_move_part id i (d : Entries) : agree (<[MARKER_NAME := i]> d) (move i (part_name id) MARKER_NAME d).
Proof.
  intros k Hk. unfold move. destruct (decide (k = MARKER_NAME)) as [->|].
  - by rewrite !lookup_insert_eq.
  - rewrite !lookup_insert_ne, lookup_delete_ne by (try done; intros <-; by apply (part_irrelevant id)). done.
Qed.

Lemma agree_refl d : agree d d.
Proof. by intros k. Qed.

(** The handle of the partial marker, as far as it was written. *)
Definition Writing (R : Rel) (part : string) (i : nat) (data : string) (done : bool) : Rel := fun ino dir d =>
  R ino dir d /\ dir !! part = Some i /\
  exists node, ino !! i = Some node /\ node.(i_kind) = Regular data /\ node.(i_synced) = done.

Lemma writing_inodes R part i data done f data' done' fs :
  monotone R -> on_disks (Writing R part i data done) fs -> (done = false \/ data = data' /\ done' = true) ->
  (forall node, node.(i_kind) = Regular data -> (f node).(i_kind) = Regular data' /\ (f node).(i_synced) = done') ->
  on_disks (Writing R part i data' done') (with_inodes (alter f i) fs).
Proof.
  intros Hm Hfs Hd Hf. pose proof (on_disks_dir _ _ Hfs) as (Hdd&Hp&node&Hi&Hk&Hs).
  assert (HR : on_disks R (with_inodes (fun _ => alter f i fs.(fs_inodes)) fs)).
  { apply on_disks_inodes; [done|by eapply on_disks_impl; [|exact Hfs]; intros ??? []|..].
    - apply kept_alter. intros n Hn Hsn. assert (n = node) as -> by congruence. destruct (Hf node Hk) as [-> ->].
      destruct Hd as [->|[-> ->]]; [congruence|done].
    - intros j. destruct (decide (i = j)) as [->|]; [by rewrite lookup_alter_eq, Hi|by rewrite lookup_alter_ne]. }
  destruct HR as (?&?&?&HR). split_and!; [done..|]. intros d Hin. split; [by apply HR|]. split; [done|].
  exists (f node). simpl. rewrite lookup_alter_eq, Hi. by destruct (Hf node Hk).
Qed.

Lemma spec_write_all R part i data :
  monotone R ->
  spec (on_disks (Writing R part i "" false)) (write_all i data) (fun _ => on_disks (Writing R part i data false)) (on_disks R).
Proof.
  intros Hm w Hw. unfold write_all.
  assert (Hrun : forall data', on_disks (Writing R part i data' false) (with_inodes (alter (appended data') i) (w_fs w))).
  { intros data'. eapply writing_inodes; [done|exact Hw|by left|]. intros node Hk. unfold appended. simpl. by rewrite Hk. }
  assert (Hdrop : forall data' fs, on_disks (Writing R part i data' false) fs -> on_disks R fs).
  { intros data' fs. apply on_disks_impl. by intros ??? []. }
  destruct (w_events w) as [|[] events]; simpl; eauto.
Qed.

Lemma spec_sync_all R part i data :
  monotone R ->
  spec (on_disks (Writing R part i data false)) (sync_all i) (fun _ => on_disks (Writing R part i data true)) (on_disks R).
Proof.
  intros Hm. apply spec_sys.
  - intros fs. apply on_disks_impl. by intros ??? [].
  - intros fs Hfs. eapply writing_inodes; [done|exact Hfs|by left|]. by intros node Hk.
Qed.

Lemma spec_create_part R part mode :
  monotone R -> local R -> ~ relevant part ->
  spec (on_disks R) (create_new part mode) (fun i => on_disks (Writing R part i "" false)) (on_disks R).
Proof.
  intros Hm Hl Hp. apply spec_sys; [done|]. intros fs Hfs. destruct (fs_dir fs !! part); [done|].
  pose proof (on_disks_new R (new_file mode) fs Hm Hfs) as Hnew.
  eapply on_disks_insert; [exact Hnew|simpl; by rewrite lookup_insert_eq|].
  intros d Hdd Hd. simpl in *.
  split; (split; [eapply Hl; [..|exact Hd]; eauto using agree_irrelevant_insert, agree_refl|]);
    rewrite lookup_insert_eq; (split; [done|]); eexists; by rewrite lookup_insert_eq.
Qed.

Lemma spec_write_marker (R R' : Rel) (X : Fs -> Prop) m :
  monotone R -> local R -> local R' ->
  (forall ino dir d i text, encode_marker m = Ok text -> file_is ino i text -> R ino dir dir -> R ino dir d ->
     R' ino (<[MARKER_NAME := i]> dir) d /\ R' ino (<[MARKER_NAME := i]> dir) (<[MARKER_NAME := i]> d)) ->
  (forall fs, on_disks R fs -> X fs) -> (forall fs, on_disks R' fs -> X fs) ->
  spec (on_disks R) (write_marker m) (fun _ => on_disks (settled R')) X.
Proof.
  intros Hm Hl Hl' Hput HX HX'. unfold write_marker. set (part := part_name m.(mk_transaction_id)).
  assert (HXd : forall i data b fs, on_disks (Writing R part i data b) fs -> X fs).
  { intros i data b fs Hfs. apply HX. revert Hfs. apply on_disks_impl. by intros ??? []. }
  eapply spec_read; [apply reads_lift|done|]. intros text.
  eapply spec_pure; [by intros fs [_ Ht]|]. intros Ht. apply map_err_ok in Ht.
  eapply spec_bind.
  { eapply spec_conseq; [apply spec_io, spec_create_part; [exact Hm|exact Hl|apply part_irrelevant]|naive_solver|done|apply HX]. }
  intros i. simpl. eapply spec_bind.
  { apply spec_io. eapply spec_bind.
    - eapply spec_conseq; [apply spec_write_all, Hm|done|done|apply HX].
    - intros ?. eapply spec_conseq; [apply spec_sync_all, Hm|done|done|apply HX]. }
  intros ?. eapply spec_bind; [|intros u; by apply spec_sync_dir].
  apply spec_io. eapply spec_rename; [by apply HXd|..].
  - intros ino dir d j Hj (Hdd&Hp&_) (Hd&_&node&Hi&Hk&Hs). simplify_eq.
    destruct (Hput ino dir d j text Ht) as [H1 H2]; [by exists node|done..|].
    split; [eapply Hl'; [apply agree_move_part|apply agree_refl|exact H1]|eapply Hl'; [apply agree_move_part..|exact H2]].
  - intros ino dir d j Hj Hj' (Hdd&Hp&_) (Hd&_&node&Hi&Hk&Hs). simplify_eq.
    destruct (Hput ino dir d j text Ht) as [H1 _]; [by exists node|done..|].
    eapply Hl'; [..|exact H1]; [|apply agree_refl]. intros k Hk'. destruct (decide (k = MARKER_NAME)) as [->|].
    + by rewrite lookup_insert_eq.
    + by rewrite lookup_insert_ne.
Qed.

(** ** Changing one member *)

Lemma marker_inj ms e e' : marker_ok ms -> e ∈ ms -> e' ∈ ms -> e.(mm_member) = e'.(mm_member) -> e = e'.
Proof.
  intros [Hnd _] He He' Heq. apply list_elem_of_lookup in He as [j Hj], He' as [k Hk].
  assert (j = k) as ->; [|congruence].
  apply (NoDup_lookup (map mm_member ms) j k (mm_member e)); [done|..]; rewrite list_lookup_fmap, ?Hj, ?Hk; simpl; congruence.
Qed.

(** [f] touches no entry but this member's and its backup. *)
Definition touches (e : MarkerMember) (f : Entries -> Entries) : Prop :=
  forall d n, n <> canonical e -> n <> e.(backup) -> f d !! n = d !! n.

(** The marker processes see does not announce completion. *)
Definition unfinished (ino : Inodes) (dir : Entries) : Prop :=
  marks ino (dir !! MARKER_NAME) (fun m => m.(mk_phase) <> Finalizing).

Section Touch.
Context (ms : list MarkerMember) (Hok : marker_ok ms) (e : MarkerMember) (He : e ∈ ms) (f : Entries -> Entries) (Hf : touches e f).

Lemma backup_starts e' : e' ∈ ms -> starts_with (backup_prefix e'.(mm_member)) e'.(backup) = true.
Proof using Hok. apply Hok. Qed.

Lemma touch_marker d : f d !! MARKER_NAME = d !! MARKER_NAME.
Proof using Hok He Hf.
  apply Hf; intros Hn; [by eapply file_not_marker|]. symmetry in Hn. eapply backup_not_marker; [|exact Hn]. by apply backup_starts.
Qed.
Lemma touch_other d m : m <> e.(mm_member) -> f d !! file_name m = d !! file_name m.
Proof using Hok He Hf.
  intros Hm. apply Hf; intros Hn; [by apply file_name_inj in Hn|]. symmetry in Hn.
  eapply backup_not_file; [|exact Hn]. by apply backup_starts.
Qed.
Lemma touch_backup d e' : e' ∈ ms -> e'.(mm_member) <> e.(mm_member) -> f d !! e'.(backup) = d !! e'.(backup).
Proof using Hok He Hf.
  intros He' Hm. apply Hf; intros Hn.
  - eapply backup_not_file; [by apply backup_starts|exact Hn].
  - apply Hm. eapply backup_prefix_inj; [by apply backup_starts|]. rewrite Hn. by apply backup_starts.
Qed.
Lemma touch_others B ino d : others ms B ino d -> others ms B ino (f d).
Proof using Hok He Hf.
  intros Ho m Hm. rewrite touch_other; [auto|]. intros ->. apply Hm. by apply list_elem_of_fmap_2.
Qed.
Lemma touch_cases e' : e' ∈ ms -> e' = e \/ e'.(mm_member) <> e.(mm_member).
Proof using Hok He. intros He'. destruct (decide (mm_member e' = mm_member e)); [left; by eapply marker_inj|by right]. Qed.

Lemma active_touch B ino dir d :
  Active ms B ino dir d -> restorable ino e (f d) -> link_old ino e (f dir) d -> link_old ino e (f dir) (f d) ->
  (unfinished ino dir \/ (link_new ino e dir d -> link_new ino e (f dir) d /\ link_new ino e (f dir) (f d))) ->
  Active ms B ino (f dir) d /\ Active ms B ino (f dir) (f d).
Proof using Hok He Hf.
  intros (Hm&Ho&Hr&Hp) HR HL1 HL2 HN. unfold Active. rewrite !touch_marker.
  split; (split_and!; [done|by try apply touch_others|..]).
  - intros e' He'. destruct (Hr e' He') as [? Hl]. destruct (touch_cases e' He') as [->|Hne]; [done|]. split; [done|].
    unfold link_old, canonical in *. by rewrite touch_other, touch_backup.
  - destruct HN as [HN|HN]; [eapply marks_weaken; [|exact HN]; by intros|].
    eapply marks_weaken; [|exact Hp]. intros m Hf' Hph e' He'. specialize (Hf' Hph e' He').
    destruct (touch_cases e' He') as [->|Hne]; [by apply HN|]. unfold link_new, canonical in *. by rewrite touch_other, touch_backup.
  - intros e' He'. destruct (Hr e' He') as [? Hl]. destruct (touch_cases e' He') as [->|Hne]; [done|].
    unfold restorable, link_old, canonical in *. by rewrite !touch_other, !touch_backup.
  - destruct HN as [HN|HN]; [eapply marks_weaken; [|exact HN]; by intros|].
    eapply marks_weaken; [|exact Hp]. intros m Hf' Hph e' He'. specialize (Hf' Hph e' He').
    destruct (touch_cases e' He') as [->|Hne]; [by apply HN|]. unfold link_new, canonical in *. by rewrite !touch_other, !touch_backup.
Qed.
End Touch.

(** ** Steps on an active transaction *)

Lemma touches_move e i s t :
  (s = canonical e \/ s = e.(backup)) -> (t = canonical e \/ t = e.(backup)) -> touches e (move i s t).
Proof.
  intros Hs Ht d n Hc Hb. unfold move. rewrite lookup_insert_ne by naive_solver. by rewrite lookup_delete_ne by naive_solver.
Qed.
Lemma touches_insert e i t : (t = canonical e \/ t = e.(backup)) -> touches e (<[t := i]>).
Proof. intros Ht d n Hc Hb. by rewrite lookup_insert_ne by naive_solver. Qed.
Lemma touches_delete e t : (t = canonical e \/ t = e.(backup)) -> touches e (delete t).
Proof. intros Ht d n Hc Hb. by rewrite lookup_delete_ne by naive_solver. Qed.

Lemma backup_ne ms e : marker_ok ms -> e ∈ ms -> e.(backup) <> canonical e.
Proof. intros [_ H] He. eapply backup_not_file, H, He. Qed.

(** One of its two bytes, when a member had an old file. *)
Lemma restorable_canonical ino e d o :
  e.(old_digest) = Some o -> restorable ino e d ->
  digest_is ino (d !! canonical e) o \/ digest_is ino (d !! canonical e) e.(target_digest).
Proof. unfold restorable. intros ->. naive_solver. Qed.

Lemma active_restore ms B e o ino dir d i :
  marker_ok ms -> e ∈ ms -> e.(old_digest) = Some o -> dir !! e.(backup) = Some i ->
  Active ms B ino dir dir -> Active ms B ino dir d ->
  let f := move i e.(backup) (canonical e) in Active ms B ino (f dir) d /\ Active ms B ino (f dir) (f d).
Proof.
  intros Hok He Ho Hi Hdd Hd f.
  assert (Hne := backup_ne ms e Hok He).
  assert (Hfc : forall x, f x !! canonical e = Some i) by (intros; apply lookup_insert_eq).
  assert (Hfb : forall x, f x !! e.(backup) = None).
  { intros x. unfold f, move. rewrite lookup_insert_ne by done. apply lookup_delete_eq. }
  assert (Hold : digest_is ino (Some i) o).
  { destruct Hdd as (_&_&Hr&_). destruct (Hr e He) as [Hr' _]. unfold restorable in Hr'. rewrite Ho, Hi in Hr'. naive_solver. }
  apply (active_touch ms Hok e He f); [apply touches_move; auto|done|..].
  - unfold restorable. rewrite Ho, Hfc, Hfb. auto.
  - unfold link_old. rewrite Ho, Hfb. by intros [].
  - unfold link_old. rewrite Ho, Hfb. by intros [].
  - right. intros _. unfold link_new. rewrite !Hfb, !Hfc. split; (split; [|done]); [|done].
    intros Ht. assert (o = target_digest e) as Heq by (by eapply digest_is_unique).
    destruct Hd as (_&_&Hr&_). destruct (Hr e He) as [Hr' _]. apply (restorable_canonical _ _ _ o Ho) in Hr'.
    rewrite Heq in Hr'. naive_solver.
Qed.

Lemma active_remove_new ms B e ino dir d :
  marker_ok ms -> e ∈ ms -> e.(old_digest) = None -> Active ms B ino dir d ->
  let f := delete (canonical e) in Active ms B ino (f dir) d /\ Active ms B ino (f dir) (f d).
Proof.
  intros Hok He Ho Hd f. assert (Hne := backup_ne ms e Hok He).
  assert (Hfc : forall x : Entries, f x !! canonical e = None) by (intros; apply lookup_delete_eq).
  assert (Hfb : forall x : Entries, f x !! e.(backup) = x !! e.(backup)) by (intros x; unfold f; by rewrite lookup_delete_ne).
  assert (Hb : d !! e.(backup) = None).
  { destruct Hd as (_&_&Hr&_). destruct (Hr e He) as [Hr' _]. unfold restorable in Hr'. rewrite Ho in Hr'. by destruct Hr'. }
  apply (active_touch ms Hok e He f); [apply touches_delete; auto|done|..].
  - unfold restorable. rewrite Ho, Hfc, Hfb. auto.
  - unfold link_old. by rewrite Ho.
  - unfold link_old. by rewrite Ho.
  - right. intros [_ Hl]. unfold link_new. rewrite !Hfb, !Hfc. split; (split; [|done]); by intros (?&?&?&_).
Qed.

(** The old bytes are what is seen. *)
Definition seen_old (ms : list MarkerMember) (ino : Inodes) (dir : Entries) : Prop :=
  forall e, e ∈ ms -> is_at ino (dir !! canonical e) e.(old_digest).

Lemma active_drop_backup ms B e ino dir d :
  marker_ok ms -> e ∈ ms -> is_Some (dir !! e.(backup)) -> seen_old ms ino dir ->
  Active ms B ino dir dir -> Active ms B ino dir d ->
  let f := delete e.(backup) in Active ms B ino (f dir) d /\ Active ms B ino (f dir) (f d).
Proof.
  intros Hok He Hs Hseen Hdd Hd f. assert (Hne := backup_ne ms e Hok He).
  assert (Hfc : forall x : Entries, f x !! canonical e = x !! canonical e) by (intros x; unfold f; by rewrite lookup_delete_ne).
  assert (Hfb : forall x : Entries, f x !! e.(backup) = None) by (intros; apply lookup_delete_eq).
  destruct Hdd as (_&_&Hrd&_). destruct (Hrd e He) as [Hr0 _]. specialize (Hseen e He).
  destruct (old_digest e) as [o|] eqn:Ho; cycle 1.
  { unfold restorable in Hr0. rewrite Ho in Hr0. destruct Hr0 as [Hn _]. rewrite Hn in Hs. by destruct Hs. }
  assert (Hc : digest_is ino (d !! canonical e) o).
  { destruct Hd as (_&_&Hr&_). destruct (Hr e He) as [_ Hl]. unfold link_old in Hl. rewrite Ho in Hl. by apply Hl. }
  apply (active_touch ms Hok e He f); [apply touches_delete; auto|done|..].
  - unfold restorable. rewrite Ho, Hfc, Hfb. auto.
  - unfold link_old. rewrite Ho, Hfb. by intros [].
  - unfold link_old. rewrite Ho, Hfb. by intros [].
  - right. intros [Hl _]. unfold link_new. rewrite !Hfb, !Hfc. done.
Qed.

Lemma active_backup ms B e o ino dir d i :
  marker_ok ms -> e ∈ ms -> e.(old_digest) = Some o -> digest_is ino (Some i) o -> unfinished ino dir ->
  digest_is ino (d !! canonical e) o -> Active ms B ino dir d ->
  let f := <[e.(backup) := i]> in Active ms B ino (f dir) d /\ Active ms B ino (f dir) (f d).
Proof.
  intros Hok He Ho Hi Hu Hc Hd f. assert (Hne := backup_ne ms e Hok He).
  assert (Hfc : forall x : Entries, f x !! canonical e = x !! canonical e) by (intros x; unfold f; by rewrite lookup_insert_ne).
  assert (Hfb : forall x : Entries, f x !! e.(backup) = Some i) by (intros; apply lookup_insert_eq).
  apply (active_touch ms Hok e He f); [apply touches_insert; auto|done|..|by left].
  - unfold restorable. rewrite Ho, Hfc, Hfb. auto.
  - unfold link_old. by rewrite Ho.
  - unfold link_old. by rewrite Ho, !Hfc.
Qed.

Lemma active_install ms B e ino dir d i :
  marker_ok ms -> e ∈ ms -> digest_is ino (Some i) e.(target_digest) -> unfinished ino dir ->
  (forall o, e.(old_digest) = Some o -> digest_is ino (d !! e.(backup)) o) -> Active ms B ino dir d ->
  let f := <[canonical e := i]> in Active ms B ino (f dir) d /\ Active ms B ino (f dir) (f d).
Proof.
  intros Hok He Hi Hu Hb Hd f. assert (Hne := backup_ne ms e Hok He).
  assert (Hfc : forall x : Entries, f x !! canonical e = Some i) by (intros; apply lookup_insert_eq).
  assert (Hfb : forall x : Entries, f x !! e.(backup) = x !! e.(backup)) by (intros x; unfold f; by rewrite lookup_insert_ne).
  pose proof Hd as (_&_&Hr&_). destruct (Hr e He) as [Hr' _].
  apply (active_touch ms Hok e He f); [apply touches_insert; auto|done|..|by left].
  - unfold restorable in *. rewrite Hfc, Hfb. destruct (old_digest e); naive_solver.
  - unfold link_old. rewrite Hfc. destruct (old_digest e) as [o|] eqn:Ho; [|done]. intros _ Hio.
    assert (o = target_digest e) as Heq by (by eapply digest_is_unique).
    apply (restorable_canonical _ _ _ o Ho) in Hr'. rewrite Heq in *. naive_solver.
  - unfold link_old. rewrite !Hfc. by destruct (old_digest e).
Qed.

(** ** Replacing the marker *)

Lemma mark_file i (d : Entries) m : <[MARKER_NAME := i]> d !! file_name m = d !! file_name m.
Proof. rewrite lookup_insert_ne; [done|]. intros Hn. symmetry in Hn. by apply file_not_marker in Hn. Qed.
Lemma mark_backup i (d : Entries) ms e : marker_ok ms -> e ∈ ms -> <[MARKER_NAME := i]> d !! e.(backup) = d !! e.(backup).
Proof.
  intros [_ Hok] He. rewrite lookup_insert_ne; [done|]. intros Hn. symmetry in Hn. by eapply backup_not_marker; [apply Hok|].
Qed.

Lemma active_mark ms B ino dir d i text :
  marker_ok ms -> file_is ino i text ->
  (forall m, decode_marker text = Ok m ->
     m.(members) = ms /\ (m.(mk_phase) = Finalizing -> forall e, e ∈ ms -> link_new ino e dir d)) ->
  Active ms B ino dir d ->
  let f := <[MARKER_NAME := i]> in Active ms B ino (f dir) d /\ Active ms B ino (f dir) (f d).
Proof.
  intros Hok Hi Ht (Hm&Ho&He&Hp) f.
  assert (Hfm : forall x : Entries, f x !! MARKER_NAME = Some i) by (intros; apply lookup_insert_eq).
  assert (Hfc : forall (x : Entries) e, f x !! canonical e = x !! canonical e) by (intros; apply mark_file).
  assert (Hfb : forall (x : Entries) e, e ∈ ms -> f x !! e.(backup) = x !! e.(backup)) by (intros; by eapply mark_backup).
  assert (Hnew : marks ino (Some i) (fun m => m.(members) = ms)) by (exists i, text; naive_solver).
  unfold Active, others. rewrite !Hfm. split; (split_and!; [done| |..]).
  - done.
  - intros e Hin. destruct (He e Hin). split; [done|]. unfold link_old. by rewrite Hfc, Hfb.
  - exists i, text. split_and!; [done..|]. intros m Hdm Hph e Hin. destruct (Ht m Hdm) as [_ Hl].
    specialize (Hl Hph e Hin). unfold link_new in *. by rewrite Hfc, Hfb.
  - intros m Hin. unfold f. rewrite mark_file. auto.
  - intros e Hin. destruct (He e Hin). unfold restorable, link_old in *. by rewrite !Hfc, !Hfb.
  - exists i, text. split_and!; [done..|]. intros m Hdm Hph e Hin. destruct (Ht m Hdm) as [_ Hl].
    specialize (Hl Hph e Hin). unfold link_new in *. by rewrite !Hfc, !Hfb.
Qed.

(** ** A final transaction *)

Lemma final_drop_backup ms B e ino dir d :
  marker_ok ms -> e ∈ ms -> Final ms B ino dir d ->
  let f := delete e.(backup) in Final ms B ino (f dir) d /\ Final ms B ino (f dir) (f d).
Proof.
  intros Hok He (Hm&Ho&Hp) f. assert (Hne := backup_ne ms e Hok He). assert (Ht : touches e f) by (apply touches_delete; auto).
  assert (Hfc : forall x : Entries, f x !! canonical e = x !! canonical e) by (intros x; unfold f; by rewrite lookup_delete_ne).
  assert (Hfb : forall x : Entries, f x !! e.(backup) = None) by (intros; apply lookup_delete_eq).
  unfold Final. rewrite (touch_marker ms Hok e He f Ht). split; (split_and!; [done| |]).
  - done.
  - intros e' He'. destruct (Hp e' He') as [? Hl]. split; [done|].
    destruct (touch_cases ms Hok e He e' He') as [->|Hn]; [by rewrite Hfb|by rewrite (touch_backup ms Hok e He f Ht)].
  - by apply (touch_others ms Hok e He f Ht).
  - intros e' He'. destruct (Hp e' He') as [Hi Hl]. unfold in_place, canonical in *.
    destruct (touch_cases ms Hok e He e' He') as [->|Hn].
    + rewrite !Hfb. unfold canonical in Hfc. rewrite Hfc. naive_solver.
    + by rewrite !(touch_backup ms Hok e He f Ht), (touch_other ms Hok e He f Ht).
Qed.

(** Restore sources that were verified make a final transaction restorable. *)
Lemma final_active ms B ino dir d :
  (forall e o, e ∈ ms -> e.(old_digest) = Some o ->
     is_Some (dir !! e.(backup)) \/ digest_is ino (dir !! canonical e) o) ->
  Final ms B ino dir dir -> Final ms B ino dir d -> Active ms B ino dir d.
Proof.
  intros Hv (Hmd&_&Hdir) (Hm&Ho&He). split_and!; [done|done|..].
  - intros e Hin. destruct (He e Hin) as [[Hc Hb] Hl]. destruct (Hdir e Hin) as [[Hcd Hbd] _]. split.
    + unfold restorable. destruct (old_digest e) as [o|] eqn:Eo; [|naive_solver].
      split; [|naive_solver]. destruct (Hv e o Hin Eo) as [[i Hi]|Hold].
      * right. split; [|done]. destruct Hb as [Hb|(o'&?&?)]; [rewrite (Hl _ Hi) in Hb; done|naive_solver].
      * left. assert (o = target_digest e) as -> by (by eapply digest_is_unique). done.
    + unfold link_old. destruct (old_digest e) as [o|] eqn:Eo; [|done]. intros _ Hold.
      assert (o = target_digest e) as -> by (by eapply digest_is_unique). done.
  - eapply marks_weaken; [|exact Hmd]. intros m _ _ e Hin. destruct (He e Hin) as [[Hc Hb] Hl]. by split.
Qed.

(** A target that is seen, with its links, is in place everywhere. *)
Lemma active_final ms B ino dir d :
  (forall e, e ∈ ms -> digest_is ino (dir !! canonical e) e.(target_digest)) ->
  (forall e, e ∈ ms -> link_new ino e dir d) -> Active ms B ino dir d -> Final ms B ino dir d.
Proof.
  intros Hs Hl (Hm&Ho&He&_). split_and!; [done|done|]. intros e Hin. destruct (Hl e Hin) as [Hc Hb].
  split; [|done]. split; [auto|]. destruct (He e Hin) as [Hr _]. unfold restorable in Hr.
  destruct (old_digest e); naive_solver.
Qed.
End Steps.

(** * Markers are read as they were written

    [well_formed] is what the decoder accepts and the updater writes; a
    well-formed marker, encoded and decoded, is the same marker. *)


(** ** Maps with sorted keys *)

Fixpoint sorted_keys (keys : list string) : bool :=
  match keys with
  | [] => true
  | k :: rest => match rest with k' :: _ => String.ltb k k' | [] => true end && sorted_keys rest
  end.
Fixpoint map_like (v : Value) : bool :=
  match v with
  | Array values => forallb map_like values
  | Object fields => sorted_keys (map fst fields) && forallb (fun kv => map_like kv.2) fields
  | _ => true
  end.

(** How deep arrays and objects are nested, and what serde_json's parser reads
    before its recursion limit of 128 stops it. *)
Fixpoint nesting (v : Value) : nat :=
  match v with
  | Array values => S (max_list (map nesting values))
  | Object fields => S (max_list (map (fun kv => nesting kv.2) fields))
  | _ => 0
  end.
Definition MAX_NESTING : nat := 127.

(** What was serialized, with a newline behind it, parses to the same tree, if
    the tree is not nested too deep. *)
Class MarkerJsonLaws (json : MarkerJson) : Prop :=
  parse_text : forall v text, map_like v = true -> nesting v <= MAX_NESTING -> marker_text v = Ok text ->
    marker_parse (text ++ String LF "") = Ok v.

(** ** Well-formed markers *)

Definition exact_digest (h : string) : Prop := digest_field h = Ok h.

Record well_formed (m : Marker) : Prop := {
  wf_id : safe_transaction_id m.(mk_transaction_id) = true;
  wf_source : exact_digest m.(source_archive_digest);
  wf_members : map mm_member m.(members) ∈ (if m.(legacy) then [[Daemon; Cli]] else [BUNDLE_MEMBERS; ALL_BUNDLE_MEMBERS]);
  wf_old : if m.(legacy) then Forall (fun e => is_Some e.(old_digest)) m.(members) else coherent_old m.(members) = true;
  wf_digests : Forall (fun e => exact_digest e.(target_digest) /\ from_option exact_digest True e.(old_digest)) m.(members);
  wf_backups : Forall (fun e => safe_backup_name e.(backup) (backup_prefix e.(mm_member)) = true) m.(members)
}.

Lemma well_formed_phase m phase : well_formed m -> well_formed (with_phase phase m).
Proof. intros []. by split. Qed.

(** ** Digests *)

Definition all_ascii : list ascii := map ascii_of_nat (seq 0 256).

Lemma all_ascii_in c : c ∈ all_ascii.
Proof.
  unfold all_ascii. apply list_elem_of_fmap. exists (nat_of_ascii c). rewrite ascii_nat_embedding. split; [done|].
  apply elem_of_seq. pose proof (nat_ascii_bounded c). lia.
Qed.

Lemma lowercase_hex c : is_ascii_hexdigit c = true ->
  is_ascii_hexdigit (to_ascii_lowercase_byte c) = true /\
  to_ascii_lowercase_byte (to_ascii_lowercase_byte c) = to_ascii_lowercase_byte c.
Proof.
  assert (Hall : forallb (fun c => negb (is_ascii_hexdigit c) ||
    is_ascii_hexdigit (to_ascii_lowercase_byte c) &&
    Ascii.eqb (to_ascii_lowercase_byte (to_ascii_lowercase_byte c)) (to_ascii_lowercase_byte c)) all_ascii = true)
    by (vm_compute; reflexivity).
  rewrite forallb_forall in Hall. specialize (Hall c). rewrite <-list_elem_of_In in Hall. specialize (Hall (all_ascii_in c)).
  intros Hc. rewrite Hc in Hall. simpl in Hall. apply andb_true_iff in Hall as [? ?%Ascii.eqb_eq]. done.
Qed.

Lemma lowercase_string s : all_bytes is_ascii_hexdigit s = true ->
  let l := map_bytes to_ascii_lowercase_byte s in
  all_bytes is_ascii_hexdigit l = true /\ len l = len s /\ map_bytes to_ascii_lowercase_byte l = l.
Proof.
  unfold len. induction s as [|c s IH]; simpl; [done|]. intros [Hc Hs]%andb_true_iff.
  destruct (lowercase_hex c Hc) as [-> ->]. destruct (IH Hs) as (->&Hl&->). split_and!; [done|lia|done].
Qed.

Lemma digest_field_exact value h : digest_field value = Ok h -> exact_digest h.
Proof.
  unfold exact_digest, digest_field. destruct (_ && _) eqn:E; [|done]. apply andb_true_iff in E as [Hl Hs].
  intros [= <-]. destruct (lowercase_string value Hs) as (H1&H2&H3). by rewrite H1, H2, Hl, H3.
Qed.

(** ** Decoding what was encoded *)

Lemma phase_round_trip phase : phase_parse (phase_as_str phase) = Some phase.
Proof. by destruct phase. Qed.

Lemma wf_shape m : well_formed m ->
  (m.(legacy) = true /\ exists d c, m.(members) = [d; c] /\ d.(mm_member) = Daemon /\ c.(mm_member) = Cli) \/
  (m.(legacy) = false /\ exists d t c, m.(members) = [d; t; c] /\ d.(mm_member) = Daemon /\ t.(mm_member) = Tui /\ c.(mm_member) = Cli) \/
  (m.(legacy) = false /\ exists d t w c, m.(members) = [d; t; w; c] /\ d.(mm_member) = Daemon /\ t.(mm_member) = Tui /\
     w.(mm_member) = WaylandPortal /\ c.(mm_member) = Cli).
Proof.
  intros Hwf. pose proof (wf_members _ Hwf) as Hm. destruct (legacy m).
  - left. split; [done|]. apply list_elem_of_singleton in Hm. destruct (members m) as [|d [|c [|]]]; simplify_eq/=. naive_solver.
  - right. unfold BUNDLE_MEMBERS, ALL_BUNDLE_MEMBERS in Hm. rewrite elem_of_cons, list_elem_of_singleton in Hm. destruct Hm as [Hm|Hm]; [left|right]; (split; [done|]);
      destruct (members m) as [|d [|t [|c [|c' [|]]]]]; simplify_eq/=; naive_solver.
Qed.

Lemma marker_value_map_like m : well_formed m -> map_like (marker_value m) = true.
Proof.
  intros Hwf. destruct m as [l id ov tv src ms ph]. unfold marker_value.
  destruct (wf_shape _ Hwf) as [[Hl (d&c&Hm&Hd&Hc)]|[[Hl (d&t&c&Hm&Hd&Ht&Hc)]|[Hl (d&t&w&c&Hm&Hd&Ht&Hw&Hc)]]]; simpl in Hl, Hm; subst l ms;
    cbn [legacy members]; [unfold foldl, add_legacy|unfold member_value, map..];
    rewrite ?Hd, ?Ht, ?Hw, ?Hc; cbn;
    repeat match goal with |- context [json_opt ?o] => destruct o; cbn end; done.
Qed.

Lemma marker_value_shallow m : well_formed m -> nesting (marker_value m) <= MAX_NESTING.
Proof.
  intros Hwf. apply Nat.leb_le. destruct m as [l id ov tv src ms ph]. unfold marker_value.
  destruct (wf_shape _ Hwf) as [[Hl (d&c&Hm&Hd&Hc)]|[[Hl (d&t&c&Hm&Hd&Ht&Hc)]|[Hl (d&t&w&c&Hm&Hd&Ht&Hw&Hc)]]]; simpl in Hl, Hm; subst l ms;
    cbn [legacy members]; [unfold foldl, add_legacy|unfold member_value, map..];
    rewrite ?Hd, ?Ht, ?Hw, ?Hc; cbn;
    repeat match goal with |- context [json_opt ?o] => destruct o; cbn end; done.
Qed.

(** Evaluates the decoder on a tree whose keys are known. *)
#[local] Ltac eval_decoder :=
  lazy -[digest_field safe_transaction_id phase_parse phase_as_str safe_backup_name].
#[local] Ltac decode :=
  eval_decoder;
  repeat match goal with
  | H : digest_field ?h = Ok ?h |- context [digest_field ?h] => rewrite H; eval_decoder
  end.

#[local] Ltac finish :=
  match goal with
  | Hdg : Forall _ _, Hb : Forall (fun e => safe_backup_name _ _ = true) _, Hid : safe_transaction_id _ = true |- _ =>
      rewrite !Forall_cons in Hdg; rewrite !Forall_cons in Hb;
      cbn -[digest_field safe_backup_name] in Hdg, Hb; destruct_and!;
      decode; rewrite phase_round_trip, Hid; decode;
      repeat match goal with H : safe_backup_name _ _ = true |- _ => rewrite H; clear H end; by decode
  end.

Lemma decode_encoded m : well_formed m -> decode_value (marker_value m) = Ok m.
Proof.
  intros Hwf. destruct m as [l id ov tv src ms ph]. pose proof (wf_id _ Hwf) as Hid. pose proof (wf_source _ Hwf) as Hsrc.
  pose proof (wf_old _ Hwf) as Ho. pose proof (wf_digests _ Hwf) as Hdg. pose proof (wf_backups _ Hwf) as Hb.
  unfold marker_value, decode_value, exact_digest in *.
  destruct (wf_shape _ Hwf) as [[Hl (d&c&Hm&Hd&Hc)]|[[Hl (d&t&c&Hm&Hd&Ht&Hc)]|[Hl (d&t&w&c&Hm&Hd&Ht&Hw&Hc)]]];
    cbn [legacy members mk_transaction_id source_archive_digest] in *; subst l ms.
  - destruct d as [? [od|] td bd], c as [? [oc|] tc bc]; cbn in Hd, Hc; subst;
      rewrite !Forall_cons in Ho; cbn in Ho; destruct Ho as ([]&[]&_); simplify_eq.
    finish.
  - destruct d as [? od td bd], t as [? ot tt' bt], c as [? oc tc bc]; cbn in Hd, Ht, Hc; subst.
    destruct od as [od|], ot as [ot|], oc as [oc|]; try (vm_compute in Ho; discriminate); finish.
  - destruct d as [? od td bd], t as [? ot tt' bt], w as [? ow tw bw], c as [? oc tc bc]; cbn in Hd, Ht, Hw, Hc; subst.
    destruct od as [od|], ot as [ot|], oc as [oc|]; try (vm_compute in Ho; discriminate); destruct ow as [ow|]; finish.
Qed.

(** ** Whatever is decoded is well formed *)

Lemma collect_forall2 {A B E} (f : A -> result B E) l bs : collect f l = Ok bs -> Forall2 (fun a b => f a = Ok b) l bs.
Proof.
  revert bs. induction l as [|a l IH]; intros bs; simpl; [intros [= <-]; constructor|].
  intros H. res_invert. simplify_eq. constructor; auto.
Qed.

Definition digests_exact (e : MarkerMember) : Prop :=
  exact_digest e.(target_digest) /\ from_option exact_digest True e.(old_digest).

Lemma legacy_member_ok v m e :
  legacy_member v m = Ok e -> e.(mm_member) = m /\ is_Some e.(old_digest) /\ digests_exact e.
Proof.
  unfold legacy_member. intros H. res_invert. simplify_eq/=. split_and!; [done|by eexists|].
  split; simpl; by eapply digest_field_exact.
Qed.

Lemma listed_member_ok entries m e : listed_member entries m = Ok e -> e.(mm_member) = m /\ digests_exact e.
Proof.
  unfold listed_member. destruct (filterb _ _) as [|entry [|]]; try done. intros H. res_invert. simplify_eq/=.
  split; [done|]. split; simpl; [by eapply digest_field_exact|].
  repeat case_match; simplify_eq/=; try done. res_invert. simplify_eq/=. by eapply digest_field_exact.
Qed.

Lemma collected_members {A} (f : A -> result MarkerMember UpdateError) (g : A -> BundleMember) (P : MarkerMember -> Prop) l ms :
  (forall a e, f a = Ok e -> e.(mm_member) = g a /\ P e) -> collect f l = Ok ms -> map mm_member ms = map g l /\ Forall P ms.
Proof.
  intros Hf Hc%collect_forall2. induction Hc as [|a e l ms Ha _ [IH1 IH2]]; [done|].
  destruct (Hf a e Ha) as [He HP]. simpl. split; [by rewrite IH1, He|by constructor].
Qed.

Lemma listed_members_ok v ms :
  listed_members v = Ok ms -> map mm_member ms ∈ [BUNDLE_MEMBERS; ALL_BUNDLE_MEMBERS] /\ Forall digests_exact ms.
Proof.
  unfold listed_members. intros H. res_invert. simplify_eq.
  eapply (collected_members _ id) in Hstep1; [|by apply listed_member_ok].
  destruct Hstep1 as [-> ?]. split; [|done]. rewrite map_id. unfold ALL_BUNDLE_MEMBERS. simpl.
  destruct (existsb _ _); set_solver.
Qed.

Lemma decode_value_wf v m : decode_value v = Ok m -> well_formed m.
Proof.
  unfold decode_value. intros H. res_invert. simplify_eq. guards.
  assert (Hms : map mm_member v5 ∈ (if v0 then [[Daemon; Cli]] else [BUNDLE_MEMBERS; ALL_BUNDLE_MEMBERS]) /\
    Forall (fun e => (if v0 then is_Some e.(old_digest) else True) /\ digests_exact e) v5).
  { destruct v0.
    - destruct (collected_members (legacy_member v) id (fun e => is_Some e.(old_digest) /\ digests_exact e) _ _ (legacy_member_ok v) Hstep4) as [-> ?].
      split; [set_solver|done].
    - destruct (listed_members_ok _ _ Hstep4) as [? Hf]. split; [done|]. eapply Forall_impl; [exact Hf|]. done. }
  destruct Hms as [? Hf]. split; simpl; try done.
  - by eapply digest_field_exact.
  - destruct v0; [|naive_solver]. eapply Forall_impl; [exact Hf|]. naive_solver.
  - eapply Forall_impl; [exact Hf|]. unfold digests_exact. naive_solver.
  - apply Forall_forall. intros e He. rewrite forallb_forall in Hstep6. by apply Hstep6, list_elem_of_In.
Qed.

(** ** The round trip *)

Section RoundTrip.
Context {json : MarkerJson} {laws : MarkerJsonLaws json}.

Lemma decode_wf bytes m : decode_marker bytes = Ok m -> well_formed m.
Proof. unfold decode_marker. intros H. res_invert. by eapply decode_value_wf. Qed.

Lemma decode_of_encoding m bytes m' :
  well_formed m -> encode_marker m = Ok bytes -> decode_marker bytes = Ok m' -> m' = m.
Proof using laws.
  unfold encode_marker, decode_marker. intros Hwf He Hd. res_invert. simplify_eq.
  rewrite (parse_text _ _ (marker_value_map_like m Hwf) (marker_value_shallow m Hwf) Hstep1) in Hstep0. simplify_eq.
  rewrite decode_encoded in Hrest0; congruence.
Qed.
End RoundTrip.

(** ** Rollback and recovery

    What reading the directory tells, the rollback of a transaction from any
    state it may be found in, and the recovery of a pending marker: each of them
    keeps the invariant when it fails or dies, and ends in a quiet directory
    without marker when it succeeds. *)

Section Recover.
Context {sha256 : Sha256} {json : MarkerJson}.

(** ** What reading tells *)

(** Opening this entry finds bytes with this digest. *)
Definition opens (ino : Inodes) (o : option nat) (h : string) : Prop :=
  exists i node data, o = Some i /\ ino !! i = Some node /\ contents node.(i_kind) = Ok data /\ sha256_hex data = h.

Lemma opens_digest ino o h h' : opens ino o h -> digest_is ino o h' -> h = h'.
Proof.
  intros (i&node&data&->&Hi&Hc&<-) (j&data'&?&(n&Hn&_&Hk)&<-). simplify_eq. rewrite Hk in Hc. by simplify_eq/=.
Qed.

Lemma reads_sha256 sel n : reads (sha256_in sel n) (fun h fs => opens fs.(fs_inodes) (sel fs !! n) h).
Proof.
  unfold sha256_in. eapply reads_bind.
  { apply reads_io, (reads_sys _ (fun i fs => sel fs !! n = Some i)). intros fs. unfold find_in.
    destruct (sel fs !! n) as [i|] eqn:E; simpl; [|done]. destruct (fs_inodes fs !! i); simpl; [|done]. by repeat case_match; simplify_eq/=. }
  intros i. eapply reads_bind.
  { apply reads_io, (reads_sys _ (fun data fs => exists node, fs.(fs_inodes) !! i = Some node /\ contents node.(i_kind) = Ok data)).
    intros fs. destruct (fs_inodes fs !! i) as [node|] eqn:E; [|done]. split; [done|]. destruct (contents _) eqn:Ec; eauto. }
  intros data. apply reads_ret. intros fs (node&?&?) ?. by exists i, node, data.
Qed.

Lemma reads_holds n h : reads (holds n h) (fun b fs => b = true -> opens fs.(fs_inodes) (fs.(fs_dir) !! n) h).
Proof.
  unfold holds. eapply reads_bind; [apply reads_attempt, reads_sha256|]. intros [h'|e]; apply reads_ret; [|done].
  intros fs Ho Heq%String.eqb_eq. by subst.
Qed.

Definition nothing_at (fs : Fs) (n : string) : Prop := find_node fs n = None.

Lemma reads_metadata n :
  reads (attempt (symlink_metadata n))
    (fun r fs => match r with Ok _ => is_Some (fs.(fs_dir) !! n) | Err e => e.(io_kind) = NotFound -> nothing_at fs n end).
Proof.
  apply attempt_sys. intros fs. unfold nothing_at, find_node, find_in.
  destruct (fs_dir fs !! n); simpl; [|done]. destruct (fs_inodes fs !! _); simpl; [|done]. split; [done|by eexists].
Qed.

Lemma nothing_none R fs n : on_disks R fs -> nothing_at fs n -> fs.(fs_dir) !! n = None.
Proof.
  intros (Hd&_&Hc&_) Hn. unfold nothing_at, find_node, find_in in Hn. destruct (fs_dir fs !! n) as [i|] eqn:E; [|done].
  destruct (Hc _ _ _ Hd E) as [node Hnode]. simpl in Hn. by rewrite Hnode in Hn.
Qed.

Lemma reads_matches_target dir m :
  reads (matches_target (in_directory dir) m)
    (fun b fs => b = true -> forall e, e ∈ m.(members) -> opens fs.(fs_inodes) (fs.(fs_dir) !! canonical e) e.(target_digest)).
Proof. apply reads_all. intros e _. rewrite path_file. apply reads_holds. Qed.

Definition found_old (fs : Fs) (e : MarkerMember) : Prop :=
  match e.(old_digest) with
  | Some o => opens fs.(fs_inodes) (fs.(fs_dir) !! canonical e) o
  | None => nothing_at fs (canonical e)
  end.

Lemma reads_matches_old dir m :
  reads (matches_old (in_directory dir) m) (fun b fs => b = true -> forall e, e ∈ m.(members) -> found_old fs e).
Proof.
  apply (reads_all _ (fun e fs => found_old fs e)). intros e _. rewrite path_file. unfold found_old. destruct (old_digest e); [apply reads_holds|].
  eapply reads_bind; [apply reads_metadata|]. intros [md|err]; apply reads_ret; [done|].
  intros fs Hn Hk%bool_decide_eq_true. auto.
Qed.

(** A digest that was read is the digest that is there. *)
Lemma opens_is ino o h h' : opens ino o h -> digest_is ino o h' -> digest_is ino o h.
Proof. intros Ho Hd. by rewrite (opens_digest _ _ _ _ Ho Hd). Qed.

Lemma found_seen (R : Rel) ms fs :
  (forall ino dir d, R ino dir d -> forall e, e ∈ ms -> known ino e d) ->
  on_disks R fs -> (forall e, e ∈ ms -> found_old fs e) -> seen_old ms fs.(fs_inodes) fs.(fs_dir).
Proof.
  intros Hk Hfs Hf e He. specialize (Hf e He). unfold found_old in Hf. unfold is_at.
  destruct (old_digest e) as [o|]; [|by eapply nothing_none].
  destruct (Hk _ _ _ (on_disks_dir _ _ Hfs) e He) as [Hn|[h Hh]].
  - destruct Hf as (?&?&?&?&_). congruence.
  - by eapply opens_is.
Qed.

Lemma reads_still_old n h : reads (still_old n h) (fun b fs => b = true -> opens fs.(fs_inodes) (fs.(fs_dir) !! n) h).
Proof.
  unfold still_old. eapply reads_bind; [apply reads_io, reads_path_exists|]. intros [].
  - eapply reads_bind; [apply reads_sha256|]. intros h'. apply reads_ret. intros fs Ho _ Heq%String.eqb_eq. by subst.
  - by apply reads_ret.
Qed.

(** A verified restore source. *)
Definition source_ok (fs : Fs) (e : MarkerMember) : Prop :=
  forall o, e.(old_digest) = Some o ->
    is_Some (fs.(fs_dir) !! e.(backup)) \/ opens fs.(fs_inodes) (fs.(fs_dir) !! canonical e) o.

Lemma reads_true {A} (m : UpdM A) R : reads m R -> reads m (fun _ _ => True).
Proof. intros H. by eapply reads_conseq. Qed.

Lemma reads_verify_member dir e : reads (verify_member (in_directory dir) e) (fun _ fs => source_ok fs e).
Proof.
  unfold verify_member, source_ok. rewrite path_file. destruct (old_digest e) as [o|] eqn:Eo.
  - unfold verify_restore_source. eapply reads_bind; [apply reads_io, reads_path_exists|]. intros [].
    + eapply reads_conseq with (fun _ _ => True); [|naive_solver].
      eapply reads_bind; [apply reads_io, (reads_sys _ (fun _ _ => True)); intros fs; by destruct (find_node fs _) as [[]|]|]. intros md.
      eapply reads_bind; [apply reads_refuse|]. intros u.
      eapply reads_bind; [apply reads_sha256|]. intros h. apply reads_if; intros; [by apply reads_ret|apply reads_fail].
    + eapply reads_bind; [apply reads_still_old|]. intros []; [apply reads_ret; naive_solver|apply reads_fail].
  - apply (reads_conseq _ (fun _ _ => True)); [|done]. unfold verify_new_member_removable. rewrite path_file.
    eapply reads_bind; [apply reads_metadata|]. intros [md|err]; [apply reads_fail|].
    eapply reads_bind; [apply reads_metadata|]. intros [md|err'].
    + eapply reads_bind with (fun _ _ => True).
      { apply reads_if; intros; [|by apply reads_ret]. eapply reads_bind; [apply reads_sha256|]. intros h. by apply reads_ret. }
      intros []; [by apply reads_ret|apply reads_fail].
    + destruct (decide _); [by apply reads_ret|apply reads_fail].
Qed.

(** ** Cleaning up *)

Section Txn.
Context (H : Bundle -> Prop) (ms : list MarkerMember) (Hok : marker_ok ms).

(** Quiet, and no marker is seen. *)
Definition QuietN (B : Bundle) : Rel := fun ino dir d => Quiet H B ino dir d /\ dir !! MARKER_NAME = None.

Definition gone (ino : Inodes) (dir : Entries) : Prop := forall e, e ∈ ms -> dir !! e.(backup) = None.

(** Removing the backups of a relation that survives it. *)
Lemma spec_remove_backups (R : Rel) (X : Fs -> Prop) m :
  m.(members) = ms ->
  (forall fs, on_disks R fs -> X fs) ->
  (forall e ino dir d, e ∈ ms -> is_Some (dir !! e.(backup)) -> R ino dir dir -> R ino dir d ->
     R ino (delete e.(backup) dir) d /\ R ino (delete e.(backup) dir) (delete e.(backup) d)) ->
  spec (on_disks R) (remove_backups m) (fun _ => on_disks (settled (fun ino dir d => R ino dir d /\ gone ino dir))) X.
Proof using Hok.
  intros Hm HX Hdrop. unfold remove_backups. rewrite Hm.
  assert (Hstep : forall todo, (forall e, e ∈ todo -> e ∈ ms) -> forall before : list MarkerMember,
    spec (on_disks (fun ino dir d => R ino dir d /\ forall e, e ∈ before -> dir !! e.(backup) = None))
      (each (fun e => remove_if_exists e.(backup) "remove update recovery backup") todo)
      (fun _ => on_disks (fun ino dir d => R ino dir d /\ forall e, e ∈ before ++ todo -> dir !! e.(backup) = None)) X).
  { induction todo as [|e todo IH]; intros Hin before; simpl; [apply spec_ret; intros fs; by rewrite app_nil_r|].
    eapply spec_bind.
    - eapply (spec_remove_if_exists _ (fun ino dir d => R ino dir d /\ forall x, x ∈ before ++ [e] -> dir !! x.(backup) = None)).
      + intros fs Hfs. apply HX. revert Hfs. apply on_disks_impl. naive_solver.
      + intros ino dir d Hs [Hdd Hb] [Hd _]. destruct (Hdrop e ino dir d) as [H1 H2]; [set_solver|done..|].
        split; (split; [done|]); intros x; rewrite elem_of_app, list_elem_of_singleton; intros [Hx| ->];
          try apply lookup_delete_eq; apply lookup_delete_None; auto.
      + intros ino dir d Hn _ [Hd Hb]. split; [done|]. intros x. rewrite elem_of_app, list_elem_of_singleton. naive_solver.
    - intros u. eapply spec_conseq; [apply (IH ltac:(set_solver) (before ++ [e]))|done| |done].
      intros u' fs. by rewrite <-app_assoc. }
  eapply (spec_bind _ _ _ (fun _ => on_disks (fun ino dir d => R ino dir d /\ gone ino dir))).
  { eapply spec_conseq; [apply (Hstep ms ltac:(done) [])| |done|done].
    intros fs. apply on_disks_impl. set_solver. }
  intros u. apply spec_sync_dir. intros fs Hfs. apply HX. revert Hfs. apply on_disks_impl. naive_solver.
Qed.

(** The bundle [B], and a marker with nothing left to undo if there is one. *)
Definition Finished (B : Bundle) : Rel := fun ino dir d =>
  d = dir /\ (forall m, is_at ino (d !! file_name m) (B m)) /\
  (d !! MARKER_NAME = None \/ exists ms, marks ino (d !! MARKER_NAME) (fun m => m.(members) = ms) /\ dead H B d ms).

Lemma drop_marker B ino dir d :
  Finished B ino dir d ->
  QuietN B ino (delete MARKER_NAME dir) d /\ QuietN B ino (delete MARKER_NAME dir) (delete MARKER_NAME d).
Proof.
  intros (->&Hb&Hm).
  assert (Hfile : forall m, delete MARKER_NAME dir !! file_name m = dir !! file_name m).
  { intros m. apply lookup_delete_ne. intros Hn. symmetry in Hn. by apply file_not_marker in Hn. }
  unfold QuietN, Quiet. rewrite lookup_delete_eq. split; (split; [|done]); (split_and!; [..|by intros []]).
  - done.
  - done.
  - intros m. by rewrite Hfile.
  - by left.
Qed.

(** Both kinds of clean-up end in a quiet directory. *)
Lemma active_finished B BT ino dir d :
  takes H B BT ms -> d = dir -> seen_old ms ino dir -> gone ino dir -> Active ms B ino dir d -> Finished B ino dir d.
Proof using Hok.
  intros Ht -> Hs Hg (Hm&Ho&_&_). split_and!; [done|..].
  - intros m. destruct (decide (m ∈ map mm_member ms)) as [(e&->&He)%list_elem_of_fmap|Hn]; [|auto].
    rewrite <-(takes_old _ _ _ _ Ht e He). by apply Hs.
  - right. exists ms. split; [done|]. split; [done|]. left. split; [done|]. apply Ht.
Qed.

Lemma final_finished B BT ino dir d :
  takes H B BT ms -> d = dir -> gone ino dir -> Final ms B ino dir d -> Finished BT ino dir d.
Proof using Hok.
  intros Ht -> Hg (Hm&Ho&He). split_and!; [done|..].
  - intros m. destruct (decide (m ∈ map mm_member ms)) as [(e&->&Hin)%list_elem_of_fmap|Hn].
    + rewrite (takes_new _ _ _ _ Ht e Hin). by apply (He e Hin).
    + rewrite (takes_rest _ _ _ _ Ht m Hn). auto.
  - right. exists ms. split; [done|]. split; [done|]. right. by exists B.
Qed.

(** What is left to do once the backups are gone. *)
Lemma spec_finish (R : Rel) B op :
  H B -> (forall fs, on_disks R fs -> Inv H fs) -> (forall ino dir d, R ino dir d -> Finished B ino dir d) ->
  spec (on_disks R) (st_bind (remove_if_exists MARKER_NAME op) (fun _ => sync_dir)) (fun _ => on_disks (settled (QuietN B))) (Inv H).
Proof.
  intros HB HX HR. eapply (spec_bind _ _ _ (fun _ => on_disks (QuietN B))).
  - eapply spec_remove_if_exists; [done|..].
    + intros ino dir d _ _ Hd. by apply drop_marker, HR.
    + intros ino dir d Hn _ Hd. destruct (HR _ _ _ Hd) as (->&Hb&Hm). split; [|done]. split_and!; [done|done|]. rewrite Hn. by intros [].
  - intros u. apply spec_sync_dir. intros fs Hfs. apply (InvQuiet H fs B HB). revert Hfs. apply on_disks_impl. by intros ??? [].
Qed.

Lemma spec_clean_old B BT m op :
  takes H B BT ms -> m.(members) = ms ->
  spec (on_disks (fun ino dir d => Active ms B ino dir d /\ seen_old ms ino dir))
    (st_bind (remove_backups m) (fun _ => st_bind (remove_if_exists MARKER_NAME op) (fun _ => sync_dir)))
    (fun _ => on_disks (settled (QuietN B))) (Inv H).
Proof using Hok.
  intros Ht Hm. assert (HI : forall fs, on_disks (fun ino dir d => Active ms B ino dir d /\ seen_old ms ino dir) fs -> Inv H fs).
  { intros fs Hfs. apply (InvActive H fs B BT ms Ht). revert Hfs. apply on_disks_impl. naive_solver. }
  eapply spec_bind.
  { eapply (spec_remove_backups _ _ _ Hm HI). intros e ino dir d He Hs [Hdd Hseen] [Hd _].
    destruct (active_drop_backup ms B e ino dir d Hok He Hs Hseen Hdd Hd) as [H1 H2].
    assert (seen_old ms ino (delete (backup e) dir)).
    { intros x Hx. rewrite lookup_delete_ne; [by apply Hseen|]. eapply backup_not_file, Hok, He. }
    auto. }
  intros u. eapply spec_finish; [apply Ht|..].
  - intros fs Hfs. apply HI. revert Hfs. apply on_disks_impl. intros ino dir d [[? ?] _]. done.
  - intros ino dir d [[[Ha Hs] Hg] ->]. by eapply active_finished.
Qed.

Lemma spec_clean_new B BT m op :
  takes H B BT ms -> m.(members) = ms ->
  spec (on_disks (Final ms B))
    (st_bind (remove_backups m) (fun _ => st_bind (remove_if_exists MARKER_NAME op) (fun _ => sync_dir)))
    (fun _ => on_disks (settled (QuietN BT))) (Inv H).
Proof using Hok.
  intros Ht Hm. assert (HI : forall fs, on_disks (Final ms B) fs -> Inv H fs) by (intros fs; by apply (InvFinal H fs B BT ms)).
  eapply spec_bind.
  { eapply (spec_remove_backups _ _ _ Hm HI). intros e ino dir d He _ _ Hd. by apply final_drop_backup. }
  intros u. eapply spec_finish; [apply Ht|..].
  - intros fs Hfs. apply HI. revert Hfs. apply on_disks_impl. by intros ino dir d [[? _] _].
  - intros ino dir d [[Hf Hg] ->]. by eapply final_finished.
Qed.

(** ** Rolling back *)

(** A marker is seen, and the directory is already what it would restore. *)
Definition QuietM (B : Bundle) : Rel := fun ino dir d =>
  Quiet H B ino dir d /\ marks ino (dir !! MARKER_NAME) (fun m => m.(members) = ms) /\
  forall e, e ∈ ms -> e.(old_digest) = B e.(mm_member) /\ d !! e.(backup) = None.

Lemma quietM_clean B m op :
  H B -> m.(members) = ms ->
  spec (on_disks (QuietM B))
    (st_bind (remove_backups m) (fun _ => st_bind (remove_if_exists MARKER_NAME op) (fun _ => sync_dir)))
    (fun _ => on_disks (settled (QuietN B))) (Inv H).
Proof using Hok.
  intros HB Hm. assert (HI : forall fs, on_disks (QuietM B) fs -> Inv H fs).
  { intros fs Hfs. apply (InvQuiet H fs B HB). revert Hfs. apply on_disks_impl. by intros ??? []. }
  eapply spec_bind.
  { eapply (spec_remove_backups _ _ _ Hm HI). intros e ino dir d He Hs (_&_&Hdd) _.
    destruct (Hdd e He) as [_ Hn]. rewrite Hn in Hs. by destruct Hs. }
  intros u. eapply spec_finish; [done|..].
  - intros fs Hfs. apply HI. revert Hfs. apply on_disks_impl. by intros ino dir d [[? _] _].
  - intros ino dir d [[(Hq&Hm'&He) Hg] ->]. destruct Hq as (?&?&_). by split_and!.
Qed.

Section Rollback.
Context (dir0 : string) (R : Rel) (B : Bundle) (m : Marker).
Context (HX : forall fs, on_disks R fs -> Inv H fs).
Context (Hm : m.(members) = ms).
Context (Hwrite : spec (on_disks R) (write_marker (with_phase RollingBack m)) (fun _ => on_disks (settled R)) (on_disks R)).
Context (Hrestore : forall e, e ∈ ms ->
  spec (on_disks R) (restore_member (in_directory dir0) e) (fun _ => on_disks R) (on_disks R)).
Context (Hknown : forall ino dir d, R ino dir d -> forall e, e ∈ ms -> known ino e d).
Context (Hclean : forall op, spec (on_disks (fun ino dir d => R ino dir d /\ seen_old ms ino dir))
    (st_bind (remove_backups m) (fun _ => st_bind (remove_if_exists MARKER_NAME op) (fun _ => sync_dir)))
    (fun _ => on_disks (settled (QuietN B))) (Inv H)).

Lemma spec_rollback (P : Fs -> Prop) :
  (forall fs, P fs -> Inv H fs) ->
  (forall fs, P fs -> (forall e, e ∈ ms -> source_ok fs e) -> on_disks R fs) ->
  spec P (rollback_marker (in_directory dir0) m) (fun _ => on_disks (settled (QuietN B))) (Inv H).
Proof using Hok HX Hm Hwrite Hrestore Hknown Hclean.
  intros HP HPR. unfold rollback_marker. rewrite Hm.
  eapply spec_read; [apply (reads_each _ (fun e fs => source_ok fs e)); intros; apply reads_verify_member|done|]. intros u0.
  eapply (spec_bind _ _ _ (fun _ => on_disks R)).
  { eapply spec_conseq; [apply spec_attempt, Hwrite|..].
    - intros fs [? ?]. auto.
    - intros [] fs; [|done]. apply on_disks_impl. by intros ??? [].
    - done. }
  intros r. eapply spec_bind; [eapply spec_conseq; [apply spec_each, Hrestore|done|done|done]|]. intros u1. simpl.
  eapply (spec_bind _ _ _ (fun _ => on_disks R)).
  { eapply spec_conseq; [apply (spec_sync_dir R (Inv H) HX)|done| |done]. intros ? fs. apply on_disks_impl. by intros ??? []. }
  intros u2. eapply spec_read; [apply reads_matches_old|done|]. intros old.
  eapply spec_read; [apply reads_refuse|naive_solver|]. intros u3. rewrite Hm.
  eapply spec_conseq; [apply Hclean| |done|done].
  intros fs [[Hfs Hf] Hold%negb_false_iff].
  assert (Hseen : seen_old ms fs.(fs_inodes) fs.(fs_dir)) by (eapply found_seen; eauto).
  destruct Hfs as (?&?&?&?). split_and!; auto.
Qed.
End Rollback.

Lemma spec_restore_one (R : Rel) dir0 e o :
  (forall ino dir d i, dir !! e.(backup) = Some i -> R ino dir dir -> R ino dir d ->
     let f := move i e.(backup) (canonical e) in R ino (f dir) d /\ R ino (f dir) (f d)) ->
  spec (on_disks R) (restore_one (in_directory dir0) (canonical e) e.(backup) o) (fun _ => on_disks R) (on_disks R).
Proof.
  intros Hmove. unfold restore_one. eapply spec_read; [apply reads_io, reads_path_exists|done|]. intros [].
  - eapply spec_read; [apply reads_sha256|naive_solver|]. intros h.
    eapply spec_read; [apply reads_refuse|naive_solver|]. intros u. apply spec_io.
    eapply spec_conseq; [apply (spec_rename R R (on_disks R))|naive_solver|done|done]; [done|exact Hmove|done].
  - eapply spec_read; [apply reads_still_old|naive_solver|]. intros [].
    + apply spec_ret. naive_solver.
    + intros w [[Hw _] _]. done.
Qed.

Lemma active_restore_member B dir0 e :
  e ∈ ms ->
  spec (on_disks (Active ms B)) (restore_member (in_directory dir0) e) (fun _ => on_disks (Active ms B)) (on_disks (Active ms B)).
Proof using Hok.
  intros He. unfold restore_member. rewrite path_file. destruct (old_digest e) as [o|] eqn:Eo.
  - apply spec_restore_one. intros ino dir d i Hi ? ?. by eapply active_restore.
  - eapply spec_remove_if_exists; [done| |done]. intros ino dir d _ _ Hd. by apply active_remove_new.
Qed.

Lemma quietM_restore_member B dir0 e :
  e ∈ ms ->
  spec (on_disks (QuietM B)) (restore_member (in_directory dir0) e) (fun _ => on_disks (QuietM B)) (on_disks (QuietM B)).
Proof using Hok.
  intros He. unfold restore_member. rewrite path_file. destruct (old_digest e) as [o|] eqn:Eo.
  - apply spec_restore_one. intros ino dir d i Hi (_&_&Hdd) _. destruct (Hdd e He) as [_ Hn]. congruence.
  - eapply spec_remove_if_exists; [done| |done]. intros ino dir d Hs ((Hb&_&_)&_&Hdd) _.
    destruct (Hdd e He) as [Hold _]. specialize (Hb (mm_member e)). rewrite <-Hold, Eo in Hb. simpl in Hb.
    unfold canonical in Hs. rewrite Hb in Hs. by destruct Hs.
Qed.

Context {laws : MarkerJsonLaws json}.

Lemma active_write_marker B m :
  well_formed m -> m.(members) = ms -> m.(mk_phase) <> Finalizing ->
  spec (on_disks (Active ms B)) (write_marker m) (fun _ => on_disks (settled (Active ms B))) (on_disks (Active ms B)).
Proof using Hok laws.
  intros Hwf Hm Hph. apply spec_write_marker; [apply active_monotone|by apply active_local..| |done|done].
  intros ino dir d i text Henc Hi _ Hd. eapply active_mark; [done|exact Hi| |done].
  intros m' Hd'. rewrite (decode_of_encoding _ _ _ Hwf Henc Hd'). by split.
Qed.

Lemma quietM_monotone B : monotone (QuietM B).
Proof.
  intros ino ino' dir d Hk (Hq&_) (Hqd&Hm&He). split_and!; [by eapply quiet_monotone|by eapply marks_kept|done].
Qed.
Lemma quietM_local B : local (QuietM B).
Proof using Hok.
  intros ino dir dir' d d' Hdir Hd (Hq&Hm&He). split_and!.
  - by eapply quiet_local.
  - by rewrite (agree_marker _ _ Hdir).
  - intros e Hin. destruct (He e Hin). by rewrite (agree_backup d d' ms).
Qed.

(** A new marker over a directory that is what it would restore. *)
Lemma quiet_mark B ino dir d i text :
  H B -> file_is ino i text -> (forall m, decode_marker text = Ok m -> m.(members) = ms) ->
  (forall e, e ∈ ms -> e.(old_digest) = B e.(mm_member) /\ d !! e.(backup) = None) -> Quiet H B ino dir d ->
  let f := <[MARKER_NAME := i]> in QuietM B ino (f dir) d /\ QuietM B ino (f dir) (f d).
Proof using Hok.
  intros HB Hi Ht He (Hb&Hm&_) f.
  assert (Hfm : forall x : Entries, f x !! MARKER_NAME = Some i) by (intros; apply lookup_insert_eq).
  assert (Hfb : forall (x : Entries) e, e ∈ ms -> f x !! e.(backup) = x !! e.(backup)) by (intros; by eapply mark_backup).
  assert (Hnew : marks ino (Some i) (fun m => m.(members) = ms)) by (exists i, text; naive_solver).
  assert (He' : forall e, e ∈ ms -> e.(old_digest) = B e.(mm_member) /\ f d !! e.(backup) = None).
  { intros e Hin. rewrite Hfb by done. auto. }
  unfold QuietM, Quiet. rewrite !Hfm. split; (split_and!; [..|done|done]).
  - done.
  - done.
  - intros _. by exists ms.
  - intros m. unfold f. by rewrite mark_file.
  - right. exists ms. split; [done|]. split; [by apply He'|]. left. split; [done|]. intros e Hin. by apply He'.
  - intros _. by exists ms.
Qed.

Lemma quietM_write_marker B m :
  H B -> well_formed m -> m.(members) = ms ->
  spec (on_disks (QuietM B)) (write_marker m) (fun _ => on_disks (settled (QuietM B))) (on_disks (QuietM B)).
Proof using Hok laws.
  intros HB Hwf Hm. apply spec_write_marker; [apply quietM_monotone|apply quietM_local..| |done|done].
  intros ino dir d i text Henc Hi _ (Hq&_&He). eapply quiet_mark; [done|exact Hi| |done|done].
  intros m' Hd'. by rewrite (decode_of_encoding _ _ _ Hwf Henc Hd').
Qed.

Lemma active_known B ino dir d : Active ms B ino dir d -> forall e, e ∈ ms -> known ino e d.
Proof. intros (_&_&He&_) e Hin. by eapply restorable_known, He. Qed.
Lemma quietM_known B ino dir d : QuietM B ino dir d -> forall e, e ∈ ms -> known ino e d.
Proof.
  intros ((Hb&_)&_) e Hin. specialize (Hb (mm_member e)). unfold known, canonical. destruct (B (mm_member e)); [right; eauto|by left].
Qed.

(** Rolling back, from each state a marker may be found in. *)
Lemma active_rollback dir0 B BT m :
  takes H B BT ms -> well_formed m -> m.(members) = ms ->
  spec (on_disks (Active ms B)) (rollback_marker (in_directory dir0) m) (fun _ => on_disks (settled (QuietN B))) (Inv H).
Proof using Hok laws.
  intros Ht Hwf Hm. assert (HI : forall fs, on_disks (Active ms B) fs -> Inv H fs) by (intros fs; by apply (InvActive H fs B BT ms)).
  apply (spec_rollback dir0 (Active ms B)); try done.
  - by apply active_write_marker; [apply well_formed_phase|..].
  - intros e. apply active_restore_member.
  - apply active_known.
  - intros op. by eapply spec_clean_old.
Qed.

Lemma quietM_rollback dir0 B m :
  H B -> well_formed m -> m.(members) = ms ->
  spec (on_disks (QuietM B)) (rollback_marker (in_directory dir0) m) (fun _ => on_disks (settled (QuietN B))) (Inv H).
Proof using Hok laws.
  intros HB Hwf Hm. assert (HI : forall fs, on_disks (QuietM B) fs -> Inv H fs).
  { intros fs Hfs. apply (InvQuiet H fs B HB). revert Hfs. apply on_disks_impl. by intros ??? []. }
  apply (spec_rollback dir0 (QuietM B)); try done.
  - by apply quietM_write_marker; [|apply well_formed_phase|].
  - intros e. apply quietM_restore_member.
  - apply quietM_known.
  - intros op. eapply spec_conseq; [by apply (quietM_clean B m op)| |done|done]. intros fs. apply on_disks_impl. by intros ??? [].
Qed.

(** Only verified sources take a final transaction back. *)
Lemma final_rollback dir0 B BT m :
  takes H B BT ms -> well_formed m -> m.(members) = ms ->
  spec (on_disks (Final ms B)) (rollback_marker (in_directory dir0) m) (fun _ => on_disks (settled (QuietN B))) (Inv H).
Proof using Hok laws.
  intros Ht Hwf Hm. assert (HI : forall fs, on_disks (Active ms B) fs -> Inv H fs) by (intros fs; by apply (InvActive H fs B BT ms)).
  apply (spec_rollback dir0 (Active ms B)); try done.
  - by apply active_write_marker; [apply well_formed_phase|..].
  - intros e. apply active_restore_member.
  - apply active_known.
  - intros op. by eapply spec_clean_old.
  - intros fs. by apply (InvFinal H fs B BT ms).
  - intros fs Hfs Hs. pose proof (on_disks_dir _ _ Hfs) as Hdd.
    assert (Hv : forall e o, e ∈ ms -> e.(old_digest) = Some o ->
      is_Some (fs.(fs_dir) !! e.(backup)) \/ digest_is fs.(fs_inodes) (fs.(fs_dir) !! canonical e) o).
    { intros e o He Ho. destruct (Hs e He o Ho) as [|Hop]; [by left|]. right.
      destruct Hdd as (_&_&Hp). destruct (Hp e He) as [[Hc _] _]. by eapply opens_is. }
    destruct Hfs as (?&?&?&HF). split_and!; [done..|]. intros d Hd. eapply final_active; eauto.
Qed.
End Txn.

(** ** Recovery *)

(** What reading the marker tells. *)
Definition marker_read (fs : Fs) (m : Marker) : Prop :=
  exists i node data, fs.(fs_dir) !! MARKER_NAME = Some i /\ fs.(fs_inodes) !! i = Some node /\
    node.(i_kind) = Regular data /\ decode_marker data = Ok m.

Lemma reads_read_marker :
  reads read_marker (fun r fs => match r with Some m => marker_read fs m | None => nothing_at fs MARKER_NAME end).
Proof.
  unfold read_marker. eapply reads_bind.
  { apply (attempt_sys _ (fun md fs => exists i node, find_node fs MARKER_NAME = Some (i, node) /\ md = metadata_of fs i node)
             (fun fs => nothing_at fs MARKER_NAME)).
    intros fs. unfold nothing_at. destruct (find_node fs MARKER_NAME) as [[i node]|]; eauto. }
  intros [md|e]; cycle 1.
  { destruct (decide _) as [Hk|]; [apply reads_ret; auto|apply reads_fail]. }
  eapply reads_bind; [apply reads_refuse|]. intros u. eapply reads_bind.
  { apply (attempt_sys _ (fun data fs => exists i node, find_node fs MARKER_NAME = Some (i, node) /\ contents node.(i_kind) = Ok data)
      (fun fs => forall i node, find_node fs MARKER_NAME = Some (i, node) -> node.(i_kind) = Symlink None)).
    intros fs. destruct (find_node fs MARKER_NAME) as [[i node]|] eqn:E; [|naive_solver]. split; [done|].
    destruct (i_kind node) as [|[]|] eqn:Ek; simpl; [exists i, node; by rewrite Ek..| |done]. intros _ j n [= <- <-]. done. }
  intros [data|e].
  - eapply reads_bind; [apply reads_lift|]. intros m. apply reads_ret.
    intros fs Hm%map_err_ok (i&node&Hf&Hc) Hg (i'&node'&Hf'&->). assert (node' = node) as -> by congruence.
    unfold find_node, find_in in Hf. destruct (fs_dir fs !! MARKER_NAME) as [j|] eqn:Ej; [|done]. simpl in Hf.
    destruct (fs_inodes fs !! j) as [node0|] eqn:En; [|done]. simpl in Hf. simplify_eq. exists i, node, data. split_and!; [done..| |done].
    unfold is_symlink, is_file, metadata_of in Hg. simpl in Hg. destruct (i_kind node) as [|[]|]; simplify_eq/=; done.
  - destruct (decide _) as [Hk|]; [|apply reads_fail]. apply reads_ret.
    intros fs Hn Hg (i&node&Hf&->). specialize (Hn Hk i node Hf). unfold is_symlink in Hg. simpl in Hg. by rewrite Hn in Hg.
Qed.

Lemma marks_read fs P m : marks fs.(fs_inodes) (fs.(fs_dir) !! MARKER_NAME) P -> marker_read fs m -> P m.
Proof.
  intros (i&text&Hi&(n&Hn&_&Hk)&HP) (j&node&data&Hj&Hnode&Hkind&Hd). apply HP. congruence.
Qed.

Context {laws : MarkerJsonLaws json}.

(** The three states a marker is found in. *)
Definition found_state (H : Bundle -> Prop) (m : Marker) (fs : Fs) : Prop :=
  (exists B, H B /\ marker_ok m.(members) /\ on_disks (QuietM H m.(members) B) fs) \/
  exists B BT, takes H B BT m.(members) /\ (on_disks (Active m.(members) B) fs \/ on_disks (Final m.(members) B) fs).

Lemma inv_found H m fs : Inv H fs -> marker_read fs m -> found_state H m fs.
Proof.
  intros [B HB Hq|B BT ms Ht Ha|B BT ms Ht Hf] Hr.
  - left. exists B. split; [done|].
    assert (Hs : is_Some (fs.(fs_dir) !! MARKER_NAME)) by (destruct Hr as (?&?&?&?&_); eauto).
    assert (Hall : forall d, d ∈ fs.(fs_disks) -> QuietM H m.(members) B fs.(fs_inodes) fs.(fs_dir) d /\ marker_ok m.(members)).
    { intros d Hd. destruct Hq as (_&_&_&HR). destruct (HR d Hd) as (Hb&Hm&Hv). destruct (Hv Hs) as (ms&Hok&Hmk&He).
      assert (m.(members) = ms) as -> by (by apply (marks_read fs (fun m => m.(members) = ms))). by split_and!. }
    destruct Hq as (Hd&?&?&HR). split; [by apply (Hall (fs_dir fs))|]. split_and!; [done..|]. intros d ?. by apply Hall.
  - right. exists B, BT. assert (m.(members) = ms) as ->; [|auto].
    pose proof (on_disks_dir _ _ Ha) as (Hm&_). by apply (marks_read fs (fun m => m.(members) = ms)).
  - right. exists B, BT. assert (m.(members) = ms) as ->; [|auto].
    pose proof (on_disks_dir _ _ Hf) as (Hm&_). by apply (marks_read fs (fun m => m.(members) = ms)).
Qed.

Definition Recovered (H : Bundle -> Prop) (fs : Fs) : Prop := exists B, H B /\ on_disks (QuietN H B) fs.

Lemma recovered_inv H fs : Recovered H fs -> Inv H fs.
Proof. intros (B&HB&Hq). apply (InvQuiet H fs B HB). revert Hq. apply on_disks_impl. by intros ??? []. Qed.

Lemma settled_recovered H B fs : H B -> on_disks (settled (QuietN H B)) fs -> Recovered H fs.
Proof. intros HB Hq. exists B. split; [done|]. revert Hq. apply on_disks_impl. by intros ??? []. Qed.

(** Cleaning up after the tests of [recover_pending]. *)
Lemma found_clean H m op fs0 :
  found_state H m fs0 -> marker_read fs0 m ->
  ((m.(mk_phase) = Finalizing /\ forall e, e ∈ m.(members) -> opens fs0.(fs_inodes) (fs0.(fs_dir) !! canonical e) e.(target_digest)) \/
   forall e, e ∈ m.(members) -> found_old fs0 e) ->
  spec (fun fs => fs = fs0)
    (st_bind (remove_backups m) (fun _ => st_bind (remove_if_exists MARKER_NAME op) (fun _ => sync_dir)))
    (fun _ => Recovered H) (Inv H).
Proof using laws.
  intros [(B&HB&Hok&Hq)|(B&BT&Ht&[Ha|Hf])] Hr Hcase.
  - eapply spec_conseq; [apply (quietM_clean H _ Hok B m op HB eq_refl)|by intros ? ->|intros u fs Hs; by eapply settled_recovered|done].
  - assert (Hok := takes_ok _ _ _ _ Ht). destruct Hcase as [[Hph Htg]|Hold].
    + eapply spec_conseq; [apply (spec_clean_new H _ Hok B BT m op Ht eq_refl)| |intros u fs Hs; eapply settled_recovered; [|exact Hs]; apply Ht|done].
      intros ? ->. destruct Ha as (?&?&?&HA). split_and!; [done..|]. intros d Hd. apply active_final; [..|auto].
      * intros e He. destruct (HA (fs_dir fs0)) as (_&_&Hres&_); [done|]. destruct (Hres e He) as [Hre _].
        destruct (restorable_known _ _ _ Hre) as [Hn|[h Hh]]; [|by eapply opens_is; eauto].
        destruct (Htg e He) as (?&?&?&Hx&_). congruence.
      * destruct (HA d Hd) as (_&_&_&Hmk). exact (marks_read fs0 _ m Hmk Hr Hph).
    + eapply spec_conseq; [apply (spec_clean_old H _ Hok B BT m op Ht eq_refl)| |intros u fs Hs; eapply settled_recovered; [|exact Hs]; apply Ht|done].
      intros ? ->. assert (Hseen := found_seen _ _ _ (active_known _ _) Ha Hold).
      destruct Ha as (?&?&?&HA). split_and!; auto.
  - assert (Hok := takes_ok _ _ _ _ Ht).
    eapply spec_conseq; [apply (spec_clean_new H _ Hok B BT m op Ht eq_refl)|by intros ? ->|intros u fs Hs; eapply settled_recovered; [|exact Hs]; apply Ht|done].
Qed.

Lemma found_rollback H dir0 m fs0 :
  found_state H m fs0 -> well_formed m ->
  spec (fun fs => fs = fs0) (rollback_marker (in_directory dir0) m) (fun _ => Recovered H) (Inv H).
Proof using laws.
  intros [(B&HB&Hok&Hq)|(B&BT&Ht&[Ha|Hf])] Hwf.
  - eapply spec_conseq; [by apply (quietM_rollback H _ Hok dir0 B m)|by intros ? ->|intros u fs Hs; by eapply settled_recovered|done].
  - eapply spec_conseq; [by apply (active_rollback H _ (takes_ok _ _ _ _ Ht) dir0 B BT m)|by intros ? ->|intros u fs Hs; eapply settled_recovered; [|exact Hs]; apply Ht|done].
  - eapply spec_conseq; [by apply (final_rollback H _ (takes_ok _ _ _ _ Ht) dir0 B BT m)|by intros ? ->|intros u fs Hs; eapply settled_recovered; [|exact Hs]; apply Ht|done].
Qed.

Lemma spec_start {A} (P : Fs -> Prop) (m : UpdM A) Q X :
  (forall fs0, P fs0 -> spec (fun fs => fs = fs0) m Q X) -> spec P m Q X.
Proof. intros Hm w Hw. by apply (Hm (w_fs w) Hw w). Qed.

Lemma spec_recover_pending H dir0 :
  spec (Inv H) (recover_pending (in_directory dir0)) (fun _ => Recovered H) (Inv H).
Proof using laws.
  unfold recover_pending. eapply spec_read; [apply reads_read_marker|done|]. intros [m|].
  - apply spec_start. intros fs0 [Hi Hr]. pose proof (inv_found H m fs0 Hi Hr) as Hf.
    assert (Hwf : well_formed m) by (destruct Hr as (?&?&?&_&_&_&Hd); by eapply decode_wf).
    eapply (spec_read _ _ _ (fun b fs => b = true -> m.(mk_phase) = Finalizing /\
      forall e, e ∈ m.(members) -> opens fs.(fs_inodes) (fs.(fs_dir) !! canonical e) e.(target_digest))); [|by intros ? ->|].
    { destruct (decide _); [|by apply reads_ret]. eapply reads_conseq; [apply reads_matches_target|]. intros b fs Hb Ht. auto. }
    intros finished.
    eapply (spec_read _ _ _ (fun b fs => b = true -> finished = true \/ forall e, e ∈ m.(members) -> found_old fs e)); [|by intros ? [-> _]|].
    { destruct finished; [apply reads_ret; auto|]. eapply reads_conseq; [apply reads_matches_old|]. auto. }
    intros [].
    + apply spec_start. intros fs1 [[-> Ht] Hold]. apply found_clean; [done..|]. destruct finished; naive_solver.
    + apply spec_start. intros fs1 [[-> _] _]. by apply found_rollback.
  - apply spec_ret. intros fs [Hi Hn]. destruct Hi as [B HB Hq|B BT ms Ht Ha|B BT ms Ht Hf].
    + exists B. split; [done|]. assert (Hnone := nothing_none _ _ _ Hq Hn).
      destruct Hq as (?&?&?&HR). split_and!; [done..|]. intros d ?. by split; [apply HR|].
    + assert (Hnone := nothing_none _ _ _ Ha Hn). pose proof (on_disks_dir _ _ Ha) as ((?&?&?&_)&_). congruence.
    + assert (Hnone := nothing_none _ _ _ Hf Hn). pose proof (on_disks_dir _ _ Hf) as ((?&?&?&_)&_). congruence.
Qed.
End Recover.
