(* ===== verification/UpdateCommit.v ===== *)
(** * Committing an update

    The body of [commit_pair] on the invariant: while backups are made every
    canonical file is the old one; while members are installed every backup is
    durable; so a failure or death at any point leaves a transaction that can be
    rolled back.  Then the calls on a committed update. *)

From S2P Require Import Prelude RustStr EffectTypes Json Envelope StrLaws UpdateFs UpdateMarker Update UpdateLogic UpdateSteps.

(** ** The staging directory is left alone *)

Definition stage_const {E A} (m : ST World (Halt E) A) : Prop :=
  forall w, (m w).2.(w_fs).(fs_stage) = w.(w_fs).(fs_stage).

Lemma stage_bind {E A B} (m : ST World (Halt E) A) (k : A -> ST World (Halt E) B) :
  stage_const m -> (forall a, stage_const (k a)) -> stage_const (st_bind m k).
Proof.
  intros Hm Hk w. specialize (Hm w). unfold st_bind. destruct (m w) as [[a|e] w']; simpl in *; [|done].
  by rewrite (Hk a w').
Qed.
Lemma stage_ret {E A} (a : A) : stage_const (E := E) (st_ret a).
Proof. done. Qed.
Lemma stage_lift {E A} (r : result A (Halt E)) : stage_const (st_lift r).
Proof. done. Qed.
Lemma stage_io {A} op (m : IO A) : stage_const m -> stage_const (io op m).
Proof. intros Hm w. specialize (Hm w). unfold io. by destruct (m w) as [[a|[]] w']. Qed.
Lemma stage_attempt {E A} (m : ST World (Halt E) A) : stage_const m -> stage_const (attempt m).
Proof. intros Hm w. specialize (Hm w). unfold attempt. by destruct (m w) as [[a|[]] w']. Qed.
Lemma stage_sys {A} (op : Fs -> result A IoError * Fs) : (forall fs, (op fs).2.(fs_stage) = fs.(fs_stage)) -> stage_const (sys op).
Proof.
  intros Hop w. unfold sys. specialize (Hop (w_fs w)). destruct (w_events w) as [|[]]; simpl; try done; by destruct (op (w_fs w)).
Qed.
Lemma stage_reads {E A} (m : ST World (Halt E) A) R : reads m R -> stage_const m.
Proof. intros Hm w. specialize (Hm w). destruct (m w) as [r w']. destruct Hm as [Hm _]. simpl. by rewrite Hm. Qed.

Lemma stage_write_all i data : stage_const (write_all i data).
Proof. intros w. unfold write_all. by destruct (w_events w) as [|[]]. Qed.

Section Stage.
Context {json : MarkerJson}.

Lemma stage_sync_dir : stage_const sync_dir.
Proof. apply stage_io, stage_sys. done. Qed.
Lemma stage_create_new n mode : stage_const (create_new n mode).
Proof. apply stage_sys. intros fs. by destruct (fs_dir fs !! n). Qed.
Lemma stage_rename s t : stage_const (rename s t).
Proof.
  apply stage_sys. intros fs. destruct (fs_dir fs !! s), (fs_dir fs !! t); try done. destruct (decide _); [done|]. by destruct (is_directory _ _).
Qed.
Lemma stage_hard_link s t : stage_const (hard_link s t).
Proof. apply stage_sys. intros fs. by destruct (fs_dir fs !! s), (fs_dir fs !! t). Qed.
Lemma stage_sync_path b n : stage_const (sync_path b n).
Proof. apply stage_sys. intros fs. destruct (find_node fs n) as [[]|]; [|done]. by destruct (_ && _). Qed.
Lemma stage_set_mode n mode : stage_const (set_mode n mode).
Proof. apply stage_sys. intros fs. destruct (find_node fs n) as [[i node]|]; [|done]. by destruct (i_kind node) as [|[]|]. Qed.
Lemma stage_sync_all i : stage_const (sync_all i).
Proof. by apply stage_sys. Qed.

Lemma stage_write_marker m : stage_const (write_marker m).
Proof.
  unfold write_marker. apply stage_bind; [apply stage_lift|]. intros bytes.
  apply stage_bind; [apply stage_io, stage_create_new|]. intros i.
  apply stage_bind; [apply stage_io, stage_bind; [apply stage_write_all|intros; apply stage_sync_all]|]. intros u.
  apply stage_bind; [apply stage_io, stage_rename|]. intros u'. apply stage_sync_dir.
Qed.
Lemma stage_each {A} (f : A -> UpdM unit) l : (forall a, stage_const (f a)) -> stage_const (each f l).
Proof. intros Hf. induction l; simpl; [apply stage_ret|]. by apply stage_bind. Qed.

Lemma stage_reach {faults : FaultInjector} m step : stage_const (reach m step).
Proof. apply stage_bind; [apply stage_write_marker|]. intros u. apply stage_lift. Qed.

Lemma stage_backup_member {faults : FaultInjector} l m b : stage_const (backup_member l m b).
Proof.
  unfold backup_member. apply stage_bind; [apply stage_lift|]. intros e. apply stage_bind.
  - destruct (old_digest e); [|apply stage_ret]. unfold make_backup.
    apply stage_bind; [apply stage_io, stage_hard_link|]. intros u.
    apply stage_bind; [apply stage_io, stage_sync_path|]. intros u'. apply stage_sync_dir.
  - intros u. apply stage_reach.
Qed.
End Stage.

(** A specification that fixes the staging directory beside the rest. *)
Lemma spec_stage {E A} (P : Fs -> Prop) (m : ST World (Halt E) A) Q X st :
  stage_const m -> spec P m Q X ->
  spec (fun fs => P fs /\ fs.(fs_stage) = st) m (fun a fs => Q a fs /\ fs.(fs_stage) = st) X.
Proof.
  intros Hs Hm w [Hw Hst]. specialize (Hs w). specialize (Hm w Hw). destruct (m w) as [[] w']; simpl in *; [|done].
  split; [done|congruence].
Qed.

Section Commit.
Context {sha256 : Sha256} {json : MarkerJson} {laws : MarkerJsonLaws json} {faults : FaultInjector} {checks : HostChecks}.

(** ** A transaction before its end *)

Definition staged (st : Entries) (bs : list StagedBinary) (ino : Inodes) : Prop :=
  forall b, b ∈ bs -> digest_is ino (st !! b.(sb_path)) b.(sb_digest).

(** [fresh]: nothing is installed yet.  [done]: these backups are on disk. *)
Definition Txn (fresh : bool) (ms : list MarkerMember) (B : Bundle) (st : Entries) (bs : list StagedBinary)
    (done : list MarkerMember) : Rel := fun ino dir d =>
  Active ms B ino dir d /\ unfinished ino dir /\ staged st bs ino /\
  (fresh = true -> forall e, e ∈ ms -> is_at ino (d !! canonical e) e.(old_digest)) /\
  (forall e o, e ∈ done -> e.(old_digest) = Some o -> digest_is ino (d !! e.(backup)) o).

Section Steps.
Context (H : Bundle -> Prop) (B BT : Bundle) (ms : list MarkerMember) (Ht : takes H B BT ms).

Lemma txn_monotone fresh st bs done : monotone (Txn fresh ms B st bs done).
Proof.
  intros ino ino' dir d Hk (Ha0&_) (Ha&Hu&Hs&Hf&Hb). split_and!.
  - by eapply active_monotone.
  - by eapply marks_kept.
  - intros b Hb'. eapply digest_is_kept; [done|by apply Hs].
  - intros Hfr e He. eapply is_at_kept; [done|by apply Hf].
  - intros e o He Ho. eapply digest_is_kept; [done|by eapply Hb].
Qed.

Lemma txn_local fresh st bs done : (forall e, e ∈ done -> e ∈ ms) -> local (Txn fresh ms B st bs done).
Proof using Ht.
  intros Hd ino dir dir' d d' Hdir Hdd (Ha&Hu&Hs&Hf&Hb). assert (Hok := takes_ok _ _ _ _ Ht). split_and!.
  - eapply active_local; eauto.
  - unfold unfinished. by rewrite (agree_marker _ _ Hdir).
  - done.
  - intros Hfr e He. rewrite (agree_canonical _ _ _ Hdd). auto.
  - intros e o He Ho. rewrite (agree_backup d d' ms) by auto. eauto.
Qed.

Lemma txn_write_marker fresh st bs done m :
  (forall e, e ∈ done -> e ∈ ms) -> well_formed m -> m.(members) = ms -> m.(mk_phase) <> Finalizing ->
  spec (on_disks (Txn fresh ms B st bs done)) (write_marker m)
    (fun _ => on_disks (settled (Txn fresh ms B st bs done))) (on_disks (Active ms B)).
Proof using Ht laws.
  intros Hdone Hwf Hm Hph. assert (Hok := takes_ok _ _ _ _ Ht).
  assert (HX : forall fs, on_disks (Txn fresh ms B st bs done) fs -> on_disks (Active ms B) fs).
  { intros fs. apply on_disks_impl. by intros ino dir d (?&_) _. }
  apply spec_write_marker; [apply txn_monotone|by apply txn_local..| |done|done].
  intros ino dir d i text Henc Hi _ (Ha&Hu&Hs&Hf&Hb).
  assert (Hdec : forall m', decode_marker text = Ok m' -> m' = m) by (intros m' Hd; by eapply decode_of_encoding).
  destruct (active_mark ms B ino dir d i text Hok Hi) as [H1 H2]; [|done|].
  { intros m' Hd. rewrite (Hdec m' Hd). by split. }
  assert (Hu' : unfinished ino (<[MARKER_NAME := i]> dir)).
  { unfold unfinished. rewrite lookup_insert_eq. exists i, text. split_and!; [done..|]. intros m' Hd. by rewrite (Hdec m' Hd). }
  split; (split_and!; [done..| |]); [by eauto..| |].
  - intros Hfr e He. unfold canonical. rewrite mark_file. by apply Hf.
  - intros e o He Ho. rewrite (mark_backup i d ms) by auto. eauto.
Qed.

(** The phase is written and the fault hook runs. *)
Lemma txn_reach fresh st bs done m step :
  (forall e, e ∈ done -> e ∈ ms) -> well_formed m -> m.(members) = ms -> step.1 <> Finalizing ->
  spec (on_disks (Txn fresh ms B st bs done)) (reach m step)
    (fun _ => on_disks (settled (Txn fresh ms B st bs done))) (on_disks (Active ms B)).
Proof using Ht laws.
  intros Hdone Hwf Hm Hph. unfold reach. eapply spec_bind.
  - apply txn_write_marker; try done. by apply well_formed_phase.
  - intros u. eapply spec_conseq; [apply spec_reads, reads_lift|done|by intros ? ? []|].
    intros fs. apply on_disks_impl. by intros ino dir d [(?&_) _] _.
Qed.

(** *** Backups *)

Lemma spec_inode_call (R : Rel) (X : Fs -> Prop) n (f : Inode -> Inode) (op : Fs -> result unit IoError * Fs) :
  monotone R -> (forall fs, on_disks R fs -> X fs) ->
  (forall node, (f node).(i_kind) = node.(i_kind) /\ (node.(i_synced) = true -> (f node).(i_synced) = true)) ->
  (forall fs, (op fs).2 = fs \/ exists i, fs.(fs_dir) !! n = Some i /\ (op fs).2 = with_inodes (alter f i) fs) ->
  spec (on_disks R) (sys op) (fun _ => on_disks R) X.
Proof.
  intros Hm HX Hf Hop.
  assert (Hafter : forall fs, on_disks R fs -> on_disks R (op fs).2).
  { intros fs Hfs. destruct (Hop fs) as [->|(i&_&->)]; [done|].
    apply (on_disks_inodes R (alter f i fs.(fs_inodes)) fs Hm Hfs).
    - apply kept_alter. intros node _ ?. destruct (Hf node). auto.
    - intros j. destruct (decide (i = j)) as [->|]; [rewrite lookup_alter_eq|by rewrite lookup_alter_ne].
      by destruct (fs_inodes fs !! j). }
  apply spec_sys; [done|]. intros fs Hfs. specialize (Hafter fs Hfs). destruct (op fs) as [[] fs']; simpl in *; auto.
Qed.

Lemma find_node_dir fs n i node : find_node fs n = Some (i, node) -> fs.(fs_dir) !! n = Some i.
Proof.
  unfold find_node, find_in. destruct (fs_dir fs !! n); simpl; [|done]. destruct (fs_inodes fs !! _); simpl; by intros; simplify_eq.
Qed.

Lemma spec_sync_path (R : Rel) (X : Fs -> Prop) writable n :
  monotone R -> (forall fs, on_disks R fs -> X fs) -> spec (on_disks R) (sync_path writable n) (fun _ => on_disks R) X.
Proof.
  intros Hm HX. apply (spec_inode_call R X n synced); [done|done|done|]. intros fs.
  destruct (find_node fs n) as [[i node]|] eqn:E; [|by left]. destruct (_ && _); [by left|]. right. eauto using find_node_dir.
Qed.
Lemma spec_set_mode (R : Rel) (X : Fs -> Prop) n mode :
  monotone R -> (forall fs, on_disks R fs -> X fs) -> spec (on_disks R) (set_mode n mode) (fun _ => on_disks R) X.
Proof.
  intros Hm HX. apply (spec_inode_call R X n (chmodded mode)); [done|done|done|]. intros fs.
  destruct (find_node fs n) as [[i node]|] eqn:E; [|by left]. destruct (i_kind node) as [|[]|]; simpl; eauto using find_node_dir.
Qed.

Lemma txn_active fresh st bs done fs : on_disks (Txn fresh ms B st bs done) fs -> on_disks (Active ms B) fs.
Proof. apply on_disks_impl. by intros ino dir d (?&_) _. Qed.

Lemma txn_hard_link st bs done e o :
  e ∈ ms -> e.(old_digest) = Some o -> (forall x, x ∈ done -> x ∈ ms) ->
  spec (on_disks (Txn true ms B st bs done)) (hard_link (canonical e) e.(backup))
    (fun _ => on_disks (fun ino dir d => Txn true ms B st bs done ino dir d /\ digest_is ino (dir !! e.(backup)) o))
    (on_disks (Active ms B)).
Proof using Ht.
  intros He Ho Hdone. assert (Hok := takes_ok _ _ _ _ Ht). apply spec_sys; [apply txn_active|]. intros fs Hfs.
  destruct (fs_dir fs !! canonical e) as [i|] eqn:Ei; [|by eapply txn_active].
  destruct (fs_dir fs !! e.(backup)) eqn:Eb; [by eapply txn_active|].
  assert (Hi : digest_is fs.(fs_inodes) (Some i) o).
  { destruct (on_disks_dir _ _ Hfs) as (_&_&_&Hf&_). specialize (Hf eq_refl e He). by rewrite Ho, Ei in Hf. }
  eapply on_disks_insert; [exact Hfs|destruct Hi as (?&?&[= <-]&(n&Hn&_)&_); by exists n|].
  intros d Hdd (Ha&Hu&Hs&Hf&Hb).
  assert (Hc : digest_is fs.(fs_inodes) (d !! canonical e) o) by (specialize (Hf eq_refl e He); by rewrite Ho in Hf).
  destruct (active_backup ms B e o fs.(fs_inodes) fs.(fs_dir) d i Hok He Ho Hi Hu Hc Ha) as [H1 H2].
  assert (Htch : touches e (<[e.(backup) := i]>)) by (apply touches_insert; auto).
  assert (Hu' : unfinished fs.(fs_inodes) (<[e.(backup) := i]> fs.(fs_dir))).
  { unfold unfinished. by rewrite (touch_marker ms Hok e He _ Htch). }
  rewrite lookup_insert_eq. split; (split; [|done]); (split_and!; [done..| |]); [done|done| |].
  - intros _ x Hx. rewrite lookup_insert_ne; [by apply Hf|]. eapply backup_not_file, Hok, He.
  - intros x o' Hx Ho'. destruct (touch_cases ms Hok e He x (Hdone x Hx)) as [->|Hne].
    + rewrite lookup_insert_eq. congruence.
    + rewrite (touch_backup ms Hok e He _ Htch) by auto. eauto.
Qed.

Lemma txn_make_backup st bs done e o :
  e ∈ ms -> e.(old_digest) = Some o -> (forall x, x ∈ done -> x ∈ ms) ->
  spec (on_disks (Txn true ms B st bs done)) (make_backup (canonical e) e.(backup))
    (fun _ => on_disks (Txn true ms B st bs (e :: done))) (on_disks (Active ms B)).
Proof using Ht.
  intros He Ho Hdone. unfold make_backup.
  set (R := fun ino dir d => Txn true ms B st bs done ino dir d /\ digest_is ino (dir !! e.(backup)) o).
  assert (HR : forall fs, on_disks R fs -> on_disks (Active ms B) fs).
  { intros fs. apply on_disks_impl. by intros ino dir d [(?&_) _] _. }
  assert (HRm : monotone R).
  { intros ino ino' dir d Hk [Hdd _] [Hd Hb]. split; [by eapply txn_monotone|by eapply digest_is_kept]. }
  eapply (spec_bind _ _ _ (fun _ => on_disks R)); [by apply spec_io, txn_hard_link|]. intros u.
  eapply (spec_bind _ _ _ (fun _ => on_disks R)); [by apply spec_io, spec_sync_path|]. intros u'.
  eapply spec_conseq; [apply (spec_sync_dir R _ HR)|done| |done].
  intros ? fs. apply on_disks_impl. intros ino dir d [[(Ha&Hu&Hs&Hf&Hb) Hd] ->] _. split_and!; try done.
  intros x o' Hx Ho'. apply elem_of_cons in Hx as [->|Hx]; [congruence|eauto].
Qed.

Context (dir0 : string) (m : Marker) (Hwf : well_formed m) (Hm : m.(members) = ms).

(** The marker's entries are those of the staged binaries, in order. *)
Definition entry_of (b : StagedBinary) (e : MarkerMember) : Prop :=
  e.(mm_member) = b.(sb_member) /\ e.(target_digest) = b.(sb_digest).

Lemma backup_steps_unfinished x : (backup_step x).1 <> Finalizing.
Proof. by destruct x. Qed.
Lemma rename_steps_unfinished x : (rename_step x).1 <> Finalizing.
Proof. by destruct x. Qed.
Lemma chmod_steps_unfinished x : (chmod_step x).1 <> Finalizing.
Proof. by destruct x. Qed.

Lemma txn_backup_member st bs done b :
  (forall x, x ∈ done -> x ∈ ms) ->
  spec (on_disks (Txn true ms B st bs done)) (backup_member (in_directory dir0) m b)
    (fun _ => on_disks (fun ino dir d => exists e, e ∈ ms /\ e.(mm_member) = b.(sb_member) /\
       Txn true ms B st bs (e :: done) ino dir d /\ d = dir)) (on_disks (Active ms B)).
Proof using Ht laws Hwf Hm.
  intros Hdone. unfold backup_member. eapply spec_read; [apply reads_lift|apply txn_active|]. intros e.
  eapply spec_pure; [by intros fs [_ Hf]|]. intros Hf%map_err_ok%ok_or_ok. rewrite Hm in Hf.
  apply find_some in Hf as [Hin%list_elem_of_In Hb%bool_decide_eq_true].
  eapply (spec_bind _ _ _ (fun _ => on_disks (Txn true ms B st bs (e :: done)))).
  - rewrite path_file, <-Hb. destruct (old_digest e) as [o|] eqn:Eo.
    + eapply spec_conseq; [apply (txn_make_backup st bs done e o Hin Eo Hdone)| |done|done].
      intros fs [Hfs _]. done.
    + apply spec_ret. intros fs [Hfs _]. revert Hfs. apply on_disks_impl. intros ino dir d (Ha&Hu&Hs&Hfr&Hb') _.
      split_and!; try done. intros x o Hx Ho. apply elem_of_cons in Hx as [->|Hx]; [congruence|eauto].
  - intros u. eapply spec_conseq; [apply (txn_reach true st bs (e :: done)); [set_solver|done|done|apply backup_steps_unfinished]|done| |done].
    intros ? fs. apply on_disks_impl. intros ino dir d [Hx ->] _. exists e. by split_and!.
Qed.

(** Every member is covered once all binaries are. *)
Lemma txn_backups st bs :
  Forall2 entry_of bs ms ->
  spec (on_disks (Txn true ms B st bs [])) (each (backup_member (in_directory dir0) m) bs)
    (fun _ => on_disks (Txn true ms B st bs ms)) (on_disks (Active ms B)).
Proof using Ht laws Hwf Hm.
  intros Hf. assert (Hok := takes_ok _ _ _ _ Ht).
  assert (Hgo : forall todo done, (forall x, x ∈ done -> x ∈ ms) ->
    spec (on_disks (Txn true ms B st bs done)) (each (backup_member (in_directory dir0) m) todo)
      (fun _ => on_disks (fun ino dir d => Txn true ms B st bs done ino dir d /\
         forall b e o, b ∈ todo -> e ∈ ms -> e.(mm_member) = b.(sb_member) -> e.(old_digest) = Some o -> digest_is ino (d !! e.(backup)) o))
      (on_disks (Active ms B))).
  { induction todo as [|b todo IH]; intros done Hdone; simpl.
    - apply spec_ret. intros fs. apply on_disks_impl. set_solver.
    - eapply spec_bind; [by apply txn_backup_member|]. intros u. apply spec_start. intros fs0 Hfs0.
      destruct (on_disks_dir _ _ Hfs0) as (e&He&Heb&_&_).
      eapply spec_conseq; [apply (IH (e :: done)); set_solver|..|done].
      + intros fs ->. revert Hfs0. apply on_disks_impl. intros ino dir d (e'&He'&Heb'&Hx&_) _.
        assert (e' = e) as -> by (eapply marker_inj; eauto; congruence). done.
      + intros ? fs. apply on_disks_impl. intros ino dir d [(Ha&Hu&Hs&Hfr&Hb) Hrest] _. split.
        * split_and!; try done. intros; eapply Hb; [set_solver|done].
        * intros b' x o Hb' Hx Hxb Ho. apply elem_of_cons in Hb' as [->|Hb']; [|by eapply Hrest].
          assert (x = e) as -> by (eapply marker_inj; eauto; congruence). eapply Hb; [set_solver|done]. }
  eapply spec_conseq; [apply (Hgo bs []); set_solver|done| |done].
  intros ? fs. apply on_disks_impl. intros ino dir d [(Ha&Hu&Hs&Hfr&_) Hrest] _. split_and!; try done.
  intros e o He Ho. apply list_elem_of_lookup in He as [k Hk].
  destruct (Forall2_lookup_r _ _ _ _ _ Hf Hk) as (b&Hb&Heb&_).
  eapply Hrest; [by eapply list_elem_of_lookup_2|by eapply list_elem_of_lookup_2|done|done].
Qed.

(** *** Installation *)

Definition staged_at (R : Rel) (st : Entries) (fs : Fs) : Prop := on_disks R fs /\ fs.(fs_stage) = st.

Lemma staged_delete st (b : StagedBinary) bs ino :
  NoDup (map sb_path (b :: bs)) -> staged st (b :: bs) ino -> staged (delete b.(sb_path) st) bs ino.
Proof.
  intros Hnd Hs x Hx. rewrite lookup_delete_ne; [apply Hs; set_solver|].
  simpl in Hnd. apply NoDup_cons in Hnd as [Hn _]. intros Heq. apply Hn. rewrite Heq. by apply list_elem_of_fmap_2.
Qed.

Lemma txn_rename_staged fresh st b bs e :
  e ∈ ms -> entry_of b e -> NoDup (map sb_path (b :: bs)) ->
  spec (staged_at (Txn fresh ms B st (b :: bs) ms) st) (rename_staged b.(sb_path) (canonical e))
    (fun _ => staged_at (Txn false ms B (delete b.(sb_path) st) bs ms) (delete b.(sb_path) st)) (on_disks (Active ms B)).
Proof using Ht laws Hwf Hm.
  intros He [_ Het] Hnd. assert (Hok := takes_ok _ _ _ _ Ht). apply spec_sys; [intros fs [Hfs _]; by eapply txn_active|].
  intros fs [Hfs Hst]. destruct (fs_stage fs !! sb_path b) as [i|] eqn:Ei; [|by eapply txn_active].
  destruct (default false _); [by eapply txn_active|].
  assert (Hi : digest_is fs.(fs_inodes) (Some i) e.(target_digest)).
  { destruct (on_disks_dir _ _ Hfs) as (_&_&Hs&_&_). rewrite <-Ei, Hst, Het. apply Hs. constructor. }
  split; [|simpl; by rewrite Hst]. apply on_disks_stage.
  eapply on_disks_insert; [exact Hfs|destruct Hi as (?&?&[= <-]&(n&Hn&_)&_); by exists n|].
  intros d Hdd (Ha&Hu&Hs&Hf&Hb).
  destruct (active_install ms B e fs.(fs_inodes) fs.(fs_dir) d i Hok He Hi Hu) as [H1 H2]; [by intros o Ho; eapply Hb|done|].
  assert (Htch : touches e (<[canonical e := i]>)) by (apply touches_insert; auto).
  assert (Hu' : unfinished fs.(fs_inodes) (<[canonical e := i]> fs.(fs_dir))).
  { unfold unfinished. by rewrite (touch_marker ms Hok e He _ Htch). }
  split; (split_and!; [done|done|by eapply staged_delete|done|]); [done|].
  intros x o Hx Ho. rewrite lookup_insert_ne; [by eapply Hb|]. intros Hn. symmetry in Hn.
  by eapply backup_not_file in Hn; [|apply Hok].
Qed.

Lemma txn_install_member fresh st b bs e :
  e ∈ ms -> entry_of b e -> NoDup (map sb_path (b :: bs)) ->
  spec (staged_at (Txn fresh ms B st (b :: bs) ms) st) (install_member (in_directory dir0) m b)
    (fun _ => staged_at (Txn false ms B (delete b.(sb_path) st) bs ms) (delete b.(sb_path) st)) (on_disks (Active ms B)).
Proof using Ht laws Hwf Hm.
  intros He Hbe Hnd. unfold install_member. rewrite path_file. destruct Hbe as [Hbm Hbt]. rewrite <-Hbm.
  eapply spec_bind; [by apply spec_io, txn_rename_staged|]. intros u. 
  assert (Hr := txn_reach false (delete (sb_path b) st) bs ms m (rename_step (mm_member e)) ltac:(done) Hwf Hm (rename_steps_unfinished _)).
  eapply spec_conseq; [apply (spec_stage _ _ _ _ (delete (sb_path b) st) (stage_reach _ _) Hr)|done| |done].
  intros ? fs [Hfs ?]. split; [|done]. revert Hfs. apply on_disks_impl. by intros ino dir d [? _] _.
Qed.

Lemma txn_installs bs : forall fresh st es,
  Forall2 entry_of bs es -> (forall e, e ∈ es -> e ∈ ms) -> NoDup (map sb_path bs) ->
  spec (staged_at (Txn fresh ms B st bs ms) st) (each (install_member (in_directory dir0) m) bs)
    (fun _ fs => exists st', on_disks (Txn false ms B st' [] ms) fs \/ on_disks (Txn fresh ms B st' [] ms) fs) (on_disks (Active ms B)).
Proof using Ht laws Hwf Hm.
  induction bs as [|b bs IH]; intros fresh st es Hf Hin Hnd; simpl.
  - apply spec_ret. intros fs [Hfs _]. exists st. by right.
  - apply Forall2_cons_inv_l in Hf as (e&es'&Hbe&Hf&->). eapply spec_bind; [apply (txn_install_member fresh st b bs e); [set_solver|done|done]|].
    intros u. eapply spec_conseq; [apply (IH false (delete (sb_path b) st) es'); [done|set_solver|]|done| |done].
    + simpl in Hnd. by apply NoDup_cons in Hnd as [_ ?].
    + intros ? fs (st'&[|]); eauto.
Qed.

Lemma txn_weaken fresh st bs done fs :
  on_disks (Txn fresh ms B st bs done) fs -> on_disks (Txn false ms B ∅ [] []) fs.
Proof. apply on_disks_impl. intros ino dir d (?&?&_&_&_) _. split_and!; try done; set_solver. Qed.

(** *** The rest of the body *)

Lemma txn_publish_member publication :
  spec (on_disks (Txn false ms B ∅ [] [])) (publish_member (in_directory dir0) m publication)
    (fun _ => on_disks (Txn false ms B ∅ [] [])) (on_disks (Active ms B)).
Proof using Ht laws Hwf Hm.
  unfold publish_member, set_installed_mode.
  eapply (spec_bind _ _ _ (fun _ => on_disks (Txn false ms B ∅ [] []))).
  { eapply (spec_bind _ _ _ (fun _ => on_disks (Txn false ms B ∅ [] []))); [|intros u];
      apply spec_io; [apply spec_set_mode|apply spec_sync_path]; [apply txn_monotone|apply txn_active|apply txn_monotone|apply txn_active]. }
  intros u. eapply spec_conseq; [apply (txn_reach false ∅ [] []); [set_solver|done|done|apply chmod_steps_unfinished]|done| |done].
  intros ? fs. apply on_disks_impl. by intros ino dir d [? _] _.
Qed.

Definition seen_new (ino : Inodes) (dir : Entries) : Prop :=
  forall e, e ∈ ms -> digest_is ino (dir !! canonical e) e.(target_digest).

(** The whole target is seen, and the transaction can still be undone. *)
Definition Published : Rel := fun ino dir d => Active ms B ino dir d /\ unfinished ino dir /\ seen_new ino dir.

Lemma published_write_marker m' :
  well_formed m' -> m'.(members) = ms -> m'.(mk_phase) <> Finalizing ->
  spec (on_disks Published) (write_marker m') (fun _ => on_disks (settled Published)) (on_disks (Active ms B)).
Proof using Ht laws.
  intros Hwf' Hm' Hph. assert (Hok := takes_ok _ _ _ _ Ht).
  assert (HX : forall fs, on_disks Published fs -> on_disks (Active ms B) fs) by (intros fs; apply on_disks_impl; by intros ??? (?&_)).
  assert (Hl : local Published).
  { intros ino dir dir' d d' Hdir Hdd (Ha&Hu&Hs). split_and!; [by eapply active_local|..].
    - unfold unfinished. by rewrite (agree_marker _ _ Hdir).
    - intros e He. rewrite (agree_canonical _ _ _ Hdir). by apply Hs. }
  apply spec_write_marker; [|done|done| |done|done].
  - intros ino ino' dir d Hk (Ha0&_) (Ha&Hu&Hs). split_and!; [by eapply active_monotone|by eapply marks_kept|].
    intros e He. eapply digest_is_kept; [done|by apply Hs].
  - intros ino dir d i text Henc Hi _ (Ha&Hu&Hs).
    assert (Hdec : forall m0, decode_marker text = Ok m0 -> m0 = m') by (intros m0 Hd; by eapply decode_of_encoding).
    destruct (active_mark ms B ino dir d i text Hok Hi) as [H1 H2]; [|done|].
    { intros m0 Hd. rewrite (Hdec m0 Hd). by split. }
    assert (Hu' : unfinished ino (<[MARKER_NAME := i]> dir)).
    { unfold unfinished. rewrite lookup_insert_eq. exists i, text. split_and!; [done..|]. intros m0 Hd. by rewrite (Hdec m0 Hd). }
    assert (Hs' : seen_new ino (<[MARKER_NAME := i]> dir)).
    { intros e He. unfold canonical. rewrite mark_file. by apply Hs. }
    done.
Qed.

(** The digests the verifier read are those of the target. *)
Lemma txn_published bs fs :
  Forall2 entry_of bs ms -> on_disks (Txn false ms B ∅ [] []) fs ->
  (forall b, b ∈ bs -> opens fs.(fs_inodes) (fs.(fs_dir) !! file_name b.(sb_member)) b.(sb_digest)) ->
  on_disks Published fs.
Proof.
  intros Hf Hfs Hop. assert (Hseen : seen_new fs.(fs_inodes) fs.(fs_dir)).
  { intros e He. destruct (on_disks_dir _ _ Hfs) as ((_&_&Hr&_)&_). destruct (Hr e He) as [Hre _].
    apply list_elem_of_lookup in He as [k Hk]. destruct (Forall2_lookup_r _ _ _ _ _ Hf Hk) as (b&Hb&Heb&Het).
    specialize (Hop b (list_elem_of_lookup_2 _ _ _ Hb)). rewrite <-Heb, <-Het in Hop.
    destruct (restorable_known _ _ _ Hre) as [Hn|[h Hh]]; [|by eapply opens_is].
    destruct Hop as (?&?&?&Hx&_). unfold canonical in Hn. congruence. }
  destruct Hfs as (?&?&?&HR). split_and!; try done. intros d Hd. destruct (HR d Hd) as (?&?&_). by split_and!.
Qed.

Lemma reads_verify_installed p :
  reads (verify_installed (in_directory dir0) p)
    (fun _ fs => forall b, b ∈ p.(binaries) -> opens fs.(fs_inodes) (fs.(fs_dir) !! file_name b.(sb_member)) b.(sb_digest)).
Proof.
  apply (reads_each _ (fun b fs => opens fs.(fs_inodes) (fs.(fs_dir) !! file_name b.(sb_member)) b.(sb_digest))).
  intros b _. rewrite path_file. eapply reads_bind; [apply reads_sha256|]. intros h.
  eapply reads_bind; [apply reads_refuse|]. intros u. eapply reads_bind; [apply reads_lift|]. intros u1.
  eapply reads_bind; [apply reads_lift|]. intros out. eapply reads_conseq; [apply reads_refuse|].
  intros ? fs _ _ _ Hh%negb_false_iff%String.eqb_eq ?. by subst.
Qed.

Lemma txn_commit_body p modes st :
  Forall2 entry_of p.(binaries) ms -> NoDup (map sb_path p.(binaries)) ->
  spec (staged_at (Txn true ms B st p.(binaries) []) st) (commit_body (in_directory dir0) p modes m)
    (fun _ => on_disks (settled Published)) (on_disks (Active ms B)).
Proof using Ht laws Hwf Hm.
  intros Hf Hnd. unfold commit_body. eapply (spec_bind _ _ _ (fun _ => staged_at (Txn true ms B st p.(binaries) ms) st)).
  { apply spec_stage; [apply stage_each; intros; apply stage_backup_member|by apply txn_backups]. }
  intros u0. eapply (spec_bind _ _ _ (fun _ => on_disks (Txn false ms B ∅ [] []))).
  { eapply spec_conseq; [apply (txn_installs (binaries p) true st ms Hf ltac:(done) Hnd)|done| |done].
    intros ? fs (st'&[Hx|Hx]); by eapply txn_weaken. }
  intros u1. eapply spec_bind; [apply spec_each; intros; apply txn_publish_member|]. intros u2. simpl.
  eapply (spec_bind _ _ _ (fun _ => on_disks (Txn false ms B ∅ [] []))).
  { eapply spec_conseq; [apply (spec_sync_dir _ _ (txn_active false ∅ [] []))|done| |done]. intros ? fs. apply on_disks_impl. by intros ??? []. }
  intros u3. eapply (spec_bind _ _ _ (fun _ => on_disks (Txn false ms B ∅ [] []))).
  { eapply spec_conseq; [by apply (txn_reach false ∅ [] []); [set_solver| | |]|done| |done]. intros ? fs. apply on_disks_impl. by intros ??? []. }
  intros u4. eapply spec_read; [apply reads_verify_installed|apply txn_active|]. intros u5.
  assert (HPX : forall fs, on_disks (settled Published) fs -> on_disks (Active ms B) fs).
  { intros fs. apply on_disks_impl. by intros ??? [(?&_) _]. }
  eapply (spec_bind _ _ _ (fun _ => on_disks Published)).
  { unfold reach. eapply (spec_bind _ _ _ (fun _ => on_disks (settled Published))).
    - eapply spec_conseq; [apply published_write_marker; [by apply well_formed_phase|done|done]| |done|done].
      intros fs [Hfs Hop]. by eapply txn_published.
    - intros u. eapply spec_conseq; [apply (spec_reads (on_disks (settled Published)) _ _ (reads_lift _))|done| |done].
      intros ? fs [Hfs _]. eapply on_disks_impl; [|exact Hfs]. by intros ino dir d [Hp _] _. }
  intros u6. apply published_write_marker; [by apply well_formed_phase|done|done].
Qed.
End Steps.
End Commit.

(** * The calls of an updater

    [acquire], [commit_pair] and the operations of a committed update against
    the invariant: what each of them establishes when it succeeds, and that the
    invariant holds when it fails or its process dies. *)


(** SHA-256 in hexadecimal: 64 lowercase digits. *)
Class Sha256Hex (sha256 : Sha256) : Prop := sha256_exact : forall data, exact_digest (sha256_hex data).

(** ** Backup names *)

Lemma id_no_slash id : safe_transaction_id id = true -> no_byte "/"%char id = true.
Proof.
  unfold safe_transaction_id. intros [_ Hb]%andb_true_iff. induction id as [|c id IH]; [done|].
  simpl in *. apply andb_true_iff in Hb as [Hc Hb]. apply andb_true_iff. split; [|auto].
  destruct (Ascii.eqb_spec "/"%char c) as [<-|]; [done|]. by case_bool_decide.
Qed.

Lemma safe_backup m id : safe_transaction_id id = true -> safe_backup_name (backup_prefix m ++ id) (backup_prefix m) = true.
Proof.
  intros Hid. unfold safe_backup_name. apply andb_true_iff. split.
  - unfold starts_with. apply bool_decide_eq_true. rewrite strip_prefix_app. by eexists.
  - assert (Hn : no_byte "/"%char (backup_prefix m ++ id) = true).
    { rewrite no_byte_app. rewrite (id_no_slash id Hid). by destruct m. }
    unfold single_name, normal_components. rewrite (split_char_single _ _ Hn). by destruct m.
Qed.

Section Api.
Context {sha256 : Sha256} {json : MarkerJson} {laws : MarkerJsonLaws json} {hex : Sha256Hex sha256}
  {faults : FaultInjector} {checks : HostChecks}.

(** ** Bundles *)

(** The installer admits a CLI with its daemon, and a TUI beside them. *)
Definition coherent_bundle (B : Bundle) : Prop :=
  (is_Some (B Cli) <-> is_Some (B Daemon)) /\ (B Cli = None -> B Tui = None).

(** The bundle after installing [p]. *)
Definition target_bundle (B : Bundle) (p : VerifiedStagedPair) : Bundle := fun m =>
  match find (fun b => bool_decide (b.(sb_member) = m)) p.(binaries) with
  | Some b => Some b.(sb_digest)
  | None => B m
  end.

(** What staging promises of a pair: the members of a release, in paths of
    their own, and the digest of the archive. *)
Record pair_ok (p : VerifiedStagedPair) : Prop := {
  pair_shape : pair_members p ∈ [BUNDLE_MEMBERS; ALL_BUNDLE_MEMBERS];
  pair_paths : NoDup (map sb_path p.(binaries));
  pair_source : exact_digest p.(source_digest)
}.

(** Every staged file is a regular file whose data was synced. *)
Definition stage_files (st : Entries) (ino : Inodes) : Prop :=
  forall n i, st !! n = Some i -> exists data, file_is ino i data.

Lemma pair_nodup p : pair_ok p -> NoDup (pair_members p).
Proof. intros [Hs _ _]. rewrite elem_of_cons, list_elem_of_singleton in Hs. destruct Hs as [-> | ->]; by apply (bool_decide_unpack _). Qed.

Lemma target_bundle_in B p b : pair_ok p -> b ∈ p.(binaries) -> target_bundle B p b.(sb_member) = Some b.(sb_digest).
Proof.
  intros Hp Hb. assert (Hnd := pair_nodup p Hp). unfold target_bundle, pair_members in *.
  induction (binaries p) as [|x bs IH]; [set_solver|]. simpl in *. apply NoDup_cons in Hnd as [Hx Hnd].
  apply elem_of_cons in Hb as [->|Hb]; [by rewrite bool_decide_true|].
  rewrite bool_decide_false; [auto|]. intros Heq. apply Hx. rewrite Heq. by apply list_elem_of_fmap_2.
Qed.
Lemma target_bundle_out B p m : m ∉ pair_members p -> target_bundle B p m = B m.
Proof.
  unfold target_bundle, pair_members. intros Hm. destruct (find _ _) as [b|] eqn:E; [|done].
  apply find_some in E as [Hb%list_elem_of_In <-%bool_decide_eq_true]. destruct Hm. by apply list_elem_of_fmap_2.
Qed.

(** ** The entries of a new marker *)

Lemma reads_installed_metadata n :
  reads (installed_metadata n) (fun r fs => match r with Some _ => is_Some (fs.(fs_dir) !! n) | None => nothing_at fs n end).
Proof.
  unfold installed_metadata. eapply reads_bind; [apply reads_metadata|]. intros [md|e].
  - apply reads_ret. auto.
  - destruct (decide _) as [Hk|]; [apply reads_ret; auto|apply reads_fail].
Qed.

Definition read_entry (id : string) (b : StagedBinary) (e : MarkerMember) (fs : Fs) : Prop :=
  entry_of b e /\ e.(backup) = (backup_prefix b.(sb_member) ++ id)%string /\
  match e.(old_digest) with
  | Some h => opens fs.(fs_inodes) (fs.(fs_dir) !! canonical e) h
  | None => nothing_at fs (canonical e)
  end.

Lemma reads_entry_for dir0 id b : reads (entry_for (in_directory dir0) id b) (read_entry id b).
Proof.
  unfold entry_for. rewrite path_file. eapply reads_bind; [apply reads_installed_metadata|]. intros found.
  eapply (reads_bind _ _ (fun old fs => match old with
    | Some h => opens fs.(fs_inodes) (fs.(fs_dir) !! file_name b.(sb_member)) h
    | None => found = None end)).
  - destruct found; [|by apply reads_ret]. eapply reads_bind; [apply reads_sha256|]. intros h. apply reads_ret. auto.
  - intros old. apply reads_ret. intros fs Ho Hf. unfold read_entry, entry_of, canonical. simpl. split_and!; [done..|].
    destruct old; [done|]. by rewrite Ho in Hf.
Qed.

(** On a quiet directory the recorded digests are the bundle's. *)
Lemma entry_old H B id b e fs :
  on_disks (QuietN H B) fs -> read_entry id b e fs -> e.(old_digest) = B e.(mm_member).
Proof.
  intros Hfs (_&_&Ho). destruct (on_disks_dir _ _ Hfs) as [(Hb&_) _]. specialize (Hb (mm_member e)). unfold canonical in *.
  destruct (old_digest e) as [h|], (B (mm_member e)) as [h'|]; simpl in Hb; [|..|done].
  - f_equal. by eapply opens_digest.
  - destruct Ho as (?&?&?&?&_). congruence.
  - assert (Hn := nothing_none _ _ _ Hfs Ho). destruct Hb as (?&?&?&_). congruence.
Qed.

Lemma reads_verify_staged b :
  reads (verify_staged b) (fun _ fs => opens fs.(fs_inodes) (fs.(fs_stage) !! b.(sb_path)) b.(sb_digest)).
Proof.
  unfold verify_staged. eapply reads_bind.
  { apply reads_io, (reads_sys _ (fun _ _ => True)). intros fs. by destruct (find_in _ fs _) as [[]|]. }
  intros md. eapply reads_bind; [apply reads_refuse|]. intros u. eapply reads_bind; [apply (reads_sha256 fs_stage)|].
  intros h. eapply reads_conseq; [apply reads_refuse|]. intros ? fs Hh%negb_false_iff%String.eqb_eq Ho _ _. by subst.
Qed.

Lemma reads_verify_immutable p :
  reads (verify_immutable p) (fun _ fs => forall b, b ∈ p.(binaries) -> opens fs.(fs_inodes) (fs.(fs_stage) !! b.(sb_path)) b.(sb_digest)).
Proof.
  unfold verify_immutable. eapply reads_bind.
  { apply (reads_gather _ (fun b r fs => match r with Ok _ => opens fs.(fs_inodes) (fs.(fs_stage) !! b.(sb_path)) b.(sb_digest) | Err _ => True end)).
    intros b _. apply reads_attempt, reads_verify_staged. }
  intros results. eapply reads_conseq.
  { apply (reads_each _ (fun r _ => exists u, r = Ok u)). intros r _. eapply reads_conseq; [apply reads_lift|].
    intros u fs Hu%map_err_ok. eauto. }
  intros ? fs Hall Hf b Hb. apply list_elem_of_lookup in Hb as [k Hk].
  destruct (Forall2_lookup_l _ _ _ _ _ Hf Hk) as (r&Hr&Hop). destruct (Hall r (list_elem_of_lookup_2 _ _ _ Hr)) as [u ->]. done.
Qed.

(** ** A new marker is well formed *)

Lemma had_iff (B : Bundle) ms x :
  x ∈ map mm_member ms -> (forall e, e ∈ ms -> e.(old_digest) = B e.(mm_member)) -> had x ms = bool_decide (is_Some (B x)).
Proof.
  intros Hx Ho. unfold had. destruct (find _ ms) as [e|] eqn:E.
  - apply find_some in E as [He%list_elem_of_In <-%bool_decide_eq_true]. by rewrite (Ho e He).
  - apply list_elem_of_fmap in Hx as (e&->&He). pose proof (find_none _ _ E e) as Hn.
    rewrite bool_decide_eq_false in Hn. destruct Hn; [by apply list_elem_of_In|done].
Qed.

Lemma coherent_marker B ms :
  coherent_bundle B -> map mm_member ms ∈ [BUNDLE_MEMBERS; ALL_BUNDLE_MEMBERS] ->
  (forall e, e ∈ ms -> e.(old_digest) = B e.(mm_member)) -> coherent_old ms = true.
Proof.
  intros [Hc Ht] Hs Ho. assert (Cli ∈ map mm_member ms /\ Daemon ∈ map mm_member ms) as [H1 H2].
  { rewrite elem_of_cons, list_elem_of_singleton in Hs. destruct Hs as [-> | ->]; unfold BUNDLE_MEMBERS, ALL_BUNDLE_MEMBERS; set_solver. }
  unfold coherent_old. rewrite (had_iff B ms Cli H1 Ho), (had_iff B ms Daemon H2 Ho). apply andb_true_iff. split.
  - apply bool_decide_eq_true, bool_decide_ext, Hc.
  - destruct (B Cli) as [h|] eqn:E; [done|]. simpl. apply negb_true_iff, not_true_iff_false.
    intros (e&He%list_elem_of_In&[Hm%bool_decide_eq_true Hi%bool_decide_eq_true]%andb_true_iff)%existsb_exists.
    rewrite (Ho e He), Hm, (Ht eq_refl) in Hi. by destruct Hi.
Qed.

Definition new_marker (p : VerifiedStagedPair) (id old_version : string) (ms : list MarkerMember) : Marker :=
  {| legacy := false; mk_transaction_id := id; mk_old_version := old_version; mk_target_version := p.(version);
     source_archive_digest := p.(source_digest); members := ms; mk_phase := Prepared |}.

Lemma entries_members id p ms fs :
  Forall2 (fun b e => read_entry id b e fs) p.(binaries) ms -> map mm_member ms = pair_members p.
Proof. unfold pair_members. induction 1 as [|b e bs es ((?&?)&_) _ IH]; simpl; [done|]. by f_equal. Qed.

Lemma new_marker_wf H B p id v ms fs :
  coherent_bundle B -> pair_ok p -> safe_transaction_id id = true -> on_disks (QuietN H B) fs ->
  (forall b, b ∈ p.(binaries) -> opens fs.(fs_inodes) (fs.(fs_stage) !! b.(sb_path)) b.(sb_digest)) ->
  Forall2 (fun b e => read_entry id b e fs) p.(binaries) ms -> well_formed (new_marker p id v ms).
Proof using hex laws.
  intros Hc Hp Hid Hq Hv Hf. assert (Hms := entries_members _ _ _ _ Hf).
  assert (Hold : forall e, e ∈ ms -> e.(old_digest) = B e.(mm_member)).
  { intros e [k Hk]%list_elem_of_lookup. destruct (Forall2_lookup_r _ _ _ _ _ Hf Hk) as (b&_&Hre). by eapply entry_old. }
  assert (Hex : forall ino o h, opens ino o h -> exact_digest h) by (intros ino o h (?&?&?&_&_&_&<-); apply sha256_exact).
  split; simpl.
  - done.
  - apply Hp.
  - rewrite Hms. apply Hp.
  - eapply coherent_marker; [done|rewrite Hms; apply Hp|done].
  - apply Forall_forall. intros e [k Hk]%list_elem_of_lookup. destruct (Forall2_lookup_r _ _ _ _ _ Hf Hk) as (b&Hb&((_&Het)&_&Ho)).
    split; [rewrite Het; eapply Hex, Hv; by eapply list_elem_of_lookup_2|]. destruct (old_digest e); [by eapply Hex|done].
  - apply Forall_forall. intros e [k Hk]%list_elem_of_lookup. destruct (Forall2_lookup_r _ _ _ _ _ Hf Hk) as (b&_&((Hm&_)&Hb&_)).
    rewrite Hb, Hm. by apply safe_backup.
Qed.

(** ** Committing *)

Section Commit.
Context (H : Bundle -> Prop) (B : Bundle) (p : VerifiedStagedPair) (id : string).
Context (HB : H B) (Hc : coherent_bundle B) (Hp : pair_ok p) (Hid : safe_transaction_id id = true).

(** The bundles an update may leave behind. *)
Definition and_target : Bundle -> Prop := fun X => H X \/ X = target_bundle B p.

(** A quiet directory, a staged pair, and names for this transaction's backups. *)
Definition Ready (st : Entries) : Rel := fun ino dir d =>
  QuietN H B ino dir d /\ stage_files st ino /\ forall m, d !! (backup_prefix m ++ id)%string = None.

Lemma takes_extend (K K' : Bundle -> Prop) B1 B2 ms : (forall X, K X -> K' X) -> takes K B1 B2 ms -> takes K' B1 B2 ms.
Proof. intros HK []. split; auto. Qed.
Lemma quiet_extend (K K' : Bundle -> Prop) B1 ino dir d :
  (forall X, K X -> K' X) -> Quiet K B1 ino dir d -> Quiet K' B1 ino dir d.
Proof.
  intros HK (Hb&Hm&Hv). split_and!; [done| |done]. destruct Hm as [|(ms&?&?&Hd)]; [by left|]. right. exists ms.
  split; [done|]. split; [done|]. destruct Hd as [|[B0 Ht]]; [by left|right]. exists B0. by eapply takes_extend.
Qed.

Lemma new_takes ms fs :
  on_disks (QuietN H B) fs -> Forall2 (fun b e => read_entry id b e fs) p.(binaries) ms ->
  takes and_target B (target_bundle B p) ms.
Proof using HB Hc Hp Hid laws hex.
  intros Hq Hf. assert (Hms := entries_members _ _ _ _ Hf). split.
  - split; [rewrite Hms; by apply pair_nodup|]. intros e [k Hk]%list_elem_of_lookup.
    destruct (Forall2_lookup_r _ _ _ _ _ Hf Hk) as (b&_&((Hm&_)&Hb&_)). rewrite Hb, Hm.
    unfold starts_with. apply bool_decide_eq_true. rewrite strip_prefix_app. by eexists.
  - by left.
  - by right.
  - intros e [k Hk]%list_elem_of_lookup. destruct (Forall2_lookup_r _ _ _ _ _ Hf Hk) as (b&_&Hre). by eapply entry_old.
  - intros e [k Hk]%list_elem_of_lookup. destruct (Forall2_lookup_r _ _ _ _ _ Hf Hk) as (b&Hb&((Hm&Het)&_)).
    rewrite Hm, Het. apply target_bundle_in; [done|by eapply list_elem_of_lookup_2].
  - intros m Hm. apply target_bundle_out. by rewrite <-Hms.
Qed.

(** Before the marker: quiet, with what the marker will say. *)
Definition Starting (ms : list MarkerMember) (st : Entries) : Rel := fun ino dir d =>
  Quiet and_target B ino dir d /\ staged st p.(binaries) ino /\
  forall e, e ∈ ms -> e.(old_digest) = B e.(mm_member) /\ d !! e.(backup) = None.
Definition Started (ms : list MarkerMember) (st : Entries) : Rel := fun ino dir d =>
  QuietM and_target ms B ino dir d /\ staged st p.(binaries) ino /\ unfinished ino dir.

Lemma staged_kept st bs ino ino' : kept ino ino' -> staged st bs ino -> staged st bs ino'.
Proof. intros Hk Hs b Hb. eapply digest_is_kept; [done|by apply Hs]. Qed.

Lemma started_active ms st BT ino dir d :
  takes and_target B BT ms -> d = dir -> Started ms st ino dir d -> Txn true ms B st p.(binaries) [] ino dir d.
Proof.
  intros Ht -> ((Hq&Hm&He)&Hs&Hu). destruct Hq as (Hb&_&_).
  assert (Hat : forall e, e ∈ ms -> is_at ino (dir !! canonical e) e.(old_digest)).
  { intros e Hin. destruct (He e Hin) as [-> _]. apply Hb. }
  split_and!; [|done|done|auto|set_solver]. split_and!; [done|by intros m _; apply Hb|..].
  - intros e Hin. split; [|apply link_old_refl]. specialize (Hat e Hin). destruct (He e Hin) as [_ Hn]. unfold restorable.
    destruct (old_digest e); simpl in Hat; auto.
  - eapply marks_weaken; [|exact Hm]. intros; apply link_new_refl.
Qed.

Lemma starting_write_marker ms st BT m :
  takes and_target B BT ms -> well_formed m -> m.(members) = ms -> m.(mk_phase) <> Finalizing ->
  spec (on_disks (Starting ms st)) (write_marker m) (fun _ => on_disks (Txn true ms B st p.(binaries) [])) (Inv and_target).
Proof using HB Hc Hp Hid laws hex.
  intros Ht Hwf Hm Hph. assert (Hok := takes_ok _ _ _ _ Ht). assert (HB' : and_target B) by by left.
  eapply spec_conseq; [apply (spec_write_marker (Starting ms st) (Started ms st) (Inv and_target))|done| |done].
  - intros ino ino' dir d Hk (Hq0&_) (Hq&Hs&He). split_and!; [by eapply quiet_monotone|by eapply staged_kept|done].
  - intros ino dir dir' d d' Hdir Hd (Hq&Hs&He). split_and!; [by eapply quiet_local|done|].
    intros e Hin. destruct (He e Hin). by rewrite (agree_backup d d' ms).
  - intros ino dir dir' d d' Hdir Hd (Hq&Hs&Hu). split_and!; [by eapply quietM_local|done|].
    unfold unfinished. by rewrite (agree_marker _ _ Hdir).
  - intros ino dir d i text Henc Hi _ (Hq&Hs&He).
    assert (Hdec : forall m0, decode_marker text = Ok m0 -> m0 = m) by (intros m0 Hd; by eapply decode_of_encoding).
    destruct (quiet_mark and_target ms Hok B ino dir d i text HB' Hi) as [H1 H2]; [by intros m0 ->%Hdec|done|done|].
    assert (Hu : unfinished ino (<[MARKER_NAME := i]> dir)).
    { unfold unfinished. rewrite lookup_insert_eq. exists i, text. split_and!; [done..|]. by intros m0 ->%Hdec. }
    done.
  - intros fs Hfs. apply (InvQuiet _ fs B HB'). revert Hfs. apply on_disks_impl. by intros ??? (?&_).
  - intros fs Hfs. apply (InvQuiet _ fs B HB'). revert Hfs. apply on_disks_impl. by intros ??? ((?&_)&_).
  - intros ? fs. apply on_disks_impl. intros ino dir d [Hst ->] _. by eapply started_active.
Qed.

(** What a committed update is: the whole target on every disk, under a
    marker that can still undo it. *)
Definition Committed (m : Marker) (fs : Fs) : Prop :=
  well_formed m /\ takes and_target B (target_bundle B p) m.(members) /\ on_disks (settled (Published B m.(members))) fs.

Lemma ready_starting st ms fs :
  on_disks (Ready st) fs -> fs.(fs_stage) = st ->
  (forall b, b ∈ p.(binaries) -> opens fs.(fs_inodes) (fs.(fs_stage) !! b.(sb_path)) b.(sb_digest)) ->
  Forall2 (fun b e => read_entry id b e fs) p.(binaries) ms -> on_disks (Starting ms st) fs.
Proof using HB Hc Hp Hid laws hex.
  intros Hfs Hst Hv Hf. assert (Hq : on_disks (QuietN H B) fs) by (revert Hfs; apply on_disks_impl; by intros ??? (?&_)).
  destruct (on_disks_dir _ _ Hfs) as (_&Hsf&_).
  assert (Hs : staged st p.(binaries) fs.(fs_inodes)).
  { intros b Hb. specialize (Hv b Hb). destruct Hv as (i&node&data&Hi&Hn&Hcont&Hh). rewrite Hst in Hi.
    destruct (Hsf _ _ Hi) as (data'&Hfile). exists i, data'. split_and!; [done..|].
    destruct Hfile as (n&Hn'&_&Hk). simplify_eq. rewrite Hk in Hcont. by simplify_eq/=. }
  destruct Hfs as (?&?&?&HR). split_and!; [done..|]. intros d Hd. destruct (HR d Hd) as ([Hqd _]&_&Hfresh). split_and!; [|done|].
  - eapply quiet_extend; [|exact Hqd]. intros X ?. by left.
  - intros e [k Hk]%list_elem_of_lookup. destruct (Forall2_lookup_r _ _ _ _ _ Hf Hk) as (b&_&Hre). split; [by eapply entry_old|].
    destruct Hre as (_&->&_). apply Hfresh.
Qed.

Lemma spec_commit_transaction dir0 v st :
  spec (staged_at (Ready st) st) (commit_transaction (in_directory dir0) p id v)
    (fun m fs => Committed m fs) (Inv and_target).
Proof using HB Hc Hp Hid laws hex.
  assert (HI : forall fs, on_disks (Ready st) fs -> Inv and_target fs).
  { intros fs Hfs. apply (InvQuiet _ fs B); [by left|]. revert Hfs. apply on_disks_impl. intros ino dir d ([Hq _]&_) _.
    eapply quiet_extend; [|exact Hq]. intros X ?. by left. }
  unfold commit_transaction. eapply spec_read; [apply reads_verify_immutable|intros fs [? _]; auto|]. intros u0.
  eapply spec_read; [apply reads_installed_metadata|intros fs [[? _] _]; auto|]. intros cli.
  eapply spec_read; [apply (reads_gather _ (fun _ _ _ => True)); intros; eapply reads_bind; [apply reads_installed_metadata|intros; by apply reads_ret]
                    |intros fs [[[? _] _] _]; auto|]. intros modes.
  eapply spec_read; [apply (reads_gather _ (read_entry id)); intros; apply reads_entry_for|intros fs [[[[? _] _] _] _]; auto|]. intros ms.
  apply spec_start. intros fs0 [[[[[Hfs Hst] Hv] _] _] Hf]. fold (new_marker p id v ms).
  assert (Hq : on_disks (QuietN H B) fs0) by (revert Hfs; apply on_disks_impl; by intros ??? (?&_)).
  assert (Ht := new_takes ms fs0 Hq Hf).
  assert (Hwf : well_formed (new_marker p id v ms)) by (by eapply new_marker_wf).
  assert (Hbe : Forall2 entry_of p.(binaries) ms) by (eapply Forall2_impl; [exact Hf|]; by intros b e (?&_)).
  assert (Hok := takes_ok _ _ _ _ Ht).
  assert (Hw := starting_write_marker ms st _ (new_marker p id v ms) Ht Hwf eq_refl ltac:(done)).
  assert (Hbody := txn_commit_body and_target B _ ms Ht dir0 (new_marker p id v ms) Hwf eq_refl p modes st Hbe (pair_paths p Hp)).
  eapply spec_bind.
  { eapply spec_conseq; [apply (spec_stage _ _ _ _ st (stage_write_marker _) Hw)| |done|done].
    intros fs ->. split; [by apply ready_starting|done]. }
  intros u1. eapply spec_bind.
  { eapply spec_conseq; [apply (spec_attempt _ _ _ _ Hbody)|done|intros a fs Hr; exact Hr|].
    intros fs. by apply (InvActive _ fs B (target_bundle B p) ms). }
  intros [u2|error]; cbn beta iota.
  - apply spec_ret. intros fs Hpub. split_and!; [by apply well_formed_phase|done|done].
  - assert (Hroll := active_rollback and_target ms Hok dir0 B _ (new_marker p id v ms) Ht Hwf eq_refl).
    eapply spec_bind.
    { eapply spec_conseq; [apply (spec_attempt _ _ _ _ Hroll)|done|intros a fs Hr; exact Hr|done]. }
    intros [u3|rollback]; cbn beta iota; intros w Hw'; [|done].
    apply (InvQuiet _ _ B); [by left|]. eapply on_disks_impl; [|exact Hw']. by intros ??? [[? _] _].
Qed.

Lemma committed_stage m st fs : Committed m fs -> Committed m (with_stage st fs).
Proof. done. Qed.
Lemma inv_stage K st fs : Inv K fs -> Inv K (with_stage st fs).
Proof. intros [B1 ? ?|B1 B2 ms ? ?|B1 B2 ms ? ?]; [by eapply InvQuiet|by eapply InvActive|by eapply InvFinal]. Qed.

Lemma spec_commit_pair dir0 v st :
  spec (staged_at (Ready st) st) (commit_pair (in_directory dir0) p id v) Committed (Inv and_target).
Proof using HB Hc Hp Hid laws hex.
  unfold commit_pair. eapply spec_bind; [apply spec_attempt, spec_commit_transaction|]. intros r.
  set (P := fun fs => match r with Ok m => Committed m fs | Err _ => Inv and_target fs end).
  assert (Hrm : spec P remove_stage (fun _ => P) P).
  { apply spec_sys; [done|]. intros fs Hx. unfold P in *. destruct r; [by apply committed_stage|by apply inv_stage]. }
  eapply (spec_bind _ _ _ (fun _ => P)).
  { eapply spec_conseq; [apply (spec_attempt _ _ _ _ Hrm)|done|by intros [] fs|].
    intros fs. unfold P. destruct r as [m|]; [|done]. intros (_&Ht&Hpub).
    apply (InvActive _ fs B (target_bundle B p) m.(members) Ht). revert Hpub. apply on_disks_impl. by intros ??? [(?&_) _]. }
  intros u w Hw. unfold P in Hw. destruct r; done.
Qed.

(** ** A committed update *)

(** The transaction can be undone, and all disks agree on what is seen. *)
Definition LiveR (ms : list MarkerMember) : Rel := fun ino dir d =>
  Active ms B ino dir d /\ forall e, e ∈ ms -> link_new ino e dir d.

Definition Live (m : Marker) (fs : Fs) : Prop :=
  well_formed m /\ takes and_target B (target_bundle B p) m.(members) /\ on_disks (LiveR m.(members)) fs.

Lemma committed_live m fs : Committed m fs -> Live m fs.
Proof.
  intros (Hwf&Ht&Hpub). split_and!; [done..|]. revert Hpub. apply on_disks_impl. intros ino dir d [(Ha&_) ->] _.
  split; [done|]. intros. apply link_new_refl.
Qed.
Lemma live_inv m fs : Live m fs -> Inv and_target fs.
Proof.
  intros (_&Ht&Hl). apply (InvActive _ fs B (target_bundle B p) m.(members) Ht). revert Hl. apply on_disks_impl. by intros ??? [? _].
Qed.
Lemma live_phase m phase fs : Live m fs <-> Live (with_phase phase m) fs.
Proof. split; intros ([]&Ht&Hl); by split_and!. Qed.

Lemma liveR_write_marker ms (S : Inodes -> Entries -> Prop) m :
  marker_ok ms -> well_formed m -> m.(members) = ms ->
  (forall ino ino' dir, kept ino ino' -> S ino dir -> S ino' dir) ->
  (forall ino dir dir', (forall e, e ∈ ms -> dir' !! canonical e = dir !! canonical e) -> S ino dir -> S ino dir') ->
  spec (on_disks (fun ino dir d => LiveR ms ino dir d /\ S ino dir)) (write_marker m)
    (fun _ => on_disks (settled (fun ino dir d => LiveR ms ino dir d /\ S ino dir))) (on_disks (LiveR ms)).
Proof using laws.
  intros Hok Hwf Hm HSk HSl.
  assert (Hloc : local (fun ino dir d => LiveR ms ino dir d /\ S ino dir)).
  { intros ino dir dir' d d' Hdir Hd [[Ha Hl] Hs]. split; [split|].
    - eapply active_local; eauto.
    - intros e He. specialize (Hl e He). unfold link_new in *.
      by rewrite (agree_canonical _ _ e Hd), (agree_canonical _ _ e Hdir), (agree_backup _ _ _ _ Hok Hd He), (agree_backup _ _ _ _ Hok Hdir He).
    - eapply HSl; [|exact Hs]. intros e _. by apply agree_canonical. }
  apply spec_write_marker; [|done|done|..].
  - intros ino ino' dir d Hk [[Ha0 _] _] [[Ha Hl] Hs]. split; [split|by eapply HSk].
    + by eapply active_monotone.
    + intros e He. eapply link_new_kept; [done| |by apply Hl]. by eapply active_known.
  - intros ino dir d i text Henc Hi _ [[Ha Hl] Hs].
    destruct (active_mark ms B ino dir d i text Hok Hi) as [H1 H2]; [|done|].
    { intros m0 Hd. rewrite (decode_of_encoding _ _ _ Hwf Henc Hd). auto. }
    assert (Hs' : S ino (<[MARKER_NAME := i]> dir)) by (eapply HSl; [|exact Hs]; intros; apply mark_file).
    assert (Hl' : forall e, e ∈ ms -> link_new ino e (<[MARKER_NAME := i]> dir) d /\ link_new ino e (<[MARKER_NAME := i]> dir) (<[MARKER_NAME := i]> d)).
    { intros e He. specialize (Hl e He). unfold link_new, canonical in *. by rewrite !mark_file, !(mark_backup i _ ms e Hok He). }
    split; (split; [split|done]); [done|by intros; apply Hl'|done|by intros; apply Hl'].
  - intros fs. apply on_disks_impl. by intros ??? [? _].
  - intros fs. apply on_disks_impl. by intros ??? [? _].
Qed.

Lemma spec_set_phase m phase : spec (Live m) (set_phase m phase) (fun m' fs => m' = with_phase phase m /\ Live m' fs) (Live m).
Proof using laws.
  apply spec_start. intros fs0 (Hwf&Ht&Hl). assert (Hok := takes_ok _ _ _ _ Ht).
  unfold set_phase. eapply spec_bind.
  - eapply spec_conseq; [apply (liveR_write_marker m.(members) (fun _ _ => True) (with_phase phase m) Hok (well_formed_phase _ _ Hwf) eq_refl)| |intros u fs Hx; exact Hx|]; try done.
    intros fs ->. revert Hl. apply on_disks_impl. done.
  - intros u. apply spec_ret. intros fs Hx. split; [done|]. split_and!; [by apply well_formed_phase|done|].
    revert Hx. apply on_disks_impl. by intros ??? [[? _] _].
Qed.

Lemma spec_rollback_committed dir0 m :
  spec (Live m) (rollback_marker (in_directory dir0) m) (fun _ => on_disks (settled (QuietN and_target B))) (Inv and_target).
Proof using laws.
  apply spec_start. intros fs0 (Hwf&Ht&Hl). assert (Hok := takes_ok _ _ _ _ Ht).
  eapply spec_conseq; [apply (active_rollback and_target _ Hok dir0 B _ m Ht Hwf eq_refl)| |done|done].
  intros fs ->. revert Hl. apply on_disks_impl. by intros ??? [? _].
Qed.

(** What [matches_target] saw is there. *)
Lemma live_seen m fs :
  Live m fs -> (forall e, e ∈ m.(members) -> opens fs.(fs_inodes) (fs.(fs_dir) !! canonical e) e.(target_digest)) ->
  seen_new m.(members) fs.(fs_inodes) fs.(fs_dir).
Proof.
  intros (_&_&Hl) Ho e He. destruct (on_disks_dir _ _ Hl) as [Ha _].
  destruct (active_known _ _ _ _ _ Ha e He) as [Hn|[h Hh]]; [|by eapply opens_is; eauto].
  destruct (Ho e He) as (?&?&?&?&_). congruence.
Qed.

Lemma reads_verify_target_pair dir0 m :
  reads (verify_target_pair (in_directory dir0) m)
    (fun _ fs => forall e, e ∈ m.(members) -> opens fs.(fs_inodes) (fs.(fs_dir) !! canonical e) e.(target_digest)).
Proof.
  unfold verify_target_pair. eapply reads_bind; [apply reads_matches_target|]. intros []; [apply reads_ret; auto|apply reads_fail].
Qed.

Lemma spec_finalize dir0 m :
  spec (Live m) (finalize (in_directory dir0) m) (fun _ => on_disks (settled (QuietN and_target (target_bundle B p)))) (Inv and_target).
Proof using laws.
  unfold finalize. eapply spec_read; [apply reads_verify_target_pair|apply live_inv|]. intros u0.
  apply spec_start. intros fs0 [Hlive Ho]. assert (Hseen := live_seen m fs0 Hlive Ho). destruct Hlive as (Hwf&Ht&Hl).
  assert (Hok := takes_ok _ _ _ _ Ht). set (mf := with_phase Finalizing m).
  eapply (spec_bind _ _ _ (fun m' fs => m' = mf /\ on_disks (Final m.(members) B) fs)).
  { unfold set_phase. eapply spec_bind.
    - eapply spec_conseq; [apply (liveR_write_marker m.(members) (seen_new m.(members)) mf Hok (well_formed_phase _ _ Hwf) eq_refl)|..|].
      + intros ino ino' dir Hk Hs e He. eapply digest_is_kept; [done|by apply Hs].
      + intros ino dir dir' Hd Hs e He. rewrite Hd by done. by apply Hs.
      + intros fs ->. destruct Hl as (?&?&?&HR). split_and!; auto.
      + intros u fs Hx. exact Hx.
      + intros fs Hx. by apply (live_inv m).
    - intros u. apply spec_ret. intros fs Hx. split; [done|]. revert Hx. apply on_disks_impl. intros ino dir d [[[Ha Hln] Hs] ->] _.
      by apply active_final. }
  intros m'. apply spec_start. intros fs1 [-> Hfin].
  assert (HI : forall fs, on_disks (Final m.(members) B) fs -> Inv and_target fs) by (intros fs; by apply (InvFinal _ fs B (target_bundle B p) m.(members))).
  eapply spec_bind.
  { eapply spec_conseq; [apply (spec_remove_backups m.(members) Hok (Final m.(members) B) (Inv and_target) mf eq_refl HI)|by intros fs ->|intros u fs Hx; exact Hx|done].
    intros e ino dir d He _ _ Hd. by apply final_drop_backup. }
  intros u1. eapply (spec_bind _ _ _ (fun _ => on_disks (QuietN and_target (target_bundle B p)))).
  { apply spec_io, spec_remove_file.
    - intros fs Hx. apply HI. revert Hx. apply on_disks_impl. by intros ??? [[? _] _].
    - intros ino dir d _ _ [[Hf Hg] ->]. apply drop_marker. by eapply final_finished. }
  intros u2. apply spec_sync_dir. intros fs Hx. apply (InvQuiet _ fs (target_bundle B p)); [by right|].
  revert Hx. apply on_disks_impl. by intros ??? [].
Qed.
End Commit.

(** ** Admission *)

(** Reading parts whose result does not matter. *)
Lemma reads_any_bind {A C} (m : UpdM A) (k : A -> UpdM C) :
  reads m (fun _ _ => True) -> (forall a, reads (k a) (fun _ _ => True)) -> reads (st_bind m k) (fun _ _ => True).
Proof. intros Hm Hk. eapply reads_bind; [exact Hm|]. intros a. eapply reads_conseq; [apply Hk|done]. Qed.
Lemma reads_any_refuse b e : reads (refuse_if b e) (fun _ _ => True).
Proof. eapply reads_conseq; [apply reads_refuse|done]. Qed.
Lemma reads_any_metadata op n : reads (io op (symlink_metadata n)) (fun _ _ => True).
Proof. apply reads_io, reads_sys. intros fs. by destruct (find_node fs n) as [[]|]. Qed.
Lemma reads_any_installed n : reads (installed_metadata n) (fun _ _ => True).
Proof. eapply reads_conseq; [apply reads_installed_metadata|done]. Qed.
Lemma reads_any_each {A} (f : A -> UpdM unit) l : (forall a, reads (f a) (fun _ _ => True)) -> reads (each f l) (fun _ _ => True).
Proof. intros Hf. eapply reads_conseq; [apply (reads_each _ (fun _ _ => True)); auto|done]. Qed.

Lemma reads_validate_for_recovery l : reads (validate_for_recovery l) (fun _ _ => True).
Proof.
  apply reads_any_bind.
  - apply reads_any_bind; [by apply reads_io, reads_sys|]. intros md. apply reads_any_bind; [|intros u]; apply reads_any_refuse.
  - intros u. apply reads_any_each. intros m. apply reads_any_bind; [apply reads_any_installed|]. intros [md|]; [|by apply reads_ret].
    apply reads_any_bind; [apply reads_any_metadata|]. intros md'. apply reads_any_bind; [|intros u']; apply reads_any_refuse.
Qed.

Definition present_at (fs : Fs) (b : bool) (n : string) : Prop := if b then is_Some (fs.(fs_dir) !! n) else nothing_at fs n.

(** Admission checks that the bundle is one the installer knows. *)
Lemma reads_validate dir0 :
  reads (validate (in_directory dir0)) (fun _ fs => exists c t,
    present_at fs c (file_name Cli) /\ present_at fs c (file_name Daemon) /\ present_at fs t (file_name Tui) /\ (c = false -> t = false)).
Proof.
  unfold validate. eapply reads_bind; [apply reads_validate_for_recovery|]. intros u.
  eapply reads_bind; [apply reads_installed_metadata|]. intros cli. eapply reads_bind; [apply reads_installed_metadata|]. intros daemon.
  eapply reads_bind; [apply reads_installed_metadata|]. intros tui. eapply reads_bind; [apply reads_refuse|]. intros u1.
  eapply reads_conseq.
  { apply reads_any_each. intros m. apply reads_any_bind; [apply reads_any_installed|]. intros [md|]; [|by apply reads_ret].
    apply reads_any_bind; [|intros u2]; apply reads_any_refuse. }
  intros ? fs _ Hg Htui Hd Hcl _. exists (bool_decide (is_Some cli)), (bool_decide (is_Some tui)).
  apply orb_false_iff in Hg as [Hcd%negb_false_iff%bool_decide_eq_true Hct].
  split_and!; [by destruct cli|rewrite Hcd; by destruct daemon|by destruct tui|].
  intros Hf. rewrite Hf in Hct. done.
Qed.

Lemma admitted_coherent H B fs :
  on_disks (QuietN H B) fs ->
  (exists c t, present_at fs c (file_name Cli) /\ present_at fs c (file_name Daemon) /\ present_at fs t (file_name Tui) /\ (c = false -> t = false)) ->
  coherent_bundle B.
Proof.
  intros Hq (c&t&Hc&Hd&Htu&Hct). destruct (on_disks_dir _ _ Hq) as [(Hb&_) _].
  assert (Hyes : forall m, is_Some (fs.(fs_dir) !! file_name m) -> is_Some (B m)).
  { intros m Hs. specialize (Hb m). destruct (B m); [done|]. simpl in Hb. rewrite Hb in Hs. by destruct Hs. }
  assert (Hno : forall m, nothing_at fs (file_name m) -> B m = None).
  { intros m Hn%(nothing_none _ _ _ Hq). specialize (Hb m). destruct (B m); [|done]. destruct Hb as (?&?&?&_). congruence. }
  destruct c; simpl in *.
  - split; [split; intros _; [by apply (Hyes Daemon)|by apply (Hyes Cli)]|]. intros HN. destruct (Hyes Cli Hc) as [? ?]. congruence.
  - rewrite (Hct eq_refl) in Htu. split; [|by intros _; apply (Hno Tui)]. rewrite (Hno Cli Hc), (Hno Daemon Hd). done.
Qed.

Lemma inv_new_file H n mode fs : ~ relevant n -> Inv H fs -> Inv H (with_dirs (<[n := fs.(fs_next)]>) (with_new (new_file mode) fs)).
Proof.
  intros Hn.
  assert (Hgo : forall R, monotone R -> local R -> on_disks R fs -> on_disks R (with_dirs (<[n := fs.(fs_next)]>) (with_new (new_file mode) fs))).
  { intros R Hm Hl Hfs. eapply on_disks_insert; [by apply on_disks_new|simpl; by rewrite lookup_insert_eq|]. intros d _ Hd.
    split; (eapply Hl; [..|exact Hd]); eauto using agree_irrelevant_insert, agree_refl. }
  intros [B HB Hq|B BT ms Ht Ha|B BT ms Ht Hf].
  - apply (InvQuiet H _ B HB), Hgo; [apply quiet_monotone|apply quiet_local|done].
  - apply (InvActive H _ B BT ms Ht), Hgo; [apply active_monotone|apply active_local, Ht|done].
  - apply (InvFinal H _ B BT ms Ht), Hgo; [apply final_monotone|apply final_local, Ht|done].
Qed.

Definition Acquired (H : Bundle -> Prop) (fs : Fs) : Prop := exists B, H B /\ coherent_bundle B /\ on_disks (QuietN H B) fs.

Lemma spec_acquire H dir0 : spec (Inv H) (acquire (in_directory dir0)) (fun _ => Acquired H) (Inv H).
Proof using laws.
  unfold acquire. eapply (spec_read _ _ _ (fun _ _ => True)); [|done|].
  { apply reads_any_bind; [eapply reads_conseq; [apply reads_io, reads_path_exists|done]|]. intros []; [apply reads_validate_for_recovery|].
    eapply reads_conseq; [apply reads_validate|done]. }
  intros u0. eapply spec_read; [apply reads_metadata|naive_solver|]. intros linked.
  eapply spec_read; [apply reads_refuse|naive_solver|]. intros u1.
  eapply (spec_bind _ _ _ (fun _ => Inv H)).
  { apply spec_io, spec_sys; [naive_solver|]. intros fs [[[Hi _] _] _]. destruct (fs_dir fs !! LOCK_NAME) as [i|]; [by destruct (is_directory fs i)|].
    apply inv_new_file; [apply lock_irrelevant|done]. }
  intros lock. eapply (spec_read _ _ _ (fun _ _ => True)); [|done|].
  { apply reads_io, reads_sys. intros fs. by destruct (fs_inodes fs !! lock). }
  intros md. eapply spec_read; [apply reads_any_refuse|naive_solver|]. intros u2.
  eapply (spec_read _ _ _ (fun _ _ => True)); [|naive_solver|].
  { eapply reads_conseq; [by apply reads_attempt, (reads_sys _ (fun _ _ => True))|done]. }
  intros locked. eapply (spec_read _ _ _ (fun _ _ => True)); [|naive_solver|].
  { destruct locked; [by apply reads_ret|apply reads_fail]. }
  intros u3. eapply spec_bind; [eapply spec_conseq; [apply (spec_recover_pending H dir0)|naive_solver|intros u fs Hx; exact Hx|done]|].
  intros u4. eapply spec_conseq; [apply (spec_reads _ _ _ (reads_validate dir0))|done|..|apply recovered_inv].
  intros u5 fs [(B&HB&Hq) Hp]. exists B. split_and!; [done| |done]. by eapply admitted_coherent.
Qed.
End Api.
