(* ===== verification/UpdateRestart.v ===== *)
(** * Restarting the daemon after an update (haider-cli update/restart.rs)

    The restart coordination over the committed transaction.  What the network,
    the process table and the clock show is an argument: each polling loop reads
    a finite list of observations, whose end is its deadline.  Signals, to the
    incumbent and to the children that are started, are recorded in the world,
    so that who is signalled, and when, is a statement about runs. *)

From S2P Require Import Prelude RustStr EffectTypes Json Envelope UpdateFs UpdateMarker Update.

Local Open Scope st_scope.
Local Open Scope string_scope.

(** ** What is observed *)

Record Welcome := {
  lifecycle_ready : bool;
  profile_id : string;
  features : list string;
  daemon_version : string;
  instance_id : string;
  daemon_generation : N
}.
Record Connected := { welcome : Welcome; peer_uid : N; peer_pid : option N; takes_events : bool }.

(** [ConnectError]: nothing listens there, or anything else. *)
Inductive Connection := Reached (c : Connected) | Absent (spawnable : bool) (error : string).

(** One turn of a health loop: the child's exit status, the connection, and
    whether the deadline is nearer than one more turn. *)
Record Poll := { exited : option string; connection : Connection; late : bool }.

(** Frames up to the drain notice, and how the stream ended without one. *)
Inductive DrainFrame := ServerDraining (instance : string) (generation : N) | OtherFrame.
Record Drain := { frames : list DrainFrame; timed_out : bool; disconnected : bool }.

Record Profile := { own_profile : string; own_uid : N; required : list string }.

(** ** Health *)

Definition validate_ready_welcome (w : Welcome) (profile : Profile) : result unit UpdateError :=
  (reject_if (negb w.(lifecycle_ready)) (Refused "current-profile daemon is not Ready") ?;
   reject_if (negb (String.eqb w.(profile_id) profile.(own_profile)))
     (Refused "daemon Welcome profile identity does not exactly match") ?;
   reject_if (negb (forallb (fun f => existsb (String.eqb f) w.(features)) profile.(required)))
     (Refused "daemon Welcome is missing required feature families"))%res.

Definition validate_new_health (c : Connected) (profile : Profile) (target old_instance : string) (old_generation child : N)
    : result unit string :=
  (map_err error_text (validate_ready_welcome c.(welcome) profile) ?;
   reject_if (negb (String.eqb c.(welcome).(daemon_version) target))
     ("Welcome daemon_version `" ++ c.(welcome).(daemon_version) ++ "` did not exactly match target `" ++ target ++ "`")%string ?;
   reject_if (String.eqb c.(welcome).(instance_id) old_instance) "updated daemon reused the old process instance identity" ?;
   reject_if (c.(welcome).(daemon_generation) <=? old_generation)%N "updated daemon generation did not increase" ?;
   reject_if (negb (bool_decide (c.(peer_pid) = Some child)) || negb (c.(peer_uid) =? profile.(own_uid))%N)
     "updated daemon peer credentials did not match the retained child")%res.

Fixpoint wait_for_exact_health (profile : Profile) (target old_instance : string) (old_generation child : N) (polls : list Poll)
    : result unit string :=
  match polls with
  | [] => Err "updated daemon did not become healthy before the deadline"
  | poll :: polls =>
      match poll.(exited) with
      | Some status => Err ("updated daemon exited before health: " ++ status)
      | None =>
          match poll.(connection) with
          | Reached c =>
              if negb c.(welcome).(lifecycle_ready) then
                if poll.(late) then Err "updated daemon did not reach Ready before the deadline"
                else wait_for_exact_health profile target old_instance old_generation child polls
              else validate_new_health c profile target old_instance old_generation child
          | Absent false error => Err ("updated daemon handshake failed: " ++ error)
          | Absent true _ =>
              if poll.(late) then Err "updated daemon did not become healthy before the deadline"
              else wait_for_exact_health profile target old_instance old_generation child polls
          end
      end
  end.

Fixpoint wait_for_version_health (profile : Profile) (version : string) (child : N) (polls : list Poll) : result unit string :=
  match polls with
  | [] => Err "old daemon did not become healthy before the deadline"
  | poll :: polls =>
      match poll.(exited) with
      | Some status => Err ("old daemon exited before health: " ++ status)
      | None =>
          match poll.(connection) with
          | Reached c =>
              if negb c.(welcome).(lifecycle_ready) then
                if poll.(late) then Err "old daemon did not reach Ready before the deadline"
                else wait_for_version_health profile version child polls
              else
                (map_err error_text (validate_ready_welcome c.(welcome) profile) ?;
                 reject_if (negb (String.eqb c.(welcome).(daemon_version) version) || negb (bool_decide (c.(peer_pid) = Some child)))
                   "old daemon Welcome version or peer PID did not match")%res
          | Absent false error => Err ("old daemon handshake failed: " ++ error)
          | Absent true _ =>
              if poll.(late) then Err "old daemon did not become healthy before the deadline"
              else wait_for_version_health profile version child polls
          end
      end
  end.

(** ** The incumbent daemon *)

Record Incumbent := { inc_instance : string; inc_generation : N; inc_pid : N }.

Definition incumbent_from_connected (profile : Profile) (c : Connected) : result Incumbent UpdateError :=
  (validate_ready_welcome c.(welcome) profile ?;
   reject_if (negb (c.(peer_uid) =? profile.(own_uid))%N) (Refused "daemon socket peer is not owned by this user") ?;
   let? pid := match c.(peer_pid) with
               | Some pid => if (pid =? 0)%N then Err (Refused "daemon socket did not expose an authenticated peer PID") else Ok pid
               | None => Err (Refused "daemon socket did not expose an authenticated peer PID")
               end in
   reject_if (negb c.(takes_events)) (Internal "update could not retain the daemon event stream") ?;
   Ok {| inc_instance := c.(welcome).(instance_id); inc_generation := c.(welcome).(daemon_generation); inc_pid := pid |})%res.

Definition detect_incumbent (profile : Profile) (c : Connection) : result (option Incumbent) UpdateError :=
  match c with
  | Reached c => (let? i := incumbent_from_connected profile c in Ok (Some i))%res
  | Absent true _ => Ok None
  | Absent false error => Err (Io ("cannot authenticate the current-profile daemon: " ++ error))
  end.

Fixpoint first_notice (l : list DrainFrame) : option (string * N) :=
  match l with
  | [] => None
  | ServerDraining instance generation :: _ => Some (instance, generation)
  | OtherFrame :: l => first_notice l
  end.

Definition wait_for_matching_drain (i : Incumbent) (d : Drain) : result unit UpdateError :=
  (let? notice := match first_notice d.(frames) with
                  | Some notice => Ok notice
                  | None =>
                      Err (RestartTimeout (if d.(timed_out)
                        then "daemon drain notice timed out; no second signal was sent and recovery assets remain"
                        else "daemon disconnected without a drain notice; recovery assets remain"))
                  end in
   reject_if (negb (bool_decide (notice = (i.(inc_instance), i.(inc_generation)))))
     (RestartTimeout "daemon drain notice did not match the authenticated Welcome; recovery assets remain") ?;
   reject_if (negb d.(disconnected))
     (RestartTimeout "daemon disconnect timed out; no second signal was sent and recovery assets remain"))%res.

(** Each look at the lock: held or not, or an error; and whether it was late. *)
Fixpoint wait_for_profile_lock (looks : list (result bool string * bool)) : result unit UpdateError :=
  match looks with
  | [] => Err (RestartTimeout "profile lock release timed out; no second signal was sent and recovery assets remain")
  | (Ok false, _) :: _ => Ok tt
  | (Err error, _) :: _ => Err (Io ("cannot prove profile lock release: " ++ error))
  | (Ok true, is_late) :: looks =>
      if is_late then Err (RestartTimeout "profile lock release timed out; no second signal was sent and recovery assets remain")
      else wait_for_profile_lock looks
  end.

(** ** The restart *)

(** What one restart observes, in the order it looks; [child_exited] is what
    [try_wait] says of the new child when it is to be stopped, and
    [old_child_exited] the same of the old daemon's child. *)
Record Observed := {
  still_connected : bool;
  drain : Drain;
  lock_after_drain : list (result bool string * bool);
  spawned : result N string;
  health : list Poll;
  child_exited : bool;
  lock_after_stop : list (result bool string * bool);
  old_spawned : result N string;
  old_health : list Poll;
  old_child_exited : bool
}.

Section Restart.
Context {sha256 : Sha256} {json : MarkerJson}.

(** A child that has not exited is killed, and its exit awaited; a failing call
    is ignored. *)
Definition stop_and_reap (child : N) (has_exited : bool) : UpdM unit := fun w =>
  if has_exited then (Ok tt, w)
  else
    match send_signal (Kill child) w with
    | (Err Died, w) => (Err Died, w)
    | (_, w) => (Ok tt, w)
    end.

Definition rollback_and_restart_old (l : InstallLayout) (m : Marker) (profile : Profile) (o : Observed) (health_error : string) : UpdM unit :=
  rollback_marker l m ;;;
  match o.(old_spawned) with
  | Err error => fail (Health ("updated daemon failed health (" ++ health_error ++ "); old daemon restart failed: " ++ error))
  | Ok child =>
      match wait_for_version_health profile m.(mk_old_version) child o.(old_health) with
      | Ok _ => fail (Health ("updated daemon failed health and the old pair was restored: " ++ health_error))
      | Err old_error =>
          stop_and_reap child o.(old_child_exited) ;;;
          fail (Health ("updated daemon failed health (" ++ health_error
                        ++ "); old pair restored but old daemon health failed (" ++ old_error ++ ")"))
      end
  end.

(** [SystemRestartHooks::signal]. *)
Definition signal (pid : N) : UpdM unit := fun w =>
  match send_signal (Terminate pid) w with
  | (Ok u, w) => (Ok u, w)
  | (Err (Failed e), w) => (Err (Failed (RestartTimeout ("SIGTERM failed: " ++ e.(io_text)))), w)
  | (Err Died, w) => (Err Died, w)
  end.

(** From the signal on: the incumbent drains and frees its profile, the new
    daemon takes over, or the old bundle does. *)
Definition take_over (l : InstallLayout) (m : Marker) (i : Incumbent) (profile : Profile) (o : Observed) : UpdM unit :=
  lift (wait_for_matching_drain i o.(drain)) ;;;
  lift (wait_for_profile_lock o.(lock_after_drain)) ;;;
  m <- set_phase m LockReleased ;;
  match o.(spawned) with
  | Err error => rollback_and_restart_old l m profile o ("cannot start updated daemon: " ++ error)
  | Ok child =>
      persisted <- attempt (set_phase m ChildSpawned) ;;
      match persisted with
      | Err error =>
          stop_and_reap child o.(child_exited) ;;;
          lift (wait_for_profile_lock o.(lock_after_stop)) ;;;
          rollback_and_restart_old l m profile o ("cannot persist child-spawned phase: " ++ error_text error)
      | Ok m =>
          match wait_for_exact_health profile m.(mk_target_version) i.(inc_instance) i.(inc_generation) child o.(health) with
          | Ok _ => finalize l m
          | Err health_error =>
              stop_and_reap child o.(child_exited) ;;;
              lift (wait_for_profile_lock o.(lock_after_stop)) ;;;
              rollback_and_restart_old l m profile o health_error
          end
      end
  end.

Definition restart_committed (l : InstallLayout) (m : Marker) (incumbent : option Incumbent) (profile : Profile) (o : Observed) : UpdM unit :=
  verify_target_pair l m ;;;
  match incumbent with
  | None => finalize l m
  | Some i =>
      m <- set_phase m DrainSignaled ;;
      refuse_if (negb o.(still_connected))
        (RestartTimeout "authenticated daemon connection closed before SIGTERM; no signal was sent and recovery assets remain") ;;;
      signal i.(inc_pid) ;;;
      take_over l m i profile o
  end.

(** ** Whole updates (update/mod.rs) *)

Context {faults : FaultInjector} {checks : HostChecks}.

(** From the admitted directory on: [run_update] and [install_embedded_bundle]
    with the connection they find, and [install_bundle_from_directory]. *)
Definition run_update (l : InstallLayout) (p : VerifiedStagedPair) (id version : string) (profile : Profile)
    (found : Connection) (o : Observed) : UpdM unit :=
  incumbent <- lift (detect_incumbent profile found) ;;
  m <- commit_pair l p id version ;;
  restart_committed l m incumbent profile o.

Definition install_bundle (l : InstallLayout) (p : VerifiedStagedPair) (id version : string) : UpdM unit :=
  m <- commit_pair l p id version ;;
  finalize l m.
End Restart.
