(* ===== verification/UpdateClaims.v ===== *)
(** * What an updater guarantees

    Histories of an install directory: any number of updates, each of which may
    fail or die at any system call, recoveries, and power losses in between.
    The theorems: a directory that is admitted holds one complete bundle, and a
    reported success is durable. *)

From S2P Require Import Prelude RustStr EffectTypes Json Envelope StrLaws UpdateFs UpdateMarker Update UpdateLogic UpdateSteps UpdateCommit UpdateRestart.

Section Claims.
Context {sha256 : Sha256} {json : MarkerJson} {laws : MarkerJsonLaws json} {hex : Sha256Hex sha256}
  {faults : FaultInjector} {checks : HostChecks}.

(** ** Histories *)

(** What is seen is the bundle [B]; every disk holds the bundle [B]. *)
Definition shows (B : Bundle) (fs : Fs) : Prop := forall m, is_at fs.(fs_inodes) (fs.(fs_dir) !! file_name m) (B m).
Definition stores (B : Bundle) (fs : Fs) : Prop :=
  forall d, d ∈ fs.(fs_disks) -> forall m, is_at fs.(fs_inodes) (d !! file_name m) (B m).

(** A sound directory: what is seen is on a disk, inodes are below the next
    one, and entries name inodes. *)
Definition sound : Fs -> Prop := on_disks (fun _ _ _ => True).

Definition installed (B : Bundle) (fs : Fs) : Prop :=
  sound fs /\ stores B fs /\ forall d, d ∈ fs.(fs_disks) -> d !! MARKER_NAME = None.

(** Staging adds files and never touches the install directory. *)
Record stages (fs fs' : Fs) : Prop := {
  stages_dir : fs'.(fs_dir) = fs.(fs_dir);
  stages_disks : fs'.(fs_disks) = fs.(fs_disks);
  stages_kept : kept fs.(fs_inodes) fs'.(fs_inodes);
  stages_there : forall i, is_Some (fs.(fs_inodes) !! i) -> is_Some (fs'.(fs_inodes) !! i);
  stages_next : forall i, is_Some (fs'.(fs_inodes) !! i) -> i < fs'.(fs_next)
}.

(** The pair is staged, and its transaction has names of its own. *)
Record ready (p : VerifiedStagedPair) (id : string) (fs : Fs) : Prop := {
  ready_pair : pair_ok p;
  ready_id : safe_transaction_id id = true;
  ready_files : stage_files fs.(fs_stage) fs.(fs_inodes);
  ready_names : forall d m, d ∈ fs.(fs_disks) -> d !! (backup_prefix m ++ id)%string = None
}.

Definition world (fs : Fs) (events : list Event) (signals : list Signal) : World :=
  {| w_fs := fs; w_events := events; w_signals := signals |}.

Section History.
Context (dir0 : string).

Inductive history : (Bundle -> Prop) -> Fs -> Prop :=
  | h_start B fs : installed B fs -> history (fun X => X = B) fs
  | h_acquire H fs events signals :
      history H fs -> history H (acquire (in_directory dir0) (world fs events signals)).2.(w_fs)
  | h_stage H fs fs' : history H fs -> stages fs fs' -> history H fs'
  | h_crash H fs fs' : history H fs -> Crash fs fs' -> history H fs'
  | h_update H fs events signals w B p id version profile found o :
      history H fs -> acquire (in_directory dir0) (world fs events signals) = (Ok tt, w) ->
      H B -> shows B w.(w_fs) -> ready p id w.(w_fs) ->
      history (and_target H B p) (run_update (in_directory dir0) p id version profile found o w).2.(w_fs)
  | h_install H fs events signals w B p id version :
      history H fs -> acquire (in_directory dir0) (world fs events signals) = (Ok tt, w) ->
      H B -> shows B w.(w_fs) -> ready p id w.(w_fs) ->
      history (and_target H B p) (install_bundle (in_directory dir0) p id version w).2.(w_fs).

(** *** The invariant of histories *)

Lemma takes_ext H B0 B B' ms : (forall m, B m = B' m) -> H B' -> takes H B0 B ms -> takes H B0 B' ms.
Proof.
  intros HE HB [? ? ? ? Hn Hr]. split; try done.
  - intros e He. rewrite <-HE. auto.
  - intros m Hm. rewrite <-HE. auto.
Qed.

Lemma quiet_ext H B B' ino dir d : (forall m, B m = B' m) -> H B' -> Quiet H B ino dir d -> Quiet H B' ino dir d.
Proof.
  intros HE HB (Hb&Hm&Hv). split_and!.
  - intros m. rewrite <-HE. apply Hb.
  - destruct Hm as [|(ms&Hm&Ha&Hd)]; [by left|]. right. exists ms. split; [done|]. split; [done|].
    destruct Hd as [[Hok Ho]|[B0 Ht]]; [left|right].
    + split; [done|]. intros e He. rewrite <-HE. auto.
    + exists B0. by eapply takes_ext.
  - intros Hs. destruct (Hv Hs) as (ms&?&?&He). exists ms. split_and!; [done..|]. intros e Hin. rewrite <-HE. auto.
Qed.

Lemma shows_unique B B' fs : shows B fs -> shows B' fs -> forall m, B m = B' m.
Proof.
  intros HB HB' m. specialize (HB m). specialize (HB' m). destruct (B m), (B' m); simpl in *; [|..|done].
  - f_equal. by eapply digest_is_unique.
  - destruct HB as (?&?&?&_). congruence.
  - destruct HB' as (?&?&?&_). congruence.
Qed.

Lemma quiet_shows H B fs : on_disks (QuietN H B) fs -> shows B fs /\ stores B fs /\ fs.(fs_dir) !! MARKER_NAME = None.
Proof.
  intros Hq. destruct (on_disks_dir _ _ Hq) as [(Hb&_) Hn]. destruct Hq as (_&_&_&HR). split_and!; [done| |done].
  intros d Hd. by destruct (HR d Hd) as [(?&_) _].
Qed.

Lemma settled_shows H B fs :
  on_disks (settled (QuietN H B)) fs ->
  shows B fs /\ (forall d, d ∈ fs.(fs_disks) -> d = fs.(fs_dir)) /\ fs.(fs_dir) !! MARKER_NAME = None.
Proof.
  intros Hq. destruct (on_disks_dir _ _ Hq) as [[(Hb&_) Hn] _]. split_and!; [done| |done].
  destruct Hq as (_&_&_&HR). intros d Hd. by destruct (HR d Hd) as [_ ->].
Qed.

Lemma inv_stages H fs fs' : Inv H fs -> stages fs fs' -> Inv H fs'.
Proof.
  intros Hi [Hd Hds Hk Ht Hn].
  assert (Hgo : forall R, monotone R -> on_disks R fs -> on_disks R fs').
  { intros R Hm (H1&_&H3&H4). unfold on_disks. rewrite Hd, Hds. split_and!; [done|done|eauto|eauto]. }
  destruct Hi as [B HB Hq|B BT ms Htk Ha|B BT ms Htk Hf].
  - apply (InvQuiet H _ B HB), Hgo; [apply quiet_monotone|done].
  - apply (InvActive H _ B BT ms Htk), Hgo; [apply active_monotone|done].
  - apply (InvFinal H _ B BT ms Htk), Hgo; [apply final_monotone|done].
Qed.

(** What [acquire] leaves for the update that follows it. *)
Lemma acquired_ready H B w p id :
  Acquired H w.(w_fs) -> H B -> shows B w.(w_fs) -> ready p id w.(w_fs) ->
  coherent_bundle B /\ staged_at (Ready H B id w.(w_fs).(fs_stage)) w.(w_fs).(fs_stage) w.(w_fs).
Proof.
  intros (B'&HB'&Hc&Hq) HB Hs [Hp Hid Hf Hn]. destruct (quiet_shows _ _ _ Hq) as (Hs'&_&_).
  assert (HE := shows_unique _ _ _ Hs' Hs). split.
  - destruct Hc as [Hc1 Hc2]. split; rewrite <-!HE; done.
  - split; [|done]. destruct Hq as (?&?&?&HR). split_and!; [done..|]. intros d Hd. destruct (HR d Hd) as [Hqd Hm].
    split_and!; [|done|by intros m; apply Hn]. split; [|done]. by eapply quiet_ext.
Qed.

Lemma reads_stop child has_exited R (P : Fs -> Prop) :
  (forall fs, P fs -> R fs) -> spec P (stop_and_reap child has_exited) (fun _ => P) R.
Proof.
  intros HR w Hw. unfold stop_and_reap, send_signal, sys. destruct has_exited; [done|].
  destruct (w_events w) as [|[]]; simpl; auto.
Qed.

Lemma spec_rollback_and_restart H B p m profile o text :
  spec (Live H B p m) (rollback_and_restart_old (in_directory dir0) m profile o text) (fun _ _ => False) (Inv (and_target H B p)).
Proof using laws.
  unfold rollback_and_restart_old. eapply (spec_bind _ _ _ (fun _ => Inv (and_target H B p))).
  - apply spec_start. intros fs0 Hl. assert (HB : and_target H B p B) by (destruct Hl as (_&Ht&_); apply Ht).
    eapply spec_conseq; [apply spec_rollback_committed|by intros fs ->| |done].
    intros ? fs Hq. apply (InvQuiet _ fs B HB). revert Hq. apply on_disks_impl. by intros ??? [[? _] _].
  - intros u. destruct (old_spawned o) as [child|]; [destruct (wait_for_version_health _ _ _ _)|]; try (intros w Hw; exact Hw).
    eapply spec_bind; [by apply reads_stop|]. intros u' w Hw. exact Hw.
Qed.

Lemma reads_signal pid R (P : Fs -> Prop) : (forall fs, P fs -> R fs) -> spec P (signal pid) (fun _ => P) R.
Proof.
  intros HR w Hw. unfold signal, send_signal, sys. destruct (w_events w) as [|[]]; simpl; auto.
Qed.

Lemma spec_lift {A} (r : result A UpdateError) (P X : Fs -> Prop) : (forall fs, P fs -> X fs) -> spec P (lift r) (fun _ => P) X.
Proof. intros HX w Hw. unfold lift, st_lift. destruct r; simpl; auto. Qed.

Definition Target (H : Bundle -> Prop) (B : Bundle) (p : VerifiedStagedPair) : Fs -> Prop :=
  on_disks (settled (QuietN (and_target H B p) (target_bundle B p))).

Lemma spec_restart H B p m incumbent profile o :
  spec (Live H B p m) (restart_committed (in_directory dir0) m incumbent profile o) (fun _ => Target H B p) (Inv (and_target H B p)).
Proof using laws.
  assert (HI : forall m fs, Live H B p m fs -> Inv (and_target H B p) fs) by (intros; by eapply live_inv).
  unfold restart_committed, take_over. eapply (spec_read _ _ _ (fun _ _ => True)); [eapply reads_conseq; [apply reads_verify_target_pair|done]|apply HI|].
  intros u0. destruct incumbent as [i|]; [|eapply spec_conseq; [apply spec_finalize|naive_solver|done|done]].
  eapply spec_bind; [eapply spec_conseq; [apply (spec_set_phase H B p m DrainSignaled)|naive_solver|intros m' fs Hx; exact Hx|apply HI]|].
  intros m1. eapply (spec_bind _ _ _ (fun _ => Live H B p m1)); [eapply spec_conseq; [apply (spec_lift (reject_if _ _) (Live H B p m1)), HI|naive_solver|done|done]|].
  intros u1. eapply spec_bind; [apply reads_signal, HI|]. intros u2.
  eapply spec_bind; [apply spec_lift, HI|]. intros u3. eapply spec_bind; [apply spec_lift, HI|]. intros u4.
  eapply spec_bind; [eapply spec_conseq; [apply (spec_set_phase H B p m1 LockReleased)|done|intros m' fs Hx; exact Hx|apply HI]|].
  intros m2. destruct (spawned o) as [child|error].
  - assert (Hph := spec_set_phase H B p m2 ChildSpawned).
    eapply spec_bind; [eapply spec_conseq; [apply (spec_attempt _ _ _ _ Hph)|naive_solver|intros r fs Hx; exact Hx|apply HI]|].
    intros [m3|error]; cbn beta iota.
    + destruct (wait_for_exact_health _ _ _ _ _ _).
      * eapply spec_conseq; [apply spec_finalize|naive_solver|done|done].
      * eapply (spec_bind _ _ _ (fun _ => Live H B p m3)); [eapply spec_conseq; [apply (reads_stop _ _ _ (Live H B p m3)), HI|naive_solver|done|done]|].
        intros us. eapply (spec_bind _ _ _ (fun _ => Live H B p m3)); [apply spec_lift, HI|].
        intros u5. eapply spec_conseq; [apply spec_rollback_and_restart|done|done|done].
    + eapply (spec_bind _ _ _ (fun _ => Live H B p m2)); [apply reads_stop, HI|].
      intros us. eapply (spec_bind _ _ _ (fun _ => Live H B p m2)); [apply spec_lift, HI|].
      intros u5. eapply spec_conseq; [apply spec_rollback_and_restart|done|done|done].
  - eapply spec_conseq; [apply (spec_rollback_and_restart H B p m2)|naive_solver|done|done].
Qed.

Lemma target_inv H B p fs : Target H B p fs -> Inv (and_target H B p) fs.
Proof.
  intros Hq. apply (InvQuiet _ fs (target_bundle B p)); [by right|]. revert Hq. apply on_disks_impl. by intros ??? [[? _] _].
Qed.

Lemma spec_run_update H B p id version profile found o st :
  H B -> coherent_bundle B -> pair_ok p -> safe_transaction_id id = true ->
  spec (staged_at (Ready H B id st) st) (run_update (in_directory dir0) p id version profile found o)
    (fun _ => Target H B p) (Inv (and_target H B p)).
Proof using laws hex.
  intros HB Hc Hp Hid. unfold run_update. eapply spec_bind.
  - apply spec_lift. intros fs [Hfs _]. apply (InvQuiet _ fs B); [by left|]. revert Hfs. apply on_disks_impl. intros ino dir d ([Hq _]&_) _.
    eapply quiet_extend; [|exact Hq]. intros X ?. by left.
  - intros incumbent. eapply spec_bind; [by apply spec_commit_pair|]. intros m.
    eapply spec_conseq; [apply spec_restart|apply committed_live|done|done].
Qed.

Lemma spec_install_bundle H B p id version st :
  H B -> coherent_bundle B -> pair_ok p -> safe_transaction_id id = true ->
  spec (staged_at (Ready H B id st) st) (install_bundle (in_directory dir0) p id version)
    (fun _ => Target H B p) (Inv (and_target H B p)).
Proof using laws hex.
  intros HB Hc Hp Hid. unfold install_bundle. eapply spec_bind; [by apply spec_commit_pair|]. intros m.
  eapply spec_conseq; [apply spec_finalize|apply committed_live|done|done].
Qed.

Lemma history_inv H fs : history H fs -> Inv H fs.
Proof using laws hex.
  induction 1 as [B fs Hi|H fs events signals _ IH|H fs fs' _ IH Hs|H fs fs' _ IH Hc
    |H fs events signals w B p id version profile found o _ IH Ha HB Hs Hr|H fs events signals w B p id version _ IH Ha HB Hs Hr].
  - destruct Hi as ((H1&H2&H3&_)&Hst&Hn). apply (InvQuiet (fun X => X = B) fs B eq_refl). split_and!; [done..|]. intros d Hd. split_and!; [by apply Hst|left; auto|].
    rewrite (Hn _ H1). by intros [].
  - pose proof (spec_acquire H dir0 (world fs events signals) IH) as Hq. destruct (acquire _ _) as [[u|e] w]; simpl in *; [|done].
    destruct Hq as (B&HB&_&Hq). apply (recovered_inv H). by exists B.
  - by eapply inv_stages.
  - by eapply inv_crash.
  - pose proof (spec_acquire H dir0 (world fs events signals) IH) as Hq. rewrite Ha in Hq.
    destruct (acquired_ready _ _ _ _ _ Hq HB Hs Hr) as [Hc Hrd].
    pose proof (spec_run_update H B p id version profile found o _ HB Hc (ready_pair _ _ _ Hr) (ready_id _ _ _ Hr) w Hrd) as Hx.
    destruct (run_update _ _ _ _ _ _ _ w) as [[u|e] w']; simpl in *; [by apply target_inv|done].
  - pose proof (spec_acquire H dir0 (world fs events signals) IH) as Hq. rewrite Ha in Hq.
    destruct (acquired_ready _ _ _ _ _ Hq HB Hs Hr) as [Hc Hrd].
    pose proof (spec_install_bundle H B p id version _ HB Hc (ready_pair _ _ _ Hr) (ready_id _ _ _ Hr) w Hrd) as Hx.
    destruct (install_bundle _ _ _ _ w) as [[u|e] w']; simpl in *; [by apply target_inv|done].
Qed.

(** C15: Updates are atomic.  Take any history of an install directory: updates
    and package installations with any observations, recoveries, each stopped
    by an error or by the death of its process at any system call, and power
    losses after which each directory operation since the last sync may be
    missing on its own.  Whenever the directory is admitted again, it is one
    complete bundle: the one it started with, or the target of an update laid
    over one of them; it is that bundle on every directory the disk may hold,
    no member is of another release, and no marker is left. *)
Theorem update_atomic H fs events signals w :
  history H fs -> acquire (in_directory dir0) (world fs events signals) = (Ok tt, w) ->
  exists B, H B /\ coherent_bundle B /\ shows B w.(w_fs) /\ stores B w.(w_fs) /\ w.(w_fs).(fs_dir) !! MARKER_NAME = None.
Proof using laws hex.
  intros Hh Ha. pose proof (spec_acquire H dir0 (world fs events signals) (history_inv H fs Hh)) as Hq. rewrite Ha in Hq.
  destruct Hq as (B&HB&Hc&Hq). exists B. destruct (quiet_shows _ _ _ Hq) as (?&?&?). by split_and!.
Qed.

(** C16: A reported update is durable.  If an update of an admitted directory
    returns success, whatever failed on the way, the installed bundle is the
    old one with every member of the release replaced by the verified staged
    bytes, on every directory the disk may hold, and no marker is left. *)
Theorem update_durable H fs events signals w B p id version profile found o w' :
  history H fs -> acquire (in_directory dir0) (world fs events signals) = (Ok tt, w) -> H B -> shows B w.(w_fs) ->
  ready p id w.(w_fs) -> run_update (in_directory dir0) p id version profile found o w = (Ok tt, w') ->
  shows (target_bundle B p) w'.(w_fs) /\ (forall d, d ∈ w'.(w_fs).(fs_disks) -> d = w'.(w_fs).(fs_dir)) /\
  w'.(w_fs).(fs_dir) !! MARKER_NAME = None.
Proof using laws hex.
  intros Hh Ha HB Hs Hr Hu. pose proof (spec_acquire H dir0 (world fs events signals) (history_inv H fs Hh)) as Hq. rewrite Ha in Hq.
  destruct (acquired_ready _ _ _ _ _ Hq HB Hs Hr) as [Hc Hrd].
  pose proof (spec_run_update H B p id version profile found o _ HB Hc (ready_pair _ _ _ Hr) (ready_id _ _ _ Hr) w Hrd) as Hx.
  rewrite Hu in Hx. by apply settled_shows in Hx.
Qed.

End History.
End Claims.

(** * What a run of an updater does to the running daemon

    Runs of [run_update] beyond the install directory: which process is
    signalled and when, what a reported success says of the new daemon, and
    that a reported health failure restored the old bundle. *)


Section Runs.
Context {sha256 : Sha256} {json : MarkerJson} {laws : MarkerJsonLaws json} {hex : Sha256Hex sha256}
  {faults : FaultInjector} {checks : HostChecks}.

(** ** Parts that send no signal *)

(** No signal is sent, and errors satisfy [ok]. *)
Definition calm {E A} (ok : E -> Prop) (m : ST World (Halt E) A) : Prop :=
  forall w, (m w).2.(w_signals) = w.(w_signals) /\ match (m w).1 with Err (Failed e) => ok e | _ => True end.

Definition not_health (e : UpdateError) : Prop := match e with Health _ => False | _ => True end.

Lemma calm_ret {E A} (ok : E -> Prop) (a : A) : calm ok (st_ret a).
Proof. done. Qed.
Lemma calm_bind {E A C} (ok : E -> Prop) (m : ST World (Halt E) A) (k : A -> ST World (Halt E) C) :
  calm ok m -> (forall a, calm ok (k a)) -> calm ok (st_bind m k).
Proof.
  intros Hm Hk w. specialize (Hm w). unfold st_bind. destruct (m w) as [[a|e] w']; simpl in *; [|done].
  specialize (Hk a w'). destruct Hm as [<- _]. done.
Qed.
Lemma calm_attempt {E A} (ok : E -> Prop) ok' (m : ST World (Halt E) A) : calm ok m -> calm ok' (attempt m).
Proof. intros Hm w. specialize (Hm w). unfold attempt. by destruct (m w) as [[a|[]] w']; destruct Hm. Qed.

(** The error that was caught is one of the body's. *)
Lemma calm_attempt_bind {E A C} (ok : E -> Prop) ok' (m : ST World (Halt E) A) (k : result A E -> UpdM C) :
  calm ok m -> (forall r, match r with Err e => ok e | Ok _ => True end -> calm ok' (k r)) -> calm ok' (st_bind (attempt m) k).
Proof.
  intros Hm Hk w. specialize (Hm w). unfold st_bind, attempt.
  destruct (m w) as [[a|[e|]] w']; destruct Hm as [Hs Ho]; simpl in *; rewrite <-Hs; [by apply Hk..|done].
Qed.

Section Calm.
Context (ok : UpdateError -> Prop) (Hok : forall e, not_health e -> ok e).

Lemma calm_sys {A} (op : Fs -> result A IoError * Fs) : calm (fun _ => True) (sys op).
Proof. intros w. unfold sys. destruct (w_events w) as [|[]]; simpl; try done; by destruct (op _) as [[] ?]. Qed.
Lemma calm_io {A} op (m : IO A) : calm (fun _ => True) m -> calm ok (io op m).
Proof. intros Hm w. specialize (Hm w). unfold io. destruct (m w) as [[a|[]] w']; simpl in *; [done| |done].
  destruct Hm. split; [done|]. by apply Hok.
Qed.
Lemma calm_lift {A} (r : result A UpdateError) : match r with Err e => ok e | Ok _ => True end -> calm ok (lift r).
Proof. intros Hr w. unfold lift, st_lift. split; [done|]. by destruct r. Qed.
Lemma calm_refuse b e : not_health e -> calm ok (refuse_if b e).
Proof using Hok. intros He. apply calm_lift. destruct b; simpl; auto. Qed.
Lemma calm_fail {A} e : not_health e -> calm ok (@fail A e).
Proof using Hok. intros He. apply calm_lift. auto. Qed.
Lemma calm_each {A} (f : A -> UpdM unit) l : (forall a, calm ok (f a)) -> calm ok (each f l).
Proof. intros Hf. induction l; simpl; [apply calm_ret|]. by apply calm_bind. Qed.
Lemma calm_all {A} (f : A -> UpdM bool) l : (forall a, calm ok (f a)) -> calm ok (all f l).
Proof. intros Hf. induction l; simpl; [apply calm_ret|]. apply calm_bind; [done|]. by intros []. Qed.
Lemma calm_gather {A C} (f : A -> UpdM C) l : (forall a, calm ok (f a)) -> calm ok (gather f l).
Proof.
  intros Hf. induction l; simpl; [apply calm_ret|]. apply calm_bind; [done|]. intros c. by apply calm_bind.
Qed.
Lemma calm_path_exists n : calm (fun _ => True) (path_exists n).
Proof. intros w. unfold path_exists, sys. by destruct (w_events w) as [|[]]. Qed.
Lemma calm_write_all i data : calm (fun _ => True) (write_all i data).
Proof. intros w. unfold write_all. by destruct (w_events w) as [|[]]. Qed.

Create HintDb calm.

(** Walks a body down to its calls. *)
Ltac calm_step :=
  first
    [ apply calm_ret | apply calm_sys | apply calm_path_exists | apply calm_write_all
    | apply calm_refuse; exact I | apply calm_fail; exact I
    | apply calm_bind; [|intros ?] | apply calm_io | eapply calm_attempt
    | apply calm_each; intros ? | apply calm_all; intros ? | apply calm_gather; intros ?
    | match goal with |- calm _ (match ?x with _ => _ end) => destruct x end ].
Ltac calm := repeat first [solve [eauto with calm nocore] | calm_step].

Lemma calm_sha256 sel n : calm ok (sha256_in sel n).
Proof. unfold sha256_in. calm. Qed.
Lemma calm_write_marker m : calm ok (write_marker m).
Proof.
  unfold write_marker. apply calm_bind; [apply calm_lift; unfold encode_marker; destruct (marker_text _); [done|by apply Hok]|]. intros text. calm.
Qed.
Lemma calm_remove_if_exists n op : calm ok (remove_if_exists n op).
Proof. unfold remove_if_exists. calm. Qed.
Lemma calm_holds n h : calm ok (holds n h).
Proof. unfold holds. apply calm_bind; [eapply calm_attempt, calm_sha256|]. intros r. calm. Qed.
#[local] Hint Resolve calm_sha256 calm_write_marker calm_remove_if_exists calm_holds : calm.
Lemma calm_matches_target l m : calm ok (matches_target l m).
Proof. unfold matches_target. calm. Qed.
Lemma calm_matches_old l m : calm ok (matches_old l m).
Proof. unfold matches_old. calm. Qed.
Lemma calm_remove_backups m : calm ok (remove_backups m).
Proof. unfold remove_backups. calm. Qed.
Lemma calm_still_old n h : calm ok (still_old n h).
Proof. unfold still_old. calm. Qed.
#[local] Hint Resolve calm_matches_target calm_matches_old calm_remove_backups calm_still_old : calm.
Lemma calm_verify_member l e : calm ok (verify_member l e).
Proof. unfold verify_member, verify_restore_source, verify_new_member_removable. calm. Qed.
Lemma calm_restore_member l e : calm ok (restore_member l e).
Proof. unfold restore_member, restore_one. calm. Qed.
#[local] Hint Resolve calm_verify_member calm_restore_member : calm.
Lemma calm_rollback_marker l m : calm ok (rollback_marker l m).
Proof. unfold rollback_marker. calm. Qed.
Lemma calm_verify_target_pair l m : calm ok (verify_target_pair l m).
Proof. unfold verify_target_pair. calm. Qed.
Lemma calm_set_phase m phase : calm ok (set_phase m phase).
Proof. unfold set_phase. calm. Qed.
#[local] Hint Resolve calm_rollback_marker calm_verify_target_pair calm_set_phase : calm.
Lemma calm_finalize l m : calm ok (finalize l m).
Proof. unfold finalize. calm. Qed.

(** *** Commits *)

Context (Hafter : forall b, match after b with Err e => ok e | Ok _ => True end)
  (Hsign : forall m, match verify_signature m with Err e => ok e | Ok _ => True end)
  (Hversion : forall m, match version_output m with Err e => ok e | Ok _ => True end).

Lemma calm_gather_results {A C} (f : A -> UpdM C) l (k : list (result C UpdateError) -> UpdM unit) :
  (forall a, calm ok (f a)) -> (forall rs, Forall (fun r => match r with Err e => ok e | Ok _ => True end) rs -> calm ok (k rs)) ->
  calm ok (rs <- gather (fun a => attempt (f a)) l ;; k rs)%st.
Proof.
  intros Hf. revert k. induction l as [|a l IH]; intros k Hk; [by apply (Hk [])|].
  assert (Hrest : calm ok (r <- attempt (f a) ;; rs <- gather (fun a => attempt (f a)) l ;; k (r :: rs))%st).
  { eapply calm_attempt_bind; [apply Hf|]. intros r Hr. apply IH. intros rs Hrs. apply Hk. by constructor. }
  intros w. specialize (Hrest w). revert Hrest. simpl. unfold st_bind, st_ret.
  destruct (attempt (f a) w) as [[r|e] w1]; [|done]. by destruct (gather _ l w1) as [[]].
Qed.

Lemma calm_verify_staged b : calm ok (verify_staged b).
Proof. unfold verify_staged. calm. Qed.
Lemma calm_verify_immutable p : calm ok (verify_immutable p).
Proof.
  unfold verify_immutable. apply calm_gather_results; [apply calm_verify_staged|].
  intros rs Hrs. induction Hrs as [|r rs Hr _ IH]; simpl; [apply calm_ret|]. apply calm_bind; [|auto]. apply calm_lift. by destruct r.
Qed.
Lemma calm_reach m step : calm ok (reach m step).
Proof using Hok Hafter. unfold reach. apply calm_bind; [apply calm_write_marker|]. intros u. apply calm_lift, Hafter. Qed.
Lemma calm_verify_installed l p : calm ok (verify_installed l p).
Proof using Hok Hsign Hversion.
  unfold verify_installed. apply calm_each. intros b. apply calm_bind; [apply calm_sha256|]. intros h.
  apply calm_bind; [by apply calm_refuse|]. intros u. apply calm_bind; [apply calm_lift, Hsign|]. intros u'.
  apply calm_bind; [apply calm_lift, Hversion|]. intros v. by apply calm_refuse.
Qed.
#[local] Hint Resolve calm_reach calm_verify_installed calm_verify_immutable : calm.
Lemma calm_commit_body l p modes m : calm ok (commit_body l p modes m).
Proof using Hok Hafter Hsign Hversion.
  unfold commit_body, backup_member, install_member, publish_member, make_backup, set_installed_mode. calm.
  apply calm_lift. destruct (find _ _); simpl; [done|by apply Hok].
Qed.
Lemma calm_installed_metadata n : calm ok (installed_metadata n).
Proof using Hok. unfold installed_metadata. calm. Qed.
#[local] Hint Resolve calm_commit_body calm_installed_metadata : calm.
Lemma calm_commit_transaction l p id v : calm ok (commit_transaction l p id v).
Proof using Hok Hafter Hsign Hversion.
  unfold commit_transaction, entry_for. do 4 (apply calm_bind; [calm|intros ?]). apply calm_bind; [calm|intros ?].
  eapply calm_attempt_bind; [apply calm_commit_body|]. intros [u|error] He; [apply calm_ret|].
  eapply calm_attempt_bind; [apply calm_rollback_marker|]. intros [u|rollback] _; [by apply calm_lift|by apply calm_fail].
Qed.
Lemma calm_commit_pair l p id v : calm ok (commit_pair l p id v).
Proof using Hok Hafter Hsign Hversion.
  unfold commit_pair. eapply calm_attempt_bind; [apply calm_commit_transaction|]. intros r Hr.
  apply calm_bind; [calm|]. intros u. apply calm_lift. by destruct r.
Qed.
End Calm.

Lemma calm_signals {E A} (ok : E -> Prop) (m : ST World (Halt E) A) w r w' :
  m w = (r, w') -> calm ok m -> w'.(w_signals) = w.(w_signals).
Proof. intros Hr Hm. specialize (Hm w). rewrite Hr in Hm. apply Hm. Qed.

(** ** Signals *)

Abbreviation any := (fun _ : UpdateError => True).

Lemma calm_any {A} (r : result A UpdateError) : calm any (lift r).
Proof. apply calm_lift. by destruct r. Qed.

Lemma rollback_fails l m profile o text w : (rollback_and_restart_old l m profile o text w).1 <> Ok tt.
Proof.
  unfold rollback_and_restart_old, st_bind. destruct (rollback_marker l m w) as [[u|e] w']; [|done].
  destruct (old_spawned o); [destruct (wait_for_version_health _ _ _ _)|]; try done. by destruct (stop_and_reap _ _ w') as [[] ?].
Qed.
Lemma stop_fails l m profile o child text w :
  ((stop_and_reap child o.(child_exited) ;;; lift (wait_for_profile_lock o.(lock_after_stop)) ;;;
    rollback_and_restart_old l m profile o text)%st w).1 <> Ok tt.
Proof.
  unfold st_bind, lift, st_lift. destruct (stop_and_reap _ _ w) as [[u|e] w1]; [|done].
  destruct (wait_for_profile_lock _); [apply rollback_fails|done].
Qed.

(** The kills of a restart: at most one for the new child and then at most one
    for the old daemon's, each for a process this restart started and that has
    not exited. *)
Definition stops_one (spawned_as : result N string) (has_exited : bool) (kills : list Signal) : Prop :=
  kills = [] \/ exists child, spawned_as = Ok child /\ has_exited = false /\ kills = [Kill child].
Definition stops (o : Observed) (kills : list Signal) : Prop :=
  exists new old, kills = new ++ old /\ stops_one o.(spawned) o.(child_exited) new /\
    stops_one o.(old_spawned) o.(old_child_exited) old.

Lemma stop_and_reap_signals child has_exited w r w' :
  stop_and_reap child has_exited w = (r, w') ->
  exists kills, w'.(w_signals) = w.(w_signals) ++ kills /\ stops_one (Ok child) has_exited kills.
Proof.
  unfold stop_and_reap, send_signal, sys, stops_one. destruct has_exited; [intros [=<- <-]; exists []; rewrite app_nil_r; auto|].
  destruct (w_events w) as [|[]]; simpl; intros [=<- <-]; simpl;
    first [exists []; rewrite app_nil_r; by auto|exists [Kill child]; split; [done|]; right; eauto].
Qed.

Lemma rollback_signals l m profile o text w r w' :
  rollback_and_restart_old l m profile o text w = (r, w') ->
  exists old, w'.(w_signals) = w.(w_signals) ++ old /\ stops_one o.(old_spawned) o.(old_child_exited) old.
Proof.
  assert (Hnone : forall w1, w_signals w1 = w_signals w ->
    exists old, w_signals w1 = w_signals w ++ old /\ stops_one (old_spawned o) (old_child_exited o) old).
  { intros w1 E. exists []. rewrite app_nil_r. split; [done|by left]. }
  unfold rollback_and_restart_old, st_bind at 1. destruct (rollback_marker l m w) as [[u|e] w1] eqn:E;
    (apply (calm_signals any) in E; [|by apply calm_rollback_marker]); [|intros [=<- <-]; by apply Hnone].
  destruct (old_spawned o) as [child|]; [|intros [=<- <-]; by apply Hnone].
  destruct (wait_for_version_health _ _ _ _); [intros [=<- <-]; by apply Hnone|]. unfold st_bind.
  destruct (stop_and_reap child _ w1) as [[u'|e2] w2] eqn:Es; apply stop_and_reap_signals in Es as (kills&Ek&Hk);
    intros [=<- <-]; exists kills; by rewrite Ek, E.
Qed.

(** Stopping the new child, and then the rollback. *)
Lemma stopped_signals l m profile o child text w r w' :
  o.(spawned) = Ok child ->
  (stop_and_reap child o.(child_exited) ;;; lift (wait_for_profile_lock o.(lock_after_stop)) ;;;
   rollback_and_restart_old l m profile o text)%st w = (r, w') ->
  exists kills, w'.(w_signals) = w.(w_signals) ++ kills /\ stops o kills.
Proof.
  intros Hs. unfold st_bind at 1. destruct (stop_and_reap child _ w) as [[u|e] w1] eqn:E;
    apply stop_and_reap_signals in E as (new&En&Hn); rewrite <-Hs in Hn.
  2: { intros [=<- <-]. exists (new ++ []). rewrite app_nil_r at 1. split; [done|]. exists new, []. split_and!; [done|done|by left]. }
  unfold st_bind, lift, st_lift. destruct (wait_for_profile_lock _).
  - intros (old&Eo&Ho)%rollback_signals. exists (new ++ old). rewrite Eo, En, (assoc_L (++)). split; [done|]. by exists new, old.
  - intros [=<- <-]. exists (new ++ []). rewrite app_nil_r at 1. split; [done|]. exists new, []. split_and!; [done|done|by left].
Qed.

(** A takeover kills only what it started, and nothing when it succeeds. *)
Lemma take_over_signals l m i profile o w r w' :
  take_over l m i profile o w = (r, w') ->
  exists kills, w'.(w_signals) = w.(w_signals) ++ kills /\ stops o kills /\ (r = Ok tt -> kills = []).
Proof.
  assert (Hnone : forall w1, w_signals w1 = w_signals w ->
    exists kills, w_signals w1 = w_signals w ++ kills /\ stops o kills /\ (r = Ok tt -> kills = [])).
  { intros w1 E. exists []. rewrite app_nil_r. split_and!; [done| |done]. exists [], []. split_and!; [done|by left..]. }
  assert (Hsome : forall w1 (run : result unit (Halt UpdateError) * World), w_signals w1 = w_signals w ->
    (exists kills, run.2.(w_signals) = w_signals w1 ++ kills /\ stops o kills) -> run.1 <> Ok tt -> run = (r, w') ->
    exists kills, w_signals w' = w_signals w ++ kills /\ stops o kills /\ (r = Ok tt -> kills = [])).
  { intros w1 run E (kills&Ek&Hk) Hr ->. exists kills. rewrite <-E. split_and!; [done|done|]. by intros ->. }
  unfold take_over, st_bind at 1, lift at 1, st_lift. destruct (wait_for_matching_drain _ _); [|intros [=<- <-]; by apply Hnone].
  simpl. unfold st_bind at 1, lift at 1, st_lift. destruct (wait_for_profile_lock (lock_after_drain o)); [|intros [=<- <-]; by apply Hnone].
  simpl. unfold st_bind at 1. destruct (set_phase m LockReleased w) as [[m1|e] w1] eqn:E1;
    (apply (calm_signals any) in E1; [|by apply calm_set_phase]); [|intros [=<- <-]; by apply Hnone].
  destruct (spawned o) as [child|error] eqn:Es.
  2: { apply Hsome with w1; [done| |apply rollback_fails]. destruct (rollback_and_restart_old _ _ _ _ _ w1) as [r1 w2] eqn:Er.
    apply rollback_signals in Er as (old&Eo&Ho). exists old. split; [done|]. exists [], old. split_and!; [done|by left|done]. }
  unfold st_bind at 1. destruct (attempt (set_phase m1 ChildSpawned) w1) as [[[m2|error]|e] w2] eqn:E2;
    (apply (calm_signals any) in E2; [|by eapply calm_attempt, (calm_set_phase any)]); [| |intros [=<- <-]; apply Hnone; congruence].
  - destruct (wait_for_exact_health _ _ _ _ _ _).
    + intros Hf. apply (calm_signals any) in Hf; [|by apply calm_finalize]. apply Hnone. congruence.
    + apply Hsome with w2; [congruence| |apply stop_fails]. destruct ((stop_and_reap _ _ ;;; _)%st w2) as [r1 w3] eqn:Er.
      by eapply stopped_signals.
  - apply Hsome with w2; [congruence| |apply stop_fails]. destruct ((stop_and_reap _ _ ;;; _)%st w2) as [r1 w3] eqn:Er.
    by eapply stopped_signals.
Qed.

(** What is known when the incumbent is signalled. *)
Lemma restart_signals dir0 m i profile o w r w' :
  restart_committed (in_directory dir0) m (Some i) profile o w = (r, w') ->
  w'.(w_signals) = w.(w_signals) /\ r <> Ok tt \/
  (exists kills, w'.(w_signals) = w.(w_signals) ++ Terminate i.(inc_pid) :: kills /\ stops o kills /\ (r = Ok tt -> kills = [])) /\
  o.(still_connected) = true /\
  (forall e, e ∈ m.(members) -> opens w.(w_fs).(fs_inodes) (w.(w_fs).(fs_dir) !! canonical e) e.(target_digest)) /\
  exists m2 w2, m2.(mk_target_version) = m.(mk_target_version) /\ take_over (in_directory dir0) m2 i profile o w2 = (r, w').
Proof.
  unfold restart_committed, st_bind at 1. pose proof (reads_verify_target_pair dir0 m w) as Hv.
  destruct (verify_target_pair _ _ w) as [[u|e] w1] eqn:E1; apply (calm_signals any) in E1; try by apply calm_verify_target_pair.
  2: { intros [=<- <-]. by left. }
  destruct Hv as [_ Hv]. unfold st_bind at 1.
  destruct (set_phase m DrainSignaled w1) as [[m'|e] w2] eqn:E2.
  2: { apply (calm_signals any) in E2; [|by apply calm_set_phase]. intros [=<- <-]. left. split; [congruence|done]. }
  assert (Hm' : m'.(mk_target_version) = m.(mk_target_version)).
  { revert E2. unfold set_phase, st_bind. by destruct (write_marker _ w1) as [[] ?]; intros [=<- _]. }
  apply (calm_signals any) in E2; [|by apply calm_set_phase].
  unfold st_bind at 1, refuse_if, reject_if, lift, st_lift. destruct (still_connected o); [|intros [=<- <-]; left; split; [congruence|done]].
  simpl. unfold st_bind, signal, send_signal, sys.
  assert (Hgo : forall evs, take_over (in_directory dir0) m' i profile o
      {| w_fs := w_fs w2; w_events := evs; w_signals := w_signals w2 ++ [Terminate (inc_pid i)] |} = (r, w') ->
    (exists kills, w_signals w' = w_signals w ++ Terminate (inc_pid i) :: kills /\ stops o kills /\ (r = Ok tt -> kills = [])) /\ exists m2 w2, mk_target_version m2 = mk_target_version m /\
      take_over (in_directory dir0) m2 i profile o w2 = (r, w')).
  { intros evs Ht. split; [|by eauto]. apply take_over_signals in Ht as (kills&Ek&Hk). exists kills. split; [|done].
    rewrite Ek. simpl. rewrite <-(assoc_L (++)). simpl. congruence. }
  destruct (w_events w2) as [|[]]; simpl.
  - intros [? ?]%Hgo. by right.
  - intros [? ?]%Hgo. by right.
  - intros [=<- <-]. left. split; [simpl; congruence|done].
  - intros [=<- <-]. left. split; [simpl; congruence|done].
Qed.

(** The marker of a committed update names the version and the digests that
    were staged. *)
Definition marker_for (p : VerifiedStagedPair) (m : Marker) : Prop :=
  m.(mk_target_version) = p.(version) /\ Forall2 entry_of p.(binaries) m.(members).
Lemma committed_entries dir0 p id v w m w' :
  commit_pair (in_directory dir0) p id v w = (Ok m, w') -> marker_for p m.
Proof.
  assert (Htrue : forall {A} (c : UpdM A), spec (fun _ => True) c (fun _ _ => True) (fun _ => True)).
  { intros A c x _. by destruct (c x) as [[] ?]. }
  assert (Htxn : spec (fun _ => True) (commit_transaction (in_directory dir0) p id v) (fun m _ => marker_for p m) (fun _ => True)).
  { unfold commit_transaction. do 3 (eapply spec_bind; [apply Htrue|intros ?]).
    eapply spec_read; [apply (reads_gather _ (read_entry id)); intros; apply reads_entry_for|done|]. intros ms.
    apply spec_start. intros fs [_ Hf].
    assert (Hbe : Forall2 entry_of p.(binaries) ms) by (eapply Forall2_impl; [exact Hf|]; by intros b e (?&_)).
    eapply (spec_bind _ _ _ (fun _ _ => True)); [by eapply spec_conseq|intros u].
    eapply (spec_bind _ _ _ (fun _ _ => True)); [by eapply spec_conseq|]. intros [u1|error]; [by apply spec_ret|].
    eapply spec_bind; [apply Htrue|]. intros r x _. by destruct r. }
  intros Hc. unfold commit_pair in Hc.
  assert (Hp : spec (fun _ => True) (commit_pair (in_directory dir0) p id v) (fun m _ => marker_for p m) (fun _ => True)).
  { eapply spec_bind; [apply (spec_attempt _ _ _ _ Htxn)|]. intros r. apply spec_start. intros fs Hr.
    eapply spec_bind; [eapply spec_conseq; [apply Htrue|done|intros a fs' Hx; exact Hx|done]|]. intros u x _. by destruct r. }
  specialize (Hp w I). unfold commit_pair in Hp. by rewrite Hc in Hp.
Qed.

(** ** The running daemon *)

Lemma detected profile found i :
  detect_incumbent profile found = Ok (Some i) ->
  exists c, found = Reached c /\ incumbent_from_connected profile c = Ok i.
Proof.
  destruct found as [c|[] e]; [|done..]. simpl. destruct (incumbent_from_connected profile c) as [j|] eqn:E; [|done].
  intros [=->]. eauto.
Qed.
Lemma incumbent_peer profile c i :
  incumbent_from_connected profile c = Ok i ->
  c.(peer_pid) = Some i.(inc_pid) /\ i.(inc_pid) <> 0%N /\ c.(peer_uid) = profile.(own_uid) /\ c.(welcome).(lifecycle_ready) = true /\
  i.(inc_instance) = c.(welcome).(instance_id) /\ i.(inc_generation) = c.(welcome).(daemon_generation).
Proof.
  unfold incumbent_from_connected, validate_ready_welcome, reject_if.
  destruct (lifecycle_ready _); [|done]. simpl. destruct (String.eqb _ _); [|done]. simpl. destruct (forallb _ _); [|done]. simpl.
  destruct (N.eqb_spec (peer_uid c) (own_uid profile)); [|done]. simpl. destruct (peer_pid c) as [pid|]; [|done].
  destruct (N.eqb_spec pid 0); [done|]. simpl. destruct (takes_events c); [|done]. by intros [=<-].
Qed.

(** C18: An update asks at most one process to stop, and kills only its own
    children.  Whatever fails, a run of [run_update] either sends no signal, and
    then it succeeded only because no daemon was running, or its first signal
    is one SIGTERM to the process that the system reported as the peer of the
    daemon's socket, owned by this user, while its connection was still open,
    and after the committed bundle was read back and every member of the
    release found to have the digest that was verified.  After it there is at
    most one SIGKILL to the new daemon this update started and then at most one
    to the old daemon it started again, each only if that child had not exited;
    a successful update sends none. *)
Theorem one_signal dir0 p id v profile found o w r w' :
  run_update (in_directory dir0) p id v profile found o w = (r, w') ->
  w'.(w_signals) = w.(w_signals) /\ (r = Ok tt -> detect_incumbent profile found = Ok None) \/
  exists c pid kills m w1,
    w'.(w_signals) = w.(w_signals) ++ Terminate pid :: kills /\ stops o kills /\ (r = Ok tt -> kills = []) /\
    found = Reached c /\ c.(peer_pid) = Some pid /\ pid <> 0%N /\
    c.(peer_uid) = profile.(own_uid) /\ o.(still_connected) = true /\
    commit_pair (in_directory dir0) p id v w = (Ok m, w1) /\
    forall b, b ∈ p.(binaries) ->
      opens w1.(w_fs).(fs_inodes) (w1.(w_fs).(fs_dir) !! file_name b.(sb_member)) b.(sb_digest).
Proof.
  unfold run_update, st_bind at 1, lift at 1, st_lift. destruct (detect_incumbent profile found) as [inc|e] eqn:Ed; simpl.
  2: { intros [=<- <-]. by left. }
  unfold st_bind. destruct (commit_pair _ p id v w) as [[m|e] w1] eqn:Ec; pose proof Ec as Hs;
    (apply (calm_signals any) in Hs; [|apply calm_commit_pair; intros; try done; by case_match]).
  2: { intros [=<- <-]. by left. }
  destruct inc as [i|].
  - destruct (detected _ _ _ Ed) as (c&->&Hi). destruct (incumbent_peer _ _ _ Hi) as (Hp&Hz&Hu&_).
    intros [[Hsame Hr]|((kills&Hsig&Hkill&Hok)&Hc&Ho&_)]%restart_signals; [left; split; [congruence|done]|]. right.
    exists c, (inc_pid i), kills, m, w1. split_and!; [congruence|done..|]. intros b [k Hk]%list_elem_of_lookup.
    destruct (Forall2_lookup_l _ _ _ _ _ (proj2 (committed_entries _ _ _ _ _ _ _ Ec)) Hk) as (e&He&Hm&Ht).
    specialize (Ho e (list_elem_of_lookup_2 _ _ _ He)). unfold canonical in Ho. by rewrite Hm, Ht in Ho.
  - simpl. unfold restart_committed. intros Hf. left. split; [|done]. apply (calm_signals any) in Hf; [congruence|].
    apply calm_bind; [by apply calm_verify_target_pair|]. intros u. by apply calm_finalize.
Qed.

(** *** Handing over *)

(** The new daemon as [validate_new_health] wants it. *)
Definition takes_over (profile : Profile) (target : string) (i : Incumbent) (child : N) (c : Connected) : Prop :=
  c.(welcome).(lifecycle_ready) = true /\ c.(welcome).(profile_id) = profile.(own_profile) /\
  c.(welcome).(daemon_version) = target /\ c.(welcome).(instance_id) <> i.(inc_instance) /\
  (i.(inc_generation) < c.(welcome).(daemon_generation))%N /\ c.(peer_pid) = Some child /\ c.(peer_uid) = profile.(own_uid) /\
  forall f, f ∈ profile.(required) -> f ∈ c.(welcome).(features).

Lemma health_takes_over profile target i child polls :
  wait_for_exact_health profile target i.(inc_instance) i.(inc_generation) child polls = Ok tt ->
  exists poll c, poll ∈ polls /\ poll.(exited) = None /\ poll.(connection) = Reached c /\ takes_over profile target i child c.
Proof.
  induction polls as [|poll polls IH]; [done|]. simpl.
  assert (Hlater : wait_for_exact_health profile target (inc_instance i) (inc_generation i) child polls = Ok tt ->
    exists poll0 c, poll0 ∈ poll :: polls /\ exited poll0 = None /\ connection poll0 = Reached c /\ takes_over profile target i child c).
  { intros (x&c&Hx&?)%IH. exists x, c. split; [by right|done]. }
  destruct (exited poll) eqn:Ex; [done|]. destruct (connection poll) as [c|[] e] eqn:Ec; [|by destruct (late poll)|done].
  destruct (lifecycle_ready (welcome c)) eqn:Er; simpl; [|by destruct (late poll)].
  unfold validate_new_health, validate_ready_welcome, reject_if. rewrite Er. simpl.
  destruct (String.eqb_spec (profile_id (welcome c)) (own_profile profile)); [|done]. simpl.
  destruct (forallb _ _) eqn:Ef; [|done]. simpl. destruct (String.eqb_spec (daemon_version (welcome c)) target); [|done]. simpl.
  destruct (String.eqb_spec (instance_id (welcome c)) (inc_instance i)); [done|]. simpl.
  destruct (N.leb_spec (daemon_generation (welcome c)) (inc_generation i)); [done|]. simpl. case_bool_decide; [|done]. simpl.
  destruct (N.eqb_spec (peer_uid c) (own_uid profile)); [|done]. intros _. exists poll, c.
  split_and!; [by left|done|done|]. split_and!; [done..|]. intros f Hf%list_elem_of_In. rewrite forallb_forall in Ef.
  apply Ef, existsb_exists in Hf as (x&Hx%list_elem_of_In&->%String.eqb_eq). done.
Qed.

Lemma lock_free looks : wait_for_profile_lock looks = Ok tt -> exists late, (Ok false, late) ∈ looks.
Proof.
  induction looks as [|[[[]|e] late] looks IH]; simpl; try done; [|intros _; exists late; by left].
  destruct late; [done|]. intros [b Hb]%IH. exists b. by right.
Qed.

Lemma drain_matched i d :
  wait_for_matching_drain i d = Ok tt -> first_notice d.(frames) = Some (i.(inc_instance), i.(inc_generation)) /\ d.(disconnected) = true.
Proof.
  unfold wait_for_matching_drain, reject_if. destruct (first_notice _) as [n|]; [|by destruct (timed_out d)]. simpl.
  case_bool_decide; [|done]. simpl. destruct (disconnected d); [|done]. intros _. by subst.
Qed.

Lemma set_phase_value m phase w m' w' : set_phase m phase w = (Ok m', w') -> m' = with_phase phase m.
Proof. unfold set_phase, st_bind. by destruct (write_marker _ w) as [[] ?]; intros [=<- _]. Qed.

(** What [take_over] saw when it succeeded. *)
Record handed_over (target : string) (i : Incumbent) (profile : Profile) (o : Observed) : Prop := {
  ho_notice : first_notice o.(drain).(frames) = Some (i.(inc_instance), i.(inc_generation));
  ho_gone : o.(drain).(disconnected) = true;
  ho_lock : exists late, (Ok false, late) ∈ o.(lock_after_drain);
  ho_child : exists child poll c, o.(spawned) = Ok child /\ poll ∈ o.(health) /\ poll.(exited) = None /\
    poll.(connection) = Reached c /\ takes_over profile target i child c
}.

Lemma take_over_ok l m i profile o w w' : take_over l m i profile o w = (Ok tt, w') -> handed_over m.(mk_target_version) i profile o.
Proof.
  unfold take_over, st_bind, lift, st_lift. destruct (wait_for_matching_drain i (drain o)) as [[]|] eqn:Ed; [|done]. simpl.
  destruct (wait_for_profile_lock (lock_after_drain o)) as [[]|] eqn:El; [|done]. simpl.
  destruct (set_phase m LockReleased w) as [[m1|e] w1] eqn:E1; [|done]. apply set_phase_value in E1 as ->.
  assert (Hno : forall l m profile o text w, rollback_and_restart_old l m profile o text w <> (Ok tt, w')).
  { intros l0 m0 p0 o0 t0 w0 Hx. apply (rollback_fails l0 m0 p0 o0 t0 w0). by rewrite Hx. }
  destruct (spawned o) as [child|e] eqn:Es; [|by intros []%Hno].
  unfold attempt. destruct (set_phase _ ChildSpawned w1) as [[m2|[e|]] w2] eqn:E2; simpl; [..|done].
  - apply set_phase_value in E2 as ->. simpl. destruct (wait_for_exact_health _ _ _ _ _ _) as [[]|] eqn:Eh.
    + intros _. destruct (drain_matched _ _ Ed). destruct (health_takes_over _ _ _ _ _ Eh) as (poll&c&?&?&?&?).
      split; [done|done|by apply lock_free|]. by exists child, poll, c.
    + destruct (stop_and_reap _ _ w2) as [[u|e2] w3]; [|done].
      destruct (wait_for_profile_lock (lock_after_stop o)); [by intros []%Hno|done].
  - destruct (stop_and_reap _ _ w2) as [[u|e'] w3]; [|done].
    destruct (wait_for_profile_lock (lock_after_stop o)); [by intros []%Hno|done].
Qed.

(** C19: A successful update of a running daemon handed over to the release.
    When [run_update] returns success, either no daemon was running and no
    signal was sent, or: exactly one signal, a SIGTERM, went to the incumbent; its drain
    notice named its own instance and generation and its connection closed; the
    profile's lock was then seen free; and the child that was started answered
    as ready for this profile with every required feature, with the exact
    version of the release, a new instance, a greater generation, and the
    child's own process and user as the socket's peer. *)
Theorem successful_update_hands_over dir0 p id v profile found o w w' :
  run_update (in_directory dir0) p id v profile found o w = (Ok tt, w') ->
  detect_incumbent profile found = Ok None /\ w'.(w_signals) = w.(w_signals) \/
  exists c i, found = Reached c /\ incumbent_from_connected profile c = Ok i /\
    w'.(w_signals) = w.(w_signals) ++ [Terminate i.(inc_pid)] /\ handed_over p.(version) i profile o.
Proof.
  unfold run_update, st_bind at 1, lift at 1, st_lift. destruct (detect_incumbent profile found) as [inc|e] eqn:Ed; [|done]. simpl.
  unfold st_bind. destruct (commit_pair _ p id v w) as [[m|e] w1] eqn:Ec; [|done]. pose proof Ec as Hs.
  apply (calm_signals any) in Hs; [|apply calm_commit_pair; intros; try done; by case_match].
  destruct inc as [i|].
  - destruct (detected _ _ _ Ed) as (c&->&Hi). intros [[_ Hr]|((kills&Hsig&_&Hok)&_&_&m2&w2&Hv&Ht)]%restart_signals; [done|]. right.
    rewrite (Hok eq_refl) in Hsig. exists c, i. split_and!; [done..|congruence|]. apply take_over_ok in Ht. destruct (committed_entries _ _ _ _ _ _ _ Ec) as [<- _].
    by rewrite <-Hv.
  - intros Hf. left. split; [done|]. apply (calm_signals any) in Hf; [congruence|].
    unfold restart_committed. apply calm_bind; [by apply calm_verify_target_pair|]. intros u. by apply calm_finalize.
Qed.

(** ** Health failures *)

(** The signature and version checks, and the fault hook, fail with errors of
    their own. *)
Class HostErrors : Prop := {
  after_errors : forall b, match after b with Err e => not_health e | Ok _ => True end;
  signature_errors : forall m, match verify_signature m with Err e => not_health e | Ok _ => True end;
  version_errors : forall m, match version_output m with Err e => not_health e | Ok _ => True end
}.

(** A run that starts in [P] ends in [Q] with a value, and in [R] with a health error. *)
Definition hspec {A} (P : Fs -> Prop) (m : UpdM A) (Q : A -> Fs -> Prop) (R : Fs -> Prop) : Prop :=
  forall w, P w.(w_fs) ->
    match m w with
    | (Ok a, w') => Q a w'.(w_fs)
    | (Err (Failed (Health _)), w') => R w'.(w_fs)
    | (Err _, _) => True
    end.

Lemma hspec_bind {A C} P (m : UpdM A) (k : A -> UpdM C) M Q R :
  hspec P m M R -> (forall a, hspec (M a) (k a) Q R) -> hspec P (st_bind m k) Q R.
Proof. intros Hm Hk w Hw. specialize (Hm w Hw). unfold st_bind. destruct (m w) as [[a|e] w']; [by apply Hk|done]. Qed.

(** A part without health errors needs only its ordinary specification. *)
Lemma hspec_calm {A} P (m : UpdM A) Q X R : spec P m Q X -> calm not_health m -> hspec P m Q R.
Proof.
  intros Hm Hc w Hw. specialize (Hm w Hw). destruct (Hc w) as [_ He]. destruct (m w) as [[a|[e|]] w']; [done| |done].
  by destruct e.
Qed.
Lemma hspec_conseq {A} (P P' : Fs -> Prop) (m : UpdM A) Q Q' R :
  hspec P m Q R -> (forall fs, P' fs -> P fs) -> (forall a fs, Q a fs -> Q' a fs) -> hspec P' m Q' R.
Proof. intros Hm HP HQ w Hw. specialize (Hm w (HP _ Hw)). destruct (m w) as [[a|[[]|]] w']; auto. Qed.

Lemma hspec_lift {A} (r : result A UpdateError) P R : match r with Err e => not_health e | Ok _ => True end -> hspec P (lift r) (fun _ => P) R.
Proof. intros Hr w Hw. unfold lift, st_lift. by destruct r as [|[]]. Qed.

Lemma hspec_stop_and_reap child has_exited P R : hspec P (stop_and_reap child has_exited) (fun _ => P) R.
Proof.
  intros w Hw. unfold stop_and_reap, send_signal, sys. destruct has_exited; [done|]. by destruct (w_events w) as [|[]].
Qed.

Section Restored.
Context (H : Bundle -> Prop) (B : Bundle) (p : VerifiedStagedPair) (dir0 : string).

Abbreviation done_ := (fun (_ : unit) (_ : Fs) => True).

(** The old bundle, on every disk, without a marker. *)
Definition Restored : Fs -> Prop := on_disks (settled (QuietN (and_target H B p) B)).

Lemma hspec_rollback m profile o text :
  hspec (Live H B p m) (rollback_and_restart_old (in_directory dir0) m profile o text) done_ Restored.
Proof using laws.
  unfold rollback_and_restart_old. eapply hspec_bind.
  - eapply hspec_calm; [apply spec_rollback_committed|by apply calm_rollback_marker].
  - intros u. destruct (old_spawned o) as [child|]; [destruct (wait_for_version_health _ _ _ _)|]; try (intros w Hw; exact Hw).
    eapply hspec_bind; [apply hspec_stop_and_reap|]. intros u' w Hw. exact Hw.
Qed.
Lemma hspec_finalize m : hspec (Live H B p m) (finalize (in_directory dir0) m) done_ Restored.
Proof using laws.
  eapply hspec_calm; [|by apply calm_finalize]. eapply spec_conseq; [apply spec_finalize|done|done|intros ? Hx; exact Hx].
Qed.
Lemma hspec_set_phase m phase : hspec (Live H B p m) (set_phase m phase) (fun m' => Live H B p m') Restored.
Proof using laws.
  eapply hspec_calm; [|by apply calm_set_phase]. eapply spec_conseq; [apply spec_set_phase|done|naive_solver|intros ? Hx; exact Hx].
Qed.
Lemma lock_errors looks : match wait_for_profile_lock looks with Err e => not_health e | Ok _ => True end.
Proof. induction looks as [|[[[]|e] late] looks IH]; simpl; try done. by destruct late. Qed.
Lemma drain_errors i d : match wait_for_matching_drain i d with Err e => not_health e | Ok _ => True end.
Proof.
  unfold wait_for_matching_drain, reject_if. destruct (first_notice _); simpl; [|by destruct (timed_out d)].
  case_bool_decide; simpl; [|done]. by destruct (disconnected d).
Qed.

Lemma hspec_stop m profile o child text :
  hspec (Live H B p m) (stop_and_reap child o.(child_exited) ;;; lift (wait_for_profile_lock o.(lock_after_stop)) ;;;
    rollback_and_restart_old (in_directory dir0) m profile o text)%st done_ Restored.
Proof using laws. eapply hspec_bind; [apply hspec_stop_and_reap|]. intros us. eapply hspec_bind; [apply hspec_lift, lock_errors|]. intros u. apply hspec_rollback. Qed.

Lemma hspec_take_over m i profile o : hspec (Live H B p m) (take_over (in_directory dir0) m i profile o) done_ Restored.
Proof using laws.
  unfold take_over. eapply hspec_bind; [apply hspec_lift, drain_errors|]. intros u1.
  eapply hspec_bind; [apply hspec_lift, lock_errors|]. intros u2.
  eapply hspec_bind; [apply hspec_set_phase|]. intros m1. destruct (spawned o) as [child|error]; [|apply hspec_rollback].
  eapply (hspec_bind _ _ _ (fun r fs => match r with Ok m2 => Live H B p m2 fs | Err _ => Live H B p m1 fs end)).
  { eapply hspec_calm; [|by eapply calm_attempt, (calm_set_phase not_health)].
    eapply spec_conseq; [apply (spec_attempt _ _ _ _ (spec_set_phase H B p m1 ChildSpawned))|done| |intros ? Hx; exact Hx].
    by intros [m2|error] fs; [intros [_ ?]|]. }
  intros [m2|error]; [|apply hspec_stop]. destruct (wait_for_exact_health _ _ _ _ _ _); [apply hspec_finalize|apply hspec_stop].
Qed.

Lemma hspec_restart m incumbent profile o :
  hspec (Live H B p m) (restart_committed (in_directory dir0) m incumbent profile o) done_ Restored.
Proof using laws.
  unfold restart_committed. eapply (hspec_bind _ _ _ (fun _ => Live H B p m)).
  { eapply hspec_calm; [|by apply calm_verify_target_pair]. eapply spec_conseq; [apply (spec_reads (Live H B p m)), reads_verify_target_pair|done|naive_solver|intros ? Hx; exact Hx]. }
  intros u. destruct incumbent as [i|]; [|apply hspec_finalize]. eapply hspec_bind; [apply hspec_set_phase|]. intros m1.
  eapply hspec_bind; [apply hspec_lift; by destruct (negb _)|]. intros u1. eapply (hspec_bind _ _ _ (fun _ => Live H B p m1)).
  { intros w Hw. unfold signal, send_signal, sys. by destruct (w_events w) as [|[]]. }
  intros u2. apply hspec_take_over.
Qed.

Lemma ready_errors w profile : match validate_ready_welcome w profile with Err e => not_health e | Ok _ => True end.
Proof.
  unfold validate_ready_welcome, reject_if. destruct (negb _); [done|]. simpl. destruct (negb _); [done|]. simpl. by destruct (negb _).
Qed.
Lemma detect_errors profile found : match detect_incumbent profile found with Err e => not_health e | Ok _ => True end.
Proof.
  destruct found as [c|[] e]; [|done..]. simpl. unfold incumbent_from_connected. pose proof (ready_errors (welcome c) profile) as Hr.
  destruct (validate_ready_welcome _ _); simpl; [|done]. unfold reject_if. destruct (negb _); [done|]. simpl.
  destruct (peer_pid c) as [pid|]; [|done]. destruct (pid =? 0)%N; [done|]. simpl. by destruct (negb _).
Qed.
End Restored.

(** C17: A reported health failure left the old bundle.  If an update of an
    admitted directory ends with [UpdateError::Health], the bundle that was
    installed before it is what the directory shows and what every disk holds,
    and no marker is left; whether the old daemon could be started again is in
    the message. *)
Theorem failed_health_restores {errors : HostErrors} dir0 H fs events signals w B p id version profile found o w' text :
  history dir0 H fs -> acquire (in_directory dir0) (world fs events signals) = (Ok tt, w) -> H B -> shows B w.(w_fs) ->
  ready p id w.(w_fs) -> run_update (in_directory dir0) p id version profile found o w = (Err (Failed (Health text)), w') ->
  shows B w'.(w_fs) /\ (forall d, d ∈ w'.(w_fs).(fs_disks) -> d = w'.(w_fs).(fs_dir)) /\
  w'.(w_fs).(fs_dir) !! MARKER_NAME = None.
Proof using laws hex.
  intros Hh Ha HB Hs Hr Hu. pose proof (spec_acquire H dir0 (world fs events signals) (history_inv dir0 H fs Hh)) as Hq. rewrite Ha in Hq.
  destruct (acquired_ready _ _ _ _ _ Hq HB Hs Hr) as [Hc Hrd].
  assert (Hx : hspec (staged_at (Ready H B id w.(w_fs).(fs_stage)) w.(w_fs).(fs_stage))
    (run_update (in_directory dir0) p id version profile found o) (fun _ _ => True) (Restored H B p)).
  { eapply hspec_bind; [apply hspec_lift, detect_errors|]. intros incumbent. eapply (hspec_bind _ _ _ (fun m => Live H B p m)).
    - eapply hspec_calm; [|apply calm_commit_pair; [done|apply after_errors|apply signature_errors|apply version_errors]].
      eapply spec_conseq; [apply (spec_commit_pair H B p id HB Hc (ready_pair _ _ _ Hr) (ready_id _ _ _ Hr))|done| |intros ? Hx; exact Hx].
      intros m fs'. apply committed_live.
    - intros m. apply hspec_restart. }
  specialize (Hx w Hrd). rewrite Hu in Hx. by apply settled_shows in Hx.
Qed.

(** ** Markers on disk *)

(** C20: Recovery reads back exactly what an update wrote, and trusts nothing
    else.  A well-formed marker that was encoded, within the size bound of
    64 KiB, decodes to itself; and whatever bytes the marker file holds, a
    marker that [decode_marker] accepts is well formed: its transaction id is
    made of digits and dashes, its digests are lowercase SHA-256, its members
    are exactly those of a known bundle with a coherent old installation, and
    every backup is one name inside the install directory with the prefix of
    its member. *)
Theorem marker_round_trip :
  (forall m bytes, well_formed m -> encode_marker m = Ok bytes -> (len bytes <= 65536)%N -> decode_marker bytes = Ok m) /\
  (forall bytes m, decode_marker bytes = Ok m -> well_formed m).
Proof using laws.
  split; [|apply decode_wf]. intros m bytes Hwf He Hlen. unfold encode_marker, decode_marker in *. res_invert. simplify_eq.
  rewrite (parse_text _ _ (marker_value_map_like m Hwf) (marker_value_shallow m Hwf) Hstep). rewrite (proj2 (N.ltb_ge _ _) Hlen). simpl. by apply decode_encoded.
Qed.
End Runs.
