(* ===== verification/UpdateSample.v ===== *)
(** * A host for the updater's theorems

    Concrete functions for the parameters of the update model, which satisfy
    what is asked of them: a serialization of JSON values, a digest of 64
    hexadecimal digits, checks that accept, and an installed bundle.  On it the
    theorems are applied to runs that update, fail, die and lose power. *)

From S2P Require Import Prelude RustStr EffectTypes Json Envelope StrLaws UpdateFs UpdateMarker Update UpdateLogic UpdateSteps UpdateCommit UpdateRestart UpdateClaims.

(** ** Values as text *)

Fixpoint to_tree (v : Value) : gen_tree string :=
  match v with
  | Null => GenNode 0 []
  | Bool b => GenNode (if b then 1 else 2) []
  | Number t => GenNode 3 [GenLeaf t]
  | Str s => GenNode 4 [GenLeaf s]
  | Array vs => GenNode 5 (map to_tree vs)
  | Object es => GenNode 6 (map (fun kv => GenNode 7 [GenLeaf kv.1; to_tree kv.2]) es)
  end.

Fixpoint of_tree (t : gen_tree string) : option Value :=
  match t with
  | GenNode 0 [] => Some Null
  | GenNode 1 [] => Some (Bool true)
  | GenNode 2 [] => Some (Bool false)
  | GenNode 3 [GenLeaf t] => Some (Number t)
  | GenNode 4 [GenLeaf s] => Some (Str s)
  | GenNode 5 ts => Array <$> mapM of_tree ts
  | GenNode 6 ts => Object <$> mapM (fun t => match t with
      | GenNode 7 [GenLeaf k; t] => v ← of_tree t; Some (k, v)
      | _ => None
      end) ts
  | _ => None
  end.

Lemma of_to_tree v : of_tree (to_tree v) = Some v.
Proof.
  induction v as [| [] | | |vs IH|es IH] using value_ind'; simpl; [done..| |].
  - apply fmap_Some. exists vs. split; [|done]. apply mapM_Some. induction IH; simpl; by constructor.
  - apply fmap_Some. exists es. split; [|done]. apply mapM_Some. induction IH as [|[k v] es Hv _ IH]; simpl; constructor; [|done].
    simpl in *. by rewrite Hv.
Qed.

Fixpoint bits (p : positive) : string :=
  match p with
  | xH => ""
  | xO p => String "0" (bits p)
  | xI p => String "1" (bits p)
  end.
Fixpoint of_bits (s : string) : option positive :=
  match s with
  | "" => None
  | String c s => if Ascii.eqb c LF then (if is_empty s then Some xH else None)
                  else (if Ascii.eqb c "0" then xO else xI) <$> of_bits s
  end.

Lemma of_bits_of p : of_bits (bits p ++ String LF "") = Some p.
Proof. induction p as [p IH|p IH|]; simpl; [rewrite IH..|]; done. Qed.

#[local] Instance sample_json : MarkerJson := {|
  marker_text v := Ok (bits (encode (to_tree v)));
  marker_parse s := match (p ← of_bits s; t ← decode p; of_tree t) with Some v => Ok v | None => Err "expected value" end
|}.
#[local] Instance sample_laws : MarkerJsonLaws sample_json.
Proof.
  intros v text _ _ [=<-]. unfold marker_parse, sample_json. rewrite of_bits_of. simpl. rewrite decode_encode. simpl. by rewrite of_to_tree.
Qed.

(** ** A digest *)

(** Sixty-four times the same digit, by the length of the data. *)
Definition digit (n : nat) : ascii := default "0"%char (String.get n "0123456789abcdef").
Fixpoint times (n : nat) (c : ascii) : string := match n with 0 => "" | S n => String c (times n c) end.

#[local] Instance sample_sha256 : Sha256 := fun data => times 64 (digit (String.length data mod 16)).
#[local] Instance sample_hex : Sha256Hex sample_sha256.
Proof.
  intros data. unfold sha256_hex, sample_sha256. assert (Hlt := Nat.mod_upper_bound (String.length data) 16 ltac:(lia)).
  revert Hlt. generalize (String.length data mod 16). intros n Hn.
  assert (Hall : Forall (fun n => exact_digest (times 64 (digit n))) (seq 0 16)) by (repeat constructor).
  rewrite Forall_forall in Hall. apply Hall, elem_of_seq. lia.
Qed.

(** ** An installed bundle *)

Definition plain (data : string) (mode : N) : Inode :=
  {| i_kind := Regular data; i_mine := true; i_mode := mode; i_older := []; i_synced := true |}.
Definition root_directory : Metadata := {| md_kind := Directory; md_mine := true; md_mode := 448; md_links := 1 |}.

(** The old bundle in the inodes 0 to 2, the staged files of a release in 3 to 5. *)
Definition old_entries : Entries := {[ "haiderd" := 0; "haider-tui" := 1; "haider" := 2 ]}.
Definition staged_entries : Entries := {[ "haiderd" := 3; "haider-tui" := 4; "haider" := 5 ]}.
Definition old_inodes : gmap nat Inode := {[ 0 := plain "d" 493; 1 := plain "tt" 493; 2 := plain "ccc" 493 ]}.
Definition all_inodes : gmap nat Inode :=
  <[3 := plain "dddd" 320]> (<[4 := plain "ttttt" 320]> (<[5 := plain "cccccc" 320]> old_inodes)).

Definition fs_old : Fs :=
  {| fs_dir := old_entries; fs_disks := [old_entries]; fs_inodes := old_inodes; fs_next := 3; fs_stage := ∅; fs_root := root_directory |}.
Definition staged_beside (fs : Fs) : Fs :=
  {| fs_dir := fs.(fs_dir); fs_disks := fs.(fs_disks); fs_inodes := all_inodes; fs_next := 6; fs_stage := staged_entries; fs_root := root_directory |}.

Definition sample_digest (n : nat) : string := times 64 (digit n).
Definition old_bundle : Bundle := fun m =>
  match m with Daemon => Some (sample_digest 1) | Tui => Some (sample_digest 2) | Cli => Some (sample_digest 3) | WaylandPortal => None end.
Definition release : VerifiedStagedPair :=
  {| binaries := [ {| sb_member := Daemon; sb_path := "haiderd"; sb_digest := sample_digest 4 |};
                   {| sb_member := Tui; sb_path := "haider-tui"; sb_digest := sample_digest 5 |};
                   {| sb_member := Cli; sb_path := "haider"; sb_digest := sample_digest 6 |} ];
     version := "2.0.0"; source_digest := sample_digest 7 |}.

#[local] Instance sample_checks : HostChecks := {|
  verify_signature _ := Ok tt;
  version_output m := Ok (name m ++ " 2.0.0" ++ String LF "")%string
|}.
#[local] Instance sample_faults : FaultInjector := NoFaults.

Definition here : InstallLayout := in_directory "/opt/haider".
Definition run_commit : result Marker (Halt UpdateError) * World :=
  commit_pair here release "1-2" "1.0.0" (world (staged_beside fs_old) [] []).

(** ** Runs *)

Definition observed_new : Connected :=
  {| welcome := {| lifecycle_ready := true; profile_id := "p"; features := ["chat"]; daemon_version := "2.0.0"; instance_id := "i2"; daemon_generation := 8 |};
     peer_uid := 501; peer_pid := Some 77%N; takes_events := true |}.
Definition observed_old : Connected :=
  {| welcome := {| lifecycle_ready := true; profile_id := "p"; features := ["chat"; "voice"]; daemon_version := "1.0.0"; instance_id := "i1"; daemon_generation := 7 |};
     peer_uid := 501; peer_pid := Some 42%N; takes_events := true |}.
Definition own : Profile := {| own_profile := "p"; own_uid := 501; required := ["chat"] |}.

(** The incumbent drains, and the new daemon answers on the second try, or not
    before the deadline. *)
Definition observed (healthy : bool) : Observed :=
  {| still_connected := true;
     drain := {| frames := [OtherFrame; ServerDraining "i1" 7]; timed_out := false; disconnected := true |};
     lock_after_drain := [(Ok true, false); (Ok false, false)];
     spawned := Ok 77%N;
     health := [ {| exited := None; connection := Absent true "refused"; late := false |};
                 if healthy then {| exited := None; connection := Reached observed_new; late := false |}
                 else {| exited := None; connection := Absent true "refused"; late := true |} ];
     child_exited := false;
     lock_after_stop := [(Ok false, false)];
     old_spawned := Err "no such file";
     old_health := [];
     old_child_exited := false |}.

(** [n] system calls work, then the process dies. *)
Definition dies_after (n : nat) : list Event := repeat Works n ++ [Dies].

Definition staged_fs : Fs := staged_beside fs_old.
Definition admitted (events : list Event) : result unit (Halt UpdateError) * World := acquire here (world staged_fs events []).
Definition update_run (healthy : bool) (w : World) : result unit (Halt UpdateError) * World :=
  run_update here release "1-2" "1.0.0" own (Reached observed_old) (observed healthy) w.

(** A power loss that leaves the directory [d], every file as it was seen. *)
Definition power_loss (d : Entries) (fs : Fs) : Fs :=
  {| fs_dir := d; fs_disks := [d]; fs_inodes := synced <$> fs.(fs_inodes); fs_next := fs.(fs_next);
     fs_stage := ∅; fs_root := fs.(fs_root) |}.

Lemma power_loss_crash d fs : d ∈ fs.(fs_disks) -> Crash fs (power_loss d fs).
Proof.
  intros Hd. split; simpl; [done..| | |]; try done. intros i. rewrite lookup_fmap. destruct (fs_inodes fs !! i) as [node|]; constructor.
  split_and!; simpl; [done|by left|done..|]. destruct (i_kind node); eauto.
Qed.

(** One goal for each entry of a map that is known. *)
Ltac each_entry H :=
  apply elem_of_map_to_list in H; vm_compute in H;
  repeat (apply elem_of_cons in H as [H|H]; [injection H as -> ->|]); [..|by apply elem_of_nil in H].

Lemma old_installed : installed old_bundle fs_old.
Proof.
  split_and!.
  - split_and!; [by left| | |done].
    + intros i [node Hn]. each_entry Hn; simpl; lia.
    + intros d n i ->%list_elem_of_singleton Hn. each_entry Hn; by eexists.
  - intros d ->%list_elem_of_singleton [].
    + exists 0, "d"%string. split_and!; [done|by eexists|done].
    + exists 1, "tt"%string. split_and!; [done|by eexists|done].
    + exists 2, "ccc"%string. split_and!; [done|by eexists|done].
    + done.
  - by intros d ->%list_elem_of_singleton.
Qed.

Lemma staging_beside : stages fs_old staged_fs.
Proof.
  split; [done..|intros i data (node&Hn&Hs&Hk)|intros i [node Hn]|intros i [node Hn]].
  - exists node. split_and!; [|done..]. each_entry Hn; done.
  - each_entry Hn; by eexists.
  - each_entry Hn; simpl; lia.
Qed.

Abbreviation admitted_world n := (admitted (dies_after n)).2.

Lemma run_is {A E S} (run : result A E * S) r : run.1 = r -> run = (r, run.2).
Proof. by destruct run; simpl; intros ->. Qed.

Lemma admitted_ok n : (admitted (dies_after n)).1 = Ok tt -> acquire here (world staged_fs (dies_after n) []) = (Ok tt, admitted_world n).
Proof. unfold admitted. apply run_is. Qed.

Lemma sample_history : history "/opt/haider" (fun X => X = old_bundle) staged_fs.
Proof. apply (h_stage _ _ fs_old); [apply h_start, old_installed|apply staging_beside]. Qed.

Lemma admitted_shows n : (admitted_world n).(w_fs) = (admitted_world 40).(w_fs) -> shows old_bundle (admitted_world n).(w_fs).
Proof.
  intros ->. intros [].
  - exists 0, "d"%string. split_and!; [by vm_compute|eexists; split_and!; by vm_compute|done].
  - exists 1, "tt"%string. split_and!; [by vm_compute|eexists; split_and!; by vm_compute|done].
  - exists 2, "ccc"%string. split_and!; [by vm_compute|eexists; split_and!; by vm_compute|done].
  - by vm_compute.
Qed.

Lemma admitted_ready n : (admitted_world n).(w_fs) = (admitted_world 40).(w_fs) -> ready release "1-2" (admitted_world n).(w_fs).
Proof.
  intros ->. split; [|done|..].
  - split; [by left|by apply (bool_decide_unpack _)|done].
  - intros n' i Hn. each_entry Hn; (eexists; eexists; split_and!; by vm_compute).
  - intros d m Hd. assert (Ht : forallb (fun d => forallb (fun m => bool_decide (d !! (backup_prefix m ++ "1-2")%string = None))
        ALL_BUNDLE_MEMBERS) (admitted_world 40).(w_fs).(fs_disks) = true) by by vm_compute.
    rewrite forallb_forall in Ht. specialize (Ht d (proj1 (list_elem_of_In _ _) Hd)). rewrite forallb_forall in Ht.
    apply (bool_decide_unpack _), Is_true_eq_left, Ht. destruct m; simpl; auto.
Qed.

(** An update that dies between two renames, and a power loss that keeps the
    second of them. *)
Definition interrupted : Fs := (update_run true (admitted_world 94)).2.(w_fs).
Definition after_loss : Fs := power_loss (nth 1 interrupted.(fs_disks) ∅) interrupted.
Definition recovered : World := (acquire here (world after_loss [] [])).2.

Lemma update_atomic_witness :
  after_loss.(fs_dir) !! "haider-tui" = Some 4 /\ after_loss.(fs_dir) !! "haider" = Some 2 /\
  exists B, and_target (fun X => X = old_bundle) old_bundle release B /\ coherent_bundle B /\ shows B recovered.(w_fs) /\
    stores B recovered.(w_fs) /\ recovered.(w_fs).(fs_dir) !! MARKER_NAME = None.
Proof.
  split; [by vm_compute|]. split; [by vm_compute|].
  apply (update_atomic "/opt/haider" _ after_loss [] []).
  - apply (h_crash _ _ interrupted); [|apply power_loss_crash, list_elem_of_In, nth_In; vm_compute; lia].
    apply (h_update _ _ staged_fs (dies_after 94) []).
    + apply sample_history.
    + apply (admitted_ok 94). by vm_compute.
    + done.
    + apply admitted_shows. by vm_compute.
    + apply admitted_ready. by vm_compute.
  - unfold recovered, here. apply run_is. by vm_compute.
Defined.

(** An update without a failure, and one whose daemon does not come up. *)
Definition updated (healthy : bool) : World := (update_run healthy (admitted_world 400)).2.

Lemma update_durable_witness :
  shows (target_bundle old_bundle release) (updated true).(w_fs) /\
  (forall d, d ∈ (updated true).(w_fs).(fs_disks) -> d = (updated true).(w_fs).(fs_dir)) /\
  (updated true).(w_fs).(fs_dir) !! MARKER_NAME = None.
Proof.
  apply (update_durable "/opt/haider" (fun X => X = old_bundle) staged_fs (dies_after 400) [] (admitted_world 400) old_bundle release
    "1-2" "1.0.0" own (Reached observed_old) (observed true)).
  - apply sample_history.
  - apply (admitted_ok 400). by vm_compute.
  - done.
  - apply admitted_shows. by vm_compute.
  - apply admitted_ready. by vm_compute.
  - unfold updated, update_run, here. apply run_is. by vm_compute.
Defined.

#[local] Instance sample_errors : HostErrors.
Proof. by split. Qed.

Lemma failed_health_restores_witness :
  (updated false).(w_signals) = [Terminate 42; Kill 77] /\ shows old_bundle (updated false).(w_fs) /\
  (forall d, d ∈ (updated false).(w_fs).(fs_disks) -> d = (updated false).(w_fs).(fs_dir)) /\
  (updated false).(w_fs).(fs_dir) !! MARKER_NAME = None.
Proof.
  split; [by vm_compute|].
  apply (failed_health_restores "/opt/haider" (fun X => X = old_bundle) staged_fs (dies_after 400) [] (admitted_world 400) old_bundle release
    "1-2" "1.0.0" own (Reached observed_old) (observed false) (updated false)
    "updated daemon failed health (updated daemon did not become healthy before the deadline); old daemon restart failed: no such file").
  - apply sample_history.
  - apply (admitted_ok 400). by vm_compute.
  - done.
  - apply admitted_shows. by vm_compute.
  - apply admitted_ready. by vm_compute.
  - unfold updated, update_run, here. apply run_is. by vm_compute.
Defined.

Lemma one_signal_witness :
  (updated false).(w_signals) = [Terminate 42; Kill 77] /\
  exists c pid kills m w1, (updated false).(w_signals) = [] ++ Terminate pid :: kills /\ stops (observed false) kills /\
     Reached observed_old = Reached c /\ c.(peer_pid) = Some pid /\ pid <> 0%N /\
     commit_pair here release "1-2" "1.0.0" (admitted_world 400) = (Ok m, w1) /\
     forall b, b ∈ release.(binaries) -> opens w1.(w_fs).(fs_inodes) (w1.(w_fs).(fs_dir) !! file_name b.(sb_member)) b.(sb_digest).
Proof.
  split; [by vm_compute|].
  destruct (one_signal "/opt/haider" release "1-2" "1.0.0" own (Reached observed_old) (observed false) (admitted_world 400)
    (update_run false (admitted_world 400)).1 (updated false)) as [[Hno _]|(c&pid&kills&m&w1&H1&H2&_&H3&H4&H5&_&_&H6&H7)].
  - apply surjective_pairing.
  - vm_compute in Hno. discriminate Hno.
  - exists c, pid, kills, m, w1. exact (conj H1 (conj H2 (conj H3 (conj H4 (conj H5 (conj H6 H7)))))).
Defined.

Lemma successful_update_hands_over_witness :
  detect_incumbent own (Reached observed_old) = Ok None /\ (updated true).(w_signals) = [] \/
  exists c i, Reached observed_old = Reached c /\ incumbent_from_connected own c = Ok i /\
    (updated true).(w_signals) = [] ++ [Terminate i.(inc_pid)] /\ handed_over "2.0.0" i own (observed true).
Proof.
  apply (successful_update_hands_over "/opt/haider" release "1-2" "1.0.0" own (Reached observed_old) (observed true) (admitted_world 400)).
  unfold updated, update_run, here. apply run_is. by vm_compute.
Defined.

Definition committed_marker : Marker :=
  match (commit_pair here release "1-2" "1.0.0" (admitted_world 400)).1 with Ok m => m | Err _ => {| legacy := true; mk_transaction_id := "";
    mk_old_version := ""; mk_target_version := ""; source_archive_digest := ""; members := []; mk_phase := Prepared |} end.

Definition ok_text {E} (r : result string E) : string := match r with Ok text => text | Err _ => "" end.
Lemma ok_text_ok {E} (r : result string E) : is_empty (ok_text r) = false -> r = Ok (ok_text r).
Proof. by destruct r. Qed.

Lemma committed_marker_wf : well_formed committed_marker.
Proof. apply (decode_wf (ok_text (encode_marker committed_marker))). by vm_compute. Qed.

Lemma marker_round_trip_witness :
  committed_marker.(mk_phase) = RestartPending /\ decode_marker (ok_text (encode_marker committed_marker)) = Ok committed_marker.
Proof.
  split; [by vm_compute|]. apply (proj1 marker_round_trip committed_marker).
  - apply committed_marker_wf.
  - apply ok_text_ok. by vm_compute.
  - by vm_compute.
Defined.

(** ** Reinstalling the same bundle *)

(** A package with the bytes that are installed already, staged read-only. *)
Definition same_release : VerifiedStagedPair :=
  {| binaries := [ {| sb_member := Daemon; sb_path := "haiderd"; sb_digest := sample_digest 1 |};
                   {| sb_member := Tui; sb_path := "haider-tui"; sb_digest := sample_digest 2 |};
                   {| sb_member := Cli; sb_path := "haider"; sb_digest := sample_digest 3 |} ];
     version := "2.0.0"; source_digest := sample_digest 7 |}.
Definition same_staged : Fs :=
  {| fs_dir := old_entries; fs_disks := [old_entries];
     fs_inodes := <[3 := plain "d" 320]> (<[4 := plain "tt" 320]> (<[5 := plain "ccc" 320]> old_inodes));
     fs_next := 6; fs_stage := staged_entries; fs_root := root_directory |}.
Definition reinstall (n : nat) : result unit (Halt UpdateError) * World :=
  let admission := acquire here (world same_staged (dies_after n) []) in
  match admission.1 with Ok _ => install_bundle here same_release "1-2" "1.0.0" admission.2 | Err e => (Err e, admission.2) end.

(** The first admission after it, and the second. *)
Definition readmitted : result unit (Halt UpdateError) * World := acquire here (world (reinstall 104).2.(w_fs) [] []).
Definition readmitted_again : result unit (Halt UpdateError) * World := acquire here (world readmitted.2.(w_fs) [] []).

(** Reinstalling the bundle that is installed, and dying after its renames and
    before its modes are restored, locks the directory: recovery finds every
    old digest in place, drops the backups and the marker, and leaves the
    read-only staged files; each admission is then refused. *)
Theorem reinstall_locks_out :
  (reinstall 104).1 = Err Died /\
  readmitted.1 = Err (Failed (Refused "installed `haiderd` is read-only")) /\
  readmitted.2.(w_fs).(fs_dir) !! MARKER_NAME = None /\
  readmitted_again.1 = Err (Failed (Refused "installed `haiderd` is read-only")).
Proof. split_and!; by vm_compute. Qed.
