(* ===== verification/StagingProps.v ===== *)
(** * Theorems on staging

    The strict reader accepts exactly the archives of a grammar, writes only the
    binaries of the bundle whatever it is given, and a staged pair was checked
    in full. *)

From S2P Require Import Prelude RustStr Digest ByteBuf EffectTypes Json Envelope UpdateFs UpdateMarker Release Update Staging UpdateSteps UpdateCommit UpdateSample.


(** ** Runs without failing calls *)

Lemma call_works op s : s.(sg_faults) = [] -> call op s = (Ok tt, s).
Proof. unfold call. by intros ->. Qed.

Definition advance (n : nat) (s : Stage) : Stage := with_input (drop n s.(sg_input)) s.

Lemma read_exact_works n what s b s' :
  s.(sg_faults) = [] -> (read_exact n what s = (Ok b, s') <-> n <= length s.(sg_input) /\ b = take n s.(sg_input) /\ s' = advance n s).
Proof.
  intros Hf. unfold read_exact, st_bind. rewrite call_works by done. destruct (Nat.ltb_spec (length (sg_input s)) n).
  - split; [done|]. intros (?&_). lia.
  - unfold advance. split; [intros [= <- <-]; by split_and!|]. by intros (_&->&->).
Qed.

Lemma advance_faults n s : (advance n s).(sg_faults) = s.(sg_faults).
Proof. done. Qed.
Lemma advance_advance n m s : advance m (advance n s) = advance (n + m) s.
Proof. unfold advance, with_input. simpl. by rewrite drop_drop. Qed.

Lemma refuse_iff b e s u s' : refuse b e s = (Ok u, s') <-> b = false /\ s' = s.
Proof. apply st_reject_if_ok. Qed.
Lemma st_ret_ok {S E A} (a b : A) (s s' : S) : @st_ret S E A a s = (Ok b, s') <-> b = a /\ s' = s.
Proof. unfold st_ret. naive_solver. Qed.

(** *** Copying *)

Definition appended_to (destination : string) (data : bytes) (s : Stage) : Stage :=
  with_files (alter (fun f => {| sf_data := f.(sf_data) ++ data; sf_mode := f.(sf_mode) |}) destination) s.

Lemma appended_appended d x y s : appended_to d y (appended_to d x s) = appended_to d (x ++ y) s.
Proof.
  unfold appended_to, with_files. simpl. f_equal. apply map_eq. intros p. destruct (decide (p = d)) as [->|Hp].
  - rewrite !lookup_alter_eq. destruct (sg_files s !! d); simpl; [|done]. by rewrite app_assoc.
  - by rewrite !lookup_alter_ne.
Qed.
Lemma appended_nil d s : appended_to d [] s = s.
Proof.
  destruct s as [i f ft]. unfold appended_to, with_files. simpl. f_equal. apply map_eq. intros p. destruct (decide (p = d)) as [->|Hp].
  - rewrite lookup_alter_eq. destruct (f !! d) as [[]|]; simpl; [|done]. by rewrite app_nil_r.
  - by rewrite lookup_alter_ne.
Qed.

Lemma with_input_same s : with_input s.(sg_input) s = s.
Proof. by destruct s. Qed.
Lemma advance_appended n d x s : advance n (appended_to d x s) = appended_to d x (advance n s).
Proof. done. Qed.

Lemma copy_chunks_works fuel d (remaining : N) s s' :
  s.(sg_faults) = [] -> (remaining <= CHUNK * N.of_nat fuel)%N ->
  (copy_chunks fuel d remaining s = (Ok tt, s') <->
   N.to_nat remaining <= length s.(sg_input) /\
   s' = appended_to d (take (N.to_nat remaining) s.(sg_input)) (advance (N.to_nat remaining) s)).
Proof.
  revert remaining s. induction fuel as [|fuel IH]; intros remaining s Hf Hfuel; simpl;
    (destruct (N.eqb_spec remaining 0) as [->|Hr];
     [rewrite st_ret_ok; rewrite take_0, appended_nil; unfold advance; rewrite drop_0, with_input_same; split; [intros [_ ->]; split; [lia|done]|naive_solver]|]); [lia|].
  set (amount := N.min remaining CHUNK). assert (Ha : (0 < amount <= remaining)%N) by (unfold amount, CHUNK in *; lia).
  rewrite st_bind_ok. set (n := N.to_nat amount) in *. split.
  - intros (b&s1&[Hlen [-> ->]]%read_exact_works&H); [|done]. apply st_bind_ok in H as (u&s2&H1&H). rewrite call_works in H1 by done. simplify_eq.
    apply st_bind_ok in H as (u2&s3&H1&H). unfold append_to, st_modify in H1. simplify_eq. fold (appended_to d (take n (sg_input s)) (advance n s)) in H.
    apply IH in H as [Hl ->]; [|done|unfold amount, CHUNK in *; lia]. simpl in Hl. rewrite length_drop in Hl.
    replace (N.to_nat remaining) with (n + N.to_nat (remaining - amount)) by lia. split; [lia|].
    rewrite advance_appended, appended_appended, advance_advance. simpl. by rewrite take_take_drop.
  - intros [Hlen ->]. exists (take n (sg_input s)), (advance n s). split; [apply read_exact_works; [done|split_and!; [lia|done..]]|].
    apply st_bind_ok. exists tt, (advance n s). split; [by rewrite call_works|]. apply st_bind_ok.
    exists tt, (appended_to d (take n (sg_input s)) (advance n s)). split; [done|]. apply IH; [done|unfold amount, CHUNK in *; lia|].
    simpl. rewrite length_drop. split; [lia|]. rewrite advance_appended, appended_appended, advance_advance, take_take_drop.
    by replace (n + N.to_nat (remaining - amount)) with (N.to_nat remaining) by lia.
Qed.

Lemma extract_member_works d (size : N) s s' :
  s.(sg_faults) = [] ->
  (extract_member d size s = (Ok tt, s') <->
   s.(sg_files) !! d = None /\ N.to_nat size <= length s.(sg_input) /\
   s' = with_files (<[d := {| sf_data := take (N.to_nat size) s.(sg_input); sf_mode := 448 |}]>) (advance (N.to_nat size) s)).
Proof.
  intros Hf. unfold extract_member, create_file. rewrite st_bind_ok.
  set (made := with_files (<[d := {| sf_data := []; sf_mode := 448 |}]>) s).
  assert (Hmade : appended_to d (take (N.to_nat size) (sg_input made)) (advance (N.to_nat size) made) =
    with_files (<[d := {| sf_data := take (N.to_nat size) s.(sg_input); sf_mode := 448 |}]>) (advance (N.to_nat size) s)).
  { unfold appended_to, made, advance, with_files, with_input. simpl. f_equal. apply map_eq. intros p. destruct (decide (p = d)) as [->|Hp].
    - by rewrite lookup_alter_eq, !lookup_insert_eq.
    - by rewrite lookup_alter_ne, !lookup_insert_ne. }
  assert (Hfuel : (size <= CHUNK * N.of_nat (S (N.to_nat (size / CHUNK))))%N).
  { pose proof (N.mul_succ_div_gt size CHUNK ltac:(done)). lia. }
  split.
  - intros (u&s1&H1&H). apply st_bind_ok in H1 as (u1&s0&H0&H1). rewrite call_works in H0 by done. injection H0 as _ <-.
    destruct (sg_files s !! d) eqn:E; [done|]. injection H1 as _ <-. fold made in H. apply st_bind_ok in H as ([]&s2&H2&H3).
    apply copy_chunks_works in H2 as [Hl ->]; [|done|done]. rewrite call_works, Hmade in H3 by done. by simplify_eq.
  - intros (Hn&Hl&->). exists tt, made. split.
    + apply st_bind_ok. exists tt, s. split; [by rewrite call_works|]. by rewrite Hn.
    + apply st_bind_ok. exists tt, (appended_to d (take (N.to_nat size) (sg_input made)) (advance (N.to_nat size) made)).
      split; [by apply copy_chunks_works|]. rewrite call_works by done. by rewrite Hmade.
Qed.

(** ** The grammar of archives *)

Record Entry := { en_header : bytes; en_path : string; en_mode : N; en_size : N; en_data : bytes }.

Definition kind_of (header : bytes) : ascii := default NUL (header !! 156).
Definition padding_of (size : N) : nat := N.to_nat ((512 - size mod 512) mod 512).

(** A header that names an expected member, and the data it announces: none
    for the directory, an executable of admitted size for a binary. *)
Record entry_ok (top : string) (e : Entry) : Prop := {
  eo_length : length e.(en_header) = 512;
  eo_data_header : all_zero e.(en_header) = false;
  eo_checksum : validate_header_checksum e.(en_header) = Ok tt;
  eo_path : archive_path e.(en_header) = Ok e.(en_path);
  eo_mode : parse_octal (field 100 108 e.(en_header)) "mode" = Ok e.(en_mode);
  eo_size : parse_octal (field 124 136 e.(en_header)) "size" = Ok e.(en_size);
  eo_data : length e.(en_data) = N.to_nat e.(en_size);
  eo_expected : e.(en_path) ∈ expected top;
  eo_kind : if decide (e.(en_path) = expected_dir top) then kind_of e.(en_header) = "5"%char /\ e.(en_size) = 0%N
            else (kind_of e.(en_header) = NUL \/ kind_of e.(en_header) = "0"%char) /\ N.land e.(en_mode) 64 <> 0%N /\
                 (0 < e.(en_size) <= MAX_BINARY_BYTES)%N
}.

Definition zeros (n : nat) : bytes := replicate n NUL.
Definition entry_body (e : Entry) : bytes := e.(en_data) ++ zeros (padding_of e.(en_size)).
Definition entry_bytes (e : Entry) : bytes := e.(en_header) ++ entry_body e.

(** What extraction makes of an entry. *)
Definition extracted (top : string) (e : Entry) (files : gmap string StagedFile) : gmap string StagedFile :=
  if decide (e.(en_path) = expected_dir top) then files
  else <[e.(en_path) := {| sf_data := e.(en_data); sf_mode := 448 |}]> files.

Lemma all_zero_iff b : all_zero b = true <-> b = zeros (length b).
Proof.
  unfold all_zero, zeros. induction b as [|c b IH]; [done|]. cbn [forallb length replicate]. rewrite andb_true_iff, IH. split.
  - intros [Hc ->]. apply Ascii.eqb_eq in Hc as <-. by rewrite length_replicate.
  - intros [= -> Hb]. split; [apply Ascii.eqb_refl|]. done.
Qed.

Lemma take_split {A} (l : list A) (a b : list A) : l = a ++ b -> take (length a) l = a /\ drop (length a) l = b.
Proof. intros ->. by rewrite take_app_length, drop_app_length. Qed.

Lemma skip_padding_works size s s' :
  s.(sg_faults) = [] ->
  (skip_padding_only size s = (Ok tt, s') <-> exists rest, s.(sg_input) = zeros (padding_of size) ++ rest /\ s' = with_input rest s).
Proof.
  intros Hf. unfold skip_padding_only, padding_of. set (p := ((512 - size mod 512) mod 512)%N).
  destruct (N.eqb_spec p 0) as [Hp|Hp].
  - rewrite st_ret_ok, Hp. simpl. split.
    + intros [_ ->]. exists (sg_input s). by rewrite with_input_same.
    + intros (rest&E&->). split; [done|]. simpl in E. by rewrite <-E, with_input_same.
  - rewrite st_bind_ok. split.
    + intros (b&s1&(Hl&->&->)%read_exact_works&[Hz%negb_false_iff ->]%refuse_iff); [|done]. apply all_zero_iff in Hz.
      rewrite length_take, Nat.min_l in Hz by done. exists (drop (N.to_nat p) (sg_input s)). rewrite <-Hz, take_drop. done.
    + intros (rest&E&->). assert (Hlen : length (zeros (N.to_nat p)) = N.to_nat p) by apply length_replicate.
      destruct (take_split _ _ _ E) as [Ht Hd]. rewrite Hlen in Ht, Hd.
      exists (zeros (N.to_nat p)), (with_input rest s). split.
      * apply read_exact_works; [done|]. rewrite E, length_app, Hlen. split_and!; [lia|by rewrite E in Ht|]. unfold advance. by rewrite Hd.
      * apply refuse_iff. split; [|done]. apply negb_false_iff, all_zero_iff. by rewrite Hlen.
Qed.

(** *** One member *)

Lemma expected_cases top p : p ∈ expected top <-> p = expected_dir top \/ exists m, m ∈ BUNDLE_MEMBERS /\ p = member_path top m.
Proof.
  unfold expected. rewrite elem_of_list_to_set, elem_of_cons, list_elem_of_fmap. naive_solver.
Qed.

(** After the member [e] the input is [rest]. *)
Definition after_entry (top : string) (e : Entry) (rest : bytes) (s : Stage) : Stage := with_files (extracted top e) (with_input rest s).

Lemma after_dir top e rest s : e.(en_path) = expected_dir top -> after_entry top e rest s = with_input rest s.
Proof. intros He. unfold after_entry, with_files, extracted. rewrite decide_True by done. by destruct s. Qed.
Lemma after_binary top e rest s :
  e.(en_path) <> expected_dir top ->
  after_entry top e rest s = with_files (<[e.(en_path) := {| sf_data := e.(en_data); sf_mode := 448 |}]>) (with_input rest s).
Proof. intros He. unfold after_entry, with_files, extracted. by rewrite decide_False. Qed.

Lemma archive_member_sound top header seen s seen' s' :
  s.(sg_faults) = [] -> length header = 512 -> all_zero header = false ->
  archive_member top header seen s = (Ok seen', s') ->
  exists e rest, e.(en_header) = header /\ entry_ok top e /\ (e.(en_path) ∉ seen) /\ seen' = {[e.(en_path)]} ∪ seen /\
    (e.(en_path) <> expected_dir top -> s.(sg_files) !! e.(en_path) = None) /\
    s.(sg_input) = entry_body e ++ rest /\ s' = after_entry top e rest s.
Proof.
  intros Hf Hlen Hnz H. unfold archive_member in H.
  apply st_bind_ok in H as ([]&?&[Hck ->]%st_lift_ok&H). apply st_bind_ok in H as (path&?&[Hpath ->]%st_lift_ok&H).
  apply st_bind_ok in H as (?&?&[Hex%negb_false_iff ->]%refuse_iff&H). apply bool_decide_eq_true in Hex.
  apply st_bind_ok in H as (?&?&[Hseen ->]%refuse_iff&H). apply bool_decide_eq_false in Hseen.
  apply st_bind_ok in H as (?&?&[_ ->]%refuse_iff&H). apply st_bind_ok in H as (mode&?&[Hmode ->]%st_lift_ok&H).
  apply st_bind_ok in H as (size&?&[Hsize ->]%st_lift_ok&H). apply st_bind_ok in H as ([]&s1&Hbody&H).
  apply st_bind_ok in H as ([]&s2&Hpad&[-> ->]%st_ret_ok). fold (kind_of header) in Hbody.
  destruct (String.eqb_spec path (expected_dir top)) as [Hd|Hd].
  - apply refuse_iff in Hbody as [Hk ->]. apply orb_false_iff in Hk as [Hk%negb_false_iff%Ascii.eqb_eq Hz%negb_false_iff%N.eqb_eq]. subst size.
    unfold skip_padding in Hpad. simpl in Hpad. apply st_bind_ok in Hpad as (?&?&[_ ->]%st_ret_ok&Hpad).
    apply skip_padding_works in Hpad as (rest&Hrest&->); [|done]. simpl in Hrest.
    exists {| en_header := header; en_path := path; en_mode := mode; en_size := 0; en_data := [] |}, rest.
    split_and!; [done| |done|done|done|done|].
    + split; cbn [en_header en_path en_mode en_size en_data]; try done. by rewrite decide_True.
    + by rewrite after_dir.
  - apply st_bind_ok in Hbody as (?&?&[Hk ->]%refuse_iff&Hbody). apply st_bind_ok in Hbody as (?&?&[Hm ->]%refuse_iff&Hbody).
    apply st_bind_ok in Hbody as (?&?&[Hz ->]%refuse_iff&Hbody). apply extract_member_works in Hbody as (Hn&Hl&->); [|done].
    apply skip_padding_works in Hpad as (rest&Hrest&->); [|done]. simpl in Hrest.
    apply orb_false_iff in Hz as [Hz%N.eqb_neq Hmax%N.ltb_ge]. apply N.eqb_neq in Hm.
    apply negb_false_iff, orb_true_iff in Hk. rewrite !Ascii.eqb_eq in Hk.
    exists {| en_header := header; en_path := path; en_mode := mode; en_size := size; en_data := take (N.to_nat size) s.(sg_input) |}, rest.
    split_and!; [done| |done|done|done| |].
    + split; cbn [en_header en_path en_mode en_size en_data]; try done; [by rewrite length_take, Nat.min_l|]. rewrite decide_False by done. split_and!; [done..|lia|done].
    + unfold entry_body. simpl. by rewrite <-app_assoc, <-Hrest, take_drop.
    + by rewrite after_binary.
Qed.

Lemma archive_member_complete top e rest seen s :
  s.(sg_faults) = [] -> entry_ok top e -> e.(en_path) ∉ seen -> size ({[e.(en_path)]} ∪ seen) <= size (expected top) ->
  (e.(en_path) <> expected_dir top -> s.(sg_files) !! e.(en_path) = None) -> s.(sg_input) = entry_body e ++ rest ->
  archive_member top e.(en_header) seen s = (Ok ({[e.(en_path)]} ∪ seen), after_entry top e rest s).
Proof.
  intros Hf [Hlen Hnz Hck Hpath Hmode Hsize Hdata Hex Hkind] Hseen Hcard Hnew Hin. unfold archive_member.
  apply st_bind_ok. exists tt, s. split; [by apply st_lift_ok|]. apply st_bind_ok. exists (en_path e), s. split; [by apply st_lift_ok|].
  apply st_bind_ok. exists tt, s. split; [apply refuse_iff; split; [by rewrite bool_decide_true|done]|].
  apply st_bind_ok. exists tt, s. split; [apply refuse_iff; split; [by rewrite bool_decide_false|done]|].
  apply st_bind_ok. exists tt, s. split; [apply refuse_iff; split; [by apply Nat.ltb_ge|done]|].
  apply st_bind_ok. exists (en_mode e), s. split; [by apply st_lift_ok|].
  apply st_bind_ok. exists (en_size e), s. split; [by apply st_lift_ok|]. fold (kind_of (en_header e)).
  unfold entry_body in Hin. apply st_bind_ok.
  destruct (String.eqb_spec (en_path e) (expected_dir top)) as [Hd|Hd].
  - rewrite decide_True in Hkind by done. rewrite after_dir by done. destruct Hkind as [Hk Hz]. rewrite Hz in *. destruct (en_data e); [|done]. simpl in Hin.
    exists tt, s. split; [apply refuse_iff; by rewrite Hk|]. apply st_bind_ok. exists tt, (with_input rest s). split.
    + unfold skip_padding. simpl. apply st_bind_ok. exists tt, s. split; [done|]. apply skip_padding_works; [done|]. by exists rest.
    + apply st_ret_ok. split; [done|]. by destruct s.
  - rewrite decide_False in Hkind by done. rewrite after_binary by done. destruct Hkind as (Hk&Hm&Hz).
    rewrite <-app_assoc in Hin. destruct (take_split _ _ _ Hin) as [Ht Hdr]. rewrite Hdata in Ht, Hdr.
    exists tt, (with_files (<[en_path e := {| sf_data := en_data e; sf_mode := 448 |}]>) (advance (N.to_nat (en_size e)) s)). split.
    + apply st_bind_ok. exists tt, s. split; [apply refuse_iff; split; [|done]; apply negb_false_iff, orb_true_iff; by rewrite !Ascii.eqb_eq|].
      apply st_bind_ok. exists tt, s. split; [apply refuse_iff; split; [by apply N.eqb_neq|done]|].
      apply st_bind_ok. exists tt, s. split.
      { apply refuse_iff. split; [|done]. apply orb_false_iff. rewrite N.eqb_neq, N.ltb_ge. lia. }
      apply extract_member_works; [done|]. split_and!; [auto| |by rewrite Ht]. rewrite Hin, length_app. lia.
    + apply st_bind_ok. exists tt, (with_input rest (with_files (<[en_path e := {| sf_data := en_data e; sf_mode := 448 |}]>) (advance (N.to_nat (en_size e)) s))).
      split; [apply skip_padding_works; [done|]; exists rest; by split|]. apply st_ret_ok. split; [done|]. by destruct s.
Qed.

(** *** The loop *)

Lemma zeros_add n m : zeros (n + m) = zeros n ++ zeros m.
Proof. apply replicate_add. Qed.
Lemma zeros_1024 : zeros 1024 = zeros 512 ++ zeros 512.
Proof. apply (zeros_add 512 512). Qed.
Lemma length_zeros n : length (zeros n) = n.
Proof. apply length_replicate. Qed.
Lemma all_zero_zeros n : all_zero (zeros n) = true.
Proof. apply all_zero_iff. by rewrite length_zeros. Qed.

Local Opaque zeros.

Definition extract_all (top : string) (es : list Entry) (files : gmap string StagedFile) : gmap string StagedFile :=
  foldl (fun files e => extracted top e files) files es.
Definition after_entries (top : string) (es : list Entry) (rest : bytes) (s : Stage) : Stage :=
  with_files (extract_all top es) (with_input rest s).

Lemma after_cons top e es mid rest s :
  after_entries top es rest (after_entry top e mid s) = after_entries top (e :: es) rest s.
Proof. done. Qed.
Lemma after_faults top e rest s : (after_entry top e rest s).(sg_faults) = s.(sg_faults).
Proof. done. Qed.

Lemma read_header_ok s b s1 :
  s.(sg_faults) = [] -> read_exact 512 "archive header" s = (Ok b, s1) ->
  length b = 512 /\ s.(sg_input) = b ++ s1.(sg_input) /\ s1 = with_input s1.(sg_input) s.
Proof.
  intros Hf (Hl&->&->)%read_exact_works; [|done]. rewrite length_take, Nat.min_l by done. simpl. rewrite take_drop. by destruct s.
Qed.
Lemma read_header_run s b rest :
  s.(sg_faults) = [] -> length b = 512 -> s.(sg_input) = b ++ rest -> read_exact 512 "archive header" s = (Ok b, with_input rest s).
Proof.
  intros Hf Hb Hin. destruct (take_split _ _ _ Hin) as [Ht Hd]. rewrite Hb in Ht, Hd.
  apply read_exact_works; [done|]. unfold advance. rewrite Ht, Hd, Hin, length_app. split_and!; [lia|done..].
Qed.

(** Behind the first zero block only a second one is accepted. *)
Lemma loop_end fuel top seen s seen' s' :
  s.(sg_faults) = [] ->
  (archive_loop (S fuel) top seen 1 s = (Ok seen', s') <-> exists rest, s.(sg_input) = zeros 512 ++ rest /\ seen' = seen /\ s' = with_input rest s).
Proof.
  intros Hf. cbn [archive_loop]. rewrite st_bind_ok. split.
  - intros (b&s1&(Hb&Hin&Hs1)%read_header_ok&H); [|done]. destruct (all_zero b) eqn:Hz.
    + cbn in H. apply st_ret_ok in H as [-> ->]. apply all_zero_iff in Hz. rewrite Hb in Hz. exists (sg_input s1). by rewrite <-Hz.
    + by apply st_bind_ok in H as (?&?&[? _]%refuse_iff&_).
  - intros (rest&Hin&->&->). exists (zeros 512), (with_input rest s). split; [by apply read_header_run|]. by cbn.
Qed.

Definition paths (es : list Entry) : gset string := list_to_set (map en_path es).

Lemma loop_sound fuel top seen s seen' s' :
  s.(sg_faults) = [] -> archive_loop fuel top seen 0 s = (Ok seen', s') ->
  exists es rest, s.(sg_input) = concat (map entry_bytes es) ++ zeros 1024 ++ rest /\ Forall (entry_ok top) es /\
    NoDup (map en_path es) /\ paths es ## seen /\ seen' = paths es ∪ seen /\ s' = after_entries top es rest s.
Proof.
  revert seen s. induction fuel as [|fuel IH]; intros seen s Hf; [done|]. cbn [archive_loop].
  intros (b&s1&(Hb&Hin&Hs1)%read_header_ok&H)%st_bind_ok; [|done]. destruct (all_zero b) eqn:Hz.
  - cbn in H. destruct fuel as [|fuel]; [done|]. apply loop_end in H as (rest&Hr&->&->); [|by rewrite Hs1].
    apply all_zero_iff in Hz. rewrite Hb in Hz. exists [], rest. split_and!.
    + rewrite Hin, Hz, Hr. cbn [map concat app]. by rewrite zeros_1024, <-app_assoc.
    + constructor.
    + constructor.
    + set_solver.
    + set_solver.
    + rewrite Hs1. unfold after_entries, extract_all. by destruct s.
  - apply st_bind_ok in H as (?&?&[_ ->]%refuse_iff&H). apply st_bind_ok in H as (seen1&s2&Hm&H).
    apply archive_member_sound in Hm as (e&rest1&Heh&He&Hns&->&_&Hbody&->); [|by rewrite Hs1|done..].
    apply IH in H as (es&rest&Hes&Hok&Hnd&Hdis&->&->); [|by rewrite Hs1]. exists (e :: es), rest. split_and!.
    + rewrite Hin, Hbody, <-Heh. change (rest1 = concat (map entry_bytes es) ++ zeros 1024 ++ rest) in Hes. rewrite Hes. cbn [map concat]. unfold entry_bytes. by rewrite !app_assoc.
    + by constructor.
    + simpl. constructor; [|done]. intros Hx. apply (Hdis (en_path e)); [by apply elem_of_list_to_set|set_solver].
    + unfold paths in *. simpl. set_solver.
    + unfold paths. simpl. set_solver.
    + rewrite Hs1. rewrite after_cons. by destruct s.
Qed.

Lemma extracted_other top e p files : e.(en_path) <> p -> extracted top e files !! p = files !! p.
Proof. intros Hp. unfold extracted. destruct (decide _); [done|]. by rewrite lookup_insert_ne. Qed.

Lemma loop_complete fuel top seen s es rest :
  s.(sg_faults) = [] -> S (length es) < fuel -> s.(sg_input) = concat (map entry_bytes es) ++ zeros 1024 ++ rest ->
  Forall (entry_ok top) es -> NoDup (map en_path es) -> paths es ## seen -> seen ⊆ expected top ->
  (forall e, e ∈ es -> e.(en_path) <> expected_dir top -> s.(sg_files) !! e.(en_path) = None) ->
  archive_loop fuel top seen 0 s = (Ok (paths es ∪ seen), after_entries top es rest s).
Proof.
  revert fuel seen s. induction es as [|e es IH]; intros [|fuel] seen s Hf Hfuel Hin Hok Hnd Hdis Hsub Hnew; simpl in Hfuel; try lia.
  - cbn [map concat app] in Hin. rewrite zeros_1024, <-app_assoc in Hin.
    cbn [archive_loop]. apply st_bind_ok. exists (zeros 512), (with_input (zeros 512 ++ rest) s). split; [by apply read_header_run|].
    rewrite all_zero_zeros. cbn [N.min N.add]. destruct fuel as [|fuel]; [lia|].
    apply loop_end; [done|]. exists rest. split_and!; [done|unfold paths; set_solver|by destruct s].
  - apply Forall_cons in Hok as [He Hok]. simpl in Hnd. apply NoDup_cons in Hnd as [Hnin Hnd].
    set (mid := concat (map entry_bytes es) ++ zeros 1024 ++ rest).
    assert (Hin' : s.(sg_input) = en_header e ++ entry_body e ++ mid).
    { rewrite Hin. cbn [map concat]. unfold entry_bytes, mid. by rewrite !app_assoc. }
    cbn [archive_loop]. apply st_bind_ok. exists (en_header e), (with_input (entry_body e ++ mid) s).
    split; [apply read_header_run; [done|apply He|done]|]. rewrite (eo_data_header _ _ He).
    apply st_bind_ok. exists tt, (with_input (entry_body e ++ mid) s). split; [by apply refuse_iff|]. apply st_bind_ok.
    exists ({[en_path e]} ∪ seen), (after_entry top e mid (with_input (entry_body e ++ mid) s)). split.
    + apply archive_member_complete; [done..|by unfold paths in Hdis; simpl in Hdis; set_solver| |by intros; apply Hnew; [left|]|done].
      apply subseteq_size. pose proof (eo_expected _ _ He). set_solver.
    + rewrite (IH fuel _ (after_entry top e mid (with_input (entry_body e ++ mid) s))); [|done|lia|done|done|done|..].
      * f_equal. f_equal. unfold paths. simpl. set_solver.
      * unfold paths in *. simpl in Hdis. intros p Hp [->%elem_of_singleton|Hp']%elem_of_union; [|set_solver].
        apply Hnin. by apply elem_of_list_to_set in Hp.
      * pose proof (eo_expected _ _ He). set_solver.
      * intros e' He' Hd. simpl. rewrite extracted_other; [apply Hnew; [by right|done]|]. intros Heq. apply Hnin. rewrite Heq. by apply list_elem_of_fmap_2.
Qed.

(** ** The format *)

Record archive_ok (top : string) (es : list Entry) : Prop := {
  ao_entries : Forall (entry_ok top) es;
  ao_once : NoDup (map en_path es);
  ao_all : paths es = expected top
}.
(** The entries, two zero blocks, and the padding of the last record. *)
Definition archive_stream (es : list Entry) (k : nat) : bytes := concat (map entry_bytes es) ++ zeros 1024 ++ zeros k.

Lemma entries_bound top es : Forall (entry_ok top) es -> length es <= length (concat (map entry_bytes es)).
Proof.
  induction 1 as [|e es He _ IH]; [done|]. cbn [map concat length]. unfold entry_bytes at 1. rewrite !length_app, (eo_length _ _ He). lia.
Qed.

Lemma read_to_end_works limit what s b s' :
  s.(sg_faults) = [] -> (read_to_end limit what s = (Ok b, s') <-> b = take limit s.(sg_input) /\ s' = advance limit s).
Proof. intros Hf. unfold read_to_end, st_bind. rewrite call_works by done. unfold advance. split; [by intros [= <- <-]|by intros [-> ->]]. Qed.

Lemma trailer_works rest :
  ((MAX_TRAILING_ARCHIVE_BYTES <? length (take (S MAX_TRAILING_ARCHIVE_BYTES) rest))%nat || negb (all_zero (take (S MAX_TRAILING_ARCHIVE_BYTES) rest)) = false)
  <-> exists k, k <= MAX_TRAILING_ARCHIVE_BYTES /\ rest = zeros k.
Proof.
  set (m := MAX_TRAILING_ARCHIVE_BYTES). rewrite orb_false_iff, negb_false_iff, Nat.ltb_ge, length_take. split.
  - intros [Hl Hz]. rewrite take_ge in Hz by lia. apply all_zero_iff in Hz. exists (length rest). split; [lia|done].
  - intros (k&Hk&->). rewrite length_zeros, take_ge by (rewrite length_zeros; lia). split; [lia|apply all_zero_zeros].
Qed.

Lemma parse_ustar_run top s u s' :
  s.(sg_faults) = [] -> parse_ustar top s = (Ok u, s') ->
  exists es k, s.(sg_input) = archive_stream es k /\ k <= MAX_TRAILING_ARCHIVE_BYTES /\ archive_ok top es /\
    s' = with_files (extract_all top es) (with_input [] s).
Proof.
  intros Hf. unfold parse_ustar. intros (?&?&[= <- <-]&(seen&s1&H1&H)%st_bind_ok)%st_bind_ok.
  apply loop_sound in H1 as (es&rest&Hin&Hok&Hnd&_&->&->); [|done].
  apply st_bind_ok in H as (?&?&[He%negb_false_iff%bool_decide_eq_true ->]%refuse_iff&H).
  apply st_bind_ok in H as (b&s2&[-> ->]%read_to_end_works&H); [|done].
  apply st_bind_ok in H as (?&?&[Ht ->]%refuse_iff&H). rewrite call_works in H by done. injection H as _ <-.
  change (sg_input (after_entries top es rest s)) with rest in Ht. apply trailer_works in Ht as (k&Hk&->).
  exists es, k. split_and!; [done|done|split; [done|done|by rewrite <-He, union_empty_r_L]|].
  unfold advance, after_entries. simpl. rewrite drop_ge; [done|]. rewrite length_zeros. lia.
Qed.

(** C22: The strict reader accepts exactly the archives of a release: entries
    with a valid header for the top directory and for every required binary,
    each once and in any order, padded with zeros to whole blocks, then two
    zero blocks and at most 64 KiB of zeros; and it writes the data of each
    binary, executable by the owner only, and nothing else. *)
Theorem archive_grammar top s s' :
  s.(sg_faults) = [] -> (forall m, m ∈ BUNDLE_MEMBERS -> s.(sg_files) !! member_path top m = None) ->
  (parse_ustar top s = (Ok tt, s') <->
   exists es k, s.(sg_input) = archive_stream es k /\ k <= MAX_TRAILING_ARCHIVE_BYTES /\ archive_ok top es /\
     s' = with_files (extract_all top es) (with_input [] s)).
Proof.
  intros Hf Hnew. split.
  - by apply parse_ustar_run.
  - intros (es&k&Hin&Hk&[Hok Hnd Hall]&->). unfold parse_ustar. apply st_bind_ok. exists s, s. split; [done|].
    apply st_bind_ok. exists (paths es ∪ ∅), (after_entries top es (zeros k) s). split.
    { apply loop_complete; [done| |done|done|done|apply disjoint_empty_r|apply empty_subseteq|].
      - rewrite Hin. unfold archive_stream. rewrite !length_app, !length_zeros. pose proof (entries_bound _ _ Hok). lia.
      - intros e He Hd. assert (He' : en_path e ∈ expected top) by (rewrite Forall_forall in Hok; by apply (eo_expected _ _ (Hok e He))).
        apply expected_cases in He' as [Hx|(m&Hm&->)]; [by destruct Hd|auto]. }
    apply st_bind_ok. exists tt, (after_entries top es (zeros k) s). split.
    { apply refuse_iff. split; [|done]. apply negb_false_iff, bool_decide_eq_true. by rewrite union_empty_r_L. }
    apply st_bind_ok. exists (take (S MAX_TRAILING_ARCHIVE_BYTES) (zeros k)), (with_files (extract_all top es) (with_input [] s)). split.
    { apply read_to_end_works; [done|]. split; [done|]. unfold advance, after_entries. simpl. rewrite drop_ge; [done|]. rewrite length_zeros. lia. }
    apply st_bind_ok. eexists tt, _. split; [apply refuse_iff; split; [|done]; apply trailer_works; by exists k|]. by apply call_works.
Qed.

(** ** Any run *)

Definition no_fuel : UpdateError := Internal "out of fuel".

(** Files that were there are kept; a new one is a binary of the bundle. *)
Definition confined (top : string) (s s' : Stage) : Prop := forall p,
  s'.(sg_files) !! p = s.(sg_files) !! p \/
  s.(sg_files) !! p = None /\ exists m f, m ∈ BUNDLE_MEMBERS /\ p = member_path top m /\ s'.(sg_files) !! p = Some f /\
    (N.of_nat (length f.(sf_data)) <= MAX_BINARY_BYTES)%N /\ f.(sf_mode) = 448%N.

Lemma confined_refl top s : confined top s s.
Proof. by left. Qed.
Lemma confined_trans top s1 s2 s3 : confined top s1 s2 -> confined top s2 s3 -> confined top s1 s3.
Proof.
  intros H12 H23 p. destruct (H12 p) as [E|(Hn&m&f&Hm&Hp&Hf&Hl)], (H23 p) as [E'|(Hn'&m'&f'&Hm'&Hp'&Hf'&Hl')].
  - left. congruence.
  - right. split; [congruence|]. by exists m', f'.
  - right. split; [done|]. exists m, f. by rewrite E'.
  - congruence.
Qed.

(** One run: it is confined, reads forward and does not run out of fuel. *)
Record tame (top : string) {A} (m : StageM A) (s : Stage) : Prop := {
  tame_files : confined top s (m s).2;
  tame_input : length (m s).2.(sg_input) <= length s.(sg_input);
  tame_fuel : (m s).1 <> Err no_fuel
}.

Lemma tame_bind top {A B} (m : StageM A) (k : A -> StageM B) s :
  tame top m s -> (forall a s1, m s = (Ok a, s1) -> tame top (k a) s1) -> tame top (st_bind m k) s.
Proof.
  intros [Hf Hi Hx] Hk. destruct (m s) as [[a|e] s1] eqn:Hm; simpl in *.
  - destruct (Hk a s1 eq_refl) as [Hf' Hi' Hx']. split; unfold st_bind; rewrite Hm; [by eapply confined_trans|lia|done].
  - split; unfold st_bind; rewrite Hm; try done. simpl. naive_solver.
Qed.

Lemma tame_same top {A} (m : StageM A) s : (m s).2.(sg_files) = s.(sg_files) ->
  length (m s).2.(sg_input) <= length s.(sg_input) -> (m s).1 <> Err no_fuel -> tame top m s.
Proof. intros Hf Hi Hx. split; [|done..]. intros p. left. by rewrite Hf. Qed.

Lemma tame_ret top {A} (a : A) s : tame top (st_ret a) s.
Proof. by apply tame_same. Qed.
Lemma tame_refuse top b e s : tame top (refuse b e) s.
Proof. by apply tame_same; destruct b. Qed.
Lemma tame_lift top {A} (r : result A UpdateError) s : r <> Err no_fuel -> tame top (st_lift r) s.
Proof. intros Hr. by apply tame_same. Qed.
Lemma tame_call top op s : tame top (call op) s.
Proof. unfold call. by apply tame_same; unfold call; destruct (sg_faults s) as [|[]]. Qed.
Lemma tame_skip top n s : tame top (st_modify (fun s => with_input (drop n s.(sg_input)) s)) s.
Proof. apply tame_same; simpl; [done| |done]. rewrite length_drop. lia. Qed.
Lemma tame_read top n what s : tame top (read_exact n what) s.
Proof.
  apply tame_bind; [apply tame_call|]. intros _ s1 _. apply tame_same; simpl; destruct (_ <? _)%nat; simpl; try done; [lia|].
  rewrite length_drop. lia.
Qed.
Lemma tame_read_to_end top n what s : tame top (read_to_end n what) s.
Proof.
  apply tame_bind; [apply tame_call|]. intros _ s1 _. apply tame_same; simpl; try done. rewrite length_drop. lia.
Qed.

Create HintDb tame.
#[local] Hint Resolve tame_ret tame_refuse tame_call tame_skip tame_read tame_read_to_end : tame.

Lemma tame_skip_padding_only top (size : N) s : tame top (skip_padding_only size) s.
Proof. unfold skip_padding_only. destruct (N.eqb _ _); [auto with tame|]. apply tame_bind; [auto with tame|]. intros. auto with tame. Qed.
Lemma tame_skip_padding top (size : N) s : tame top (skip_padding size) s.
Proof.
  unfold skip_padding. apply tame_bind; [|intros; apply tame_skip_padding_only].
  destruct (N.eqb _ _); [auto with tame|]. apply tame_bind; auto with tame.
Qed.

(** *** Reading a binary *)

(** The file at [d] grows by at most [n] bytes and the others are kept. *)
Record grows (d : string) (n : N) {A} (m : StageM A) (s : Stage) : Prop := {
  grow_others : forall p, p <> d -> (m s).2.(sg_files) !! p = s.(sg_files) !! p;
  grow_file : forall f, s.(sg_files) !! d = Some f -> exists g, (m s).2.(sg_files) !! d = Some g /\
    g.(sf_mode) = f.(sf_mode) /\ (N.of_nat (length g.(sf_data)) <= N.of_nat (length f.(sf_data)) + n)%N;
  grow_input : length (m s).2.(sg_input) <= length s.(sg_input);
  grow_fuel : (m s).1 <> Err no_fuel
}.

Lemma grows_same d {A} (m : StageM A) s : (m s).2.(sg_files) = s.(sg_files) -> length (m s).2.(sg_input) <= length s.(sg_input) ->
  (m s).1 <> Err no_fuel -> grows d 0 m s.
Proof. intros Hf Hi Hx. split; [by rewrite Hf| |done|done]. intros f Hd. exists f. rewrite Hf. split_and!; [done..|lia]. Qed.

Lemma grows_bind d n1 n2 {A B} (m : StageM A) (k : A -> StageM B) s :
  grows d n1 m s -> (forall a s1, m s = (Ok a, s1) -> grows d n2 (k a) s1) -> grows d (n1 + n2) (st_bind m k) s.
Proof.
  intros [Ho Hf Hi Hx] Hk. destruct (m s) as [[a|e] s1] eqn:Hm; simpl in *.
  - destruct (Hk a s1 eq_refl) as [Ho' Hf' Hi' Hx']. split; unfold st_bind; rewrite Hm; [|intros f Hd|lia|done].
    + intros p Hp. by rewrite Ho', Ho.
    + destruct (Hf f Hd) as (g&Hg&Hgm&Hgl), (Hf' g Hg) as (g'&Hg'&Hgm'&Hgl'). exists g'. split_and!; [done|congruence|lia].
  - split; unfold st_bind; rewrite Hm; simpl; [done|intros f Hd|done|naive_solver].
    destruct (Hf f Hd) as (g&Hg&Hgm&Hgl). exists g. split_and!; [done..|lia].
Qed.

Lemma call_same op s : (call op s).2.(sg_files) = s.(sg_files) /\ (call op s).2.(sg_input) = s.(sg_input) /\ (call op s).1 <> Err no_fuel.
Proof. unfold call. by destruct (sg_faults s) as [|[]]. Qed.
Lemma grows_call d op s : grows d 0 (call op) s.
Proof. destruct (call_same op s) as (Hf&Hi&Hx). apply grows_same; [done|by rewrite Hi|done]. Qed.
Lemma grows_read d n what s : grows d 0 (read_exact n what) s.
Proof.
  apply (grows_bind d 0 0); [apply grows_call|]. intros _ s1 _. apply grows_same; simpl; destruct (_ <? _)%nat; simpl; try done; [lia|].
  rewrite length_drop. lia.
Qed.
Lemma read_exact_length n what s b s' : read_exact n what s = (Ok b, s') -> length b = n /\ length s'.(sg_input) + n <= length s.(sg_input).
Proof.
  intros (?&s1&H1&H)%st_bind_ok. assert (Hi : sg_input s1 = sg_input s) by (pose proof (call_same what s) as (_&Hi&_); by rewrite H1 in Hi).
  destruct (Nat.ltb_spec (length (sg_input s1)) n); [done|]. simplify_eq. simpl. rewrite length_take, length_drop, <-Hi. lia.
Qed.
Lemma grows_append d data s : grows d (N.of_nat (length data)) (append_to d data) s.
Proof.
  split; simpl; [|intros f Hd|done..].
  - intros p Hp. by rewrite lookup_alter_ne.
  - eexists. rewrite lookup_alter_eq, Hd. split_and!; [done..|]. simpl. rewrite length_app. lia.
Qed.

Lemma grows_copy fuel d (remaining : N) s :
  (remaining <= CHUNK * N.of_nat fuel)%N -> grows d remaining (copy_chunks fuel d remaining) s.
Proof.
  revert remaining s. induction fuel as [|fuel IH]; intros remaining s Hfuel; simpl; destruct (N.eqb_spec remaining 0) as [->|Hr];
    [by apply grows_same|lia|by apply grows_same|].
  set (amount := N.min remaining CHUNK).
  assert (Hn : (remaining = 0 + (0 + (amount + (remaining - amount))))%N) by (unfold amount; lia).
  match goal with |- grows _ _ ?body _ => set (m := body) end. rewrite Hn. unfold m. clear m Hn.
  apply grows_bind; [apply grows_read|]. intros b s1 [Hb _]%read_exact_length. apply grows_bind; [apply grows_call|]. intros _ s2 _.
  apply grows_bind.
  - replace amount with (N.of_nat (length b)) by lia. apply grows_append.
  - intros _ s3 _. apply IH. unfold amount, CHUNK in *. lia.
Qed.

Lemma create_file_any d mode op s :
  (exists e s1, create_file d mode op s = (Err (Io e), s1) /\ s1.(sg_files) = s.(sg_files) /\ s1.(sg_input) = s.(sg_input)) \/
  (exists s1, create_file d mode op s = (Ok tt, s1) /\ s.(sg_files) !! d = None /\ s1.(sg_input) = s.(sg_input) /\
     s1.(sg_files) = <[d := {| sf_data := []; sf_mode := mode |}]> s.(sg_files)).
Proof.
  unfold create_file, st_bind, call. destruct (sg_faults s) as [|[text|] faults]; simpl; [|left; by eexists _, _|];
    (destruct (sg_files s !! d) eqn:E; [left; by eexists _, _|right; by eexists]).
Qed.

Lemma tame_extract top m (size : N) s :
  m ∈ BUNDLE_MEMBERS -> (size <= MAX_BINARY_BYTES)%N -> tame top (extract_member (member_path top m) size) s.
Proof.
  intros Hm Hsize. set (d := member_path top m). unfold extract_member.
  destruct (create_file_any d 448 "create staged binary" s) as [(e&s1&H1&Hf&Hi)|(s1&H1&Hn&Hi&Hf)].
  - apply tame_same; unfold st_bind; rewrite H1; simpl; [done|by rewrite Hi|done].
  - assert (Hg : grows d (size + 0) (copy_chunks (S (N.to_nat (size / CHUNK))) d size ;;; call "fsync staged binary")%st s1).
    { apply grows_bind; [|intros; apply grows_call]. apply grows_copy. pose proof (N.mul_succ_div_gt size CHUNK ltac:(done)). lia. }
    destruct Hg as [Ho Hd Hi' Hx]. split; unfold st_bind at 1; rewrite H1; [|by rewrite <-Hi|done].
    intros p. destruct (decide (p = d)) as [->|Hp].
    + right. split; [done|]. destruct (Hd {| sf_data := []; sf_mode := 448 |}) as (g&Hg&Hgm&Hgl); [by rewrite Hf, lookup_insert_eq|].
      exists m, g. split_and!; [done..|simpl in Hgl; lia|done].
    + left. by rewrite Ho, Hf, lookup_insert_ne.
Qed.

(** *** Headers *)

Lemma reject_no_fuel {A} b text (k : result A UpdateError) :
  k <> Err no_fuel -> (reject_if b (Refused text) ?; k)%res <> Err no_fuel.
Proof. by destruct b. Qed.
Lemma parse_octal_no_fuel b what : parse_octal b what <> Err no_fuel.
Proof. unfold parse_octal. repeat apply reject_no_fuel. done. Qed.
Lemma nul_terminated_no_fuel b : nul_terminated b <> Err no_fuel.
Proof. unfold nul_terminated. destruct (until_nul b) as [t clear]. apply reject_no_fuel. by destruct (from_utf8 t). Qed.
Lemma checksum_no_fuel h : validate_header_checksum h <> Err no_fuel.
Proof.
  unfold validate_header_checksum. pose proof (parse_octal_no_fuel (field 148 156 h) "header checksum"). destruct (parse_octal _ _); simpl; [|naive_solver].
  by destruct (negb _).
Qed.
Lemma archive_path_no_fuel h : archive_path h <> Err no_fuel.
Proof.
  unfold archive_path. pose proof (nul_terminated_no_fuel (take 100 h)). destruct (nul_terminated (take 100 h)); simpl; [|naive_solver].
  pose proof (nul_terminated_no_fuel (field 345 500 h)). destruct (nul_terminated (field 345 500 h)); simpl; [|naive_solver]. by apply reject_no_fuel.
Qed.
#[local] Hint Resolve tame_lift parse_octal_no_fuel checksum_no_fuel archive_path_no_fuel tame_skip_padding tame_skip_padding_only : tame.

Lemma tame_member top header seen s : tame top (archive_member top header seen) s.
Proof.
  unfold archive_member. apply tame_bind; [auto with tame|intros _ ? _]. apply tame_bind; [auto with tame|intros path ? _].
  apply tame_bind; [auto with tame|intros ? ? [Hex%negb_false_iff%bool_decide_eq_true _]%refuse_iff]. do 2 (apply tame_bind; [auto with tame|intros _ ? _]).
  apply tame_bind; [auto with tame|intros mode ? _]. apply tame_bind; [auto with tame|intros size ? _].
  destruct (String.eqb_spec path (expected_dir top)) as [Hd|Hd].
  - apply tame_bind; [auto with tame|intros _ ? _]. apply tame_bind; auto with tame.
  - apply expected_cases in Hex as [Hx|(m&Hm&->)]; [by destruct Hd|].
    apply tame_bind; [|intros _ ? _; apply tame_bind; auto with tame].
    do 2 (apply tame_bind; [auto with tame|intros _ ? _]). apply tame_bind; [auto with tame|intros ? ? [Hz _]%refuse_iff].
    apply orb_false_iff in Hz as [_ Hz%N.ltb_ge]. by apply tame_extract.
Qed.

Lemma tame_loop fuel top seen zeros s : length s.(sg_input) < fuel -> tame top (archive_loop fuel top seen zeros) s.
Proof.
  revert seen zeros s. induction fuel as [|fuel IH]; intros seen zs s Hfuel; [lia|]. cbn [archive_loop].
  apply tame_bind; [auto with tame|]. intros header s1 [_ Hl]%read_exact_length.
  destruct (all_zero header); [destruct (N.eqb _ _); [auto with tame|apply IH; lia]|].
  apply tame_bind; [auto with tame|intros ? ? [_ ->]%refuse_iff].
  pose proof (tame_input _ _ _ (tame_member top header seen s1)) as Hm. apply tame_bind; [apply tame_member|]. intros seen' s2 E.
  rewrite E in Hm. apply IH. simpl in Hm. lia.
Qed.

(** C23: Whatever the decoder puts out, whichever calls fail, and whether the
    archive is accepted or not: the reader ends, files that were in the staging
    directory are untouched, and every file it creates is a binary of the
    bundle of at most 256 MiB that only its owner may run. *)
Theorem extraction_confined top s :
  confined top s (parse_ustar top s).2 /\ (parse_ustar top s).1 <> Err no_fuel.
Proof.
  enough (tame top (parse_ustar top) s) as [Hf _ Hx] by done. unfold parse_ustar.
  apply tame_bind; [by apply tame_same|]. intros ? ? [= <- <-]. apply tame_bind; [apply tame_loop; lia|]. intros seen s1 _.
  repeat (apply tame_bind; [auto with tame|intros ? ? _]). auto with tame.
Qed.

(** ** Successful runs meet no fault *)

Definition quiet (s : Stage) : Stage := with_faults [] s.

Class Clean {A} (m : StageM A) : Prop := clean : forall s a s', m s = (Ok a, s') -> m (quiet s) = (Ok a, quiet s').

#[local] Instance clean_ret {A} (a : A) : Clean (st_ret a).
Proof. intros s b s' [-> ->]%st_ret_ok. done. Qed.
#[local] Instance clean_lift {A} (r : result A UpdateError) : Clean (st_lift r).
Proof. intros s b s' [-> ->]%st_lift_ok. done. Qed.
#[local] Instance clean_refuse b e : Clean (refuse b e).
Proof. apply clean_lift. Qed.
#[local] Instance clean_call op : Clean (call op).
Proof. intros s [] s'. unfold call. destruct (sg_faults s) as [|[]]; naive_solver. Qed.
#[local] Instance clean_bind {A B} (m : StageM A) (k : A -> StageM B) : Clean m -> (forall a, Clean (k a)) -> Clean (st_bind m k).
Proof. intros Hm Hk s b s' (a&s1&H1%clean&H2%clean)%st_bind_ok. apply st_bind_ok. eauto. Qed.
#[local] Instance clean_read n what : Clean (read_exact n what).
Proof. apply clean_bind; [apply _|]. intros _ s a s'. simpl. destruct (_ <? _)%nat; naive_solver. Qed.
#[local] Instance clean_read_to_end n what : Clean (read_to_end n what).
Proof. apply clean_bind; [apply _|]. intros _ s a s'. naive_solver. Qed.
#[local] Instance clean_if {A} (b : bool) (m n : StageM A) : Clean m -> Clean n -> Clean (if b then m else n).
Proof. by destruct b. Qed.
#[local] Instance clean_padding_only (size : N) : Clean (skip_padding_only size).
Proof. unfold skip_padding_only. apply _. Qed.
#[local] Instance clean_padding (size : N) : Clean (skip_padding size).
Proof. unfold skip_padding. apply clean_bind; [|apply _]. apply clean_if; [apply _|]. apply clean_bind; [apply _|]. intros _ s a s'. unfold st_modify. naive_solver. Qed.
#[local] Instance clean_create d mode op : Clean (create_file d mode op).
Proof. apply clean_bind; [apply _|]. intros _ s a s'. simpl. destruct (sg_files s !! d); naive_solver. Qed.
#[local] Instance clean_copy fuel d (n : N) : Clean (copy_chunks fuel d n).
Proof.
  revert n. induction fuel; intros n; simpl; apply clean_if; try apply _. apply clean_bind; [apply _|]. intros b.
  apply clean_bind; [apply _|]. intros _. apply clean_bind; [|apply _]. intros s a s'. unfold append_to, st_modify. naive_solver.
Qed.
#[local] Instance clean_extract d (n : N) : Clean (extract_member d n).
Proof. unfold extract_member. apply _. Qed.
#[local] Instance clean_member top h seen : Clean (archive_member top h seen).
Proof. unfold archive_member. apply _. Qed.
#[local] Instance clean_loop fuel top seen zs : Clean (archive_loop fuel top seen zs).
Proof. revert seen zs. induction fuel; intros; simpl; apply _. Qed.
#[local] Instance clean_parse top : Clean (parse_ustar top).
Proof.
  unfold parse_ustar. intros s u s' (?&?&[= <- <-]&H)%st_bind_ok. apply st_bind_ok. exists (quiet s), (quiet s). split; [done|].
  revert H. change (sg_input (quiet s)) with (sg_input s). apply clean.
Qed.

(** What an accepted archive was, and what it left. *)
Lemma parse_ustar_sound top s u s' :
  parse_ustar top s = (Ok u, s') ->
  exists es k, s.(sg_input) = archive_stream es k /\ archive_ok top es /\ s'.(sg_files) = extract_all top es s.(sg_files).
Proof.
  intros (es&k&Hin&_&Hok&Hs')%clean%parse_ustar_run; [|done]. exists es, k. split_and!; [done..|]. apply (f_equal sg_files Hs').
Qed.

(** ** Verification *)

(** The runs of the members, one after the other, when all of them succeed. *)
Fixpoint runs {A} (f : BundleMember -> StageM A) (ms : list BundleMember) (s : Stage) (l : list A) (s' : Stage) : Prop :=
  match ms with
  | [] => l = [] /\ s' = s
  | m :: ms => exists a s1 l', f m s = (Ok a, s1) /\ runs f ms s1 l' s' /\ l = a :: l'
  end.

Lemma parallel_ok {A} (f : BundleMember -> StageM A) ms s l s' : parallel_members ms f s = (Ok l, s') -> runs f ms s l s'.
Proof.
  unfold parallel_members. intros (rs&s1&H1&[Hc ->]%st_lift_ok)%st_bind_ok. apply collect_iff in Hc. revert rs s l H1 Hc.
  induction ms as [|m ms IH]; intros rs s l H1 Hc; simpl in *.
  - apply st_ret_ok in H1 as [-> ->]. by apply Forall2_nil_inv_l in Hc as ->.
  - apply st_bind_ok in H1 as (r&s2&H2&H1). apply st_bind_ok in H1 as (rs'&s3&H3&[-> ->]%st_ret_ok).
    apply Forall2_cons_inv_l in Hc as (a&l'&Hr&Hl&->). unfold attempt_stage in H2. destruct (f m s) as [r' s4] eqn:E. injection H2 as -> ->.
    unfold id in Hr. subst r. exists a, s2, l'. split_and!; [done|by eapply IH|done].
Qed.

Lemma call_ok op s u s' : call op s = (Ok u, s') -> s'.(sg_files) = s.(sg_files) /\ s'.(sg_input) = s.(sg_input).
Proof. intros H. pose proof (call_same op s) as (Hf&Hi&_). by rewrite H in Hf, Hi. Qed.
Lemma read_file_ok path op s f s' : read_file path op s = (Ok f, s') -> s'.(sg_files) = s.(sg_files) /\ s.(sg_files) !! path = Some f.
Proof.
  intros (?&s1&[Hf _]%call_ok&(?&?&[= <- <-]&[H ->]%st_lift_ok)%st_bind_ok)%st_bind_ok. rewrite Hf in H.
  split; [done|]. destruct (sg_files s !! path); simpl in H; congruence.
Qed.
Lemma attempt_ok {A} (m : StageM A) s r s' : attempt_stage m s = (Ok r, s') -> m s = (r, s').
Proof. unfold attempt_stage. destruct (m s). naive_solver. Qed.

Section Verified.
Context {host : Host} {sha256 : Sha256} {json : MarkerJson}.

Lemma sha256_staged_ok path s h s' : sha256_staged path s = (Ok h, s') ->
  s'.(sg_files) = s.(sg_files) /\ exists f, s.(sg_files) !! path = Some f /\ h = sha256_hex (ByteBuf.as_str f.(sf_data)).
Proof.
  intros (f&s1&[Hf Hr]%read_file_ok&(?&s2&[Hf2 _]%call_ok&[-> ->]%st_ret_ok)%st_bind_ok)%st_bind_ok. split; [congruence|eauto].
Qed.

(** [codesign --verify] accepts the data; and what signing makes of it. *)
Definition verified (d : bytes) : Prop := macos = true -> codesign_verify d = Ok true.
Definition signed (d d' : bytes) : Prop := d' = d \/ macos = true /\ codesign_sign d = Ok (d', true).

Lemma command_success_ok r op u : command_success r op = Ok u -> r = Ok true.
Proof. unfold command_success. by destruct r as [[]|]. Qed.
Lemma verify_signature_files path s r s' : verify_staged_signature path s = (r, s') -> s'.(sg_files) = s.(sg_files).
Proof.
  unfold verify_staged_signature. destruct (negb macos); [by intros [= _ <-]|].
  unfold read_file, call, st_bind. destruct (sg_faults s) as [|[]]; simpl; [|by intros [= <- <-]|];
    destruct (sg_files s !! path); simpl; by intros [= <- <-].
Qed.
Lemma verify_signature_ok path s u s' : verify_staged_signature path s = (Ok u, s') ->
  s'.(sg_files) = s.(sg_files) /\ forall f, s.(sg_files) !! path = Some f -> verified f.(sf_data).
Proof.
  unfold verify_staged_signature, verified. destruct macos; simpl; [|intros [_ ->]%st_ret_ok; by split].
  intros (f&s1&[Hf Hr]%read_file_ok&[Hc%command_success_ok ->]%st_lift_ok)%st_bind_ok. split; [done|]. intros g Hg _. congruence.
Qed.

Lemma remove_quarantine_ok path s u s' : remove_quarantine path s = (Ok u, s') -> s' = s.
Proof.
  unfold remove_quarantine. destruct (negb macos); [by intros [_ ->]%st_ret_ok|]. intros (o&?&[_ ->]%st_lift_ok&(a&?&[_ ->]%st_lift_ok&H)%st_bind_ok)%st_bind_ok.
  destruct (existsb _ _); [by apply st_lift_ok in H as [_ ->]|by apply st_ret_ok in H as [_ ->]].
Qed.

(** The file at [path] has new data and the mode it had. *)
Definition rewritten (path : string) (f : StagedFile) (d : bytes) (s s' : Stage) : Prop :=
  s.(sg_files) !! path = Some f /\ s'.(sg_files) = <[path := {| sf_data := d; sf_mode := f.(sf_mode) |}]> s.(sg_files).

Lemma sign_ok path s u s' : sign path s = (Ok u, s') ->
  s'.(sg_files) = s.(sg_files) \/ exists f d, rewritten path f d s s' /\ signed f.(sf_data) d.
Proof.
  unfold sign, signed. destruct macos; simpl; [|intros [_ ->]%st_ret_ok; by left].
  intros (r&s1&Hv%attempt_ok%verify_signature_files&H)%st_bind_ok. destruct r as [?|?].
  - apply st_ret_ok in H as [_ ->]. by left.
  - apply st_bind_ok in H as (f&s2&[Hf2 Hr]%read_file_ok&H). apply st_bind_ok in H as ([d ok]&s3&[Hs ->]%st_lift_ok&H).
    apply st_bind_ok in H as (?&s3&[Hk%negb_false_iff ->]%refuse_iff&[= _ <-]). simpl in Hk. subst ok. right. exists f, d.
    split; [split; [congruence|]|right; split; [done|]; by destruct (codesign_sign (sf_data f)); simplify_eq/=]. simpl. rewrite Hf2, Hv.
    rewrite Hv in Hr. apply map_eq. intros p. destruct (decide (p = path)) as [->|Hp]; [by rewrite lookup_alter_eq, lookup_insert_eq, Hr|].
    by rewrite lookup_alter_ne, lookup_insert_ne.
Qed.

Lemma sign_and_verify_ok dir m s f u s' : s.(sg_files) !! member_path dir m = Some f -> sign_and_verify dir m s = (Ok u, s') ->
  exists d, s'.(sg_files) = <[member_path dir m := {| sf_data := d; sf_mode := f.(sf_mode) |}]> s.(sg_files) /\ signed f.(sf_data) d /\ verified d.
Proof.
  intros Hf (?&s0&->%remove_quarantine_ok&(?&s1&Hsign%sign_ok&[Hs Hv]%verify_signature_ok)%st_bind_ok)%st_bind_ok.
  destruct Hsign as [H1|(g&d&[Hg Hw]&Hd)].
  - exists f.(sf_data). rewrite H1 in *. split_and!; [|by left|by apply Hv]. rewrite Hs. destruct f. by rewrite insert_id.
  - assert (g = f) as -> by congruence. exists d. split_and!; [congruence|done|]. apply (Hv {| sf_data := d; sf_mode := f.(sf_mode) |}).
    by rewrite Hw, lookup_insert_eq.
Qed.

Lemma member_path_inj top m m' : member_path top m = member_path top m' -> m = m'.
Proof.
  unfold member_path. intros H%str_append_inj_l. simpl in H. injection H as H. by destruct m, m'.
Qed.

(** Runs that each rewrite the file of their member. *)
Lemma runs_each {A} (f : BundleMember -> StageM A) (path : BundleMember -> string) (pre : option StagedFile -> Prop)
    (made : BundleMember -> option StagedFile -> StagedFile -> A -> Prop) ms s l s' :
  (forall m m', path m = path m' -> m = m') -> NoDup ms ->
  (forall m s a s', pre (s.(sg_files) !! path m) -> f m s = (Ok a, s') ->
     exists y, s'.(sg_files) = <[path m := y]> s.(sg_files) /\ made m (s.(sg_files) !! path m) y a) ->
  (forall m, m ∈ ms -> pre (s.(sg_files) !! path m)) -> runs f ms s l s' ->
  Forall2 (fun m a => exists y, s'.(sg_files) !! path m = Some y /\ made m (s.(sg_files) !! path m) y a) ms l /\
  (forall p, (forall m, m ∈ ms -> p <> path m) -> s'.(sg_files) !! p = s.(sg_files) !! p).
Proof.
  intros Hinj Hnd Hf. revert s l. induction ms as [|m ms IH]; intros s l Hex Hr; simpl in Hr.
  - destruct Hr as [-> ->]. split; [constructor|done].
  - destruct Hr as (a&s1&l'&H1&Hr&->). apply NoDup_cons in Hnd as [Hm Hnd].
    destruct (Hf m s a s1) as (y&Hs1&Hy); [apply Hex; by left|done|].
    assert (Hother : forall p, p <> path m -> s1.(sg_files) !! p = s.(sg_files) !! p) by (intros p Hp; by rewrite Hs1, lookup_insert_ne).
    assert (Hms : forall m', m' ∈ ms -> path m' <> path m) by (intros m' Hm' E%Hinj; by subst m').
    destruct (IH Hnd) with s1 l' as [Hall Hkeep]; [intros m' Hm'; rewrite Hother by auto; apply Hex; by right|done|].
    split; [constructor|].
    + exists y. split; [|done]. rewrite Hkeep, Hs1; [by rewrite lookup_insert_eq|]. intros m' Hm' E. by apply (Hms m').
    + apply Forall2_same_length_lookup in Hall as [Hlen Hall]. apply Forall2_same_length_lookup. split; [done|].
      intros i m' a' Hi Ha. destruct (Hall i m' a' Hi Ha) as (y'&Hy'&Hm'). exists y'. split; [done|].
      rewrite Hother in Hm'; [done|]. apply Hms. by apply list_elem_of_lookup_2 in Hi.
    + intros p Hp. rewrite Hkeep, Hother; [done|apply Hp; by left|]. intros m' Hm'. apply Hp. by right.
Qed.

(** *** Trying and freezing *)

(** The version a binary prints, run beside the files [c]; and the report of the CLI. *)
Definition reports (c : gmap string bytes) (path : string) (m : BundleMember) (version : string) : Prop :=
  run_binary c path "--version" = Ok (as_bytes (name m ++ " " ++ version ++ String LF ""), true).
Definition self_tests (c : gmap string bytes) (path version : string) : Prop :=
  exists output report, run_binary c path "self-test" = Ok (output, true) /\ marker_parse (ByteBuf.as_str output) = Ok report /\
    get_str "schema" report = Some "haider.selftest.v0" /\ get_str "version" report = Some version /\ as_bool (get "ok" report) = Some true.

Lemma bounded_output_ok r limit op b : bounded_command_output r limit op = Ok b -> r = Ok (b, true).
Proof.
  unfold bounded_command_output. destruct r as [[out []]|]; simpl; [|by destruct (_ <? _)%N|done]. destruct (_ <? _)%N; simpl; [done|]. by intros [= ->].
Qed.
Lemma smoke_ok path m version s u s' : smoke_binary path m version s = (Ok u, s') ->
  s' = s /\ reports (contents s) path m version /\ (m = Cli -> self_tests (contents s) path version).
Proof.
  intros (?&?&[= <- <-]&(o&?&[Ho%bounded_output_ok ->]%st_lift_ok&H)%st_bind_ok)%st_bind_ok.
  apply st_bind_ok in H as (?&?&[Hv%negb_false_iff%bool_decide_eq_true ->]%refuse_iff&H). subst o.
  destruct (bool_decide_reflect (m = Cli)); [|by apply st_ret_ok in H as [_ ->]].
  apply st_bind_ok in H as (o&?&[Hs%bounded_output_ok ->]%st_lift_ok&H).
  apply st_bind_ok in H as (report&?&[Hr%map_err_ok ->]%st_lift_ok&[Hb ->]%refuse_iff).
  apply orb_false_iff in Hb as [[Hb1%negb_false_iff%bool_decide_eq_true Hb2%negb_false_iff%bool_decide_eq_true]%orb_false_iff Hb3%negb_false_iff%bool_decide_eq_true].
  split_and!; [done..|]. intros _. by exists o, report.
Qed.

Definition frozen (path : string) (m : BundleMember) (o : option StagedFile) (y : StagedFile) (b : StagedBinary) : Prop :=
  exists x, o = Some x /\ y = {| sf_data := x.(sf_data); sf_mode := 320 |} /\
  b = {| sb_member := m; sb_path := path; sb_digest := sha256_hex (ByteBuf.as_str x.(sf_data)) |}.

Lemma freeze_ok dir m s x b s' : s.(sg_files) !! member_path dir m = Some x -> freeze_binary dir m s = (Ok b, s') ->
  exists y, s'.(sg_files) = <[member_path dir m := y]> s.(sg_files) /\ frozen (member_path dir m) m (s.(sg_files) !! member_path dir m) y b.
Proof.
  intros Hx (?&s1&[H1 _]%read_file_ok&(?&s3&(?&s2&[H2 _]%read_file_ok&[= _ <-])%st_bind_ok&H)%st_bind_ok)%st_bind_ok.
  apply st_bind_ok in H as (?&s4&[H4 _]%call_ok&H). apply st_bind_ok in H as (h&s5&[H5 (f&Hf&->)]%sha256_staged_ok&[-> ->]%st_ret_ok).
  simpl in H4. rewrite H4, lookup_alter_eq, H2, H1, Hx in Hf. injection Hf as <-. eexists. split; [|by exists x].
  rewrite H5, H4, H2, H1. apply map_eq. intros p. destruct (decide (p = member_path dir m)) as [->|Hp].
  - by rewrite lookup_alter_eq, lookup_insert_eq, Hx.
  - by rewrite lookup_alter_ne, lookup_insert_ne.
Qed.

Lemma runs_same {A} (f : BundleMember -> StageM A) (P : BundleMember -> gmap string StagedFile -> Prop) ms s l s' :
  (forall m s a s', f m s = (Ok a, s') -> s'.(sg_files) = s.(sg_files) /\ P m s.(sg_files)) -> runs f ms s l s' ->
  s'.(sg_files) = s.(sg_files) /\ Forall (fun m => P m s.(sg_files)) ms.
Proof.
  intros Hf. revert s l. induction ms as [|m ms IH]; intros s l Hr; simpl in Hr; [by destruct Hr as [_ ->]|].
  destruct Hr as (a&s1&l'&[H1 HP]%Hf&[H2 Hall]%IH&_). rewrite H1 in *. by repeat constructor.
Qed.

(** What is known of a staged binary [b] of a member whose extracted file was [f]. *)
Record member_checked (dir version : string) (before after : Stage) (m : BundleMember) (b : StagedBinary) : Prop := {
  mc_member : b.(sb_member) = m;
  mc_path : b.(sb_path) = member_path dir m;
  mc_file : exists f d, before.(sg_files) !! member_path dir m = Some f /\
    after.(sg_files) !! member_path dir m = Some {| sf_data := d; sf_mode := 320 |} /\
    signed f.(sf_data) d /\ verified d /\ b.(sb_digest) = sha256_hex (ByteBuf.as_str d);
  mc_reports : reports (contents after) (member_path dir m) m version;
  mc_self_test : m = Cli -> self_tests (contents after) (member_path dir m) version
}.

Lemma frozen_contents dir ms bs s s' :
  Forall2 (fun m b => exists y, s'.(sg_files) !! member_path dir m = Some y /\ frozen (member_path dir m) m (s.(sg_files) !! member_path dir m) y b) ms bs ->
  (forall p, (forall m, m ∈ ms -> p <> member_path dir m) -> s'.(sg_files) !! p = s.(sg_files) !! p) -> contents s' = contents s.
Proof.
  intros Hall Hkeep. apply map_eq. intros p. unfold contents. rewrite !lookup_fmap. destruct (decide (p ∈ map (member_path dir) ms)) as [Hp|Hp].
  - apply list_elem_of_fmap in Hp as (m&->&Hm). apply list_elem_of_lookup in Hm as [i Hi].
    by destruct (Forall2_lookup_l _ _ _ _ _ Hall Hi) as (b&_&y&->&x&->&->&_).
  - rewrite Hkeep; [done|]. intros m Hm ->. apply Hp. by apply list_elem_of_fmap_2.
Qed.

Lemma verify_and_freeze_ok dir version ms s bs s' :
  NoDup ms -> (forall m, m ∈ ms -> is_Some (s.(sg_files) !! member_path dir m)) ->
  verify_and_freeze dir version ms s = (Ok bs, s') -> Forall2 (member_checked dir version s s') ms bs.
Proof.
  intros Hnd Hex (?&s1&Hsign%parallel_ok&(?&s2&Hsmoke%parallel_ok&H)%st_bind_ok)%st_bind_ok.
  apply st_bind_ok in H as (l&s3&Hfreeze%parallel_ok&(?&s4&[H4 _]%call_ok&[-> ->]%st_ret_ok)%st_bind_ok).
  apply (runs_each _ (member_path dir) is_Some (fun m o y _ => exists x, o = Some x /\ signed x.(sf_data) y.(sf_data) /\ verified y.(sf_data))) in Hsign as [Hsign _];
    [|apply member_path_inj|done| |done]; first last.
  { intros m ? ? ? [f Hf] H. destruct (sign_and_verify_ok _ _ _ _ _ _ Hf H) as (d&Hw&Hs&Hv). eexists. split; [done|]. by exists f. }
  apply (runs_same _ (fun m files => reports (sf_data <$> files) (member_path dir m) m version /\ (m = Cli -> self_tests (sf_data <$> files) (member_path dir m) version)))
    in Hsmoke as [Hsame Hsmoke]; first last.
  { intros m ? ? ? (->&Hr&Ht)%smoke_ok. by split_and!. }
  apply (runs_each _ (member_path dir) is_Some (fun m => frozen (member_path dir m) m)) in Hfreeze as [Hfreeze Hkeep]; [|apply member_path_inj|done| |]; first last.
  { intros m [i Hi]%list_elem_of_lookup. destruct (Forall2_lookup_l _ _ _ _ _ Hsign Hi) as (?&_&g&Hg&_). rewrite Hsame. by exists g. }
  { intros m ? ? ? [f Hf]. by apply (freeze_ok _ _ _ f). }
  pose proof (frozen_contents _ _ _ _ _ Hfreeze Hkeep) as Hc. assert (Hc4 : contents s4 = sf_data <$> sg_files s1) by (unfold contents in *; congruence).
  apply Forall2_same_length_lookup in Hfreeze as [Hlen Hfreeze]. apply Forall2_same_length_lookup. split; [done|]. intros i m b Hi Hb.
  destruct (Hfreeze i m b Hi Hb) as (y&Hy&z&Hx&->&->). destruct (Forall2_lookup_l _ _ _ _ _ Hsign Hi) as (?&_&g&Hg&f&Hf&Hs&Hv).
  destruct (Forall_lookup_1 _ _ _ _ Hsmoke Hi) as [Hr Ht]. rewrite Hsame in Hx. assert (z = g) as -> by congruence.
  split; [done|done| |by rewrite Hc4|by rewrite Hc4]. exists f, g.(sf_data). split_and!; [done|congruence|done..].
Qed.

Lemma find_binary_ok m bs s b s' : find_binary m bs s = (Ok b, s') -> s' = s.
Proof. induction bs as [|x bs IH]; simpl; [done|]. case_bool_decide; [by intros [_ ->]%st_ret_ok|done]. Qed.
Lemma verify_frozen_ok b s u s' : verify_frozen b s = (Ok u, s') -> s'.(sg_files) = s.(sg_files).
Proof.
  intros (?&s1&[H1 _]%read_file_ok&(?&?&[_ ->]%refuse_iff&(?&s2&[H2 _]%sha256_staged_ok&[_ ->]%refuse_iff)%st_bind_ok)%st_bind_ok)%st_bind_ok.
  congruence.
Qed.
Lemma verify_pair_ok p s u s' : verify_pair_immutable p s = (Ok u, s') -> s'.(sg_files) = s.(sg_files).
Proof.
  intros (?&s1&H%parallel_ok&[_ ->]%st_ret_ok)%st_bind_ok. eapply (runs_same _ (fun _ _ => True)); [|done].
  intros m s0 a s2 (b&?&->%find_binary_ok&Hv%verify_frozen_ok)%st_bind_ok. done.
Qed.

(** *** The archive *)

Lemma member_not_dir top m : member_path top m <> expected_dir top.
Proof. unfold member_path, expected_dir. intros H%str_append_inj_l. by destruct m. Qed.

Lemma extract_all_other top es files p : p ∉ map en_path es -> extract_all top es files !! p = files !! p.
Proof.
  revert files. induction es as [|e es IH]; intros files Hp; [done|]. simpl in *. apply not_elem_of_cons in Hp as [He Hp].
  unfold extract_all in *. simpl. rewrite IH by done. by apply extracted_other.
Qed.
Lemma extract_all_member top es files e :
  NoDup (map en_path es) -> e ∈ es -> e.(en_path) <> expected_dir top ->
  extract_all top es files !! e.(en_path) = Some {| sf_data := e.(en_data); sf_mode := 448 |}.
Proof.
  revert files. induction es as [|x es IH]; intros files Hnd He Hd; [by apply not_elem_of_nil in He|]. simpl in Hnd. apply NoDup_cons in Hnd as [Hx Hnd].
  change (extract_all top (x :: es) files) with (extract_all top es (extracted top x files)). apply elem_of_cons in He as [->|He]; [|by apply IH].
  rewrite extract_all_other by done. unfold extracted. by rewrite decide_False, lookup_insert_eq.
Qed.
Lemma archive_member_file top es files m :
  archive_ok top es -> m ∈ BUNDLE_MEMBERS ->
  exists e, e ∈ es /\ e.(en_path) = member_path top m /\ extract_all top es files !! member_path top m = Some {| sf_data := e.(en_data); sf_mode := 448 |}.
Proof.
  intros [_ Hnd Hall] Hm. assert (Hin : member_path top m ∈ paths es) by (rewrite Hall; apply expected_cases; eauto).
  apply elem_of_list_to_set, list_elem_of_fmap in Hin as (e&Hp&He). exists e. split_and!; [done..|]. rewrite Hp.
  apply extract_all_member; [done..|]. rewrite <-Hp. apply member_not_dir.
Qed.

Lemma extract_strict_ok archive top s u s' :
  extract_strict archive top s = (Ok u, s') ->
  exists f es k, s.(sg_files) !! archive = Some f /\ take 6 f.(sf_data) = XZ_MAGIC /\ tar_ustar f.(sf_data) = (archive_stream es k, true) /\
    archive_ok top es /\ s'.(sg_files) = extract_all top es s.(sg_files).
Proof.
  intros (f&s1&[H1 Hf]%read_file_ok&(?&?&[_ ->]%st_reject_if_ok&H)%st_bind_ok)%st_bind_ok.
  apply st_bind_ok in H as (?&?&[Hm%negb_false_iff%bool_decide_eq_true ->]%refuse_iff&H). apply st_bind_ok in H as (?&s2&[H2 _]%call_ok&H).
  apply st_bind_ok in H as (?&s3&[= _ <-]&H). apply st_bind_ok in H as (r&s4&Hp%attempt_ok&H). apply st_bind_ok in H as (?&s5&[H5 _]%call_ok&H).
  apply st_bind_ok in H as (?&?&[-> ->]%st_lift_ok&[Ht%negb_false_iff ->]%refuse_iff). apply parse_ustar_sound in Hp as (es&k&Hin&Hok&Hfiles).
  exists f, es, k. simpl in Hin. destruct (tar_ustar _) as [out ok]. simpl in *. subst out ok. split_and!; [done..|]. by rewrite H5, Hfiles, H2, H1.
Qed.

(** *** Downloads *)

Lemma create_private_ok path s u s' : create_private_file path s = (Ok u, s') ->
  s.(sg_files) !! path = None /\ s'.(sg_files) = <[path := {| sf_data := []; sf_mode := 384 |}]> s.(sg_files).
Proof.
  intros (?&s1&H1&[H2 _]%call_ok)%st_bind_ok.
  destruct (create_file_any path 384 "create private partial download" s) as [(e&s2&E&_)|(s2&E&Hn&_&Hf)]; rewrite E in H1; [done|].
  injection H1 as _ <-. split; [done|congruence].
Qed.
Lemma download_ok url path limit s u s' : download url path limit s = (Ok u, s') ->
  exists data, fetch url limit = Ok data /\
    s'.(sg_files) = alter (fun f => {| sf_data := data; sf_mode := f.(sf_mode) |}) path s.(sg_files).
Proof. intros (data&?&[Hd ->]%st_lift_ok&[= _ <-])%st_bind_ok. by exists data. Qed.

(** Both files hold what was downloaded. *)
Lemma downloads_ok archive checksum a_url a_max c_url c_max s u1 s1 u2 s2 u3 s3 u4 s4 :
  create_private_file archive s = (Ok u1, s1) -> create_private_file checksum s1 = (Ok u2, s2) ->
  download a_url archive a_max s2 = (Ok u3, s3) -> download c_url checksum c_max s3 = (Ok u4, s4) ->
  exists a c, fetch a_url a_max = Ok a /\ fetch c_url c_max = Ok c /\
    s4.(sg_files) !! archive = Some {| sf_data := a; sf_mode := 384 |} /\ s4.(sg_files) !! checksum = Some {| sf_data := c; sf_mode := 384 |}.
Proof.
  intros [_ H1]%create_private_ok [Hn H2]%create_private_ok (a&Ha&H3)%download_ok (c&Hc&H4)%download_ok.
  assert (Hne : archive <> checksum) by (intros ->; by rewrite H1, lookup_insert_eq in Hn).
  exists a, c. split_and!; [done..| |].
  - by rewrite H4, lookup_alter_ne, H3, lookup_alter_eq, H2, lookup_insert_ne, H1, lookup_insert_eq by done.
  - by rewrite H4, lookup_alter_eq, H3, lookup_alter_ne, H2, lookup_insert_eq by done.
Qed.

(** A binary of the pair: data its member may have ([from]), signed when it was
    not, accepted by the signature check, frozen under its digest, and the
    version it and the CLI's self-test report. *)
Record binary_checked (dir version : string) (from : BundleMember -> bytes -> Prop) (s : Stage) (m : BundleMember) (b : StagedBinary) : Prop := {
  bc_member : b.(sb_member) = m;
  bc_path : b.(sb_path) = member_path dir m;
  bc_file : exists d0 d, from m d0 /\ signed d0 d /\ verified d /\
    s.(sg_files) !! b.(sb_path) = Some {| sf_data := d; sf_mode := 320 |} /\ b.(sb_digest) = sha256_hex (ByteBuf.as_str d);
  bc_reports : reports (contents s) b.(sb_path) m version;
  bc_self_test : m = Cli -> self_tests (contents s) b.(sb_path) version
}.

(** The whole pair. *)
Record bundle_checked (dir v : string) (from : BundleMember -> bytes -> Prop) (ms : list BundleMember) (p : VerifiedStagedPair) (s : Stage) : Prop := {
  bu_binaries : Forall2 (binary_checked dir v from s) ms p.(binaries);
  bu_version : p.(version) = v;
  bu_pair : pair_ok p
}.

Lemma checked_pair dir version from s ms bs v h : ms ∈ [BUNDLE_MEMBERS; ALL_BUNDLE_MEMBERS] -> NoDup ms ->
  Forall2 (binary_checked dir version from s) ms bs -> exact_digest h -> pair_ok {| binaries := bs; version := v; source_digest := h |}.
Proof.
  intros Hms Hnd Hall Hh. assert (Hm : map sb_member bs = ms /\ map sb_path bs = map (member_path dir) ms).
  { clear -Hall. induction Hall as [|m b ms bs Hb Hall [IH1 IH2]]; [done|]. simpl. by rewrite IH1, IH2, (bc_member _ _ _ _ _ _ Hb), (bc_path _ _ _ _ _ _ Hb). }
  destruct Hm as [Hm Hp]. split; simpl; [unfold pair_members; simpl; by rewrite Hm| |done].
  rewrite Hp. apply (NoDup_fmap_2_strong (member_path dir)); [intros ?? _ _; apply member_path_inj|done].
Qed.

Lemma members_nodup ms : ms ∈ [BUNDLE_MEMBERS; ALL_BUNDLE_MEMBERS] -> NoDup ms.
Proof. rewrite elem_of_cons, list_elem_of_singleton. intros [-> | ->]; by apply (bool_decide_unpack _). Qed.

(** The end that all bundles share. *)
Lemma frozen_bundle_ok dir v digest (from : BundleMember -> bytes -> Prop) ms s p s' :
  (bs <- verify_and_freeze dir v ms ;; call "fsync directory" ;;;
   let pair := {| binaries := bs; version := v; source_digest := digest |} in verify_pair_immutable pair ;;; st_ret pair)%st s = (Ok p, s') ->
  ms ∈ [BUNDLE_MEMBERS; ALL_BUNDLE_MEMBERS] -> exact_digest digest ->
  (forall m, m ∈ ms -> exists f, s.(sg_files) !! member_path dir m = Some f /\ from m f.(sf_data)) ->
  p.(source_digest) = digest /\ bundle_checked dir v from ms p s'.
Proof.
  intros H Hms Hdigest Hfrom. assert (Hnd := members_nodup ms Hms).
  apply st_bind_ok in H as (bs&s1&Hbs%verify_and_freeze_ok&H); [|done|intros m (f&->&_)%Hfrom; done].
  apply st_bind_ok in H as (?&s2&[H2 _]%call_ok&H). apply st_bind_ok in H as (?&s3&H3%verify_pair_ok&[-> ->]%st_ret_ok).
  assert (Hfiles : s3.(sg_files) = s1.(sg_files)) by congruence.
  assert (Hall : Forall2 (binary_checked dir v from s3) ms bs).
  { apply Forall2_same_length_lookup in Hbs as [Hlen Hbs]. apply Forall2_same_length_lookup. split; [done|]. intros i m b Hi Hb.
    destruct (Hbs i m b Hi Hb) as [Hm Hp (f&d&Hf&Hd&Hs&Hv&Hh) Hr Ht]. unfold contents in *. rewrite <-Hfiles in *.
    split; rewrite ?Hp; try done. destruct (Hfrom m) as (g&Hg&Hdata); [by apply list_elem_of_lookup_2 in Hi|].
    assert (g = f) as -> by congruence. by exists f.(sf_data), d. }
  split; [done|]. split; [done|done|]. by eapply checked_pair.
Qed.

(** The data of a member's entry. *)
Definition from_archive (top : string) (es : list Entry) (m : BundleMember) (d : bytes) : Prop :=
  exists e, e ∈ es /\ e.(en_path) = member_path top m /\ e.(en_data) = d.

Record release_checked (sel : ReleaseSelection) (target : string) (p : VerifiedStagedPair) (s : Stage) : Prop := {
  rc_source : exists archive checksum es k, let top := top_of sel target in
    sel.(archive_name) = (top ++ ".tar.xz")%string /\
    fetch sel.(archive_url) MAX_ARCHIVE_BYTES = Ok archive /\ fetch sel.(checksum_url) MAX_CHECKSUM_BYTES = Ok checksum /\
    parse_checksum_bytes checksum sel.(archive_name) = Ok (sha256_hex (ByteBuf.as_str archive)) /\
    p.(source_digest) = sha256_hex (ByteBuf.as_str archive) /\
    take 6 archive = XZ_MAGIC /\ tar_ustar archive = (archive_stream es k, true) /\ archive_ok top es /\
    bundle_checked top (version_text sel.(rs_version)) (from_archive top es) BUNDLE_MEMBERS p s
}.

Lemma stage_into_ok {H256 : Sha256Hex sha256} sel compiled s p s' :
  stage_into sel compiled s = (Ok p, s') -> exists target, compiled = Ok target /\ release_checked sel target p s'.
Proof.
  intros (?&s1&H1&(?&s2&H2&(?&s3&H3&(?&s4&H4&H)%st_bind_ok)%st_bind_ok)%st_bind_ok)%st_bind_ok.
  destruct (downloads_ok _ _ _ _ _ _ _ _ _ _ _ _ _ _ _ H1 H2 H3 H4) as (a&c&Ha&Hc&Hfa&Hfc). clear H1 H2 H3 H4.
  apply st_bind_ok in H as (expected&s6&(f&s5&[H5 Hf]%read_file_ok&[Hsum ->]%st_lift_ok)%st_bind_ok&H).
  apply st_bind_ok in H as (actual&s7&[H7 (g&Hg&->)]%sha256_staged_ok&H). rewrite Hfc in Hf. injection Hf as <-. rewrite H5, Hfa in Hg. injection Hg as <-.
  apply st_bind_ok in H as (?&?&[Heq%negb_false_iff%String.eqb_eq ->]%refuse_iff&H). subst expected.
  apply st_bind_ok in H as (target&?&[-> ->]%st_lift_ok&H). apply st_bind_ok in H as (?&?&[Hname ->]%refuse_iff&H).
  apply orb_false_iff in Hname as [Hname%negb_false_iff%String.eqb_eq _].
  apply st_bind_ok in H as (?&s8&[H8 _]%call_ok&H). apply st_bind_ok in H as (?&s9&[H9 _]%call_ok&H).
  apply st_bind_ok in H as (?&s10&(f&es&k&Hf&Hxz&Htar&Hok&H10)%extract_strict_ok&H). rewrite H9, H8, H7, H5, Hfa in Hf. injection Hf as <-. cbn [sf_data] in *.
  apply (frozen_bundle_ok _ _ _ (from_archive (top_of sel target) es)) in H as [Hd Hb]; [|by left|apply sha256_exact|].
  - exists target. split; [done|]. split. by exists a, c, es, k.
  - intros m Hm. destruct (archive_member_file _ _ (sg_files s9) m Hok Hm) as (e&He&Hp&Hfile). rewrite H10. eexists. split; [done|]. by exists e.
Qed.

(** *** Bundles of a directory *)

Lemma inspect_source_ok found op f : inspect_source found op = Ok f -> found = Ok (Some f).
Proof. unfold inspect_source. destruct found as [[g|]|]; naive_solver. Qed.
Lemma set_mode_ok path mode op s u s' : set_mode path mode op s = (Ok u, s') ->
  s'.(sg_files) = alter (fun f => {| sf_data := f.(sf_data); sf_mode := mode |}) path s.(sg_files).
Proof. intros (?&s1&[H1 _]%read_file_ok&[= _ <-])%st_bind_ok. simpl. by rewrite H1. Qed.

(** The source was bounded, and what was copied has the digest of what was hashed. *)
Definition from_source (sources : BundleMember -> result (option SourceFile) string) (m : BundleMember) (d : bytes) : Prop :=
  exists f, sources m = Ok (Some f) /\ unbounded f = false /\ d = f.(so_copied) /\
    sha256_hex (ByteBuf.as_str d) = sha256_hex (ByteBuf.as_str f.(so_hashed)).
Definition source_line (m : BundleMember) (d : bytes) : string := (name m ++ " " ++ sha256_hex (ByteBuf.as_str d) ++ String LF "")%string.

(** A run that makes the file of its member and prints its line. *)
Definition stages_member (dir : string) (from : BundleMember -> bytes -> Prop) (m : BundleMember) (y : StagedFile) (line : string) : Prop :=
  from m y.(sf_data) /\ line = source_line m y.(sf_data).

Lemma written_file path (d e : bytes) m m' (files : gmap string StagedFile) :
  alter (fun f => {| sf_data := f.(sf_data); sf_mode := m' |}) path
    (alter (fun f => {| sf_data := d; sf_mode := f.(sf_mode) |}) path (<[path := {| sf_data := e; sf_mode := m |}]> files)) =
  <[path := {| sf_data := d; sf_mode := m' |}]> files.
Proof.
  apply map_eq. intros p. destruct (decide (p = path)) as [->|Hp]; [by rewrite !lookup_alter_eq, !lookup_insert_eq|].
  by rewrite !lookup_alter_ne, !lookup_insert_ne.
Qed.

Lemma stage_source_ok sources dir m s line s' : stage_source sources dir m s = (Ok line, s') ->
  exists y, s'.(sg_files) = <[member_path dir m := y]> s.(sg_files) /\ stages_member dir (from_source sources) m y line.
Proof.
  intros (f&?&[Hf%inspect_source_ok ->]%st_lift_ok&(?&?&[Hb ->]%refuse_iff&H)%st_bind_ok)%st_bind_ok.
  apply st_bind_ok in H as (?&s1&[H1 _]%call_ok&H). apply st_bind_ok in H as (?&s2&[H2 _]%call_ok&H).
  apply st_bind_ok in H as (?&s3&[_ H3]%create_private_ok&H). apply st_bind_ok in H as (?&s4&[H4 _]%call_ok&H). apply st_bind_ok in H as (?&s5&[= _ <-]&H).
  apply st_bind_ok in H as (h&s6&[H6 (g&Hg&->)]%sha256_staged_ok&H). apply st_bind_ok in H as (?&?&[Heq%negb_false_iff%String.eqb_eq ->]%refuse_iff&H).
  apply st_bind_ok in H as (?&s7&H7%set_mode_ok&[-> ->]%st_ret_ok). simpl in *. rewrite H4, H3, H2, H1 in *.
  rewrite lookup_alter_eq, lookup_insert_eq in Hg. injection Hg as <-. rewrite H6, written_file in H7. eexists. split; [done|].
  simpl in *. split; [by exists f|]. unfold source_line. simpl. by rewrite Heq.
Qed.

(** The members are staged, in a manifest that lists their digests. *)
Lemma staged_members_ok (f : BundleMember -> StageM string) dir from ms s l s' :
  NoDup ms -> (forall m s line s', f m s = (Ok line, s') -> exists y, s'.(sg_files) = <[member_path dir m := y]> s.(sg_files) /\ stages_member dir from m y line) ->
  runs f ms s l s' -> Forall2 (fun m line => exists y, s'.(sg_files) !! member_path dir m = Some y /\ stages_member dir from m y line) ms l.
Proof.
  intros Hnd Hf Hr. apply (runs_each _ (member_path dir) (fun _ => True) (fun m _ => stages_member dir from m)) in Hr as [Hr _];
    [done|apply member_path_inj|done| |done]. intros m ? ? ? _. apply Hf.
Qed.

Lemma finish_bundle_ok {H256 : Sha256Hex sha256} dir manifest op text v ms from l s p s' :
  finish_bundle dir manifest op text v ms s = (Ok p, s') -> ms ∈ [BUNDLE_MEMBERS; ALL_BUNDLE_MEMBERS] ->
  Forall2 (fun m line => exists y, s.(sg_files) !! member_path dir m = Some y /\ stages_member dir from m y line) ms l ->
  p.(source_digest) = sha256_hex text /\ bundle_checked dir v from ms p s'.
Proof.
  intros H Hms Hall. apply st_bind_ok in H as (?&s1&[Hn H1]%create_private_ok&H). apply st_bind_ok in H as (?&s2&[H2 _]%call_ok&H).
  apply st_bind_ok in H as (?&s3&[= _ <-]&H). apply st_bind_ok in H as (h&s4&[H4 (g&Hg&->)]%sha256_staged_ok&H). simpl in *.
  rewrite H2, H1, lookup_alter_eq, lookup_insert_eq in Hg. injection Hg as <-. simpl in H. rewrite as_str_as_bytes in H.
  eapply frozen_bundle_ok; [exact H|done|apply sha256_exact|]. intros m [i Hi]%list_elem_of_lookup.
  destruct (Forall2_lookup_l _ _ _ _ _ Hall Hi) as (line&_&y&Hy&Hfrom&_). exists y. split; [|done].
  assert (Hne : manifest <> member_path dir m) by congruence. by rewrite H4, H2, H1, lookup_alter_ne, lookup_insert_ne.
Qed.

Lemma source_members_shape b : source_members b ∈ [BUNDLE_MEMBERS; ALL_BUNDLE_MEMBERS].
Proof. destruct b; [by right; left|by left]. Qed.

Lemma dropping_ok {A} (m : StageM A) s a s' : dropping m s = (Ok a, s') -> m s = (Ok a, s').
Proof. unfold dropping. by destruct (m s) as [[] ?]. Qed.

(** The pair records the digest of a manifest that lists its sources. *)
Definition records (from : BundleMember -> bytes -> Prop) (ms : list BundleMember) (p : VerifiedStagedPair) : Prop :=
  exists lines, Forall2 (fun m line => exists d, from m d /\ line = source_line m d) ms lines /\ p.(source_digest) = sha256_hex (concat_str lines).

Lemma staged_records dir from ms l (s : Stage) p :
  Forall2 (fun m line => exists y, s.(sg_files) !! member_path dir m = Some y /\ stages_member dir from m y line) ms l ->
  p.(source_digest) = sha256_hex (concat_str l) -> records from ms p.
Proof.
  intros Hall Hd. exists l. split; [|done]. eapply Forall2_impl; [exact Hall|]. intros m line (y&_&Hy&->). by exists y.(sf_data).
Qed.

(** A bundle staged from a directory has the members the directory has, each
    the bounded regular file that was hashed there. *)
Theorem directory_bundle_checked {H256 : Sha256Hex sha256} sources v s p s' :
  stage_directory_bundle sources v s = (Ok p, s') ->
  exists portal ver, let ms := source_members (bool_decide (is_Some portal)) in
    sources WaylandPortal = Ok portal /\ parse_version v = Ok ver /\
    records (from_source sources) ms p /\ bundle_checked "directory-bundle" v (from_source sources) ms p s'.
Proof.
  intros (ver&?&[Hver%map_err_ok ->]%st_lift_ok&(?&s1&_&H%dropping_ok)%st_bind_ok)%st_bind_ok.
  apply st_bind_ok in H as (?&s2&_&H). apply st_bind_ok in H as (?&s3&_&H). apply st_bind_ok in H as (portal&?&[Hp%map_err_ok ->]%st_lift_ok&H).
  apply st_bind_ok in H as (l&s4&Hl%parallel_ok&H). assert (Hms := source_members_shape (bool_decide (is_Some portal))).
  apply (staged_members_ok _ "directory-bundle" (from_source sources)) in Hl; [|by apply members_nodup|apply stage_source_ok].
  destruct (finish_bundle_ok _ _ _ _ _ _ _ _ _ _ _ H Hms Hl) as [Hd Hb]. exists portal, ver. split_and!; [done..| |done]. by eapply staged_records.
Qed.

(** *** Embedded bundles *)

Definition bounded_bytes (d : bytes) : Prop := d <> [] /\ (N.of_nat (length d) <= MAX_BINARY_BYTES)%N.
Definition from_embedded (thin payload : bytes) (daemon : result (option SourceFile) string) (m : BundleMember) (d : bytes) : Prop :=
  match m with
  | Cli => d = thin /\ bounded_bytes d
  | Tui => d = payload /\ bounded_bytes d
  | Daemon => exists f, daemon = Ok (Some f) /\ unbounded f = false /\ f.(so_mine) = true /\ d = f.(so_copied)
  | WaylandPortal => False
  end.

Lemma write_embedded_ok path d s u s' : write_embedded_binary path d s = (Ok u, s') ->
  bounded_bytes d /\ s'.(sg_files) = alter (fun f => {| sf_data := d; sf_mode := f.(sf_mode) |}) path s.(sg_files).
Proof.
  intros (?&?&[Hb ->]%refuse_iff&(?&s1&[H1 _]%call_ok&[= _ <-])%st_bind_ok)%st_bind_ok. apply orb_false_iff in Hb as [Hne Hmax%N.ltb_ge].
  simpl. rewrite H1. split; [|done]. split; [by destruct d|done].
Qed.

Lemma stage_embedded_ok thin payload daemon dir m s line s' : stage_embedded thin payload daemon dir m s = (Ok line, s') ->
  exists y, s'.(sg_files) = <[member_path dir m := y]> s.(sg_files) /\ stages_member dir (from_embedded thin payload daemon) m y line.
Proof.
  intros (?&s1&[_ H1]%create_private_ok&(?&s2&H2&H)%st_bind_ok)%st_bind_ok.
  apply st_bind_ok in H as (?&s3&H3%set_mode_ok&(h&s4&[H4 (g&Hg&->)]%sha256_staged_ok&[-> ->]%st_ret_ok)%st_bind_ok).
  assert (Hw : exists d, from_embedded thin payload daemon m d /\
    s2.(sg_files) = alter (fun f => {| sf_data := d; sf_mode := f.(sf_mode) |}) (member_path dir m) s1.(sg_files)).
  { destruct m; [|apply write_embedded_ok in H2 as [Hb H2]; eexists; by split..|done].
    apply st_bind_ok in H2 as (f&?&[Hf%inspect_source_ok ->]%st_lift_ok&(?&?&[[Hb Hm%negb_false_iff]%orb_false_iff ->]%refuse_iff&(?&s5&[H5 _]%call_ok&[= _ <-])%st_bind_ok)%st_bind_ok).
    exists f.(so_copied). split; [by exists f|]. simpl. by rewrite H5. }
  destruct Hw as (d&Hd&Hw). rewrite Hw, H1, written_file in H3. rewrite H3, lookup_insert_eq in Hg. injection Hg as <-.
  eexists. rewrite H4. split; [done|]. by split.
Qed.

Lemma stage_all_ok f ms s text s' : stage_all f ms s = (Ok text, s') -> exists l, runs f ms s l s' /\ text = concat_str l.
Proof.
  revert s text s'. induction ms as [|m ms IH]; intros s text s' H; simpl in H; [apply st_ret_ok in H as [-> ->]; by exists []|].
  apply st_bind_ok in H as (line&s1&H1&(rest&s2&(l&Hr&->)%IH&[-> ->]%st_ret_ok)%st_bind_ok). exists (line :: l). split; [|done]. by exists line, s1, l.
Qed.

(** A bundle staged from an embedded payload is the two embedded executables and
    the bounded daemon of the current user. *)
Theorem embedded_bundle_checked {H256 : Sha256Hex sha256} thin payload daemon compiled v s p s' :
  stage_embedded_bundle thin payload daemon compiled v s = (Ok p, s') ->
  exists ver, parse_version v = Ok ver /\ records (from_embedded thin payload daemon) BUNDLE_MEMBERS p /\
    bundle_checked "embedded-bundle" v (from_embedded thin payload daemon) BUNDLE_MEMBERS p s'.
Proof.
  intros (?&?&[_ ->]%st_lift_ok&(ver&?&[Hver%map_err_ok ->]%st_lift_ok&(?&s1&_&H%dropping_ok)%st_bind_ok)%st_bind_ok)%st_bind_ok.
  apply st_bind_ok in H as (?&s2&_&H). apply st_bind_ok in H as (?&s3&_&H). apply st_bind_ok in H as (text&s4&(l&Hl&->)%stage_all_ok&H).
  apply (staged_members_ok _ "embedded-bundle" (from_embedded thin payload daemon)) in Hl; [|by apply members_nodup; left|apply stage_embedded_ok].
  destruct (finish_bundle_ok _ _ _ _ _ _ _ _ _ _ _ H ltac:(by left) Hl) as [Hd Hb]. exists ver. split_and!; [done| |done]. by eapply staged_records.
Qed.
End Verified.

(** C21: A bundle that staging hands over was checked in full.  When
    [stage_release] succeeds, the archive is the one the selection names, its
    SHA-256 is the digest its checksum file gives for that name and is recorded
    in the pair, and it decodes to a well-formed release archive.  The pair has
    exactly the required members; each is the entry of the archive, signed ad
    hoc at most, accepted by the signature check of macOS, read-only and
    executable by the owner, recorded under its SHA-256, and reports exactly the selected
    version, as does the CLI's self-test.  Such a pair is one that the
    transaction theorems ask for ([pair_ok]). *)
Theorem staged_release_checked {host : Host} {sha256 : Sha256} {json : MarkerJson} {H256 : Sha256Hex sha256} sel compiled s p s' :
  stage_release sel compiled s = (Ok p, s') -> exists target, compiled = Ok target /\ release_checked sel target p s'.
Proof.
  intros (?&s1&_&H)%st_bind_ok. unfold dropping in H. destruct (stage_into sel compiled s1) as [[q|e] s2] eqn:E; [|done].
  injection H as <- <-. by apply (stage_into_ok sel compiled s1).
Qed.

(** ** An archive *)

Definition pad (n : nat) (s : string) : bytes := as_bytes s ++ zeros (n - String.length s).
Fixpoint octal (k : nat) (n : N) : string :=
  match k with
  | 0 => ""
  | S k => octal k (n / 8) ++ String (ascii_of_N (48 + n mod 8)) ""
  end.
Definition sample_header (path mode size kind : string) : bytes :=
  let before := pad 100 path ++ pad 8 mode ++ zeros 16 ++ pad 12 size ++ zeros 12 in
  let behind := pad 1 kind ++ zeros 355 in
  before ++ pad 8 (octal 6 (sum_bytes before + 256 + sum_bytes behind)) ++ behind.

Definition sample_top : string := "haider-v1.10.0-aarch64-apple-darwin-split".
Definition sample_binary (m : BundleMember) (data : string) : bytes :=
  sample_header (member_path sample_top m) "0000755" (octal 11 (len data)) "0" ++ pad 512 data.
Definition sample_archive : bytes :=
  sample_binary Cli "cc" ++ sample_header (expected_dir sample_top) "0000755" "0" "5" ++ sample_binary Daemon "d" ++ sample_binary Tui "tt" ++ zeros 2048.
Definition sample_stage (input : bytes) : Stage := {| sg_input := input; sg_files := ∅; sg_faults := [] |}.

Lemma run_result {A} (run : result A UpdateError * Stage) a : run.1 = Ok a -> run = (Ok a, run.2).
Proof. destruct run. simpl. by intros ->. Qed.

Lemma sample_accepted : (parse_ustar sample_top (sample_stage sample_archive)).1 = Ok tt.
Proof. by vm_compute. Qed.

Lemma archive_grammar_witness : exists es k,
  sample_archive = archive_stream es k /\ archive_ok sample_top es /\
  (parse_ustar sample_top (sample_stage sample_archive)).2.(sg_files) = extract_all sample_top es ∅.
Proof.
  destruct (proj1 (archive_grammar sample_top (sample_stage sample_archive) (parse_ustar sample_top (sample_stage sample_archive)).2
    eq_refl (fun m _ => lookup_empty (member_path sample_top m)))) as (es&k&Hin&_&Hok&Hs).
  - exact (run_result _ _ sample_accepted).
  - exists es, k. split_and!; [exact Hin|exact Hok|]. by rewrite Hs.
Defined.

(** A host whose signature check asks for two bytes, so that the daemon is
    signed, and whose tools otherwise succeed. *)
Definition sample_digest_line : string := times 64 (digit 6) ++ "  ./" ++ sample_top ++ ".tar.xz" ++ String LF "".
Definition sample_host : Host := {|
  macos := true;
  fetch url _ := Ok (if String.eqb url "archive" then XZ_MAGIC else as_bytes sample_digest_line);
  tar_ustar _ := (sample_archive, true);
  xattr_list _ := Ok ([], true);
  xattr_delete _ := Ok true;
  codesign_verify data := Ok (length data =? 2)%nat;
  codesign_sign data := Ok (data ++ ["s"%char], true);
  run_binary _ path argument :=
    Ok (if String.eqb argument "--version"
        then as_bytes (default "" (strip_prefix (sample_top ++ "/") path) ++ " 1.10.0" ++ String LF "") else [], true)
|}.
Definition sample_report : MarkerJson := {|
  marker_text _ := Err "unused";
  marker_parse _ := Ok (Object [("schema", Str "haider.selftest.v0"); ("version", Str "1.10.0"); ("ok", Bool true)])
|}.
Definition sample_selection : ReleaseSelection := {|
  rs_version := {| sv_major := 1; sv_minor := 10; sv_patch := 0; sv_pre := []; sv_build := [] |};
  archive_name := sample_top ++ ".tar.xz"; archive_url := "archive";
  checksum_name := sample_top ++ ".tar.xz.sha256"; checksum_url := "checksum"
|}.
Definition sample_staging : result VerifiedStagedPair UpdateError * Stage :=
  @stage_release sample_host sample_sha256 sample_report sample_selection (Ok "aarch64-apple-darwin") (sample_stage []).

Lemma sample_staged : exists p, sample_staging.1 = Ok p.
Proof. eexists. vm_compute. reflexivity. Qed.

Lemma staged_release_checked_witness : exists p target,
  sample_staging.1 = Ok p /\ @release_checked sample_host sample_sha256 sample_report sample_selection target p sample_staging.2.
Proof.
  destruct sample_staged as [p Hp].
  destruct (@staged_release_checked sample_host sample_sha256 sample_report sample_hex sample_selection (Ok "aarch64-apple-darwin") (sample_stage []) p sample_staging.2)
    as (target&_&H).
  - exact (run_result _ _ Hp).
  - exists p, target. split; [exact Hp|exact H].
Defined.
